(* ===== verification/_CoqProject ===== *)
-Q . S2P
Prelude.v
RustStd.v
GatewayContracts.v
GatewaySession.v
GatewayWriter.v
GatewayNode.v
GatewayMachine.v
GatewayTunnel.v
GatewayRegistry.v
Handshake.v
LoopBuffer.v
BodyRelay.v
H1Headers.v
H1Rewrite.v
OAuthForm.v
OAuthTokens.v
SigningKey.v
OAuthServer.v
OAuthServerSpec.v
H1Pool.v
IpBlocklist.v
H1Reader.v
H1ClientWriter.v
ProxyPassConfig.v
H1Upstream.v
H1Worker.v
GoogleAuth.v
LocalContent.v
H1Dispatch.v
H2Pool.v
HyperRequest.v
ContentSource.v
HyperProxy.v
Settings.v
SourceFiles.v
Certificates.v
Listeners.v
Compile.v
CompileSpec.v
ReloadSpec.v
IpCountry.v
ProxyLogs.v
Metrics.v
StreamCopy.v
WsTunnel.v
PoolGauges.v
AdminState.v
AdminSettings.v
AppServices.v
GatewayKeys.v
ClientPools.v
HyperTunnel.v
SshContent.v
