(* ===== verification/Prelude.v ===== *)
(** * my-reverse-proxy: a verification development

    The program is a reverse proxy in Rust ([src/src/]).  A listener accepts
    connections; the IP block-list may refuse them; an HTTP/1 pipeline parses
    heads, asks the OAuth gate, picks a location and relays head and body to an
    upstream taken from a connection pool; a location may also be reached
    through a gateway, a second proxy on the other end of one encrypted TCP
    session.  An OAuth server for MCP clients is built in.

    ** Files and the code they model

    - [Prelude]: bytes and their values, outcomes ([Ok], [Err], [Panic]), slice
      indexing with the panics of the source, little-endian integers,
      arithmetic at the width of [i64] and [usize] in builds with and without
      overflow checks, tactics and hint databases.
    - [RustStd]: what the code uses of [std]: UTF-8, [str] methods, integer
      parsing and printing, [Duration]; and the class [SliceOfU8Ext] of the
      byte-search helpers of the [rust_extensions] library.
    - [GatewayContracts] (module [Contracts]): the packets of the gateway
      protocol, [tcp_gateway/gateway_contracts.rs].
    - [GatewaySession] ([Session]): packets to wire blocks and back,
      [tcp_gateway/session/write_loop.rs] ([build_wire] and below) and
      [tcp_gateway/gateway_read_loop.rs].  The class [GatewayCodec] holds the
      cipher and the compressor; the packet handler is an argument.
    - [GatewayWriter] ([Writer]): the writer task of a connection, its channel
      and its select loop, [session/write_loop.rs], [session/raw_write_loop.rs],
      [tcp_connection_inner/inner.rs], as a transition system in which the
      socket takes a block byte by byte and a write may fail in its middle.
    - [GatewayNode] ([ReceiveBuffer], [Node]): one end of a session, its tables,
      packet handlers and tasks, [tcp_gateway/tcp_gateway_connection/],
      [forwarded_connection/], [scripts/], [client/client_packet_handler.rs],
      [server/server_packet_handler.rs].  [GatewayMachine] ([Machine]) is the
      abstract machine it refines, [GatewayTunnel] ([Tunnel]) two ends and
      their links.
    - [GatewayRegistry] ([Registry]): which session a gateway name stands for,
      [gateway_inner.rs], [server/tcp_gateway_server.rs],
      [client/tcp_gateway_client.rs].
    - [Handshake]: [tcp_gateway/handshake/*.rs]; [HandshakeCrypto] holds the
      curve, signature and key-derivation primitives.
    - [LoopBuffer]: the connection buffer, [tcp_utils/loop_buffer.rs], and a
      timed read into it, [network_stream/split/read_part.rs].
    - [BodyRelay]: the known-size and the chunked pump,
      [h1_proxy_server/transfer_body/*.rs], over that buffer.
    - [H1Headers] ([H1]): first line, head parser and response builders,
      [h1_utils/*.rs]; [H1Libs] holds library helpers.
    - [H1Rewrite] ([Rewrite]): what becomes of a head between client and
      upstream, [compile_headers] of [h1_proxy_server/h1_read_part.rs], with
      [scripts/populate_value.rs], [configurations/modify_headers_config.rs] and
      its part of [configurations/http_endpoint_info.rs]; [RewriteLibs] holds
      the placeholder iterator, the environment and the country tables.
    - [OAuthForm] ([Form]), [OAuthTokens] ([Tokens], [AuthCodes]),
      [OAuthServer] ([Route], [OAuth]): [oauth/*.rs], from form decoding to the
      endpoints and the bearer gate.  [OAuthLibs] and [SerdeJson] hold the hash,
      base64 and JSON.  [OAuthServerSpec] proves what the server promises.
    - [H1Pool]: the pool of upstream connections, [upstream_h1_pool/*.rs]:
      concurrent tasks as program counters over the shared entries, one
      transition per racy access or resumption after an await, and a
      transition for dropping a future at an await.
    - [H2Pool]: the shared HTTP/2 connections, [upstream_h2_pool/*.rs], with the
      request loop of [content_source/h2_dispatch.rs], in the same manner.
    - [IpBlocklist] ([WhiteList], [IpBlocklist]): [app/ip_blocklist.rs],
      [types/whitelisted_ip.rs], [types/whitelisted_ip_list.rs];
      [DateTimeLib] holds the date-time arithmetic.
    - [H1Reader] ([ProxyErrors], [Sinks], [Reader]): reading a head and
      choosing the body pump, [h1_proxy_server/h1_read_part.rs], the errors and
      pages of [rev_proxy_error.rs] and [error_templates/], the writers a body
      is pumped into.
    - [H1ClientWriter] ([ClientWriter]): the owner of the client socket,
      [pipeline/client_writer.rs].
    - [ProxyPassConfig] ([Config]): compiled configuration,
      [configurations/*.rs], and the listen ports.
    - [H1Upstream] ([Upstream]): idle upstream connections,
      [h1_remote_connection/*.rs]; the class [UpstreamPool] is what the worker
      relies on.
    - [H1Worker] ([Worker]): one request from the hand-over to the end of its
      response, [pipeline/worker.rs].
    - [GoogleAuth] ([Google]): [google_auth/*.rs]; [GoogleLibs] holds the
      cipher, the encodings and the calls to Google.
    - [LocalContent] ([Content]): [http_content_source/*.rs]; [FileLibs] holds
      the file system.
    - [H1Dispatch] ([Dispatch]): the request reader, [pipeline/reader.rs],
      [authorize.rs], [pipeline/oauth_gate.rs], which composes all of the
      above and runs a whole connection.
    - [HyperRequest] ([Hyper]): what the hyper path makes of a request and of
      response headers, [http_proxy_pass/http_request_builder.rs],
      [http_response_builder.rs]; [HttpCrate] holds header maps and URIs.
    - [ContentSource]: what serves a location and the pools over time,
      [proxy_pass_location_config.rs], [upstream_h1_pool/pool_registry.rs],
      [timers/gc_pools_timer.rs].
    - [HyperProxy]: the hyper path itself, [http_proxy_pass/http_proxy_pass.rs],
      [handle_oauth.rs], [handle_ga.rs], [content_source/dynamic_proxy.rs],
      [tcp_listener/http_request_handler/*.rs], with the requests of one
      connection interleaved.
    - [Settings]: the settings files, their variables and time-outs,
      [settings/*.rs], [settings_compiled/*.rs].
    - [SigningKey]: where an OAuth block keeps its key,
      [oauth/signing_key_storage.rs].
    - [SourceFiles] ([Sources]): the files, URLs and SSH connections the
      settings name, [scripts/load_file.rs], [scripts/ssh/*.rs]; the record
      [World] is what the machine and the network answer, [SourceLibs] the
      parsers.
    - [Certificates]: server certificates, authorities of clients, uploads and
      the timers that renew, [ssl/*.rs], [scripts/init_ssl_cert_manually.rs];
      [TlsLibs] holds PEM, X.509 and the signatures.
    - [Listeners]: the TLS handshake, what an accepted connection is handed to,
      and the accept loops with what stops them, [tcp_listener/*.rs],
      [app/active_listen_ports.rs].  The class [Rustls] is the handshake of the
      library, of which it is assumed that a mandatory verifier is asked about
      the certificate the peer sent.
    - [Compile]: from the settings to the running configuration,
      [scripts/*.rs], [flows/*.rs], as functions on the state of the
      application that may fail, panic or never return; [CompileSpec] is the
      logic of their triples with what they promise, [ReloadSpec] what a full
      reload makes of the hosts, and that nothing of what was served before
      enters into it.
    - [IpCountry] ([IpDb]): the country of an address, [ip_db/mod.rs], over a
      table that is an argument; [CountryLibs] holds the IPv6 data base.
    - [ProxyLogs] ([Logs]): the messages kept in memory and the debug flags,
      [app/proxy_logs.rs], [app/debug_flags.rs], with the tool and the pages
      that show them.
    - [Metrics] ([Traffic], [Rps], [History], [Live]): the accumulators, their
      timers and the counts of live connections, [app/*_accumulator.rs],
      [app/metrics.rs], [metrics/*.rs], [timers/*.rs].
    - [StreamCopy] ([Copy]): the write half of a socket and the copies behind
      TCP forwards and MCP sessions, [network_stream/split/write_part.rs],
      [tcp_utils/copy_streams.rs], [tcp_listener/tcp_port_forward/*.rs],
      [tcp_listener/mcp/run_mcp_connection.rs].
    - [WsTunnel] ([Tunnel]): an upgraded connection, [pipeline/ws_tunnel.rs],
      which composes [H1Reader], [H1Rewrite], [H1Upstream] and [StreamCopy].
    - [PoolGauges]: what a pool reports while it is made and drained,
      [publish_alive_gauge], [ensure_pool] and [drain_unused], one access at a
      time.
    - [AdminState] ([Upstream], [DomainIps], [StateSnapshot],
      [CurrentConfiguration]): what the administration server shows of the
      running state, [mcp/get_proxy_state_snapshot_tool_call.rs],
      [mcp/lookup_pool_tool_call.rs],
      [http_server/controllers/configuration/contracts/*.rs].
    - [AdminSettings]: the tools that show, write and reload the settings, and
      those for certificates, [mcp/*_settings_tool_call.rs],
      [mcp/*_ssl_*_tool_call.rs], on top of [Compile].
    - [AppServices] ([SshSessions], [TokenKey], [CertSync]): shared SSH
      sessions, the key of the cookies, the certificates a gateway client asks
      for.
    - [GatewayKeys]: the keys of gateway clients and servers and the program
      that makes them, [settings/gateway_client_settings.rs],
      [settings/gateway_server_settings.rs], [bin/gateway_keygen.rs];
      [SshKeyLib] holds the formats of OpenSSH, over the keys of [Handshake].
    - [ClientPools]: the HTTP clients lent to requests through SSH,
      [http_client_pool/*.rs], [http2_client_pool/*.rs].
    - [HyperTunnel] ([Messages], [Pumps]): upgraded connections of the hyper
      path, [http_proxy_pass/web_socket_loop.rs], the pumps of
      [http_proxy_pass.rs].
    - [SshContent]: folders of another machine,
      [http_content_source/ssh_file_content_src.rs].

    A function that can panic returns an [outcome]; one that reads the clock or
    draws a random code takes it as an argument; state is passed explicitly.
    Code outside the repository is a class whose laws are its documented
    behaviour, and each theorem that uses one has a witness with a concrete
    instance.

    ** What the theorems show

    - Gateway: the packet codec is a round trip up to the casts of the source
      and panics exactly on short fixed parts; any grouping of packets into
      flushes within the reader's limits reaches the peer's handler unchanged
      and in order; the socket carries a prefix of what was accepted, under
      every interleaving, and behind whole blocks at most a part of one; the
      handshake ends in a common key, and only for an authorised and fresh key.
      Byte streams through a session are never mixed up, whatever the
      interleaving of both ends; a look-up of a session never yields an
      outdated one.
    - Body relay: the buffer refines a byte queue; both pumps move exactly the
      declared bytes, stop at the end of the body and leave the rest unread.
    - Heads: exact end of head and framing; every head the parser accepts is a
      first line and header lines, or has a line without a colon, which is
      refused later; own responses are self-delimiting; the forwarded head is
      exactly the rewritten lines, keeps the framing by which the body is
      relayed, and never carries the OAuth access token.
    - OAuth: routing, redirect targets, forms and escaping are exact; codes are
      single-use and bounded; tokens are issued only for proved clients with a
      live code and PKCE, which is gone then, or a live refresh token; the gate
      passes exactly live, signed, audience-covered access tokens and answers
      every other request but one kind with a challenge.
    - Pool: bounded size, exclusive rents, exact counters, bounded overflow, a
      scan finds a free entry; and a rent that is lost for ever when a request
      future is dropped in the middle of a revival.  The HTTP/2 pool leaks no
      flag and doubles no dial, spaces its redials, does not wait while it has a
      live connection, and sends a request at most twice.
    - Block-list: a block is always earned, a burst is always blocked, and the
      white list means what it prints.
    - Pipeline: a head is found whatever the segmentation of the stream; no
      request reaches an upstream unless the client certificate, the address
      list, the OAuth gate, the authorization of its location and the allowed
      users have let it pass, and whom it acts as is confined to what the
      endpoint accepts; the body that is relayed is what follows the head;
      responses reach the client in the order of the requests; a request is
      handed to an upstream at most twice, the second time only after a stale
      connection refused it, and with the same bytes; a slot of the response
      queue is always ended; against a healthy upstream the exchange
      completes.
    - Hyper path: nothing goes to an upstream unless the checks of its endpoint
      let it pass, whatever other requests of the connection do in between,
      where the identity may be that of another of them; the address of the
      client is the last one forwarded, the OAuth token is not forwarded, and
      a request changes nothing but its form between the protocols.
    - Pools of a location: a location is always served from a pool made for its
      id string, whatever is compiled, served and drained; the timer drains
      exactly the pools that no location of the configuration uses.
    - Settings and certificates: substitution is exact; the most specific level
      decides a time-out; the signing key survives a process stopped at any
      point; an uploaded certificate keeps covering the names it replaced.
    - Configuration over time: whatever flows have run and however they ended,
      what an endpoint refers to is loaded, server certificates apart; a full
      reload serves every host or keeps its error, and leaves nothing of a
      removed host.  A listener whose task has died blocks every later reload.
      Through an endpoint that wants client certificates goes only who sent one
      that its authority has signed and not revoked.
    - Upgraded connections of the hyper path: messages and bytes arrive in
      order, are counted once, and an extended CONNECT ends as a whole.
    - Streams: a copy always ends, its peer has received a prefix of what was
      sent, and everything when no write fails; an upgrade the upstream agrees to
      is a transparent tunnel, with what was read ahead on either side; of the two
      pumps of an MCP session neither outlives the other.
    - What is shown: the gauges of a domain are what was transferred since the
      last tick; the counts of connections are those that live; a log holds the
      last hundred messages addressed to it; a drained pool leaves no gauge,
      with the accesses in program order; the snapshot of the pools is exact
      and its orphans are what the timer drains next; an endpoint is flagged
      exactly when TLS would be cut; the settings that are applied are those
      that were shown, and those that were written are read back.
    - The country of an address is that of its row in the table.
    - SSH sessions are shared exactly by the connections that live; a client
      over SSH serves one request at a time and, once failed or upgraded, none
      again; idle ones are closed after three minutes.
    - A pair of keys that the generator wrote joins a gateway client to a
      server, and a proxy starts with all its gateway keys or not at all.
    - A folder behind SSH serves the file that the request names.
    - Google sign-in: the gate passes exactly a live sealed token for an
      address of an allowed domain, and a sign-in lasts a day.
    - Configuration and upstream connections: the listen maps stay consistent,
      upstreams share connections only under the same key, and a connection
      has one holder.
    - Some theorems record behaviour the code does not intend: a livelock on
      one chunk size, cut trailers, a content length without a space, payloads
      dropped on close, a look-alike resource, the body of a response that is
      delimited by the end of the connection, a local file outside its folder,
      holes in a gateway stream, a close that hits another stream, a live
      gateway session that no look-up finds, a refused upgrade that is linked
      as a tunnel, a socket that stays open after a late write, a gauge that
      outlives its pool when relaxed accesses are reordered.

    ** Fuel

    Loops that are not structural take fuel.  [read_loop], [batch_loop] and
    [encode_frames_loop] get the length of their input plus one, and every
    iteration consumes at least one byte; [relay_loop] gets the size of the read
    stream plus one, and every iteration consumes a read event, or ends;
    [transfer_chunked_body] needs one unit per chunk plus one; the head parser
    gets the length of the buffer, and every round moves past a line end.
    [deliver] gets [MAX_DELIVERY_ATTEMPTS], the bound the source has;
    [read_headers_loop] one unit per read of the socket; [serve_connection] one
    unit per request, and its theorem is about every number of requests.  In
    the pumps running out is a value of its own, [None], which the theorems
    exclude; in the other loops the fuel is computed from the input by the
    definition itself and can not run out, since a round consumes input.  Only
    the livelock theorem is about all fuel.

    ** What is not modelled

    How much of a block a failing write has put on the socket, where the write
    half is that of [BodyRelay]; [GatewayWriter] and [StreamCopy] have it.
    Further: the clean-up of a dropped gateway session; YAML and JSON themselves;
    dialling, the record layer of TLS and sockets, which are library code
    behind the interfaces above; the hyper servers and the WebSocket codec; the registration and the
    text form of Prometheus metrics; the wrappers by which the administration
    server and its MCP tools call what is modelled here, and the pages of the
    UI, which render it; the lines printed to the console; the start-up of
    [main.rs], a list of calls; the generated table of [ip_db], whose property
    (sorted, disjoint, upper-case codes) is a hypothesis. *)

From Stdlib Require Import ZArith Lia Strings.String Strings.Byte Strings.Ascii.
From stdpp Require Import base tactics list gmap strings.

Local Open Scope Z_scope.

(** ** Bytes

    A Rust [u8] is a [Byte.byte]; a [&[u8]], a [Vec<u8>] and the bytes of a
    [&str] are lists of them.  [u8] is the numeric value of a byte and
    [u8_of_Z] the [as u8] cast, which keeps the low eight bits. *)

Abbreviation bytes := (list byte).

#[global] Instance byte_eq_decision : EqDecision byte := Byte.byte_eq_dec.

Definition u8 (b : byte) : Z := Z.of_N (Byte.to_N b).

Definition u8_of_Z (z : Z) : byte :=
  match Byte.of_N (Z.to_N (z mod 256)) with Some b => b | None => Byte.x00 end.

(** A byte string literal [b"..."] of the source. *)
Definition bs (s : string) : bytes := list_byte_of_string s.

(** ** Outcomes of fallible code

    A function of type [Result<T, E>] may return [Ok], return [Err], or stop
    the task by panicking (an out-of-range index, an [unwrap] of [None], a
    slice that ends before it starts).  The three outcomes are kept apart. *)

Inductive outcome (E A : Type) : Type :=
| Ok (a : A)
| Err (e : E)
| Panic.
Arguments Ok {E A} _.
Arguments Err {E A} _.
Arguments Panic {E A}.

#[global] Instance outcome_ret E : MRet (outcome E) := fun _ a => Ok a.
#[global] Instance outcome_bind E : MBind (outcome E) := fun _ _ k m =>
  match m with Ok a => k a | Err e => Err e | Panic => Panic end.
#[global] Instance outcome_fmap E : FMap (outcome E) := fun _ _ f m =>
  match m with Ok a => Ok (f a) | Err e => Err e | Panic => Panic end.

(** [.map_err(f)] *)
Definition map_err {E F A} (f : E -> F) (m : outcome E A) : outcome F A :=
  match m with Ok a => Ok a | Err e => Err (f e) | Panic => Panic end.

(** [.ok_or(e)] and the [let Some(x) = o else { return Err(e) }] idiom. *)
Definition ok_or {E A} (o : option A) (e : E) : outcome E A :=
  match o with Some a => Ok a | None => Err e end.

(** [.unwrap()] / [.expect(_)] of an [Option]. *)
Definition unwrap {E A} (o : option A) : outcome E A :=
  match o with Some a => Ok a | None => Panic end.

Definition is_ok {E A} (m : outcome E A) : bool :=
  match m with Ok _ => true | _ => false end.

(** ** Slice indexing, with the panics of the source *)

(** [l[i]] *)
Definition index {E A} (l : list A) (i : nat) : outcome E A := unwrap (l !! i).

(** [&l[a..]] *)
Definition slice_from {E A} (l : list A) (a : nat) : outcome E (list A) :=
  if decide (a <= length l)%nat then Ok (drop a l) else Panic.

(** [&l[..b]] *)
Definition slice_to {E A} (l : list A) (b : nat) : outcome E (list A) :=
  if decide (b <= length l)%nat then Ok (take b l) else Panic.

(** [&l[a..b]] *)
Definition slice {E A} (l : list A) (a b : nat) : outcome E (list A) :=
  if decide (a <= b <= length l)%nat then Ok (take (b - a) (drop a l)) else Panic.

(** ** Little-endian integers *)

(** [v.to_le_bytes()] of an [8 * n]-bit integer. *)
Fixpoint to_le (n : nat) (v : Z) : bytes :=
  match n with
  | O => []
  | S n => u8_of_Z v :: to_le n (v / 256)
  end.

(** [from_le_bytes(l)], unsigned. *)
Fixpoint from_le (l : bytes) : Z :=
  match l with
  | [] => 0
  | b :: l => u8 b + 256 * from_le l
  end.

(** The value of an unsigned bit pattern read as an [i64]. *)
Definition as_i64 (z : Z) : Z := (z + 2 ^ 63) mod 2 ^ 64 - 2 ^ 63.

(** The result of an [i64] or [usize] operation whose exact value is [z]:
    builds with overflow checks panic where builds without them wrap. *)
Definition i64_op {E} (overflow_checks : bool) (z : Z) : outcome E Z :=
  if bool_decide (- 2 ^ 63 <= z < 2 ^ 63) then Ok z
  else if overflow_checks then Panic else Ok (as_i64 z).

Definition usize_op {E} (overflow_checks : bool) (z : Z) : outcome E Z :=
  if bool_decide (0 <= z < 2 ^ 64) then Ok z
  else if overflow_checks then Panic else Ok (z mod 2 ^ 64).

(** [u32] and [u64] ranges; [usize] is 64 bits wide on the supported targets. *)
Definition in_u16 (z : Z) : Prop := 0 <= z < 2 ^ 16.
Definition in_u32 (z : Z) : Prop := 0 <= z < 2 ^ 32.
Definition in_u64 (z : Z) : Prop := 0 <= z < 2 ^ 64.
Definition in_i64 (z : Z) : Prop := - 2 ^ 63 <= z < 2 ^ 63.

(** ** Tactics *)

(** Splits every [match]/[if] of the goal or of a hypothesis on its
    scrutinee and simplifies. *)
Ltac split_match :=
  repeat (case_match || case_decide); simplify_eq/=; try done.

(** Inverts a chain of [outcome] binds that is known to be [Ok]. *)
Ltac outcome_inv H :=
  repeat match type of H with
  | (?m ≫= ?k) = Ok _ =>
      let E := fresh "E" in destruct m eqn:E; simpl in H; try discriminate H
  | mbind ?k ?m = Ok _ =>
      let E := fresh "E" in destruct m eqn:E; simpl in H; try discriminate H
  | (if ?b then _ else _) = Ok _ =>
      let E := fresh "E" in destruct b eqn:E; try discriminate H
  end.

Create Rewrite HintDb bytesdb.
Create HintDb slicedb.

(** ** Lemmas on bytes *)

Lemma u8_range b : 0 <= u8 b < 256.
Proof. unfold u8. pose proof (Byte.to_N_bounded b). lia. Qed.

Lemma u8_inj a b : u8 a = u8 b -> a = b.
Proof.
  unfold u8. intros H%N2Z.inj.
  pose proof (Byte.of_to_N a). pose proof (Byte.of_to_N b). congruence.
Qed.

Lemma u8_u8_of_Z z : u8 (u8_of_Z z) = z mod 256.
Proof.
  unfold u8_of_Z, u8.
  pose proof (Z.mod_pos_bound z 256 ltac:(lia)) as Hz.
  destruct (Byte.of_N (Z.to_N (z mod 256))) eqn:E.
  - apply Byte.to_of_N in E. rewrite E, Z2N.id; lia.
  - apply Byte.of_N_None_iff in E. lia.
Qed.

Lemma u8_of_Z_u8 b : u8_of_Z (u8 b) = b.
Proof. apply u8_inj. rewrite u8_u8_of_Z. apply Z.mod_small, u8_range. Qed.

#[global] Instance u8_injective : Inj (=) (=) u8.
Proof. intros a b. apply u8_inj. Qed.

#[global] Program Instance byte_countable : Countable byte :=
  inj_countable Byte.to_N Byte.of_N _.
Next Obligation. intros b. apply Byte.of_to_N. Qed.

(** ** Lemmas on little-endian encodings *)

Lemma length_to_le n v : length (to_le n v) = n.
Proof. revert v. induction n; intros; simpl; auto. Qed.

Lemma from_le_range l : 0 <= from_le l < 2 ^ (8 * Z.of_nat (length l)).
Proof.
  induction l as [|b l IH]; [simpl; lia|].
  pose proof (u8_range b). cbn [from_le length].
  replace (8 * Z.of_nat (S (length l))) with (8 + 8 * Z.of_nat (length l)) by lia.
  rewrite Z.pow_add_r by lia. change (2 ^ 8) with 256. nia.
Qed.

Lemma from_le_to_le n v : from_le (to_le n v) = v mod 2 ^ (8 * Z.of_nat n).
Proof.
  revert v. induction n as [|n IH]; intros v.
  { simpl. by rewrite Z.mod_1_r. }
  cbn [to_le from_le]. rewrite IH, u8_u8_of_Z.
  replace (8 * Z.of_nat (S n)) with (8 + 8 * Z.of_nat n) by lia.
  rewrite Z.pow_add_r by lia. change (2 ^ 8) with 256.
  rewrite Z.rem_mul_r by lia. lia.
Qed.

Lemma to_le_from_le l : to_le (length l) (from_le l) = l.
Proof.
  induction l as [|b l IH]; [done|]. cbn [length from_le to_le].
  pose proof (u8_range b). f_equal.
  - apply u8_inj. rewrite u8_u8_of_Z, (Z.mul_comm 256), Z.mod_add by lia.
    apply Z.mod_small; lia.
  - rewrite (Z.mul_comm 256), Z.div_add, Z.div_small by lia.
    by rewrite Z.add_0_l.
Qed.

Lemma to_le_from_le_n n l : length l = n -> to_le n (from_le l) = l.
Proof. intros <-. apply to_le_from_le. Qed.

Lemma from_le_to_le_small n v :
  0 <= v < 2 ^ (8 * Z.of_nat n) -> from_le (to_le n v) = v.
Proof. intros. rewrite from_le_to_le. by apply Z.mod_small. Qed.

Lemma as_i64_small z : in_i64 z -> as_i64 (z mod 2 ^ 64) = z.
Proof.
  unfold in_i64, as_i64. intros Hz.
  rewrite Z.add_mod_idemp_l, Z.mod_small by lia. lia.
Qed.

Lemma from_le_inj l1 l2 : length l1 = length l2 -> from_le l1 = from_le l2 -> l1 = l2.
Proof.
  intros Hl Hv. rewrite <-(to_le_from_le l1), <-(to_le_from_le l2). by rewrite Hl, Hv.
Qed.

Lemma i64_op_fits {E} oc z : in_i64 z -> i64_op (E:=E) oc z = Ok z.
Proof. intros Hz. unfold i64_op. by rewrite bool_decide_eq_true_2. Qed.

Lemma usize_op_wrap {E} z : 0 <= z -> usize_op (E:=E) false z = Ok (z mod 2 ^ 64).
Proof.
  intros Hz. unfold usize_op. case_bool_decide; [|done]. by rewrite Z.mod_small.
Qed.

Lemma usize_op_fits {E} oc z : 0 <= z < 2 ^ 64 -> usize_op (E:=E) oc z = Ok z.
Proof. intros Hz. unfold usize_op. by rewrite bool_decide_eq_true_2. Qed.

Lemma as_i64_range z : in_i64 (as_i64 z).
Proof.
  unfold in_i64, as_i64. pose proof (Z.mod_pos_bound (z + 2 ^ 63) (2 ^ 64) ltac:(lia)). lia.
Qed.

Lemma as_i64_mod z : as_i64 z mod 2 ^ 64 = z mod 2 ^ 64.
Proof. unfold as_i64. rewrite Zminus_mod_idemp_l. f_equal. lia. Qed.

Lemma to_le_as_i64 l : length l = 8%nat -> to_le 8 (as_i64 (from_le l)) = l.
Proof.
  intros Hl. apply from_le_inj; [by rewrite length_to_le|].
  rewrite from_le_to_le. change (8 * Z.of_nat 8) with 64. rewrite as_i64_mod.
  apply Z.mod_small. pose proof (from_le_range l) as H. rewrite Hl in H. exact H.
Qed.

#[global] Hint Rewrite length_to_le : bytesdb.

(** ** Lemmas on slices *)


Lemma index_ok {E A} (l : list A) i x : l !! i = Some x -> index (E:=E) l i = Ok x.
Proof. unfold index. by intros ->. Qed.

Lemma slice_from_ok {E A} (l : list A) a :
  (a <= length l)%nat -> slice_from (E:=E) l a = Ok (drop a l).
Proof. intros. unfold slice_from. by rewrite decide_True. Qed.

Lemma slice_to_ok {E A} (l : list A) b :
  (b <= length l)%nat -> slice_to (E:=E) l b = Ok (take b l).
Proof. intros. unfold slice_to. by rewrite decide_True. Qed.

Lemma slice_ok {E A} (l : list A) a b :
  (a <= b <= length l)%nat -> slice (E:=E) l a b = Ok (take (b - a) (drop a l)).
Proof. intros. unfold slice. by rewrite decide_True. Qed.

Lemma slice_app_mid {E A} (p m s : list A) :
  slice (E:=E) (p ++ m ++ s) (length p) (length p + length m) = Ok m.
Proof.
  rewrite slice_ok by (rewrite !length_app; lia).
  rewrite drop_app_length. replace (_ - _)%nat with (length m) by lia.
  by rewrite take_app_length.
Qed.

Lemma slice_is_ok_iff {E A} (l : list A) a b :
  is_ok (slice (E:=E) l a b) = true <-> (a <= b <= length l)%nat.
Proof. unfold slice. case_decide as Hs; simpl; split; try done; intros; exfalso; lia. Qed.

#[export] Hint Resolve index_ok slice_from_ok slice_to_ok slice_ok : slicedb.

(** ** Projections of lists that change at one place *)

Lemma fmap_alter_to {A B} (h : A -> B) (f : A -> A) (g : B -> B) i (l : list A) :
  (forall x, h (f x) = g (h x)) -> h <$> alter f i l = alter g i (h <$> l).
Proof.
  intros H. apply list_eq. intros j. rewrite list_lookup_fmap, !list_lookup_alter, list_lookup_fmap.
  case_decide; [subst|by rewrite list_lookup_fmap]. destruct (l !! _); simpl; [by rewrite H|done].
Qed.

Lemma fmap_alter_same {A B} (h : A -> B) (f : A -> A) i (l : list A) :
  (forall x, h (f x) = h x) -> h <$> alter f i l = h <$> l.
Proof. intros H. rewrite (fmap_alter_to h f id) by done. apply list_alter_id. done. Qed.

Lemma insert_same {A B} (h : A -> B) i x y (l : list A) :
  l !! i = Some x -> h y = h x -> h <$> <[i := y]> l = h <$> l.
Proof. intros L E. rewrite list_fmap_insert, E. apply list_insert_id. by rewrite list_lookup_fmap, L. Qed.

Lemma lookup_alter_const {A} (x : A) i (l : list A) j :
  alter (fun _ => x) i l !! j = if bool_decide (i = j) then (fun _ => x) <$> l !! j else l !! j.
Proof.
  rewrite list_lookup_alter. case_decide; [subst; rewrite bool_decide_true by done|by rewrite bool_decide_false].
  by destruct (l !! j).
Qed.

#[global] Opaque to_le from_le u8_of_Z u8 bs.
