(* ===== verification/RustStd.v ===== *)
(** * The parts of the Rust standard library the proxy uses

    UTF-8 validation and lossy decoding, Unicode white space, the [str]
    methods, integer parsing and printing, [Duration]; and the interface of
    the [rust_extensions] slice helpers, which are not part of this
    repository and therefore enter as a class with laws. *)

From Stdlib Require Import ZArith Lia Strings.String Strings.Byte.
From stdpp Require Import base tactics list gmap strings.
From S2P Require Import Prelude.

Local Open Scope Z_scope.

(** ** UTF-8 *)

Module Utf8.

(** The ranges of [core::str::validations]: the width announced by a lead
    byte (0 for a byte that can not start a character), the second bytes it
    admits, and continuation bytes. *)
Definition width (b : byte) : nat :=
  let v := u8 b in
  if v <? 128 then 1%nat
  else if (194 <=? v) && (v <=? 223) then 2%nat
  else if (224 <=? v) && (v <=? 239) then 3%nat
  else if (240 <=? v) && (v <=? 244) then 4%nat
  else 0%nat.

Definition is_cont (b : byte) : bool := (128 <=? u8 b) && (u8 b <=? 191).

Definition second_ok (b0 b1 : byte) : bool :=
  let v := u8 b0 in
  let w := u8 b1 in
  if v =? 224 then (160 <=? w) && (w <=? 191)
  else if v =? 237 then (128 <=? w) && (w <=? 159)
  else if v =? 240 then (144 <=? w) && (w <=? 191)
  else if v =? 244 then (128 <=? w) && (w <=? 143)
  else is_cont b1.

(** The characters of a byte string, each as the bytes that encode it;
    [None] when the string is not UTF-8. *)
Fixpoint chars (l : bytes) : option (list bytes) :=
  match l with
  | [] => Some []
  | b0 :: l1 =>
      match width b0 with
      | 1%nat => cs ← chars l1; Some ([b0] :: cs)
      | 2%nat =>
          match l1 with
          | b1 :: l2 =>
              if second_ok b0 b1
              then cs ← chars l2; Some ([b0; b1] :: cs) else None
          | _ => None
          end
      | 3%nat =>
          match l1 with
          | b1 :: b2 :: l3 =>
              if second_ok b0 b1 && is_cont b2
              then cs ← chars l3; Some ([b0; b1; b2] :: cs) else None
          | _ => None
          end
      | 4%nat =>
          match l1 with
          | b1 :: b2 :: b3 :: l4 =>
              if second_ok b0 b1 && is_cont b2 && is_cont b3
              then cs ← chars l4; Some ([b0; b1; b2; b3] :: cs) else None
          | _ => None
          end
      | _ => None
      end
  end.

Definition valid (l : bytes) : bool :=
  match chars l with Some _ => true | None => false end.

(** [std::str::from_utf8(l).ok()] *)
Definition from_utf8 (l : bytes) : option bytes :=
  if valid l then Some l else None.

(** U+FFFD *)
Definition replacement : bytes := [Byte.xef; Byte.xbf; Byte.xbd].

(** [String::from_utf8_lossy]: every maximal ill-formed prefix becomes one
    replacement character. *)
Fixpoint from_utf8_lossy (l : bytes) : bytes :=
  match l with
  | [] => []
  | b0 :: l1 =>
      match width b0 with
      | 1%nat => b0 :: from_utf8_lossy l1
      | 2%nat =>
          match l1 with
          | b1 :: l2 =>
              if second_ok b0 b1 then b0 :: b1 :: from_utf8_lossy l2
              else replacement ++ from_utf8_lossy l1
          | _ => replacement ++ from_utf8_lossy l1
          end
      | 3%nat =>
          match l1 with
          | b1 :: l2 =>
              if second_ok b0 b1 then
                match l2 with
                | b2 :: l3 =>
                    if is_cont b2 then b0 :: b1 :: b2 :: from_utf8_lossy l3
                    else replacement ++ from_utf8_lossy l2
                | _ => replacement ++ from_utf8_lossy l2
                end
              else replacement ++ from_utf8_lossy l1
          | _ => replacement ++ from_utf8_lossy l1
          end
      | 4%nat =>
          match l1 with
          | b1 :: l2 =>
              if second_ok b0 b1 then
                match l2 with
                | b2 :: l3 =>
                    if is_cont b2 then
                      match l3 with
                      | b3 :: l4 =>
                          if is_cont b3
                          then b0 :: b1 :: b2 :: b3 :: from_utf8_lossy l4
                          else replacement ++ from_utf8_lossy l3
                      | _ => replacement ++ from_utf8_lossy l3
                      end
                    else replacement ++ from_utf8_lossy l2
                | _ => replacement ++ from_utf8_lossy l2
                end
              else replacement ++ from_utf8_lossy l1
          | _ => replacement ++ from_utf8_lossy l1
          end
      | _ => replacement ++ from_utf8_lossy l1
      end
  end.

(** Characters with the Unicode [White_Space] property ([char::is_whitespace]). *)
Definition is_whitespace (c : bytes) : bool :=
  match map u8 c with
  | [v] => ((9 <=? v) && (v <=? 13)) || (v =? 32)
  | [194; v] => (v =? 133) || (v =? 160)
  | [225; 154; 128] => true
  | [226; 128; v] =>
      ((128 <=? v) && (v <=? 138)) || (v =? 168) || (v =? 169) || (v =? 175)
  | [226; 129; 159] => true
  | [227; 128; 128] => true
  | _ => false
  end.

(** Byte offset [n] of a [&str] is a character boundary. *)
Definition is_char_boundary (l : bytes) (n : nat) : bool :=
  match l !! n with
  | Some b => negb (is_cont b)
  | None => bool_decide (n = length l)
  end.

Lemma width_pos_1 b : u8 b < 128 -> width b = 1%nat.
Proof. intros. unfold width. by rewrite (proj2 (Z.ltb_lt _ _)). Qed.

Lemma chars_concat l cs : chars l = Some cs -> concat cs = l.
Proof.
  revert cs. induction l as [l IH] using (induction_ltof1 _ (@length byte)).
  unfold ltof in IH. intros cs H.
  destruct l as [|b0 l1]; simpl in H; [by simplify_eq|].
  destruct (width b0) as [|[|[|[|[|?]]]]]; try done.
  - destruct (chars l1) eqn:E; simplify_eq/=. f_equal. apply IH; simpl; [lia|done].
  - destruct l1 as [|b1 l2]; [done|]. destruct (second_ok b0 b1); [|done].
    destruct (chars l2) eqn:E; simplify_eq/=. do 2 f_equal. apply IH; simpl; [lia|done].
  - destruct l1 as [|b1 [|b2 l3]]; [done..|]. destruct (_ && _); [|done].
    destruct (chars l3) eqn:E; simplify_eq/=. do 3 f_equal. apply IH; simpl; [lia|done].
  - destruct l1 as [|b1 [|b2 [|b3 l4]]]; [done..|]. destruct (_ && _ && _); [|done].
    destruct (chars l4) eqn:E; simplify_eq/=. do 4 f_equal. apply IH; simpl; [lia|done].
Qed.

Lemma chars_app l1 l2 cs1 :
  chars l1 = Some cs1 -> chars (l1 ++ l2) = app cs1 <$> chars l2.
Proof.
  revert cs1. induction l1 as [l IH] using (induction_ltof1 _ (@length byte)).
  unfold ltof in IH. intros cs H.
  assert (forall o : option (list bytes), app [] <$> o = o) as Hid by (intros []; done).
  destruct l as [|b0 l1]; simpl in *; [by simplify_eq|].
  destruct (width b0) as [|[|[|[|[|?]]]]]; try done.
  - destruct (chars l1) as [cs1|] eqn:E; simplify_eq/=.
    rewrite (IH l1 ltac:(lia) cs1 E). by destruct (chars l2).
  - destruct l1 as [|b1 t]; [done|]. simpl. destruct (second_ok b0 b1); [|done].
    destruct (chars t) as [cs1|] eqn:E; simplify_eq/=.
    rewrite (IH t ltac:(lia) cs1 E). by destruct (chars l2).
  - destruct l1 as [|b1 [|b2 t]]; [done..|]. simpl. destruct (_ && _); [|done].
    destruct (chars t) as [cs1|] eqn:E; simplify_eq/=.
    rewrite (IH t ltac:(lia) cs1 E). by destruct (chars l2).
  - destruct l1 as [|b1 [|b2 [|b3 t]]]; [done..|]. simpl. destruct (_ && _ && _); [|done].
    destruct (chars t) as [cs1|] eqn:E; simplify_eq/=.
    rewrite (IH t ltac:(lia) cs1 E). by destruct (chars l2).
Qed.

Lemma valid_app l1 l2 : valid l1 = true -> valid (l1 ++ l2) = valid l2.
Proof.
  unfold valid. destruct (chars l1) eqn:E; [|done]. intros _.
  rewrite (chars_app _ _ _ E). by destruct (chars l2).
Qed.

Lemma valid_ascii l : Forall (fun b => u8 b < 128) l -> valid l = true.
Proof.
  unfold valid. induction 1 as [|b l Hb _ IH]; [done|].
  simpl. rewrite width_pos_1 by done. by destruct (chars l).
Qed.

Lemma lossy_valid l : valid l = true -> from_utf8_lossy l = l.
Proof.
  unfold valid. induction l as [l IH] using (induction_ltof1 _ (@length byte)).
  unfold ltof in IH. intros H.
  destruct l as [|b0 l1]; simpl in *; [done|].
  destruct (width b0) as [|[|[|[|[|?]]]]]; try done.
  - f_equal. apply IH; [lia|]. by destruct (chars l1).
  - destruct l1 as [|b1 t]; [done|]. destruct (second_ok b0 b1); [|done].
    do 2 f_equal. apply IH; [simpl; lia|]. by destruct (chars t).
  - destruct l1 as [|b1 [|b2 t]]; [done..|].
    destruct (second_ok b0 b1), (is_cont b2); simpl in *; try done.
    do 3 f_equal. apply IH; [simpl; lia|]. by destruct (chars t).
  - destruct l1 as [|b1 [|b2 [|b3 t]]]; [done..|].
    destruct (second_ok b0 b1), (is_cont b2), (is_cont b3); simpl in *; try done.
    do 4 f_equal. apply IH; [simpl; lia|]. by destruct (chars t).
Qed.

Lemma from_utf8_Some l l' : from_utf8 l = Some l' <-> valid l = true /\ l' = l.
Proof. unfold from_utf8. destruct (valid l); naive_solver. Qed.

End Utf8.

(** ** [str] methods

    The pattern of [split], [find], [split_once], ... is an ASCII character
    everywhere in the proxy.  ASCII bytes never occur inside a multi-byte
    character, so matching bytes is matching characters. *)

Module Str.

(** [s.find(c)] *)
Fixpoint find (c : byte) (l : bytes) : option nat :=
  match l with
  | [] => None
  | b :: l => if decide (b = c) then Some 0%nat else S <$> find c l
  end.

(** [s.contains(c)] *)
Definition contains (c : byte) (l : bytes) : bool :=
  match find c l with Some _ => true | None => false end.

(** [s.split(c)]: always yields at least one piece. *)
Fixpoint split (c : byte) (l : bytes) : list bytes :=
  match l with
  | [] => [[]]
  | b :: l =>
      if decide (b = c) then [] :: split c l
      else match split c l with
           | p :: ps => (b :: p) :: ps
           | [] => [[b]]
           end
  end.

(** [s.split_once(c)] and [s.rsplit_once(c)] *)
Definition split_once (c : byte) (l : bytes) : option (bytes * bytes) :=
  i ← find c l; Some (take i l, drop (S i) l).

Definition rsplit_once (c : byte) (l : bytes) : option (bytes * bytes) :=
  i ← find c (rev l);
  Some (take (length l - S i) l, drop (length l - i) l).

Fixpoint starts_with (p l : bytes) : bool :=
  match p, l with
  | [], _ => true
  | a :: p, b :: l => bool_decide (a = b) && starts_with p l
  | _ :: _, [] => false
  end.

(** [s.strip_prefix(p)] *)
Definition strip_prefix (p l : bytes) : option bytes :=
  if starts_with p l then Some (drop (length p) l) else None.

Definition ends_with (p l : bytes) : bool := starts_with (rev p) (rev l).

(** [s.trim_end_matches(c)] *)
Fixpoint drop_while (f : byte -> bool) (l : bytes) : bytes :=
  match l with
  | [] => []
  | b :: l' => if f b then drop_while f l' else l
  end.

Definition trim_end_matches (c : byte) (l : bytes) : bytes :=
  rev (drop_while (fun b => bool_decide (b = c)) (rev l)).

Fixpoint drop_ws (cs : list bytes) : list bytes :=
  match cs with
  | [] => []
  | c :: cs' => if Utf8.is_whitespace c then drop_ws cs' else cs
  end.

(** [s.trim()]; the argument is a [&str], so its characters exist. *)
Definition trim (l : bytes) : bytes :=
  match Utf8.chars l with
  | Some cs => concat (rev (drop_ws (rev (drop_ws cs))))
  | None => l
  end.

Fixpoint ws_tokens (cs : list bytes) (cur : bytes) : list bytes :=
  match cs with
  | [] => match cur with [] => [] | _ => [cur] end
  | c :: cs =>
      if Utf8.is_whitespace c
      then match cur with [] => ws_tokens cs [] | _ => cur :: ws_tokens cs [] end
      else ws_tokens cs (cur ++ c)
  end.

(** [s.split_whitespace()] *)
Definition split_whitespace (l : bytes) : list bytes :=
  match Utf8.chars l with Some cs => ws_tokens cs [] | None => [] end.

(** [b.to_ascii_lowercase()] *)
Definition to_lower (b : byte) : byte :=
  if (65 <=? u8 b) && (u8 b <=? 90) then u8_of_Z (u8 b + 32) else b.

(** [s.to_ascii_lowercase()] *)
Definition lower (l : bytes) : bytes := map to_lower l.

(** [a.eq_ignore_ascii_case(b)] *)
Definition eq_ignore_ascii_case (a b : bytes) : bool :=
  bool_decide (lower a = lower b).

(** [&s[..n]] and [&s[n..]] of a [&str]: a cut inside a character panics. *)
Definition str_slice_to {E} (l : bytes) (n : nat) : outcome E bytes :=
  if Utf8.is_char_boundary l n then Ok (take n l) else Panic.

Definition str_slice_from {E} (l : bytes) (n : nat) : outcome E bytes :=
  if Utf8.is_char_boundary l n then Ok (drop n l) else Panic.

(** [s.get(..n)] *)
Definition get_to (l : bytes) (n : nat) : option bytes :=
  if Utf8.is_char_boundary l n then Some (take n l) else None.

(** *** Integers *)

Definition is_digit (b : byte) : bool := (48 <=? u8 b) && (u8 b <=? 57).

Fixpoint digits_value (l : bytes) (acc : Z) : option Z :=
  match l with
  | [] => Some acc
  | b :: l => if is_digit b then digits_value l (acc * 10 + (u8 b - 48)) else None
  end.

(** [s.parse::<uN>()] with [max = uN::MAX]: an optional [+], at least one
    digit, and a value in range. *)
Definition parse_uint (max : Z) (l : bytes) : option Z :=
  let body :=
    match l with
    | b :: rest => if bool_decide (b = Byte.x2b) then rest else l
    | [] => []
    end in
  match body with
  | [] => None
  | _ => v ← digits_value body 0; if v <=? max then Some v else None
  end.

Definition digit (d : Z) : byte := u8_of_Z (48 + d).

Fixpoint to_dec (fuel : nat) (n : Z) (acc : bytes) : bytes :=
  match fuel with
  | O => acc
  | S fuel =>
      let acc := digit (n mod 10) :: acc in
      if n <? 10 then acc else to_dec fuel (n / 10) acc
  end.

(** [n.to_string()] of an unsigned integer; 20 digits hold every [u64]. *)
Definition uint_to_string (n : Z) : bytes := to_dec 20 n [].

(** [n.to_string()] of a signed integer. *)
Definition int_to_string (n : Z) : bytes :=
  if n <? 0 then bs "-" ++ uint_to_string (- n) else uint_to_string n.

(** *** Lemmas *)

Lemma find_Some c l i :
  find c l = Some i <->
  l !! i = Some c /\ forall j, (j < i)%nat -> l !! j <> Some c.
Proof.
  revert i. induction l as [|b l IH]; intros i; simpl.
  { split; [done|]. intros [H _]. done. }
  case_decide as Hb.
  - subst. split.
    + intros [= <-]. split; [done|]. intros; lia.
    + intros [H1 H2]. destruct i; [done|]. exfalso. by apply (H2 0%nat); [lia|].
  - assert (forall i, S <$> find c l = Some (S i) <-> find c l = Some i) as HS
      by (intros k; destruct (find c l); naive_solver).
    destruct i as [|i]; simpl.
    + split; [by destruct (find c l)|]. intros [H _]. congruence.
    + rewrite HS, IH. split; intros [H1 H2]; (split; [done|]).
      * intros [|j] Hj; simpl; [congruence|]. apply H2; lia.
      * intros j Hj. apply (H2 (S j)); lia.
Qed.

Lemma find_None c l : find c l = None <-> c ∉ l.
Proof.
  induction l as [|b l IH]; simpl; [split; [intros _; apply not_elem_of_nil|done]|].
  rewrite not_elem_of_cons. case_decide; [naive_solver|].
  destruct (find c l); simpl; naive_solver.
Qed.

Lemma find_lt c l i : find c l = Some i -> (i < length l)%nat.
Proof. intros [H _]%find_Some. by eapply lookup_lt_Some. Qed.

Lemma find_app_l c l1 l2 : c ∉ l1 -> find c (l1 ++ c :: l2) = Some (length l1).
Proof.
  induction l1 as [|b l1 IH]; simpl; intros H.
  - by rewrite decide_True.
  - apply not_elem_of_cons in H as [H1 H2]. rewrite decide_False by done.
    by rewrite IH.
Qed.

Lemma contains_true c l : contains c l = true <-> c ∈ l.
Proof.
  unfold contains. destruct (find c l) eqn:E; split; try done.
  - intros _. apply find_Some in E as [E _]. by eapply list_elem_of_lookup_2.
  - intros H. by apply find_None in E.
Qed.

Lemma contains_false c l : contains c l = false <-> c ∉ l.
Proof. rewrite <-contains_true. destruct (contains c l); naive_solver. Qed.

Lemma split_once_app c l1 l2 : c ∉ l1 -> split_once c (l1 ++ c :: l2) = Some (l1, l2).
Proof.
  intros H. unfold split_once. rewrite find_app_l by done. simpl.
  rewrite take_app_length. replace (S (length l1)) with (length l1 + 1)%nat by lia.
  by rewrite drop_app_add.
Qed.

Lemma split_once_Some c l a b :
  split_once c l = Some (a, b) <-> l = a ++ c :: b /\ c ∉ a.
Proof.
  split; [|intros [-> H]; by apply split_once_app].
  unfold split_once. destruct (find c l) as [i|] eqn:E; simpl; [|done].
  intros [= <- <-]. apply find_Some in E as [E1 E2]. split.
  - by rewrite take_drop_middle.
  - intros (j & Hj)%list_elem_of_lookup_1.
    pose proof (lookup_lt_Some _ _ _ Hj) as Hl. rewrite length_take in Hl.
    rewrite lookup_take_lt in Hj by lia. apply (E2 j); [lia|done].
Qed.

Lemma rsplit_once_app c l1 l2 : c ∉ l2 -> rsplit_once c (l1 ++ c :: l2) = Some (l1, l2).
Proof.
  intros H. unfold rsplit_once.
  rewrite rev_app_distr. simpl. rewrite <-app_assoc. simpl.
  rewrite find_app_l by (by rewrite list_elem_of_In, <-in_rev, <-list_elem_of_In).
  simpl. rewrite length_rev, length_app. simpl.
  replace (length l1 + S (length l2) - S (length l2))%nat with (length l1) by lia.
  replace (length l1 + S (length l2) - length l2)%nat with (length l1 + 1)%nat by lia.
  by rewrite take_app_length, drop_app_add.
Qed.

Lemma rsplit_once_Some c l a b :
  rsplit_once c l = Some (a, b) -> l = a ++ c :: b /\ c ∉ b.
Proof.
  unfold rsplit_once. destruct (find c (rev l)) as [i|] eqn:E; simpl; [|done].
  intros [= <- <-]. apply find_Some in E as [E1 E2].
  pose proof (lookup_lt_Some _ _ _ E1) as Hl. rewrite length_rev in Hl.
  assert (forall k, rev l !! k = reverse l !! k) as Hrev
    by (intros; unfold reverse; by rewrite rev_alt).
  setoid_rewrite Hrev in E2. rewrite Hrev in E1.
  rewrite reverse_lookup in E1 by done. split.
  - rewrite <-(take_drop_middle l _ _ E1) at 1. do 2 f_equal. f_equal. lia.
  - intros (j & Hj)%list_elem_of_lookup_1. rewrite lookup_drop in Hj.
    pose proof (lookup_lt_Some _ _ _ Hj) as Hl2.
    apply (E2 (length l - S (length l - i + j))%nat); [lia|].
    rewrite reverse_lookup by lia. rewrite <-Hj. f_equal. lia.
Qed.

Lemma starts_with_spec p l : starts_with p l = true <-> p `prefix_of` l.
Proof.
  revert l. induction p as [|a p IH]; intros l; simpl.
  { split; [intros _; apply prefix_nil|done]. }
  destruct l as [|b l]; simpl.
  - split; [done|]. intros H%prefix_nil_inv. done.
  - rewrite andb_true_iff, bool_decide_eq_true, IH. split.
    + intros [-> H]. by apply prefix_cons.
    + intros H. split; [by eapply prefix_cons_inv_1|by eapply prefix_cons_inv_2].
Qed.

Lemma strip_prefix_Some p l r : strip_prefix p l = Some r <-> l = p ++ r.
Proof.
  unfold strip_prefix. destruct (starts_with p l) eqn:E.
  - apply starts_with_spec in E as [k ->]. rewrite drop_app_length. naive_solver.
  - split; [done|]. intros ->. exfalso.
    assert (starts_with p (p ++ r) = true) by (apply starts_with_spec; by eexists).
    congruence.
Qed.

Lemma split_nonempty c l : split c l <> [].
Proof. induction l; simpl; split_match. Qed.

Lemma split_app_sep c (p rest : bytes) :
  c ∉ p -> split c (p ++ c :: rest) = p :: split c rest.
Proof.
  induction p as [|b p IH]; intros Hc; simpl; [by rewrite decide_True|].
  apply not_elem_of_cons in Hc as [Hb Hp]. rewrite decide_False by done. by rewrite IH.
Qed.

Lemma split_no_sep c (p : bytes) : c ∉ p -> split c p = [p].
Proof.
  induction p as [|b p IH]; intros Hc; simpl; [done|].
  apply not_elem_of_cons in Hc as [Hb Hp]. rewrite decide_False by done. by rewrite IH.
Qed.

(** Trimming only takes bytes away. *)
Lemma drop_ws_in c cs : c ∈ drop_ws cs -> c ∈ cs.
Proof.
  induction cs as [|c' cs IH]; simpl; [done|]. destruct (Utf8.is_whitespace c'); [|done].
  intros Hc. right. by apply IH.
Qed.

Lemma trim_in b l : b ∈ trim l -> b ∈ l.
Proof.
  unfold trim. destruct (Utf8.chars l) as [cs|] eqn:Hcs; [|done].
  rewrite <-(Utf8.chars_concat l cs Hcs), !list_elem_of_In, !in_concat.
  intros (c & Hc & Hb). exists c. split; [|done]. apply in_rev in Hc.
  apply list_elem_of_In, drop_ws_in, list_elem_of_In, in_rev, list_elem_of_In, drop_ws_in, list_elem_of_In in Hc.
  done.
Qed.

Lemma drop_ws_suffix cs : exists k, cs = k ++ drop_ws cs.
Proof.
  induction cs as [|c cs [k IH]]; [by exists []|]. simpl. destruct (Utf8.is_whitespace c); [|by exists []].
  exists (c :: k). simpl. by rewrite <-IH.
Qed.

(** Trimming takes bytes from the two ends. *)
Lemma trim_infix l : exists a b, l = a ++ trim l ++ b.
Proof.
  unfold trim. destruct (Utf8.chars l) as [cs|] eqn:Hcs; [|exists [], []; by rewrite app_nil_r].
  destruct (drop_ws_suffix cs) as [k Hk]. destruct (drop_ws_suffix (rev (drop_ws cs))) as [k' Hk'].
  exists (concat k), (concat (rev k')).
  rewrite <-concat_app, <-rev_app_distr, <-Hk', rev_involutive, <-concat_app, <-Hk.
  symmetry. by apply Utf8.chars_concat.
Qed.

(** Text of visible ASCII characters has nothing to trim. *)
Definition is_graphic (b : byte) : bool := (33 <=? u8 b) && (u8 b <? 127).

Lemma graphic_chars l :
  Forall (fun b => is_graphic b = true) l -> Utf8.chars l = Some (map (fun b => [b]) l).
Proof.
  induction l as [|b l IH]; intros Hd; [done|]. apply Forall_cons in Hd as [Hb Hl].
  unfold is_graphic in Hb. apply andb_prop in Hb as [Hb1 Hb2].
  cbn [Utf8.chars map]. rewrite Utf8.width_pos_1 by lia. by rewrite IH.
Qed.

Lemma graphic_not_ws b : is_graphic b = true -> Utf8.is_whitespace [b] = false.
Proof. destruct b; vm_compute; congruence. Qed.

Lemma drop_ws_graphic l :
  Forall (fun b => is_graphic b = true) l -> drop_ws (map (fun b => [b]) l) = map (fun b => [b]) l.
Proof.
  destruct l as [|b l]; [done|]. intros [Hb _]%Forall_cons. cbn [map drop_ws].
  by rewrite graphic_not_ws.
Qed.

Lemma trim_graphic l : Forall (fun b => is_graphic b = true) l -> trim l = l.
Proof.
  intros Hd. unfold trim. rewrite graphic_chars, drop_ws_graphic by done.
  rewrite <-map_rev, drop_ws_graphic, <-map_rev, rev_involutive.
  - clear. induction l as [|b l IH]; [done|]. cbn. by rewrite IH.
  - apply Forall_forall. intros b Hb. rewrite Forall_forall in Hd. apply Hd.
    rewrite list_elem_of_In in *. by apply in_rev.
Qed.

Lemma digit_graphic b : is_digit b = true -> is_graphic b = true.
Proof. unfold is_digit, is_graphic. rewrite !andb_true_iff, !Z.leb_le, Z.ltb_lt. lia. Qed.

Lemma to_lower_idem b : to_lower (to_lower b) = to_lower b.
Proof. destruct b; reflexivity. Qed.

Lemma eq_ignore_ascii_case_sym a b :
  eq_ignore_ascii_case a b = eq_ignore_ascii_case b a.
Proof. apply bool_decide_ext. naive_solver. Qed.

Lemma eq_ignore_ascii_case_refl a : eq_ignore_ascii_case a a = true.
Proof. by apply bool_decide_eq_true. Qed.

Lemma lower_length a : length (lower a) = length a.
Proof. apply length_map. Qed.

Lemma eq_ignore_length a b : eq_ignore_ascii_case a b = true -> length a = length b.
Proof.
  intros H%bool_decide_eq_true. rewrite <-(lower_length a), H. apply lower_length.
Qed.

End Str.

#[export] Hint Resolve Str.eq_ignore_ascii_case_refl : slicedb.

(** ** Round trip of unsigned printing and parsing *)

Section Decimal.

Lemma digit_value d : 0 <= d < 10 -> u8 (Str.digit d) = 48 + d.
Proof. intros. unfold Str.digit. rewrite u8_u8_of_Z. apply Z.mod_small. lia. Qed.

Lemma digit_is_digit d : 0 <= d < 10 -> Str.is_digit (Str.digit d) = true.
Proof. intros. unfold Str.is_digit. rewrite digit_value by done. lia. Qed.

Lemma digits_value_app l1 l2 acc :
  Str.digits_value (l1 ++ l2) acc =
  (v ← Str.digits_value l1 acc; Str.digits_value l2 v).
Proof. revert acc. induction l1 as [|b l1 IH]; intros acc; simpl; [done|]. split_match. Qed.

Lemma to_dec_acc fuel n acc : Str.to_dec fuel n acc = Str.to_dec fuel n [] ++ acc.
Proof.
  revert n acc. induction fuel as [|fuel IH]; intros n acc; simpl; [done|].
  destruct (n <? 10); [done|]. rewrite IH, (IH _ [_]), <-app_assoc. done.
Qed.

Lemma to_dec_value fuel n :
  0 <= n < 10 ^ Z.of_nat fuel -> Str.digits_value (Str.to_dec fuel n []) 0 = Some n.
Proof.
  revert n. induction fuel as [|fuel IH]; intros n Hn.
  { change (10 ^ Z.of_nat 0) with 1 in Hn. assert (n = 0) as -> by lia. done. }
  rewrite Nat2Z.inj_succ, Z.pow_succ_r in Hn by lia. simpl.
  pose proof (Z.mod_pos_bound n 10 ltac:(lia)) as Hm.
  pose proof (Z.div_mod n 10 ltac:(lia)) as Hd.
  destruct (Z.ltb_spec n 10).
  - simpl. rewrite digit_is_digit, digit_value by done. f_equal.
    rewrite Z.mod_small by lia. lia.
  - rewrite to_dec_acc, digits_value_app, IH by nia. simpl.
    rewrite digit_is_digit, digit_value by done. f_equal. lia.
Qed.

Lemma to_dec_digits fuel n acc :
  Forall (fun b => Str.is_digit b = true) acc ->
  Forall (fun b => Str.is_digit b = true) (Str.to_dec fuel n acc).
Proof.
  revert n acc. induction fuel as [|fuel IH]; intros n acc H; simpl; [done|].
  pose proof (Z.mod_pos_bound n 10 ltac:(lia)) as Hm.
  assert (Forall (fun b => Str.is_digit b = true) (Str.digit (n mod 10) :: acc))
    by (constructor; [by apply digit_is_digit|done]).
  destruct (n <? 10); auto.
Qed.

Lemma to_dec_nonempty fuel n acc : fuel <> 0%nat -> Str.to_dec fuel n acc <> [].
Proof.
  destruct fuel as [|fuel]; [done|]. intros _. simpl. destruct (n <? 10); [done|].
  rewrite to_dec_acc. by destruct (Str.to_dec _ _ []).
Qed.

Lemma parse_uint_to_string max n :
  0 <= n <= max -> n < 2 ^ 64 -> Str.parse_uint max (Str.uint_to_string n) = Some n.
Proof.
  intros Hn Hmax.
  assert (Str.digits_value (Str.uint_to_string n) 0 = Some n) as Hv.
  { apply to_dec_value. split; [lia|].
    eapply Z.lt_trans; [exact Hmax|]. by vm_compute. }
  assert (Forall (fun b => Str.is_digit b = true) (Str.uint_to_string n)) as Hd
    by (apply to_dec_digits; constructor).
  assert (Str.uint_to_string n <> []) as Hne by (by apply to_dec_nonempty).
  unfold Str.parse_uint. destruct (Str.uint_to_string n) as [|b l]; [done|].
  rewrite bool_decide_eq_false_2.
  - rewrite Hv. simpl. by rewrite (proj2 (Z.leb_le _ _)) by lia.
  - intros ->. inversion Hd as [|? ? Hb]. done.
Qed.

Lemma uint_to_string_no c n : Str.is_digit c = false -> c ∉ Str.uint_to_string n.
Proof.
  intros Hc Hin. assert (Forall (fun b => Str.is_digit b = true) (Str.uint_to_string n)) as Hd
    by (apply to_dec_digits; constructor).
  rewrite Forall_forall in Hd. specialize (Hd _ Hin). congruence.
Qed.

End Decimal.

(** ** [std::time::Duration], as a number of nanoseconds *)

Module Duration.

Definition nanos_per_sec : Z := 1000000000.

Definition from_secs (s : Z) : Z := s * nanos_per_sec.
Definition from_micros (us : Z) : Z := us * 1000.

(** [as_secs : u64] and [as_micros : u128] *)
Definition as_secs (d : Z) : Z := d / nanos_per_sec.
Definition as_micros (d : Z) : Z := d / 1000.

Lemma as_secs_from_secs s : as_secs (from_secs s) = s.
Proof. apply Z.div_mul. done. Qed.

Lemma as_micros_from_micros us : as_micros (from_micros us) = us.
Proof. apply Z.div_mul. done. Qed.

End Duration.

(** ** [rust_extensions::slice_of_u8_utils::SliceOfU8Ext]

    A library outside this repository: both searches return the first
    occurrence at or after a start offset. *)

Definition occurs_at (s l : bytes) (p : nat) : Prop :=
  take (length s) (drop p l) = s.

Definition first_from (P : nat -> Prop) (from : nat) (r : option nat) : Prop :=
  match r with
  | Some p => (from <= p)%nat /\ P p /\ forall q, (from <= q < p)%nat -> ~ P q
  | None => forall q, (from <= q)%nat -> ~ P q
  end.

Class SliceOfU8Ext := {
  find_byte_pos : bytes -> byte -> nat -> option nat;
  find_sequence_pos : bytes -> bytes -> nat -> option nat;
  find_byte_pos_spec : forall l b from,
    first_from (fun p => l !! p = Some b) from (find_byte_pos l b from);
  find_sequence_pos_spec : forall l s from,
    s <> [] -> first_from (occurs_at s l) from (find_sequence_pos l s from)
}.

(** An implementation that scans from left to right. *)
Fixpoint scan_seq (s l : bytes) (p : nat) : option nat :=
  if decide (take (length s) l = s) then Some p
  else match l with [] => None | _ :: l => scan_seq s l (S p) end.

Lemma scan_seq_spec s l k p :
  s <> [] -> drop p k = l -> first_from (occurs_at s k) p (scan_seq s l p).
Proof.
  intros Hs. revert p. induction l as [|b l IH]; intros p Hk; simpl.
  - rewrite decide_False by (rewrite take_nil; congruence).
    intros q Hq. unfold occurs_at. assert (length k <= p)%nat.
    { apply (f_equal length) in Hk. rewrite length_drop in Hk. simpl in Hk. lia. }
    rewrite drop_ge, take_nil by lia. congruence.
  - case_decide as Hd.
    + split; [lia|]. split; [unfold occurs_at; congruence|]. intros; lia.
    + assert (drop (S p) k = l) as Hk' by (replace (S p) with (p + 1)%nat by lia; by rewrite <-drop_drop, Hk).
      specialize (IH _ Hk'). unfold first_from in *.
      assert (~ occurs_at s k p) as Hp by (unfold occurs_at; by rewrite Hk).
      destruct (scan_seq s l (S p)) as [r|].
      * destruct IH as (H1 & H2 & H3). split; [lia|]. split; [done|].
        intros q Hq. destruct (decide (q = p)) as [->|]; [done|]. apply H3. lia.
      * intros q Hq. destruct (decide (q = p)) as [->|]; [done|]. apply IH. lia.
Qed.

Lemma occurs_at_single b l p : occurs_at [b] l p <-> l !! p = Some b.
Proof.
  unfold occurs_at. simpl. rewrite <-(Nat.add_0_r p) at 2. rewrite <-lookup_drop.
  destruct (drop p l); simpl; naive_solver.
Qed.

Program Definition reference_slice_ext : SliceOfU8Ext := {|
  find_byte_pos l b from := scan_seq [b] (drop from l) from;
  find_sequence_pos l s from := scan_seq s (drop from l) from
|}.
Next Obligation.
  intros l b from. pose proof (scan_seq_spec [b] _ l from ltac:(done) eq_refl) as H.
  unfold first_from in *. destruct (scan_seq [b] _ from);
    setoid_rewrite occurs_at_single in H; exact H.
Qed.
Next Obligation. intros l s from Hs. by apply scan_seq_spec. Qed.

(** The laws determine the result. *)
Lemma first_from_unique P from r1 r2 :
  first_from P from r1 -> first_from P from r2 -> r1 = r2.
Proof.
  unfold first_from. destruct r1 as [p|], r2 as [q|]; intros H1 H2; try done.
  - destruct H1 as (? & ? & H1), H2 as (? & ? & H2). f_equal.
    destruct (lt_eq_lt_dec p q) as [[|]|]; [|done|]; exfalso.
    + by eapply (H2 p); [lia|].
    + by eapply (H1 q); [lia|].
  - destruct H1 as (? & ? & _). exfalso. by eapply (H2 p).
  - destruct H2 as (? & ? & _). exfalso. by eapply (H1 q).
Qed.
