(* ===== verification/GatewayContracts.v ===== *)
(** * Gateway packets: [src/src/tcp_gateway/gateway_contracts.rs]

    The packets two proxies exchange over a gateway connection, their
    serialisation into a plaintext inner frame and the parser of a frame
    body.  The theorems are the round trip in both directions, the exact
    condition under which the parser panics, and what the wire format
    loses. *)

From Stdlib Require Import ZArith Lia Strings.String Strings.Byte.
From stdpp Require Import base tactics list gmap strings.
From S2P Require Import Prelude RustStd.

Local Open Scope Z_scope.

Module Contracts.

Definition PING : Z := 0.
Definition PONG : Z := 1.
Definition CONNECT_PACKET_ID : Z := 3.
Definition CONNECT_OK_PACKET_ID : Z := 4.
Definition CONNECTION_ERROR_PACKET_ID : Z := 5.
Definition SEND_PAYLOAD_PACKET_ID : Z := 6.
Definition RECEIVE_PAYLOAD_PACKET_ID : Z := 7.
Definition UPDATE_PING_TIME_PACKET_ID : Z := 8.
Definition GET_FILE_REQUEST_PACKET_ID : Z := 9.
Definition GET_FILE_RESPONSE_PACKET_ID : Z := 10.
Definition SYNC_SSL_CERTIFICATES_PACKET_ID : Z := 11.
Definition SYNC_SSL_CERTIFICATES_REQUEST_PACKET_ID : Z := 12.
Definition SYNC_SSL_CERTIFICATE_NOT_FOUND_PACKET_ID : Z := 13.
Definition COMPRESSED_BATCH_PACKET_ID : Z := 20.
Definition COMPRESSION_ALGO_ZSTD : Z := 0.

Inductive GetFileStatus := StatusOk | StatusError.

Definition status_as_u8 (s : GetFileStatus) : Z :=
  match s with StatusOk => 0 | StatusError => 1 end.

Definition status_from_u8 (v : Z) : GetFileStatus :=
  if v =? 0 then StatusOk else StatusError.

(** Identifiers are [u32]; durations are nanoseconds; the borrowed strings
    and payloads are their bytes. *)
Inductive TcpGatewayContract :=
| Connect (connection_id : Z) (timeout : Z) (remote_host : bytes)
| Connected (connection_id : Z)
| ConnectionError (connection_id : Z) (error : bytes)
| ForwardPayload (connection_id : Z) (payload : bytes)
| BackwardPayload (connection_id : Z) (payload : bytes)
| Ping
| Pong
| UpdatePingTime (duration : Z)
| GetFileRequest (path : bytes) (request_id : Z)
| GetFileResponse (request_id : Z) (status : GetFileStatus) (content : bytes)
| SyncSslCertificates (cert_id cert_pem private_key_pem : bytes)
| SyncSslCertificatesRequest (cert_ids : list bytes)
| SyncSslCertificateNotFound (cert_id : bytes).

(** [from_le_bytes] of the first [n] indexed bytes: indexing panics when the
    slice is shorter. *)
Definition le_head (n : nat) (payload : bytes) : outcome bytes Z :=
  head ← slice_to payload n; Ok (from_le head).

Definition push_u32 (result : bytes) (value : Z) : bytes := result ++ to_le 4 value.

Definition read_u32 (payload : bytes) (offset : nat) : outcome bytes Z :=
  if decide (length payload < offset + 4)%nat then Err (bs "truncated u32")
  else Ok (from_le (take 4 (drop offset payload))).

Definition convert_to_string (payload packet_type : bytes) : outcome bytes bytes :=
  match payload with
  | [] => Ok []
  | _ =>
      ok_or (Utf8.from_utf8 payload)
        (bs "Can not convert path to string during parsing [" ++ packet_type ++ bs "].")
  end.

(** One length-prefixed field: [read_u32], the bounds check and the slice;
    returns the field and the offset behind it. *)
Definition read_field (payload : bytes) (offset : nat) (truncated : bytes) :
    outcome bytes (bytes * nat) :=
  len ← read_u32 payload offset;
  let offset := (offset + 4)%nat in
  let fin := (offset + Z.to_nat len)%nat in
  if decide (length payload < fin)%nat then Err truncated
  else f ← slice payload offset fin; Ok (f, fin).

(** The [for _ in 0..count] loop over the requested certificate ids. *)
Fixpoint read_cert_ids (count : nat) (payload : bytes) (offset : nat) :
    outcome bytes (list bytes) :=
  match count with
  | O => Ok []
  | S count =>
      '(f, offset) ← read_field payload offset
        (bs "CLIENT_SSL_CERT_REQUEST: truncated cert_id");
      id ← ok_or (Utf8.from_utf8 f)
        (bs "CLIENT_SSL_CERT_REQUEST: invalid UTF-8 in cert_id");
      ids ← read_cert_ids count payload offset;
      Ok (id :: ids)
  end.

(** The [match packet_type] of [TcpGatewayContract::parse]; [payload] is what
    follows the packet type. *)
Definition parse_payload (t : Z) (payload : bytes) : outcome bytes TcpGatewayContract :=
  if t =? CONNECT_PACKET_ID then
    connection_id ← le_head 4 payload;
    timeout ← index payload 4;
    rest ← slice_from payload 5;
    remote_host ← convert_to_string rest (bs "CONNECT");
    Ok (Connect connection_id (Duration.from_secs (u8 timeout)) remote_host)
  else if t =? CONNECT_OK_PACKET_ID then
    connection_id ← le_head 4 payload;
    Ok (Connected connection_id)
  else if t =? CONNECTION_ERROR_PACKET_ID then
    connection_id ← le_head 4 payload;
    rest ← slice_from payload 4;
    error ← convert_to_string rest (bs "CONNECTION");
    Ok (ConnectionError connection_id error)
  else if t =? SEND_PAYLOAD_PACKET_ID then
    connection_id ← le_head 4 payload;
    rest ← slice_from payload 4;
    Ok (ForwardPayload connection_id rest)
  else if t =? RECEIVE_PAYLOAD_PACKET_ID then
    connection_id ← le_head 4 payload;
    rest ← slice_from payload 4;
    Ok (BackwardPayload connection_id rest)
  else if t =? UPDATE_PING_TIME_PACKET_ID then
    micros ← le_head 8 payload;
    Ok (UpdatePingTime (Duration.from_micros micros))
  else if t =? GET_FILE_REQUEST_PACKET_ID then
    request_id ← le_head 4 payload;
    rest ← slice_from payload 4;
    path ← convert_to_string rest (bs "GET_FILE_REQUEST");
    Ok (GetFileRequest path request_id)
  else if t =? GET_FILE_RESPONSE_PACKET_ID then
    request_id ← le_head 4 payload;
    status ← index payload 4;
    content ← slice_from payload 5;
    Ok (GetFileResponse request_id (status_from_u8 (u8 status)) content)
  else if t =? SYNC_SSL_CERTIFICATE_NOT_FOUND_PACKET_ID then
    '(f, _) ← read_field payload 0
      (bs "SYNC_SSL_CERTIFICATE_NOT_FOUND: truncated cert_id");
    cert_id ← ok_or (Utf8.from_utf8 f)
      (bs "SYNC_SSL_CERTIFICATE_NOT_FOUND: invalid UTF-8 in cert_id");
    Ok (SyncSslCertificateNotFound cert_id)
  else if t =? SYNC_SSL_CERTIFICATES_REQUEST_PACKET_ID then
    count ← read_u32 payload 0;
    cert_ids ← read_cert_ids (Z.to_nat count) payload 4;
    Ok (SyncSslCertificatesRequest cert_ids)
  else if t =? SYNC_SSL_CERTIFICATES_PACKET_ID then
    '(f, offset) ← read_field payload 0
      (bs "SERVER_SSL_CERT_PUSH: truncated cert_id");
    cert_id ← ok_or (Utf8.from_utf8 f)
      (bs "SERVER_SSL_CERT_PUSH: invalid UTF-8 in cert_id");
    '(cert_pem, offset) ← read_field payload offset
      (bs "SERVER_SSL_CERT_PUSH: truncated cert_pem");
    '(private_key_pem, offset) ← read_field payload offset
      (bs "SERVER_SSL_CERT_PUSH: truncated private_key_pem");
    Ok (SyncSslCertificates cert_id cert_pem private_key_pem)
  else if t =? PING then Ok Ping
  else if t =? PONG then Ok Pong
  else if t =? COMPRESSED_BATCH_PACKET_ID then
    Err (bs "COMPRESSED_BATCH must be unwrapped by the read loop, not by parse()")
  else Err (bs "Unknown packet type: " ++ Str.uint_to_string t).

(** [TcpGatewayContract::parse] *)
Definition parse (payload : bytes) : outcome bytes TcpGatewayContract :=
  match payload with
  | [] => Err (bs "Empty packet")
  | packet_type :: payload => parse_payload (u8 packet_type) payload
  end.

Definition push_field (body f : bytes) : bytes :=
  push_u32 body (Z.of_nat (length f)) ++ f.

(** The body built by [to_plain_frame], [[u8 TYPE][PAYLOAD]]. *)
Definition to_body (c : TcpGatewayContract) : bytes :=
  match c with
  | Connect connection_id timeout remote_host =>
      push_u32 [u8_of_Z CONNECT_PACKET_ID] connection_id
        ++ [u8_of_Z (Duration.as_secs timeout)] ++ remote_host
  | Connected connection_id =>
      push_u32 [u8_of_Z CONNECT_OK_PACKET_ID] connection_id
  | ConnectionError connection_id error =>
      push_u32 [u8_of_Z CONNECTION_ERROR_PACKET_ID] connection_id ++ error
  | ForwardPayload connection_id payload =>
      push_u32 [u8_of_Z SEND_PAYLOAD_PACKET_ID] connection_id ++ payload
  | BackwardPayload connection_id payload =>
      push_u32 [u8_of_Z RECEIVE_PAYLOAD_PACKET_ID] connection_id ++ payload
  | UpdatePingTime duration =>
      [u8_of_Z UPDATE_PING_TIME_PACKET_ID] ++ to_le 8 (Duration.as_micros duration)
  | GetFileRequest path request_id =>
      [u8_of_Z GET_FILE_REQUEST_PACKET_ID] ++ to_le 4 request_id ++ path
  | GetFileResponse request_id status content =>
      [u8_of_Z GET_FILE_RESPONSE_PACKET_ID] ++ to_le 4 request_id
        ++ [u8_of_Z (status_as_u8 status)] ++ content
  | SyncSslCertificates cert_id cert_pem private_key_pem =>
      push_field
        (push_field (push_field [u8_of_Z SYNC_SSL_CERTIFICATES_PACKET_ID] cert_id) cert_pem)
        private_key_pem
  | SyncSslCertificatesRequest cert_ids =>
      fold_left push_field cert_ids
        (push_u32 [u8_of_Z SYNC_SSL_CERTIFICATES_REQUEST_PACKET_ID]
                  (Z.of_nat (length cert_ids)))
  | SyncSslCertificateNotFound cert_id =>
      push_field [u8_of_Z SYNC_SSL_CERTIFICATE_NOT_FOUND_PACKET_ID] cert_id
  | Ping => [u8_of_Z PING]
  | Pong => [u8_of_Z PONG]
  end.

(** [TcpGatewayContract::to_plain_frame] *)
Definition to_plain_frame (c : TcpGatewayContract) : bytes :=
  let body := to_body c in
  to_le 4 (Z.of_nat (length body)) ++ body.

(** ** Specification vocabulary *)

(** What the Rust types guarantee of a packet value. *)
Definition wf (c : TcpGatewayContract) : Prop :=
  match c with
  | Connect id t host => in_u32 id /\ 0 <= t /\ Utf8.valid host = true
  | Connected id => in_u32 id
  | ConnectionError id e => in_u32 id /\ Utf8.valid e = true
  | ForwardPayload id _ | BackwardPayload id _ => in_u32 id
  | Ping | Pong => True
  | UpdatePingTime d => 0 <= d
  | GetFileRequest p id => in_u32 id /\ Utf8.valid p = true
  | GetFileResponse id _ _ => in_u32 id
  | SyncSslCertificates id cp pk =>
      Utf8.valid id = true /\ in_u32 (Z.of_nat (length id)) /\
      in_u32 (Z.of_nat (length cp)) /\ in_u32 (Z.of_nat (length pk))
  | SyncSslCertificatesRequest ids =>
      in_u32 (Z.of_nat (length ids)) /\
      Forall (fun id => Utf8.valid id = true /\ in_u32 (Z.of_nat (length id))) ids
  | SyncSslCertificateNotFound id =>
      Utf8.valid id = true /\ in_u32 (Z.of_nat (length id))
  end.

(** What survives serialisation: a connect timeout travels as one byte of
    seconds, a ping time as 64 bits of microseconds. *)
Definition on_wire (c : TcpGatewayContract) : TcpGatewayContract :=
  match c with
  | Connect id t h => Connect id (Duration.from_secs (Duration.as_secs t mod 256)) h
  | UpdatePingTime d =>
      UpdatePingTime (Duration.from_micros (Duration.as_micros d mod 2 ^ 64))
  | c => c
  end.

(** Bytes behind the packet type that [parse] indexes without a check. *)
Definition fixed_len (t : Z) : nat :=
  if t =? CONNECT_PACKET_ID then 5%nat
  else if t =? UPDATE_PING_TIME_PACKET_ID then 8%nat
  else if t =? GET_FILE_RESPONSE_PACKET_ID then 5%nat
  else if (t =? CONNECT_OK_PACKET_ID) || (t =? CONNECTION_ERROR_PACKET_ID)
       || (t =? SEND_PAYLOAD_PACKET_ID) || (t =? RECEIVE_PAYLOAD_PACKET_ID)
       || (t =? GET_FILE_REQUEST_PACKET_ID) then 4%nat
  else 0%nat.

(** ** Lemmas on the field readers *)

Lemma le_head_app n v rest :
  0 <= v < 2 ^ (8 * Z.of_nat n) -> le_head n (to_le n v ++ rest) = Ok v.
Proof.
  intros Hv. unfold le_head.
  rewrite slice_to_ok by (rewrite length_app, length_to_le; lia). simpl.
  rewrite take_app_le, take_ge by (rewrite length_to_le; lia).
  by rewrite from_le_to_le_small.
Qed.

Lemma read_u32_app p v rest :
  in_u32 v -> read_u32 (p ++ to_le 4 v ++ rest) (length p) = Ok v.
Proof.
  intros Hv. unfold read_u32.
  rewrite decide_False by (rewrite !length_app, length_to_le; lia).
  rewrite drop_app_length, take_app_le, take_ge by (rewrite length_to_le; lia).
  rewrite from_le_to_le_small; [done|exact Hv].
Qed.

Lemma read_u32_app0 v rest : in_u32 v -> read_u32 (to_le 4 v ++ rest) 0 = Ok v.
Proof. apply (read_u32_app []). Qed.

Lemma read_field_app p f rest err :
  in_u32 (Z.of_nat (length f)) ->
  read_field (p ++ (to_le 4 (Z.of_nat (length f)) ++ f) ++ rest) (length p) err
  = Ok (f, (length p + 4 + length f)%nat).
Proof.
  intros Hf. unfold read_field. rewrite <-(app_assoc (to_le _ _)), read_u32_app by done. simpl.
  rewrite Nat2Z.id, decide_False by (rewrite !length_app, length_to_le; lia).
  pose proof (@slice_app_mid bytes _ (p ++ to_le 4 (Z.of_nat (length f))) f rest) as H.
  rewrite length_app, length_to_le, <-!app_assoc in H. by rewrite H.
Qed.

Lemma push_field_app body f :
  push_field body f = body ++ to_le 4 (Z.of_nat (length f)) ++ f.
Proof. unfold push_field, push_u32. by rewrite <-app_assoc. Qed.

Lemma fold_push_field body fs :
  fold_left push_field fs body
  = body ++ concat (map (fun f => to_le 4 (Z.of_nat (length f)) ++ f) fs).
Proof.
  revert body. induction fs as [|f fs IH]; intros body; simpl; [by rewrite app_nil_r|].
  by rewrite IH, push_field_app, <-app_assoc.
Qed.

Lemma convert_to_string_valid l t :
  Utf8.valid l = true -> convert_to_string l t = Ok l.
Proof.
  intros H. unfold convert_to_string, Utf8.from_utf8. destruct l; [done|].
  by rewrite H.
Qed.

Lemma from_utf8_valid {E} l (e : E) :
  Utf8.valid l = true -> ok_or (Utf8.from_utf8 l) e = Ok l.
Proof. intros H. unfold Utf8.from_utf8. by rewrite H. Qed.

Lemma read_cert_ids_app p fs rest :
  Forall (fun id => Utf8.valid id = true /\ in_u32 (Z.of_nat (length id))) fs ->
  read_cert_ids (length fs)
    (p ++ concat (map (fun f => to_le 4 (Z.of_nat (length f)) ++ f) fs) ++ rest)
    (length p) = Ok fs.
Proof.
  revert p. induction fs as [|f fs IH]; intros p H; [done|].
  apply Forall_cons in H as [[Hv Hf] H]. simpl. rewrite <-(app_assoc (_ ++ f)).
  rewrite read_field_app by done. simpl. rewrite from_utf8_valid by done. simpl.
  specialize (IH (p ++ to_le 4 (Z.of_nat (length f)) ++ f) H).
  rewrite <-!(app_assoc p), !length_app, length_to_le, Nat.add_assoc in IH.
  by rewrite IH.
Qed.

Lemma utf8_field_ok {A} l (e : bytes) (k : bytes -> outcome bytes A) :
  Utf8.valid l = true -> (x ← ok_or (Utf8.from_utf8 l) e; k x) = k l.
Proof. intros H. by rewrite from_utf8_valid. Qed.

Lemma read_field_app0 f rest err :
  in_u32 (Z.of_nat (length f)) ->
  read_field (to_le 4 (Z.of_nat (length f)) ++ f ++ rest) 0 err
  = Ok (f, (length f + 4)%nat).
Proof.
  intros. rewrite app_assoc, (Nat.add_comm (length f)). by apply (read_field_app []).
Qed.

(** Reading an id, then the rest, of a packet laid out as [id ++ rest]. *)
Lemma id_rest {A} id rest (k : Z -> bytes -> outcome bytes A) :
  in_u32 id ->
  (x ← le_head 4 (to_le 4 id ++ rest);
   r ← slice_from (to_le 4 id ++ rest) 4; k x r) = k id rest.
Proof.
  intros. rewrite le_head_app by done. simpl.
  rewrite slice_from_ok by (rewrite length_app, length_to_le; lia). simpl.
  rewrite drop_app_ge, length_to_le by (rewrite length_to_le; lia). done.
Qed.

Lemma id_byte_rest {A} id b rest (k : Z -> byte -> bytes -> outcome bytes A) :
  in_u32 id ->
  (x ← le_head 4 (to_le 4 id ++ b :: rest);
   y ← index (to_le 4 id ++ b :: rest) 4;
   r ← slice_from (to_le 4 id ++ b :: rest) 5; k x y r) = k id b rest.
Proof.
  intros. rewrite le_head_app by done. simpl.
  rewrite (index_ok _ 4 b) by (by rewrite lookup_app_r, length_to_le by (rewrite length_to_le; lia)).
  simpl. rewrite slice_from_ok by (rewrite length_app, length_to_le; simpl; lia). simpl.
  rewrite drop_app_ge, length_to_le by (rewrite length_to_le; lia). done.
Qed.

#[local] Ltac parse_tag :=
  unfold parse; simpl app; cbv iota beta; rewrite u8_u8_of_Z; unfold parse_payload; simpl.

Lemma parse_to_body_wire c : wf c -> parse (to_body c) = Ok (on_wire c).
Proof.
  destruct c; cbn [to_body wf on_wire]; unfold push_u32; cbn [app]; intros H; try done.
  - destruct H as (? & ? & Hv). parse_tag.
    rewrite id_byte_rest by done. rewrite convert_to_string_valid by done. simpl.
    by rewrite u8_u8_of_Z.
  - parse_tag. rewrite <-(app_nil_r (to_le 4 _)). by rewrite le_head_app.
  - destruct H as [? Hv]. parse_tag. rewrite id_rest by done.
    by rewrite convert_to_string_valid.
  - parse_tag. by rewrite id_rest.
  - parse_tag. by rewrite id_rest.
  - parse_tag. unfold le_head.
    rewrite slice_to_ok by (rewrite length_to_le; lia). simpl.
    rewrite take_ge by (rewrite length_to_le; lia). by rewrite from_le_to_le.
  - destruct H as [? Hv]. parse_tag. rewrite id_rest by done.
    by rewrite convert_to_string_valid.
  - parse_tag. rewrite id_byte_rest by done. by destruct status.
  - destruct H as (? & ? & ? & ?). rewrite !push_field_app. parse_tag.
    rewrite <-!app_assoc. rewrite read_field_app0 by done. simpl.
    rewrite from_utf8_valid by done. simpl.
    pose proof (read_field_app (to_le 4 (Z.of_nat (length cert_id)) ++ cert_id)
      cert_pem (to_le 4 (Z.of_nat (length private_key_pem)) ++ private_key_pem)
      (bs "SERVER_SSL_CERT_PUSH: truncated cert_pem")) as R1.
    pose proof (read_field_app (to_le 4 (Z.of_nat (length cert_id)) ++ cert_id ++
      to_le 4 (Z.of_nat (length cert_pem)) ++ cert_pem) private_key_pem []
      (bs "SERVER_SSL_CERT_PUSH: truncated private_key_pem")) as R2.
    rewrite <-!app_assoc, !length_app, !length_to_le in R1.
    rewrite <-!app_assoc, !length_app, !length_to_le, app_nil_r in R2.
    rewrite (Nat.add_comm 4) in R1. rewrite R1 by done. simpl.
    replace (length cert_id + 4 + 4 + length cert_pem)%nat
      with (4 + (length cert_id + (4 + length cert_pem)))%nat by lia.
    by rewrite R2.
  - destruct H as [Hn Hf]. rewrite fold_push_field. parse_tag.
    rewrite read_u32_app0 by done. simpl. rewrite Nat2Z.id.
    pose proof (read_cert_ids_app (to_le 4 (Z.of_nat (length cert_ids))) _ [] Hf) as R.
    rewrite app_nil_r, length_to_le in R. by rewrite R.
  - destruct H as [? Hl]. rewrite push_field_app. parse_tag.
    pose proof (read_field_app0 cert_id []
      (bs "SYNC_SSL_CERTIFICATE_NOT_FOUND: truncated cert_id") Hl) as R.
    rewrite app_nil_r in R. rewrite R. simpl. by rewrite from_utf8_valid.
Qed.

(** *** Outcomes of the readers on arbitrary input *)

Lemma read_u32_no_panic p o : read_u32 p o <> Panic.
Proof. unfold read_u32. by case_decide. Qed.

Lemma read_u32_Ok p o v :
  read_u32 p o = Ok v -> in_u32 v /\ (o + 4 <= length p)%nat.
Proof.
  unfold read_u32. case_decide; [done|]. intros [= <-]. split; [|lia].
  pose proof (from_le_range (take 4 (drop o p))) as Hr.
  rewrite length_take, length_drop in Hr.
  replace (4 `min` (length p - o))%nat with 4%nat in Hr by lia. exact Hr.
Qed.

Lemma read_field_no_panic p o e : read_field p o e <> Panic.
Proof.
  unfold read_field. destruct (read_u32 p o) eqn:E; simpl; [|done|].
  - case_decide; [done|]. rewrite slice_ok by lia. done.
  - by apply read_u32_no_panic in E.
Qed.

Lemma read_field_Ok p o e f o' :
  read_field p o e = Ok (f, o') -> in_u32 (Z.of_nat (length f)).
Proof.
  unfold read_field. intros H. destruct (read_u32 p o) as [v| |] eqn:E; simpl in H; try done.
  apply read_u32_Ok in E as [Hv Ho]. case_decide; [done|].
  rewrite slice_ok in H by lia. simplify_eq/=.
  rewrite length_take, length_drop. unfold in_u32 in *. lia.
Qed.

Lemma read_cert_ids_no_panic n p o : read_cert_ids n p o <> Panic.
Proof.
  revert o. induction n as [|n IH]; intros o; simpl; [done|].
  destruct (read_field p o _) as [[f o']| |] eqn:E; simpl; [|done|by apply read_field_no_panic in E].
  unfold Utf8.from_utf8. destruct (Utf8.valid f); simpl; [|done].
  destruct (read_cert_ids n p o') eqn:E'; simpl; [done..|]. by apply IH in E'.
Qed.

Lemma read_cert_ids_Ok n p o ids :
  read_cert_ids n p o = Ok ids ->
  length ids = n /\
  Forall (fun id => Utf8.valid id = true /\ in_u32 (Z.of_nat (length id))) ids.
Proof.
  revert o ids. induction n as [|n IH]; intros o ids H; simpl in H; [by simplify_eq|].
  destruct (read_field p o _) as [[f o']| |] eqn:E; simpl in H; try done.
  apply read_field_Ok in E. unfold Utf8.from_utf8 in H.
  destruct (Utf8.valid f) eqn:Ev; simpl in H; [|done].
  destruct (read_cert_ids n p o') as [ids'| |] eqn:E'; simplify_eq/=.
  apply IH in E' as [<- HF]. split; [done|]. constructor; done.
Qed.

Lemma le_head_Ok n p v :
  le_head n p = Ok v -> 0 <= v < 2 ^ (8 * Z.of_nat n) /\ (n <= length p)%nat.
Proof.
  unfold le_head, slice_to. case_decide as Hd; simpl; [|done]. intros [= <-].
  pose proof (from_le_range (take n p)) as H. rewrite length_take, Nat.min_l in H by done.
  done.
Qed.

Lemma le_head_cases n p :
  ((n <= length p)%nat /\ exists v, le_head n p = Ok v) \/
  ((length p < n)%nat /\ le_head n p = Panic).
Proof.
  unfold le_head, slice_to. case_decide; simpl; [left; eauto|right]. split; [lia|done].
Qed.

Lemma index_cases (p : bytes) n :
  ((n < length p)%nat /\ exists v, index (E:=bytes) p n = Ok v) \/
  ((length p <= n)%nat /\ index (E:=bytes) p n = Panic).
Proof.
  unfold index. destruct (p !! n) eqn:E; simpl.
  - apply lookup_lt_Some in E. left; eauto.
  - apply lookup_ge_None in E. right; eauto.
Qed.

Lemma convert_to_string_no_panic l t : convert_to_string l t <> Panic.
Proof.
  unfold convert_to_string, ok_or. destruct l; [done|]. by destruct (Utf8.from_utf8 _).
Qed.

Lemma convert_to_string_Ok l t r :
  convert_to_string l t = Ok r -> r = l /\ Utf8.valid r = true.
Proof.
  unfold convert_to_string, Utf8.from_utf8. destruct l; [by intros [= <-]|].
  destruct (Utf8.valid _) eqn:E; simpl; [|done]. by intros [= <-].
Qed.

(** Case analysis on the next reader of the goal. *)
#[local] Ltac reader_cases :=
  match goal with
  | |- context [le_head ?n ?p] =>
      destruct (le_head_cases n p) as [[? [? ->]]|[? ->]]; simpl
  | |- context [index ?p ?n] =>
      destruct (index_cases p n) as [[? [? ->]]|[? ->]]; simpl
  | |- context [slice_from ?p ?n] =>
      unfold slice_from at 1; case_decide; simpl
  | |- context [convert_to_string ?l ?t] =>
      let H := fresh in
      pose proof (convert_to_string_no_panic l t) as H;
      destruct (convert_to_string l t); [clear H|clear H|done]; simpl
  | |- context [read_field ?p ?o ?e] =>
      let H := fresh in
      pose proof (read_field_no_panic p o e) as H;
      destruct (read_field p o e) as [[]| |]; [clear H|clear H|done]; simpl
  | |- context [read_u32 ?p ?o] =>
      let H := fresh in
      pose proof (read_u32_no_panic p o) as H;
      destruct (read_u32 p o); [clear H|clear H|done]; simpl
  | |- context [read_cert_ids ?n ?p ?o] =>
      let H := fresh in
      pose proof (read_cert_ids_no_panic n p o) as H;
      destruct (read_cert_ids n p o); [clear H|clear H|done]; simpl
  | |- context [Utf8.from_utf8 ?l] => destruct (Utf8.from_utf8 l); simpl
  end.

(** The parser panics exactly when the body is shorter than the fixed
    part of its packet type, which it indexes without a bounds check; every
    other malformed body is an [Err]. *)
Theorem parse_panic_iff t p :
  parse (t :: p) = Panic <-> (length p < fixed_len (u8 t))%nat.
Proof.
  unfold parse, parse_payload, fixed_len. generalize (u8 t); clear t; intros t.
  repeat match goal with
  | |- context [if ?a =? ?b then _ else _] =>
      destruct (Z.eqb_spec a b); simpl; [subst; simpl; repeat reader_cases; split; intros; try done; try lia|]
  end.
  all: try (split; intros; try done; lia).
Qed.

#[local] Ltac reader_inv H :=
  repeat match type of H with
  | mbind _ (le_head ?n ?p) = _ =>
      let E := fresh "E" in destruct (le_head n p) eqn:E; simpl in H; try done;
      apply le_head_Ok in E as [? ?]
  | mbind _ (index ?p ?n) = _ =>
      let E := fresh "E" in destruct (index (E:=bytes) p n) eqn:E; simpl in H; try done
  | mbind _ (slice_from ?p ?n) = _ =>
      let E := fresh "E" in destruct (slice_from (E:=bytes) p n) eqn:E; simpl in H; try done
  | mbind _ (convert_to_string ?l ?t) = _ =>
      let E := fresh "E" in destruct (convert_to_string l t) eqn:E; simpl in H; try done;
      apply convert_to_string_Ok in E as [? ?]
  | mbind _ (read_field ?p ?o ?e) = _ =>
      let E := fresh "E" in destruct (read_field p o e) as [[]| |] eqn:E; simpl in H; try done;
      apply read_field_Ok in E
  | mbind _ (read_u32 ?p ?o) = _ =>
      let E := fresh "E" in destruct (read_u32 p o) eqn:E; simpl in H; try done;
      apply read_u32_Ok in E as [? ?]
  | mbind _ (read_cert_ids ?n ?p ?o) = _ =>
      let E := fresh "E" in destruct (read_cert_ids n p o) eqn:E; simpl in H; try done;
      apply read_cert_ids_Ok in E as [? ?]
  | mbind _ (ok_or (Utf8.from_utf8 ?l) ?e) = _ =>
      let E := fresh "E" in destruct (Utf8.from_utf8 l) eqn:E; simpl in H; try done;
      apply Utf8.from_utf8_Some in E as [? ?]
  end.

Lemma parse_wf p c : parse p = Ok c -> wf c /\ on_wire c = c.
Proof.
  destruct p as [|t p]; [done|]. unfold parse, parse_payload. intros H.
  repeat match type of H with
  | (if ?b then _ else _) = _ => destruct b
  end; reader_inv H; simplify_eq/=; unfold in_u32; try (split; [|done]); try done.
  - rewrite Duration.as_secs_from_secs. pose proof (u8_range a0).
    split; [split_and!; try done; unfold Duration.from_secs, Duration.nanos_per_sec; lia|].
    by rewrite Z.mod_small.
  - rewrite Duration.as_micros_from_micros. unfold Duration.from_micros.
    split; [lia|]. by rewrite Z.mod_small.
  - unfold in_u32 in *. split; [lia|done].
Qed.

(** A well-formed packet survives serialisation and parsing: the frame
    starts with the little-endian length of its body (modulo 2^32), and the
    parser applied to the body returns the packet again, with a connect
    timeout reduced to whole seconds modulo 256 and a ping time to whole
    microseconds modulo 2^64. *)
Theorem parse_plain_frame c :
  wf c ->
  from_le (take 4 (to_plain_frame c)) = Z.of_nat (length (to_body c)) mod 2 ^ 32 /\
  parse (drop 4 (to_plain_frame c)) = Ok (on_wire c).
Proof.
  intros Hw. unfold to_plain_frame.
  rewrite take_app_le, take_ge, drop_app_ge, length_to_le by (rewrite length_to_le; lia).
  rewrite from_le_to_le. split; [done|]. by apply parse_to_body_wire.
Qed.

Lemma parse_plain_frame_witness :
  let c := Connect 7 (Duration.from_secs 300) (bs "10.0.0.5:5123") in
  wf c /\ parse (drop 4 (to_plain_frame c)) = Ok (Connect 7 (Duration.from_secs 44) (bs "10.0.0.5:5123")).
Proof.
  intros c. assert (wf c) as Hw by (vm_compute; intuition congruence).
  split; [exact Hw|]. destruct (parse_plain_frame c Hw) as [_ ->]. reflexivity.
Defined.

(** Whatever the parser accepts is well formed and is parsed to itself
    again after being re-serialised; parsing is a normalisation. *)
Theorem parse_reencode p c : parse p = Ok c -> wf c /\ parse (to_body c) = Ok c.
Proof.
  intros [Hw Ho]%parse_wf. split; [done|]. rewrite <-Ho at 2. by apply parse_to_body_wire.
Qed.

Lemma parse_reencode_witness :
  wf (GetFileResponse 5 StatusError (bs "x")) /\
  parse (to_body (GetFileResponse 5 StatusError (bs "x")))
  = Ok (GetFileResponse 5 StatusError (bs "x")).
Proof.
  apply (parse_reencode [Byte.x0a; Byte.x05; Byte.x00; Byte.x00; Byte.x00; Byte.x63; Byte.x78]).
  vm_compute. reflexivity.
Defined.

End Contracts.
