(* ===== verification/GatewaySession.v ===== *)
(** * The gateway wire: [session/write_loop.rs], [gateway_read_loop.rs]

    The writer task turns plaintext inner frames into encrypted wire frames,
    one by one or as one compressed batch per flush; the reader task undoes
    that and hands the packets to the packet handler in order.  The cipher
    and zstd are libraries outside this repository: they are the class
    [GatewayCodec], with the one law each that the protocol relies on. *)

From Stdlib Require Import ZArith Lia Strings.String Strings.Byte.
From stdpp Require Import base tactics list gmap strings.
From S2P Require Import Prelude RustStd GatewayContracts.
Import Contracts.

Local Open Scope Z_scope.

(** [encryption::aes::AesKey] and [zstd::stream].  Decryption with the key
    that encrypted, and decompression of a compressed block, give the input
    back. *)
Class GatewayCodec := {
  AesKey : Type;
  aes_encrypt : AesKey -> bytes -> bytes;
  aes_decrypt : AesKey -> bytes -> option bytes;
  zstd_encode_all : bytes -> option bytes;
  zstd_decode_all : bytes -> outcome bytes bytes;
  aes_decrypt_encrypt : forall key b, aes_decrypt key (aes_encrypt key b) = Some b;
  zstd_decode_encode : forall b c, zstd_encode_all b = Some c -> zstd_decode_all c = Ok b
}.

(** A codec to evaluate the model with: the "cipher" prepends the key byte. *)
Definition toy_decrypt (key : byte) (c : bytes) : option bytes :=
  match c with
  | k :: b => if bool_decide (k = key) then Some b else None
  | [] => None
  end.

Lemma toy_decrypt_encrypt key b : toy_decrypt key (key :: b) = Some b.
Proof. simpl. by rewrite bool_decide_eq_true_2. Qed.

Definition toy_codec : GatewayCodec := {|
  AesKey := byte;
  aes_encrypt key b := key :: b;
  aes_decrypt := toy_decrypt;
  zstd_encode_all b := Some b;
  zstd_decode_all c := Ok c;
  aes_decrypt_encrypt := toy_decrypt_encrypt;
  zstd_decode_encode b c H := f_equal Ok (eq_sym (Some_inj _ _ H))
|}.

Module Session.

Definition MAX_PAYLOAD_SIZE : Z := 1024 * 1024 * 5.
Definition MAX_DECOMPRESSED_BATCH_SIZE : Z := 16 * 1024 * 1024.

Definition zlen {A} (l : list A) : Z := Z.of_nat (length l).

Section Codec.
Context `{GatewayCodec}.

(** ** Writer *)

(** [encrypt_frame] *)
Definition encrypt_frame (body : bytes) (aes : AesKey) : bytes :=
  let encrypted := aes_encrypt aes body in
  to_le 4 (zlen encrypted) ++ encrypted.

(** [encode_individual_frames]; [rest] is [plaintext[offset..]].  A step
    consumes at least four bytes, so [length plaintext] steps are enough. *)
Fixpoint encode_frames_loop (fuel : nat) (rest : bytes) (aes : AesKey) : bytes :=
  match fuel with
  | O => []
  | S fuel =>
      if decide (4 <= length rest)%nat then
        let inner_len := Z.to_nat (from_le (take 4 rest)) in
        let rest := drop 4 rest in
        if decide (length rest < inner_len)%nat then []
        else encrypt_frame (take inner_len rest) aes
               ++ encode_frames_loop fuel (drop inner_len rest) aes
      else []
  end.

Definition encode_individual_frames (plaintext : bytes) (aes : AesKey) : bytes :=
  encode_frames_loop (S (length plaintext)) plaintext aes.

(** [encode_compressed_batch] *)
Definition encode_compressed_batch (plaintext : bytes) (aes : AesKey) : bytes :=
  match zstd_encode_all plaintext with
  | Some compressed =>
      encrypt_frame
        ([u8_of_Z COMPRESSED_BATCH_PACKET_ID; u8_of_Z COMPRESSION_ALGO_ZSTD] ++ compressed) aes
  | None => encode_individual_frames plaintext aes
  end.

(** [build_wire] *)
Definition build_wire (plaintext : bytes) (aes : AesKey) (compress_outbound : bool) : bytes :=
  if compress_outbound then encode_compressed_batch plaintext aes
  else encode_individual_frames plaintext aes.

(** ** Reader *)

Section Handler.

(** The packet handler is a trait object: what it does to the state of the
    connection is a parameter.  [handle_packet] returns the new state with
    its [Result]. *)
Context {St : Type} (handle_packet : St -> TcpGatewayContract -> St * outcome bytes unit).

(** The [while] loop of [handle_compressed_batch]; [rest] is
    [decompressed[offset..]]. *)
Fixpoint batch_loop (fuel : nat) (rest : bytes) (st : St) : St * outcome bytes unit :=
  match fuel with
  | O => (st, Panic)
  | S fuel =>
      if decide (4 <= length rest)%nat then
        let inner_len := Z.to_nat (from_le (take 4 rest)) in
        let rest := drop 4 rest in
        if decide (length rest < inner_len)%nat then
          (st, Err (bs "COMPRESSED_BATCH: truncated inner frame"))
        else
          let body := take inner_len rest in
          let rest := drop inner_len rest in
          match body with
          | [] => (st, Err (bs "COMPRESSED_BATCH: empty inner frame"))
          | b :: _ =>
              if u8 b =? COMPRESSED_BATCH_PACKET_ID then
                (st, Err (bs "COMPRESSED_BATCH: nested batch is not allowed"))
              else
                match parse body with
                | Err err =>
                    (st, Err (bs "COMPRESSED_BATCH: failed to parse inner frame: " ++ err))
                | Panic => (st, Panic)
                | Ok packet =>
                    match handle_packet st packet with
                    | (st, Ok _) => batch_loop fuel rest st
                    | (st, Err err) =>
                        (st, Err (bs "COMPRESSED_BATCH: handler failed: " ++ err))
                    | (st, Panic) => (st, Panic)
                    end
                end
          end
      else
        match rest with
        | [] => (st, Ok tt)
        | _ => (st, Err (bs "COMPRESSED_BATCH: trailing bytes after last inner frame"))
        end
  end.

(** [handle_compressed_batch]; [decrypted] starts with the packet type. *)
Definition handle_compressed_batch (decrypted : bytes) (st : St) : St * outcome bytes unit :=
  match decrypted with
  | _ :: algo :: compressed =>
      if negb (u8 algo =? COMPRESSION_ALGO_ZSTD) then
        (st, Err (bs "COMPRESSED_BATCH: unknown algo byte " ++ Str.uint_to_string (u8 algo)))
      else
        match map_err (fun err => bs "COMPRESSED_BATCH: zstd decompress failed: " ++ err)
                (zstd_decode_all compressed) with
        | Ok decompressed =>
            if MAX_DECOMPRESSED_BATCH_SIZE <? zlen decompressed then
              (st, Err (bs "COMPRESSED_BATCH: decompressed size "
                        ++ Str.uint_to_string (zlen decompressed) ++ bs " exceeds "
                        ++ Str.uint_to_string MAX_DECOMPRESSED_BATCH_SIZE ++ bs " limit"))
            else batch_loop (S (length decompressed)) decompressed st
        | Err err => (st, Err err)
        | Panic => (st, Panic)
        end
  | _ => (st, Err (bs "COMPRESSED_BATCH: missing algo byte"))
  end.

(** What the read loop owns: the state behind the handler, the bytes counted
    by [in_per_second], and the last time an incoming payload was recorded. *)
Record ReadState := {
  handler_state : St;
  in_bytes : Z;
  last_incoming : option Z
}.

Definition set_handler_state (st : St) (r : ReadState) : ReadState :=
  {| handler_state := st; in_bytes := in_bytes r; last_incoming := last_incoming r |}.
Definition add_in_bytes (n : Z) (r : ReadState) : ReadState :=
  {| handler_state := handler_state r; in_bytes := in_bytes r + n;
     last_incoming := last_incoming r |}.
Definition set_last_incoming_payload_time (t : Z) (r : ReadState) : ReadState :=
  {| handler_state := handler_state r; in_bytes := in_bytes r; last_incoming := Some t |}.

(** How the loop ended: [Closed] runs the clean-up behind the loop
    ([set_gateway_connection(id, None)] and [disconnect_gateway]), a panic
    unwinds the task and does not. *)
Inductive ReadEnd := Closed | Unwound.

(** [gateway_read_loop].  [input] is what the peer will have sent before the
    socket ends; [now n] is the clock at payload number [n].  A step consumes
    at least four bytes of input. *)
Fixpoint read_loop (fuel : nat) (now : Z -> Z) (payload_no : Z) (aes_key : AesKey)
    (input : bytes) (r : ReadState) : ReadState * ReadEnd :=
  match fuel with
  | O => (r, Unwound)
  | S fuel =>
      let payload_no := payload_no + 1 in
      (* read_exact of the four size bytes fails at the end of the stream *)
      if decide (length input < 4)%nat then (r, Closed)
      else
        let payload_size := from_le (take 4 input) in
        let input := drop 4 input in
        if MAX_PAYLOAD_SIZE <? payload_size then (r, Closed)
        (* read_buffer returns 0 for an empty payload and for a short read *)
        else if (payload_size =? 0) || (zlen input <? payload_size) then (r, Closed)
        else
          let r := add_in_bytes payload_size r in
          let payload := take (Z.to_nat payload_size) input in
          let input := drop (Z.to_nat payload_size) input in
          match aes_decrypt aes_key payload with
          | None => (r, Closed)
          | Some [] => (r, Closed)
          | Some ((b :: _) as decrypted_bytes) =>
              if u8 b =? COMPRESSED_BATCH_PACKET_ID then
                match handle_compressed_batch decrypted_bytes (handler_state r) with
                | (st, Ok _) =>
                    read_loop fuel now payload_no aes_key input
                      (set_last_incoming_payload_time (now payload_no) (set_handler_state st r))
                | (st, Err _) => (set_handler_state st r, Closed)
                | (st, Panic) => (set_handler_state st r, Unwound)
                end
              else
                match parse decrypted_bytes with
                | Ok packet =>
                    let r := set_last_incoming_payload_time (now payload_no) r in
                    match handle_packet (handler_state r) packet with
                    | (st, Ok _) =>
                        read_loop fuel now payload_no aes_key input (set_handler_state st r)
                    | (st, Err _) => (set_handler_state st r, Closed)
                    | (st, Panic) => (set_handler_state st r, Unwound)
                    end
                | Err _ => (r, Closed)
                | Panic => (r, Unwound)
                end
          end
  end.

Definition gateway_read_loop (now : Z -> Z) (aes_key : AesKey) (input : bytes)
    (st : St) (started_at : Z) : ReadState * ReadEnd :=
  read_loop (S (length input)) now 0 aes_key input
    {| handler_state := st; in_bytes := 0; last_incoming := Some started_at |}.

(** ** Specification: the handler applied to a list of packets, in order,
    until it fails *)
Fixpoint handle_all (st : St) (cs : list TcpGatewayContract) : St * outcome bytes unit :=
  match cs with
  | [] => (st, Ok tt)
  | c :: cs =>
      match handle_packet st c with
      | (st, Ok _) => handle_all st cs
      | r => r
      end
  end.

End Handler.

(** A packet the writer may put on the wire. *)
Definition sendable (c : TcpGatewayContract) : Prop :=
  wf c /\ in_u32 (zlen (to_body c)).

Definition frames (cs : list TcpGatewayContract) : bytes := concat (map to_plain_frame cs).

(** ** Lemmas: taking one frame off a concatenation *)

Lemma body_nonempty c : to_body c <> [].
Proof.
  destruct c; simpl; unfold push_field, push_u32; try done.
  rewrite fold_push_field. done.
Qed.

Lemma body_type c :
  exists b rest, to_body c = b :: rest /\ u8 b <> COMPRESSED_BATCH_PACKET_ID.
Proof.
  destruct c; cbn [to_body]; unfold push_u32; rewrite ?push_field_app, ?fold_push_field;
    unfold push_u32; cbn [app]; eexists _, _; (split; [reflexivity|]);
    rewrite u8_u8_of_Z; done.
Qed.

Lemma frame_head c rest :
  sendable c ->
  let f := to_plain_frame c ++ rest in
  (4 <= length f)%nat /\
  Z.to_nat (from_le (take 4 f)) = length (to_body c) /\
  drop 4 f = to_body c ++ rest.
Proof.
  intros [_ Hl]. unfold to_plain_frame. simpl.
  rewrite <-app_assoc. split_and!.
  - rewrite length_app, length_to_le. lia.
  - rewrite take_app_le, take_ge by (rewrite length_to_le; lia).
    rewrite from_le_to_le_small by exact Hl. apply Nat2Z.id.
  - by rewrite drop_app_ge, length_to_le by (rewrite length_to_le; lia).
Qed.

Lemma frame_length c : (4 <= length (to_plain_frame c))%nat.
Proof. unfold to_plain_frame. rewrite length_app, length_to_le. lia. Qed.

Lemma encode_frames_loop_frames fuel cs aes :
  Forall sendable cs -> (length (frames cs) < fuel)%nat ->
  encode_frames_loop fuel (frames cs) aes
  = concat (map (fun c => encrypt_frame (to_body c) aes) cs).
Proof.
  intros Hcs. revert fuel. induction Hcs as [|c cs Hc _ IH]; intros fuel Hf.
  { by destruct fuel. }
  destruct fuel as [|fuel]; [lia|]. unfold frames in *. cbn [map concat] in *.
  destruct (frame_head c (concat (map to_plain_frame cs)) Hc) as (H4 & Hl & Hd).
  cbn [encode_frames_loop]. rewrite decide_True by done. cbv zeta.
  rewrite Hl, Hd. rewrite decide_False by (rewrite length_app; lia).
  rewrite take_app_length, drop_app_length. f_equal. apply IH.
  rewrite length_app in Hf. pose proof (frame_length c). lia.
Qed.

Lemma encode_individual_frames_ok cs aes :
  Forall sendable cs ->
  encode_individual_frames (frames cs) aes
  = concat (map (fun c => encrypt_frame (to_body c) aes) cs).
Proof. intros. unfold encode_individual_frames. apply encode_frames_loop_frames; [done|lia]. Qed.

(** ** Lemmas: the reader on what the writer produced *)

Section ReaderLemmas.
Context {St : Type} (handle_packet : St -> TcpGatewayContract -> St * outcome bytes unit).

(** How a batch reports the outcome of its handler. *)
Definition batch_result (o : outcome bytes unit) : outcome bytes unit :=
  map_err (fun err => bs "COMPRESSED_BATCH: handler failed: " ++ err) o.

Lemma batch_loop_frames fuel cs st :
  Forall sendable cs -> (length (frames cs) < fuel)%nat ->
  batch_loop handle_packet fuel (frames cs) st =
  let (st', o) := handle_all handle_packet st (map on_wire cs) in (st', batch_result o).
Proof.
  intros Hcs. revert fuel st. induction Hcs as [|c cs Hc _ IH]; intros fuel st Hf.
  { destruct fuel; [lia|]. done. }
  destruct fuel as [|fuel]; [lia|]. unfold frames in *. cbn [map concat] in *.
  destruct (frame_head c (concat (map to_plain_frame cs)) Hc) as (H4 & Hl & Hd).
  destruct (body_type c) as (b & rest & Hb & Hne).
  cbn [batch_loop]. rewrite decide_True by done. cbv zeta.
  rewrite Hl, Hd. rewrite decide_False by (rewrite length_app; lia).
  rewrite take_app_length, drop_app_length. rewrite Hb at 1.
  rewrite (proj2 (Z.eqb_neq _ _) Hne), (parse_to_body_wire c (proj1 Hc)).
  cbn [handle_all].
  destruct (handle_packet st (on_wire c)) as [st1 [[]| |]]; [|done..].
  apply IH. rewrite length_app in Hf. pose proof (frame_length c). lia.
Qed.

(** One wire frame in front of the input: what the loop does with its body. *)
Lemma read_loop_frame fuel now n key body rest r :
  0 < zlen (aes_encrypt key body) <= MAX_PAYLOAD_SIZE ->
  (length (encrypt_frame body key ++ rest) < S fuel)%nat ->
  read_loop handle_packet (S fuel) now n key (encrypt_frame body key ++ rest) r =
  let size := zlen (aes_encrypt key body) in
  let r := add_in_bytes size r in
  match body with
  | [] => (r, Closed)
  | b :: _ =>
      if u8 b =? COMPRESSED_BATCH_PACKET_ID then
        match handle_compressed_batch handle_packet body (handler_state r) with
        | (st, Ok _) =>
            read_loop handle_packet fuel now (n + 1) key rest
              (set_last_incoming_payload_time (now (n + 1)) (set_handler_state st r))
        | (st, Err _) => (set_handler_state st r, Closed)
        | (st, Panic) => (set_handler_state st r, Unwound)
        end
      else
        match parse body with
        | Ok packet =>
            let r := set_last_incoming_payload_time (now (n + 1)) r in
            match handle_packet (handler_state r) packet with
            | (st, Ok _) => read_loop handle_packet fuel now (n + 1) key rest (set_handler_state st r)
            | (st, Err _) => (set_handler_state st r, Closed)
            | (st, Panic) => (set_handler_state st r, Unwound)
            end
        | Err _ => (r, Closed)
        | Panic => (r, Unwound)
        end
  end.
Proof.
  intros Hs Hf. unfold encrypt_frame in *. cbv zeta in *.
  set (enc := aes_encrypt key body) in *. rewrite <-app_assoc in *.
  cbn [read_loop]. rewrite decide_False by (rewrite length_app, length_to_le; lia). cbv zeta.
  rewrite take_app_le, take_ge by (rewrite length_to_le; lia).
  rewrite drop_app_ge, length_to_le by (rewrite length_to_le; lia).
  change (4 - 4)%nat with 0%nat. rewrite drop_0.
  rewrite from_le_to_le_small by (unfold MAX_PAYLOAD_SIZE in Hs; change (8 * Z.of_nat 4) with 32; lia).
  rewrite (proj2 (Z.ltb_ge MAX_PAYLOAD_SIZE _)) by lia.
  assert ((zlen enc =? 0) || (zlen (enc ++ rest) <? zlen enc) = false) as ->.
  { apply orb_false_iff. split; [apply Z.eqb_neq; lia|apply Z.ltb_ge].
    unfold zlen. rewrite length_app. lia. }
  assert (Z.to_nat (zlen enc) = length enc) as -> by apply Nat2Z.id.
  rewrite take_app_length, drop_app_length.
  assert (aes_decrypt key enc = Some body) as -> by apply aes_decrypt_encrypt.
  by destruct body.
Qed.

Lemma read_loop_packet fuel now n key b t rest r packet :
  let body := b :: t in
  0 < zlen (aes_encrypt key body) <= MAX_PAYLOAD_SIZE ->
  (length (encrypt_frame body key ++ rest) < S fuel)%nat ->
  u8 b <> COMPRESSED_BATCH_PACKET_ID -> parse body = Ok packet ->
  read_loop handle_packet (S fuel) now n key (encrypt_frame body key ++ rest) r =
  let r := set_last_incoming_payload_time (now (n + 1))
             (add_in_bytes (zlen (aes_encrypt key body)) r) in
  match handle_packet (handler_state r) packet with
  | (st, Ok _) => read_loop handle_packet fuel now (n + 1) key rest (set_handler_state st r)
  | (st, Err _) => (set_handler_state st r, Closed)
  | (st, Panic) => (set_handler_state st r, Unwound)
  end.
Proof.
  intros body Hs Hf Hb Hp. rewrite read_loop_frame by done. cbv zeta.
  unfold body at 1. by rewrite (proj2 (Z.eqb_neq _ _) Hb), Hp.
Qed.

(** The loop ends with a clean-up unless the handler panicked. *)
Definition end_of (o : outcome bytes unit) : ReadEnd :=
  match o with Panic => Unwound | _ => Closed end.

(** [consumes key input rest cs]: from [input] the loop hands exactly the
    packets [cs] to the handler and then continues with [rest], or ends
    where the handler failed. *)
Definition consumes (now : Z -> Z) (key : AesKey) (input rest : bytes)
    (cs : list TcpGatewayContract) : Prop :=
  forall fuel n r, (length input < fuel)%nat ->
  let (st', o) := handle_all handle_packet (handler_state r) (map on_wire cs) in
  exists r', handler_state r' = st' /\
    match o with
    | Ok _ =>
        exists fuel' n', (length rest < fuel')%nat /\
        read_loop handle_packet fuel now n key input r
        = read_loop handle_packet fuel' now n' key rest r'
    | o => read_loop handle_packet fuel now n key input r = (r', end_of o)
    end.

Lemma consumes_nil now key input : consumes now key input input [].
Proof. intros fuel n r Hf. simpl. eauto 10. Qed.

Lemma handle_all_app st cs1 cs2 :
  handle_all handle_packet st (cs1 ++ cs2) =
  match handle_all handle_packet st cs1 with
  | (st, Ok _) => handle_all handle_packet st cs2
  | r => r
  end.
Proof.
  revert st. induction cs1 as [|c cs1 IH]; intros st; simpl; [done|].
  destruct (handle_packet st c) as [st1 [| |]]; [apply IH|done..].
Qed.

Lemma consumes_app now key i m r cs1 cs2 :
  consumes now key i m cs1 -> consumes now key m r cs2 -> consumes now key i r (cs1 ++ cs2).
Proof.
  intros C1 C2 fuel n s Hf. specialize (C1 fuel n s Hf).
  rewrite map_app, handle_all_app.
  destruct (handle_all handle_packet (handler_state s) (map on_wire cs1)) as [st1 [[]| |]]; [|done..].
  destruct C1 as (s1 & <- & fuel' & n' & Hf' & ->). apply C2, Hf'.
Qed.

(** The body of the frame of a compressed batch. *)
Definition batch_body (z : bytes) : bytes :=
  [u8_of_Z COMPRESSED_BATCH_PACKET_ID; u8_of_Z COMPRESSION_ALGO_ZSTD] ++ z.

(** A wire frame within the size the reader accepts. *)
Definition fits (key : AesKey) (body : bytes) : Prop :=
  0 < zlen (aes_encrypt key body) <= MAX_PAYLOAD_SIZE.

Lemma consumes_frame now key c rest :
  sendable c -> fits key (to_body c) ->
  consumes now key (encrypt_frame (to_body c) key ++ rest) rest [c].
Proof.
  intros Hc Hfit fuel n r Hf. destruct fuel as [|fuel]; [lia|].
  pose proof (parse_to_body_wire c (proj1 Hc)) as Hp. unfold fits in Hfit.
  destruct (body_type c) as (b & t & Hb & Hne). rewrite Hb in *.
  rewrite (read_loop_packet _ _ _ _ _ _ _ _ (on_wire c)) by done.
  cbn [map handle_all handler_state set_last_incoming_payload_time add_in_bytes].
  destruct (handle_packet (handler_state r) (on_wire c)) as [st1 [[]| |]];
    (eexists (set_handler_state st1 _); split; [reflexivity|]); [|reflexivity..].
  exists fuel, (n + 1). split; [|reflexivity].
  unfold encrypt_frame in Hf. rewrite !length_app, length_to_le in Hf. lia.
Qed.

Lemma consumes_frames now key cs rest :
  Forall sendable cs -> Forall (fun c => fits key (to_body c)) cs ->
  consumes now key (concat (map (fun c => encrypt_frame (to_body c) key) cs) ++ rest) rest cs.
Proof.
  induction cs as [|c cs IH]; intros Hs Hf; [apply consumes_nil|].
  inversion Hs; inversion Hf; subst. cbn [map concat]. rewrite <-app_assoc.
  eapply (consumes_app _ _ _ _ _ [c]); [by apply consumes_frame|]. by apply IH.
Qed.

Lemma consumes_batch now key cs z rest :
  Forall sendable cs -> zstd_encode_all (frames cs) = Some z ->
  zlen (frames cs) <= MAX_DECOMPRESSED_BATCH_SIZE ->
  fits key (batch_body z) ->
  consumes now key (encode_compressed_batch (frames cs) key ++ rest) rest cs.
Proof.
  intros Hs Hz Hlen Hfit fuel n r Hf. unfold encode_compressed_batch in *. rewrite Hz in *.
  destruct fuel as [|fuel]; [lia|]. rewrite read_loop_frame by done.
  cbn [app] in *. cbv zeta.
  rewrite u8_u8_of_Z. change (COMPRESSED_BATCH_PACKET_ID mod 256 =? COMPRESSED_BATCH_PACKET_ID) with true.
  cbv iota. unfold handle_compressed_batch. rewrite u8_u8_of_Z.
  change (negb (COMPRESSION_ALGO_ZSTD mod 256 =? COMPRESSION_ALGO_ZSTD)) with false. cbv iota.
  rewrite (zstd_decode_encode _ _ Hz). cbn [map_err].
  rewrite (proj2 (Z.ltb_ge MAX_DECOMPRESSED_BATCH_SIZE _)) by lia.
  rewrite batch_loop_frames by (done || lia). cbn [handler_state add_in_bytes].
  destruct (handle_all handle_packet (handler_state r) (map on_wire cs)) as [st1 [[]| |]];
    cbn [batch_result map_err].
  2-3: eexists (set_handler_state st1 _); split; reflexivity.
  eexists (set_last_incoming_payload_time _ (set_handler_state st1 _)).
  split; [reflexivity|]. exists fuel, (n + 1). split; [|reflexivity].
  unfold encrypt_frame in Hf. rewrite !length_app, length_to_le in Hf. lia.
Qed.

(** [refuses key input cs]: from [input] the loop hands exactly the packets
    [cs] to the handler and ends, whatever is behind them. *)
Definition refuses (now : Z -> Z) (key : AesKey) (input : bytes) (cs : list TcpGatewayContract) : Prop :=
  forall fuel n r, (length input < fuel)%nat ->
  let (st', o) := handle_all handle_packet (handler_state r) (map on_wire cs) in
  exists r', handler_state r' = st' /\
    read_loop handle_packet fuel now n key input r = (r', end_of o).

Lemma refuses_end now key : refuses now key [] [].
Proof. intros [|fuel] n r Hf; [cbn in Hf; lia|]. by exists r. Qed.

Lemma refuses_app now key i m cs1 cs2 :
  consumes now key i m cs1 -> refuses now key m cs2 -> refuses now key i (cs1 ++ cs2).
Proof.
  intros C1 C2 fuel n s Hf. specialize (C1 fuel n s Hf).
  rewrite map_app, handle_all_app.
  destruct (handle_all handle_packet (handler_state s) (map on_wire cs1)) as [st1 [[]| |]]; [|done..].
  destruct C1 as (s1 & <- & fuel' & n' & Hf' & ->). apply C2, Hf'.
Qed.

Lemma refuses_frame now key body rest :
  in_u32 (zlen (aes_encrypt key body)) -> ~ fits key body ->
  refuses now key (encrypt_frame body key ++ rest) [].
Proof.
  intros H32 Hfit [|fuel] n r Hf; [lia|]. cbn [map handle_all end_of]. exists r. split; [done|].
  unfold encrypt_frame, fits, in_u32 in *. cbv zeta in *. set (enc := aes_encrypt key body) in *.
  rewrite <-app_assoc. cbn [read_loop]. rewrite decide_False by (rewrite length_app, length_to_le; lia). cbv zeta.
  rewrite take_app_le, take_ge by (rewrite length_to_le; lia).
  rewrite drop_app_ge, length_to_le by (rewrite length_to_le; lia).
  rewrite from_le_to_le_small by (change (8 * Z.of_nat 4) with 32; lia).
  destruct (Z.ltb_spec MAX_PAYLOAD_SIZE (zlen enc)); [done|].
  rewrite (proj2 (Z.eqb_eq (zlen enc) 0)) by lia. done.
Qed.

Lemma refuses_large_batch now key cs z rest :
  zstd_encode_all (frames cs) = Some z -> MAX_DECOMPRESSED_BATCH_SIZE < zlen (frames cs) ->
  fits key (batch_body z) ->
  refuses now key (encrypt_frame (batch_body z) key ++ rest) [].
Proof.
  intros Hz Hlen Hfit [|fuel] n r Hf; [lia|]. cbn [map handle_all end_of].
  rewrite read_loop_frame by done. unfold batch_body. cbn [app]. cbv zeta.
  rewrite u8_u8_of_Z. change (COMPRESSED_BATCH_PACKET_ID mod 256 =? COMPRESSED_BATCH_PACKET_ID) with true.
  cbv iota. unfold handle_compressed_batch. rewrite u8_u8_of_Z.
  change (negb (COMPRESSION_ALGO_ZSTD mod 256 =? COMPRESSION_ALGO_ZSTD)) with false. cbv iota.
  rewrite (zstd_decode_encode _ _ Hz). cbn [map_err].
  rewrite (proj2 (Z.ltb_lt MAX_DECOMPRESSED_BATCH_SIZE _)) by lia.
  eexists. split; [|reflexivity]. reflexivity.
Qed.

(** ** What the reader's limits let through

    No writer enforces the limits the reader has: 5 MiB for an encrypted frame
    and 16 MiB for a decompressed batch.  [taken] and [admitted] say which of
    the packets that were written are behind the limits, and whether the
    reader goes on after them. *)

Definition fits_dec (key : AesKey) (body : bytes) : bool :=
  (0 <? zlen (aes_encrypt key body)) && (zlen (aes_encrypt key body) <=? MAX_PAYLOAD_SIZE).

Lemma fits_dec_spec key body : reflect (fits key body) (fits_dec key body).
Proof.
  apply iff_reflect. unfold fits_dec, fits. by rewrite andb_true_iff, Z.ltb_lt, Z.leb_le.
Qed.

(** Frames one by one: up to the first that is too long. *)
Fixpoint taken (key : AesKey) (cs : list TcpGatewayContract) : list TcpGatewayContract * bool :=
  match cs with
  | [] => ([], true)
  | c :: cs =>
      if fits_dec key (to_body c) then let (l, all) := taken key cs in (c :: l, all) else ([], false)
  end.

(** One flush: a compressed batch is let through as a whole or not at all. *)
Definition taken_flush (key : AesKey) (compress : bool) (cs : list TcpGatewayContract) :
    list TcpGatewayContract * bool :=
  match (if compress then zstd_encode_all (frames cs) else None) with
  | Some z =>
      if fits_dec key (batch_body z) && (zlen (frames cs) <=? MAX_DECOMPRESSED_BATCH_SIZE)
      then (cs, true) else ([], false)
  | None => taken key cs
  end.

Fixpoint admitted (key : AesKey) (compress : bool) (flushes : list (list TcpGatewayContract)) :
    list TcpGatewayContract :=
  match flushes with
  | [] => []
  | cs :: flushes =>
      let (l, all) := taken_flush key compress cs in
      if all then l ++ admitted key compress flushes else l
  end.

(** A flush that can be written: packets whose fields have their widths, and
    frames whose length fits the four bytes in front of them. *)
Definition writable (key : AesKey) (compress : bool) (cs : list TcpGatewayContract) : Prop :=
  Forall sendable cs /\
  match (if compress then zstd_encode_all (frames cs) else None) with
  | Some z => in_u32 (zlen (aes_encrypt key (batch_body z)))
  | None => Forall (fun c => in_u32 (zlen (aes_encrypt key (to_body c)))) cs
  end.

Definition wire (key : AesKey) (compress : bool) (flushes : list (list TcpGatewayContract)) : bytes :=
  concat (map (fun cs => build_wire (frames cs) key compress) flushes).

(** From [input] the loop hands over [fst t] and goes on with [rest] if
    [snd t]; otherwise it ends. *)
Definition takes (now : Z -> Z) (key : AesKey) (input rest : bytes) (t : list TcpGatewayContract * bool) : Prop :=
  if snd t then consumes now key input rest (fst t) else refuses now key input (fst t).

Lemma takes_frames now key cs rest :
  Forall sendable cs -> Forall (fun c => in_u32 (zlen (aes_encrypt key (to_body c)))) cs ->
  takes now key (concat (map (fun c => encrypt_frame (to_body c) key) cs) ++ rest) rest (taken key cs).
Proof.
  unfold takes. induction cs as [|c cs IH]; intros Hs Hf; [apply consumes_nil|].
  inversion Hs; inversion Hf; subst. cbn [map concat taken]. rewrite <-app_assoc.
  destruct (fits_dec_spec key (to_body c)); [|by apply refuses_frame].
  specialize (IH ltac:(done) ltac:(done)). destruct (taken key cs) as [l [|]]; cbn in IH |- *.
  - eapply (consumes_app _ _ _ _ _ [c]); [by apply consumes_frame|done].
  - eapply (refuses_app _ _ _ _ [c]); [by apply consumes_frame|done].
Qed.

Lemma takes_flush now key compress cs rest :
  writable key compress cs ->
  takes now key (build_wire (frames cs) key compress ++ rest) rest (taken_flush key compress cs).
Proof.
  intros [Hs Hf]. unfold build_wire, taken_flush.
  destruct compress; [destruct (zstd_encode_all (frames cs)) as [z|] eqn:Hz|].
  - destruct (fits_dec_spec key (batch_body z)) as [Hfit|Hfit]; cbn [andb].
    + destruct (Z.leb_spec (zlen (frames cs)) MAX_DECOMPRESSED_BATCH_SIZE).
      * by eapply consumes_batch.
      * unfold encode_compressed_batch. rewrite Hz. by eapply refuses_large_batch.
    + unfold encode_compressed_batch. rewrite Hz. by apply refuses_frame.
  - unfold encode_compressed_batch. rewrite Hz, encode_individual_frames_ok by done.
    by apply takes_frames.
  - rewrite encode_individual_frames_ok by done. by apply takes_frames.
Qed.

Lemma refuses_wire now key compress flushes :
  Forall (writable key compress) flushes ->
  refuses now key (wire key compress flushes) (admitted key compress flushes).
Proof.
  induction 1 as [|cs fl Hc _ IH]; [apply refuses_end|].
  unfold wire in *. cbn [map concat admitted].
  pose proof (takes_flush now key compress cs (concat (map (fun cs => build_wire (frames cs) key compress) fl)) Hc) as Ht.
  unfold takes in Ht. destruct (taken_flush key compress cs) as [l [|]]; cbn [fst snd] in Ht; [|exact Ht].
  eapply refuses_app; [exact Ht|exact IH].
Qed.

Lemma taken_prefix key cs :
  exists rest, cs = fst (taken key cs) ++ rest /\ (Forall (fun c => fits key (to_body c)) cs -> snd (taken key cs) = true) /\
    (snd (taken key cs) = true -> rest = []).
Proof.
  induction cs as [|c cs (rest & Hr & Ha & Hn)]; [by exists []|]. cbn [taken].
  destruct (fits_dec_spec key (to_body c)) as [Hc|Hc].
  - destruct (taken key cs) as [l all]. cbn in *. exists rest. split; [by rewrite Hr at 1|]. split; [|done].
    inversion 1; subst. auto.
  - exists (c :: cs). split; [done|]. split; [by inversion 1|done].
Qed.

(** A flush within the limits. *)
Definition flush_fits (key : AesKey) (compress : bool) (cs : list TcpGatewayContract) : Prop :=
  match (if compress then zstd_encode_all (frames cs) else None) with
  | Some z => zlen (frames cs) <= MAX_DECOMPRESSED_BATCH_SIZE /\ fits key (batch_body z)
  | None => Forall (fun c => fits key (to_body c)) cs
  end.

Lemma taken_flush_prefix key compress cs :
  exists rest, cs = fst (taken_flush key compress cs) ++ rest /\
    (flush_fits key compress cs -> snd (taken_flush key compress cs) = true) /\
    (snd (taken_flush key compress cs) = true -> rest = []).
Proof.
  unfold taken_flush, flush_fits. destruct (if compress then _ else _) as [z|]; [|apply taken_prefix].
  destruct (fits_dec_spec key (batch_body z)); cbn [andb]; [destruct (Z.leb_spec (zlen (frames cs)) MAX_DECOMPRESSED_BATCH_SIZE)|].
  - exists []. by rewrite app_nil_r.
  - exists cs. split; [done|]. split; [|done]. intros [? _]. lia.
  - exists cs. split; [done|]. split; [|done]. by intros [_ ?].
Qed.

Lemma admitted_prefix key compress flushes :
  admitted key compress flushes `prefix_of` concat flushes /\
  (Forall (flush_fits key compress) flushes -> admitted key compress flushes = concat flushes).
Proof.
  induction flushes as [|cs fl [IH IHa]]; [done|]. cbn [admitted concat].
  destruct (taken_flush_prefix key compress cs) as (rest & Hr & Ha & Hn).
  destruct (taken_flush key compress cs) as [l all]. cbn in *. destruct all.
  - rewrite (Hn eq_refl), app_nil_r in Hr. subst l. split; [by apply prefix_app|].
    inversion 1; subst. by rewrite IHa.
  - split; [|inversion 1; subst; by discriminate Ha].
    rewrite Hr, <-app_assoc. by eexists.
Qed.

(** C3: the peer's read loop hands its packet handler exactly the packets
    that were written, in order, stopping where the handler first fails, and
    whatever way the writer groups them into flushes, compressed or not, makes
    no difference as long as they are within the reader's limits: 5 MiB for an
    encrypted frame, 16 MiB for a decompressed batch.  No writer enforces
    these limits; at the first frame beyond them the reader has handed over
    the packets before it (of a compressed flush, none) and ends the
    connection.  A packet arrives as it was sent, but for the time-out of a
    connect packet, which is one byte of whole seconds and so arrives modulo
    256 seconds, and the ping time, which arrives in whole microseconds of 64
    bits.  When the loop ends, at the end of the stream or before, the
    connection is cleaned up, unless the handler panicked.  This is for
    packets whose texts and identifiers have the widths of their types, and
    for frames under 4 GiB, whose length the four bytes can hold. *)
Theorem session_delivers now key compress flushes st t0 :
  Forall (writable key compress) flushes ->
  let received := admitted key compress flushes in
  (let (st', o) := handle_all handle_packet st (map on_wire received) in
   exists r, gateway_read_loop handle_packet now key (wire key compress flushes) st t0
             = (r, end_of o) /\ handler_state r = st') /\
  received `prefix_of` concat flushes /\
  (Forall (flush_fits key compress) flushes -> received = concat flushes).
Proof.
  intros Hfl. cbv zeta. split; [|apply admitted_prefix]. unfold gateway_read_loop.
  pose proof (refuses_wire now key compress flushes Hfl) as C.
  specialize (C (S (length (wire key compress flushes))) 0
    {| handler_state := st; in_bytes := 0; last_incoming := Some t0 |} ltac:(lia)).
  cbn [handler_state] in C.
  destruct (handle_all handle_packet st _) as [st' o]. destruct C as (r & Hr & C). by exists r.
Qed.

End ReaderLemmas.

End Codec.

(** A handler that records what it is given. *)
Definition recorder (st : list TcpGatewayContract) (c : TcpGatewayContract) :
  list TcpGatewayContract * outcome bytes unit := (st ++ [c], Ok tt).

Definition sample_flushes : list (list TcpGatewayContract) :=
  [[Connect 1 (Duration.from_secs 5) (bs "host:80"); Ping]; [ForwardPayload 1 (bs "data")]].

Lemma session_delivers_witness :
  Forall (@writable toy_codec Byte.x41 true) sample_flushes /\
  exists r, @gateway_read_loop toy_codec _ recorder (fun n => n) Byte.x41
              (@wire toy_codec Byte.x41 true sample_flushes) [] 0 = (r, Closed) /\
            handler_state r = concat sample_flushes.
Proof.
  assert (Forall (@writable toy_codec Byte.x41 true) sample_flushes) as Hf.
  { repeat constructor; vm_compute; intuition congruence. }
  split; [exact Hf|].
  exact (proj1 (@session_delivers toy_codec _ recorder (fun n => n) Byte.x41 true sample_flushes [] 0 Hf)).
Defined.

End Session.
