(* ===== verification/GatewayWriter.v ===== *)
(** * Writer tasks: [session/write_loop.rs], [session/raw_write_loop.rs],
      [tcp_connection_inner/inner.rs]

    Producers push payloads into a bounded channel; one task owns the socket,
    accumulates what arrives while a write is in flight and flushes the
    accumulator as one block.  The two loops differ in what they put on the
    socket ([build_wire] or the bytes as they are), which is the parameter
    [render]. *)

From Stdlib Require Import ZArith Lia Strings.String Strings.Byte.
From stdpp Require Import base tactics list gmap strings.
From S2P Require Import Prelude RustStd GatewayContracts GatewaySession.

Local Open Scope nat_scope.

Module Writer.

Definition WRITE_CHANNEL_CAPACITY : nat := 1024.

(** [TcpConnectionInner] together with the task it spawned.  [written] are
    the blocks whose write has succeeded, and [partial] is what the socket has
    taken of the block being written or, once the task has ended, of the block
    whose write failed. *)
Record State := {
  sender : bool;               (* self.sender is Some *)
  is_connected : bool;
  channel : list bytes;        (* queued in the mpsc channel *)
  buffer : bytes;              (* the accumulator of the task *)
  write_fut : option bytes;    (* the block being written, if any *)
  running : bool;              (* inside the loop; afterwards the receiver is gone *)
  written : list bytes;
  partial : bytes
}.

Definition init : State :=
  {| sender := true; is_connected := true; channel := []; buffer := [];
     write_fut := None; running := true; written := []; partial := [] |}.

Section Render.
Context (render : bytes -> bytes).

(** [send_payload]: returns whether the payload was accepted.  [try_send]
    fails when the channel is full or the receiver was dropped. *)
Definition send_payload (st : State) (payload : bytes) : bool * State :=
  if negb (is_connected st) then (false, st)
  else if negb (sender st) then (false, st)
  else if running st && bool_decide (length (channel st) < WRITE_CHANNEL_CAPACITY)
  then (true, {| sender := sender st; is_connected := is_connected st;
                 channel := channel st ++ [payload]; buffer := buffer st;
                 write_fut := write_fut st; running := running st;
                 written := written st; partial := partial st |})
  else (false, st).

(** [disconnect]: drops the sender; returns whether it was connected. *)
Definition disconnect (st : State) : bool * State :=
  (is_connected st,
   {| sender := false; is_connected := false; channel := channel st; buffer := buffer st;
      write_fut := write_fut st; running := running st; written := written st; partial := partial st |}).

(** The head of the loop: start a write when none is in flight. *)
Definition loop_head (st : State) : State :=
  match write_fut st, buffer st with
  | None, _ :: _ =>
      {| sender := sender st; is_connected := is_connected st; channel := channel st;
         buffer := []; write_fut := Some (render (buffer st)); running := running st;
         written := written st; partial := partial st |}
  | _, _ => st
  end.

(** [rx.recv()] yields a payload. *)
Definition recv (st : State) : option State :=
  match channel st with
  | p :: rest =>
      Some (loop_head
        {| sender := sender st; is_connected := is_connected st; channel := rest;
           buffer := buffer st ++ p; write_fut := write_fut st; running := running st;
           written := written st; partial := partial st |})
  | [] => None
  end.

(** The socket takes bytes of the block being written, which now are [n]. *)
Definition socket_takes (n : nat) (st : State) : option State :=
  match write_fut st with
  | Some w =>
      if decide (length (partial st) <= n <= length w) then
        Some {| sender := sender st; is_connected := is_connected st; channel := channel st;
                buffer := buffer st; write_fut := write_fut st; running := running st;
                written := written st; partial := take n w |}
      else None
  | None => None
  end.

(** The code behind the loop: the write in flight is awaited, then the socket
    is shut down.  [done] says whether that last write succeeded; if not, what
    the socket has taken of the block stays on it. *)
Definition leave_loop (done : bool) (st : State) : State :=
  let '(written, partial) :=
    match write_fut st with
    | Some w => if done then (written st ++ [w], []) else (written st, partial st)
    | None => (written st, partial st)
    end in
  {| sender := sender st; is_connected := is_connected st; channel := [];
     buffer := []; write_fut := None; running := false; written := written; partial := partial |}.

(** [rx.recv()] yields [None]: every sender is gone and the channel is empty. *)
Definition recv_closed (done : bool) (st : State) : option State :=
  match channel st, sender st with
  | [], false => Some (leave_loop done st)
  | _, _ => None
  end.

(** The write in flight completes. *)
Definition write_ok (st : State) : option State :=
  match write_fut st with
  | Some w =>
      Some (loop_head
        {| sender := sender st; is_connected := is_connected st; channel := channel st;
           buffer := buffer st; write_fut := None; running := running st;
           written := written st ++ [w]; partial := [] |})
  | None => None
  end.

(** It fails: [write_all] has put a part of the block on the socket. *)
Definition write_failed (st : State) : option State :=
  match write_fut st with
  | Some _ =>
      Some (leave_loop false
        {| sender := sender st; is_connected := is_connected st; channel := channel st;
           buffer := buffer st; write_fut := None; running := running st;
           written := written st; partial := partial st |})
  | None => None
  end.

(** Interleavings of producers with the task; the second component of the
    state is the list of payloads [send_payload] accepted so far. *)
Inductive step : State * list bytes -> State * list bytes -> Prop :=
| StepSend st acc p st' :
    send_payload st p = (true, st') -> step (st, acc) (st', acc ++ [p])
| StepRefused st acc p st' :
    send_payload st p = (false, st') -> step (st, acc) (st', acc)
| StepDisconnect st acc :
    step (st, acc) (snd (disconnect st), acc)
| StepRecv st acc st' :
    running st = true -> recv st = Some st' -> step (st, acc) (st', acc)
| StepSocket st acc st' n :
    running st = true -> socket_takes n st = Some st' -> step (st, acc) (st', acc)
| StepWriteOk st acc st' :
    running st = true -> write_ok st = Some st' -> step (st, acc) (st', acc)
| StepWriteFailed st acc st' :
    running st = true -> write_failed st = Some st' -> step (st, acc) (st', acc)
| StepClosed st acc st' done :
    running st = true -> recv_closed done st = Some st' -> step (st, acc) (st', acc).

Definition reachable (s : State * list bytes) : Prop := rtc step (init, []) s.

(** What the socket has been given so far. *)
Definition socket_bytes (st : State) : bytes := concat (written st) ++ partial st.

(** ** Invariant

    The accepted payloads are, in order: those in written blocks, those in
    the block in flight or in the one whose write failed, those in the
    accumulator, those in the channel, and, behind the loop, those that were
    thrown away. *)
Definition block_of (flight : list bytes) : option bytes :=
  match flight with [] => None | _ => Some (render (concat flight)) end.

Record inv (s : State * list bytes) (blocks : list (list bytes)) (flight cur lost : list bytes) : Prop := {
  inv_accepted : snd s = concat blocks ++ flight ++ cur ++ channel (fst s) ++ lost;
  inv_written : written (fst s) = map (fun ps => render (concat ps)) blocks;
  inv_partial : partial (fst s) `prefix_of` default [] (block_of flight);
  inv_running : running (fst s) = true ->
    lost = [] /\ buffer (fst s) = concat cur /\ write_fut (fst s) = block_of flight
}.

Lemma send_payload_accepted st p st' :
  send_payload st p = (true, st') ->
  running st = true /\
  st' = {| sender := sender st; is_connected := is_connected st;
           channel := channel st ++ [p]; buffer := buffer st;
           write_fut := write_fut st; running := running st; written := written st;
           partial := partial st |}.
Proof.
  unfold send_payload. destruct (is_connected st), (sender st), (running st); simpl; try done.
  case_bool_decide; [|done]. by intros [= <-].
Qed.

Lemma send_payload_refused st p st' : send_payload st p = (false, st') -> st' = st.
Proof.
  unfold send_payload. destruct (is_connected st), (sender st), (running st); simpl;
    try case_bool_decide; naive_solver.
Qed.

Lemma inv_init : inv (init, []) [] [] [] [].
Proof. by split. Qed.

Lemma block_of_none flight : block_of flight = None -> flight = [].
Proof. by destruct flight. Qed.

(** [loop_head] moves the accumulator into the block in flight.  Payloads
    that are all empty do not start a write. *)
Lemma inv_loop_head st acc blocks flight cur :
  inv (st, acc) blocks flight cur [] -> running st = true ->
  exists flight' cur', inv (loop_head st, acc) blocks flight' cur' [].
Proof.
  intros I R. pose proof I as [Ha Hw Hp Hr]. destruct (Hr R) as (_ & Hb & Hf). cbn [fst snd] in *. unfold loop_head.
  destruct (write_fut st) as [w|] eqn:Ef; [by exists flight, cur|].
  destruct (buffer st) as [|b bf] eqn:Eb; [by exists flight, cur|].
  symmetry in Hf. apply block_of_none in Hf as ->. cbn in Hp. apply prefix_nil_inv in Hp.
  exists cur, []. split; cbn [fst snd channel written partial running buffer write_fut].
  - by rewrite Ha.
  - done.
  - rewrite Hp. apply prefix_nil.
  - intros _. split_and!; [done|done|]. rewrite Hb. by destruct cur.
Qed.

Lemma inv_send st acc p st' blocks flight cur lost :
  send_payload st p = (true, st') -> inv (st, acc) blocks flight cur lost ->
  inv (st', acc ++ [p]) blocks flight cur [].
Proof.
  intros [R ->]%send_payload_accepted [Ia Iw Ip Ir]. destruct (Ir R) as (-> & Hb & Hf). cbn [fst snd] in *.
  split; cbn [fst snd channel written partial running buffer write_fut]; try done.
  rewrite Ia, !app_nil_r. by rewrite <-!app_assoc.
Qed.

Lemma inv_recv st acc st' blocks flight cur :
  running st = true -> recv st = Some st' -> inv (st, acc) blocks flight cur [] ->
  exists flight' cur', inv (st', acc) blocks flight' cur' [].
Proof.
  unfold recv. destruct (channel st) as [|p ch] eqn:Ech; [done|]. intros R [= <-] [Ia Iw Ip Ir].
  destruct (Ir R) as (_ & Hb & Hf). cbn [fst snd] in *. apply (inv_loop_head _ _ _ flight (cur ++ [p])); [|done].
  split; cbn [fst snd channel written partial running buffer write_fut]; try done.
  - rewrite Ia, Ech. by rewrite <-!app_assoc.
  - intros _. split_and!; [done| |done]. rewrite Hb, concat_app. cbn. by rewrite app_nil_r.
Qed.

Lemma inv_socket n st acc st' blocks flight cur :
  running st = true -> socket_takes n st = Some st' -> inv (st, acc) blocks flight cur [] ->
  inv (st', acc) blocks flight cur [].
Proof.
  unfold socket_takes. destruct (write_fut st) as [w|] eqn:Ef; [|done]. case_decide; [|done].
  intros R [= <-] [Ia Iw Ip Ir]. destruct (Ir R) as (_ & Hb & Hf). cbn [fst snd] in *.
  split; cbn [fst snd channel written partial running buffer write_fut]; try done.
  - rewrite <-Hf, Ef. cbn. apply prefix_take.
  - by rewrite <-Ef.
Qed.

Lemma inv_write_ok st acc st' blocks flight cur :
  running st = true -> write_ok st = Some st' -> inv (st, acc) blocks flight cur [] ->
  exists blocks' flight' cur', inv (st', acc) blocks' flight' cur' [].
Proof.
  unfold write_ok. destruct (write_fut st) as [w|] eqn:Ef; [|done]. intros R [= <-] [Ia Iw Ip Ir].
  destruct (Ir R) as (_ & Hb & Hf). cbn [fst snd] in *. rewrite Ef in Hf.
  destruct flight as [|f0 fl]; [done|]. injection Hf as ->. exists (blocks ++ [f0 :: fl]).
  apply (inv_loop_head _ _ _ [] cur); [|done].
  split; cbn [fst snd channel written partial running buffer write_fut]; try done.
  - rewrite Ia, concat_app. cbn. by rewrite <-!app_assoc, !app_nil_r.
  - by rewrite Iw, map_app.
Qed.

Lemma inv_leave d st acc blocks flight cur lost :
  inv (st, acc) blocks flight cur lost ->
  (d = true -> write_fut st = block_of flight) ->
  exists blocks' flight' lost', inv (leave_loop d st, acc) blocks' flight' [] lost'.
Proof.
  intros [Ia Iw Ip Ir] Hd. cbn [fst snd] in *. unfold leave_loop.
  destruct (write_fut st) as [w|] eqn:Ef; [destruct d|].
  - specialize (Hd eq_refl). destruct flight as [|f0 fl]; [done|]. injection Hd as ->.
    exists (blocks ++ [f0 :: fl]), [], (cur ++ channel st ++ lost).
    split; cbn [fst snd channel written partial running buffer write_fut]; try done.
    + rewrite Ia, concat_app. cbn. by rewrite app_nil_r, <-!app_assoc.
    + by rewrite Iw, map_app.
  - by exists blocks, flight, (cur ++ channel st ++ lost).
  - by exists blocks, flight, (cur ++ channel st ++ lost).
Qed.

Lemma inv_step s s' blocks flight cur lost :
  inv s blocks flight cur lost -> step s s' ->
  exists blocks' flight' cur' lost', inv s' blocks' flight' cur' lost'.
Proof.
  intros I Hs.
  assert (running (fst s) = true -> lost = []) as Hl by (intros R; apply (inv_running _ _ _ _ _ I R)).
  inversion Hs as [st acc p st' E|st acc p st' E|st acc|st acc st' R E|st acc st' n R E|st acc st' R E|st acc st' R E|
                   st acc st' d R E]; subst; cbn [fst] in Hl; try (rewrite (Hl R) in I).
  - exists blocks, flight, cur, []. by eapply inv_send.
  - apply send_payload_refused in E as ->. by exists blocks, flight, cur, lost.
  - exists blocks, flight, cur, lost. by destruct I; split.
  - destruct (inv_recv _ _ _ _ _ _ R E I) as (f & c & I'). by exists blocks, f, c, [].
  - exists blocks, flight, cur, []. by eapply inv_socket.
  - destruct (inv_write_ok _ _ _ _ _ _ R E I) as (b & f & c & I'). by exists b, f, c, [].
  - unfold write_failed in E. destruct (write_fut st) eqn:Ef; [|done]. injection E as <-.
    destruct (inv_leave false
      {| sender := sender st; is_connected := is_connected st; channel := channel st; buffer := buffer st;
         write_fut := write_fut st; running := running st; written := written st; partial := partial st |}
      acc blocks flight cur []) as (b & f & thrown & I'); [by destruct I; split|done|].
    exists b, f, [], thrown. unfold leave_loop in *. cbn in *. by rewrite Ef in I'.
  - unfold recv_closed in E. destruct (channel st) eqn:Ech; [|done]. destruct (sender st); [done|]. injection E as <-.
    destruct (inv_leave d _ _ _ _ _ _ I) as (b & f & thrown & I'); [|by exists b, f, [], thrown].
    intros _. apply (inv_running _ _ _ _ _ I R).
Qed.

Lemma reachable_inv s :
  reachable s -> exists blocks flight cur lost, inv s blocks flight cur lost.
Proof.
  apply (rtc_ind_r (fun s => exists blocks flight cur lost, inv s blocks flight cur lost)).
  - exists [], [], [], []. apply inv_init.
  - intros s1 s2 _ Hs (b & f & c & l & I). by eapply inv_step.
Qed.

(** C21: whatever the interleaving of producers, completions, failures and
    disconnects, and however far the socket has come with a block, the socket
    carries accepted payloads in the order they were accepted: first whole
    blocks, which render consecutive groups of payloads, and behind them at
    most a beginning of the block of the next group, which is the block in
    flight while the task runs, and the block whose write failed once it has
    ended.  While the task runs everything else is still in the accumulator or
    the channel. *)
Theorem writer_prefix st acc :
  reachable (st, acc) ->
  exists blocks flight rest,
    acc = concat blocks ++ flight ++ rest /\
    written st = map (fun ps => render (concat ps)) blocks /\
    partial st `prefix_of` default [] (block_of flight) /\
    socket_bytes st = concat (map (fun ps => render (concat ps)) blocks) ++ partial st /\
    (running st = true ->
     exists cur, rest = cur ++ channel st /\ buffer st = concat cur /\ write_fut st = block_of flight).
Proof.
  intros (blocks & flight & cur & lost & [Ia Iw Ip Ir])%reachable_inv. cbn [fst snd] in *.
  exists blocks, flight, (cur ++ channel st ++ lost). split_and!; [done|done|done| |].
  - unfold socket_bytes. by rewrite Iw.
  - intros R. destruct (Ir R) as (-> & Hb & Hf). exists cur. by rewrite app_nil_r.
Qed.

End Render.

(** Producer and task interleaved: two payloads are accepted, the first is
    being written when the connection is told to disconnect. *)
Definition p1 : bytes := bs "first".
Definition p2 : bytes := bs "second".

Lemma writer_prefix_witness :
  exists st, reachable id (st, [p1; p2]) /\
  exists blocks flight rest, [p1; p2] = concat blocks ++ flight ++ rest /\
    written st = map (fun ps => id (concat ps)) blocks /\ partial st `prefix_of` default [] (block_of id flight).
Proof.
  eexists. assert (reachable id
    ({| sender := true; is_connected := true; channel := [p2]; buffer := [];
        write_fut := Some p1; running := true; written := []; partial := [] |}, [p1; p2])) as R.
  { eapply rtc_l; [by eapply (StepSend id init [] p1)|].
    eapply rtc_l; [by eapply StepSend|].
    eapply rtc_l; [by eapply StepRecv|]. apply rtc_refl. }
  split; [exact R|]. destruct (writer_prefix id _ _ R) as (blocks & flight & rest & ? & ? & ? & _). eauto 6.
Defined.

(** A write that fails leaves a part of its block on the socket. *)
Example failed_write_leaves_a_part :
  exists st, reachable id (st, [p1]) /\ running st = false /\ written st = [] /\ socket_bytes st = bs "fir".
Proof.
  eexists. split; [|split_and!].
  - eapply rtc_l; [by eapply (StepSend id init [] p1)|].
    eapply rtc_l; [by eapply StepRecv|].
    eapply rtc_l; [by eapply (StepSocket _ _ _ _ 3)|].
    eapply rtc_l; [by eapply StepWriteFailed|]. apply rtc_refl.
  - done.
  - done.
  - vm_compute. reflexivity.
Qed.

(** Closing is lossy: a payload that [send_payload] accepted can be
    thrown away when the connection is closed, although every write
    succeeded: it sat in the accumulator behind a write in flight, and the
    code behind the loop does not flush the accumulator. *)
Theorem close_drops_accumulator :
  exists st, reachable id (st, [p1; p2]) /\ running st = false /\ written st = [p1].
Proof.
  eexists. split; [|split].
  - eapply rtc_l; [by eapply (StepSend id init [] p1)|].
    eapply rtc_l; [by eapply StepSend|].
    eapply rtc_l; [by eapply StepRecv|].
    eapply rtc_l; [by eapply StepRecv|].
    eapply rtc_l; [by eapply StepDisconnect|].
    eapply rtc_l; [by eapply (StepClosed _ _ _ _ true)|]. apply rtc_refl.
  - done.
  - done.
Qed.

End Writer.
