(* ===== verification/GatewayNode.v ===== *)
(** * One end of a gateway connection: [tcp_gateway/tcp_gateway_connection/],
      [tcp_gateway/forwarded_connection/], [tcp_gateway/scripts/],
      [client/client_packet_handler.rs], [server/server_packet_handler.rs]

    A process keeps, for one gateway session, the forward connections it
    opened for its peer, the proxy connections its peer keeps for it, and
    pending file requests.  Packets of the peer are handled by
    [handle_packet]; what the handlers spawn, and the tasks that use the
    connection, are tasks with a program counter, so that every await and
    every race between them is a step of its own ([local_step]).

    A packet is handled in one step, and so is the answer to a certificate
    request.  Left out are the traffic counters, the clean-up task of a dropped
    connection, and a read future that is dropped while it waits.

    Shared objects ([Arc]) are indices into lists of the node.  Some fields
    are there for the specification only: what [send_payload] accepted
    ([sent]), what a forward connection read and passed on, and what went
    through a stream. *)

From Stdlib Require Import ZArith Lia Strings.Byte.
From stdpp Require Import base tactics list strings gmap.
From S2P Require Import Prelude RustStd GatewayContracts GatewaySession GatewayWriter.

Local Open Scope Z_scope.

(** ** The receive buffer of a proxied connection: [proxy_receive_buffer.rs] *)

Module ReceiveBuffer.

(** The [get_data] future of the stream: not running, suspended on its
    awaiter, or resumed with the result of the awaiter. *)
Inductive Reader := Idle | Waiting | Resumed (ok : bool).

Record AwaitingContent := {
  buffer : bytes;
  awaiter : bool;              (* a task completion is stored *)
  disconnected : bool;
  reader : Reader;
  enqueued : list bytes;       (* every payload ever stored *)
  taken : bytes                (* every byte ever returned by a read *)
}.

Definition new : AwaitingContent :=
  {| buffer := []; awaiter := false; disconnected := false; reader := Idle;
     enqueued := []; taken := [] |}.

(** Completing the stored awaiter resumes the reader that waits on it. *)
Definition complete (ok : bool) (c : AwaitingContent) : AwaitingContent :=
  if awaiter c then
    {| buffer := buffer c; awaiter := false; disconnected := disconnected c;
       reader := Resumed ok; enqueued := enqueued c; taken := taken c |}
  else c.

Definition extend_from_slice (payload : bytes) (c : AwaitingContent) : AwaitingContent :=
  complete true
    {| buffer := buffer c ++ payload; awaiter := awaiter c; disconnected := disconnected c;
       reader := reader c; enqueued := enqueued c ++ [payload]; taken := taken c |}.

Definition disconnect (c : AwaitingContent) : bool * AwaitingContent :=
  if disconnected c then (false, c)
  else (true, complete false
    {| buffer := buffer c; awaiter := awaiter c; disconnected := true;
       reader := reader c; enqueued := enqueued c; taken := taken c |}).

Inductive Read := Data (l : bytes) | Aborted | Pending.

Definition set_reader (r : Reader) (c : AwaitingContent) : AwaitingContent :=
  {| buffer := buffer c; awaiter := awaiter c; disconnected := disconnected c;
     reader := r; enqueued := enqueued c; taken := taken c |}.

(** One round of the loop of [get_data] over a slice of [out_len] bytes. *)
Definition get_data_round (out_len : nat) (c : AwaitingContent) : Read * AwaitingContent :=
  if disconnected c then (Aborted, set_reader Idle c)
  else match buffer c with
  | _ :: _ =>
      let size := if (out_len <? length (buffer c))%nat then out_len else length (buffer c) in
      (Data (take size (buffer c)),
       {| buffer := drop size (buffer c); awaiter := awaiter c; disconnected := disconnected c;
          reader := Idle; enqueued := enqueued c; taken := taken c ++ take size (buffer c) |})
  | [] =>
      (Pending,
       {| buffer := []; awaiter := true; disconnected := disconnected c;
          reader := Waiting; enqueued := enqueued c; taken := taken c |})
  end.

(** A poll of [get_data]: [None] where the future can not make a step. *)
Definition get_data (out_len : nat) (c : AwaitingContent) : option (Read * AwaitingContent) :=
  match reader c with
  | Waiting => None
  | Resumed false => Some (Aborted, set_reader Idle c)
  | Idle | Resumed true => Some (get_data_round out_len c)
  end.

(** The bytes are a queue, and a suspended reader is one for which there is
    nothing to do: no wake-up is lost. *)
Record wf (c : AwaitingContent) : Prop := {
  wf_bytes : taken c ++ buffer c = concat (enqueued c);
  wf_awaiter : awaiter c = true <-> reader c = Waiting;
  wf_waiting : reader c = Waiting -> buffer c = [] /\ disconnected c = false
}.

Lemma wf_new : wf new.
Proof. by split. Qed.

Lemma extend_from_slice_wf p c : wf c -> wf (extend_from_slice p c).
Proof.
  intros [Hb Ha Hw]. unfold extend_from_slice, complete. simpl.
  destruct (awaiter c) eqn:E; split; simpl; rewrite ?concat_app, ?app_assoc, ?Hb; simpl;
    rewrite ?app_nil_r; try done; intros W; by apply Ha in W.
Qed.

Lemma disconnect_wf c : wf c -> wf (disconnect c).2.
Proof.
  intros W. unfold disconnect, complete. destruct (disconnected c) eqn:D; [done|].
  destruct W as [Hb Ha Hw]. simpl.
  destruct (awaiter c) eqn:E; split; simpl; try done; intros W; by apply Ha in W.
Qed.

Lemma get_data_wf n c r c' : wf c -> get_data n c = Some (r, c') -> wf c'.
Proof.
  intros [Hb Ha Hw] G.
  assert (reader c <> Waiting) as NW by (intros E; unfold get_data in G; by rewrite E in G).
  assert (awaiter c = false) as A by (destruct (awaiter c); naive_solver).
  assert (forall c1, c1 = set_reader Idle c -> wf c1) as HI.
  { intros ? ->. split; simpl; [done|rewrite A; naive_solver|done]. }
  assert (forall r1 c1, get_data_round n c = (r1, c1) -> wf c1) as HR.
  { intros r1 c1. unfold get_data_round. destruct (disconnected c) eqn:D.
    { intros [= <- <-]. by apply HI. }
    destruct (buffer c) as [|b l] eqn:B; intros [= <- <-]; split; simpl; try done;
      rewrite ?A, <-?app_assoc, ?take_drop, ?app_nil_r in *; try done. }
  unfold get_data in G. destruct (reader c) as [| |[]]; simplify_eq; eauto.
Qed.

End ReceiveBuffer.

(** ** The connection and its tables *)

Module Node.
Import Contracts.

Definition SELF_SIGNED_CERT_NAME : bytes := bs "self_signed".

(** [TcpGatewayProxyForwardedConnectionStatus] *)
Inductive Status := AcknowledgingConnection | IsConnected | Disconnected (error : bytes).

(** [TcpGatewayProxyForwardConnectionHandler]; [receive_buffer] points into
    the streams of the node. *)
Record Handler := { status : Status; receive_buffer : nat; handler_remote_host : bytes }.

Definition handler_new (buf : nat) (host : bytes) : Handler :=
  {| status := AcknowledgingConnection; receive_buffer := buf; handler_remote_host := host |}.

Definition set_status (st : Status) (h : Handler) : Handler :=
  {| status := st; receive_buffer := receive_buffer h; handler_remote_host := handler_remote_host h |}.

Definition set_connected (h : Handler) : Handler :=
  match status h with
  | AcknowledgingConnection => set_status IsConnected h
  | _ => h
  end.

Definition set_connection_error (error : bytes) (h : Handler) : Handler :=
  match status h with
  | AcknowledgingConnection => set_status (Disconnected error) h
  | IsConnected => set_status (Disconnected error) h
  | Disconnected _ => h
  end.

(** The object behind [TcpGatewayProxyForwardStream]: its receive buffer, the
    id and host it was opened with, and the payloads its writes delivered to
    the session. *)
Record Stream := {
  stream_id : Z;
  stream_host : bytes;
  content : ReceiveBuffer.AwaitingContent;
  written : list bytes
}.

(** [TcpGatewayForwardConnection]: the writer towards the local service, what
    it accepted, and what the read loop got from the service. *)
Record ForwardConnection := {
  connection_id : Z;
  remote_endpoint : bytes;
  fwd_inner : Writer.State;
  got : list bytes;
  reads : list bytes
}.

Inductive FileRequestError := FileNotFound | GatewayDisconnected.

(** [FileRequests]: pending requests point to the awaiters' results. *)
Record FileRequests := {
  requests : gmap Z nat;
  next_request_id : Z;
  results : list (option (FileRequestError + bytes))
}.

Inductive SslCertificateOrigin :=
| LocalSource (private_key_src cert_src : bytes)
| GatewayPushed (gateway_id : bytes)
| ManuallyProvided.

Record SslCertificateHolder := {
  origin : SslCertificateOrigin;
  cert_pem : bytes;
  private_key_pem : bytes
}.

(** What is fixed once the session stands. *)
Record Session := {
  is_client : bool;                       (* which packet handler *)
  gateway_id : bytes;
  allow_incoming_forward_connection : bool;
  connection_timestamp : Z
}.

(** Which socket [TcpGatewayForwardConnection::connect] dials. *)
Inductive Dial := UnixSocket (path : bytes) | TcpSocket (host : bytes).

(** Why [connect_to_forward_proxy_connection] fails. *)
Inductive OpenError :=
| NoHandshake
| ConnectionIsLost          (* the Connect packet was not accepted *)
| GatewayIsLost             (* while waiting for the answer *)
| SomehowClosed
| Refused (error : bytes).

(** Tasks that use the connection, by the point they are suspended at. *)
Inductive Task :=
| ForwardConnect (id : Z) (host : bytes) (timeout : Z)    (* handle_forward_connect, not started *)
| Dialing (id : Z) (host : bytes) (target : Dial)
| Announcing (id : Z) (f : nat)                           (* about to send Connected *)
| Starting (id : Z) (f : nat)                             (* about to start the read loop *)
| Registering (id : Z) (f : nat)                          (* about to add_forward_connection *)
| ReadLoop (f : nat)
| SendingBack (f : nat) (payload : bytes)                 (* read a payload, table not yet consulted *)
| AckConnection (id : Z)                                  (* the head of the loop of ack_connection *)
| AckSleeping (id : Z)                                    (* before it looks the handler up *)
| Opened (id : Z) (stream : nat)                          (* the caller holds the stream *)
| OpenFailed (id : Z) (e : OpenError)
| StreamCleanup (id : Z)
| ServeFile (request_id : Z) (path : bytes)
| ReplySyncCerts (ids : list bytes)
| PingLoop
| Done.

Record Node := {
  session : Session;
  inner : Writer.State;
  sent : list TcpGatewayContract;         (* every packet send_payload accepted *)
  forward_connections : gmap Z nat;
  forwards : list ForwardConnection;
  forward_proxy_handlers : gmap Z Handler;
  streams : list Stream;
  file_requests : FileRequests;
  last_ping_duration : Z;
  last_incoming_payload_time : Z;
  ssl_certs : gmap bytes SslCertificateHolder;
  next_connection_id : Z;                 (* the AtomicU32 of the gateway *)
  issued : Z;                             (* how many ids it has given out *)
  tasks : list Task
}.

Definition set_inner (w : Writer.State) (n : Node) : Node :=
  {| session := session n; inner := w; sent := sent n; forward_connections := forward_connections n;
     forwards := forwards n; forward_proxy_handlers := forward_proxy_handlers n; streams := streams n;
     file_requests := file_requests n; last_ping_duration := last_ping_duration n;
     last_incoming_payload_time := last_incoming_payload_time n; ssl_certs := ssl_certs n;
     next_connection_id := next_connection_id n; issued := issued n; tasks := tasks n |}.
Definition set_sent (ps : list TcpGatewayContract) (n : Node) : Node :=
  {| session := session n; inner := inner n; sent := ps; forward_connections := forward_connections n;
     forwards := forwards n; forward_proxy_handlers := forward_proxy_handlers n; streams := streams n;
     file_requests := file_requests n; last_ping_duration := last_ping_duration n;
     last_incoming_payload_time := last_incoming_payload_time n; ssl_certs := ssl_certs n;
     next_connection_id := next_connection_id n; issued := issued n; tasks := tasks n |}.
Definition set_forward_connections (m : gmap Z nat) (n : Node) : Node :=
  {| session := session n; inner := inner n; sent := sent n; forward_connections := m;
     forwards := forwards n; forward_proxy_handlers := forward_proxy_handlers n; streams := streams n;
     file_requests := file_requests n; last_ping_duration := last_ping_duration n;
     last_incoming_payload_time := last_incoming_payload_time n; ssl_certs := ssl_certs n;
     next_connection_id := next_connection_id n; issued := issued n; tasks := tasks n |}.
Definition set_forwards (fs : list ForwardConnection) (n : Node) : Node :=
  {| session := session n; inner := inner n; sent := sent n; forward_connections := forward_connections n;
     forwards := fs; forward_proxy_handlers := forward_proxy_handlers n; streams := streams n;
     file_requests := file_requests n; last_ping_duration := last_ping_duration n;
     last_incoming_payload_time := last_incoming_payload_time n; ssl_certs := ssl_certs n;
     next_connection_id := next_connection_id n; issued := issued n; tasks := tasks n |}.
Definition set_handlers (m : gmap Z Handler) (n : Node) : Node :=
  {| session := session n; inner := inner n; sent := sent n; forward_connections := forward_connections n;
     forwards := forwards n; forward_proxy_handlers := m; streams := streams n;
     file_requests := file_requests n; last_ping_duration := last_ping_duration n;
     last_incoming_payload_time := last_incoming_payload_time n; ssl_certs := ssl_certs n;
     next_connection_id := next_connection_id n; issued := issued n; tasks := tasks n |}.
Definition set_streams (l : list Stream) (n : Node) : Node :=
  {| session := session n; inner := inner n; sent := sent n; forward_connections := forward_connections n;
     forwards := forwards n; forward_proxy_handlers := forward_proxy_handlers n; streams := l;
     file_requests := file_requests n; last_ping_duration := last_ping_duration n;
     last_incoming_payload_time := last_incoming_payload_time n; ssl_certs := ssl_certs n;
     next_connection_id := next_connection_id n; issued := issued n; tasks := tasks n |}.
Definition set_file_requests (r : FileRequests) (n : Node) : Node :=
  {| session := session n; inner := inner n; sent := sent n; forward_connections := forward_connections n;
     forwards := forwards n; forward_proxy_handlers := forward_proxy_handlers n; streams := streams n;
     file_requests := r; last_ping_duration := last_ping_duration n;
     last_incoming_payload_time := last_incoming_payload_time n; ssl_certs := ssl_certs n;
     next_connection_id := next_connection_id n; issued := issued n; tasks := tasks n |}.
Definition set_last_ping_duration (d : Z) (n : Node) : Node :=
  {| session := session n; inner := inner n; sent := sent n; forward_connections := forward_connections n;
     forwards := forwards n; forward_proxy_handlers := forward_proxy_handlers n; streams := streams n;
     file_requests := file_requests n; last_ping_duration := d;
     last_incoming_payload_time := last_incoming_payload_time n; ssl_certs := ssl_certs n;
     next_connection_id := next_connection_id n; issued := issued n; tasks := tasks n |}.
Definition set_last_incoming_payload_time (t : Z) (n : Node) : Node :=
  {| session := session n; inner := inner n; sent := sent n; forward_connections := forward_connections n;
     forwards := forwards n; forward_proxy_handlers := forward_proxy_handlers n; streams := streams n;
     file_requests := file_requests n; last_ping_duration := last_ping_duration n;
     last_incoming_payload_time := t; ssl_certs := ssl_certs n;
     next_connection_id := next_connection_id n; issued := issued n; tasks := tasks n |}.
Definition set_ssl_certs (m : gmap bytes SslCertificateHolder) (n : Node) : Node :=
  {| session := session n; inner := inner n; sent := sent n; forward_connections := forward_connections n;
     forwards := forwards n; forward_proxy_handlers := forward_proxy_handlers n; streams := streams n;
     file_requests := file_requests n; last_ping_duration := last_ping_duration n;
     last_incoming_payload_time := last_incoming_payload_time n; ssl_certs := m;
     next_connection_id := next_connection_id n; issued := issued n; tasks := tasks n |}.
Definition set_next_id (next count : Z) (n : Node) : Node :=
  {| session := session n; inner := inner n; sent := sent n; forward_connections := forward_connections n;
     forwards := forwards n; forward_proxy_handlers := forward_proxy_handlers n; streams := streams n;
     file_requests := file_requests n; last_ping_duration := last_ping_duration n;
     last_incoming_payload_time := last_incoming_payload_time n; ssl_certs := ssl_certs n;
     next_connection_id := next; issued := count; tasks := tasks n |}.
Definition set_tasks (ts : list Task) (n : Node) : Node :=
  {| session := session n; inner := inner n; sent := sent n; forward_connections := forward_connections n;
     forwards := forwards n; forward_proxy_handlers := forward_proxy_handlers n; streams := streams n;
     file_requests := file_requests n; last_ping_duration := last_ping_duration n;
     last_incoming_payload_time := last_incoming_payload_time n; ssl_certs := ssl_certs n;
     next_connection_id := next_connection_id n; issued := issued n; tasks := ts |}.

Definition spawn (t : Task) (n : Node) : Node := set_tasks (tasks n ++ [t]) n.
Definition goto (i : nat) (t : Task) (n : Node) : Node := set_tasks (<[i := t]> (tasks n)) n.

(** ** Operations of the connection: [tcp_gateway_connection.rs] *)

Definition send_payload (p : TcpGatewayContract) (n : Node) : bool * Node :=
  let (ok, w) := Writer.send_payload (inner n) (to_plain_frame p) in
  if ok then (true, set_sent (sent n ++ [p]) (set_inner w n)) else (false, set_inner w n).

Definition has_handshake (n : Node) : bool := 0 <? connection_timestamp (session n).

Definition is_gateway_connected (n : Node) : bool := Writer.is_connected (inner n).

Definition disconnect_gateway (n : Node) : Node := set_inner (Writer.disconnect (inner n)).2 n.

Definition add_forward_connection (id : Z) (f : nat) (n : Node) : Node :=
  set_forward_connections (<[id := f]> (forward_connections n)) n.

Definition has_forward_connection (id : Z) (n : Node) : bool :=
  bool_decide (is_Some (forward_connections n !! id)).

Definition remove_forward_connection (id : Z) (n : Node) : option nat * Node :=
  (forward_connections n !! id, set_forward_connections (delete id (forward_connections n)) n).

Definition update_forward (f : nat) (g : ForwardConnection -> ForwardConnection) (n : Node) : Node :=
  set_forwards (alter g f (forwards n)) n.

Definition set_fwd_inner (w : Writer.State) (c : ForwardConnection) : ForwardConnection :=
  {| connection_id := connection_id c; remote_endpoint := remote_endpoint c; fwd_inner := w;
     got := got c; reads := reads c |}.

(** [TcpGatewayForwardConnection::disconnect] *)
Definition fwd_disconnect (c : ForwardConnection) : ForwardConnection :=
  set_fwd_inner (Writer.disconnect (fwd_inner c)).2 c.

(** [TcpGatewayForwardConnection::send_payload] *)
Definition fwd_send_payload (payload : bytes) (c : ForwardConnection) : bool * ForwardConnection :=
  let (ok, w) := Writer.send_payload (fwd_inner c) payload in
  if ok then
    (true, {| connection_id := connection_id c; remote_endpoint := remote_endpoint c; fwd_inner := w;
              got := got c ++ [payload]; reads := reads c |})
  else (false, fwd_disconnect (set_fwd_inner w c)).

Definition update_stream (s : nat) (g : Stream -> Stream) (n : Node) : Node :=
  set_streams (alter g s (streams n)) n.

Definition set_content (c : ReceiveBuffer.AwaitingContent) (s : Stream) : Stream :=
  {| stream_id := stream_id s; stream_host := stream_host s; content := c; written := written s |}.

Definition notify_forward_proxy_connection_accepted (id : Z) (n : Node) : Node :=
  set_handlers (alter set_connected id (forward_proxy_handlers n)) n.

Definition incoming_payload_for_proxy_connection (id : Z) (payload : bytes) (n : Node) : Node :=
  match forward_proxy_handlers n !! id with
  | None => n
  | Some h =>
      match status h with
      | AcknowledgingConnection => n
      | IsConnected =>
          update_stream (receive_buffer h)
            (fun s => set_content (ReceiveBuffer.extend_from_slice payload (content s)) s) n
      | Disconnected _ => n
      end
  end.

(** The two tables are cleared of the id, one after the other. *)
Definition disconnect_forward_proxy_connection (id : Z) (message : bytes) (n : Node) : Node :=
  let n1 := match forward_proxy_handlers n !! id with
            | Some connection =>
                let connection := set_connection_error message connection in
                update_stream (receive_buffer connection)
                  (fun s => set_content (ReceiveBuffer.disconnect (content s)).2 s)
                  (set_handlers (delete id (forward_proxy_handlers n)) n)
            | None => n
            end in
  match remove_forward_connection id n1 with
  | (Some f, n2) => update_forward f fwd_disconnect n2
  | (None, n2) => n2
  end.

(** ** File requests: [file_requests.rs] *)

Definition put_result (slot : nat) (r : FileRequestError + bytes)
  (l : list (option (FileRequestError + bytes))) : list (option (FileRequestError + bytes)) :=
  match l !! slot with Some None => <[slot := Some r]> l | _ => l end.

(** [start_request]; the id is a [u32].  A completion that is overwritten is
    dropped, which gives its awaiter the drop error. *)
Definition start_request (overflow_checks : bool) (r : FileRequests) : outcome unit (nat * Z * FileRequests) :=
  let id := next_request_id r + 1 in
  if overflow_checks && (2 ^ 32 <=? id) then Panic
  else
    let id := id mod 2 ^ 32 in
    let slot := length (results r) in
    Ok (slot, id,
        {| requests := <[id := slot]> (requests r); next_request_id := id;
           results := (match requests r !! id with
                       | Some old => put_result old (inl GatewayDisconnected) (results r)
                       | None => results r
                       end) ++ [None] |}).

(** [set_content] and [set_error] *)
Definition set_request_result (id : Z) (res : FileRequestError + bytes) (r : FileRequests) : FileRequests :=
  match requests r !! id with
  | Some slot =>
      {| requests := delete id (requests r); next_request_id := next_request_id r;
         results := put_result slot res (results r) |}
  | None => r
  end.

Definition notify_file_response (id : Z) (st : GetFileStatus) (data : bytes) (n : Node) : Node :=
  set_file_requests
    (set_request_result id (match st with StatusOk => inr data | StatusError => inl FileNotFound end)
       (file_requests n)) n.

(** [request_file] up to its await: the slot to wait for. *)
Definition request_file (overflow_checks : bool) (path : bytes) (n : Node) :
  outcome FileRequestError (nat * Node) :=
  if negb (has_handshake n) then Err GatewayDisconnected
  else match start_request overflow_checks (file_requests n) with
  | Panic | Err _ => Panic
  | Ok (slot, id, r) =>
      Ok (slot, (send_payload (GetFileRequest path id) (set_file_requests r n)).2)
  end.

(** ** Scripts: [tcp_gateway/scripts/] *)

Definition send_connection_error (id : Z) (err : bytes) (send_force : bool) (n : Node) : Node :=
  let (removed, n1) := remove_forward_connection id n in
  if send_force || bool_decide (is_Some removed) then (send_payload (ConnectionError id err) n1).2 else n1.

Definition forward_payload (id : Z) (payload : bytes) (n : Node) : Node :=
  match forward_connections n !! id with
  | None => n
  | Some f =>
      match forwards n !! f with
      | None => n
      | Some c =>
          let (ok, c') := fwd_send_payload payload c in
          let n1 := set_forwards (<[f := c']> (forwards n)) n in
          if ok then n1 else send_connection_error id (bs "Disconnected") false n1
      end
  end.

Definition dial_target (host : bytes) : Dial :=
  match host with
  | x2f :: _ => UnixSocket host
  | _ => TcpSocket host
  end.

(** ** Packet handlers *)

Section Handlers.

(** Whether a private key and a certificate chain load as a TLS certificate
    ([SslCertificate::new], which rests on rustls). *)
Context (ssl_certificate_new : bytes -> bytes -> bool).

(** [handle_client_packet]; [duration] is what the ping stop watch shows. *)
Definition handle_client_packet (duration : Z) (contract : TcpGatewayContract) (n : Node) : Node :=
  match contract with
  | Connect id timeout remote_host =>
      if negb (allow_incoming_forward_connection (session n)) then
        send_connection_error id (bs "Forward connections are disabled this way to gateway") true n
      else spawn (ForwardConnect id remote_host timeout) n
  | Connected id => notify_forward_proxy_connection_accepted id n
  | ConnectionError id error => disconnect_forward_proxy_connection id error n
  | ForwardPayload id payload => forward_payload id payload n
  | BackwardPayload id payload => incoming_payload_for_proxy_connection id payload n
  | Ping => n
  | Pong => (send_payload (UpdatePingTime duration) (set_last_ping_duration duration n)).2
  | GetFileRequest path request_id => spawn (ServeFile request_id path) n
  | GetFileResponse request_id st data => notify_file_response request_id st data n
  | UpdatePingTime _ => n
  | SyncSslCertificatesRequest _ => n
  | SyncSslCertificateNotFound cert_id =>
      match ssl_certs n !! cert_id with
      | Some {| origin := GatewayPushed _ |} => set_ssl_certs (delete cert_id (ssl_certs n)) n
      | _ => n
      end
  | SyncSslCertificates cert_id cert pk =>
      if ssl_certificate_new pk cert then
        set_ssl_certs
          (<[cert_id := {| origin := GatewayPushed (gateway_id (session n)); cert_pem := cert;
                           private_key_pem := pk |}]> (ssl_certs n)) n
      else n
  end.

(** [TcpGatewayServerPacketHandler::handle_packet] *)
Definition handle_server_packet (contract : TcpGatewayContract) (n : Node) : Node :=
  match contract with
  | Connect id timeout remote_host => spawn (ForwardConnect id remote_host timeout) n
  | ForwardPayload id payload => forward_payload id payload n
  | BackwardPayload id payload => incoming_payload_for_proxy_connection id payload n
  | Ping => (send_payload Pong n).2
  | Pong => n
  | Connected id => notify_forward_proxy_connection_accepted id n
  | ConnectionError id error => disconnect_forward_proxy_connection id error n
  | UpdatePingTime duration => set_last_ping_duration duration n
  | GetFileRequest path request_id => spawn (ServeFile request_id path) n
  | GetFileResponse request_id st data => notify_file_response request_id st data n
  | SyncSslCertificatesRequest cert_ids => spawn (ReplySyncCerts cert_ids) n
  | SyncSslCertificates _ _ _ => n
  | SyncSslCertificateNotFound _ => n
  end.

(** Neither handler fails, so the read loop goes on after every packet. *)
Definition handle_packet (duration : Z) (n : Node) (contract : TcpGatewayContract) : Node :=
  if is_client (session n) then handle_client_packet duration contract n
  else handle_server_packet contract n.

(** ** Tasks *)

(** What a suspended task is resumed with, or what the owner of a stream
    does next.  Texts of I/O errors are inputs. *)
Inductive Event :=
| Go                                   (* the task is scheduled *)
| DialOk
| DialErr (err : bytes)
| ReadOk (payload : bytes)             (* a read of zero bytes is the end of the stream *)
| ReadErr (err : bytes)
| FileRead (content : option bytes)
| Tick (now : Z)                       (* the ping delay is over *)
| StreamRead (out_len : nat)
| StreamWrite (payload : bytes)
| StreamClose.

Definition fwd_new (id : Z) (host : bytes) : ForwardConnection :=
  {| connection_id := id; remote_endpoint := host; fwd_inner := Writer.init; got := []; reads := [] |}.

Definition add_read (payload : bytes) (c : ForwardConnection) : ForwardConnection :=
  {| connection_id := connection_id c; remote_endpoint := remote_endpoint c; fwd_inner := fwd_inner c;
     got := got c; reads := reads c ++ [payload] |}.

(** [handle_forward_connect]: the id is looked up once, before dialling; the
    connection is announced and read from before it is registered. *)
Definition forward_connect_start (t : nat) (id : Z) (host : bytes) (n : Node) : Node :=
  if has_forward_connection id n then
    goto t Done (send_connection_error id
      (bs "Attempt to establish client forward connection is fail. ConnectionId "
       ++ Str.uint_to_string id ++ bs " is already has a connection") true n)
  else goto t (Dialing id host (dial_target host)) n.

(** [read_loop] of a forward connection, behind the read. *)
Definition read_loop_step (t f : nat) (c : ForwardConnection) (ev : Event) (n : Node) : option Node :=
  match ev with
  | ReadOk [] =>
      Some (goto t Done (send_connection_error (connection_id c)
        (bs "ReadLoop. Connection to " ++ remote_endpoint c ++ bs " with id:"
         ++ Str.uint_to_string (connection_id c) ++ bs " is disconnected") false n))
  | ReadOk payload => Some (goto t (SendingBack f payload) (update_forward f (add_read payload) n))
  | ReadErr err =>
      Some (goto t Done (send_connection_error (connection_id c) err false (update_forward f fwd_disconnect n)))
  | _ => None
  end.

(** [send_backward_payload] *)
Definition send_backward_payload (id : Z) (payload : bytes) (n : Node) : Node :=
  if has_forward_connection id n then (send_payload (BackwardPayload id payload) n).2 else n.

(** [ack_connection]: the head of its loop, and what comes behind the sleep,
    with the clean-up of the caller when it fails. *)
Definition ack_failed (t : nat) (id : Z) (e : OpenError) (n : Node) : Node :=
  goto t (OpenFailed id e) (set_handlers (delete id (forward_proxy_handlers n)) n).

Definition ack_head (t : nat) (id : Z) (n : Node) : Node :=
  if negb (is_gateway_connected n) then ack_failed t id GatewayIsLost n else goto t (AckSleeping id) n.

Definition ack_look (t : nat) (id : Z) (n : Node) : Node :=
  match forward_proxy_handlers n !! id with
  | None => ack_failed t id SomehowClosed n
  | Some h =>
      match status h with
      | AcknowledgingConnection => goto t (AckConnection id) n
      | IsConnected => goto t (Opened id (receive_buffer h)) n
      | Disconnected err => ack_failed t id (Refused err) n
      end
  end.

(** [spawn_reply_sync_ssl_certificates] *)
Fixpoint reply_sync_certs (ids : list bytes) (n : Node) : Node :=
  match ids with
  | [] => n
  | cert_id :: rest =>
      let holder := if bool_decide (cert_id = SELF_SIGNED_CERT_NAME) then None else ssl_certs n !! cert_id in
      let pkt := match holder with
                 | Some h => SyncSslCertificates cert_id (cert_pem h) (private_key_pem h)
                 | None => SyncSslCertificateNotFound cert_id
                 end in
      match send_payload pkt n with
      | (true, n1) => reply_sync_certs rest n1
      | (false, n1) => n1
      end
  end.

(** [serve_file] *)
Definition serve_file (request_id : Z) (content : option bytes) (n : Node) : Node :=
  (send_payload (match content with
                 | Some data => GetFileResponse request_id StatusOk data
                 | None => GetFileResponse request_id StatusError []
                 end) n).2.

(** A round of [gateway_ping_loop]; times are microseconds. *)
Definition ping_round (t : nat) (now : Z) (n : Node) : Node :=
  if 9 <? (now - last_incoming_payload_time n) ÷ 1000000 then goto t Done (disconnect_gateway n)
  else match send_payload Ping n with
  | (true, n1) => n1
  | (false, n1) => goto t Done n1
  end.

(** [TcpGatewayProxyForwardStream]: read, write and disconnect. *)
Definition stream_write (id : Z) (s : nat) (payload : bytes) (n : Node) : bool * Node :=
  match send_payload (ForwardPayload id payload) n with
  | (true, n1) =>
      (true, update_stream s (fun st => {| stream_id := stream_id st; stream_host := stream_host st;
                                           content := content st; written := written st ++ [payload] |}) n1)
  | (false, n1) => (false, n1)
  end.

Definition stream_disconnect (id : Z) (s : nat) (n : Node) : Node :=
  match streams n !! s with
  | None => n
  | Some st =>
      let (flipped, c) := ReceiveBuffer.disconnect (content st) in
      if flipped then
        spawn (StreamCleanup id)
          (send_payload (ConnectionError id []) (set_streams (<[s := set_content c st]> (streams n)) n)).2
      else n
  end.

Definition stream_read (s out_len : nat) (n : Node) : option Node :=
  match streams n !! s with
  | None => None
  | Some st =>
      match ReceiveBuffer.get_data out_len (content st) with
      | None => None
      | Some (_, c) => Some (set_streams (<[s := set_content c st]> (streams n)) n)
      end
  end.

(** Task [t] makes one step. *)
Definition task_step (t : nat) (ev : Event) (n : Node) : option Node :=
  match tasks n !! t with
  | None => None
  | Some task =>
      match task, ev with
      | ForwardConnect id host _, Go => Some (forward_connect_start t id host n)
      | Dialing id host _, DialOk =>
          Some (goto t (Announcing id (length (forwards n)))
                  (set_forwards (forwards n ++ [fwd_new id host]) n))
      | Dialing id _ _, DialErr err => Some (goto t Done (send_connection_error id err true n))
      | Announcing id f, Go => Some (goto t (Starting id f) (send_payload (Connected id) n).2)
      | Starting id f, Go => Some (spawn (ReadLoop f) (goto t (Registering id f) n))
      | Registering id f, Go => Some (goto t Done (add_forward_connection id f n))
      | ReadLoop f, _ =>
          match forwards n !! f with Some c => read_loop_step t f c ev n | None => None end
      | SendingBack f payload, Go =>
          match forwards n !! f with
          | Some c => Some (goto t (ReadLoop f) (send_backward_payload (connection_id c) payload n))
          | None => None
          end
      | AckConnection id, Go => Some (ack_head t id n)
      | AckSleeping id, Go => Some (ack_look t id n)
      | Opened _ s, StreamRead out_len => stream_read s out_len n
      | Opened id s, StreamWrite payload => Some (stream_write id s payload n).2
      | Opened id s, StreamClose => Some (stream_disconnect id s n)
      | StreamCleanup id, Go =>
          Some (goto t Done (set_handlers (delete id (forward_proxy_handlers n)) n))
      | ServeFile request_id _, FileRead content => Some (goto t Done (serve_file request_id content n))
      | ReplySyncCerts ids, Go => Some (goto t Done (reply_sync_certs ids n))
      | PingLoop, Tick now => Some (ping_round t now n)
      | _, _ => None
      end
  end.

(** [get_next_connection_id]: [fetch_add] on an [AtomicU32]. *)
Definition get_next_connection_id (n : Node) : Z * Node :=
  (next_connection_id n, set_next_id ((next_connection_id n + 1) mod 2 ^ 32) (issued n + 1) n).

(** [connect_to_forward_proxy_connection] up to its first await.  Nobody else
    knows the id before the packet is sent, so the insertion of the handler
    and the packet are one step. *)
Definition connect_to_forward_proxy_connection (host : bytes) (timeout : Z) (n0 : Node) : Node :=
  let (id, n) := get_next_connection_id n0 in
  if negb (has_handshake n) then spawn (OpenFailed id NoHandshake) n
  else
    let s := length (streams n) in
    let n1 := set_handlers (<[id := handler_new s host]> (forward_proxy_handlers n))
                (set_streams (streams n ++ [{| stream_id := id; stream_host := host;
                                               content := ReceiveBuffer.new; written := [] |}]) n) in
    match send_payload (Connect id timeout host) n1 with
    | (true, n2) => spawn (AckConnection id) n2
    | (false, n2) => spawn (OpenFailed id ConnectionIsLost) n2
    end.

(** ** Steps of a node that no packet causes *)

Inductive WriterEvent := WRecv | WWriteOk | WWriteFailed | WClosed (done : bool).

Definition writer_step (render : bytes -> bytes) (ev : WriterEvent) (w : Writer.State) : option Writer.State :=
  if Writer.running w then
    match ev with
    | WRecv => Writer.recv render w
    | WWriteOk => Writer.write_ok render w
    | WWriteFailed => Writer.write_failed w
    | WClosed done => Writer.recv_closed done w
    end
  else None.

Inductive Action :=
| Open (host : bytes) (timeout : Z)
| SkipId                               (* the id goes to another session of the gateway *)
| Step (t : nat) (ev : Event)
| RequestFile (path : bytes)
| SessionWriter (ev : WriterEvent)
| ForwardWriter (f : nat) (ev : WriterEvent)
| DisconnectGateway.

(** [render] is how the session writer puts payloads on the wire. *)
Definition local_step (render : bytes -> bytes) (a : Action) (n : Node) : option Node :=
  match a with
  | Open host timeout => Some (connect_to_forward_proxy_connection host timeout n)
  | SkipId => Some (get_next_connection_id n).2
  | Step t ev => task_step t ev n
  | RequestFile path => match request_file false path n with Ok (_, n1) => Some n1 | _ => None end
  | SessionWriter ev => match writer_step render ev (inner n) with Some w => Some (set_inner w n) | None => None end
  | ForwardWriter f ev =>
      match forwards n !! f with
      | Some c =>
          match writer_step id ev (fwd_inner c) with
          | Some w => Some (set_forwards (<[f := set_fwd_inner w c]> (forwards n)) n)
          | None => None
          end
      | None => None
      end
  | DisconnectGateway => Some (disconnect_gateway n)
  end.

End Handlers.

(** [TcpGatewayConnection::new], after the handshake. *)
Definition connection_new (s : Session) (certs : gmap bytes SslCertificateHolder) (first_id now : Z) : Node :=
  {| session := s; inner := Writer.init; sent := []; forward_connections := ∅; forwards := [];
     forward_proxy_handlers := ∅; streams := [];
     file_requests := {| requests := ∅; next_request_id := 0; results := [] |};
     last_ping_duration := 0; last_incoming_payload_time := now; ssl_certs := certs;
     next_connection_id := first_id; issued := 0;
     tasks := if is_client s then [PingLoop] else [] |}.

End Node.
