(* ===== verification/GatewayMachine.v ===== *)
(** * The abstract machine behind a gateway node

    [Core] is what matters of a node for the bytes that pass through it: which
    connections and streams exist, under which id and for which host, what
    went through them, and how far each task is.  It has no writers, locks,
    statuses or awaiters.  [move] is its transition relation, and every step a
    node makes by itself is a sequence of moves ([local_step_moves]).  The
    rest of the file are the books each end keeps ([opener], [acceptor]) and
    what the ends know of each other ([link]), and that they are kept. *)

From Stdlib Require Import ZArith Lia Strings.Byte.
From stdpp Require Import base tactics list strings gmap.
From S2P Require Import Prelude RustStd GatewayContracts GatewaySession GatewayWriter GatewayNode.

Local Open Scope Z_scope.

Module Machine.
Import Contracts Node.

(** ** The abstract machine *)

Record AStream := { a_id : Z; a_host : bytes; a_in : list bytes; a_out : list bytes }.
Record AForward := { f_id : Z; f_host : bytes; f_got : list bytes; f_reads : list bytes }.

Record Core := {
  c_sent : list TcpGatewayContract;
  c_table : gmap Z nat;
  c_forwards : list AForward;
  c_handlers : gmap Z nat;
  c_streams : list AStream;
  c_next : Z;
  c_issued : Z;
  c_tasks : list Task
}.

Definition abs_stream (s : Stream) : AStream :=
  {| a_id := stream_id s; a_host := stream_host s;
     a_in := ReceiveBuffer.enqueued (content s); a_out := Node.written s |}.
Definition abs_forward (c : ForwardConnection) : AForward :=
  {| f_id := connection_id c; f_host := remote_endpoint c; f_got := got c; f_reads := reads c |}.

Definition core (n : Node) : Core :=
  {| c_sent := sent n; c_table := forward_connections n; c_forwards := abs_forward <$> forwards n;
     c_handlers := receive_buffer <$> forward_proxy_handlers n; c_streams := abs_stream <$> streams n;
     c_next := next_connection_id n; c_issued := issued n; c_tasks := tasks n |}.

(** What a task stands for. *)
Definition pending (t : Task) : option (Z * bytes) :=
  match t with ForwardConnect id host _ | Dialing id host _ => Some (id, host) | _ => None end.
Definition unstarted (t : Task) : option (Z * nat) :=
  match t with Announcing id f | Starting id f => Some (id, f) | _ => None end.
Definition unregistered (t : Task) : option (Z * nat) :=
  match t with Announcing id f | Starting id f | Registering id f => Some (id, f) | _ => None end.
Definition loop_of (t : Task) : option nat :=
  match t with ReadLoop f | SendingBack f _ => Some f | _ => None end.
Definition holds (t : Task) : option (Z * nat) :=
  match t with Opened id s => Some (id, s) | _ => None end.
Definition inert (t : Task) : Prop :=
  pending t = None /\ unregistered t = None /\ loop_of t = None /\ holds t = None.

(** Packets that carry no stream data and open nothing. *)
Definition control (p : TcpGatewayContract) : Prop :=
  match p with Connect _ _ _ | ForwardPayload _ _ | BackwardPayload _ _ => False | _ => True end.

Definition add_in (p : bytes) (s : AStream) : AStream :=
  {| a_id := a_id s; a_host := a_host s; a_in := a_in s ++ [p]; a_out := a_out s |}.
Definition add_out (p : bytes) (s : AStream) : AStream :=
  {| a_id := a_id s; a_host := a_host s; a_in := a_in s; a_out := a_out s ++ [p] |}.
Definition add_got (p : bytes) (c : AForward) : AForward :=
  {| f_id := f_id c; f_host := f_host c; f_got := f_got c ++ [p]; f_reads := f_reads c |}.
Definition add_reads (p : bytes) (c : AForward) : AForward :=
  {| f_id := f_id c; f_host := f_host c; f_got := f_got c; f_reads := f_reads c ++ [p] |}.

Inductive move : Core -> Core -> Prop :=
| MSend p sn tb fw hd st nx iss tk :
    control p ->
    move (Build_Core sn tb fw hd st nx iss tk) (Build_Core (sn ++ [p]) tb fw hd st nx iss tk)
| MGoto t x sn tb fw hd st nx iss tk :
    inert x -> move (Build_Core sn tb fw hd st nx iss tk) (Build_Core sn tb fw hd st nx iss (<[t := x]> tk))
| MSpawn x sn tb fw hd st nx iss tk :
    inert x -> move (Build_Core sn tb fw hd st nx iss tk) (Build_Core sn tb fw hd st nx iss (tk ++ [x]))
| MForget id sn tb fw hd st nx iss tk :
    move (Build_Core sn tb fw hd st nx iss tk) (Build_Core sn tb fw (delete id hd) st nx iss tk)
| MRemove id sn tb fw hd st nx iss tk :
    move (Build_Core sn tb fw hd st nx iss tk) (Build_Core sn (delete id tb) fw hd st nx iss tk)
| MSkip sn tb fw hd st nx iss tk :
    move (Build_Core sn tb fw hd st nx iss tk)
         (Build_Core sn tb fw hd st ((nx + 1) mod 2 ^ 32) (iss + 1) tk)
| MOpen (ok : bool) timeout host sn tb fw hd st nx iss tk :
    move (Build_Core sn tb fw hd st nx iss tk)
         (Build_Core (if ok then sn ++ [Connect nx timeout host] else sn) tb fw
            (<[nx := length st]> hd)
            (st ++ [{| a_id := nx; a_host := host; a_in := []; a_out := [] |}])
            ((nx + 1) mod 2 ^ 32) (iss + 1) tk)
| MOpened t id s sn tb fw hd st nx iss tk :
    hd !! id = Some s ->
    move (Build_Core sn tb fw hd st nx iss tk) (Build_Core sn tb fw hd st nx iss (<[t := Opened id s]> tk))
| MWrite t id s p sn tb fw hd st nx iss tk :
    tk !! t = Some (Opened id s) ->
    move (Build_Core sn tb fw hd st nx iss tk)
         (Build_Core (sn ++ [ForwardPayload id p]) tb fw hd (alter (add_out p) s st) nx iss tk)
| MDial t x y sn tb fw hd st nx iss tk :
    tk !! t = Some x -> pending x = pending y -> is_Some (pending y) ->
    move (Build_Core sn tb fw hd st nx iss tk) (Build_Core sn tb fw hd st nx iss (<[t := y]> tk))
| MDialled t x id host sn tb fw hd st nx iss tk :
    tk !! t = Some x -> pending x = Some (id, host) ->
    move (Build_Core sn tb fw hd st nx iss tk)
         (Build_Core sn tb (fw ++ [{| f_id := id; f_host := host; f_got := []; f_reads := [] |}]) hd st nx iss
            (<[t := Announcing id (length fw)]> tk))
| MAnnounced t id f sn tb fw hd st nx iss tk :
    tk !! t = Some (Announcing id f) ->
    move (Build_Core sn tb fw hd st nx iss tk) (Build_Core sn tb fw hd st nx iss (<[t := Starting id f]> tk))
| MStart t id f sn tb fw hd st nx iss tk :
    tk !! t = Some (Starting id f) ->
    move (Build_Core sn tb fw hd st nx iss tk)
         (Build_Core sn tb fw hd st nx iss (<[t := Registering id f]> tk ++ [ReadLoop f]))
| MRegister t id f sn tb fw hd st nx iss tk :
    tk !! t = Some (Registering id f) ->
    move (Build_Core sn tb fw hd st nx iss tk)
         (Build_Core sn (<[id := f]> tb) fw hd st nx iss (<[t := Done]> tk))
| MRead t f p sn tb fw hd st nx iss tk :
    tk !! t = Some (ReadLoop f) ->
    move (Build_Core sn tb fw hd st nx iss tk)
         (Build_Core sn tb (alter (add_reads p) f fw) hd st nx iss (<[t := SendingBack f p]> tk))
| MBack (ok : bool) t f c p sn tb fw hd st nx iss tk :
    tk !! t = Some (SendingBack f p) -> fw !! f = Some c ->
    move (Build_Core sn tb fw hd st nx iss tk)
         (Build_Core (if ok then sn ++ [BackwardPayload (f_id c) p] else sn) tb fw hd st nx iss
            (<[t := ReadLoop f]> tk)).


(** ** Every step of a node is a sequence of moves *)

Lemma one (c c1 : Core) : move c c1 -> rtc move c c1.
Proof. apply rtc_once. Qed.

Lemma same (c c1 : Core) : c = c1 -> rtc move c c1.
Proof. by intros ->. Qed.

Lemma send_core p n b n' :
  send_payload p n = (b, n') ->
  core n' = Build_Core (if b then sent n ++ [p] else sent n) (forward_connections n)
              (abs_forward <$> forwards n) (receive_buffer <$> forward_proxy_handlers n)
              (abs_stream <$> streams n) (next_connection_id n) (issued n) (tasks n) /\
  tasks n' = tasks n /\ streams n' = streams n /\ forwards n' = forwards n /\
  forward_proxy_handlers n' = forward_proxy_handlers n /\ forward_connections n' = forward_connections n /\
  next_connection_id n' = next_connection_id n /\ issued n' = issued n /\
  sent n' = (if b then sent n ++ [p] else sent n) /\ ssl_certs n' = ssl_certs n.
Proof. unfold send_payload. intros H. by repeat case_match; simplify_eq. Qed.

Lemma send_moves p n : control p -> rtc move (core n) (core (send_payload p n).2).
Proof.
  intros C. destruct (send_payload p n) as [[] n'] eqn:E; apply send_core in E as [E _]; simpl; rewrite E.
  - apply one. by constructor.
  - apply rtc_refl.
Qed.

Lemma goto_moves t x n : inert x -> rtc move (core n) (core (goto t x n)).
Proof. intros. apply one. by constructor. Qed.

Lemma spawn_moves x n : inert x -> rtc move (core n) (core (spawn x n)).
Proof. intros. apply one. by constructor. Qed.

Lemma forget_moves id n :
  rtc move (core n) (core (set_handlers (delete id (forward_proxy_handlers n)) n)).
Proof. apply one. unfold core. simpl. rewrite fmap_delete. constructor. Qed.

Lemma remove_moves id n :
  rtc move (core n) (core (set_forward_connections (delete id (forward_connections n)) n)).
Proof. apply one. constructor. Qed.

Lemma send_connection_error_moves id err force n :
  rtc move (core n) (core (send_connection_error id err force n)).
Proof.
  unfold send_connection_error. simpl. destruct (force || _); [|apply remove_moves].
  etrans; [apply remove_moves|]. by apply send_moves.
Qed.

(** A forward connection or a stream that changes only where the abstract
    machine does not look. *)
Lemma update_forward_core f g n :
  (forall c, abs_forward (g c) = abs_forward c) -> core (update_forward f g n) = core n.
Proof. intros H. unfold core. simpl. by rewrite fmap_alter_same. Qed.

Lemma update_stream_core s g n :
  (forall c, abs_stream (g c) = abs_stream c) -> core (update_stream s g n) = core n.
Proof. intros H. unfold core. simpl. by rewrite fmap_alter_same. Qed.

Lemma enqueued_disconnect c : ReceiveBuffer.enqueued (ReceiveBuffer.disconnect c).2 = ReceiveBuffer.enqueued c.
Proof. unfold ReceiveBuffer.disconnect, ReceiveBuffer.complete. by repeat case_match. Qed.

Lemma enqueued_extend p c :
  ReceiveBuffer.enqueued (ReceiveBuffer.extend_from_slice p c) = ReceiveBuffer.enqueued c ++ [p].
Proof. unfold ReceiveBuffer.extend_from_slice, ReceiveBuffer.complete. by repeat case_match. Qed.

Lemma enqueued_get_data n c r c' :
  ReceiveBuffer.get_data n c = Some (r, c') -> ReceiveBuffer.enqueued c' = ReceiveBuffer.enqueued c.
Proof.
  unfold ReceiveBuffer.get_data, ReceiveBuffer.get_data_round. intros H. by repeat case_match; simplify_eq.
Qed.

Lemma disconnect_forward_proxy_connection_moves id msg n :
  rtc move (core n) (core (disconnect_forward_proxy_connection id msg n)).
Proof.
  unfold disconnect_forward_proxy_connection. simpl.
  set (n1 := match forward_proxy_handlers n !! id with Some _ => _ | None => _ end).
  trans (core n1).
  - subst n1. case_match; [|apply rtc_refl].
    rewrite update_stream_core; [apply forget_moves|].
    intros c. unfold abs_stream. simpl. by rewrite enqueued_disconnect.
  - case_match; [rewrite update_forward_core by done|]; apply remove_moves.
Qed.

Lemma send_backward_payload_moves t f c p n :
  tasks n !! t = Some (SendingBack f p) -> forwards n !! f = Some c ->
  rtc move (core n) (core (goto t (ReadLoop f) (send_backward_payload (connection_id c) p n))).
Proof.
  intros T F. apply one. unfold send_backward_payload.
  assert ((abs_forward <$> forwards n) !! f = Some (abs_forward c)) as F' by (by rewrite list_lookup_fmap, F).
  case_match; [|by apply (MBack false t f (abs_forward c) p)].
  destruct (send_payload _ n) as [b n'] eqn:E.
  apply send_core in E as (_ & Et & Es & Ef & Eh & Ec & En & Ei & Esn & _).
  unfold core. simpl. rewrite Et, Es, Ef, Eh, Ec, En, Ei, Esn. by apply (MBack b t f (abs_forward c) p).
Qed.

Lemma reply_sync_certs_moves ids n : rtc move (core n) (core (reply_sync_certs ids n)).
Proof.
  revert n. induction ids as [|cert_id rest IH]; intros n; simpl; [apply rtc_refl|].
  match goal with |- context [send_payload ?p n] =>
    assert (control p) as C by (by repeat case_match); pose proof (send_moves p n C) as M;
    destruct (send_payload p n) as [[] n1] end; simpl in M; [|done].
  etrans; [exact M|]. apply IH.
Qed.

Lemma ack_failed_moves t id e n : rtc move (core n) (core (ack_failed t id e n)).
Proof. etrans; [apply (forget_moves id)|]. by apply (goto_moves t). Qed.

Lemma stream_write_moves t id s p n :
  tasks n !! t = Some (Opened id s) -> rtc move (core n) (core (stream_write id s p n).2).
Proof.
  intros T. unfold stream_write. destruct (send_payload _ n) as [[] n'] eqn:E;
    apply send_core in E as (E & Et & Es & Ef & Eh & Ec & En & Ei & Esn & _); simpl; [|rewrite E; apply rtc_refl].
  apply one. unfold core. simpl. rewrite Et, Es, Ef, Eh, Ec, En, Ei, Esn.
  match goal with |- move _ (Build_Core _ _ _ _ ?l _ _ _) =>
    replace l with (alter (add_out p) s (abs_stream <$> streams n)) end; [by econstructor|].
  apply list_eq. intros j. rewrite list_lookup_fmap, !list_lookup_alter, list_lookup_fmap.
  case_decide; [subst|by rewrite list_lookup_fmap]. by destruct (streams n !! j).
Qed.

Lemma set_stream_core s st st' n :
  streams n !! s = Some st -> abs_stream st' = abs_stream st ->
  core (set_streams (<[s := st']> (streams n)) n) = core n.
Proof. intros L E. unfold core. simpl. by rewrite (insert_same _ _ st). Qed.

Lemma stream_disconnect_moves id s n : rtc move (core n) (core (stream_disconnect id s n)).
Proof.
  unfold stream_disconnect. case_match eqn:L; [|apply rtc_refl].
  destruct (ReceiveBuffer.disconnect _) as [[] c] eqn:D; [|apply rtc_refl].
  etrans; [|by apply spawn_moves]. etrans; [|by apply send_moves].
  erewrite set_stream_core; [apply rtc_refl|done|].
  unfold abs_stream. simpl. by rewrite <-(enqueued_disconnect (content _)), D.
Qed.

Lemma stream_read_moves s k n n' : stream_read s k n = Some n' -> rtc move (core n) (core n').
Proof.
  unfold stream_read. intros H. repeat case_match; simplify_eq.
  erewrite set_stream_core; [apply rtc_refl|done|].
  unfold abs_stream. simpl. by erewrite enqueued_get_data.
Qed.

Lemma dialled_moves t x id host n :
  tasks n !! t = Some x -> pending x = Some (id, host) ->
  rtc move (core n) (core (goto t (Announcing id (length (forwards n)))
                             (set_forwards (forwards n ++ [fwd_new id host]) n))).
Proof.
  intros T P. apply one. unfold core. simpl. rewrite fmap_app. simpl.
  rewrite <-(length_fmap abs_forward (forwards n)). by eapply MDialled.
Qed.

Lemma read_loop_moves t f c ev n n' :
  tasks n !! t = Some (ReadLoop f) -> forwards n !! f = Some c ->
  read_loop_step t f c ev n = Some n' -> rtc move (core n) (core n').
Proof.
  intros T F H. unfold read_loop_step in H.
  destruct ev as [| | |[|b l]| | | | | |]; simplify_eq.
  - etrans; [|by apply goto_moves]. apply send_connection_error_moves.
  - apply one. unfold core. simpl.
    match goal with |- move _ (Build_Core _ _ ?fs _ _ _ _ _) =>
      replace fs with (alter (add_reads (b :: l)) f (abs_forward <$> forwards n)) end; [by econstructor|].
    apply list_eq. intros j. rewrite list_lookup_fmap, !list_lookup_alter, list_lookup_fmap.
    case_decide; [subst|by rewrite list_lookup_fmap]. by destruct (forwards n !! j).
  - etrans; [|by apply goto_moves]. etrans; [|apply send_connection_error_moves].
    by rewrite update_forward_core.
Qed.

Lemma ping_moves t now n : rtc move (core n) (core (ping_round t now n)).
Proof.
  unfold ping_round. case_match.
  - etrans; [|by apply goto_moves]. apply rtc_refl.
  - pose proof (send_moves Ping n I) as M. destruct (send_payload Ping n) as [[] n1]; simpl in M; [done|].
    etrans; [exact M|]. by apply goto_moves.
Qed.

Lemma forward_connect_start_moves t id host timeout n :
  tasks n !! t = Some (ForwardConnect id host timeout) ->
  rtc move (core n) (core (forward_connect_start t id host n)).
Proof.
  intros T. unfold forward_connect_start. case_match.
  - etrans; [|by apply goto_moves]. apply send_connection_error_moves.
  - apply one. by eapply MDial.
Qed.

Lemma ack_look_moves t id n : rtc move (core n) (core (ack_look t id n)).
Proof.
  unfold ack_look. repeat case_match; try apply ack_failed_moves; [by apply goto_moves|].
  apply one. apply MOpened. rewrite lookup_fmap. by simplify_option_eq.
Qed.

Lemma announcing_moves t id f n :
  tasks n !! t = Some (Announcing id f) ->
  rtc move (core n) (core (goto t (Starting id f) (send_payload (Connected id) n).2)).
Proof.
  intros T. etrans; [by apply (send_moves (Connected id))|]. apply one.
  apply (MAnnounced t id f). destruct (send_payload _ n) eqn:E. simpl. by apply send_core in E as (_ & -> & _).
Qed.

(** A task makes only moves of the machine. *)
Lemma task_step_moves t ev n n' : task_step t ev n = Some n' -> rtc move (core n) (core n').
Proof.
  unfold task_step. intros H. destruct (tasks n !! t) as [task|] eqn:T; [|done].
  destruct task, ev; simplify_eq; try (case_match eqn:F; simplify_eq);
    try (by eapply read_loop_moves); try (by eapply stream_read_moves).
  - by eapply forward_connect_start_moves.
  - by eapply dialled_moves.
  - etrans; [|by apply goto_moves]. apply send_connection_error_moves.
  - by apply announcing_moves.
  - apply one. by constructor.
  - apply one. by econstructor.
  - by apply send_backward_payload_moves.
  - unfold ack_head. case_match; [apply ack_failed_moves|by apply goto_moves].
  - apply ack_look_moves.
  - by eapply stream_write_moves.
  - apply stream_disconnect_moves.
  - etrans; [|by apply goto_moves]. apply forget_moves.
  - etrans; [|by apply goto_moves]. unfold serve_file. apply send_moves. by case_match.
  - etrans; [|by apply goto_moves]. apply reply_sync_certs_moves.
  - apply ping_moves.
Qed.

Lemma open_moves host timeout n :
  rtc move (core n) (core (connect_to_forward_proxy_connection host timeout n)).
Proof.
  unfold connect_to_forward_proxy_connection. simpl. case_match.
  - etrans; [|by apply spawn_moves]. apply one. apply MSkip.
  - destruct (send_payload _ _) as [b n'] eqn:E. apply send_core in E as (E & _). simpl in E.
    assert (rtc move (core n) (core n')) as M; [|destruct b; (etrans; [exact M|by apply spawn_moves])].
    rewrite E, fmap_app, fmap_insert. apply one. simpl. rewrite <-(length_fmap abs_stream (streams n)).
    apply (MOpen b).
Qed.

(** Refinement: whatever a node does by itself the abstract machine does. *)
Lemma local_step_moves render a n n' : local_step render a n = Some n' -> rtc move (core n) (core n').
Proof.
  unfold local_step. intros H. destruct a; simplify_eq.
  - apply open_moves.
  - apply one. apply MSkip.
  - by eapply task_step_moves.
  - unfold request_file in H. repeat case_match; simplify_eq.
    etrans; [|by apply send_moves]. apply rtc_refl.
  - case_match; simplify_eq. apply rtc_refl.
  - repeat case_match; simplify_eq. unfold core. simpl. erewrite insert_same; [apply rtc_refl|done..].
  - apply rtc_refl.
Qed.

(** ** Invariants *)

Definition connect_ids (ps : list TcpGatewayContract) : list Z :=
  omap (fun p => match p with Connect k _ _ => Some k | _ => None end) ps.
Definition forward_data (k : Z) (ps : list TcpGatewayContract) : list bytes :=
  omap (fun p => match p with ForwardPayload k' d => if bool_decide (k = k') then Some d else None | _ => None end) ps.
Definition backward_data (k : Z) (ps : list TcpGatewayContract) : list bytes :=
  omap (fun p => match p with BackwardPayload k' d => if bool_decide (k = k') then Some d else None | _ => None end) ps.

(** An id that was given out, and not before [c_issued] ids ago. *)
Definition used (c : Core) (k : Z) : Prop := exists m, 1 <= m <= c_issued c /\ k = (c_next c - m) mod 2 ^ 32.

(** The side that opens streams. *)
Record opener (c : Core) : Prop := {
  o_next : 0 <= c_next c < 2 ^ 32 /\ 0 <= c_issued c;
  o_used : forall s st, c_streams c !! s = Some st -> used c (a_id st);
  o_unique : forall s1 s2 st1 st2, c_streams c !! s1 = Some st1 -> c_streams c !! s2 = Some st2 ->
               a_id st1 = a_id st2 -> s1 = s2;
  o_connect : forall k t h, Connect k t h ∈ c_sent c ->
               exists s st, c_streams c !! s = Some st /\ a_id st = k /\ a_host st = h;
  o_connect1 : NoDup (connect_ids (c_sent c));
  o_out : forall s st, c_streams c !! s = Some st -> forward_data (a_id st) (c_sent c) = a_out st;
  o_data : forall k p, ForwardPayload k p ∈ c_sent c -> exists s st, c_streams c !! s = Some st /\ a_id st = k;
  o_handler : forall k s, c_handlers c !! k = Some s -> exists st, c_streams c !! s = Some st /\ a_id st = k;
  o_holds : forall t x k s, c_tasks c !! t = Some x -> holds x = Some (k, s) ->
               exists st, c_streams c !! s = Some st /\ a_id st = k
}.

(** The side that dials. *)
Record acceptor (c : Core) : Prop := {
  d_unregistered : forall t x k f, c_tasks c !! t = Some x -> unregistered x = Some (k, f) ->
               exists a, c_forwards c !! f = Some a /\ f_id a = k /\ f_got a = [];
  d_loop : forall t x f, c_tasks c !! t = Some x -> loop_of x = Some f -> is_Some (c_forwards c !! f);
  d_table : forall k f, c_table c !! k = Some f -> exists a, c_forwards c !! f = Some a /\ f_id a = k;
  d_registered : forall k f t x k', c_table c !! k = Some f -> c_tasks c !! t = Some x ->
               unregistered x = Some (k', f) -> False;
  d_pending : forall t1 t2 x1 x2 k h1 h2, c_tasks c !! t1 = Some x1 -> c_tasks c !! t2 = Some x2 ->
               pending x1 = Some (k, h1) -> pending x2 = Some (k, h2) -> t1 = t2;
  d_pending_forward : forall t x k h f a, c_tasks c !! t = Some x -> pending x = Some (k, h) ->
               c_forwards c !! f = Some a -> f_id a <> k;
  d_unique : forall f1 f2 a1 a2, c_forwards c !! f1 = Some a1 -> c_forwards c !! f2 = Some a2 ->
               f_id a1 = f_id a2 -> f1 = f2;
  d_unregistered1 : forall t1 t2 x1 x2 k1 k2 f, c_tasks c !! t1 = Some x1 -> c_tasks c !! t2 = Some x2 ->
               unregistered x1 = Some (k1, f) -> unregistered x2 = Some (k2, f) -> t1 = t2;
  d_loop1 : forall t1 t2 x1 x2 f, c_tasks c !! t1 = Some x1 -> c_tasks c !! t2 = Some x2 ->
               loop_of x1 = Some f -> loop_of x2 = Some f -> t1 = t2;
  d_unstarted : forall t1 t2 x1 x2 k f, c_tasks c !! t1 = Some x1 -> c_tasks c !! t2 = Some x2 ->
               unstarted x1 = Some (k, f) -> loop_of x2 = Some f -> False;
  d_back : forall f a, c_forwards c !! f = Some a -> backward_data (f_id a) (c_sent c) `sublist_of` f_reads a;
  d_sending : forall t f a p, c_tasks c !! t = Some (SendingBack f p) -> c_forwards c !! f = Some a ->
               backward_data (f_id a) (c_sent c) ++ [p] `sublist_of` f_reads a;
  d_data : forall k p, BackwardPayload k p ∈ c_sent c -> exists f a, c_forwards c !! f = Some a /\ f_id a = k
}.

Lemma omap_snoc {A B} (g : A -> option B) l x :
  omap g (l ++ [x]) = omap g l ++ (match g x with Some y => [y] | None => [] end).
Proof. rewrite omap_app. by simpl; destruct (g x). Qed.

Lemma control_connect p ps : control p -> connect_ids (ps ++ [p]) = connect_ids ps.
Proof. intros C. unfold connect_ids. rewrite omap_snoc. by destruct p; simpl; rewrite ?app_nil_r. Qed.
Lemma control_forward p k ps : control p -> forward_data k (ps ++ [p]) = forward_data k ps.
Proof. intros C. unfold forward_data. rewrite omap_snoc. by destruct p; simpl; rewrite ?app_nil_r. Qed.
Lemma control_backward p k ps : control p -> backward_data k (ps ++ [p]) = backward_data k ps.
Proof. intros C. unfold backward_data. rewrite omap_snoc. by destruct p; simpl; rewrite ?app_nil_r. Qed.

Lemma elem_of_snoc {A} (x y : A) l : x ∈ l ++ [y] <-> x ∈ l \/ x = y.
Proof. set_solver. Qed.

Lemma used_fresh c : 0 <= c_next c < 2 ^ 32 -> c_issued c < 2 ^ 32 -> ~ used c (c_next c).
Proof.
  intros N I (m & M & E). rewrite <-(Z.mod_small (c_next c) (2 ^ 32)) in E at 1 by lia.
  assert ((c_next c - (c_next c - m)) mod 2 ^ 32 = 0) as D.
  { rewrite Zminus_mod, <-E, Z.sub_diag. done. }
  replace (c_next c - (c_next c - m)) with m in D by lia. rewrite Z.mod_small in D; lia.
Qed.

(** ** The opening side keeps its books *)

Lemma opener_next c : opener c -> c_issued c < 2 ^ 32 ->
  (forall s st, c_streams c !! s = Some st -> a_id st <> c_next c) /\
  forward_data (c_next c) (c_sent c) = [] /\ c_next c ∉ connect_ids (c_sent c).
Proof.
  intros O I. assert (~ used c (c_next c)) as F by (apply used_fresh; [apply O|done]).
  split; [intros s st L E; apply F; rewrite <-E; by eapply (o_used c)|].
  split.
  - destruct (forward_data _ _) as [|d l] eqn:E; [done|].
    assert (d ∈ forward_data (c_next c) (c_sent c)) as D by (rewrite E; set_solver).
    apply list_elem_of_omap in D as (p & P & G). destruct p; try done. case_bool_decide; simplify_eq.
    apply (o_data c O) in P as (s & st & L & E1). destruct F. rewrite <-E1. by eapply (o_used c).
  - intros D. apply list_elem_of_omap in D as (p & P & G). destruct p; simplify_eq.
    apply (o_connect c O) in P as (s & st & L & E1 & _). destruct F. rewrite <-E1. by eapply (o_used c).
Qed.

(** What the opening side's books say does not depend on the rest. *)
Lemma opener_frame sn tb fw hd st nx iss tk tb' fw' tk' :
  opener (Build_Core sn tb fw hd st nx iss tk) ->
  (forall t x k s, tk' !! t = Some x -> holds x = Some (k, s) ->
     (exists t0 x0, tk !! t0 = Some x0 /\ holds x0 = Some (k, s)) \/ hd !! k = Some s) ->
  opener (Build_Core sn tb' fw' hd st nx iss tk').
Proof.
  intros [] H. split; try assumption. simpl. intros t x k s T E.
  destruct (H _ _ _ _ T E) as [(t0 & x0 & T0 & E0)|D]; eauto.
Qed.

(** Replacing or adding a task that holds no stream. *)
Lemma holds_insert (tk : list Task) (t : nat) y (P : Z -> nat -> Prop) :
  holds y = None ->
  forall t' x k s, <[t := y]> tk !! t' = Some x -> holds x = Some (k, s) ->
    (exists t0 x0, tk !! t0 = Some x0 /\ holds x0 = Some (k, s)) \/ P k s.
Proof.
  intros N t' x k s [(-> & <- & _)|[_ L]]%list_lookup_insert_Some E; [congruence|eauto].
Qed.

Lemma holds_snoc (tk : list Task) y (P : Z -> nat -> Prop) :
  holds y = None ->
  forall t' x k s, (tk ++ [y]) !! t' = Some x -> holds x = Some (k, s) ->
    (exists t0 x0, tk !! t0 = Some x0 /\ holds x0 = Some (k, s)) \/ P k s.
Proof. intros N t' x k s [[_ L]|[_ <-]]%lookup_snoc_Some E; [eauto|congruence]. Qed.

Lemma opener_send p sn tb fw hd st nx iss tk :
  control p -> opener (Build_Core sn tb fw hd st nx iss tk) -> opener (Build_Core (sn ++ [p]) tb fw hd st nx iss tk).
Proof.
  intros C [O1 O2 O3 O4 O5 O6 O7 O8 O9]. split; try assumption; simpl in *.
  - intros k t h [I| <-]%elem_of_snoc; [by eapply O4|done].
  - by rewrite control_connect.
  - intros s x L. rewrite control_forward by done. by eapply O6.
  - intros k q [I| <-]%elem_of_snoc; [by eapply O7|done].
Qed.

Lemma used_next sn tb fw hd st nx iss tk sn' tb' fw' hd' st' tk' k :
  used (Build_Core sn tb fw hd st nx iss tk) k ->
  used (Build_Core sn' tb' fw' hd' st' ((nx + 1) mod 2 ^ 32) (iss + 1) tk') k.
Proof.
  intros (m & M & E). exists (m + 1). simpl in *. split; [lia|].
  rewrite Zminus_mod_idemp_l. by replace (nx + 1 - (m + 1)) with (nx - m) by lia.
Qed.

Lemma used_now sn tb fw hd st nx iss tk :
  0 <= nx < 2 ^ 32 -> 0 <= iss -> used (Build_Core sn tb fw hd st ((nx + 1) mod 2 ^ 32) (iss + 1) tk) nx.
Proof.
  intros N I. exists 1. simpl. split; [lia|]. rewrite Zminus_mod_idemp_l.
  replace (nx + 1 - 1) with nx by lia. by rewrite Z.mod_small.
Qed.

Lemma opener_skip sn tb fw hd st nx iss tk :
  opener (Build_Core sn tb fw hd st nx iss tk) ->
  opener (Build_Core sn tb fw hd st ((nx + 1) mod 2 ^ 32) (iss + 1) tk).
Proof.
  intros [[O1 O1'] O2 O3 O4 O5 O6 O7 O8 O9]. split; try assumption; simpl in *.
  - split; [by apply Z.mod_pos_bound|lia].
  - intros s x L. by eapply used_next, O2.
Qed.

(** A fresh id, a stream, a handler for it and, if the session takes it, the
    packet that asks the peer to dial. *)
Lemma opener_open (ok : bool) timeout host sn tb fw hd st nx iss tk :
  opener (Build_Core sn tb fw hd st nx iss tk) -> iss < 2 ^ 32 ->
  opener (Build_Core (if ok then sn ++ [Connect nx timeout host] else sn) tb fw (<[nx := length st]> hd)
            (st ++ [{| a_id := nx; a_host := host; a_in := []; a_out := [] |}])
            ((nx + 1) mod 2 ^ 32) (iss + 1) tk).
Proof.
  intros O I. destruct (opener_next _ O I) as (F1 & F2 & F3). simpl in *.
  destruct O as [[O1 O1'] O2 O3 O4 O5 O6 O7 O8 O9]. simpl in *.
  set (new := {| a_id := nx; a_host := host; a_in := []; a_out := [] |}).
  assert ((st ++ [new]) !! length st = Some new) as LN by (by rewrite lookup_app_r, Nat.sub_diag by lia).
  assert (forall k, forward_data k (if ok then sn ++ [Connect nx timeout host] else sn) = forward_data k sn) as FD.
  { intros k. destruct ok; [|done]. unfold forward_data. rewrite omap_snoc. simpl. by rewrite app_nil_r. }
  assert (forall (s : nat) (x : AStream), st !! s = Some x -> (st ++ [new]) !! s = Some x) as UP.
  { intros s x L. by apply lookup_app_l_Some. }
  split; simpl.
  - split; [by apply Z.mod_pos_bound|lia].
  - intros s x [[_ L]|[_ <-]]%lookup_snoc_Some; [by eapply used_next, O2|by apply used_now].
  - intros s1 s2 x1 x2 [[_ L1]|[-> <-]]%lookup_snoc_Some [[_ L2]|[-> <-]]%lookup_snoc_Some E; eauto;
      simpl in E; by destruct (F1 _ _ ltac:(eassumption)).
  - intros k t h Hk. destruct ok.
    + apply elem_of_snoc in Hk as [Hk|Hk]; [|simplify_eq; by exists (length st), new].
      destruct (O4 _ _ _ Hk) as (s & x & L & E). eauto.
    + destruct (O4 _ _ _ Hk) as (s & x & L & E). eauto.
  - destruct ok; [|done]. unfold connect_ids. rewrite omap_snoc. apply NoDup_app. split; [done|].
    split; [set_solver|apply NoDup_singleton].
  - intros s x [[_ L]|[_ <-]]%lookup_snoc_Some; rewrite FD; [by eapply O6|done].
  - intros k q Hk. assert (ForwardPayload k q ∈ sn) as Hk'.
    { destruct ok; [|done]. by apply elem_of_snoc in Hk as [?|?]. }
    destruct (O7 _ _ Hk') as (s & x & L & E). eauto.
  - intros k s [[<- <-]|[_ L]]%lookup_insert_Some; [by exists new|].
    destruct (O8 _ _ L) as (x & Lx & E). eauto.
  - intros t x k s T E. destruct (O9 _ _ _ _ T E) as (y & L & E'). eauto.
Qed.

Lemma lookup_add_out p (s : nat) (st : list AStream) (i : nat) x :
  alter (add_out p) s st !! i = Some x ->
  exists y, st !! i = Some y /\ a_id x = a_id y /\ a_host x = a_host y /\ a_in x = a_in y /\
            a_out x = if bool_decide (i = s) then a_out y ++ [p] else a_out y.
Proof.
  rewrite list_lookup_alter. case_decide as D; [subst|].
  - destruct (st !! i) as [y|]; simpl; [|done]. intros [= <-]. exists y.
    by rewrite bool_decide_true.
  - intros L. exists x. by rewrite bool_decide_false.
Qed.

Lemma lookup_add_out' p (s : nat) (st : list AStream) (i : nat) y :
  st !! i = Some y -> exists x, alter (add_out p) s st !! i = Some x /\ a_id x = a_id y /\ a_host x = a_host y.
Proof. intros L. rewrite list_lookup_alter. case_decide; subst; rewrite ?L; simpl; eauto. Qed.

Lemma opener_write t id s p sn tb fw hd st nx iss tk :
  tk !! t = Some (Opened id s) -> opener (Build_Core sn tb fw hd st nx iss tk) ->
  opener (Build_Core (sn ++ [ForwardPayload id p]) tb fw hd (alter (add_out p) s st) nx iss tk).
Proof.
  intros T [O1 O2 O3 O4 O5 O6 O7 O8 O9]. simpl in *.
  destruct (O9 _ _ _ _ T eq_refl) as (z & Lz & Ez).
  assert (forall (P : AStream -> Prop) i, (exists y, st !! i = Some y /\ P y) -> (forall x y, a_id x = a_id y ->
            a_host x = a_host y -> P y -> P x) -> exists x, alter (add_out p) s st !! i = Some x /\ P x) as UP.
  { intros P i (y & L & Py) HP. destruct (lookup_add_out' p s st i y L) as (x & Lx & E1 & E2). eauto. }
  split; simpl; try assumption.
  - intros i x (y & L & -> & _)%lookup_add_out. by eapply (O2 i).
  - intros i1 i2 x1 x2 (y1 & L1 & -> & _)%lookup_add_out (y2 & L2 & -> & _)%lookup_add_out. eauto.
  - intros k t' h [Hk|Hk]%elem_of_snoc; [|done]. destruct (O4 _ _ _ Hk) as (i & y & L & E).
    exists i. apply UP; [eauto|]. simpl. intros ? ? -> ->. done.
  - unfold connect_ids. rewrite omap_snoc. simpl. by rewrite app_nil_r.
  - intros i x (y & L & -> & _ & _ & ->)%lookup_add_out. unfold forward_data. rewrite omap_snoc.
    pose proof (O6 _ _ L) as E. unfold forward_data in E. rewrite E.
    destruct (decide (i = s)) as [->|N].
    + simplify_eq. by rewrite !bool_decide_true.
    + rewrite (bool_decide_false (i = s)) by done. rewrite bool_decide_false; [by rewrite app_nil_r|].
      intros E'. apply N. eapply O3; [done..|]. congruence.
  - intros k q [Hk|Hk]%elem_of_snoc.
    + destruct (O7 _ _ Hk) as (i & y & L & E). exists i. apply UP; [eauto|]. intros ? ? ->. done.
    + simplify_eq. exists s. apply UP; [eauto|]. intros ? ? ->. done.
  - intros k i L. apply UP; [by apply O8|]. intros ? ? ->. done.
  - intros t' x k i L E. apply UP; [by eapply O9|]. intros ? ? ->. done.
Qed.

Lemma opener_backward (ok : bool) k p sn tb fw hd st nx iss tk :
  opener (Build_Core sn tb fw hd st nx iss tk) ->
  opener (Build_Core (if ok then sn ++ [BackwardPayload k p] else sn) tb fw hd st nx iss tk).
Proof.
  intros [O1 O2 O3 O4 O5 O6 O7 O8 O9]. destruct ok; [|by split]. split; try assumption; simpl in *.
  - intros k' t h [I|I]%elem_of_snoc; [by eapply O4|done].
  - unfold connect_ids. rewrite omap_snoc. simpl. by rewrite app_nil_r.
  - intros s x L. unfold forward_data. rewrite omap_snoc. simpl. rewrite app_nil_r. by eapply O6.
  - intros k' q [I|I]%elem_of_snoc; [by eapply O7|done].
Qed.

Lemma move_issued c c' : move c c' -> c_issued c <= c_issued c'.
Proof. destruct 1; simpl; lia. Qed.

Lemma opener_move c c' : move c c' -> c_issued c' <= 2 ^ 32 -> opener c -> opener c'.
Proof.
  destruct 1; simpl; intros I O.
  - by apply opener_send.
  - eapply opener_frame; [exact O|]. apply holds_insert. by match goal with H : inert _ |- _ => apply H end.
  - eapply opener_frame; [exact O|]. apply holds_snoc. by match goal with H : inert _ |- _ => apply H end.
  - destruct O. split; try assumption. simpl. intros k s [_ L]%lookup_delete_Some. eauto.
  - eapply opener_frame; [exact O|]. eauto.
  - by apply opener_skip.
  - apply opener_open; [done|lia].
  - eapply opener_frame; [exact O|].
    intros t' x k s' [(-> & <- & _)|[_ L]]%list_lookup_insert_Some E; [right; by simplify_eq/=|eauto].
  - by eapply opener_write.
  - eapply opener_frame; [exact O|]. apply holds_insert.
    match goal with H : is_Some (pending ?y) |- _ => destruct H as [? P] end. by destruct y.
  - eapply opener_frame; [exact O|]. by apply holds_insert.
  - eapply opener_frame; [exact O|]. by apply holds_insert.
  - eapply opener_frame; [exact O|]. intros t' x k s T E.
    destruct (holds_snoc _ (ReadLoop f) (fun k s => hd !! k = Some s) eq_refl _ _ _ _ T E) as [(t0 & x0 & T0 & E0)|]; [|auto].
    by eapply (holds_insert _ _ (Registering id f) (fun k s => hd !! k = Some s) eq_refl _ _ _ _ T0).
  - eapply opener_frame; [exact O|]. by apply holds_insert.
  - eapply opener_frame; [exact O|]. by apply holds_insert.
  - apply opener_backward. eapply opener_frame; [exact O|]. by apply holds_insert.
Qed.

(** ** The dialling side keeps its books *)

(** [x'] stands for nothing [x] does not stand for. *)
Definition less (x' x : Task) : Prop :=
  (forall v, pending x' = Some v -> pending x = Some v) /\
  (forall v, unregistered x' = Some v -> unregistered x = Some v) /\
  (forall v, unstarted x' = Some v -> unstarted x = Some v) /\
  (forall v, loop_of x' = Some v -> loop_of x = Some v) /\
  (forall f p, x' = SendingBack f p -> x = SendingBack f p).

Definition idle (x : Task) : Prop := pending x = None /\ unregistered x = None /\ loop_of x = None.

Lemma idle_less x y : idle x -> less x y.
Proof. by destruct x; intros (? & ? & ?). Qed.

Lemma less_refl x : less x x.
Proof. by repeat split. Qed.

Lemma acceptor_tasks sn tb fw hd st nx iss tk hd' st' nx' iss' (tk' : list Task) :
  acceptor (Build_Core sn tb fw hd st nx iss tk) ->
  (forall t x, tk' !! t = Some x -> idle x \/ exists y, tk !! t = Some y /\ less x y) ->
  acceptor (Build_Core sn tb fw hd' st' nx' iss' tk').
Proof.
  intros [D1 D2 D3 D4 D5 D6 D7 D8 D9 D10 D11 D12 D13] H.
  assert (forall t x, tk' !! t = Some x -> ~ idle x -> exists y, tk !! t = Some y /\ less x y) as H'.
  { intros t x T N. destruct (H t x T) as [|]; [done|eauto]. }
  assert (forall x v, pending x = Some v -> ~ idle x) as NP by (intros x v E (? & _); congruence).
  assert (forall x v, unregistered x = Some v -> ~ idle x) as NU by (intros x v E (_ & ? & _); congruence).
  assert (forall x v, loop_of x = Some v -> ~ idle x) as NL by (intros x v E (_ & _ & ?); congruence).
  assert (forall x v, unstarted x = Some v -> ~ idle x) as NS.
  { intros x v E (_ & N & _). by destruct x. }
  split; simpl in *.
  - intros t x k f T E. destruct (H' _ _ T (NU _ _ E)) as (y & Ty & L). by eapply D1, L.
  - intros t x f T E. destruct (H' _ _ T (NL _ _ E)) as (y & Ty & L). by eapply D2, L.
  - done.
  - intros k f t x k' B T E. destruct (H' _ _ T (NU _ _ E)) as (y & Ty & L). by eapply D4, L.
  - intros t1 t2 x1 x2 k h1 h2 T1 T2 E1 E2.
    destruct (H' _ _ T1 (NP _ _ E1)) as (y1 & Ty1 & L1). destruct (H' _ _ T2 (NP _ _ E2)) as (y2 & Ty2 & L2).
    eapply D5; [exact Ty1|exact Ty2|by apply L1|by apply L2].
  - intros t x k h f a T E F. destruct (H' _ _ T (NP _ _ E)) as (y & Ty & L). by eapply D6, F; [|apply L].
  - done.
  - intros t1 t2 x1 x2 k1 k2 f T1 T2 E1 E2.
    destruct (H' _ _ T1 (NU _ _ E1)) as (y1 & Ty1 & L1). destruct (H' _ _ T2 (NU _ _ E2)) as (y2 & Ty2 & L2).
    eapply D8; [exact Ty1|exact Ty2|by apply L1|by apply L2].
  - intros t1 t2 x1 x2 f T1 T2 E1 E2.
    destruct (H' _ _ T1 (NL _ _ E1)) as (y1 & Ty1 & L1). destruct (H' _ _ T2 (NL _ _ E2)) as (y2 & Ty2 & L2).
    eapply D9; [exact Ty1|exact Ty2|by apply L1|by apply L2].
  - intros t1 t2 x1 x2 k f T1 T2 E1 E2.
    destruct (H' _ _ T1 (NS _ _ E1)) as (y1 & Ty1 & L1). destruct (H' _ _ T2 (NL _ _ E2)) as (y2 & Ty2 & L2).
    eapply D10; [exact Ty1|exact Ty2|by apply L1|by apply L2].
  - done.
  - intros t f a p T F. destruct (H' _ _ T (NL (SendingBack f p) f eq_refl)) as (y & Ty & L).
    eapply D12; [|done]. rewrite Ty. f_equal. by apply L.
  - done.
Qed.

Lemma less_insert (tk : list Task) (t : nat) x y :
  tk !! t = Some y -> less x y ->
  forall t' x', <[t := x]> tk !! t' = Some x' -> idle x' \/ exists y', tk !! t' = Some y' /\ less x' y'.
Proof. intros T L t' x' [(-> & <- & _)|[_ E]]%list_lookup_insert_Some; eauto using less_refl. Qed.

Lemma idle_insert (tk : list Task) (t : nat) x :
  idle x -> forall t' x', <[t := x]> tk !! t' = Some x' -> idle x' \/ exists y', tk !! t' = Some y' /\ less x' y'.
Proof. intros L t' x' [(-> & <- & _)|[_ E]]%list_lookup_insert_Some; eauto using less_refl. Qed.

Lemma idle_snoc (tk : list Task) x :
  idle x -> forall t' x', (tk ++ [x]) !! t' = Some x' -> idle x' \/ exists y', tk !! t' = Some y' /\ less x' y'.
Proof. intros L t' x' [[_ E]|[_ <-]]%lookup_snoc_Some; eauto using less_refl. Qed.

Lemma acceptor_sent sn tb fw hd st nx iss tk sn' hd' st' nx' iss' :
  acceptor (Build_Core sn tb fw hd st nx iss tk) ->
  (forall k, backward_data k sn' = backward_data k sn) ->
  acceptor (Build_Core sn' tb fw hd' st' nx' iss' tk).
Proof.
  intros [D1 D2 D3 D4 D5 D6 D7 D8 D9 D10 D11 D12 D13] H. split; try assumption; simpl in *.
  - intros f a F. rewrite H. eauto.
  - intros t f a p T F. rewrite H. eauto.
  - intros k p I. assert (p ∈ backward_data k sn') as P.
    { apply list_elem_of_omap. exists (BackwardPayload k p). by rewrite bool_decide_true. }
    rewrite H in P. apply list_elem_of_omap in P as (q & Q & G). destruct q; try done.
    case_bool_decide; simplify_eq. eauto.
Qed.

(** Splits every look-up in an updated or extended list of the goal. *)
Ltac split_lookups :=
  repeat match goal with
  | H : <[_ := _]> _ !! _ = Some _ |- _ =>
      apply list_lookup_insert_Some in H as [(-> & ? & _)|[? H]]
  | H : (_ ++ [_]) !! _ = Some _ |- _ => apply lookup_snoc_Some in H as [[? H]|[-> ?]]
  end; simplify_eq/=.

Lemma acceptor_dialled t x k host sn tb fw hd st nx iss tk :
  acceptor (Build_Core sn tb fw hd st nx iss tk) -> tk !! t = Some x -> pending x = Some (k, host) ->
  acceptor (Build_Core sn tb (fw ++ [{| f_id := k; f_host := host; f_got := []; f_reads := [] |}]) hd st nx iss
              (<[t := Announcing k (length fw)]> tk)).
Proof.
  intros [D1 D2 D3 D4 D5 D6 D7 D8 D9 D10 D11 D12 D13] T P. simpl in *.
  set (new := {| f_id := k; f_host := host; f_got := []; f_reads := [] |}).
  assert (forall f : nat, f = length fw -> (fw ++ [new]) !! f = Some new) as LN.
  { intros f ->. by rewrite lookup_app_r, Nat.sub_diag by lia. }
  assert (forall f : nat, is_Some (fw !! f) -> f <> length fw) as NE.
  { intros f [a F%lookup_lt_Some] ->. lia. }
  assert (backward_data k sn = []) as NB.
  { destruct (backward_data k sn) as [|d l] eqn:E; [done|].
    assert (d ∈ backward_data k sn) as Dd by (rewrite E; set_solver).
    apply list_elem_of_omap in Dd as (p & Pp & G). destruct p; try done. case_bool_decide; simplify_eq.
    destruct (D13 _ _ Pp) as (f & a & F & E'). by destruct (D6 _ _ _ _ _ _ T P F). }
  split; simpl.
  - intros t' x' k' f T' E. split_lookups; [eauto|].
    destruct (D1 _ _ _ _ T' E) as (a & F & ?). exists a. split; [by apply lookup_app_l_Some|done].
  - intros t' x' f T' E. split_lookups. destruct (D2 _ _ _ T' E) as [a F]. exists a. by apply lookup_app_l_Some.
  - intros k' f B. destruct (D3 _ _ B) as (a & F & ?). exists a. split; [by apply lookup_app_l_Some|done].
  - intros k' f t' x' k2 B T' E. split_lookups; [|by eapply D4].
    destruct (D3 _ _ B) as (a & F & ?). by apply (NE (length fw)).
  - intros t1 t2 x1 x2 k' h1 h2 T1 T2 E1 E2. split_lookups. by eapply D5.
  - intros t' x' k' h f a T' E F. split_lookups; [by eapply D6|]. intros ->.
    match goal with N : t <> t' |- _ => apply N end. by eapply D5.
  - intros f1 f2 a1 a2 F1 F2 E. split_lookups; [by eapply D7| | |done].
    + by destruct (D6 _ _ _ _ _ _ T P F2).
    + by destruct (D6 _ _ _ _ _ _ T P F1).
  - intros t1 t2 x1 x2 k1 k2 f T1 T2 E1 E2. split_lookups; [done| | |by eapply D8].
    + destruct (D1 _ _ _ _ T1 E1) as (a & F & _). apply lookup_lt_Some in F; lia.
    + destruct (D1 _ _ _ _ T2 E2) as (a & F & _). apply lookup_lt_Some in F; lia.
  - intros t1 t2 x1 x2 f T1 T2 E1 E2. split_lookups. by eapply D9.
  - intros t1 t2 x1 x2 k' f T1 T2 E1 E2. split_lookups; [|exact (D10 _ _ _ _ _ _ T1 T2 E1 E2)].
    destruct (D2 _ _ _ T2 E2) as [a F]. apply lookup_lt_Some in F; lia.
  - intros f a F. split_lookups; [exact (D11 _ _ F)|]. by rewrite NB.
  - intros t' f a p T' F. split_lookups; [exact (D12 _ _ _ _ T' F)|].
    destruct (D2 _ _ _ T' eq_refl) as [a F]. apply lookup_lt_Some in F; lia.
  - intros k' p I. destruct (D13 _ _ I) as (f & a & F & ?). exists f, a.
    split; [by apply lookup_app_l_Some|done].
Qed.

Lemma acceptor_start t k f sn tb fw hd st nx iss tk :
  acceptor (Build_Core sn tb fw hd st nx iss tk) -> tk !! t = Some (Starting k f) ->
  acceptor (Build_Core sn tb fw hd st nx iss (<[t := Registering k f]> tk ++ [ReadLoop f])).
Proof.
  intros A0 T. assert (A := A0). eapply (acceptor_tasks _ _ _ _ _ _ _ _ hd st nx iss) in A; [|by eapply (less_insert _ t (Registering k f))].
  destruct A0 as [E1 _ _ _ _ _ _ E8 _ E10 _ _ _]. simpl in *.
  assert (forall (t' : nat) x', <[t := Registering k f]> tk !! t' = Some x' -> loop_of x' <> Some f) as NL.
  { intros t' x' T' E. split_lookups. exact (E10 _ _ _ _ _ _ T T' eq_refl E). }
  assert (forall (t' : nat) x' k', <[t := Registering k f]> tk !! t' = Some x' -> unstarted x' <> Some (k', f)) as NS.
  { intros t' x' k' T' E. split_lookups.
    assert (unregistered x' = Some (k', f)) as E' by (by destruct x'; simplify_eq/=).
    by assert (t = t') by exact (E8 _ _ _ _ _ _ _ T T' eq_refl E'). }
  destruct A as [D1 D2 D3 D4 D5 D6 D7 D8 D9 D10 D11 D12 D13]. simpl in *.
  generalize dependent (<[t := Registering k f]> tk). intros tk' D1 D2 D4 D5 D6 D8 D9 D10 D12 NL NS.
  destruct (E1 _ _ _ _ T eq_refl) as (a0 & F0 & _).
  split; simpl; try assumption.
  - intros t' x k' f' T' E. split_lookups. eauto.
  - intros t' x f' T' E. split_lookups; eauto.
  - intros k' f' t' x k2 B T' E. split_lookups. eauto.
  - intros t1 t2 x1 x2 k' h1 h2 T1 T2 P1 P2. split_lookups. exact (D5 _ _ _ _ _ _ _ T1 T2 P1 P2).
  - intros t' x k' h f' a T' P F. split_lookups. eauto.
  - intros t1 t2 x1 x2 k1 k2 f' T1 T2 P1 P2. split_lookups. exact (D8 _ _ _ _ _ _ _ T1 T2 P1 P2).
  - intros t1 t2 x1 x2 f' T1 T2 P1 P2. split_lookups; [exact (D9 _ _ _ _ _ T1 T2 P1 P2)| | |done];
      by edestruct NL.
  - intros t1 t2 x1 x2 k' f' T1 T2 P1 P2. split_lookups; [exact (D10 _ _ _ _ _ _ T1 T2 P1 P2)|].
    by edestruct NS.
  - intros t' f' a p T' F. split_lookups. eauto.
Qed.

Lemma acceptor_register t k f sn tb fw hd st nx iss tk :
  acceptor (Build_Core sn tb fw hd st nx iss tk) -> tk !! t = Some (Registering k f) ->
  acceptor (Build_Core sn (<[k := f]> tb) fw hd st nx iss (<[t := Done]> tk)).
Proof.
  intros A0 T. assert (A := A0). eapply (acceptor_tasks _ _ _ _ _ _ _ _ hd st nx iss) in A; [|by apply (idle_insert _ t Done)].
  destruct A0 as [E1 _ _ _ _ _ _ E8 _ _ _ _ _]. simpl in *.
  destruct A as [D1 D2 D3 D4 D5 D6 D7 D8 D9 D10 D11 D12 D13]. split; try assumption; simpl in *.
  - intros k' f' [[<- <-]|[_ B]]%lookup_insert_Some; [|by apply D3].
    destruct (E1 _ _ _ _ T eq_refl) as (a & F & E & _). eauto.
  - intros k' f' t' x k2 [[<- <-]|[_ B]]%lookup_insert_Some T' E; [|by eapply D4].
    split_lookups. by assert (t = t') by exact (E8 _ _ _ _ _ _ _ T T' eq_refl E).
Qed.

Lemma lookup_add_reads p (f : nat) (fw : list AForward) (i : nat) x :
  alter (add_reads p) f fw !! i = Some x ->
  exists y, fw !! i = Some y /\ f_id x = f_id y /\ f_host x = f_host y /\ f_got x = f_got y /\
            f_reads x = if bool_decide (i = f) then f_reads y ++ [p] else f_reads y.
Proof.
  rewrite list_lookup_alter. case_decide as D; [subst|].
  - destruct (fw !! i) as [y|]; simpl; [|done]. intros [= <-]. exists y. by rewrite bool_decide_true.
  - intros L. exists x. by rewrite bool_decide_false.
Qed.

Lemma lookup_add_reads' p (f : nat) (fw : list AForward) (i : nat) y :
  fw !! i = Some y ->
  exists x, alter (add_reads p) f fw !! i = Some x /\ f_id x = f_id y /\ f_got x = f_got y.
Proof. intros L. rewrite list_lookup_alter. case_decide; subst; rewrite ?L; simpl; eauto. Qed.

Lemma acceptor_read t f p sn tb fw hd st nx iss tk :
  acceptor (Build_Core sn tb fw hd st nx iss tk) -> tk !! t = Some (ReadLoop f) ->
  acceptor (Build_Core sn tb (alter (add_reads p) f fw) hd st nx iss (<[t := SendingBack f p]> tk)).
Proof.
  intros [D1 D2 D3 D4 D5 D6 D7 D8 D9 D10 D11 D12 D13] T. simpl in *.
  assert (forall (Q : AForward -> Prop) i, (exists y, fw !! i = Some y /\ Q y) ->
            (forall x y, f_id x = f_id y -> f_got x = f_got y -> Q y -> Q x) ->
            exists x, alter (add_reads p) f fw !! i = Some x /\ Q x) as UP.
  { intros Q i (y & L & Qy) HQ. destruct (lookup_add_reads' p f fw i y L) as (x & Lx & E1 & E2). eauto. }
  split; simpl.
  - intros t' x k f' T' E. split_lookups. apply UP; [by eapply D1|]. by intros ? ? -> ->.
  - intros t' x f' T' E. split_lookups.
    + destruct (D2 _ _ _ T eq_refl) as [a F]. destruct (lookup_add_reads' p f' fw f' a F) as (y & L & _). eauto.
    + destruct (D2 _ _ _ T' E) as [a F]. destruct (lookup_add_reads' p f fw f' a F) as (y & L & _). eauto.
  - intros k f' B. apply UP; [by eapply D3|]. by intros ? ? ->.
  - intros k f' t' x k' B T' E. split_lookups. by eapply D4.
  - intros t1 t2 x1 x2 k h1 h2 T1 T2 P1 P2. split_lookups. exact (D5 _ _ _ _ _ _ _ T1 T2 P1 P2).
  - intros t' x k h f' a T' P (y & F & -> & _)%lookup_add_reads. split_lookups. by eapply D6.
  - intros f1 f2 a1 a2 (y1 & F1 & -> & _)%lookup_add_reads (y2 & F2 & -> & _)%lookup_add_reads. eauto.
  - intros t1 t2 x1 x2 k1 k2 f' T1 T2 P1 P2. split_lookups. exact (D8 _ _ _ _ _ _ _ T1 T2 P1 P2).
  - intros t1 t2 x1 x2 f' T1 T2 P1 P2. split_lookups; [done| | |exact (D9 _ _ _ _ _ T1 T2 P1 P2)].
    + exact (D9 _ _ _ _ _ T1 T P1 eq_refl).
    + exact (D9 _ _ _ _ _ T T2 eq_refl P2).
  - intros t1 t2 x1 x2 k f' T1 T2 P1 P2. split_lookups; [exact (D10 _ _ _ _ _ _ T1 T P1 eq_refl)|].
    exact (D10 _ _ _ _ _ _ T1 T2 P1 P2).
  - intros f' a (y & F & -> & _ & _ & ->)%lookup_add_reads. etrans; [exact (D11 _ _ F)|].
    case_bool_decide; [by apply sublist_inserts_r|done].
  - intros t' f' a q T' (y & F & -> & _ & _ & ->)%lookup_add_reads. split_lookups.
    + rewrite bool_decide_true by done. apply sublist_app; [exact (D11 _ _ F)|done].
    + etrans; [exact (D12 _ _ _ _ T' F)|]. case_bool_decide; [by apply sublist_inserts_r|done].
  - intros k q I. destruct (D13 _ _ I) as (f' & y & F & E). exists f'. apply UP; [eauto|]. by intros ? ? ->.
Qed.

Lemma acceptor_back (ok : bool) t f c p sn tb fw hd st nx iss tk :
  acceptor (Build_Core sn tb fw hd st nx iss tk) -> tk !! t = Some (SendingBack f p) -> fw !! f = Some c ->
  acceptor (Build_Core (if ok then sn ++ [BackwardPayload (f_id c) p] else sn) tb fw hd st nx iss
              (<[t := ReadLoop f]> tk)).
Proof.
  intros A0 T F0. assert (A := A0). eapply (acceptor_tasks _ _ _ _ _ _ _ _ hd st nx iss) in A; [|by apply (less_insert _ t (ReadLoop f) _ T)].
  destruct ok; [|done]. destruct A0 as [_ _ _ _ _ _ E7 _ E9 _ _ E12 _]. simpl in *.
  destruct A as [D1 D2 D3 D4 D5 D6 D7 D8 D9 D10 D11 D12 D13]. split; try assumption; simpl in *.
  - intros f' a F. unfold backward_data. rewrite omap_snoc. case_bool_decide as E.
    + assert (f' = f) as -> by (by eapply E7). simplify_eq. exact (E12 _ _ _ _ T F0).
    + rewrite app_nil_r. exact (D11 _ _ F).
  - intros t' f' a q T' F. split_lookups. unfold backward_data. rewrite omap_snoc. case_bool_decide as E.
    + assert (f' = f) as -> by (by eapply E7). by destruct (E9 _ _ _ _ _ T T' eq_refl eq_refl).
    + rewrite app_nil_r. exact (E12 _ _ _ _ T' F).
  - intros k q [I|I]%elem_of_snoc; [by eapply D13|]. simplify_eq. eauto.
Qed.

Lemma acceptor_move c c' : move c c' -> acceptor c -> acceptor c'.
Proof.
  destruct 1; intros A.
  - eapply acceptor_sent; [exact A|]. intros k. by apply control_backward.
  - eapply acceptor_tasks; [exact A|]. apply idle_insert. by match goal with H : inert _ |- _ => destruct H as (? & ? & ? & _) end.
  - eapply acceptor_tasks; [exact A|]. apply idle_snoc. by match goal with H : inert _ |- _ => destruct H as (? & ? & ? & _) end.
  - by eapply acceptor_sent.
  - destruct A as [D1 D2 D3 D4 D5 D6 D7 D8 D9 D10 D11 D12 D13]. split; try assumption; simpl in *.
    + intros k f [_ L]%lookup_delete_Some. eauto.
    + intros k f t x k' [_ L]%lookup_delete_Some. eauto.
  - by eapply acceptor_sent.
  - eapply acceptor_sent; [exact A|]. intros k. destruct ok; [|done].
    unfold backward_data. rewrite omap_snoc. simpl. by rewrite app_nil_r.
  - eapply acceptor_tasks; [exact A|]. by apply idle_insert.
  - eapply acceptor_sent; [exact A|]. intros k.
    unfold backward_data. rewrite omap_snoc. simpl. by rewrite app_nil_r.
  - eapply acceptor_tasks; [exact A|]. eapply less_insert; [done|]. unfold less.
    match goal with H : is_Some _, E : pending _ = pending _ |- _ => destruct H as [v Hv]; rewrite E end.
    by destruct y.
  - by eapply acceptor_dialled.
  - eapply acceptor_tasks; [exact A|]. by eapply less_insert.
  - by apply acceptor_start.
  - by eapply acceptor_register.
  - by apply acceptor_read.
  - by apply acceptor_back.
Qed.

(** ** What the two sides know of each other

    [x] opens, [y] dials; [x] has handled [sx] packets of [y], and [y] has
    handled [sy] packets of [x]. *)
Record link (x y : Core) (sx sy : nat) : Prop := {
  k_seen : (sx <= length (c_sent y))%nat /\ (sy <= length (c_sent x))%nat;
  k_in : forall s st, c_streams x !! s = Some st ->
           a_in st `sublist_of` backward_data (a_id st) (take sx (c_sent y));
  k_pending : forall t z k h, c_tasks y !! t = Some z -> pending z = Some (k, h) ->
           exists tm, Connect k tm h ∈ take sy (c_sent x);
  k_forward : forall f a, c_forwards y !! f = Some a ->
           exists tm, Connect (f_id a) tm (f_host a) ∈ take sy (c_sent x);
  k_got : forall f a, c_forwards y !! f = Some a ->
           exists pre post, forward_data (f_id a) (take sy (c_sent x)) = pre ++ f_got a ++ post /\
                            (c_table y !! f_id a = Some f -> post = [])
}.

Lemma move_sent c c' : move c c' -> exists l, c_sent c' = c_sent c ++ l.
Proof.
  destruct 1; simpl; try (by exists []; rewrite app_nil_r); eauto.
  - destruct ok; eauto. exists []. by rewrite app_nil_r.
  - destruct ok; eauto. exists []. by rewrite app_nil_r.
Qed.

Lemma move_streams c c' : move c c' -> forall s st', c_streams c' !! s = Some st' ->
  a_in st' = [] \/ exists st, c_streams c !! s = Some st /\ a_id st' = a_id st /\ a_in st' = a_in st.
Proof.
  destruct 1; simpl; intros s' st' L; eauto.
  - apply lookup_snoc_Some in L as [[_ L]|[_ <-]]; eauto.
  - apply lookup_add_out in L as (y & L & E & _ & E' & _). eauto.
Qed.

Lemma link_opener x x' y sx sy : move x x' -> link x y sx sy -> link x' y sx sy.
Proof.
  intros M [[K0 K0'] K1 K2 K3 K4]. destruct (move_sent _ _ M) as [l E].
  assert (take sy (c_sent x') = take sy (c_sent x)) as T by (by rewrite E, take_app_le by lia).
  split; rewrite ?T; try assumption.
  - split; [done|]. rewrite E, length_app. lia.
  - intros s st' L. destruct (move_streams _ _ M _ _ L) as [-> | (st & L0 & -> & ->)];
      [apply sublist_nil_l | by eapply K1].
Qed.

Lemma move_pending c c' : move c c' -> forall t' x' v, c_tasks c' !! t' = Some x' -> pending x' = Some v ->
  exists t x, c_tasks c !! t = Some x /\ pending x = Some v.
Proof.
  destruct 1; simpl; intros t' x' v T P; try (by eauto); split_lookups; eauto;
    try (match goal with H : inert ?z |- _ => destruct H as (? & _); congruence end).
  match goal with E : pending _ = pending _ |- _ => rewrite <-E in P; eauto end.
Qed.

Lemma move_forwards c c' : move c c' -> forall f a', c_forwards c' !! f = Some a' ->
  (exists a, c_forwards c !! f = Some a /\ f_id a' = f_id a /\ f_host a' = f_host a /\ f_got a' = f_got a) \/
  (f_got a' = [] /\ c_forwards c !! f = None /\ c_table c' = c_table c /\
   exists t x, c_tasks c !! t = Some x /\ pending x = Some (f_id a', f_host a')).
Proof.
  destruct 1; simpl; intros f' a' L; try (by left; eauto 10).
  - apply lookup_snoc_Some in L as [[_ L]|[-> <-]]; [left; eauto|]. right.
    split_and!; [done|by apply lookup_ge_None|done|eauto].
  - apply lookup_add_reads in L as (y & L & ? & ? & ? & _). left. eauto 10.
Qed.

Lemma move_table c c' : move c c' -> forall k f, c_table c' !! k = Some f ->
  c_table c !! k = Some f \/ exists t x, c_tasks c !! t = Some x /\ unregistered x = Some (k, f).
Proof.
  destruct 1; simpl; intros k' f' L; eauto.
  - apply lookup_delete_Some in L as [_ L]. eauto.
  - apply lookup_insert_Some in L as [[<- <-]|[_ L]]; eauto.
Qed.

Lemma link_acceptor x y y' sx sy : acceptor y -> move y y' -> link x y sx sy -> link x y' sx sy.
Proof.
  intros A M [[K0 K0'] K1 K2 K3 K4]. destruct (move_sent _ _ M) as [l E].
  assert (take sx (c_sent y') = take sx (c_sent y)) as T by (by rewrite E, take_app_le by lia).
  split; rewrite ?T; try assumption.
  - split; [rewrite E, length_app; lia|done].
  - intros t z k h Tz P. destruct (move_pending _ _ M _ _ _ Tz P) as (t0 & z0 & T0 & P0). eauto.
  - intros f a' F. destruct (move_forwards _ _ M _ _ F) as [(a & F0 & -> & -> & _)|(_ & _ & _ & t & z & T0 & P0)]; eauto.
  - intros f a' F. destruct (move_forwards _ _ M _ _ F) as [(a & F0 & Ei & _ & Eg)|(Eg & Fn & Et & _)].
    + destruct (K4 _ _ F0) as (pre & post & W & Post). rewrite Ei, Eg.
      destruct (decide (f_got a = [])) as [G|G].
      * exists (pre ++ f_got a ++ post), []. rewrite W, G. simpl. by rewrite !app_nil_r.
      * exists pre, post. split; [done|]. intros B. destruct (move_table _ _ M _ _ B) as [B0|(t & z & Tz & U)]; [auto|].
        destruct (d_unregistered _ A _ _ _ _ Tz U) as (a0 & F1 & _ & G0). simplify_eq.
    + rewrite Eg. eexists _, []. simpl. by rewrite app_nil_r.
Qed.

(** Packets are handled one by one. *)
Lemma take_seen (ps : list TcpGatewayContract) s p : ps !! s = Some p -> take (S s) ps = take s ps ++ [p].
Proof. apply take_S_r. Qed.

Lemma link_seen_x x y sx sy p :
  c_sent y !! sx = Some p -> link x y sx sy -> link x y (S sx) sy.
Proof.
  intros L [[K0 K0'] K1 K2 K3 K4]. split; try assumption.
  - apply lookup_lt_Some in L. lia.
  - intros s st S. etrans; [by eapply K1|]. rewrite (take_seen _ _ _ L).
    unfold backward_data. rewrite omap_snoc. by apply sublist_inserts_r.
Qed.

Lemma link_seen_y x y sx sy p :
  c_sent x !! sy = Some p -> (forall k d, p = ForwardPayload k d -> c_table y !! k = None) ->
  link x y sx sy -> link x y sx (S sy).
Proof.
  intros L N [[K0 K0'] K1 K2 K3 K4]. split; try assumption; rewrite ?(take_seen _ _ _ L).
  - apply lookup_lt_Some in L. lia.
  - intros t z k h T P. destruct (K2 _ _ _ _ T P) as [tm I]. exists tm. set_solver.
  - intros f a F. destruct (K3 _ _ F) as [tm I]. exists tm. set_solver.
  - intros f a F. destruct (K4 _ _ F) as (pre & post & W & Post).
    unfold forward_data in *. rewrite omap_snoc, W, <-!app_assoc. eexists pre, _. split; [done|].
    intros B. rewrite (Post B). simpl. destruct p; simpl; try done. case_bool_decide; [|done].
    subst. by rewrite (N _ _ eq_refl) in B.
Qed.

Record good (l r : Core) (sl sr : nat) : Prop := {
  g_opener_l : opener l; g_opener_r : opener r;
  g_acceptor_l : acceptor l; g_acceptor_r : acceptor r;
  g_link_l : link l r sl sr; g_link_r : link r l sr sl
}.

Lemma good_sym l r sl sr : good l r sl sr -> good r l sr sl.
Proof. by intros []. Qed.

Lemma good_move l l' r sl sr : move l l' -> c_issued l' <= 2 ^ 32 -> good l r sl sr -> good l' r sl sr.
Proof.
  intros M I []. split; eauto using opener_move, acceptor_move, link_opener, link_acceptor.
Qed.

Lemma moves_issued c c' : rtc move c c' -> c_issued c <= c_issued c'.
Proof. induction 1 as [|c1 c2 c3 M _ IH]; [done|]. apply move_issued in M. lia. Qed.

Lemma good_moves l l' r sl sr : rtc move l l' -> c_issued l' <= 2 ^ 32 -> good l r sl sr -> good l' r sl sr.
Proof.
  induction 1 as [|c1 c2 c3 M Ms IH]; [done|]. intros I G. apply IH; [done|].
  eapply good_move; [done| |done]. apply moves_issued in Ms. lia.
Qed.

Lemma good_seen l r sl sr p :
  c_sent r !! sl = Some p -> (forall k d, p = ForwardPayload k d -> c_table l !! k = None) ->
  good l r sl sr -> good l r (S sl) sr.
Proof. intros L N []. split; eauto using link_seen_x, link_seen_y. Qed.

(** *** The packets that carry data or open a connection *)

Lemma lookup_add_in p (s : nat) (st : list AStream) (i : nat) x :
  alter (add_in p) s st !! i = Some x ->
  exists y, st !! i = Some y /\ a_id x = a_id y /\ a_host x = a_host y /\ a_out x = a_out y /\
            a_in x = if bool_decide (i = s) then a_in y ++ [p] else a_in y.
Proof.
  rewrite list_lookup_alter. case_decide as D; [subst|].
  - destruct (st !! i) as [y|]; simpl; [|done]. intros [= <-]. exists y. by rewrite bool_decide_true.
  - intros L. exists x. by rewrite bool_decide_false.
Qed.

Lemma lookup_add_in' p (s : nat) (st : list AStream) (i : nat) (Q : AStream -> Prop) :
  (exists y, st !! i = Some y /\ Q y) ->
  (forall x y, a_id x = a_id y -> a_host x = a_host y -> Q y -> Q x) ->
  exists x, alter (add_in p) s st !! i = Some x /\ Q x.
Proof.
  intros (y & L & Qy) HQ. rewrite list_lookup_alter. case_decide; subst; rewrite ?L; simpl; [|eauto].
  eexists. split; [done|]. by eapply HQ, Qy.
Qed.

Lemma opener_add_in p s sn tb fw hd st nx iss tk :
  opener (Build_Core sn tb fw hd st nx iss tk) ->
  opener (Build_Core sn tb fw hd (alter (add_in p) s st) nx iss tk).
Proof.
  intros [O1 O2 O3 O4 O5 O6 O7 O8 O9]. split; simpl in *; try assumption.
  - intros i x (y & L & -> & _)%lookup_add_in. by eapply (O2 i).
  - intros i1 i2 x1 x2 (y1 & L1 & -> & _)%lookup_add_in (y2 & L2 & -> & _)%lookup_add_in. eauto.
  - intros k t h I. destruct (O4 _ _ _ I) as (i & ?). exists i. apply lookup_add_in'; [done|]. by intros ? ? -> ->.
  - intros i x (y & L & -> & _ & -> & _)%lookup_add_in. eauto.
  - intros k q I. destruct (O7 _ _ I) as (i & ?). exists i. apply lookup_add_in'; [done|]. by intros ? ? ->.
  - intros k i L. apply lookup_add_in'; [by apply O8|]. by intros ? ? ->.
  - intros t x k i L E. apply lookup_add_in'; [by eapply O9|]. by intros ? ? ->.
Qed.

(** Data for a stream: what it holds is still in the order it was sent. *)
Lemma good_backward k d s r sl sr sn tb fw hd st nx iss tk :
  let l := Build_Core sn tb fw hd st nx iss tk in
  c_sent r !! sl = Some (BackwardPayload k d) -> hd !! k = Some s -> good l r sl sr ->
  good (Build_Core sn tb fw hd (alter (add_in d) s st) nx iss tk) r (S sl) sr.
Proof.
  intros l L H G. assert (G' := good_seen _ _ _ _ _ L ltac:(done) G).
  destruct G as [Ol Or Al Ar Ll Lr], G' as [_ _ _ _ Ll' Lr']. split; try assumption.
  - by apply opener_add_in.
  - by eapply acceptor_sent.
  - destruct Ll' as [K0 _ K2 K3 K4]. split; try assumption. simpl.
    intros i x (y & Ly & -> & _ & _ & ->)%lookup_add_in. pose proof (k_in _ _ _ _ Ll _ _ Ly) as I.
    rewrite (take_seen _ _ _ L). unfold backward_data in *. rewrite omap_snoc.
    case_bool_decide; [|by apply sublist_inserts_r]. subst i.
    destruct (o_handler _ Ol _ _ H) as (z & Lz & Ez). simpl in Lz. simplify_eq.
    rewrite bool_decide_true by done. by apply sublist_app.
  - destruct Lr' as [K0 K1 K2 K3 K4]. by split.
Qed.

Lemma lookup_add_got p (f : nat) (fw : list AForward) (i : nat) x :
  alter (add_got p) f fw !! i = Some x ->
  exists y, fw !! i = Some y /\ f_id x = f_id y /\ f_host x = f_host y /\ f_reads x = f_reads y /\
            f_got x = if bool_decide (i = f) then f_got y ++ [p] else f_got y.
Proof.
  rewrite list_lookup_alter. case_decide as D; [subst|].
  - destruct (fw !! i) as [y|]; simpl; [|done]. intros [= <-]. exists y. by rewrite bool_decide_true.
  - intros L. exists x. by rewrite bool_decide_false.
Qed.

Lemma lookup_add_got' p (f : nat) (fw : list AForward) (i : nat) y :
  fw !! i = Some y -> exists x, alter (add_got p) f fw !! i = Some x /\ f_id x = f_id y /\ (i <> f -> x = y).
Proof. intros L. rewrite list_lookup_alter. case_decide; subst; rewrite ?L; simpl; eexists; by split_and!. Qed.

Lemma acceptor_add_got d k f sn tb fw hd st nx iss tk :
  tb !! k = Some f -> acceptor (Build_Core sn tb fw hd st nx iss tk) ->
  acceptor (Build_Core sn tb (alter (add_got d) f fw) hd st nx iss tk).
Proof.
  intros B [D1 D2 D3 D4 D5 D6 D7 D8 D9 D10 D11 D12 D13]. split; simpl in *; try assumption.
  - intros t x k' f' T U. destruct (D1 _ _ _ _ T U) as (a & F & E & G).
    destruct (lookup_add_got' d f fw f' a F) as (x' & F' & E' & NE). exists x'.
    assert (f' <> f) as N by (intros ->; by eapply D4). by rewrite (NE N) in *.
  - intros t x f' T E. destruct (D2 _ _ _ T E) as [a F].
    destruct (lookup_add_got' d f fw f' a F) as (x' & F' & _). eauto.
  - intros k' f' B'. destruct (D3 _ _ B') as (a & F & E).
    destruct (lookup_add_got' d f fw f' a F) as (x' & F' & E' & _). exists x'. by rewrite E'.
  - intros t x k' h f' a T P (y & F & -> & _)%lookup_add_got. by eapply D6.
  - intros f1 f2 a1 a2 (y1 & F1 & -> & _)%lookup_add_got (y2 & F2 & -> & _)%lookup_add_got. eauto.
  - intros f' a (y & F & -> & _ & -> & _)%lookup_add_got. eauto.
  - intros t f' a q T (y & F & -> & _ & -> & _)%lookup_add_got. eauto.
  - intros k' q I. destruct (D13 _ _ I) as (f' & a & F & E).
    destruct (lookup_add_got' d f fw f' a F) as (x' & F' & E' & _). exists f', x'. by rewrite E'.
Qed.

(** Data for a registered connection: the service has got everything since
    the registration. *)
Lemma good_forward k d f r sl sr sn tb fw hd st nx iss tk :
  let l := Build_Core sn tb fw hd st nx iss tk in
  c_sent r !! sl = Some (ForwardPayload k d) -> tb !! k = Some f -> good l r sl sr ->
  good (Build_Core sn tb (alter (add_got d) f fw) hd st nx iss tk) r (S sl) sr.
Proof.
  intros l L B [Ol Or Al Ar Ll Lr]. assert (Ll' := link_seen_x _ _ _ _ _ L Ll). split; try assumption.
  - eapply opener_frame; [exact Ol|]. eauto.
  - by eapply acceptor_add_got.
  - destruct Ll' as [K0 K1 K2 K3 K4]. by split.
  - destruct Lr as [[K0 K0'] K1 K2 K3 K4]. simpl in *.
    split; simpl; try assumption; rewrite ?(take_seen _ _ _ L).
    + apply lookup_lt_Some in L. lia.
    + intros t z k' h T P. destruct (K2 _ _ _ _ T P) as [tm I]. exists tm. set_solver.
    + intros f' a (y & F & -> & -> & _)%lookup_add_got. destruct (K3 _ _ F) as [tm I]. exists tm. set_solver.
    + intros f' a (y & F & -> & _ & _ & ->)%lookup_add_got. destruct (K4 _ _ F) as (pre & post & W & Post).
      destruct (d_table _ Al _ _ B) as (z & Fz & Ez). simpl in Fz.
      unfold forward_data in *. rewrite omap_snoc, W, <-!app_assoc.
      destruct (decide (f' = f)) as [->|D].
      * simplify_eq. rewrite (Post B), !bool_decide_true by done. simpl. exists pre, [].
        by rewrite app_nil_r.
      * rewrite (bool_decide_false (f' = f)) by done.
        rewrite bool_decide_false; [|intros E; apply D; eapply (d_unique _ Al); simpl; [done..|congruence]].
        exists pre, post. by rewrite app_nil_r.
Qed.

(** A request to dial: its id is new to this side. *)
Lemma good_connect k tm tm' h r sl sr sn tb fw hd st nx iss tk :
  let l := Build_Core sn tb fw hd st nx iss tk in
  c_sent r !! sl = Some (Connect k tm h) -> good l r sl sr ->
  good (Build_Core sn tb fw hd st nx iss (tk ++ [ForwardConnect k h tm'])) r (S sl) sr.
Proof.
  intros l L G. assert (G' := good_seen _ _ _ _ _ L ltac:(done) G).
  destruct G as [Ol Or Al Ar Ll Lr], G' as [_ _ _ _ Ll' Lr'].
  assert (forall tm2 h2, Connect k tm2 h2 ∉ take sl (c_sent r)) as NEW.
  { intros tm2 h2 I. pose proof (o_connect1 _ Or) as ND. rewrite <-(take_drop_middle _ _ _ L) in ND.
    unfold connect_ids in ND. rewrite omap_app in ND. simpl in ND. apply NoDup_app in ND as (_ & ND & _).
    apply (ND k); [|set_solver]. apply list_elem_of_omap. by exists (Connect k tm2 h2). }
  split; try assumption.
  - eapply opener_frame; [exact Ol|]. by apply holds_snoc.
  - pose proof (fun t z h T P => k_pending _ _ _ _ Lr t z k h T P) as KP.
    pose proof (k_forward _ _ _ _ Lr) as KF. simpl in KP, KF.
    destruct Al as [D1 D2 D3 D4 D5 D6 D7 D8 D9 D10 D11 D12 D13]. split; simpl in *; try assumption.
    + intros t x k' f T E. split_lookups. eauto.
    + intros t x f T E. split_lookups. eauto.
    + intros k' f t x k2 B T E. split_lookups. eauto.
    + intros t1 t2 x1 x2 k' h1 h2 T1 T2 P1 P2. split_lookups; [exact (D5 _ _ _ _ _ _ _ T1 T2 P1 P2)| | |done].
      * destruct (KP _ _ _ T2 P2) as [? I]. by apply NEW in I.
      * destruct (KP _ _ _ T1 P1) as [? I]. by apply NEW in I.
    + intros t x k' h' f a T P F. split_lookups; [by eapply D6|]. intros E.
      destruct (KF _ _ F) as [? I]. rewrite E in I. by apply NEW in I.
    + intros t1 t2 x1 x2 k1 k2 f T1 T2 P1 P2. split_lookups. exact (D8 _ _ _ _ _ _ _ T1 T2 P1 P2).
    + intros t1 t2 x1 x2 f T1 T2 P1 P2. split_lookups. exact (D9 _ _ _ _ _ T1 T2 P1 P2).
    + intros t1 t2 x1 x2 k' f T1 T2 P1 P2. split_lookups. exact (D10 _ _ _ _ _ _ T1 T2 P1 P2).
    + intros t f a q T F. split_lookups. eauto.
  - destruct Ll' as [K0 K1 K2 K3 K4]. by split.
  - destruct Lr' as [K0 K1 K2 K3 K4]. split; try assumption. simpl. intros t z k' h' T P. split_lookups; [by eapply K2|].
    exists tm. rewrite (take_seen _ _ _ L). set_solver.
Qed.

End Machine.
