(* ===== verification/GatewayTunnel.v ===== *)
(** * Two ends of a gateway session, and the byte streams through it

    [System] is two nodes and the two directions of their session.  What one
    end's [send_payload] accepted reaches the other's packet handler in order
    and unchanged, up to the casts of the wire format, and from some point on
    possibly not at all: this is what [GatewayWriter] and [GatewaySession]
    prove of the code between them.  The invariant is the one of
    [GatewayMachine]. *)

From Stdlib Require Import ZArith Lia Strings.Byte.
From stdpp Require Import base tactics list strings gmap.
From S2P Require Import Prelude RustStd GatewayContracts GatewaySession GatewayWriter GatewayNode GatewayMachine.

Local Open Scope Z_scope.

Module Tunnel.
Import Contracts Node Machine.

(** ** The system *)

Record System := { lnode : Node; rnode : Node; seen_left : nat; seen_right : nat }.

Inductive SysAction :=
| ActLeft (a : Action)
| ActRight (a : Action)
| DeliverLeft (now duration : Z)     (* the left end handles the next packet of the right end *)
| DeliverRight (now duration : Z).

Section Steps.
Context (ssl_certificate_new : bytes -> bytes -> bool) (render_left render_right : bytes -> bytes).

(** A round of the read loop with a packet that has arrived. *)
Definition receive (now duration : Z) (p : TcpGatewayContract) (n : Node) : Node :=
  handle_packet ssl_certificate_new duration (set_last_incoming_payload_time now n) (on_wire p).

Definition sys_step (a : SysAction) (s : System) : option System :=
  match a with
  | ActLeft a =>
      match local_step render_left a (lnode s) with
      | Some n => Some {| lnode := n; rnode := rnode s; seen_left := seen_left s; seen_right := seen_right s |}
      | None => None
      end
  | ActRight a =>
      match local_step render_right a (rnode s) with
      | Some n => Some {| lnode := lnode s; rnode := n; seen_left := seen_left s; seen_right := seen_right s |}
      | None => None
      end
  | DeliverLeft now d =>
      match sent (rnode s) !! seen_left s with
      | Some p => Some {| lnode := receive now d p (lnode s); rnode := rnode s;
                          seen_left := S (seen_left s); seen_right := seen_right s |}
      | None => None
      end
  | DeliverRight now d =>
      match sent (lnode s) !! seen_right s with
      | Some p => Some {| lnode := lnode s; rnode := receive now d p (rnode s);
                          seen_left := seen_left s; seen_right := S (seen_right s) |}
      | None => None
      end
  end.

Fixpoint run (acts : list SysAction) (s : System) : option System :=
  match acts with
  | [] => Some s
  | a :: rest => match sys_step a s with Some s1 => run rest s1 | None => None end
  end.

End Steps.

(** *** A packet is handled *)

Section Receive.
Context (ssl_certificate_new : bytes -> bytes -> bool).

Lemma accepted_core k n : core (notify_forward_proxy_connection_accepted k n) = core n.
Proof.
  unfold core. simpl. f_equal. apply map_eq. intros j. rewrite !lookup_fmap.
  destruct (decide (j = k)) as [->|N]; [|by rewrite lookup_alter_ne].
  rewrite lookup_alter_eq. destruct (_ !! _) as [h|]; simpl; [|done]. f_equal. unfold set_connected. by case_match.
Qed.

Lemma control_moves d p n :
  control p -> rtc move (core n) (core (handle_packet ssl_certificate_new d n p)).
Proof.
  intros C. unfold handle_packet, handle_client_packet, handle_server_packet.
  destruct p; try done; case_match; try apply rtc_refl; try (by apply spawn_moves);
    try apply disconnect_forward_proxy_connection_moves; try (by apply send_moves);
    try (by rewrite accepted_core).
  - by apply (send_moves _ (set_last_ping_duration d n)).
  - case_match; apply rtc_refl.
  - repeat case_match; apply rtc_refl.
Qed.

Lemma incoming_core k p n :
  core (incoming_payload_for_proxy_connection k p n) = core n \/
  exists s, (receive_buffer <$> forward_proxy_handlers n) !! k = Some s /\
    core (incoming_payload_for_proxy_connection k p n) =
    Build_Core (sent n) (forward_connections n) (abs_forward <$> forwards n)
      (receive_buffer <$> forward_proxy_handlers n) (alter (add_in p) s (abs_stream <$> streams n))
      (next_connection_id n) (issued n) (tasks n).
Proof.
  unfold incoming_payload_for_proxy_connection.
  destruct (forward_proxy_handlers n !! k) as [h|] eqn:H; [|auto]. destruct (status h); [auto| |auto].
  right. exists (receive_buffer h). split; [by rewrite lookup_fmap, H|]. unfold core. simpl. f_equal.
  apply list_eq. intros j. rewrite list_lookup_fmap, !list_lookup_alter, list_lookup_fmap.
  case_decide; [subst|by rewrite list_lookup_fmap]. destruct (streams n !! _); simpl; [|done].
  unfold abs_stream. simpl. by rewrite enqueued_extend.
Qed.

Lemma send_error_unregisters k err force n :
  forward_connections (send_connection_error k err force n) = delete k (forward_connections n).
Proof.
  unfold send_connection_error. simpl. case_match; [|done].
  destruct (send_payload _ _) as [b n'] eqn:E. simpl.
  by apply send_core in E as (_ & _ & _ & _ & _ & -> & _).
Qed.

Lemma good_forward_payload k d n r sl sr :
  c_sent r !! sl = Some (ForwardPayload k d) -> good (core n) r sl sr ->
  c_issued (core (forward_payload k d n)) <= 2 ^ 32 ->
  good (core (forward_payload k d n)) r (S sl) sr.
Proof.
  intros L G. unfold forward_payload.
  destruct (forward_connections n !! k) as [f|] eqn:B.
  2:{ intros _. eapply good_seen; [done| |done]. intros ? ? [= <- <-]. done. }
  destruct (forwards n !! f) as [c|] eqn:F.
  2:{ destruct (d_table _ (g_acceptor_l _ _ _ _ G) _ _ B) as (a & Fa & _). simpl in Fa.
      by rewrite list_lookup_fmap, F in Fa. }
  destruct (fwd_send_payload d c) as [ok c'] eqn:S. unfold fwd_send_payload in S.
  destruct (Writer.send_payload _ _) as [[] w]; simplify_eq.
  - intros _. pose proof (good_forward k d f r sl sr _ _ _ _ _ _ _ _ L B G) as G'. unfold core. simpl.
    match goal with |- good (Build_Core _ _ ?fs _ _ _ _ _) _ _ _ =>
      replace fs with (alter (add_got d) f (abs_forward <$> forwards n)) end; [exact G'|].
    apply list_eq. intros j. rewrite !list_lookup_fmap, list_lookup_alter, list_lookup_fmap.
    rewrite list_lookup_insert. destruct (decide (f = j)) as [->|N].
    + apply lookup_lt_Some in F as LT. rewrite decide_True by done. by rewrite F.
    + rewrite decide_False by naive_solver. by rewrite list_lookup_fmap.
  - intros I. eapply good_seen; [done| |].
    + intros k' d' [= <- <-]. simpl. rewrite send_error_unregisters. simpl. by rewrite lookup_delete_eq.
    + eapply good_moves; [|done|exact G]. etrans; [|apply send_connection_error_moves].
      apply same. unfold core. simpl. by rewrite (insert_same _ _ c).
Qed.

Lemma good_receive now d p n r sl sr :
  c_sent r !! sl = Some p -> good (core n) r sl sr ->
  c_issued (core (receive ssl_certificate_new now d p n)) <= 2 ^ 32 ->
  good (core (receive ssl_certificate_new now d p n)) r (S sl) sr.
Proof.
  intros L G I. unfold receive in *. set (n1 := set_last_incoming_payload_time now n) in *.
  assert (core n1 = core n) as E by done. rewrite <-E in G. clearbody n1. clear E.
  assert (control (on_wire p) \/ ~ control (on_wire p)) as [C|C] by (destruct p; simpl; tauto).
  { eapply good_moves; [by apply control_moves|done|]. eapply good_seen; [done| |done].
    by intros k x ->. }
  unfold handle_packet, handle_client_packet, handle_server_packet in *.
  destruct p as [k tm h| | |k x|k x| | | | | | | |]; try (by exfalso; apply C); simpl in *.
  - assert (forall tm', good (core (spawn (ForwardConnect k h tm') n1)) r (S sl) sr) as GC
      by (intros tm'; by eapply good_connect).
    destruct (is_client (session n1)); [|apply GC]. case_match; [|apply GC].
    eapply good_moves; [apply send_connection_error_moves|done|]. by eapply good_seen.
  - destruct (is_client (session n1)); by apply good_forward_payload.
  - assert (good (core (incoming_payload_for_proxy_connection k x n1)) r (S sl) sr) as GB
      by (destruct (incoming_core k x n1) as [-> | (s & H & ->)]; [by eapply good_seen|by eapply good_backward]).
    by destruct (is_client (session n1)).
Qed.

End Receive.

(** ** The receive buffers *)

Definition buffers_ok (n : Node) : Prop := Forall (fun st => ReceiveBuffer.wf (content st)) (streams n).

Lemma send_streams p n : streams (send_payload p n).2 = streams n.
Proof. destruct (send_payload p n) eqn:E. simpl. by apply send_core in E as (_ & _ & -> & _). Qed.

Lemma send_error_streams k err force n : streams (send_connection_error k err force n) = streams n.
Proof. unfold send_connection_error. simpl. case_match; [by rewrite send_streams|done]. Qed.

Lemma reply_streams ids n : streams (reply_sync_certs ids n) = streams n.
Proof.
  revert n. induction ids as [|c rest IH]; intros n; simpl; [done|].
  match goal with |- context [send_payload ?p n] => pose proof (send_streams p n) as S;
    destruct (send_payload p n) as [[] n1] end; simpl in S; [|done]. by rewrite IH.
Qed.

Lemma update_stream_ok s g n :
  (forall st, ReceiveBuffer.wf (content st) -> ReceiveBuffer.wf (content (g st))) ->
  buffers_ok n -> buffers_ok (update_stream s g n).
Proof. intros H B. by apply Forall_alter; [|intros; apply H]. Qed.

Lemma set_stream_ok s st n :
  ReceiveBuffer.wf (content st) -> buffers_ok n -> buffers_ok (set_streams (<[s := st]> (streams n)) n).
Proof. intros. by apply Forall_insert. Qed.

Lemma same_streams_ok n n' : streams n' = streams n -> buffers_ok n -> buffers_ok n'.
Proof. unfold buffers_ok. by intros ->. Qed.

Lemma forward_payload_ok k d n : buffers_ok n -> buffers_ok (forward_payload k d n).
Proof.
  apply same_streams_ok. unfold forward_payload. repeat case_match; try done. by rewrite send_error_streams.
Qed.

Lemma disconnect_forward_proxy_connection_ok k msg n :
  buffers_ok n -> buffers_ok (disconnect_forward_proxy_connection k msg n).
Proof.
  intros B. unfold disconnect_forward_proxy_connection. simpl.
  set (n1 := match forward_proxy_handlers n !! k with Some _ => _ | None => _ end).
  assert (buffers_ok n1) as B1; [|by case_match].
  subst n1. case_match; [|done]. apply update_stream_ok; [|done]. intros st. apply ReceiveBuffer.disconnect_wf.
Qed.

Lemma receive_ok ssl now d p n : buffers_ok n -> buffers_ok (receive ssl now d p n).
Proof.
  intros B. unfold receive. set (n1 := set_last_incoming_payload_time now n).
  assert (buffers_ok n1) as B1 by done. clearbody n1. clear B.
  assert (forall k x, buffers_ok (incoming_payload_for_proxy_connection k x n1)) as BI.
  { intros k x. unfold incoming_payload_for_proxy_connection. repeat case_match; try done.
    apply update_stream_ok; [|done]. intros st. apply ReceiveBuffer.extend_from_slice_wf. }
  unfold handle_packet, handle_client_packet, handle_server_packet.
  destruct (on_wire p); case_match; try done;
    try apply forward_payload_ok; try apply disconnect_forward_proxy_connection_ok; try done;
    repeat case_match; try done; (apply (same_streams_ok n1); [|done]);
    by rewrite ?send_streams, ?send_error_streams.
Qed.

Lemma read_loop_ok t f c ev n n' : read_loop_step t f c ev n = Some n' -> buffers_ok n -> buffers_ok n'.
Proof.
  unfold read_loop_step. intros H. destruct ev as [| | |[|b l]| | | | | |]; simplify_eq;
    apply same_streams_ok; simpl; by rewrite ?send_error_streams.
Qed.

Lemma stream_read_ok s k n n' : stream_read s k n = Some n' -> buffers_ok n -> buffers_ok n'.
Proof.
  unfold stream_read. intros H B. repeat case_match; simplify_eq. apply set_stream_ok; [|done]. simpl.
  eapply ReceiveBuffer.get_data_wf; [|done]. by eapply (Forall_lookup_1 _ _ _ _ B).
Qed.

Lemma stream_write_ok id s p n : buffers_ok n -> buffers_ok (stream_write id s p n).2.
Proof.
  intros B. unfold stream_write. pose proof (send_streams (ForwardPayload id p) n) as E.
  destruct (send_payload _ n) as [[] n1]; simpl in *; [|by apply (same_streams_ok n)].
  apply update_stream_ok; [done|]. by apply (same_streams_ok n).
Qed.

Lemma stream_disconnect_ok id s n : buffers_ok n -> buffers_ok (stream_disconnect id s n).
Proof.
  intros B. unfold stream_disconnect. destruct (streams n !! s) as [st|] eqn:L; [|done].
  destruct (ReceiveBuffer.disconnect _) as [[] c] eqn:D; [|done].
  apply (same_streams_ok (set_streams (<[s := set_content c st]> (streams n)) n)); [simpl; by rewrite send_streams|].
  apply set_stream_ok; [|done]. simpl. replace c with (ReceiveBuffer.disconnect (content st)).2 by (by rewrite D).
  apply ReceiveBuffer.disconnect_wf. exact (Forall_lookup_1 _ _ _ _ B L).
Qed.

Lemma task_step_ok t ev n n' : task_step t ev n = Some n' -> buffers_ok n -> buffers_ok n'.
Proof.
  unfold task_step. intros H B. destruct (tasks n !! t) as [task|]; [|done].
  destruct task, ev; simplify_eq; try (case_match eqn:F; simplify_eq);
    try (by eapply read_loop_ok); try (by eapply stream_read_ok).
  all: try (apply (same_streams_ok n); [|exact B]; simpl; rewrite ?send_streams, ?send_error_streams, ?reply_streams; reflexivity).
  - apply (same_streams_ok n); [|done]. unfold forward_connect_start. case_match; simpl; by rewrite ?send_error_streams.
  - apply (same_streams_ok n); [|done]. unfold send_backward_payload. simpl. case_match; by rewrite ?send_streams.
  - apply (same_streams_ok n); [|done]. unfold ack_head. by case_match.
  - apply (same_streams_ok n); [|done]. unfold ack_look. by repeat case_match.
  - by apply stream_write_ok.
  - by apply stream_disconnect_ok.
  - unfold serve_file. apply (same_streams_ok n); [|done]. simpl. by rewrite send_streams.
  - unfold ping_round. pose proof (send_streams Ping n) as E. case_match; [done|].
    destruct (send_payload Ping n) as [[] n1]; simpl in *; by apply (same_streams_ok n).
Qed.

Lemma local_step_ok render a n n' : local_step render a n = Some n' -> buffers_ok n -> buffers_ok n'.
Proof.
  unfold local_step. intros H B. destruct a; simplify_eq; try done.
  - unfold connect_to_forward_proxy_connection. simpl. case_match; [done|].
    match goal with |- context [send_payload ?p ?m] => pose proof (send_streams p m) as E;
      assert (buffers_ok m) as B1; [|destruct (send_payload p m) as [[] n1]; simpl in *; by apply (same_streams_ok m)] end.
    apply Forall_app. split; [done|]. apply Forall_singleton. apply ReceiveBuffer.wf_new.
  - by eapply task_step_ok.
  - unfold request_file in H. repeat case_match; simplify_eq.
    apply (same_streams_ok n); [|done]. by rewrite send_streams.
  - case_match; by simplify_eq.
  - repeat case_match; by simplify_eq.
Qed.

(** ** The whole system *)

Lemma forward_payload_issued k d n : issued n <= issued (forward_payload k d n).
Proof.
  unfold forward_payload. repeat case_match; try done.
  match goal with |- _ <= issued (send_connection_error ?k ?e ?f ?m) =>
    apply (moves_issued _ _ (send_connection_error_moves k e f m)) end.
Qed.

Lemma receive_issued ssl now d p n : issued n <= issued (receive ssl now d p n).
Proof.
  unfold receive. set (n1 := set_last_incoming_payload_time now n).
  change (issued n) with (issued n1). clearbody n1.
  assert (control (on_wire p) \/ ~ control (on_wire p)) as [C|C] by (destruct p; simpl; tauto).
  { apply (moves_issued _ _ (control_moves ssl d _ n1 C)). }
  unfold handle_packet, handle_client_packet, handle_server_packet.
  destruct p; try (by exfalso; apply C); simpl in *; repeat case_match; try done;
    try apply forward_payload_issued; try (unfold incoming_payload_for_proxy_connection; by repeat case_match).
  match goal with |- _ <= issued (send_connection_error ?k ?e ?f ?m) =>
    apply (moves_issued _ _ (send_connection_error_moves k e f m)) end.
Qed.

Section Whole.
Context (ssl_certificate_new : bytes -> bytes -> bool) (render_left render_right : bytes -> bytes).

(** Both ends of a session that has just been agreed on. *)
Definition initial (s : System) : Prop :=
  exists sl cl il tl sr cr ir tr, in_u32 il /\ in_u32 ir /\
    s = {| lnode := Node.connection_new sl cl il tl; rnode := Node.connection_new sr cr ir tr; seen_left := 0; seen_right := 0 |}.

Definition reachable (s : System) : Prop :=
  exists s0 acts, initial s0 /\ run ssl_certificate_new render_left render_right acts s0 = Some s.

Definition few_ids (s : System) : Prop := issued (lnode s) <= 2 ^ 32 /\ issued (rnode s) <= 2 ^ 32.

Record sys_inv (s : System) : Prop := {
  i_good : few_ids s -> good (core (lnode s)) (core (rnode s)) (seen_left s) (seen_right s);
  i_buffers : buffers_ok (lnode s) /\ buffers_ok (rnode s)
}.

Lemma new_opener s c i t : in_u32 i -> opener (core (Node.connection_new s c i t)).
Proof.
  intros I. split; simpl; try done.
  - intros k t' h N. by apply elem_of_nil in N.
  - constructor.
  - intros k p N. by apply elem_of_nil in N.
  - destruct (is_client s); intros [|?] x k j T E; simplify_eq/=; done.
Qed.

Lemma new_acceptor s c i t : acceptor (core (Node.connection_new s c i t)).
Proof.
  assert (forall (j : nat) x, (if is_client s then [PingLoop] else []) !! j = Some x -> x = PingLoop) as P.
  { intros j x T. destruct (is_client s); [|done]. destruct j; simplify_eq/=; done. }
  split; simpl; try done; intros; repeat match goal with H : _ !! _ = Some _ |- _ => apply P in H end; simplify_eq/=.
  by match goal with H : _ ∈ [] |- _ => apply elem_of_nil in H end.
Qed.

Lemma new_link s c i t s' c' i' t' : link (core (Node.connection_new s c i t)) (core (Node.connection_new s' c' i' t')) 0 0.
Proof.
  split; simpl; try done.
  intros j z k h T E. destruct (is_client s'); [|done]. destruct j; simplify_eq/=; done.
Qed.

Lemma initial_inv s : initial s -> sys_inv s.
Proof.
  intros (sl & cl & il & tl & sr & cr & ir & tr & Il & Ir & ->). split; simpl.
  - intros _. split; auto using new_opener, new_acceptor, new_link.
  - split; constructor.
Qed.

Lemma sys_step_inv a s s' :
  sys_step ssl_certificate_new render_left render_right a s = Some s' -> sys_inv s -> sys_inv s'.
Proof.
  unfold sys_step, few_ids. intros H [G [Bl Br]]. unfold few_ids in G.
  destruct a; case_match eqn:E; simplify_eq; split; simpl in *; unfold few_ids; simpl.
  - apply local_step_moves in E as M. intros [Il Ir]. eapply good_moves; [exact M|done|].
    apply G. apply moves_issued in M. simpl in M. split; [lia|done].
  - split; [by eapply local_step_ok|done].
  - apply local_step_moves in E as M. intros [Il Ir]. apply good_sym. eapply good_moves; [exact M|done|].
    apply good_sym, G. apply moves_issued in M. simpl in M. split; [done|lia].
  - split; [done|by eapply local_step_ok].
  - intros [Il Ir]. eapply good_receive; [done| |done]. apply G. split; [|done].
    etrans; [apply receive_issued|done].
  - split; [by apply receive_ok|done].
  - intros [Il Ir]. apply good_sym. eapply good_receive; [done| |done]. apply good_sym, G. split; [done|].
    etrans; [apply receive_issued|done].
  - split; [done|by apply receive_ok].
Qed.

Lemma reachable_sys_inv s : reachable s -> sys_inv s.
Proof.
  intros (s0 & acts & I & R). apply initial_inv in I. revert s0 I R.
  induction acts as [|a rest IH]; intros s0 I R; simpl in R; [by simplify_eq|].
  case_match eqn:E; [|done]. eapply IH, R. by eapply sys_step_inv.
Qed.

(** What is true of a pair of cores, said of the nodes. *)
Definition streams_faithful (opening dialling : Node) : Prop :=
  (forall s st, streams opening !! s = Some st ->
     exists ps, ReceiveBuffer.taken (content st) ++ ReceiveBuffer.buffer (content st) = concat ps /\
       (ps = [] \/ exists f c, forwards dialling !! f = Some c /\ connection_id c = stream_id st /\
                                remote_endpoint c = stream_host st /\ ps `sublist_of` reads c)) /\
  (forall f c, forwards dialling !! f = Some c ->
     exists s st pre post, streams opening !! s = Some st /\ stream_id st = connection_id c /\
       stream_host st = remote_endpoint c /\ Node.written st = pre ++ got c ++ post).

Lemma good_faithful l r sl sr :
  good (core l) (core r) sl sr -> buffers_ok l -> streams_faithful l r.
Proof.
  intros [Ol Or Al Ar Ll Lr] B.
  assert (forall f c, forwards r !! f = Some c -> exists s st, streams l !! s = Some st /\
            stream_id st = connection_id c /\ stream_host st = remote_endpoint c) as FS.
  { intros f c F. destruct (k_forward _ _ _ _ Ll f (abs_forward c)) as [tm I]; [by simpl; rewrite list_lookup_fmap, F|].
    destruct (o_connect _ Ol (connection_id c) tm (remote_endpoint c)) as (s & a & L & E1 & E2).
    { rewrite <-(take_drop sr (c_sent (core l))). apply elem_of_app. by left. }
    simpl in L. rewrite list_lookup_fmap in L. destruct (streams l !! s) as [st|] eqn:S; [|done].
    simplify_eq/=. eauto 10. }
  split.
  - intros s st S. exists (ReceiveBuffer.enqueued (content st)).
    split; [apply ReceiveBuffer.wf_bytes; exact (Forall_lookup_1 _ _ _ _ B S)|].
    destruct (ReceiveBuffer.enqueued (content st)) as [|p ps] eqn:EQ; [by left|right].
    assert (c_streams (core l) !! s = Some (abs_stream st)) as S' by (simpl; by rewrite list_lookup_fmap, S).
    pose proof (k_in _ _ _ _ Ll _ _ S') as I. simpl in I. rewrite EQ in I.
    assert (p :: ps `sublist_of` backward_data (stream_id st) (sent r)) as I'.
    { etrans; [exact I|]. unfold backward_data. rewrite <-(take_drop sl (sent r)) at 2. rewrite omap_app.
      by apply sublist_inserts_r. }
    assert (exists f c, forwards r !! f = Some c /\ connection_id c = stream_id st) as (f & c & F & E).
    { assert (p ∈ backward_data (stream_id st) (sent r)) as P by (eapply elem_of_submseteq; [|by apply sublist_submseteq, I']; set_solver).
      apply list_elem_of_omap in P as (q & Q & X). destruct q; try done. case_bool_decide; simplify_eq.
      destruct (d_data _ Ar _ _ Q) as (f & a & F & E). simpl in F. rewrite list_lookup_fmap in F.
      destruct (forwards r !! f) as [c|] eqn:Fc; [|done]. simplify_eq/=. eauto. }
    exists f, c. split_and!; [done|done| |].
    + destruct (FS _ _ F) as (s2 & st2 & S2 & E1 & E2).
      assert (s2 = s) as ->.
      { eapply (o_unique _ Ol); simpl; rewrite ?list_lookup_fmap, ?S2, ?S; simpl; [done..|]. simpl. congruence. }
      congruence.
    + etrans; [exact I'|]. pose proof (d_back _ Ar f (abs_forward c)) as D. simpl in D. rewrite E in D.
      apply D. by rewrite list_lookup_fmap, F.
  - intros f c F. destruct (FS _ _ F) as (s & st & S & E1 & E2).
    destruct (k_got _ _ _ _ Ll f (abs_forward c)) as (pre & post & W & _); [by simpl; rewrite list_lookup_fmap, F|].
    simpl in W. exists s, st, pre, (post ++ forward_data (connection_id c) (drop sr (sent l))).
    split_and!; [done..|]. rewrite !app_assoc, <-(app_assoc pre), <-W.
    pose proof (o_out _ Ol s (abs_stream st)) as O. simpl in O. rewrite list_lookup_fmap, S in O.
    rewrite <-(O eq_refl), E1. unfold forward_data. by rewrite <-omap_app, take_drop.
Qed.

(** C10: byte streams through a gateway are not mixed up.  Whatever the two
    ends do, in any interleaving of packets, dials, reads, writes, closes
    and failures, and as long as neither end has given out more than 2^32
    connection ids: what a client of one end has read or can read from a
    stream are payloads that the service at the host the stream was opened
    for sent over the connection of that stream, whole and in order; and what
    that service was sent is a run of consecutive payloads the client wrote
    into that stream.  Nothing from another stream, nothing twice, nothing
    out of order. *)
Theorem tunnel_integrity s :
  reachable s -> few_ids s ->
  streams_faithful (lnode s) (rnode s) /\ streams_faithful (rnode s) (lnode s).
Proof.
  intros [G [Bl Br]]%reachable_sys_inv I. apply G in I. split; [by eapply good_faithful|].
  apply good_sym in I. by eapply good_faithful.
Qed.

End Whole.

(** ** Concrete sessions *)

Definition ssl_any (pk cert : bytes) : bool := true.

Definition left_session : Session :=
  {| is_client := true; gateway_id := bs "home"; allow_incoming_forward_connection := true;
     connection_timestamp := 1 |}.
Definition right_session : Session :=
  {| is_client := false; gateway_id := bs "home"; allow_incoming_forward_connection := true;
     connection_timestamp := 1 |}.
Definition start : System :=
  {| lnode := Node.connection_new left_session ∅ 0 0; rnode := Node.connection_new right_session ∅ 0 0; seen_left := 0; seen_right := 0 |}.

Definition play (acts : list SysAction) : option System := run ssl_any id id acts start.

Lemma start_initial : initial start.
Proof. exists left_session, ∅, 0, 0, right_session, ∅, 0, 0. unfold in_u32. split_and!; done || lia. Qed.

Lemma play_reachable acts s : play acts = Some s -> reachable ssl_any id id s.
Proof. intros P. exists start, acts. split; [apply start_initial|done]. Qed.

(** The left end opens a stream, the right end dials and announces. *)
Definition dial : list SysAction :=
  [ActLeft (Open (bs "mail:25") (Duration.from_secs 5)); DeliverRight 1 0;
   ActRight (Step 0 Go); ActRight (Step 0 DialOk); ActRight (Step 0 Go)].
Definition register : list SysAction := [ActRight (Step 0 Go); ActRight (Step 0 Go)].
Definition accept : list SysAction := [DeliverLeft 2 0; ActLeft (Step 1 Go); ActLeft (Step 1 Go)].
Definition from_service (p : bytes) : list SysAction := [ActRight (Step 1 (ReadOk p)); ActRight (Step 1 Go)].
Definition to_client : list SysAction := [DeliverLeft 3 0; ActLeft (Step 1 (StreamRead 64))].
Definition to_service (p : bytes) : list SysAction := [ActLeft (Step 1 (StreamWrite p)); DeliverRight 3 0].

Definition exchange : list SysAction :=
  dial ++ register ++ accept ++ to_service (bs "HELO") ++ from_service (bs "250 ok") ++ to_client.

Lemma tunnel_integrity_witness :
  exists s, play exchange = Some s /\ few_ids s /\
    (streams_faithful (lnode s) (rnode s) /\ streams_faithful (rnode s) (lnode s)) /\
    (fun st => (ReceiveBuffer.taken (content st), Node.written st)) <$> streams (lnode s)
      = [(bs "250 ok", [bs "HELO"])] /\
    (fun c => (got c, reads c)) <$> forwards (rnode s) = [([bs "HELO"], [bs "250 ok"])].
Proof.
  destruct (play exchange) as [s|] eqn:P; [|by vm_compute in P].
  assert (few_ids s) as F by (vm_compute in P; simplify_eq; vm_compute; split; discriminate).
  exists s. split; [done|]. split; [done|].
  split; [exact (tunnel_integrity ssl_any id id s (play_reachable _ _ P) F)|].
  vm_compute in P. simplify_eq. by split.
Defined.

(** Which payloads the client of the first stream got, which the service of
    the first connection sent, and whether both ends still think that the
    session and the stream are fine. *)
Definition outcome_of (s : System) : list bytes * list bytes * bool :=
  (concat ((fun st => ReceiveBuffer.enqueued (content st)) <$> streams (lnode s)),
   concat (reads <$> forwards (rnode s)),
   is_gateway_connected (lnode s) && is_gateway_connected (rnode s) &&
   forallb (fun st => negb (ReceiveBuffer.disconnected (content st))) (streams (lnode s))).

Definition greeting : bytes := bs "220 ready".
Definition filler : nat := 1023.

(** The service greets before its connection is registered. *)
Definition early_greeting : list SysAction :=
  dial ++ [ActRight (Step 0 Go)] ++ from_service greeting ++ [ActRight (Step 0 Go)] ++ accept ++
  from_service (bs "250 ok") ++ to_client.

(** The service sends faster than the session writer is scheduled. *)
Definition fast_service : list SysAction :=
  dial ++ register ++ concat (replicate filler (from_service (bs "x"))) ++ from_service (bs "lost") ++
  [ActRight (SessionWriter WRecv)] ++ from_service (bs "after") ++ accept ++
  replicate (S filler) (DeliverLeft 3 0).

(** Bytes can be missing from the middle of a stream.  With nothing
    broken, neither the session nor the stream nor the service, the client
    gets a stream with a hole: the first payload of a service that speaks
    first is dropped when it arrives between the start of the read loop and
    the registration of the connection, and a payload is dropped when the
    queue of the session writer is full. *)
Theorem tunnel_loses_payloads :
  outcome_of <$> play early_greeting = Some ([bs "250 ok"], [greeting; bs "250 ok"], true) /\
  outcome_of <$> play fast_service =
    Some (replicate filler (bs "x") ++ [bs "after"],
          replicate filler (bs "x") ++ [bs "lost"; bs "after"], true).
Proof. split; vm_compute; reflexivity. Qed.

(** What was received before a close and not yet read is lost: behind
    [disconnect] a read never returns data. *)
Theorem closed_stream_reads_nothing out_len c :
  ReceiveBuffer.reader c <> ReceiveBuffer.Waiting ->
  exists c', ReceiveBuffer.get_data out_len (ReceiveBuffer.disconnect c).2 = Some (ReceiveBuffer.Aborted, c').
Proof.
  intros W. unfold ReceiveBuffer.disconnect, ReceiveBuffer.complete.
  destruct (ReceiveBuffer.disconnected c) eqn:D; simpl.
  - unfold ReceiveBuffer.get_data, ReceiveBuffer.get_data_round. rewrite D.
    destruct (ReceiveBuffer.reader c) as [| |[]]; eauto. done.
  - destruct (ReceiveBuffer.awaiter c); unfold ReceiveBuffer.get_data, ReceiveBuffer.get_data_round; simpl; eauto.
    destruct (ReceiveBuffer.reader c) as [| |[]]; eauto. done.
Qed.

(** The reason a peer gives for refusing a connection is never reported: the
    handler it is stored in has left the table by then. *)
Theorem refusal_reason_is_lost t id error n :
  ack_look t id (disconnect_forward_proxy_connection id error n) =
  ack_failed t id SomehowClosed (disconnect_forward_proxy_connection id error n).
Proof.
  unfold ack_look. replace (forward_proxy_handlers _ !! id) with (@None Handler); [done|].
  unfold disconnect_forward_proxy_connection. simpl. destruct (forward_proxy_handlers n !! id) eqn:H;
    (case_match; simpl; [|]); by rewrite ?lookup_delete_eq.
Qed.

(** Each end opens a stream; both are number 0 on this session. *)
Definition two_streams : list SysAction :=
  [ActLeft (Open (bs "mail:25") (Duration.from_secs 5)); ActRight (Open (bs "db:5432") (Duration.from_secs 5));
   DeliverRight 1 0; DeliverLeft 1 0;
   ActRight (Step 1 Go); ActRight (Step 1 DialOk); ActRight (Step 1 Go); ActRight (Step 1 Go); ActRight (Step 1 Go);
   ActLeft (Step 2 Go); ActLeft (Step 2 DialOk); ActLeft (Step 2 Go); ActLeft (Step 2 Go); ActLeft (Step 2 Go);
   DeliverLeft 2 0; DeliverRight 2 0;
   ActLeft (Step 1 Go); ActLeft (Step 1 Go); ActRight (Step 0 Go); ActRight (Step 0 Go)].

Definition streams_open (n : Node) : list bool :=
  (fun st => negb (ReceiveBuffer.disconnected (content st))) <$> streams n.
Definition sockets_open (n : Node) : list bool := (fun c => Writer.is_connected (fwd_inner c)) <$> forwards n.

(** Closing one stream can close another.  The two ends number the
    streams they open independently, and a close names only the number: when
    the client of the left end closes its stream to the mail server, the
    right end also cuts the stream its own client has open to the data base,
    which has the same number and had nothing to do with it. *)
Theorem colliding_ids_close_each_other :
  (fun s => (streams_open (lnode s), streams_open (rnode s), sockets_open (rnode s))) <$> play two_streams
    = Some ([true], [true], [true]) /\
  (fun s => (streams_open (lnode s), streams_open (rnode s), sockets_open (rnode s))) <$>
    play (two_streams ++ [ActLeft (Step 1 StreamClose); DeliverRight 3 0])
    = Some ([false], [false], [false]).
Proof. split; vm_compute; reflexivity. Qed.

End Tunnel.
