(* ===== verification/GatewayRegistry.v ===== *)
(** * Which gateway sessions a process knows: [tcp_gateway/gateway_inner.rs],
      [server/tcp_gateway_server.rs], [client/tcp_gateway_client.rs], the end of
      [gateway_read_loop.rs] and the look-ups of [app/app_ctx.rs]

    A gateway (a server or one client) keeps a map from the name of a peer to
    its session.  Sessions are numbered in the order of their registration.
    Registrations and the ends of read loops come from different tasks, so
    their order is any. *)

From Stdlib Require Import ZArith Lia Strings.Byte.
From stdpp Require Import base tactics list strings gmap.
From S2P Require Import Prelude RustStd GatewayContracts.

Local Open Scope Z_scope.

Module Registry.

(** [TcpGatewayInner], without the keys *)
Record TcpGatewayInner := {
  gateway_id : bytes;
  running : bool;
  connection : gmap bytes nat;
  has_authorized_keys : bool;
  sync_ssl_certificates : list bytes
}.

Definition new_server (gateway_id : bytes) : TcpGatewayInner :=
  {| gateway_id := gateway_id; running := true; connection := ∅; has_authorized_keys := true;
     sync_ssl_certificates := [] |}.

Definition new_client (gateway_id : bytes) (sync_ssl_certificates : list bytes) : TcpGatewayInner :=
  {| gateway_id := gateway_id; running := true; connection := ∅; has_authorized_keys := false;
     sync_ssl_certificates := sync_ssl_certificates |}.

Definition set_gateway_connection (name : bytes) (c : option nat) (i : TcpGatewayInner) : TcpGatewayInner :=
  {| gateway_id := gateway_id i; running := running i;
     connection := match c with
                   | Some c => <[name := c]> (connection i)
                   | None => delete name (connection i)
                   end;
     has_authorized_keys := has_authorized_keys i; sync_ssl_certificates := sync_ssl_certificates i |}.

Definition get_gateway_connection (name : bytes) (i : TcpGatewayInner) : option nat := connection i !! name.

Definition stop (i : TcpGatewayInner) : TcpGatewayInner :=
  {| gateway_id := gateway_id i; running := false; connection := connection i;
     has_authorized_keys := has_authorized_keys i; sync_ssl_certificates := sync_ssl_certificates i |}.

(** A session: its name, whether its read loop runs, whether its writer is
    connected, and what was asked of the peer right after it was agreed on. *)
Record Conn := {
  conn_gateway_id : bytes;
  reading : bool;
  is_connected : bool;
  requested : option (list bytes)
}.

Definition stop_reading (c : Conn) : Conn :=
  {| conn_gateway_id := conn_gateway_id c; reading := false; is_connected := false; requested := requested c |}.
Definition disconnect (c : Conn) : Conn :=
  {| conn_gateway_id := conn_gateway_id c; reading := reading c; is_connected := false; requested := requested c |}.

(** The client's [connection_loop], by the point it is suspended at. *)
Inductive ClientLoop := Head | Dialing | Sleeping | Pinging (c : nat) | LoopDone.

Record State := { inner : TcpGatewayInner; conns : list Conn; client_loop : option ClientLoop }.

Definition server (gateway_id : bytes) : State :=
  {| inner := new_server gateway_id; conns := []; client_loop := None |}.
Definition client (gateway_id : bytes) (sync : list bytes) : State :=
  {| inner := new_client gateway_id sync; conns := []; client_loop := Some Head |}.

(** A session that was agreed on is registered, and its read loop started. *)
Definition register (name : bytes) (request : option (list bytes)) (s : State) : State :=
  {| inner := set_gateway_connection name (Some (length (conns s))) (inner s);
     conns := conns s ++ [{| conn_gateway_id := name; reading := true; is_connected := true;
                             requested := request |}];
     client_loop := client_loop s |}.

Definition set_loop (l : ClientLoop) (s : State) : State :=
  {| inner := inner s; conns := conns s; client_loop := Some l |}.

(** The server's [handle_inbound]; [handshake] is the name the handshake
    yields, if it succeeds. *)
Definition handle_inbound (handshake : option bytes) (s : State) : State :=
  if negb (has_authorized_keys (inner s)) then s
  else match handshake with
  | None => s
  | Some gateway_name => register gateway_name None s
  end.

(** What happens to a client loop: the dial and the handshake succeed or not,
    a sleep is over, the ping loop finds the peer silent or can not send. *)
Inductive LoopEvent := Tick | DialFailed | HandshakeFailed | Established | PeerSilent | PingNotSent.

Definition connection_loop (ev : LoopEvent) (s : State) : option State :=
  match client_loop s, ev with
  | Some Head, Tick =>
      if running (inner s) then
        Some (set_loop Dialing
          {| inner := set_gateway_connection (gateway_id (inner s)) None (inner s); conns := conns s;
             client_loop := client_loop s |})
      else Some (set_loop LoopDone s)
  | Some Dialing, DialFailed => Some (set_loop Sleeping s)
  | Some Dialing, HandshakeFailed => Some (set_loop Sleeping s)
  | Some Dialing, Established =>
      Some (set_loop (Pinging (length (conns s)))
        (register (gateway_id (inner s))
           (match sync_ssl_certificates (inner s) with [] => None | ids => Some ids end) s))
  | Some Sleeping, Tick => Some (set_loop Head s)
  | Some (Pinging c), PeerSilent =>
      Some (set_loop Head {| inner := inner s; conns := alter disconnect c (conns s); client_loop := client_loop s |})
  | Some (Pinging c), PingNotSent => Some (set_loop Head s)
  | _, _ => None
  end.

(** Behind the loop of [gateway_read_loop]: the name is removed, whatever
    session it stands for now. *)
Definition read_loop_ends (c : nat) (s : State) : option State :=
  match conns s !! c with
  | Some conn =>
      if reading conn then
        Some {| inner := set_gateway_connection (conn_gateway_id conn) None (inner s);
                conns := <[c := stop_reading conn]> (conns s); client_loop := client_loop s |}
      else None
  | None => None
  end.

Inductive Event :=
| Inbound (handshake : option bytes)
| Loop (ev : LoopEvent)
| ReadLoopEnds (c : nat)
| Stop.

Definition step (ev : Event) (s : State) : option State :=
  match ev with
  | Inbound h => match client_loop s with None => Some (handle_inbound h s) | Some _ => None end
  | Loop ev => connection_loop ev s
  | ReadLoopEnds c => read_loop_ends c s
  | Stop => Some {| inner := stop (inner s); conns := conns s; client_loop := client_loop s |}
  end.

Fixpoint run (evs : list Event) (s : State) : option State :=
  match evs with
  | [] => Some s
  | ev :: rest => match step ev s with Some s1 => run rest s1 | None => None end
  end.

(** [get_gateway_by_id]: the server's sessions first, then the client of that
    name. *)
Definition get_gateway_by_id (server : option State) (clients : gmap bytes State) (name : bytes) :
  option (State * nat) :=
  match server with
  | Some s =>
      match get_gateway_connection name (inner s) with
      | Some c => Some (s, c)
      | None =>
          s1 ← clients !! name; c ← get_gateway_connection name (inner s1); Some (s1, c)
      end
  | None => s1 ← clients !! name; c ← get_gateway_connection name (inner s1); Some (s1, c)
  end.

(** ** What a look-up yields *)

(** A registered session is the newest of its name, and its read loop runs. *)
Definition inv (s : State) : Prop :=
  forall name c, connection (inner s) !! name = Some c ->
    exists conn, conns s !! c = Some conn /\ conn_gateway_id conn = name /\ reading conn = true /\
      forall c' conn', conns s !! c' = Some conn' -> conn_gateway_id conn' = name -> (c' <= c)%nat.

Lemma inv_register name r s : inv s -> inv (register name r s).
Proof.
  intros I n c L. simpl in *. apply lookup_insert_Some in L as [[<- <-]|[N L]].
  - eexists. split; [by rewrite lookup_app_r, Nat.sub_diag by lia|]. split_and!; [done..|].
    intros c' conn' [[? _]|[-> _]]%lookup_snoc_Some _; lia.
  - destruct (I _ _ L) as (conn & C & E & R & M). exists conn. split; [by apply lookup_app_l_Some|].
    split_and!; [done..|]. intros c' conn' [[_ L']|[-> <-]]%lookup_snoc_Some E'; [by eapply M|done].
Qed.

Lemma inv_forget name s l : inv s ->
  inv {| inner := set_gateway_connection name None (inner s); conns := conns s; client_loop := l |}.
Proof. intros I n c L. simpl in L. apply lookup_delete_Some in L as [_ L]. by apply I. Qed.

Lemma inv_loop l s : inv s -> inv (set_loop l s).
Proof. done. Qed.

Lemma inv_disconnect c s l : inv s ->
  inv {| inner := inner s; conns := alter disconnect c (conns s); client_loop := l |}.
Proof.
  intros I n c' L. destruct (I _ _ L) as (conn & C & E & R & M). simpl.
  setoid_rewrite list_lookup_alter.
  exists (if decide (c = c') then disconnect conn else conn).
  split; [case_decide; [subst; by rewrite C|done]|].
  split; [by case_decide|]. split; [by case_decide|].
  intros c2 conn2 L2 E2. case_decide; [subst|by eapply M].
  destruct (conns s !! c2) eqn:C2; simplify_eq/=. by eapply M.
Qed.

Lemma registry_step ev s s' : step ev s = Some s' -> inv s -> inv s'.
Proof.
  intros H I. destruct ev as [h|ev|c|]; simpl in H.
  - case_match; simplify_eq. unfold handle_inbound. repeat case_match; try done. by apply inv_register.
  - unfold connection_loop in H. repeat case_match; simplify_eq; try done;
      try (by apply inv_loop, inv_forget); try (by apply inv_loop, inv_register); by apply inv_loop, inv_disconnect.
  - unfold read_loop_ends in H. destruct (conns s !! c) as [conn|] eqn:C; [|done]. case_match; simplify_eq.
    intros n c' L. simpl in *. apply lookup_delete_Some in L as [N L].
    destruct (I _ _ L) as (conn' & C' & E & R & M).
    assert (c' <> c) as NE by (intros ->; simplify_eq).
    exists conn'. rewrite list_lookup_insert_ne by done. split_and!; [done..|].
    intros c2 conn2 [(-> & <- & _)|[_ L2]]%list_lookup_insert_Some E2; [by eapply M|by eapply M].
  - by simplify_eq.
Qed.

Lemma inv_run evs s s' : run evs s = Some s' -> inv s -> inv s'.
Proof.
  revert s. induction evs as [|ev rest IH]; intros s H I; simpl in H; [by simplify_eq|].
  case_match eqn:E; [|done]. eapply IH; [done|]. by eapply registry_step.
Qed.

(** A look-up never yields an outdated session.  Whatever the order in
    which sessions are agreed on, lost and cleaned up, a session found under
    a name is the newest one of that name, and its packets are being read. *)
Theorem registered_is_latest evs s0 s name c :
  (exists id sync, s0 = server id \/ s0 = client id sync) ->
  run evs s0 = Some s -> get_gateway_connection name (inner s) = Some c ->
  exists conn, conns s !! c = Some conn /\ conn_gateway_id conn = name /\ reading conn = true /\
    forall c' conn', conns s !! c' = Some conn' -> conn_gateway_id conn' = name -> (c' <= c)%nat.
Proof.
  intros (id & sync & E) R. assert (inv s0) as I by (by destruct E as [-> | ->]).
  by apply (inv_run _ _ _ R I).
Qed.

Definition home : bytes := bs "home".

Lemma registered_is_latest_witness :
  exists s, run [Inbound (Some home); ReadLoopEnds 0; Inbound (Some home)] (server (bs "ServerGateway")) = Some s /\
    get_gateway_connection home (inner s) = Some 1%nat /\
    exists conn, conns s !! 1%nat = Some conn /\ conn_gateway_id conn = home /\ reading conn = true /\
      forall c' conn', conns s !! c' = Some conn' -> conn_gateway_id conn' = home -> (c' <= 1)%nat.
Proof.
  eexists. split; [vm_compute; reflexivity|]. split; [vm_compute; reflexivity|].
  eapply (registered_is_latest [Inbound (Some home); ReadLoopEnds 0; Inbound (Some home)] (server (bs "ServerGateway"))).
  - exists (bs "ServerGateway"), []. by left.
  - vm_compute. reflexivity.
  - vm_compute. reflexivity.
Defined.

(** A session that works, and that no look-up finds. *)
Definition unreachable_session (s : State) (c : nat) : Prop :=
  (exists conn, conns s !! c = Some conn /\ reading conn = true /\ is_connected conn = true /\
                get_gateway_connection (conn_gateway_id conn) (inner s) = None).

(** A late clean-up hides a live session.  When a peer comes back before
    the read loop of its lost session has ended, the end of that loop removes
    the name, which by then stands for the new session: it is up, packets go
    both ways, and nothing can be sent through it.  On a server this needs
    one reconnection; on a client it is what a silent peer leads to, and the
    client's own loop has no reason to do anything about it. *)
Theorem late_cleanup_hides_session :
  (exists s, run [Inbound (Some home); Inbound (Some home); ReadLoopEnds 0] (server (bs "ServerGateway")) = Some s /\
             unreachable_session s 1) /\
  (exists s, run [Loop Tick; Loop Established; Loop PeerSilent; Loop Tick; Loop Established; ReadLoopEnds 0]
               (client home []) = Some s /\
             unreachable_session s 1 /\ client_loop s = Some (Pinging 1)).
Proof.
  split; (eexists; split; [vm_compute; reflexivity|]).
  - eexists. vm_compute. done.
  - split; [|done]. eexists. vm_compute. done.
Qed.

End Registry.
