(* ===== verification/Handshake.v ===== *)
(** * Gateway handshake: [handshake/protocol.rs], [server_handshake.rs],
      [client_handshake.rs]

    One frame each way: the client proves possession of an authorised
    Ed25519 key over its ephemeral key, timestamp and gateway name; both
    sides derive the session key from X25519 and HKDF.  The primitives are
    libraries outside this repository and enter as a class with their
    textbook laws. *)

From Stdlib Require Import ZArith Lia Strings.String Strings.Byte.
From stdpp Require Import base tactics list gmap strings.
From S2P Require Import Prelude RustStd.

Local Open Scope Z_scope.

(** [ed25519_dalek], [x25519_dalek], [hkdf] and [AesKey::new].  The fixed
    array types of those crates are the length laws. *)
Class HandshakeCrypto := {
  SigningKey : Type;
  VerifyingKey : Type;
  EphemeralSecret : Type;
  SessionKey : Type;
  verifying_key : SigningKey -> VerifyingKey;
  vk_to_bytes : VerifyingKey -> bytes;
  vk_from_bytes : bytes -> outcome bytes VerifyingKey;
  sign : SigningKey -> bytes -> bytes;
  verify : VerifyingKey -> bytes -> bytes -> outcome bytes unit;
  public_key : EphemeralSecret -> bytes;
  diffie_hellman : EphemeralSecret -> bytes -> bytes;
  hkdf_expand : bytes -> bytes -> bytes -> bytes;
  aes_key_new : bytes -> SessionKey;
  vk_from_to_bytes : forall vk, vk_from_bytes (vk_to_bytes vk) = Ok vk;
  vk_bytes_len : forall vk, length (vk_to_bytes vk) = 32%nat;
  sign_len : forall sk m, length (sign sk m) = 64%nat;
  public_key_len : forall s, length (public_key s) = 32%nat;
  verify_sign : forall sk m, verify (verifying_key sk) m (sign sk m) = Ok tt;
  dh_commutes : forall a b, diffie_hellman a (public_key b) = diffie_hellman b (public_key a)
}.

Module Handshake.

Definition PROTOCOL_VERSION : Z := 1.
Definition HANDSHAKE_TIMESTAMP_TOLERANCE_SECS : Z := 60.
Definition HKDF_INFO : bytes := bs "gateway-session-v1".
Definition MAX_HANDSHAKE_FRAME_LEN : Z := 4096.
Definition MAX_GATEWAY_NAME_LEN : Z := 256.
Definition SIGNED_TRANSCRIPT_PREFIX : bytes := bs "gateway-handshake-v1:".
Definition X25519_PUB_LEN : nat := 32.
Definition ED25519_PUB_LEN : nat := 32.
Definition SIGNATURE_LENGTH : nat := 64.

Record ClientHandshakeFrame := {
  protocol_version : Z;
  client_eph_pub : bytes;
  client_id_pub : bytes;
  timestamp_us : Z;
  gateway_name : bytes;
  signature : bytes
}.

Record ServerHandshakeFrame := {
  server_protocol_version : Z;
  server_eph_pub : bytes
}.

(** [signed_transcript] *)
Definition signed_transcript (eph_pub : bytes) (ts : Z) (name : bytes) : bytes :=
  SIGNED_TRANSCRIPT_PREFIX ++ eph_pub ++ to_le 8 ts ++ name.

Definition prepend_length (body : bytes) : bytes :=
  to_le 4 (Z.of_nat (length body)) ++ body.

(** *** Readers; the cursor is threaded *)

Definition read_u8 (buf : bytes) (cursor : nat) : outcome bytes (Z * nat) :=
  if decide (length buf < cursor + 1)%nat then Err (bs "ClientHandshake: truncated u8")
  else b ← index buf cursor; Ok (u8 b, (cursor + 1)%nat).

Definition read_array (N : nat) (buf : bytes) (cursor : nat) : outcome bytes (bytes * nat) :=
  if decide (length buf < cursor + N)%nat then
    Err (bs "ClientHandshake: truncated [u8; " ++ Str.uint_to_string (Z.of_nat N) ++ bs "]")
  else a ← slice buf cursor (cursor + N)%nat; Ok (a, (cursor + N)%nat).

Definition read_i64 (buf : bytes) (cursor : nat) : outcome bytes (Z * nat) :=
  '(arr, cursor) ← read_array 8 buf cursor; Ok (as_i64 (from_le arr), cursor).

Definition read_u32 (buf : bytes) (cursor : nat) : outcome bytes (Z * nat) :=
  '(arr, cursor) ← read_array 4 buf cursor; Ok (from_le arr, cursor).

(** [ClientHandshakeFrame::encode] *)
Definition client_encode (f : ClientHandshakeFrame) : bytes :=
  prepend_length
    ([u8_of_Z (protocol_version f)] ++ client_eph_pub f ++ client_id_pub f
     ++ to_le 8 (timestamp_us f) ++ to_le 4 (Z.of_nat (length (gateway_name f)))
     ++ gateway_name f ++ signature f).

(** [ClientHandshakeFrame::decode] *)
Definition client_decode (body : bytes) : outcome bytes ClientHandshakeFrame :=
  '(version, cursor) ← read_u8 body 0;
  '(eph_pub, cursor) ← read_array X25519_PUB_LEN body cursor;
  '(id_pub, cursor) ← read_array ED25519_PUB_LEN body cursor;
  '(ts, cursor) ← read_i64 body cursor;
  '(name_len, cursor) ← read_u32 body cursor;
  if MAX_GATEWAY_NAME_LEN <? name_len then
    Err (bs "ClientHandshake: gateway_name too long (" ++ Str.uint_to_string name_len ++ bs ")")
  else
    let name_len := Z.to_nat name_len in
    if decide (length body < cursor + name_len)%nat then
      Err (bs "ClientHandshake: truncated gateway_name")
    else
      raw ← slice body cursor (cursor + name_len)%nat;
      name ← ok_or (Utf8.from_utf8 raw)
        (bs "ClientHandshake: gateway_name is not valid UTF-8");
      let cursor := (cursor + name_len)%nat in
      '(sig, cursor) ← read_array SIGNATURE_LENGTH body cursor;
      if decide (cursor <> length body) then Err (bs "ClientHandshake: trailing bytes")
      else Ok {| protocol_version := version; client_eph_pub := eph_pub;
                 client_id_pub := id_pub; timestamp_us := ts;
                 gateway_name := name; signature := sig |}.

Definition server_encode (f : ServerHandshakeFrame) : bytes :=
  prepend_length ([u8_of_Z (server_protocol_version f)] ++ server_eph_pub f).

Definition server_decode (body : bytes) : outcome bytes ServerHandshakeFrame :=
  if decide (length body <> 1 + X25519_PUB_LEN)%nat then
    Err (bs "ServerHandshake: unexpected length "
         ++ Str.uint_to_string (Z.of_nat (length body)) ++ bs " (want "
         ++ Str.uint_to_string (Z.of_nat (1 + X25519_PUB_LEN)) ++ bs ")")
  else
    b ← index body 0;
    rest ← slice_from body 1;
    Ok {| server_protocol_version := u8 b; server_eph_pub := rest |}.

(** [validate_timestamp].  With overflow checks (debug builds) an [i64]
    overflow panics; without them (release builds) it wraps. *)
Definition validate_timestamp (overflow_checks : bool) (now ts : Z) : outcome bytes unit :=
  diff ← i64_op overflow_checks (now - ts);
  diff_us ← i64_op overflow_checks (Z.abs diff);
  let tolerance_us := HANDSHAKE_TIMESTAMP_TOLERANCE_SECS * 1000000 in
  if tolerance_us <? diff_us then
    Err (bs "Handshake timestamp drifted " ++ Str.int_to_string diff_us ++ bs " us (max "
         ++ Str.int_to_string tolerance_us ++ bs ")")
  else Ok tt.

(** [read_handshake_frame] from the bytes the peer sends before closing;
    returns the body and what follows it. *)
Definition read_exact_or_eof (n : nat) (input : bytes) : outcome bytes (bytes * bytes) :=
  if decide (length input < n)%nat then Err (bs "Peer closed during handshake")
  else Ok (take n input, drop n input).

Definition read_handshake_frame (input : bytes) : outcome bytes (bytes * bytes) :=
  '(len_buf, input) ← read_exact_or_eof 4 input;
  let len := from_le len_buf in
  if (len =? 0) || (MAX_HANDSHAKE_FRAME_LEN <? len) then
    Err (bs "Handshake frame size " ++ Str.uint_to_string len ++ bs " out of range")
  else read_exact_or_eof (Z.to_nat len) input.

Section Crypto.
Context `{HandshakeCrypto}.

(** [build_client_handshake] *)
Definition build_client_handshake (now : Z) (eph_pub : bytes) (signing_key : SigningKey)
    (name : bytes) : ClientHandshakeFrame :=
  {| protocol_version := PROTOCOL_VERSION; client_eph_pub := eph_pub;
     client_id_pub := vk_to_bytes (verifying_key signing_key); timestamp_us := now;
     gateway_name := name;
     signature := sign signing_key (signed_transcript eph_pub now name) |}.

(** [verify_signature] *)
Definition verify_signature (f : ClientHandshakeFrame) (vk : VerifyingKey) : outcome bytes unit :=
  map_err (fun err => bs "Signature verification failed: " ++ err)
    (verify vk (signed_transcript (client_eph_pub f) (timestamp_us f) (gateway_name f))
            (signature f)).

(** [derive_session_key] *)
Definition derive_session_key (client_pub server_pub shared : bytes) : SessionKey :=
  aes_key_new (hkdf_expand (client_pub ++ server_pub) shared HKDF_INFO).

Record ServerHandshakeOutcome := {
  session_key : SessionKey;
  outcome_gateway_name : bytes;
  outcome_timestamp_us : Z
}.

(** [perform_server_handshake]: the bytes written to the stream, and the
    result. *)
Definition perform_server_handshake (overflow_checks : bool) (now : Z)
    (server_secret : EphemeralSecret) (authorized_keys : list VerifyingKey)
    (input : bytes) : outcome bytes (bytes * ServerHandshakeOutcome) :=
  '(body, _) ← read_handshake_frame input;
  client ← client_decode body;
  if negb (protocol_version client =? PROTOCOL_VERSION) then
    Err (bs "ClientHandshake: unsupported protocol_version "
         ++ Str.uint_to_string (protocol_version client))
  else
    _ ← validate_timestamp overflow_checks now (timestamp_us client);
    vk ← map_err (fun err => bs "ClientHandshake: invalid Ed25519 public key bytes: " ++ err)
           (vk_from_bytes (client_id_pub client));
    if negb (existsb (fun k => bool_decide (vk_to_bytes k = vk_to_bytes vk)) authorized_keys) then
      Err (bs "ClientHandshake: client_id_pub is not in authorized_keys")
    else
      _ ← verify_signature client vk;
      let server_pub := public_key server_secret in
      let frame := {| server_protocol_version := PROTOCOL_VERSION; server_eph_pub := server_pub |} in
      let shared := diffie_hellman server_secret (client_eph_pub client) in
      Ok (server_encode frame,
          {| session_key := derive_session_key (client_eph_pub client) server_pub shared;
             outcome_gateway_name := gateway_name client;
             outcome_timestamp_us := timestamp_us client |}).

(** [perform_client_handshake]: what the client writes first ... *)
Definition client_hello (now : Z) (eph_secret : EphemeralSecret) (signing_key : SigningKey)
    (name : bytes) : bytes :=
  client_encode (build_client_handshake now (public_key eph_secret) signing_key name).

(** ... and what it does with the server's answer. *)
Definition client_finish (eph_secret : EphemeralSecret) (input : bytes) : outcome bytes SessionKey :=
  '(server_body, _) ← read_handshake_frame input;
  server ← server_decode server_body;
  if negb (server_protocol_version server =? PROTOCOL_VERSION) then
    Err (bs "ServerHandshake: unsupported protocol_version "
         ++ Str.uint_to_string (server_protocol_version server))
  else
    let shared := diffie_hellman eph_secret (server_eph_pub server) in
    Ok (derive_session_key (public_key eph_secret) (server_eph_pub server) shared).

End Crypto.

(** ** Lemmas *)

(** A reader applied where the field [a] starts. *)
Lemma read_array_at N buf c a rest :
  (c <= length buf)%nat -> drop c buf = a ++ rest -> length a = N ->
  read_array N buf c = Ok (a, (c + N)%nat) /\
  (c + N <= length buf)%nat /\ drop (c + N) buf = rest.
Proof.
  intros Hc Hd <-.
  assert (length buf = c + length a + length rest)%nat as Hl.
  { apply (f_equal length) in Hd. rewrite length_drop, length_app in Hd. lia. }
  unfold read_array. rewrite decide_False by lia. rewrite slice_ok by lia.
  rewrite Hd. replace (c + length a - c)%nat with (length a) by lia.
  rewrite take_app_length. split_and!; [done|lia|].
  by rewrite <-drop_drop, Hd, drop_app_length.
Qed.

Definition frame_wf (f : ClientHandshakeFrame) : Prop :=
  0 <= protocol_version f < 256 /\ length (client_eph_pub f) = X25519_PUB_LEN /\
  length (client_id_pub f) = ED25519_PUB_LEN /\ in_i64 (timestamp_us f) /\
  Utf8.valid (gateway_name f) = true /\
  Z.of_nat (length (gateway_name f)) <= MAX_GATEWAY_NAME_LEN /\
  length (signature f) = SIGNATURE_LENGTH.

Definition client_body (f : ClientHandshakeFrame) : bytes :=
  [u8_of_Z (protocol_version f)] ++ client_eph_pub f ++ client_id_pub f
  ++ to_le 8 (timestamp_us f) ++ to_le 4 (Z.of_nat (length (gateway_name f)))
  ++ gateway_name f ++ signature f.

Lemma client_decode_body f : frame_wf f -> client_decode (client_body f) = Ok f.
Proof.
  destruct f as [v ep ip ts name sig].
  unfold frame_wf, client_body, X25519_PUB_LEN, ED25519_PUB_LEN, SIGNATURE_LENGTH; simpl.
  intros (Hv & He & Hi & Ht & Hn & Hl & Hs).
  set (l := u8_of_Z v :: _).
  assert (length l = (1 + 32 + 32 + 8 + 4 + length name + 64)%nat) as Hlen
    by (unfold l; cbn [length]; rewrite !length_app, !length_to_le; lia).
  destruct (read_array_at 32 l 1 ep _ ltac:(lia) eq_refl He) as (R1 & L1 & D1).
  destruct (read_array_at 32 l _ ip _ L1 D1 Hi) as (R2 & L2 & D2).
  destruct (read_array_at 8 l _ (to_le 8 ts) _ L2 D2 (length_to_le _ _)) as (R3 & L3 & D3).
  destruct (read_array_at 4 l _ (to_le 4 (Z.of_nat (length name))) _ L3 D3 (length_to_le _ _))
    as (R4 & L4 & D4).
  destruct (read_array_at (length name) l _ name _ L4 D4 eq_refl) as (_ & L5 & D5).
  destruct (read_array_at 64 l _ sig [] L5 ltac:(by rewrite app_nil_r) Hs) as (R6 & L6 & _).
  unfold client_decode, read_u8, read_i64, read_u32, X25519_PUB_LEN, ED25519_PUB_LEN, SIGNATURE_LENGTH.
  rewrite decide_False by lia. rewrite (index_ok l 0 (u8_of_Z v)) by done. cbn [mbind outcome_bind].
  change (0 + 1)%nat with 1%nat.
  rewrite R1. cbn [mbind outcome_bind]. rewrite R2. cbn [mbind outcome_bind].
  rewrite R3. cbn [mbind outcome_bind]. rewrite R4. cbn [mbind outcome_bind].
  rewrite from_le_to_le_small by (unfold MAX_GATEWAY_NAME_LEN in Hl; change (8 * Z.of_nat 4) with 32; lia).
  rewrite (proj2 (Z.ltb_ge MAX_GATEWAY_NAME_LEN _)) by done. rewrite Nat2Z.id.
  rewrite decide_False by lia. rewrite slice_ok by lia. cbn [mbind outcome_bind].
  rewrite D4. replace (1 + 32 + 32 + 8 + 4 + length name - (1 + 32 + 32 + 8 + 4))%nat
    with (length name) by lia.
  rewrite take_app_length. unfold Utf8.from_utf8. rewrite Hn. cbn [ok_or mbind outcome_bind].
  rewrite R6. cbn [mbind outcome_bind]. rewrite decide_False by lia.
  rewrite u8_u8_of_Z, Z.mod_small, from_le_to_le by done.
  change (8 * Z.of_nat 8) with 64. by rewrite as_i64_small.
Qed.

Lemma read_frame_prepend body rest :
  body <> [] -> Z.of_nat (length body) <= MAX_HANDSHAKE_FRAME_LEN ->
  read_handshake_frame (prepend_length body ++ rest) = Ok (body, rest).
Proof.
  intros Hne Hl. unfold prepend_length, read_handshake_frame, read_exact_or_eof.
  rewrite <-app_assoc, decide_False by (rewrite !length_app, length_to_le; lia).
  cbn [mbind outcome_bind].
  rewrite take_app_le, take_ge by (rewrite length_to_le; lia).
  rewrite from_le_to_le_small
    by (unfold MAX_HANDSHAKE_FRAME_LEN in Hl; change (8 * Z.of_nat 4) with 32; lia).
  assert ((Z.of_nat (length body) =? 0) || (MAX_HANDSHAKE_FRAME_LEN <? Z.of_nat (length body)) = false)
    as ->.
  { apply orb_false_iff. split; [apply Z.eqb_neq|by apply Z.ltb_ge].
    destruct body; [done|]. cbn [length]. lia. }
  rewrite drop_app_ge, length_to_le by (rewrite length_to_le; lia).
  change (4 - 4)%nat with 0%nat.
  rewrite drop_0, Nat2Z.id, decide_False by (rewrite length_app; lia).
  by rewrite take_app_length, drop_app_length.
Qed.

Lemma client_body_length f :
  frame_wf f -> length (client_body f) = (141 + length (gateway_name f))%nat.
Proof.
  unfold frame_wf, client_body, X25519_PUB_LEN, ED25519_PUB_LEN, SIGNATURE_LENGTH.
  intros (_ & He & Hi & _ & _ & _ & Hs).
  rewrite !length_app, !length_to_le, He, Hi, Hs. simpl. lia.
Qed.

(** What [read_array] can return. *)
Lemma read_array_Ok N buf c a c' :
  read_array N buf c = Ok (a, c') ->
  c' = (c + N)%nat /\ (c' <= length buf)%nat /\ a = take N (drop c buf) /\ length a = N.
Proof.
  unfold read_array. case_decide; [done|]. rewrite slice_ok by lia. intros [= <- <-].
  replace (c + N - c)%nat with N by lia. split_and!; [done|lia|done|].
  rewrite length_take, length_drop. lia.
Qed.

Lemma read_array_no_panic N buf c : read_array N buf c <> Panic.
Proof. unfold read_array. case_decide; [done|]. by rewrite slice_ok by lia. Qed.

(** The client frame codec is exact: encoding then reading and decoding
    a well-formed frame returns it, and nothing of the stream behind the
    frame is consumed. *)
Theorem client_frame_roundtrip f rest :
  frame_wf f ->
  exists body, read_handshake_frame (client_encode f ++ rest) = Ok (body, rest) /\
               client_decode body = Ok f.
Proof.
  intros Hw. exists (client_body f). split; [|by apply client_decode_body].
  pose proof (client_body_length f Hw) as Hl.
  change (client_encode f) with (prepend_length (client_body f)).
  apply read_frame_prepend; [done|]. destruct Hw as (_ & _ & _ & _ & _ & Hn & _).
  unfold MAX_GATEWAY_NAME_LEN, MAX_HANDSHAKE_FRAME_LEN in *. lia.
Qed.

Lemma drop_take_more (l : bytes) c N : drop c l = take N (drop c l) ++ drop (c + N) l.
Proof. by rewrite <-drop_drop, take_drop. Qed.

(** The decoder as one equation: the seven reads, or an [Err]. *)
Lemma client_decode_cases body :
  (exists e, client_decode body = Err e) \/
  exists b name_len,
    let f := {| protocol_version := u8 b;
                client_eph_pub := take 32 (drop 1 body);
                client_id_pub := take 32 (drop (1 + 32) body);
                timestamp_us := as_i64 (from_le (take 8 (drop (1 + 32 + 32) body)));
                gateway_name := take name_len (drop (1 + 32 + 32 + 8 + 4) body);
                signature := take 64 (drop (1 + 32 + 32 + 8 + 4 + name_len) body) |} in
    client_decode body = Ok f /\ body !! 0%nat = Some b /\
    Z.of_nat name_len = from_le (take 4 (drop (1 + 32 + 32 + 8) body)) /\
    Z.of_nat name_len <= MAX_GATEWAY_NAME_LEN /\
    Utf8.valid (gateway_name f) = true /\
    length body = (1 + 32 + 32 + 8 + 4 + name_len + 64)%nat.
Proof.
  unfold client_decode, read_u8, read_i64, read_u32, X25519_PUB_LEN, ED25519_PUB_LEN, SIGNATURE_LENGTH.
  case_decide; [left; eauto|].
  destruct (lookup_lt_is_Some_2 body 0 ltac:(lia)) as [b Hb].
  rewrite (index_ok _ _ _ Hb). cbn [mbind outcome_bind]. change (0 + 1)%nat with 1%nat.
  destruct (read_array 32 body 1) as [[ep c1]| |] eqn:E1;
    [|left; eauto|by apply read_array_no_panic in E1]. cbn [mbind outcome_bind].
  apply read_array_Ok in E1 as (-> & _ & -> & _).
  destruct (read_array 32 body _) as [[ip c2]| |] eqn:E2;
    [|left; eauto|by apply read_array_no_panic in E2]. cbn [mbind outcome_bind].
  apply read_array_Ok in E2 as (-> & _ & -> & _).
  destruct (read_array 8 body _) as [[ts c3]| |] eqn:E3;
    [|left; eauto|by apply read_array_no_panic in E3]. cbn [mbind outcome_bind].
  apply read_array_Ok in E3 as (-> & _ & -> & _).
  destruct (read_array 4 body _) as [[nl c4]| |] eqn:E4;
    [|left; eauto|by apply read_array_no_panic in E4]. cbn [mbind outcome_bind].
  apply read_array_Ok in E4 as (-> & _ & -> & _).
  destruct (Z.ltb_spec MAX_GATEWAY_NAME_LEN (from_le (take 4 (drop (1 + 32 + 32 + 8) body))));
    [left; eauto|].
  pose proof (from_le_range (take 4 (drop (1 + 32 + 32 + 8) body))) as [Hpos _].
  set (name_len := Z.to_nat (from_le (take 4 (drop (1 + 32 + 32 + 8) body)))).
  case_decide; [left; eauto|]. rewrite slice_ok by lia. cbn [mbind outcome_bind].
  replace (1 + 32 + 32 + 8 + 4 + name_len - (1 + 32 + 32 + 8 + 4))%nat with name_len by lia.
  unfold Utf8.from_utf8. destruct (Utf8.valid _) eqn:Hv; [|left; simpl; eauto].
  cbn [ok_or mbind outcome_bind].
  destruct (read_array 64 body _) as [[sg c5]| |] eqn:E5;
    [|left; eauto|by apply read_array_no_panic in E5]. cbn [mbind outcome_bind].
  apply read_array_Ok in E5 as (-> & _ & -> & _).
  case_decide; [left; eauto|]. right. exists b, name_len. cbv zeta.
  split_and!; try done; unfold name_len; lia.
Qed.

(** The body cut at the field offsets. *)
Lemma body_split (body : bytes) b n :
  body !! 0%nat = Some b -> length body = (1 + 32 + 32 + 8 + 4 + n + 64)%nat ->
  body = [b] ++ take 32 (drop 1 body) ++ take 32 (drop (1 + 32) body)
         ++ take 8 (drop (1 + 32 + 32) body) ++ take 4 (drop (1 + 32 + 32 + 8) body)
         ++ take n (drop (1 + 32 + 32 + 8 + 4) body)
         ++ take 64 (drop (1 + 32 + 32 + 8 + 4 + n) body).
Proof.
  intros Hb Hl.
  rewrite (take_ge (drop (1 + 32 + 32 + 8 + 4 + n) body)) by (rewrite length_drop; lia).
  rewrite <-!drop_take_more. destruct body as [|b' t]; [done|]. simpl in Hb. by simplify_eq.
Qed.

Lemma client_decode_wf body f :
  client_decode body = Ok f -> frame_wf f /\ client_encode f = prepend_length body.
Proof.
  destruct (client_decode_cases body) as [[e ->]|(b & n & -> & Hb & Hn & Hmax & Hv & Hl)];
    [done|].
  intros [= <-]. cbn [gateway_name] in Hv.
  assert (forall N c, (c + N <= length body)%nat -> length (take N (drop c body)) = N) as HL
    by (intros; rewrite length_take, length_drop; lia).
  split.
  - unfold frame_wf, X25519_PUB_LEN, ED25519_PUB_LEN, SIGNATURE_LENGTH. cbn -[Nat.add].
    pose proof (u8_range b).
    split; [done|]. split; [apply HL; lia|]. split; [apply HL; lia|].
    split; [apply as_i64_range|]. split; [done|].
    split; [by rewrite HL by lia|apply HL; lia].
  - unfold client_encode.
    cbn [protocol_version client_eph_pub client_id_pub timestamp_us gateway_name signature].
    rewrite u8_of_Z_u8, to_le_as_i64 by (apply HL; lia). rewrite HL by lia. rewrite Hn.
    rewrite (to_le_from_le_n 4) by (apply HL; lia). 
    exact (f_equal prepend_length (eq_sym (body_split body b n Hb Hl))).
Qed.

(** Decoding never panics, and a decoded frame is well formed and is the
    only content of its body: re-encoding it gives the body back. *)
Theorem client_decode_sound body :
  client_decode body <> Panic /\
  forall f, client_decode body = Ok f -> frame_wf f /\ client_encode f = prepend_length body.
Proof.
  split; [|apply client_decode_wf].
  by destruct (client_decode_cases body) as [[e ->]|(b & n & -> & _)].
Qed.

(** A frame read is a prefix of the input in front of its length. *)
Lemma read_handshake_frame_Ok input body rest :
  read_handshake_frame input = Ok (body, rest) -> input = prepend_length body ++ rest.
Proof.
  unfold read_handshake_frame, read_exact_or_eof. case_decide; [done|]. cbn [mbind outcome_bind].
  destruct (_ || _); [done|]. case_decide as Hd; [done|]. intros [= <- <-].
  rewrite length_drop in Hd. pose proof (from_le_range (take 4 input)) as [Hp _].
  unfold prepend_length. rewrite length_take, length_drop, Nat.min_l by lia.
  rewrite Z2Nat.id by done. rewrite to_le_from_le_n by (rewrite length_take; lia).
  by rewrite <-app_assoc, !take_drop.
Qed.

(** *** The clock check *)

Lemma as_i64_over z : 2 ^ 63 <= z < 2 ^ 64 -> as_i64 z = z - 2 ^ 64.
Proof.
  intros Hz. unfold as_i64.
  replace (z + 2 ^ 63) with (z - 2 ^ 63 + 1 * 2 ^ 64) by lia.
  rewrite Z.mod_add, Z.mod_small by lia. lia.
Qed.

(** With a clock in the years 1970 to 148,000 the check accepts exactly
    the timestamps at most 60 s away from it, in both directions, plus, in
    builds without overflow checks, the one timestamp 2^63 us before it
    (the wrapped difference is its own negation, so [abs] leaves it
    negative); builds with overflow checks panic on every timestamp that
    far back instead. *)
Theorem validate_timestamp_exact oc now ts :
  0 <= now < 2 ^ 62 -> in_i64 ts ->
  (validate_timestamp oc now ts = Ok tt <->
   Z.abs (now - ts) <= 60 * 1000000 \/ (oc = false /\ ts = now - 2 ^ 63)) /\
  (validate_timestamp oc now ts = Panic <-> oc = true /\ 2 ^ 63 <= now - ts).
Proof.
  intros Hnow Hts. unfold in_i64 in Hts. unfold validate_timestamp, i64_op.
  set (tol := HANDSHAKE_TIMESTAMP_TOLERANCE_SECS * 1000000).
  assert (tol = 60000000) as Htol by done.
  destruct (decide (now - ts < 2 ^ 63)) as [Hlt|Hge].
  - rewrite bool_decide_eq_true_2 by lia. cbn [mbind outcome_bind].
    rewrite bool_decide_eq_true_2 by lia. cbn [mbind outcome_bind].
    destruct (Z.ltb_spec tol (Z.abs (now - ts))); split; split; intros Hx;
      try done; try lia; destruct Hx as [Hx|[_ Hx]]; lia.
  - rewrite bool_decide_eq_false_2 by lia. destruct oc; cbn [mbind outcome_bind].
    { split; split; try done; [intros [?|[? _]]; [lia|done]|split; [done|lia]]. }
    rewrite as_i64_over by lia.
    destruct (decide (now - ts = 2 ^ 63)) as [He|Hne].
    + rewrite bool_decide_eq_false_2 by lia. cbn [mbind outcome_bind].
      rewrite as_i64_over by lia.
      destruct (Z.ltb_spec tol (Z.abs (now - ts - 2 ^ 64) - 2 ^ 64)); [lia|].
      split; split; try done; [intros _; right; split; [done|lia]|intros [? _]; done].
    + rewrite bool_decide_eq_true_2 by lia. cbn [mbind outcome_bind].
      destruct (Z.ltb_spec tol (Z.abs (now - ts - 2 ^ 64))); [|lia].
      split; split; try done; [intros [?|[_ ?]]; lia|intros [? _]; done].
Qed.

Lemma validate_timestamp_exact_witness :
  validate_timestamp false 1700000000000000 (1700000000000000 - 2 ^ 63) = Ok tt /\
  validate_timestamp true 1700000000000000 (1700000000000000 - 2 ^ 63) = Panic.
Proof.
  split.
  - apply (validate_timestamp_exact false 1700000000000000); [lia|unfold in_i64; lia|].
    right. split; reflexivity.
  - apply (validate_timestamp_exact true 1700000000000000); [lia|unfold in_i64; lia|].
    split; [reflexivity|lia].
Defined.

(** ** The two sides together *)
Section Agreement.
Context `{HandshakeCrypto}.

Lemma build_client_handshake_wf now es sk name :
  in_i64 now -> Utf8.valid name = true -> Z.of_nat (length name) <= MAX_GATEWAY_NAME_LEN ->
  frame_wf (build_client_handshake now (public_key es) sk name).
Proof.
  intros. unfold frame_wf, build_client_handshake; cbn [protocol_version client_eph_pub
    client_id_pub timestamp_us gateway_name signature].
  split_and!; try done; [apply public_key_len|apply vk_bytes_len|apply sign_len].
Qed.

Lemma client_frame_read f rest :
  frame_wf f -> read_handshake_frame (client_encode f ++ rest) = Ok (client_body f, rest).
Proof.
  intros Hw. pose proof (client_body_length f Hw) as Hl.
  change (client_encode f) with (prepend_length (client_body f)).
  apply read_frame_prepend; [done|]. destruct Hw as (_ & _ & _ & _ & _ & Hn & _).
  unfold MAX_GATEWAY_NAME_LEN, MAX_HANDSHAKE_FRAME_LEN in *. lia.
Qed.

Lemma server_frame_read pub rest :
  length pub = 32%nat ->
  read_handshake_frame (server_encode {| server_protocol_version := 1; server_eph_pub := pub |} ++ rest)
  = Ok (u8_of_Z 1 :: pub, rest).
Proof.
  intros Hl. unfold server_encode. cbn [server_protocol_version server_eph_pub app].
  apply read_frame_prepend; [done|]. cbn [length]. rewrite Hl. unfold MAX_HANDSHAKE_FRAME_LEN. lia.
Qed.

Lemma server_decode_frame pub :
  length pub = 32%nat ->
  server_decode (u8_of_Z 1 :: pub) = Ok {| server_protocol_version := 1; server_eph_pub := pub |}.
Proof.
  intros Hl. unfold server_decode, X25519_PUB_LEN.
  rewrite decide_False by (cbn [length]; rewrite Hl; tauto).
  rewrite (index_ok _ 0 (u8_of_Z 1)) by done. cbn [mbind outcome_bind].
  rewrite slice_from_ok by (cbn [length]; lia). cbn [mbind outcome_bind drop].
  by rewrite u8_u8_of_Z.
Qed.

Lemma validate_timestamp_near oc now ts :
  0 <= now < 2 ^ 62 -> Z.abs (now - ts) <= 60 * 1000000 -> validate_timestamp oc now ts = Ok tt.
Proof.
  intros. unfold validate_timestamp, i64_op. rewrite bool_decide_eq_true_2 by lia.
  cbn [mbind outcome_bind]. rewrite bool_decide_eq_true_2 by lia. cbn [mbind outcome_bind].
  destruct (Z.ltb_spec (HANDSHAKE_TIMESTAMP_TOLERANCE_SECS * 1000000) (Z.abs (now - ts))); [|done].
  unfold HANDSHAKE_TIMESTAMP_TOLERANCE_SECS in *. lia.
Qed.

(** C13: a client whose key is authorised and whose clock is within 60 s of
    the server's is accepted, the server learns its gateway name, the client
    accepts the answer, and both hold the same session key, whatever either
    peer sends behind its frame. *)
Theorem handshake_agrees oc now_c now_s es ss sk name keys rest rest' :
  verifying_key sk ∈ keys ->
  Utf8.valid name = true -> Z.of_nat (length name) <= MAX_GATEWAY_NAME_LEN ->
  0 <= now_c < 2 ^ 62 -> 0 <= now_s < 2 ^ 62 -> Z.abs (now_s - now_c) <= 60 * 1000000 ->
  exists reply out,
    perform_server_handshake oc now_s ss keys (client_hello now_c es sk name ++ rest) = Ok (reply, out) /\
    client_finish es (reply ++ rest') = Ok (session_key out) /\
    outcome_gateway_name out = name /\ outcome_timestamp_us out = now_c.
Proof.
  intros Hk Hv Hl Hc Hs Hd.
  assert (frame_wf (build_client_handshake now_c (public_key es) sk name)) as Hw
    by (apply build_client_handshake_wf; [unfold in_i64; lia|done|done]).
  unfold perform_server_handshake, client_hello. rewrite client_frame_read by done.
  cbn [mbind outcome_bind]. rewrite client_decode_body by done.
  cbn [mbind outcome_bind build_client_handshake protocol_version client_eph_pub
       client_id_pub timestamp_us gateway_name signature].
  change (negb (PROTOCOL_VERSION =? PROTOCOL_VERSION)) with false. cbn iota.
  rewrite validate_timestamp_near by done. cbn [mbind outcome_bind].
  rewrite vk_from_to_bytes. cbn [map_err mbind outcome_bind].
  assert (existsb (fun k => bool_decide (vk_to_bytes k = vk_to_bytes (verifying_key sk))) keys = true)
    as ->.
  { apply existsb_exists. exists (verifying_key sk). split; [by apply list_elem_of_In|].
    by apply bool_decide_eq_true_2. }
  cbn [negb]. unfold verify_signature.
  cbn [build_client_handshake client_eph_pub timestamp_us gateway_name signature].
  rewrite verify_sign. cbn [map_err mbind outcome_bind].
  eexists _, _. split; [reflexivity|]. split; [|done].
  unfold client_finish. rewrite server_frame_read by apply public_key_len.
  cbn [mbind outcome_bind]. rewrite server_decode_frame by apply public_key_len.
  cbn [mbind outcome_bind server_protocol_version server_eph_pub session_key].
  change (negb (1 =? PROTOCOL_VERSION)) with false. cbn iota.
  by rewrite dh_commutes.
Qed.

(** C14: the server answers, and a session key exists, only for a frame of
    protocol version 1 that carries the bytes of an authorised key, a
    signature of that key over exactly this ephemeral key, timestamp and
    name, and a timestamp its clock check accepted; on every other input
    it returns an error (or panics) before writing anything. *)
Theorem server_accepts_only_authorized oc now ss keys input reply out :
  perform_server_handshake oc now ss keys input = Ok (reply, out) ->
  exists f vk k,
    frame_wf f /\ (exists rest, input = client_encode f ++ rest) /\
    protocol_version f = 1 /\ validate_timestamp oc now (timestamp_us f) = Ok tt /\
    vk_from_bytes (client_id_pub f) = Ok vk /\ k ∈ keys /\ vk_to_bytes k = vk_to_bytes vk /\
    verify vk (signed_transcript (client_eph_pub f) (timestamp_us f) (gateway_name f))
           (signature f) = Ok tt /\
    outcome_gateway_name out = gateway_name f /\ outcome_timestamp_us out = timestamp_us f /\
    reply = server_encode {| server_protocol_version := 1; server_eph_pub := public_key ss |} /\
    session_key out = derive_session_key (client_eph_pub f) (public_key ss)
                        (diffie_hellman ss (client_eph_pub f)).
Proof.
  unfold perform_server_handshake.
  destruct (read_handshake_frame input) as [[body rest]| |] eqn:Hr; [|done|done].
  cbn [mbind outcome_bind].
  destruct (client_decode body) as [f| |] eqn:Hd; [|done|done]. cbn [mbind outcome_bind].
  destruct (Z.eqb_spec (protocol_version f) PROTOCOL_VERSION) as [Hver|]; [|done]. cbn [negb].
  destruct (validate_timestamp oc now (timestamp_us f)) as [[]| |] eqn:Ht; [|done|done].
  cbn [mbind outcome_bind].
  destruct (vk_from_bytes (client_id_pub f)) as [vk| |] eqn:Hvk; [|done|done].
  cbn [map_err mbind outcome_bind].
  destruct (existsb _ keys) eqn:He; [|done]. cbn [negb].
  apply existsb_exists in He as (k & Hin & Hk). apply bool_decide_eq_true_1 in Hk.
  unfold verify_signature.
  destruct (verify vk _ _) as [[]| |] eqn:Hs; [|done|done]. cbn [map_err mbind outcome_bind].
  intros [= <- <-].
  destruct (client_decode_wf body f Hd) as [Hw Hb].
  exists f, vk, k. split_and!; try done; [|by apply list_elem_of_In].
  exists rest. rewrite Hb. by apply read_handshake_frame_Ok.
Qed.

End Agreement.

(** *** A concrete instance of the primitives *)

Definition toy_vk_bytes (b : bool) : bytes := replicate 32 (if b then Byte.x01 else Byte.x00).
Definition toy_sign (b : bool) (m : bytes) : bytes :=
  replicate 63 (u8_of_Z (Z.of_nat (length m))) ++ [if b then Byte.x01 else Byte.x00].
Definition toy_shared (a : byte) (peer : bytes) : bytes :=
  match peer with b :: _ => [u8_of_Z (u8 a + u8 b)] | [] => [] end.

#[local] Program Instance toy_crypto : HandshakeCrypto := {|
  SigningKey := bool; VerifyingKey := bool; EphemeralSecret := byte; SessionKey := bytes;
  verifying_key := fun b => b;
  vk_to_bytes := toy_vk_bytes;
  vk_from_bytes := fun l =>
    if decide (l = toy_vk_bytes true) then Ok true
    else if decide (l = toy_vk_bytes false) then Ok false else Err (bs "bad point");
  sign := toy_sign;
  verify := fun b m s => if decide (s = toy_sign b m) then Ok tt else Err (bs "bad signature");
  public_key := fun s => replicate 32 s;
  diffie_hellman := toy_shared;
  hkdf_expand := fun salt ikm info => salt ++ ikm ++ info;
  aes_key_new := fun okm => okm
|}.
Next Obligation. intros []; vm_compute; reflexivity. Qed.
Next Obligation. intros []; reflexivity. Qed.
Next Obligation. intros b m. unfold toy_sign. by rewrite length_app, length_replicate. Qed.
Next Obligation. intros s. apply length_replicate. Qed.
Next Obligation. intros b m. simpl. by case_decide. Qed.
Next Obligation. intros a b. cbn. by rewrite Z.add_comm. Qed.

Definition sample_client : @EphemeralSecret toy_crypto := Byte.x02.
Definition sample_server : @EphemeralSecret toy_crypto := Byte.x05.
Definition sample_key : @SigningKey toy_crypto := true.
Definition sample_frame : ClientHandshakeFrame :=
  build_client_handshake 7000000 (public_key sample_client) sample_key (bs "gw").

Lemma sample_frame_wf : frame_wf sample_frame.
Proof. by apply build_client_handshake_wf. Qed.

Lemma client_frame_roundtrip_witness :
  exists body, read_handshake_frame (client_encode sample_frame ++ bs "next") = Ok (body, bs "next") /\
               client_decode body = Ok sample_frame.
Proof. apply client_frame_roundtrip. exact sample_frame_wf. Defined.

Lemma client_decode_sound_witness :
  client_encode sample_frame = prepend_length (client_body sample_frame).
Proof.
  apply (proj2 (client_decode_sound (client_body sample_frame))).
  vm_compute; reflexivity.
Defined.

Definition sample_keys : list (@VerifyingKey toy_crypto) := [false; true].

Lemma sample_key_authorized : verifying_key sample_key ∈ sample_keys.
Proof. apply list_elem_of_further, list_elem_of_here. Qed.

Lemma sample_name_ok :
  Utf8.valid (bs "gw") = true /\ Z.of_nat (length (bs "gw")) <= MAX_GATEWAY_NAME_LEN.
Proof. split; [vm_compute; reflexivity|vm_compute; discriminate]. Qed.

Lemma handshake_agrees_witness :
  exists reply out,
    perform_server_handshake true 9000000 sample_server sample_keys
      (client_hello 7000000 sample_client sample_key (bs "gw") ++ bs "next") = Ok (reply, out) /\
    client_finish sample_client (reply ++ bs "more") = Ok (session_key out) /\
    outcome_gateway_name out = bs "gw" /\ outcome_timestamp_us out = 7000000.
Proof.
  assert (0 <= 7000000 < 2 ^ 62) as Hc by lia.
  assert (0 <= 9000000 < 2 ^ 62) as Hs by lia.
  assert (Z.abs (9000000 - 7000000) <= 60 * 1000000) as Hd by lia.
  pose proof (handshake_agrees true 7000000 9000000 sample_client sample_server sample_key
    (bs "gw") sample_keys (bs "next") (bs "more") sample_key_authorized
    (proj1 sample_name_ok) (proj2 sample_name_ok)) as Hx.
  specialize (Hx Hc Hs). specialize (Hx Hd). exact Hx.
Defined.

Lemma sample_accepted :
  is_ok (perform_server_handshake true 9000000 sample_server sample_keys
           (client_hello 7000000 sample_client sample_key (bs "gw"))) = true.
Proof. vm_compute. reflexivity. Qed.

Lemma server_accepts_only_authorized_witness :
  exists (f : ClientHandshakeFrame) (k : @VerifyingKey toy_crypto),
    frame_wf f /\ protocol_version f = 1 /\ k ∈ sample_keys.
Proof.
  pose proof sample_accepted as Ha.
  destruct (perform_server_handshake true 9000000 sample_server sample_keys
    (client_hello 7000000 sample_client sample_key (bs "gw"))) as [[reply out]| |] eqn:He;
    [|discriminate|discriminate].
  destruct (server_accepts_only_authorized _ _ _ _ _ _ _ He)
    as (f & vk & k & Hw & _ & Hv & _ & _ & Hk & _).
  exists f, k. split_and!; assumption.
Defined.

End Handshake.
