(* ===== verification/LoopBuffer.v ===== *)
(** * The socket buffer: [tcp_utils/loop_buffer.rs] and the read half of
      [network_stream/split/read_part.rs]

    A fixed block of memory with a window of unread bytes, and the trait
    method through which every transport fills it.  The abstract contract is
    a byte queue: [get_data] shows the queue, [commit_read] pops, a read into
    [get_mut] followed by [advance] pushes. *)

From Stdlib Require Import ZArith Lia Strings.Byte.
From stdpp Require Import base tactics list strings.
From S2P Require Import Prelude RustStd.

Local Open Scope Z_scope.

(** [network_error.rs]; durations in nanoseconds, the payloads of foreign error types are their text. *)
Inductive NetworkError :=
  | Timeout (d : Z)
  | Disconnected
  | IoError (e : bytes)
  | OtherStr (s : bytes)
  | Other (s : bytes)
  | MyHttpClientError (e : bytes).

Module LoopBuffer.

Definition BUFFER_CAPACITY : Z := 1024 * 1024.

Record t := { data : bytes; read_from : nat; read_to : nat }.

(** [new]: the block is left uninitialised, so its contents are an argument. *)
Definition new (uninit : bytes) : t := {| data := uninit; read_from := 0; read_to := 0 |}.

Definition advance (size : nat) (b : t) : t :=
  {| data := data b; read_from := read_from b; read_to := read_to b + size |}.

Definition commit_read (size : nat) (b : t) : t :=
  {| data := data b; read_from := read_from b + size; read_to := read_to b |}.

(** [get_data] *)
Definition get_data {E} (b : t) : outcome E bytes := slice (data b) (read_from b) (read_to b).

(** The copy loop of [gc]: one byte at a time, upwards, within one block. *)
Fixpoint copy_down (n i to : nat) (d : bytes) : bytes :=
  match n with
  | O => d
  | S n =>
      match d !! i with
      | Some b => copy_down n (S i) (S to) (<[to := b]> d)
      | None => d
      end
  end.

(** [gc] *)
Definition gc (b : t) : t :=
  if decide (read_from b = 0%nat) then b
  else if decide (read_from b = read_to b) then {| data := data b; read_from := 0; read_to := 0 |}
  else if 65535 <? Z.of_nat (length (data b)) - Z.of_nat (read_to b) then b
  else {| data := copy_down (read_to b - read_from b) (read_from b) 0 (data b);
          read_from := 0; read_to := read_to b - read_from b |}.

(** [get_mut]: the size of the writable tail, after [gc]. *)
Definition get_mut (b : t) : t * option nat :=
  let b := gc b in
  if decide (length (data b) <= read_to b)%nat then (b, None)
  else (b, Some (length (data b) - read_to b)%nat).

(** A read stores what arrived at the start of the writable tail. *)
Definition store (chunk : bytes) (b : t) : t :=
  {| data := take (read_to b) (data b) ++ chunk ++ drop (read_to b + length chunk) (data b);
     read_from := read_from b; read_to := read_to b |}.

(** ** The queue the buffer implements *)

Definition inv (b : t) : Prop := (read_from b <= read_to b <= length (data b))%nat.

Definition queue (b : t) : bytes := take (read_to b - read_from b) (drop (read_from b) (data b)).

Lemma get_data_queue {E} b : inv b -> get_data (E:=E) b = Ok (queue b).
Proof. intros []. unfold get_data. by rewrite slice_ok by lia. Qed.

Lemma queue_length b : inv b -> length (queue b) = (read_to b - read_from b)%nat.
Proof. intros []. unfold queue. rewrite length_take, length_drop. lia. Qed.

Lemma new_queue d : inv (new d) /\ queue (new d) = [].
Proof. split; [unfold inv; simpl; lia|done]. Qed.

Lemma commit_queue n b :
  inv b -> (n <= length (queue b))%nat ->
  inv (commit_read n b) /\ queue (commit_read n b) = drop n (queue b) /\
  length (data (commit_read n b)) = length (data b).
Proof.
  intros Hi. rewrite queue_length by done. unfold inv, queue in *; simpl. intros.
  split; [lia|]. split; [|done].
  rewrite skipn_firstn_comm, drop_drop. f_equal. lia.
Qed.

Lemma store_advance_queue chunk b :
  inv b -> (length chunk <= length (data b) - read_to b)%nat ->
  inv (advance (length chunk) (store chunk b)) /\
  queue (advance (length chunk) (store chunk b)) = queue b ++ chunk /\
  length (data (advance (length chunk) (store chunk b))) = length (data b).
Proof.
  intros Hi Hc. unfold inv, queue in *; simpl.
  assert (length (take (read_to b) (data b) ++ chunk ++ drop (read_to b + length chunk) (data b))
          = length (data b)) as Hl
    by (rewrite !length_app, length_take, length_drop; lia).
  rewrite Hl. split; [lia|]. split; [|done].
  rewrite drop_app_le by (rewrite length_take; lia).
  rewrite skipn_firstn_comm, (assoc_L (++)), take_app_le
    by (rewrite length_app, length_take, length_drop; lia).
  apply take_ge. rewrite length_app, length_take, length_drop. lia.
Qed.

(** The copy moves the window to the front of the block, although source
    and target may overlap. *)
Lemma copy_down_spec n : forall i to d,
  (to <= i)%nat -> (i + n <= length d)%nat ->
  length (copy_down n i to d) = length d /\
  take to (copy_down n i to d) = take to d /\
  take n (drop to (copy_down n i to d)) = take n (drop i d).
Proof.
  induction n as [|n IH]; intros i to d Ht Hl; [done|]. cbn [copy_down].
  destruct (lookup_lt_is_Some_2 d i ltac:(lia)) as [b Hb]. rewrite Hb.
  destruct (IH (S i) (S to) (<[to := b]> d)) as (IL & IT & ID);
    [lia|rewrite length_insert; lia|].
  rewrite length_insert in IL. split; [done|].
  assert (forall (l : bytes) k x m, l !! k = Some x -> take (S m) (drop k l) = x :: take m (drop (S k) l)) as Hcons.
  { intros l k x m Hk. by rewrite (drop_S l x k Hk). }
  assert (copy_down n (S i) (S to) (<[to := b]> d) !! to = Some b) as Hto.
  { rewrite <-(lookup_take_lt _ (S to)), IT, lookup_take_lt by lia.
    apply list_lookup_insert_eq. lia. }
  split.
  - apply (f_equal (take to)) in IT. rewrite !take_take, !Nat.min_l in IT by lia.
    rewrite IT. by rewrite take_insert_ge by lia.
  - rewrite (Hcons _ _ _ _ Hto), (Hcons _ _ _ _ Hb), ID. f_equal. f_equal.
    by rewrite drop_insert_lt by lia.
Qed.

Lemma gc_queue b :
  inv b -> inv (gc b) /\ queue (gc b) = queue b /\ length (data (gc b)) = length (data b) /\
  (length (data b) <= read_to (gc b) -> read_from (gc b) = 0)%nat.
Proof.
  intros Hi. unfold gc. case_decide as H0; [by split_and!|]. case_decide as H1.
  { unfold inv, queue; simpl. rewrite H1, Nat.sub_diag.
    split; [lia|done]. }
  destruct (Z.ltb_spec 65535 (Z.of_nat (length (data b)) - Z.of_nat (read_to b))).
  { split_and!; try done. intros. unfold inv in Hi. lia. }
  unfold inv in Hi.
  destruct (copy_down_spec (read_to b - read_from b) (read_from b) 0 (data b)) as (HL & _ & HD);
    [lia|lia|].
  unfold inv, queue; simpl. rewrite HL, drop_0, Nat.sub_0_r. split_and!; [lia|lia|exact HD|done|done].
Qed.

(** [get_mut] refuses only a queue that fills the whole block. *)
Lemma get_mut_spec b :
  inv b ->
  inv (fst (get_mut b)) /\ queue (fst (get_mut b)) = queue b /\
  length (data (fst (get_mut b))) = length (data b) /\
  match snd (get_mut b) with
  | Some n => n = (length (data b) - read_to (fst (get_mut b)))%nat /\ (0 < n)%nat
  | None => length (queue b) = length (data b)
  end.
Proof.
  intros Hi. destruct (gc_queue b Hi) as (Hi' & Hq & Hl & Hf). unfold get_mut.
  case_decide as Hd; simpl; rewrite Hl in *; split_and!; try done; [|lia].
  rewrite <-Hq, queue_length by done. unfold inv in Hi'. rewrite Hl in Hi'. specialize (Hf Hd). lia.
Qed.

(** *** Clients' use of the buffer, as a sequence of operations *)

Inductive op := Commit (n : nat) | Fill (chunk : bytes).

(** One operation the way every pump performs it; [None] when the client
    asks for more than [get_data] or [get_mut] offered. *)
Definition run_op (b : t) (o : op) : option t :=
  match o with
  | Commit n => if decide (n <= length (queue b))%nat then Some (commit_read n b) else None
  | Fill chunk =>
      match get_mut b with
      | (b, Some room) =>
          if decide (length chunk <= room)%nat then Some (advance (length chunk) (store chunk b))
          else None
      | (_, None) => None
      end
  end.

Definition queue_op (q : bytes) (o : op) : bytes :=
  match o with Commit n => drop n q | Fill chunk => q ++ chunk end.

Fixpoint run (b : t) (ops : list op) : option t :=
  match ops with [] => Some b | o :: ops => b' ← run_op b o; run b' ops end.

Lemma run_op_queue b o b' :
  inv b -> run_op b o = Some b' ->
  inv b' /\ queue b' = queue_op (queue b) o /\ length (data b') = length (data b).
Proof.
  intros Hi. destruct o as [n|chunk]; simpl.
  - case_decide; [|done]. intros [= <-]. by apply commit_queue.
  - destruct (get_mut_spec b Hi) as (Hi' & Hq & Hl & Hr).
    destruct (get_mut b) as [b1 [room|]]; [|done]. simpl in *. destruct Hr as [-> _].
    case_decide; [|done]. intros [= <-].
    destruct (store_advance_queue chunk b1) as (? & -> & ->); [done|lia|].
    by rewrite Hq, Hl.
Qed.

(** C15: over any sequence of reads and commits a fresh buffer is a byte
    queue: compaction never loses, duplicates or reorders an unread byte,
    [get_data] never panics and shows exactly the unread bytes, and
    [get_mut] refuses space only when unread bytes fill the whole block. *)
Theorem loop_buffer_is_a_queue uninit ops b :
  run (new uninit) ops = Some b ->
  get_data (E:=bytes) b = Ok (fold_left queue_op ops []) /\
  (snd (get_mut b) = None <-> length (fold_left queue_op ops []) = length uninit).
Proof.
  assert (forall ops b0, inv b0 -> run b0 ops = Some b ->
    inv b /\ queue b = fold_left queue_op ops (queue b0) /\ length (data b) = length (data b0)) as Hrun.
  { clear ops. intros ops. induction ops as [|o ops IH]; intros b0 Hi; simpl; [by intros [= <-]|].
    destruct (run_op b0 o) as [b1|] eqn:Ho; simpl; [|done]. intros Hr.
    destruct (run_op_queue b0 o b1 Hi Ho) as (Hi1 & Hq1 & Hl1).
    destruct (IH b1 Hi1 Hr) as (? & ? & ?). split_and!; [done|congruence|congruence]. }
  intros Hr. destruct (Hrun ops (new uninit) (proj1 (new_queue _)) Hr) as (Hi & Hq & Hl).
  change (queue (new uninit)) with (@nil byte) in Hq.
  rewrite get_data_queue, Hq by done. split; [done|].
  destruct (get_mut_spec b Hi) as (Hi' & Hq' & Hl' & Hs). rewrite Hq in Hs. simpl in Hl.
  destruct (snd (get_mut b)) as [n|]; split; intros He; try done; [|congruence].
  pose proof (queue_length _ Hi') as Hql. rewrite Hq', Hq in Hql. unfold inv in Hi'. lia.
Qed.

Lemma loop_buffer_is_a_queue_witness :
  exists b, run (new (replicate 8 Byte.x00)) [Fill (bs "abcdef"); Commit 4; Fill (bs "ghi")] = Some b /\
            get_data (E:=bytes) b = Ok (bs "efghi").
Proof.
  eexists. split; [vm_compute; reflexivity|].
  apply (loop_buffer_is_a_queue (replicate 8 Byte.x00) [Fill (bs "abcdef"); Commit 4; Fill (bs "ghi")]).
  vm_compute; reflexivity.
Defined.

End LoopBuffer.

(** ** [NetworkStreamReadPart] *)

Module ReadPart.

(** What a socket has in store, in order: segments that arrived, an end of
    stream, an I/O error.  An end or an error is final, and so is an empty
    segment, which reads like an end; after the last event nothing ever
    arrives. *)
Inductive SockEvent := Data (seg : bytes) | Eof | Failure (e : bytes).

Definition source := list SockEvent.

(** [read_from_socket]: at most [cap] bytes of the next segment; [None] when
    the future never completes. *)
Definition read_from_socket (cap : nat) (s : source) : source * option (outcome bytes bytes) :=
  match s with
  | [] => ([], None)
  | Data [] :: _ | Eof :: _ => (s, Some (Ok []))
  | Data seg :: s =>
      (if decide (drop cap seg = []) then s else Data (drop cap seg) :: s, Some (Ok (take cap seg)))
  | Failure e :: _ => (s, Some (Err e))
  end.

(** [read_with_timeout] *)
Definition read_with_timeout (cap : nat) (timeout : Z) (s : source) :
    source * outcome NetworkError bytes :=
  let '(s, result) := read_from_socket cap s in
  (s, match result with
      | None => Err (Timeout timeout)
      | Some (Ok chunk) => if decide (length chunk = 0%nat) then Err Disconnected else Ok chunk
      | Some (Err err) => Err (IoError err)
      | Some Panic => Panic
      end).

(** The bytes that can be read before the stream ends, fails or stalls. *)
Fixpoint pending (s : source) : bytes :=
  match s with Data seg :: s => if decide (seg = []) then [] else seg ++ pending s | _ => [] end.

(** A bound on the number of successful reads. *)
Fixpoint size (s : source) : nat :=
  match s with Data seg :: s => S (length seg + size s) | _ :: s => S (size s) | [] => O end.

Lemma read_with_timeout_Ok cap d s s' chunk :
  read_with_timeout cap d s = (s', Ok chunk) ->
  (0 < length chunk <= cap)%nat /\ pending s = chunk ++ pending s' /\ (size s' < size s)%nat.
Proof.
  unfold read_with_timeout. destruct s as [|[[|b seg]| |e] s]; try done.
  cbn [read_from_socket]. set (sg := b :: seg).
  destruct (decide (length (take cap sg) = 0%nat)) as [|Hn]; [done|]. intros [= <- <-].
  rewrite length_take in Hn. split; [rewrite length_take; lia|]. cbn [pending size].
  rewrite decide_False by done.
  destruct (decide (drop cap sg = [])) as [He|He].
  - apply (f_equal length) in He as Hl. rewrite length_drop in Hl. simpl in Hl.
    rewrite take_ge by (unfold sg; simpl in *; lia). split; [done|lia].
  - cbn [pending size]. rewrite decide_False by done.
    rewrite (assoc_L (++)), take_drop, length_drop. split; [done|lia].
Qed.

Lemma read_with_timeout_no_panic cap d s s' : read_with_timeout cap d s <> (s', Panic).
Proof.
  unfold read_with_timeout. destruct s as [|[[|b seg]| |e] s]; try done. cbn [read_from_socket].
  by destruct (decide (length (take cap (b :: seg)) = 0%nat)).
Qed.

(** A read fails only when no byte is left, and changes nothing. *)
Lemma read_with_timeout_Err cap d s s' e :
  (0 < cap)%nat -> read_with_timeout cap d s = (s', Err e) -> pending s = [] /\ s' = s.
Proof.
  intros Hc. unfold read_with_timeout. destruct s as [|[[|b seg]| |e'] s]; cbn [read_from_socket].
  - by intros [= <- _].
  - by intros [= <- _].
  - destruct (decide (length (take cap (b :: seg)) = 0%nat)) as [H0|]; [|done].
    rewrite length_take in H0. simpl in H0. lia.
  - by intros [= <- _].
  - by intros [= <- _].
Qed.

End ReadPart.
