(* ===== verification/BodyRelay.v ===== *)
(** * HTTP/1.1 body relay: [h1_proxy_server/transfer_body/]

    The two pumps that move a message body from one connection to another:
    [transfer_known_size] for a declared content-length and
    [transfer_chunked_body] for chunked framing.  Both forward what the
    buffer already holds in steps of at most 256 KiB before they read
    again. *)

From Stdlib Require Import ZArith Lia Strings.Byte.
From stdpp Require Import base tactics list strings.
From S2P Require Import Prelude RustStd LoopBuffer.

Local Open Scope Z_scope.

Module BodyRelay.
Import ReadPart.

Definition BODY_RELAY_CHUNK_SIZE : Z := 256 * 1024.
Definition HTTP_CR_LF : bytes := [Byte.x0d; Byte.x0a].

Inductive TransferError :=
  | NetworkErr (e : NetworkError)
  | BufferAllocationFail
  | ChunkHeaderParseError
  | CanNotWriteContentToRemoteConnection (e : NetworkError).

(** The receiving [H1Writer]: the payloads it accepted, and the results of
    the writes to come ([None] is success; all later writes succeed). *)
Record Sink := { writes : list bytes; verdicts : list (option NetworkError) }.

Definition write_http_payload (payload : bytes) (w : Sink) : Sink * outcome NetworkError unit :=
  match verdicts w with
  | Some e :: vs => ({| writes := writes w; verdicts := vs |}, Err e)
  | None :: vs => ({| writes := writes w ++ [payload]; verdicts := vs |}, Ok tt)
  | [] => ({| writes := writes w ++ [payload]; verdicts := [] |}, Ok tt)
  end.

Record Io := { loop_buffer : LoopBuffer.t; read_stream : source; write_stream : Sink }.

Definition HttpTimeouts : Type := Z * Z.

(** The inner [while] of both pumps: forward the buffered bytes. *)
Fixpoint forward_buffered (fuel : nat) (remaining : Z) (io : Io) :
    Io * option (outcome TransferError Z) :=
  match fuel with
  | O => (io, None)
  | S fuel =>
      if remaining =? 0 then (io, Some (Ok remaining))
      else
        match LoopBuffer.get_data (loop_buffer io) with
        | Ok buf =>
            if decide (buf = []) then (io, Some (Ok remaining))
            else
              let to_send :=
                Z.to_nat (Z.min (Z.min (Z.of_nat (length buf)) remaining) BODY_RELAY_CHUNK_SIZE) in
              let '(w, r) := write_http_payload (take to_send buf) (write_stream io) in
              match r with
              | Ok _ =>
                  forward_buffered fuel (remaining - Z.of_nat to_send)
                    {| loop_buffer := LoopBuffer.commit_read to_send (loop_buffer io);
                       read_stream := read_stream io; write_stream := w |}
              | Err err =>
                  ({| loop_buffer := loop_buffer io; read_stream := read_stream io; write_stream := w |},
                   Some (Err (CanNotWriteContentToRemoteConnection err)))
              | Panic => (io, Some Panic)
              end
        | Err e => (io, Some (Err e))
        | Panic => (io, Some Panic)
        end
  end.

(** One read into the buffer, as every pump does it. *)
Definition read_more (timeouts : HttpTimeouts) (io : Io) : Io * outcome TransferError unit :=
  match LoopBuffer.get_mut (loop_buffer io) with
  | (b, None) =>
      ({| loop_buffer := b; read_stream := read_stream io; write_stream := write_stream io |},
       Err BufferAllocationFail)
  | (b, Some room) =>
      let '(s, r) := read_with_timeout room (fst timeouts) (read_stream io) in
      match r with
      | Ok chunk =>
          ({| loop_buffer := LoopBuffer.advance (length chunk) (LoopBuffer.store chunk b);
              read_stream := s; write_stream := write_stream io |}, Ok tt)
      | Err e => ({| loop_buffer := b; read_stream := s; write_stream := write_stream io |},
                  Err (NetworkErr e))
      | Panic => (io, Panic)
      end
  end.

(** The loop of [transfer_known_size]; [None] when the fuel is used up. *)
Fixpoint relay_loop (fuel : nat) (timeouts : HttpTimeouts) (remaining : Z) (io : Io) :
    Io * option (outcome TransferError unit) :=
  match fuel with
  | O => (io, None)
  | S fuel =>
      let '(io, r) :=
        forward_buffered (S (length (LoopBuffer.data (loop_buffer io)))) remaining io in
      match r with
      | Some (Ok remaining) =>
          if remaining =? 0 then (io, Some (Ok tt))
          else
            let '(io, r) := read_more timeouts io in
            match r with
            | Ok _ => relay_loop fuel timeouts remaining io
            | Err e => (io, Some (Err e))
            | Panic => (io, Some Panic)
            end
      | Some (Err e) => (io, Some (Err e))
      | Some Panic => (io, Some Panic)
      | None => (io, None)
      end
  end.

(** [transfer_known_size]: every read takes at least one byte or event from
    the source, whose size is the fuel. *)
Definition transfer_known_size (remaining_size : Z) (timeouts : HttpTimeouts) (io : Io) :
    Io * option (outcome TransferError Z) :=
  let '(io, r) := relay_loop (S (size (read_stream io))) timeouts remaining_size io in
  (io, (fun o => _ ← o; Ok remaining_size) <$> r).

(** [parse_hex_digit] *)
Definition parse_hex_digit (c : byte) : option Z :=
  let c := u8 c in
  if (48 <=? c) && (c <=? 57) then Some (c - 48)
  else if (97 <=? c) && (c <=? 102) then Some (c - 97 + 10)
  else if (65 <=? c) && (c <=? 70) then Some (c - 65 + 10)
  else None.

(** The loop of [get_chunk_size], over the reversed digits. *)
Fixpoint chunk_size_loop (oc : bool) (rev_digits : bytes) (result multiplier : Z) :
    outcome TransferError Z :=
  match rev_digits with
  | [] => Ok result
  | c :: cs =>
      match parse_hex_digit c with
      | None => Err ChunkHeaderParseError
      | Some digit =>
          product ← usize_op oc (digit * multiplier);
          result ← usize_op oc (result + product);
          multiplier ← usize_op oc (multiplier * 16);
          chunk_size_loop oc cs result multiplier
      end
  end.

Definition get_chunk_size (oc : bool) (chunk : bytes) (len : nat) : outcome TransferError Z :=
  my_chunk ← slice_to chunk len;
  chunk_size_loop oc (rev my_chunk) 0 1.

Record ChunkHeader := { len : nat; chunk_size : Z }.

Definition ChunkHeader_new (oc : bool) (len : nat) (src : bytes) : outcome TransferError ChunkHeader :=
  chunk_size ← get_chunk_size oc src len;
  Ok {| len := len; chunk_size := chunk_size |}.

Section Chunked.
Context `{SliceOfU8Ext}.

(** [read_chunk_header] *)
Fixpoint read_chunk_header_loop (fuel : nat) (oc : bool) (timeouts : HttpTimeouts) (io : Io) :
    Io * option (outcome TransferError ChunkHeader) :=
  match fuel with
  | O => (io, None)
  | S fuel =>
      match LoopBuffer.get_data (loop_buffer io) with
      | Ok read_buf =>
          let found :=
            if decide (2 < length read_buf)%nat then find_sequence_pos read_buf HTTP_CR_LF 0 else None in
          match found with
          | Some crlf_pos => (io, Some (ChunkHeader_new oc crlf_pos read_buf))
          | None =>
              let '(io, r) := read_more timeouts io in
              match r with
              | Ok _ => read_chunk_header_loop fuel oc timeouts io
              | Err e => (io, Some (Err e))
              | Panic => (io, Some Panic)
              end
          end
      | Err e => (io, Some (Err e))
      | Panic => (io, Some Panic)
      end
  end.

Definition read_chunk_header (oc : bool) (timeouts : HttpTimeouts) (io : Io) :=
  read_chunk_header_loop (S (size (read_stream io))) oc timeouts io.

(** [transfer_chunk_data]: the header line, the data and both line ends. *)
Definition transfer_chunk_data (oc : bool) (h : ChunkHeader) (timeouts : HttpTimeouts) (io : Io) :
    Io * option (outcome TransferError Z) :=
  match (t ← usize_op oc (Z.of_nat (len h) + chunk_size h);
         usize_op oc (t + Z.of_nat (length HTTP_CR_LF) * 2)) with
  | Ok total => transfer_known_size total timeouts io
  | Err e => (io, Some (Err e))
  | Panic => (io, Some Panic)
  end.

(** [transfer_chunked_body] *)
Fixpoint transfer_chunked_body (fuel : nat) (oc : bool) (timeouts : HttpTimeouts) (total : Z) (io : Io) :
    Io * option (outcome TransferError Z) :=
  match fuel with
  | O => (io, None)
  | S fuel =>
      let '(io, h) := read_chunk_header oc timeouts io in
      match h with
      | Some (Ok h) =>
          let '(io, r) := transfer_chunk_data oc h timeouts io in
          match r with
          | Some (Ok transferred) =>
              match usize_op oc (total + transferred) with
              | Ok total =>
                  if chunk_size h =? 0 then (io, Some (Ok total))
                  else transfer_chunked_body fuel oc timeouts total io
              | Err e => (io, Some (Err e))
              | Panic => (io, Some Panic)
              end
          | other => (io, other)
          end
      | Some (Err e) => (io, Some (Err e))
      | Some Panic => (io, Some Panic)
      | None => (io, None)
      end
  end.

End Chunked.

(** ** The relay of a known size *)

(** Everything the pump can still deliver, and what it has delivered. *)
Definition stream (io : Io) : bytes :=
  LoopBuffer.queue (loop_buffer io) ++ pending (read_stream io).
Definition delivered (io : Io) : bytes := concat (writes (write_stream io)).

Definition ok_io (io : Io) : Prop :=
  LoopBuffer.inv (loop_buffer io) /\ (0 < length (LoopBuffer.data (loop_buffer io)))%nat.

(** All writes to come succeed. *)
Definition healthy (io : Io) : Prop := Forall (fun v => v = None) (verdicts (write_stream io)).

(** [io'] is [io] after exactly [n] bytes of its stream were delivered, in
    pieces no longer than the cap. *)
Record moved (n : Z) (io io' : Io) : Prop := {
  moved_ok : ok_io io';
  moved_cap : length (LoopBuffer.data (loop_buffer io')) = length (LoopBuffer.data (loop_buffer io));
  moved_writes : exists ws,
    writes (write_stream io') = writes (write_stream io) ++ ws /\
    concat ws = take (Z.to_nat n) (stream io) /\
    Forall (fun w => 0 < Z.of_nat (length w) <= BODY_RELAY_CHUNK_SIZE) ws;
  moved_len : 0 <= n <= Z.of_nat (length (stream io));
  moved_stream : stream io' = drop (Z.to_nat n) (stream io);
  moved_size : (size (read_stream io') <= size (read_stream io))%nat;
  moved_healthy : healthy io -> healthy io'
}.

Lemma moved_refl io : ok_io io -> moved 0 io io.
Proof.
  intros. split; try done; [|lia]. exists []. by rewrite app_nil_r, take_0.
Qed.

Lemma moved_trans n m io io1 io2 : moved n io io1 -> moved m io1 io2 -> moved (n + m) io io2.
Proof.
  intros [A1 A2 (ws & A3 & A3' & A3'') A4 A5 A6 A7] [B1 B2 (ws' & B3 & B3' & B3'') B4 B5 B6 B7].
  rewrite A5 in B3', B4, B5. rewrite length_drop in B4.
  split; [done|congruence| |lia| |lia|auto].
  - exists (ws ++ ws'). rewrite B3, A3, (assoc_L (++)). split; [done|].
    rewrite concat_app, A3', B3', Forall_app. split; [|done].
    rewrite Z2Nat.inj_add by lia. by rewrite take_take_drop.
  - rewrite B5, drop_drop. f_equal. rewrite Z2Nat.inj_add by lia. done.
Qed.

(** One step of the inner loop. *)
Lemma moved_step (k : nat) io w :
  ok_io io -> (0 < k <= length (LoopBuffer.queue (loop_buffer io)))%nat ->
  Z.of_nat k <= BODY_RELAY_CHUNK_SIZE ->
  write_http_payload (take k (LoopBuffer.queue (loop_buffer io))) (write_stream io) = (w, Ok tt) ->
  moved (Z.of_nat k) io
    {| loop_buffer := LoopBuffer.commit_read k (loop_buffer io);
       read_stream := read_stream io; write_stream := w |}.
Proof.
  intros [Hi Hn] Hk Hc Hw.
  destruct (LoopBuffer.commit_queue k _ Hi (proj2 Hk)) as (Ci & Cq & Cl).
  assert (writes w = writes (write_stream io) ++ [take k (LoopBuffer.queue (loop_buffer io))] /\
          (healthy io -> Forall (fun v => v = None) (verdicts w))) as [Hws Hh].
  { unfold write_http_payload, healthy in *.
    destruct (verdicts (write_stream io)) as [|[e|] vs]; simplify_eq; simpl; split; try done.
    by inversion 1. }
  split; cbn [loop_buffer read_stream write_stream]; rewrite ?Nat2Z.id; try done.
  - eexists. split; [exact Hws|]. cbn [concat]. rewrite app_nil_r. unfold stream.
    split; [by rewrite take_app_le by lia|].
    apply Forall_singleton. rewrite length_take. lia.
  - unfold stream. rewrite length_app. lia.
  - unfold stream; cbn [loop_buffer read_stream]. rewrite Cq. by rewrite drop_app_le by lia.
Qed.

Lemma forward_buffered_spec fuel : forall remaining io,
  (length (LoopBuffer.queue (loop_buffer io)) < fuel)%nat -> 0 <= remaining -> ok_io io ->
  exists n io' r,
    forward_buffered fuel remaining io = (io', Some r) /\ moved n io io' /\ n <= remaining /\
    read_stream io' = read_stream io /\
    match r with
    | Ok rem => rem = remaining - n /\ (rem = 0 \/ LoopBuffer.queue (loop_buffer io') = [])
    | Err e => (exists e', e = CanNotWriteContentToRemoteConnection e') /\ ~ healthy io
    | Panic => False
    end.
Proof.
  induction fuel as [|fuel IH]; intros rem io Hf Hr Ho; [lia|]. cbn [forward_buffered].
  destruct (Z.eqb_spec rem 0) as [->|Hz].
  { exists 0, io, (Ok 0). split_and!; try done; [by apply moved_refl|by left]. }
  rewrite LoopBuffer.get_data_queue by apply Ho.
  set (q := LoopBuffer.queue (loop_buffer io)) in *. case_decide as Hq.
  { exists 0, io, (Ok rem). split_and!; try done; [by apply moved_refl|lia|by right]. }
  set (k := Z.to_nat _).
  assert ((0 < k <= length q)%nat /\ Z.of_nat k <= rem /\ Z.of_nat k <= BODY_RELAY_CHUNK_SIZE)
    as (Hk0 & Hk1 & Hk2).
  { destruct q; [done|]. unfold k, BODY_RELAY_CHUNK_SIZE. cbn [length]. lia. }
  destruct (write_http_payload (take k q) (write_stream io)) as [w r] eqn:Hw.
  destruct r as [[]|e|].
  - pose proof (moved_step k io w Ho ltac:(fold q; lia) Hk2 Hw) as Hm.
    destruct (IH (rem - Z.of_nat k) {| loop_buffer := LoopBuffer.commit_read k (loop_buffer io);
       read_stream := read_stream io; write_stream := w |}) as (n & io' & r & -> & Hm' & Hn & Hs & Hres);
      [|lia|apply Hm|].
    { cbn [loop_buffer]. destruct (LoopBuffer.commit_queue k _ (proj1 Ho)) as (_ & -> & _);
        [fold q; lia|]. fold q. rewrite length_drop. lia. }
    exists (Z.of_nat k + n), io', r. split_and!; [done|by eapply moved_trans|lia|done|].
    destruct r as [rem'|e|]; [|destruct Hres as [? Hh]; split; [done|]|done].
    + destruct Hres as [-> ?]. split; [lia|done].
    + intros Hio. apply Hh. by apply Hm.
  - eexists 0, _, _. split; [done|].
    assert (writes w = writes (write_stream io) /\ ~ healthy io) as [Hws Hnh].
    { unfold write_http_payload, healthy in *.
      destruct (verdicts (write_stream io)) as [|[e'|] vs]; simplify_eq; simpl. split; [done|].
      by inversion 1. }
    split_and!; [|lia|done|by eexists|done].
    split; cbn [loop_buffer read_stream write_stream]; try done; [|lia].
    exists []. cbn. rewrite app_nil_r. by rewrite Hws.
  - unfold write_http_payload in Hw. destruct (verdicts (write_stream io)) as [|[e|] vs]; simplify_eq.
Qed.

(** A read changes neither the stream nor what was delivered. *)
Lemma read_more_spec timeouts io :
  ok_io io ->
  exists io' r, read_more timeouts io = (io', r) /\ moved 0 io io' /\
    match r with
    | Ok _ => (size (read_stream io') < size (read_stream io))%nat
    | Err e => e = BufferAllocationFail /\
                 length (LoopBuffer.queue (loop_buffer io)) = length (LoopBuffer.data (loop_buffer io)) \/
               pending (read_stream io) = [] /\ exists e', e = NetworkErr e'
    | Panic => False
    end.
Proof.
  intros [Hi Hn]. destruct (LoopBuffer.get_mut_spec _ Hi) as (Gi & Gq & Gl & Gr).
  unfold read_more. destruct (LoopBuffer.get_mut (loop_buffer io)) as [b [room|]]; simpl in *.
  - destruct Gr as [-> Hroom].
    destruct (read_with_timeout _ (fst timeouts) (read_stream io)) as [s r] eqn:Hr.
    destruct r as [chunk|e|]; [| |by apply read_with_timeout_no_panic in Hr].
    + apply read_with_timeout_Ok in Hr as (Hc & Hp & Hs).
      destruct (LoopBuffer.store_advance_queue chunk b Gi ltac:(lia)) as (Si & Sq & Sl).
      eexists _, _. split; [done|]. split; [|done].
      split; try done; cbn [loop_buffer read_stream write_stream]; try lia.
      * split; cbn [loop_buffer]; [done|lia].
      * exists []. by rewrite app_nil_r.
      * unfold stream; cbn [loop_buffer read_stream]. by rewrite Sq, Gq, Hp, <-app_assoc.
    + apply read_with_timeout_Err in Hr as [Hp ->]; [|done].
      eexists _, _. split; [done|]. split; [|right; eauto].
      split; try done; cbn [loop_buffer read_stream write_stream]; try lia.
      * split; cbn [loop_buffer]; [done|lia].
      * exists []. by rewrite app_nil_r.
      * unfold stream; cbn [loop_buffer read_stream]. by rewrite Gq.
  - eexists _, _. split; [done|]. split; [|by left].
    split; try done; cbn [loop_buffer read_stream write_stream]; try lia.
    * split; cbn [loop_buffer]; [done|lia].
    * exists []. by rewrite app_nil_r.
    * unfold stream; cbn [loop_buffer read_stream]. by rewrite Gq.
Qed.

Lemma relay_loop_spec timeouts fuel : forall remaining io,
  (size (read_stream io) < fuel)%nat -> 0 <= remaining -> ok_io io ->
  exists n io' r,
    relay_loop fuel timeouts remaining io = (io', Some r) /\ moved n io io' /\ n <= remaining /\
    match r with
    | Ok _ => n = remaining
    | Err (NetworkErr _) => n = Z.of_nat (length (stream io)) /\ n < remaining
    | Err (CanNotWriteContentToRemoteConnection _) => ~ healthy io
    | _ => False
    end.
Proof.
  induction fuel as [|fuel IH]; intros rem io Hf Hr Ho; [lia|]. cbn [relay_loop].
  destruct (forward_buffered_spec (S (length (LoopBuffer.data (loop_buffer io)))) rem io)
    as (n & io1 & r & -> & Hm & Hn & Hs & Hres); [|done|done|].
  { unfold LoopBuffer.queue. rewrite length_take, length_drop. lia. }
  destruct r as [rem'|e|]; [| |done].
  2:{ destruct Hres as [[e' ->] Hh]. by exists n, io1, (Err (CanNotWriteContentToRemoteConnection e')). }
  destruct Hres as [-> Hq].
  destruct (Z.eqb_spec (rem - n) 0) as [Hz|Hz].
  { exists n, io1, (Ok tt). split_and!; try done. lia. }
  destruct Hq as [|Hq]; [done|].
  destruct (read_more_spec timeouts io1 (moved_ok _ _ _ Hm)) as (io2 & r & -> & Hm2 & Hres).
  pose proof (moved_trans _ _ _ _ _ Hm Hm2) as Hm'. rewrite Z.add_0_r in Hm'.
  destruct r as [[]|e|]; [| |done].
  - destruct (IH (rem - n) io2) as (m & io3 & r & -> & Hm3 & Hm3' & Hres3);
      [rewrite Hs in Hres; lia|lia|apply Hm2|].
    pose proof (moved_len _ _ _ Hm') as Hlen.
    exists (n + m), io3, r. split_and!; [done|by eapply moved_trans|lia|].
    destruct r as [[]|[e| | |e]|]; try done; [lia| |].
    + rewrite (moved_stream _ _ _ Hm'), length_drop in Hres3. lia.
    + intros Hh. by apply Hres3, Hm'.
  - destruct Hres as [[-> Hfull]|[Hp [e' ->]]].
    { destruct (moved_ok _ _ _ Hm) as [_ Hd]. rewrite Hq in Hfull. simpl in Hfull. lia. }
    exists n, io2, (Err (NetworkErr e')). split_and!; try done; [|lia].
    pose proof (moved_stream _ _ _ Hm) as Hst. unfold stream at 1 in Hst. rewrite Hq, Hp in Hst.
    apply (f_equal length) in Hst. rewrite length_drop in Hst. simpl in Hst.
    pose proof (moved_len _ _ _ Hm). lia.
Qed.

Lemma transfer_known_size_spec n timeouts io :
  0 <= n -> ok_io io -> healthy io -> n <= Z.of_nat (length (stream io)) ->
  exists io', transfer_known_size n timeouts io = (io', Some (Ok n)) /\ moved n io io'.
Proof.
  intros Hn Ho Hh Hl. unfold transfer_known_size.
  destruct (relay_loop_spec timeouts (S (size (read_stream io))) n io) as (m & io' & r & -> & Hm & _ & Hr);
    [lia|done|done|].
  destruct r as [[]|[e| | |e]|]; try done; [|lia]. simpl. subst m. by eexists.
Qed.

(** The known-size pump always ends.  It succeeds only after it has
    delivered exactly the declared number of bytes, in order, in non-empty
    steps of at most 256 KiB, and leaves everything behind them (a pipelined
    request) in the buffer or the socket; it fails on the network only when
    the bytes that arrive run out first, and on the writer only when a write
    fails, and even then what was delivered is a prefix of the stream and
    nothing else is lost.  It never runs out of buffer and never panics. *)
Theorem transfer_known_size_exact n timeouts io :
  0 <= n -> ok_io io ->
  exists k io' r,
    transfer_known_size n timeouts io = (io', Some r) /\ moved k io io' /\ k <= n /\
    match r with
    | Ok total => total = n /\ k = n
    | Err (NetworkErr _) => k = Z.of_nat (length (stream io)) /\ k < n
    | Err (CanNotWriteContentToRemoteConnection _) => ~ healthy io
    | _ => False
    end.
Proof.
  intros Hn Ho. unfold transfer_known_size.
  destruct (relay_loop_spec timeouts (S (size (read_stream io))) n io) as (m & io' & r & -> & Hm & Hk & Hr);
    [lia|done|done|].
  eexists m, io', _. split; [reflexivity|]. split_and!; [done|done|].
  by destruct r as [[]|[e| | |e]|]; cbn.
Qed.

(** ** Chunk headers *)

(** The digits, in the order of their values, and what a digit is worth: its
    place among them, in either case.  This says independently of
    [parse_hex_digit] what a hexadecimal number is. *)
Definition lower_digits : bytes := bs "0123456789abcdef".
Definition upper_digits : bytes := bs "0123456789ABCDEF".

Definition place_of (c : byte) (digits : bytes) : option Z :=
  (fun found => Z.of_nat (fst found)) <$> list_find (fun d => d = c) digits.

Definition digit_value (c : byte) : option Z :=
  match place_of c lower_digits with
  | Some d => Some d
  | None => place_of c upper_digits
  end.

Lemma parse_hex_digit_value c : parse_hex_digit c = digit_value c.
Proof. destruct c; vm_compute; reflexivity. Qed.

(** The number a line of hexadecimal digits denotes. *)
Fixpoint hex_value_from (acc : Z) (l : bytes) : option Z :=
  match l with
  | [] => Some acc
  | c :: l => d ← digit_value c; hex_value_from (acc * 16 + d) l
  end.
Definition hex_value (l : bytes) : option Z := hex_value_from 0 l.

Lemma digit_value_range c d : digit_value c = Some d -> 0 <= d < 16.
Proof.
  rewrite <-parse_hex_digit_value. unfold parse_hex_digit. intros Hd. repeat case_match; simplify_eq;
    repeat match goal with H : (_ && _) = true |- _ => apply andb_prop in H as [] end; lia.
Qed.

Lemma hex_value_from_app acc l c :
  hex_value_from acc (l ++ [c]) =
  (v ← hex_value_from acc l; d ← digit_value c; Some (v * 16 + d)).
Proof.
  revert acc. induction l as [|b l IH]; intros acc; simpl.
  - by destruct (digit_value c).
  - destruct (digit_value b); simpl; [apply IH|done].
Qed.

Lemma hex_value_range l v : hex_value l = Some v -> 0 <= v < 16 ^ Z.of_nat (length l).
Proof.
  revert v. unfold hex_value. induction l as [|c l IH] using rev_ind; intros v.
  { simpl. intros [= <-]. lia. }
  rewrite hex_value_from_app, length_app, Nat2Z.inj_add.
  destruct (hex_value_from 0 l) as [u|]; [|done]. simpl.
  destruct (digit_value c) as [d|] eqn:Hd; [|done]. simpl. intros [= <-].
  apply digit_value_range in Hd. specialize (IH u eq_refl).
  rewrite Z.pow_add_r by lia. change (16 ^ Z.of_nat 1) with 16. lia.
Qed.

Lemma chunk_size_loop_wrap l : forall result m,
  0 <= result -> 0 <= m ->
  chunk_size_loop false (rev l) (result mod 2 ^ 64) (m mod 2 ^ 64) =
  match hex_value l with
  | Some v => Ok ((result + v * m) mod 2 ^ 64)
  | None => Err ChunkHeaderParseError
  end.
Proof.
  unfold hex_value. induction l as [|c l IH] using rev_ind; intros result m Hr Hm.
  { simpl. by rewrite Z.add_0_r. }
  rewrite rev_app_distr, hex_value_from_app. cbn [rev app chunk_size_loop]. rewrite ?parse_hex_digit_value.
  destruct (digit_value c) as [d|] eqn:Hd; simpl.
  2:{ destruct (hex_value_from 0 l); done. }
  apply digit_value_range in Hd.
  pose proof (Z.mod_pos_bound result (2 ^ 64) ltac:(lia)).
  pose proof (Z.mod_pos_bound m (2 ^ 64) ltac:(lia)).
  pose proof (Z.mod_pos_bound (d * (m mod 2 ^ 64)) (2 ^ 64) ltac:(lia)).
  rewrite usize_op_wrap by nia. cbn [mbind outcome_bind].
  rewrite usize_op_wrap by lia. cbn [mbind outcome_bind].
  rewrite usize_op_wrap by lia. cbn [mbind outcome_bind].
  rewrite Z.mul_mod_idemp_r, Z.mul_mod_idemp_l, <-Z.add_mod by lia.
  rewrite IH by nia. destruct (hex_value_from 0 l) as [v|]; simpl; [|done].
  do 2 f_equal. lia.
Qed.

Lemma chunk_size_loop_fits oc l : forall result m,
  0 <= m -> 0 <= result < m -> m * 16 ^ Z.of_nat (length l) < 2 ^ 64 ->
  chunk_size_loop oc (rev l) result m =
  match hex_value l with
  | Some v => Ok (result + v * m)
  | None => Err ChunkHeaderParseError
  end.
Proof.
  unfold hex_value. induction l as [|c l IH] using rev_ind; intros result m Hm Hr Hlt.
  { simpl. by rewrite Z.add_0_r. }
  rewrite rev_app_distr, hex_value_from_app. cbn [rev app chunk_size_loop]. rewrite ?parse_hex_digit_value.
  rewrite length_app, Nat2Z.inj_add, Z.pow_add_r in Hlt by lia. change (16 ^ Z.of_nat (length [c])) with 16 in Hlt.
  pose proof (Z.pow_pos_nonneg 16 (Z.of_nat (length l)) ltac:(lia) ltac:(lia)).
  destruct (digit_value c) as [d|] eqn:Hd; simpl.
  2:{ destruct (hex_value_from 0 l); done. }
  apply digit_value_range in Hd.
  assert (m * 16 <= m * (16 ^ Z.of_nat (length l) * 16)) by (apply Z.mul_le_mono_nonneg_l; lia).
  assert (0 <= d * m <= 15 * m) by nia.
  rewrite usize_op_fits by lia. cbn [mbind outcome_bind].
  rewrite usize_op_fits by lia. cbn [mbind outcome_bind].
  rewrite usize_op_fits by lia. cbn [mbind outcome_bind].
  rewrite IH by lia. destruct (hex_value_from 0 l) as [v|]; simpl; [|done].
  f_equal. lia.
Qed.

Lemma get_chunk_size_fits oc digits rest v :
  hex_value digits = Some v -> (length digits <= 15)%nat ->
  get_chunk_size oc (digits ++ rest) (length digits) = Ok v.
Proof.
  intros Hv Hl. unfold get_chunk_size. rewrite slice_to_ok by (rewrite length_app; lia).
  cbn [mbind outcome_bind]. rewrite take_app_length, chunk_size_loop_fits, Hv; [f_equal; lia|lia|lia|].
  assert (16 ^ Z.of_nat (length digits) <= 16 ^ 15) by (apply Z.pow_le_mono_r; lia). lia.
Qed.

(** C40: a chunk header is read as its hexadecimal value, any byte that is
    no digit is an error, and lines of up to 15 digits are exact in every
    build; longer ones are reduced modulo 2^64 in builds without overflow
    checks instead of being rejected. *)
Theorem chunk_size_value digits rest :
  get_chunk_size false (digits ++ rest) (length digits) =
    match hex_value digits with
    | Some v => Ok (v mod 2 ^ 64)
    | None => Err ChunkHeaderParseError
    end /\
  ((length digits <= 15)%nat ->
   forall oc, get_chunk_size oc (digits ++ rest) (length digits) =
     match hex_value digits with
     | Some v => Ok v
     | None => Err ChunkHeaderParseError
     end).
Proof.
  unfold get_chunk_size. rewrite slice_to_ok by (rewrite length_app; lia).
  cbn [mbind outcome_bind]. rewrite take_app_length. split.
  - pose proof (chunk_size_loop_wrap digits 0 1 ltac:(lia) ltac:(lia)) as Hw.
    change (0 mod 2 ^ 64) with 0 in Hw. change (1 mod 2 ^ 64) with 1 in Hw. rewrite Hw.
    destruct (hex_value digits); [|done]. do 2 f_equal. lia.
  - intros Hl oc. rewrite chunk_size_loop_fits; [|lia|lia|].
    + destruct (hex_value digits); [|done]. f_equal. lia.
    + assert (16 ^ Z.of_nat (length digits) <= 16 ^ 15) by (apply Z.pow_le_mono_r; lia). lia.
Qed.

(** ** Chunked bodies *)

(** The framing of RFC 9112 without extensions and trailers: the size line
    and the data, each with its line end. *)
Record Chunk := { size_line : bytes; payload : bytes }.

Definition chunk_wire (c : Chunk) : bytes := size_line c ++ HTTP_CR_LF ++ payload c ++ HTTP_CR_LF.

(** A size line of the value [v] the reader can take in. *)
Definition line_ok (room : nat) (l : bytes) (v : Z) : Prop :=
  hex_value l = Some v /\ (length l <= 15)%nat /\ (length l + 3 <= room)%nat.

Definition chunk_ok (room : nat) (c : Chunk) : Prop :=
  line_ok room (size_line c) (Z.of_nat (length (payload c))).

Definition chunks_wire (cs : list Chunk) : bytes := concat (map chunk_wire cs).

Definition chunks_ok (room : nat) (cs : list Chunk) : Prop :=
  Forall (fun c => chunk_ok room c /\ payload c <> []) cs.

Lemma hex_value_from_no_cr acc l v i :
  hex_value_from acc l = Some v -> l !! i <> Some Byte.x0d.
Proof.
  revert acc i. induction l as [|c l IH]; intros acc i; [done|]. simpl.
  destruct (digit_value c) as [d|] eqn:Hd; [|done]. simpl. intros Hv.
  destruct i; simpl; [|by eapply IH]. intros [= ->]. by vm_compute in Hd.
Qed.

Lemma occurs_crlf_lookup l p :
  occurs_at HTTP_CR_LF l p -> l !! p = Some Byte.x0d /\ (p + 2 <= length l)%nat.
Proof.
  unfold occurs_at, HTTP_CR_LF. cbn [length]. intros He. split.
  - rewrite <-(Nat.add_0_r p), <-lookup_drop, <-(lookup_take_lt _ 2), He by lia. done.
  - apply (f_equal length) in He. rewrite length_take, length_drop in He. cbn [length] in He. lia.
Qed.

Section ChunkedProofs.
Context `{SliceOfU8Ext}.

(** Where the search finds the line end, depending on how much arrived. *)
Lemma find_size_line q l v more tail :
  hex_value l = Some v -> q ++ tail = l ++ HTTP_CR_LF ++ more ->
  find_sequence_pos q HTTP_CR_LF 0 =
    if decide (length l + 2 <= length q)%nat then Some (length l) else None.
Proof.
  intros Hv Heq.
  assert (forall p, (p < length l)%nat -> (p + 2 <= length q)%nat -> ~ occurs_at HTTP_CR_LF q p) as Hbefore.
  { intros p Hp Hpq [Hc _]%occurs_crlf_lookup.
    assert ((l ++ HTTP_CR_LF ++ more) !! p = Some Byte.x0d) as Hx
      by (rewrite <-Heq; by rewrite lookup_app_l by lia).
    rewrite lookup_app_l in Hx by done. by eapply hex_value_from_no_cr. }
  eapply first_from_unique; [by apply find_sequence_pos_spec|].
  case_decide as Hd; simpl.
  - split_and!; [lia| |intros p Hp; apply Hbefore; lia].
    assert (take (length l + 2) q = l ++ HTTP_CR_LF) as Ht.
    { rewrite <-(take_app_le q tail) by done. rewrite Heq, (assoc_L (++)).
      apply take_app_length'. by rewrite length_app. }
    unfold occurs_at. rewrite take_drop_commute. simpl. rewrite Ht. apply drop_app_length.
  - intros p _ Hp. pose proof (occurs_crlf_lookup _ _ Hp) as [_ Hl].
    apply (Hbefore p); [lia|lia|done].
Qed.

Lemma read_chunk_header_spec oc timeouts l v more fuel : forall io,
  (size (read_stream io) < fuel)%nat -> ok_io io ->
  hex_value l = Some v -> (length l <= 15)%nat ->
  (length l + 3 <= length (LoopBuffer.data (loop_buffer io)))%nat ->
  stream io = l ++ HTTP_CR_LF ++ more -> more <> [] ->
  exists io', read_chunk_header_loop fuel oc timeouts io =
              (io', Some (Ok {| len := length l; chunk_size := v |})) /\ moved 0 io io'.
Proof.
  induction fuel as [|fuel IH]; intros io Hf Ho Hv Hl Hroom Hst Hmore; [lia|].
  cbn [read_chunk_header_loop]. rewrite LoopBuffer.get_data_queue by apply Ho.
  unfold stream in Hst. set (q := LoopBuffer.queue (loop_buffer io)) in *.
  rewrite (find_size_line q l v more _ Hv Hst).
  destruct (decide (length l + 2 <= length q /\ 2 < length q)%nat) as [[H2 H3]|Hno].
  - rewrite (decide_True _ _ H3), (decide_True _ _ H2). exists io. split; [|by apply moved_refl].
    assert (q = l ++ drop (length l) q) as ->.
    { rewrite <-(take_drop (length l) q) at 1. f_equal.
      rewrite <-(take_app_le q (pending (read_stream io))), Hst by lia. apply take_app_length. }
    unfold ChunkHeader_new. by rewrite (get_chunk_size_fits oc l _ v).
  - assert ((if decide (2 < length q)%nat
             then if decide (length l + 2 <= length q)%nat then Some (length l) else None
             else None) = None) as -> by (repeat case_decide; [lia|done|done]).
    destruct (read_more_spec timeouts io Ho) as (io1 & r & -> & Hm & Hres).
    assert (length q < length (q ++ pending (read_stream io)))%nat as Hlt.
    { rewrite Hst, !length_app. simpl. destruct more; [done|]. simpl. lia. }
    destruct r as [[]|e|]; [| |done].
    + destruct (IH io1) as (io' & -> & Hm'); try done; [lia|apply Hm| | |].
      * by rewrite (moved_cap _ _ _ Hm).
      * rewrite (moved_stream _ _ _ Hm). exact Hst.
      * exists io'. split; [done|]. by apply (moved_trans 0 0 io io1 io').
    + destruct Hres as [[_ Hfull]|[Hp _]].
      * exfalso. fold q in Hfull. lia.
      * rewrite Hp, app_nil_r in Hlt. lia.
Qed.

(** How a relay of [n] bytes that are all there ends: complete, or with a
    write that failed, after a part of them. *)
Definition relayed (n : Z) (io io' : Io) (r : outcome TransferError Z) : Prop :=
  exists k, moved k io io' /\ k <= n /\
    match r with
    | Ok total => total = n /\ k = n
    | Err (CanNotWriteContentToRemoteConnection _) => ~ healthy io
    | _ => False
    end.

Lemma transfer_known_size_relayed n timeouts io :
  0 <= n -> ok_io io -> n <= Z.of_nat (length (stream io)) ->
  exists io' r, transfer_known_size n timeouts io = (io', Some r) /\ relayed n io io' r.
Proof.
  intros Hn Ho Hl. unfold transfer_known_size.
  destruct (relay_loop_spec timeouts (S (size (read_stream io))) n io) as (m & io' & r & -> & Hm & Hle & Hr);
    [lia|done|done|].
  eexists io', _. split; [done|]. exists m. split; [done|].
  destruct r as [[]|[e| | |e]|]; cbn; try done. lia.
Qed.

(** One chunk, its line and whatever is where its data and its line end
    should be. *)
Lemma transfer_chunk_spec oc timeouts l v rest io :
  ok_io io -> line_ok (length (LoopBuffer.data (loop_buffer io))) l v ->
  stream io = l ++ HTTP_CR_LF ++ rest -> v + 2 <= Z.of_nat (length rest) ->
  Z.of_nat (length l) + v + 4 < 2 ^ 64 ->
  exists io1 io2 r,
    read_chunk_header oc timeouts io = (io1, Some (Ok {| len := length l; chunk_size := v |})) /\
    transfer_chunk_data oc {| len := length l; chunk_size := v |} timeouts io1 = (io2, Some r) /\
    relayed (Z.of_nat (length l) + v + 4) io io2 r.
Proof.
  intros Ho (Hv & Hl & Hr) Hst Hrest H64.
  pose proof (hex_value_range _ _ Hv) as [Hv0 _].
  destruct (read_chunk_header_spec oc timeouts l v rest (S (size (read_stream io))) io) as (io1 & Hio1 & Hm1);
    try done; [lia|by intros ->; cbn in Hrest; lia|].
  unfold transfer_chunk_data. cbn [len chunk_size].
  rewrite (usize_op_fits oc (_ + _)) by lia. cbn [mbind outcome_bind].
  change (Z.of_nat (length HTTP_CR_LF) * 2) with 4. rewrite usize_op_fits by lia.
  destruct (transfer_known_size_relayed (Z.of_nat (length l) + v + 4) timeouts io1)
    as (io2 & r & Hio2 & k & Hm2 & Hk & Hres); [lia|apply Hm1| |].
  - rewrite (moved_stream _ _ _ Hm1), Hst. change (Z.to_nat 0) with 0%nat. rewrite drop_0, !length_app.
    cbn [HTTP_CR_LF length]. lia.
  - exists io1, io2, r. split_and!; [done|done|]. exists k. split; [by apply (moved_trans 0 _ io io1 io2)|].
    split; [done|]. destruct r as [t|[e| | |e]|]; try done. intros Hh. by apply Hres, Hm1.
Qed.

Lemma relayed_trans n m io io1 io2 r :
  moved n io io1 -> relayed m io1 io2 r ->
  relayed (n + m) io io2 (t ← r; Ok (n + t)).
Proof.
  intros Hm (k & Hk & Hle & Hr). exists (n + k). split; [by eapply moved_trans|]. split; [lia|].
  destruct r as [t|[e| | |e]|]; cbn; try done; [lia|]. intros Hh. by apply Hr, Hm.
Qed.

(** The whole body, the last chunk followed by anything of two bytes or more. *)
Lemma transfer_chunked_relayed oc timeouts cs zero tail : forall total io,
  ok_io io -> chunks_ok (length (LoopBuffer.data (loop_buffer io))) cs ->
  line_ok (length (LoopBuffer.data (loop_buffer io))) zero 0 ->
  stream io = chunks_wire cs ++ zero ++ HTTP_CR_LF ++ tail -> (2 <= length tail)%nat ->
  0 <= total -> total + Z.of_nat (length (chunks_wire cs)) + Z.of_nat (length zero) + 4 < 2 ^ 64 ->
  exists io' r,
    transfer_chunked_body (S (length cs)) oc timeouts total io = (io', Some (t ← r; Ok (total + t))) /\
    relayed (Z.of_nat (length (chunks_wire cs)) + (Z.of_nat (length zero) + 4)) io io' r.
Proof.
  unfold chunks_wire.
  induction cs as [|c cs IH]; intros total io Ho Hcs Hz Hst Htail Ht H64; cbn [map concat] in *.
  - rewrite app_nil_l in Hst. cbn [length] in H64 |- *.
    destruct (transfer_chunk_spec oc timeouts zero 0 tail io) as (io1 & io2 & r & H1 & H2 & k & Hm & Hk & Hr);
      try done; [lia|lia|]. cbn [transfer_chunked_body]. rewrite H1, H2.
    exists io2, r. destruct r as [t|[e| | |e]|]; cbn [mbind outcome_bind]; try done.
    + destruct Hr as [-> ->]. rewrite usize_op_fits by lia. cbn [chunk_size]. cbn.
      split; [do 3 f_equal; lia|]. exists (Z.of_nat (length zero) + 0 + 4). split_and!; [done|lia..].
    + split; [done|]. exists k. split_and!; [done|lia|done].
  - apply Forall_cons in Hcs as [[Hc Hne] Hcs]. rewrite length_app, Nat2Z.inj_add in H64 |- *.
    assert (Z.of_nat (length (chunk_wire c)) =
            Z.of_nat (length (size_line c)) + Z.of_nat (length (payload c)) + 4) as Hlen.
    { unfold chunk_wire. rewrite !length_app. cbn [HTTP_CR_LF length]. lia. }
    destruct (transfer_chunk_spec oc timeouts (size_line c) (Z.of_nat (length (payload c)))
      (payload c ++ HTTP_CR_LF ++ concat (map chunk_wire cs) ++ zero ++ HTTP_CR_LF ++ tail) io)
      as (io1 & io2 & r & H1 & H2 & Hr); try done.
    { rewrite Hst. unfold chunk_wire. by rewrite <-!app_assoc. }
    { rewrite !length_app. cbn [HTTP_CR_LF length]. lia. }
    { lia. }
    rewrite <-Hlen in Hr. cbn [length]. remember (S (length cs)) as fuel eqn:Hfuel.
    cbn [transfer_chunked_body]. rewrite H1, H2. destruct Hr as (k & Hm & Hk & Hr).
    destruct r as [t|[e| | |e]|]; try done.
    2:{ exists io2, (Err (CanNotWriteContentToRemoteConnection e)). split; [done|].
        exists k. split_and!; [done|lia|done]. }
    destruct Hr as [-> ->]. rewrite usize_op_fits by lia. cbn [chunk_size].
    destruct (Z.eqb_spec (Z.of_nat (length (payload c))) 0) as [He|_].
    { destruct (payload c); [done|]. simpl in He. lia. }
    destruct (IH (total + Z.of_nat (length (chunk_wire c))) io2) as (io' & r & Hr & Hrel); try done.
    + apply Hm.
    + by rewrite (moved_cap _ _ _ Hm).
    + by rewrite (moved_cap _ _ _ Hm).
    + rewrite (moved_stream _ _ _ Hm), Hst, Nat2Z.id, <-!app_assoc. apply drop_app_length.
    + lia.
    + lia.
    + eexists io', _. split; [rewrite Hr|rewrite <-Z.add_assoc; by eapply relayed_trans].
      destruct r; cbn; do 2 f_equal. f_equal. lia.
Qed.

Lemma transfer_chunked_spec oc timeouts cs zero two more io :
  let n := Z.of_nat (length (chunks_wire cs ++ zero ++ HTTP_CR_LF ++ two)) in
  ok_io io -> healthy io -> chunks_ok (length (LoopBuffer.data (loop_buffer io))) cs ->
  line_ok (length (LoopBuffer.data (loop_buffer io))) zero 0 -> length two = 2%nat ->
  stream io = (chunks_wire cs ++ zero ++ HTTP_CR_LF ++ two) ++ more -> n < 2 ^ 64 ->
  exists io', transfer_chunked_body (S (length cs)) oc timeouts 0 io = (io', Some (Ok n)) /\ moved n io io'.
Proof.
  intros n Ho Hh Hcs Hz Htwo Hst H64.
  assert (n = Z.of_nat (length (chunks_wire cs)) + (Z.of_nat (length zero) + 4)) as Hn.
  { unfold n. rewrite !length_app, Htwo. cbn [HTTP_CR_LF length]. lia. }
  destruct (transfer_chunked_relayed oc timeouts cs zero (two ++ more) 0 io)
    as (io' & r & Hr & k & Hm & Hk & Hres); try done.
  - by rewrite Hst, <-!app_assoc.
  - rewrite length_app. lia.
  - lia.
  - exists io'. rewrite Hr, Hn. destruct r as [t|[e| | |e]|]; try done. by destruct Hres as [-> ->].
Qed.

(** C20: a chunked body, however it is cut into segments on arrival, is
    relayed verbatim with its framing, in capped steps.  This is about bodies
    whose size lines are hexadecimal digits only, 15 at most, without an
    extension, and short enough for the reader's buffer, and that arrive in
    full.  The pump always ends.  If no write fails, the chunks, the line of
    the last chunk and the two bytes behind that line are relayed, their
    number is returned, and everything behind them stays unread; so a trailer
    section is not relayed beyond its first two bytes.  If a write fails, the
    blocks written before it are a beginning of the same bytes, the rest is
    still unread, and the failure is reported (of the block whose write failed
    a part may have gone out too; the model counts whole blocks). *)
Theorem transfer_chunked_body_exact oc timeouts cs zero tail io :
  let n := length (chunks_wire cs ++ zero ++ HTTP_CR_LF ++ take 2 tail) in
  ok_io io -> chunks_ok (length (LoopBuffer.data (loop_buffer io))) cs ->
  line_ok (length (LoopBuffer.data (loop_buffer io))) zero 0 ->
  stream io = chunks_wire cs ++ zero ++ HTTP_CR_LF ++ tail -> (2 <= length tail)%nat ->
  Z.of_nat n < 2 ^ 64 ->
  exists io' r, transfer_chunked_body (S (length cs)) oc timeouts 0 io = (io', Some r) /\
    exists ws, writes (write_stream io') = writes (write_stream io) ++ ws /\
      Forall (fun w => 0 < Z.of_nat (length w) <= BODY_RELAY_CHUNK_SIZE) ws /\
      stream io = concat ws ++ stream io' /\
      match r with
      | Ok total => total = Z.of_nat n /\ concat ws = chunks_wire cs ++ zero ++ HTTP_CR_LF ++ take 2 tail /\
          stream io' = drop 2 tail
      | Err (CanNotWriteContentToRemoteConnection _) => ~ healthy io /\ (length (concat ws) <= n)%nat
      | _ => False
      end.
Proof.
  intros n Ho Hcs Hz Hst Htail H64.
  assert (Z.of_nat n = Z.of_nat (length (chunks_wire cs)) + (Z.of_nat (length zero) + 4)) as Hn.
  { unfold n. rewrite !length_app, length_take. cbn [HTTP_CR_LF length]. lia. }
  assert (stream io = (chunks_wire cs ++ zero ++ HTTP_CR_LF ++ take 2 tail) ++ drop 2 tail) as Hst'.
  { rewrite Hst, <-!app_assoc. by rewrite take_drop. }
  destruct (transfer_chunked_relayed oc timeouts cs zero tail 0 io)
    as (io' & r & Hr & k & Hm & Hk & Hres); try done; [lia|].
  exists io', r. split; [rewrite Hr; by destruct r|].
  destruct (moved_writes _ _ _ Hm) as (ws & Hw & Hc & Hcap). exists ws. split; [done|]. split; [done|].
  split; [by rewrite Hc, (moved_stream _ _ _ Hm), take_drop|].
  rewrite <-Hn in *. destruct r as [t|[e| | |e]|]; try done.
  - destruct Hres as [-> ->]. rewrite Hc, (moved_stream _ _ _ Hm), Nat2Z.id, Hst'.
    by rewrite (take_app_length' _ _ n), (drop_app_length' _ _ n).
  - split; [done|]. rewrite Hc, length_take. pose proof (moved_len _ _ _ Hm). lia.
Qed.

(** *** Whatever arrives, a pump delivers a prefix of it *)

Lemma transfer_known_size_moved n timeouts io :
  0 <= n -> ok_io io ->
  exists k io' r, transfer_known_size n timeouts io = (io', Some r) /\ moved k io io'.
Proof.
  intros Hn Ho. unfold transfer_known_size.
  destruct (relay_loop_spec timeouts (S (size (read_stream io))) n io) as (m & io' & r & -> & Hm & _);
    [lia|done|done|]. by eexists m, io', _.
Qed.

Lemma usize_op_nonneg {E} oc z v : usize_op (E:=E) oc z = Ok v -> 0 <= v.
Proof.
  unfold usize_op. case_bool_decide as Hz; [intros [= <-]; lia|].
  destruct oc; [done|]. intros [= <-]. apply Z.mod_pos_bound. lia.
Qed.

Lemma read_chunk_header_moved oc timeouts fuel : forall io,
  ok_io io -> exists io' r, read_chunk_header_loop fuel oc timeouts io = (io', r) /\ moved 0 io io'.
Proof.
  induction fuel as [|fuel IH]; intros io Ho; cbn [read_chunk_header_loop].
  { exists io, None. split; [done|by apply moved_refl]. }
  rewrite LoopBuffer.get_data_queue by apply Ho.
  destruct (if decide _ then _ else None) as [p|].
  { eexists io, _. split; [done|by apply moved_refl]. }
  destruct (read_more_spec timeouts io Ho) as (io1 & r & -> & Hm & _).
  destruct r as [[]|e|]; [|by eexists _, _..].
  destruct (IH io1 (moved_ok _ _ _ Hm)) as (io' & r & -> & Hm').
  exists io', r. split; [done|]. by apply (moved_trans 0 0 io io1 io').
Qed.

Lemma transfer_chunk_data_moved oc h timeouts io :
  ok_io io -> exists k io' r, transfer_chunk_data oc h timeouts io = (io', r) /\ moved k io io'.
Proof.
  intros Ho. unfold transfer_chunk_data.
  destruct (t ← usize_op oc _; usize_op oc _) as [n|e|] eqn:Hn;
    [|by eexists 0, _, _; split; [done|apply moved_refl]..].
  destruct (transfer_known_size_moved n timeouts io) as (k & io' & r & Hr & Hm); [|done|].
  { destruct (usize_op oc (_ + chunk_size h)); simpl in Hn; try done. by eapply usize_op_nonneg. }
  by exists k, io', (Some r).
Qed.

Lemma transfer_chunked_moved oc timeouts fuel : forall total io,
  ok_io io -> exists k io' r, transfer_chunked_body fuel oc timeouts total io = (io', r) /\ moved k io io'.
Proof.
  induction fuel as [|fuel IH]; intros total io Ho; cbn [transfer_chunked_body].
  { exists 0, io, None. split; [done|by apply moved_refl]. }
  destruct (read_chunk_header_moved oc timeouts (S (size (read_stream io))) io Ho) as (io1 & h & Hh & Hm1).
  unfold read_chunk_header. rewrite Hh. destruct h as [[h|e|]|]; [|by eexists 0, _, _..].
  destruct (transfer_chunk_data_moved oc h timeouts io1 (moved_ok _ _ _ Hm1)) as (k & io2 & r & -> & Hm2).
  pose proof (moved_trans _ _ _ _ _ Hm1 Hm2) as Hm12.
  destruct r as [[n|e|]|]; [|by eexists _, _, _..].
  destruct (usize_op oc (total + n)) as [total'|e|]; [|by eexists _, _, _..].
  destruct (chunk_size h =? 0); [by eexists _, _, _|].
  destruct (IH total' io2 (moved_ok _ _ _ Hm2)) as (k' & io' & r' & -> & Hm').
  eexists _, io', r'. split; [done|]. by eapply moved_trans.
Qed.

(** More fuel does not change a result. *)
Lemma transfer_chunked_fuel oc timeouts fuel fuel' : forall total io io' r,
  (fuel <= fuel')%nat -> transfer_chunked_body fuel oc timeouts total io = (io', Some r) ->
  transfer_chunked_body fuel' oc timeouts total io = (io', Some r).
Proof.
  revert fuel'. induction fuel as [|fuel IH]; intros [|fuel'] total io io' r Hf Hr; try done; [lia|].
  cbn [transfer_chunked_body] in *. destruct (read_chunk_header oc timeouts io) as [io1 [[h|e|]|]]; try done.
  destruct (transfer_chunk_data oc h timeouts io1) as [io2 [[n|e|]|]]; try done.
  destruct (usize_op oc (total + n)) as [total'|e|]; try done.
  destruct (chunk_size h =? 0); [done|]. apply IH; [lia|done].
Qed.

Lemma stuck_header_parses q :
  find_sequence_pos (bs "FFFFFFFFFFFFFFEC" ++ HTTP_CR_LF ++ q) HTTP_CR_LF 0 = Some 16%nat.
Proof.
  rewrite (find_size_line _ (bs "FFFFFFFFFFFFFFEC") (2 ^ 64 - 20) q []);
    [|vm_compute; reflexivity|by rewrite app_nil_r].
  change (length (bs "FFFFFFFFFFFFFFEC")) with 16%nat. apply decide_True.
  rewrite !length_app. change (length (bs "FFFFFFFFFFFFFFEC")) with 16%nat. simpl. lia.
Qed.

(** In builds without overflow checks one chunk header hangs the pump:
    the size [FFFFFFFFFFFFFFEC] plus its line length wraps to a chunk of
    zero bytes that is not the last one, so the loop re-reads the same line
    for ever, without reading, writing or consuming anything. *)
Theorem chunk_header_livelock fuel timeouts total io q :
  ok_io io -> 0 <= total < 2 ^ 64 ->
  LoopBuffer.queue (loop_buffer io) = bs "FFFFFFFFFFFFFFEC" ++ HTTP_CR_LF ++ q ->
  transfer_chunked_body fuel false timeouts total io = (io, None).
Proof.
  intros Ho Ht Hq. induction fuel as [|fuel IH]; [done|]. cbn [transfer_chunked_body].
  assert (read_chunk_header false timeouts io =
          (io, Some (Ok {| len := 16; chunk_size := 2 ^ 64 - 20 |}))) as ->.
  { unfold read_chunk_header. cbn [read_chunk_header_loop].
    rewrite LoopBuffer.get_data_queue, Hq by apply Ho.
    rewrite decide_True by (rewrite !length_app; change (length (bs "FFFFFFFFFFFFFFEC")) with 16%nat; lia).
    rewrite stuck_header_parses. unfold ChunkHeader_new, get_chunk_size.
    rewrite slice_to_ok by (rewrite !length_app; change (length (bs "FFFFFFFFFFFFFFEC")) with 16%nat; lia).
    cbn [mbind outcome_bind].
    rewrite (take_app_length' (bs "FFFFFFFFFFFFFFEC")) by (vm_compute; reflexivity).
    vm_compute (chunk_size_loop _ _ _ _). reflexivity. }
  assert (transfer_chunk_data false {| len := 16; chunk_size := 2 ^ 64 - 20 |} timeouts io
          = (io, Some (Ok 0))) as -> by reflexivity.
  rewrite Z.add_0_r, usize_op_fits by done. exact IH.
Qed.

(** Trailer fields are not understood: behind the last chunk's size
    line exactly two bytes are relayed as its line end, whatever they are,
    and the rest of a trailer section is left to be parsed as the next
    message. *)
Theorem trailers_are_cut oc timeouts trailer io :
  ok_io io -> healthy io -> (4 <= length (LoopBuffer.data (loop_buffer io)))%nat ->
  stream io = bs "0" ++ HTTP_CR_LF ++ trailer -> (2 <= length trailer)%nat ->
  exists io',
    transfer_chunked_body 1 oc timeouts 0 io = (io', Some (Ok 5)) /\
    delivered io' = delivered io ++ bs "0" ++ HTTP_CR_LF ++ take 2 trailer /\
    stream io' = drop 2 trailer.
Proof.
  intros Ho Hh Hroom Hst Ht.
  destruct (read_chunk_header_spec oc timeouts (bs "0") 0 trailer (S (size (read_stream io))) io)
    as (io1 & H1 & Hm1); try done;
    [lia|vm_compute; lia|by destruct trailer; [simpl in Ht; lia|]|].
  cbn [transfer_chunked_body]. unfold read_chunk_header. rewrite H1.
  destruct (transfer_known_size_spec 5 timeouts io1) as (io2 & H2 & Hm2); [lia|apply Hm1|by apply Hm1| |].
  { rewrite (moved_stream _ _ _ Hm1), Hst. change (Z.to_nat 0) with 0%nat. rewrite drop_0, !length_app.
    change (length (bs "0")) with 1%nat. change (length HTTP_CR_LF) with 2%nat. lia. }
  assert (transfer_chunk_data oc {| len := length (bs "0"); chunk_size := 0 |} timeouts io1
          = (io2, Some (Ok 5))) as -> by (rewrite <-H2; by destruct oc).
  rewrite usize_op_fits by lia. cbn [chunk_size]. exists io2. split; [done|].
  pose proof (moved_trans _ _ _ _ _ Hm1 Hm2) as Hm. simpl in Hm.
  split.
  - destruct (moved_writes _ _ _ Hm) as (ws & Hw & Hc & _). unfold delivered.
    by rewrite Hw, concat_app, Hc, Hst.
  - by rewrite (moved_stream _ _ _ Hm), Hst.
Qed.

End ChunkedProofs.

(** *** Witnesses: a 32-byte buffer and a segmented source *)

#[local] Existing Instance reference_slice_ext.

Definition sample_io (queued : bytes) (s : source) : Io :=
  {| loop_buffer := LoopBuffer.advance (length queued)
       (LoopBuffer.store queued (LoopBuffer.new (replicate 32 Byte.x00)));
     read_stream := s; write_stream := {| writes := []; verdicts := [] |} |}.

Lemma sample_io_ok queued s : (length queued <= 32)%nat -> ok_io (sample_io queued s) /\ healthy (sample_io queued s).
Proof.
  intros Hl. destruct (LoopBuffer.new_queue (replicate 32 Byte.x00)) as [Hi _].
  destruct (LoopBuffer.store_advance_queue queued _ Hi) as (Hi' & _ & Hl'); [simpl; lia|].
  split; [split; cbn [loop_buffer sample_io]; [exact Hi'|rewrite Hl'; simpl; lia]|constructor].
Qed.

Lemma transfer_known_size_exact_witness :
  exists k io' r,
    transfer_known_size 4 (10, 10) (sample_io (bs "BOD") [Data (bs "YGET /")]) = (io', Some r) /\
    moved k (sample_io (bs "BOD") [Data (bs "YGET /")]) io' /\ k <= 4.
Proof.
  destruct (transfer_known_size_exact 4 (10, 10) (sample_io (bs "BOD") [Data (bs "YGET /")]))
    as (k & io' & r & H1 & H2 & H3 & _); [lia|apply sample_io_ok; vm_compute; lia|].
  exists k, io', r. split_and!; assumption.
Defined.

Lemma chunk_size_value_witness : get_chunk_size true (bs "211B" ++ HTTP_CR_LF) 4 = Ok 8475.
Proof. apply (proj2 (chunk_size_value (bs "211B") HTTP_CR_LF)). vm_compute. lia. Defined.

Definition sample_chunk : Chunk := {| size_line := bs "5"; payload := bs "hello" |}.
Definition sample_last : Chunk := {| size_line := bs "0"; payload := [] |}.
Definition sample_chunked : Io :=
  sample_io [] [Data (bs "5" ++ HTTP_CR_LF ++ bs "he"); Data (bs "llo" ++ HTTP_CR_LF);
                Data (bs "0" ++ HTTP_CR_LF ++ HTTP_CR_LF ++ bs "GET")].

Lemma transfer_chunked_body_exact_witness :
  exists io' r,
    transfer_chunked_body 2 true (10, 10) 0 sample_chunked = (io', Some r) /\
    match r with
    | Ok total => total = 15 /\ stream io' = bs "GET"
    | Err _ => ~ healthy sample_chunked
    | Panic => False
    end.
Proof.
  destruct (transfer_chunked_body_exact true (10, 10) [sample_chunk] (bs "0") (HTTP_CR_LF ++ bs "GET") sample_chunked)
    as (io' & r & H1 & ws & _ & _ & _ & H2).
  - apply sample_io_ok. simpl. lia.
  - repeat constructor; try (vm_compute; lia); done.
  - split; [vm_compute; reflexivity|split; vm_compute; lia].
  - vm_compute; reflexivity.
  - vm_compute; lia.
  - vm_compute; reflexivity.
  - exists io', r. split; [exact H1|].
    destruct r as [total|[e| | |e]|]; [|contradiction| contradiction|contradiction|exact (proj1 H2)|contradiction].
    destruct H2 as (Ht & _ & Hs). split; [exact Ht|exact Hs].
Defined.

Lemma chunk_header_livelock_witness :
  transfer_chunked_body 1000 false (10, 10) 0
    (sample_io (bs "FFFFFFFFFFFFFFEC" ++ HTTP_CR_LF ++ bs "x") []) =
  (sample_io (bs "FFFFFFFFFFFFFFEC" ++ HTTP_CR_LF ++ bs "x") [], None).
Proof.
  apply (chunk_header_livelock 1000 (10, 10) 0 _ (bs "x")).
  - apply sample_io_ok. vm_compute. lia.
  - lia.
  - vm_compute; reflexivity.
Defined.

Lemma trailers_are_cut_witness :
  exists io',
    transfer_chunked_body 1 true (10, 10) 0
      (sample_io (bs "0" ++ HTTP_CR_LF ++ bs "X: y") []) = (io', Some (Ok 5)) /\
    stream io' = bs " y".
Proof.
  destruct (trailers_are_cut true (10, 10) (bs "X: y") (sample_io (bs "0" ++ HTTP_CR_LF ++ bs "X: y") []))
    as (io' & H1 & _ & H2).
  - apply sample_io_ok. vm_compute. lia.
  - apply sample_io_ok. vm_compute. lia.
  - vm_compute. lia.
  - vm_compute; reflexivity.
  - vm_compute. lia.
  - exists io'. split; [exact H1|]. rewrite H2. vm_compute. reflexivity.
Defined.

End BodyRelay.
