(* ===== verification/H1Headers.v ===== *)
(** * HTTP/1.1 message heads: [h1_utils/]

    The parser that finds the end of a head and its body framing in the read
    buffer, the accessors used for routing, and the builders of the heads and
    responses the proxy writes itself. *)

From Stdlib Require Import ZArith Lia Strings.Byte.
From stdpp Require Import base tactics list strings.
From S2P Require Import Prelude RustStd.

Local Open Scope Z_scope.

(** [rust_extensions::StrUtils] and [http::StatusCode::canonical_reason],
    libraries outside this repository. *)
Class H1Libs := {
  eq_case_insensitive : bytes -> bytes -> bool;
  canonical_reason : Z -> option bytes;
  eq_case_insensitive_ascii : forall a b,
    Forall (fun c => u8 c < 128) a -> Forall (fun c => u8 c < 128) b ->
    eq_case_insensitive a b = Str.eq_ignore_ascii_case a b
}.

Module H1.

Definition CRLF : bytes := [Byte.x0d; Byte.x0a].
Definition COLON : byte := Byte.x3a.
Definition SPACE : byte := Byte.x20.

(** ** The first line *)

Definition methods : list bytes :=
  [bs "GET"; bs "POST"; bs "PUT"; bs "DELETE"; bs "HEAD"; bs "OPTIONS"; bs "PATCH"; bs "TRACE";
   bs "CONNECT"; bs "PRI"].

Definition is_valid_http_method (method : bytes) : bool := bool_decide (method ∈ methods).

Definition is_valid_status_code (status : bytes) : bool :=
  if negb (length status =? 3)%nat then false
  else if negb (forallb Str.is_digit status) then false
  else match Str.parse_uint 65535 status with
       | Some code => (100 <=? code) && (code <=? 599)
       | None => false
       end.

Definition verify_http11_first_line (first_line : bytes) : outcome bytes unit :=
  if decide (first_line = []) then Err (bs "Empty first line")
  else
    match Utf8.from_utf8 first_line with
    | None => Err (bs "Invalid UTF-8 in first line")
    | Some line_str =>
        let parts := Str.split_whitespace line_str in
        match parts with
        | [] => Err (bs "First line contains no tokens")
        | [_] => Err (bs "First line must contain at least 2 tokens")
        | part0 :: part1 :: more =>
            if decide (part0 = bs "HTTP/1.1") then
              match more with
              | [] => Err (bs "Response line must contain at least 3 tokens: HTTP/1.1 STATUS REASON")
              | _ :: _ =>
                  if negb (is_valid_status_code part1)
                  then Err (bs "Invalid HTTP status code: '" ++ part1 ++ bs "'")
                  else Ok tt
              end
            else
              match more with
              | [part2] =>
                  if decide (part2 <> bs "HTTP/1.1") then
                    Err (bs "Invalid HTTP version: '" ++ part2 ++ bs "', expected 'HTTP/1.1'")
                  else if negb (is_valid_http_method part0) then
                    Err (bs "Invalid HTTP method: '" ++ part0 ++ bs "'")
                  else if decide (part1 = []) then Err (bs "URI cannot be empty")
                  else Ok tt
              | _ => Err (bs "Request line must contain exactly 3 tokens: METHOD URI HTTP/1.1")
              end
        end
    end.

(** ** Header lines *)

Record HeaderPosition := { start : nat; pos_end : nat }.

Record HttpHeader := {
  hdr_payload : bytes;
  header_start : nat;
  header_separator_index : nat;
  header_end : nat
}.

(** [to_lower_case] and [compare_case_insensitive]; the iterator over
    the left side panics when it runs out first. *)
Definition to_lower_case (b : byte) : byte :=
  if (65 <=? u8 b) && (u8 b <=? 90) then u8_of_Z (u8 b - 65 + 97) else b.

Fixpoint compare_case_insensitive (lhs rhs : bytes) : outcome bytes bool :=
  match rhs with
  | [] => Ok true
  | v :: rhs =>
      match lhs with
      | [] => Panic
      | p :: lhs =>
          if decide (v = p) then compare_case_insensitive lhs rhs
          else if decide (to_lower_case v <> to_lower_case p) then Ok false
          else compare_case_insensitive lhs rhs
      end
  end.

Section Parser.
Context `{SliceOfU8Ext} `{H1Libs}.

Definition HttpHeader_new (payload : bytes) (header_start_pos header_end : nat) : option HttpHeader :=
  header_separator_index ← find_byte_pos payload COLON header_start_pos;
  Some {| hdr_payload := payload; header_start := header_start_pos;
          header_separator_index := header_separator_index; header_end := header_end |}.

Definition is_my_header_name (h : HttpHeader) (value : bytes) : outcome bytes bool :=
  if negb (header_separator_index h - header_start h =? length value)%nat then Ok false
  else
    header_name ← slice (hdr_payload h) (header_start h) (header_separator_index h);
    compare_case_insensitive header_name value.

Definition get_value (h : HttpHeader) : HeaderPosition :=
  {| start := header_separator_index h + 2; pos_end := header_end h |}.

Definition get_value_as_str (h : HttpHeader) : outcome bytes (option bytes) :=
  value ← slice (hdr_payload h) (header_separator_index h + 2) (header_end h);
  Ok (Str.trim <$> Utf8.from_utf8 value).

Definition get_usize_value (h : HttpHeader) : outcome bytes (option Z) :=
  value ← get_value_as_str h;
  Ok (v ← value; Str.parse_uint (2 ^ 64 - 1) v).

(** ** Heads *)

Inductive HttpContentLength := NoLength | Known (n : Z) | Chunked.

Record Http1Headers := {
  first_line_end : nat;
  head_end : nat;
  content_length : HttpContentLength;
  host_value : option HeaderPosition;
  cookie_value : option HeaderPosition;
  upgrade_value : option HeaderPosition
}.

Definition HOST_HEADER : bytes := bs "host".
Definition COOKIE_HEADER : bytes := bs "cookie".
Definition CONTENT_LEN_HEADER : bytes := bs "content-length".
Definition TRANSFER_ENCODING_HEADER : bytes := bs "transfer-encoding".
Definition UPGRADE_HEADER : bytes := bs "upgrade".

(** One header line folded into what was found so far; [None] aborts. *)
Definition on_header (h : HttpHeader) (st : Http1Headers) : outcome bytes (option Http1Headers) :=
  is_host ← is_my_header_name h HOST_HEADER;
  if (is_host : bool) then
    Ok (Some {| first_line_end := first_line_end st; head_end := head_end st;
                content_length := content_length st; host_value := Some (get_value h);
                cookie_value := cookie_value st; upgrade_value := upgrade_value st |})
  else
  is_cookie ← is_my_header_name h COOKIE_HEADER;
  if (is_cookie : bool) then
    Ok (Some {| first_line_end := first_line_end st; head_end := head_end st;
                content_length := content_length st; host_value := host_value st;
                cookie_value := Some (get_value h); upgrade_value := upgrade_value st |})
  else
  is_content_len ← is_my_header_name h CONTENT_LEN_HEADER;
  if (is_content_len : bool) then
    n ← get_usize_value h;
    Ok (n ← n;
        Some {| first_line_end := first_line_end st; head_end := head_end st;
                content_length := Known n; host_value := host_value st;
                cookie_value := cookie_value st; upgrade_value := upgrade_value st |})
  else
  is_transfer_encoding ← is_my_header_name h TRANSFER_ENCODING_HEADER;
  if (is_transfer_encoding : bool) then
    value ← get_value_as_str h;
    Ok (value ← value;
        Some (if eq_case_insensitive value (bs "chunked") then
                {| first_line_end := first_line_end st; head_end := head_end st;
                   content_length := Chunked; host_value := host_value st;
                   cookie_value := cookie_value st; upgrade_value := upgrade_value st |}
              else st))
  else
  is_upgrade ← is_my_header_name h UPGRADE_HEADER;
  if (is_upgrade : bool) then
    Ok (Some {| first_line_end := first_line_end st; head_end := head_end st;
                content_length := content_length st; host_value := host_value st;
                cookie_value := cookie_value st; upgrade_value := Some (get_value h) |})
  else Ok (Some st).

(** The loop of [Http1Headers::parse]: every round moves past a line end, so
    the buffer length is enough fuel. *)
Fixpoint parse_loop (fuel : nat) (src : bytes) (header_start_pos : nat) (st : Http1Headers) :
    outcome bytes (option Http1Headers) :=
  match fuel with
  | O => Ok None
  | S fuel =>
      match find_sequence_pos src CRLF header_start_pos with
      | None => Ok None
      | Some e =>
          if decide (e = header_start_pos) then
            Ok (Some {| first_line_end := first_line_end st; head_end := e + length CRLF;
                        content_length := content_length st; host_value := host_value st;
                        cookie_value := cookie_value st; upgrade_value := upgrade_value st |})
          else
            match HttpHeader_new src header_start_pos e with
            | None => Ok None
            | Some h =>
                st ← on_header h st;
                match st with
                | None => Ok None
                | Some st => parse_loop fuel src (e + length CRLF) st
                end
            end
      end
  end.

Definition parse (src : bytes) : outcome bytes (option Http1Headers) :=
  match find_sequence_pos src CRLF 0 with
  | None => Ok None
  | Some first_line_end =>
      first_line ← slice_to src first_line_end;
      match verify_http11_first_line first_line with
      | Err _ => Ok None
      | Panic => Panic
      | Ok _ =>
          parse_loop (S (length src)) src (first_line_end + length CRLF)
            {| first_line_end := first_line_end; head_end := 0; content_length := NoLength;
               host_value := None; cookie_value := None; upgrade_value := None |}
      end
  end.

(** [find_header_value_str] *)
Fixpoint find_header_loop (fuel : nat) (src : bytes) (pos : nat) (name : bytes) :
    outcome bytes (option bytes) :=
  match fuel with
  | O => Ok None
  | S fuel =>
      match find_sequence_pos src CRLF pos with
      | None => Ok None
      | Some e =>
          if decide (e = pos) then Ok None
          else
            match HttpHeader_new src pos e with
            | None => Ok None
            | Some h =>
                is_mine ← is_my_header_name h name;
                if (is_mine : bool) then
                  value ← slice src (start (get_value h)) (pos_end (get_value h));
                  Ok (Str.trim <$> Utf8.from_utf8 value)
                else find_header_loop fuel src (e + length CRLF) name
            end
      end
  end.

Definition find_header_value_str (h : Http1Headers) (src name : bytes) : outcome bytes (option bytes) :=
  find_header_loop (S (length src)) src (first_line_end h + length CRLF) name.

(** [H1HeadersFirstLine]: [unwrap] panics on a missing space or on bytes
    that are not UTF-8. *)
Definition get_verb_and_path (line : bytes) : outcome bytes (bytes * bytes) :=
  index_start ← unwrap (find_byte_pos line SPACE 0);
  index_end ← unwrap (find_byte_pos line SPACE (index_start + 1));
  verb ← slice_to line index_start;
  verb ← unwrap (Utf8.from_utf8 verb);
  path ← slice line (index_start + 1) index_end;
  path ← unwrap (Utf8.from_utf8 path);
  Ok (verb, path).

Definition get_path_and_query (line : bytes) : outcome bytes bytes :=
  index_start ← unwrap (find_byte_pos line SPACE 0);
  let index_start := (index_start + 1)%nat in
  index_end ← unwrap (find_byte_pos line SPACE index_start);
  path ← slice line index_start index_end;
  unwrap (Utf8.from_utf8 path).

(** [push_first_line_with_other_path] *)
Definition first_line_with_other_path (h : Http1Headers) (data path : bytes) : outcome bytes bytes :=
  buffer ← slice_to data (first_line_end h);
  let items := Str.split SPACE buffer in
  Ok (concat (imap (fun no itm =>
    (if decide (0 < no)%nat then [SPACE] else []) ++ (if decide (no = 1%nat) then path else itm)) items)).

(** ** Builders: the payload is the state *)

Definition push_cl_cr (payload : bytes) : bytes := payload ++ CRLF.

Definition push_response_first_line (status_code : Z) (payload : bytes) : bytes :=
  push_cl_cr (payload ++
    (if status_code =? 200 then bs "HTTP/1.1 200 OK"
     else if status_code =? 401 then bs "HTTP/1.1 401 Unauthorized"
     else if status_code =? 403 then bs "HTTP/1.1 403 Forbidden"
     else if status_code =? 404 then bs "HTTP/1.1 404 Not Found"
     else if status_code =? 405 then bs "HTTP/1.1 405 Method Not Allowed"
     else if status_code =? 421 then bs "HTTP/1.1 421 Misdirected Request"
     else if status_code =? 502 then bs "HTTP/1.1 502 Bad Gateway"
     else if status_code =? 503 then bs "HTTP/1.1 503 Service Temporarily Unavailable"
     else bs "HTTP/1.1 " ++ Str.uint_to_string status_code ++ bs " "
          ++ default (bs "Status") (canonical_reason status_code))).

Definition push_header (name value payload : bytes) : bytes :=
  push_cl_cr (payload ++ name ++ bs ": " ++ value).

Definition push_content_length (size : Z) (payload : bytes) : bytes :=
  push_header (bs "content-length") (Str.uint_to_string size) payload.

(** [Http1ResponseBuilder] *)
Definition response_new (status_code : Z) : bytes := push_response_first_line status_code [].
Definition add_content_type (value payload : bytes) : bytes := push_header (bs "content-type") value payload.
Definition new_as_html : bytes := add_content_type (bs "text/html; charset=UTF-8") (response_new 200).

Definition build_with_body (body payload : bytes) : bytes :=
  push_cl_cr (push_content_length (Z.of_nat (length body)) payload) ++ body.

End Parser.

Lemma not_in_dec (b : byte) (l : bytes) : existsb (Byte.eqb b) l = false -> b ∉ l.
Proof.
  intros Hf Hin. apply list_elem_of_In in Hin.
  assert (existsb (Byte.eqb b) l = true) as Ht; [|congruence].
  apply existsb_exists. exists b. split; [done|]. by apply Byte.byte_dec_lb.
Qed.

(** ** The parser against structured heads *)

(** A header line as it stands on the wire: what is before the first colon and
    what is behind it.  The byte behind the colon, a space in the usual
    spelling, is skipped without a look. *)
Record Line := { name : bytes; after : bytes }.

Definition mk_line (name : bytes) (sep : byte) (value : bytes) : Line := {| name := name; after := sep :: value |}.
Definition value (l : Line) : bytes := drop 1 (after l).

Definition line_bytes (l : Line) : bytes := name l ++ COLON :: after l.
Definition line_wire (l : Line) : bytes := line_bytes l ++ CRLF.

(** No line end inside. *)
Definition one_line (l : bytes) : Prop := forall i, l !! i = Some Byte.x0d -> l !! S i <> Some Byte.x0a.

(** The lines whose value the parser reads. *)
Definition says_length (n : bytes) : bool :=
  Str.eq_ignore_ascii_case n CONTENT_LEN_HEADER || Str.eq_ignore_ascii_case n TRANSFER_ENCODING_HEADER.

(** Lines that can stand in a head the parser accepts; a bare carriage return
    or line feed is nothing special, and only a line that is read for the
    length of the body needs a byte behind its colon. *)
Definition line_ok (l : Line) : Prop :=
  COLON ∉ name l /\ one_line (line_bytes l) /\ (says_length (name l) = true -> after l <> []).

Lemma no_cr_one_line l : Byte.x0d ∉ l -> one_line l.
Proof. intros Hl i Hi. exfalso. apply Hl. by eapply list_elem_of_lookup_2. Qed.

Lemma one_line_app a b : Byte.x0d ∉ a -> one_line b -> one_line (a ++ b).
Proof.
  intros Ha Hb i Hi Hn. destruct (decide (i < length a)%nat) as [Hlt|Hge].
  - rewrite lookup_app_l in Hi by done. apply Ha. by eapply list_elem_of_lookup_2.
  - rewrite lookup_app_r in Hi by lia. rewrite lookup_app_r in Hn by lia.
    replace (S i - length a)%nat with (S (i - length a)) in Hn by lia. by eapply Hb.
Qed.

(** Two parts with a byte that is no line feed at the seam. *)
Lemma one_line_seam a c b : one_line a -> c <> Byte.x0a -> one_line (c :: b) -> one_line (a ++ c :: b).
Proof.
  intros Ha Hc Hb i Hi Hn. destruct (decide (i < length a)%nat) as [Hlt|Hge].
  - rewrite lookup_app_l in Hi by done. destruct (decide (S i < length a)%nat).
    + rewrite lookup_app_l in Hn by done. by eapply Ha.
    + rewrite list_lookup_middle in Hn by lia. congruence.
  - rewrite lookup_app_r in Hi by lia. rewrite lookup_app_r in Hn by lia.
    replace (S i - length a)%nat with (S (i - length a)) in Hn by lia. by eapply Hb.
Qed.

Lemma one_line_infix a l b : one_line (a ++ l ++ b) -> one_line l.
Proof.
  intros Ho i Hi Hn. apply (Ho (length a + i)%nat).
  - rewrite lookup_app_r by lia. replace (length a + i - length a)%nat with i by lia.
    by apply lookup_app_l_Some.
  - rewrite lookup_app_r by lia. replace (S (length a + i) - length a)%nat with (S i) by lia.
    by apply lookup_app_l_Some.
Qed.

(** A line with no carriage return at all. *)
Lemma plain_line_ok n c v : COLON ∉ n -> Byte.x0d ∉ n -> c <> Byte.x0d -> Byte.x0d ∉ v -> line_ok (mk_line n c v).
Proof.
  intros Hc Hn Hs Hv. split_and!; [done| |done]. apply no_cr_one_line. unfold line_bytes. cbn.
  rewrite elem_of_app, !elem_of_cons. intros [?|[?|[?|?]]]; done || congruence.
Qed.

Definition head (first : bytes) (ls : list Line) : bytes :=
  first ++ CRLF ++ concat (map line_wire ls) ++ CRLF.

Definition last_host (ls : list Line) (hv : option Line) : option Line :=
  fold_left (fun hv l => if Str.eq_ignore_ascii_case (name l) HOST_HEADER then Some l else hv) ls hv.

(** What reading the value of a line gives: it panics if nothing is behind the
    colon. *)
Definition line_value (l : Line) : outcome bytes bytes :=
  match after l with [] => Panic | _ :: v => Ok v end.

Lemma compare_eq_ignore lhs rhs :
  length lhs = length rhs ->
  compare_case_insensitive lhs rhs = Ok (Str.eq_ignore_ascii_case lhs rhs).
Proof.
  assert (forall b, to_lower_case b = Str.to_lower b) as Hl.
  { intros b. unfold to_lower_case, Str.to_lower. destruct (_ && _); [|done]. f_equal. lia. }
  unfold Str.eq_ignore_ascii_case.
  revert rhs. induction lhs as [|p lhs IH]; intros [|v rhs] He; try done; simpl.
  simpl in He. rewrite !Hl, IH by lia. unfold Str.lower in *.
  case_decide as Hv; [|case_decide as Hd].
  - subst. f_equal. apply bool_decide_ext. split; [by intros ->|by intros [= ->]].
  - f_equal. symmetry. apply bool_decide_eq_false_2. intros [= ? ?]. congruence.
  - f_equal. apply bool_decide_ext. split; [intros ->; congruence|by intros [= ? ->]].
Qed.

Lemma eq_ignore_trans a b c :
  Str.eq_ignore_ascii_case a b = true -> Str.eq_ignore_ascii_case a c = Str.eq_ignore_ascii_case b c.
Proof.
  unfold Str.eq_ignore_ascii_case. intros He%bool_decide_eq_true. by rewrite He.
Qed.

Section ParserProofs.
Context `{SliceOfU8Ext} `{H1Libs}.

(** A line end of a line that is followed by one is not inside it. *)
Lemma crlf_inside l i :
  one_line l -> (l ++ CRLF) !! i = Some Byte.x0d -> (l ++ CRLF) !! S i = Some Byte.x0a -> i = length l.
Proof.
  intros Ho Hi Hn. destruct (decide (i < length l)%nat) as [Hlt|Hge].
  - exfalso. rewrite lookup_app_l in Hi by done. destruct (decide (S i < length l)%nat).
    + rewrite lookup_app_l in Hn by done. by eapply Ho.
    + unfold CRLF in Hn. rewrite list_lookup_middle in Hn by lia. done.
  - apply lookup_lt_Some in Hn. rewrite length_app in Hn. cbn in Hn. lia.
Qed.

Lemma crlf_occurs src q :
  occurs_at CRLF src q <-> src !! q = Some Byte.x0d /\ src !! S q = Some Byte.x0a.
Proof.
  unfold occurs_at. change (length CRLF) with 2%nat. rewrite <-(Nat.add_0_r q) at 2. rewrite <-lookup_drop.
  replace (S q) with (q + 1)%nat by lia. rewrite <-(lookup_drop src q 1).
  destruct (drop q src) as [|a [|b l]]; cbn; split; intros He; try done; try (by destruct He).
  - by injection He as -> ->.
  - by destruct He as [[= ->] [= ->]].
Qed.

Lemma find_crlf src pos l more :
  drop pos src = l ++ CRLF ++ more -> one_line l ->
  find_sequence_pos src CRLF pos = Some (pos + length l)%nat.
Proof.
  intros Hd Hl. eapply first_from_unique; [by apply find_sequence_pos_spec|].
  assert (forall q, src !! (pos + q)%nat = (l ++ CRLF ++ more) !! q) as Hlk
    by (intros; by rewrite <-Hd, lookup_drop).
  split; [lia|]. split.
  - unfold occurs_at. rewrite <-drop_drop, Hd, drop_app_length. done.
  - intros q Hq [Hc Hn]%crlf_occurs.
    assert ((q - pos)%nat = length l); [|lia].
    replace q with (pos + (q - pos))%nat in Hc by lia. replace (S q) with (pos + S (q - pos))%nat in Hn by lia.
    rewrite Hlk, (assoc_L (++)), lookup_app_l in Hc, Hn by (rewrite length_app; cbn; lia). by apply crlf_inside.
Qed.

(** What a search for a line end has found. *)
Lemma found_crlf src pos e :
  find_sequence_pos src CRLF pos = Some e ->
  exists l more, drop pos src = l ++ CRLF ++ more /\ e = (pos + length l)%nat /\ one_line l.
Proof.
  intros Hf. pose proof (find_sequence_pos_spec src CRLF pos ltac:(done)) as Hs. rewrite Hf in Hs.
  destruct Hs as (Hle & Hoc & Hno). pose proof Hoc as [Hc Hn]%crlf_occurs.
  apply lookup_lt_Some in Hn as Hlen.
  exists (take (e - pos) (drop pos src)), (drop (e + 2) src).
  assert (length (take (e - pos) (drop pos src)) = (e - pos)%nat) as Hl by (rewrite length_take, length_drop; lia).
  split_and!.
  - rewrite <-(take_drop (e - pos) (drop pos src)) at 1. f_equal. rewrite drop_drop.
    replace (pos + (e - pos))%nat with e by lia. rewrite <-(take_drop 2 (drop e src)), drop_drop. by rewrite <-Hoc.
  - lia.
  - intros i Hi Hi'. apply (Hno (pos + i)%nat).
    + apply lookup_lt_Some in Hi'. lia.
    + apply crlf_occurs. apply lookup_take_Some in Hi as [Hi _]. apply lookup_take_Some in Hi' as [Hi' _].
      rewrite lookup_drop in Hi, Hi'. by replace (S (pos + i)) with (pos + S i)%nat by lia.
Qed.

Lemma find_colon src pos n more :
  drop pos src = n ++ COLON :: more -> COLON ∉ n ->
  find_byte_pos src COLON pos = Some (pos + length n)%nat.
Proof.
  intros Hd Hn. eapply first_from_unique; [by apply find_byte_pos_spec|].
  assert (forall q, src !! (pos + q)%nat = (n ++ COLON :: more) !! q) as Hlk
    by (intros; by rewrite <-Hd, lookup_drop).
  split; [lia|]. split.
  - rewrite Hlk. apply list_lookup_middle. done.
  - intros q Hq Hoc. apply Hn. apply (list_elem_of_lookup_2 _ (q - pos)).
    replace q with (pos + (q - pos))%nat in Hoc by lia.
    rewrite Hlk, lookup_app_l in Hoc by lia. done.
Qed.

(** The slice of a block that starts [k] bytes after [pos]. *)
Lemma slice_at {E} (src pre a post : bytes) pos :
  drop pos src = pre ++ a ++ post -> (pos <= length src)%nat ->
  slice (E:=E) src (pos + length pre) (pos + length pre + length a) = Ok a.
Proof.
  intros Hd Hp.
  assert (length src = pos + length pre + length a + length post)%nat as Hl.
  { apply (f_equal length) in Hd. rewrite length_drop, !length_app in Hd. lia. }
  rewrite slice_ok by lia. rewrite <-drop_drop, Hd, drop_app_length.
  replace (pos + length pre + length a - (pos + length pre))%nat with (length a) by lia.
  by rewrite take_app_length.
Qed.

(** Name comparison at any header line. *)
Lemma header_name_at src pos nm more e n :
  (pos <= length src)%nat -> drop pos src = nm ++ COLON :: more ->
  is_my_header_name {| hdr_payload := src; header_start := pos;
                       header_separator_index := pos + length nm; header_end := e |} n
  = Ok (Str.eq_ignore_ascii_case nm n).
Proof.
  intros Hpos Hsrc. unfold is_my_header_name. cbn [header_separator_index header_start hdr_payload].
  replace (pos + length nm - pos)%nat with (length nm) by lia.
  destruct (Nat.eqb_spec (length nm) (length n)) as [He|Hne]; cbn [negb].
  - pose proof (slice_at (E:=bytes) src [] nm (COLON :: more) pos Hsrc Hpos) as Hs.
    simpl in Hs. rewrite Nat.add_0_r in Hs. rewrite Hs.
    cbn [mbind outcome_bind]. by apply compare_eq_ignore.
  - destruct (Str.eq_ignore_ascii_case nm n) eqn:He; [|done].
    by apply Str.eq_ignore_length in He.
Qed.

(** The body framing a list of header lines asks for: the last of the
    content-length and chunked transfer-encoding lines counts, and an
    unreadable one makes the head unacceptable. *)
Definition line_framing (l : Line) (cl : HttpContentLength) : option HttpContentLength :=
  if Str.eq_ignore_ascii_case (name l) CONTENT_LEN_HEADER then
    v ← Utf8.from_utf8 (value l); n ← Str.parse_uint (2 ^ 64 - 1) (Str.trim v); Some (Known n)
  else if Str.eq_ignore_ascii_case (name l) TRANSFER_ENCODING_HEADER then
    v ← Utf8.from_utf8 (value l);
    Some (if eq_case_insensitive (Str.trim v) (bs "chunked") then Chunked else cl)
  else Some cl.

Fixpoint framing (ls : list Line) (cl : HttpContentLength) : option HttpContentLength :=
  match ls with [] => Some cl | l :: ls => cl ← line_framing l cl; framing ls cl end.

Definition host_ok (src : bytes) (st : Http1Headers) (hv : option Line) : Prop :=
  match host_value st, hv with
  | Some p, Some l => slice src (start p) (pos_end p) = line_value l
  | None, None => True
  | _, _ => False
  end.

Section Line.
Context (src : bytes) (pos : nat) (l : Line) (more : bytes).
Context (Hpos : (pos <= length src)%nat) (Hsrc : drop pos src = line_bytes l ++ more).

Definition hdr : HttpHeader :=
  {| hdr_payload := src; header_start := pos; header_separator_index := pos + length (name l);
     header_end := pos + length (line_bytes l) |}.

Lemma hdr_name n : is_my_header_name hdr n = Ok (Str.eq_ignore_ascii_case (name l) n).
Proof.
  apply (header_name_at src pos (name l) (after l ++ more)); [done|].
  rewrite Hsrc. unfold line_bytes. by rewrite <-app_assoc.
Qed.

Lemma hdr_value : slice (E:=bytes) src (pos + length (name l) + 2) (pos + length (line_bytes l)) = line_value l.
Proof.
  unfold line_value. unfold line_bytes in *. destruct (after l) as [|c v].
  - unfold slice. rewrite length_app. cbn [length]. by rewrite decide_False by lia.
  - pose proof (slice_at (E:=bytes) src (name l ++ [COLON; c]) v more pos) as Hs.
    rewrite !length_app in *. cbn [length] in *.
    replace (pos + length (name l) + 2)%nat with (pos + (length (name l) + 2))%nat by lia.
    replace (pos + (length (name l) + S (S (length v))))%nat
      with (pos + (length (name l) + 2) + length v)%nat by lia.
    apply Hs; [|done]. rewrite Hsrc. by rewrite <-!app_assoc.
Qed.

Lemma hdr_value_str : get_value_as_str hdr = (v ← line_value l; Ok (Str.trim <$> Utf8.from_utf8 v)).
Proof.
  unfold get_value_as_str, hdr. cbn [hdr_payload header_separator_index header_end].
  by rewrite hdr_value.
Qed.

Lemma on_header_spec st hv :
  (says_length (name l) = true -> after l <> []) -> host_ok src st hv ->
  match line_framing l (content_length st) with
  | Some cl => exists st',
      on_header hdr st = Ok (Some st') /\ content_length st' = cl /\
      first_line_end st' = first_line_end st /\ host_ok src st' (last_host [l] hv)
  | None => on_header hdr st = Ok None
  end.
Proof.
  intros Hne Hh. unfold on_header, line_framing, last_host. cbn [fold_left]. rewrite !hdr_name.
  cbn [mbind outcome_bind].
  destruct (Str.eq_ignore_ascii_case (name l) HOST_HEADER) eqn:H1.
  { rewrite !(eq_ignore_trans _ _ _ H1).
    change (Str.eq_ignore_ascii_case HOST_HEADER CONTENT_LEN_HEADER) with false.
    change (Str.eq_ignore_ascii_case HOST_HEADER TRANSFER_ENCODING_HEADER) with false.
    eexists. split; [done|]. split_and!; try done. unfold host_ok. cbn. apply hdr_value. }
  cbn [mbind outcome_bind].
  destruct (Str.eq_ignore_ascii_case (name l) COOKIE_HEADER) eqn:H2.
  { rewrite !(eq_ignore_trans _ _ _ H2).
    change (Str.eq_ignore_ascii_case COOKIE_HEADER CONTENT_LEN_HEADER) with false.
    change (Str.eq_ignore_ascii_case COOKIE_HEADER TRANSFER_ENCODING_HEADER) with false.
    eexists. split; [done|]. by split_and!. }
  cbn [mbind outcome_bind].
  destruct (Str.eq_ignore_ascii_case (name l) CONTENT_LEN_HEADER) eqn:H3.
  { assert (line_value l = Ok (value l)) as Hlv.
    { unfold line_value, value. destruct (after l); [|done]. exfalso. apply Hne; [|done]. unfold says_length. by rewrite H3. }
    unfold get_usize_value. rewrite hdr_value_str, Hlv. cbn [mbind outcome_bind].
    destruct (Utf8.from_utf8 (value l)) as [v|]; cbn; [|done].
    destruct (Str.parse_uint _ (Str.trim v)) as [n|]; cbn; [|done].
    eexists. split; [done|]. by split_and!. }
  cbn [mbind outcome_bind].
  destruct (Str.eq_ignore_ascii_case (name l) TRANSFER_ENCODING_HEADER) eqn:H4.
  { assert (line_value l = Ok (value l)) as Hlv.
    { unfold line_value, value. destruct (after l); [|done]. exfalso. apply Hne; [|done]. unfold says_length.
      by rewrite H4, orb_true_r. }
    rewrite hdr_value_str, Hlv. cbn [mbind outcome_bind].
    destruct (Utf8.from_utf8 (value l)) as [v|]; cbn; [|done].
    eexists. split; [done|]. by destruct (eq_case_insensitive _ _). }
  cbn [mbind outcome_bind].
  destruct (Str.eq_ignore_ascii_case (name l) UPGRADE_HEADER) eqn:H5.
  { eexists. split; [done|]. by split_and!. }
  eexists. split; [done|]. by split_and!.
Qed.

(** A line that is read for the length of the body makes the parser panic if
    nothing is behind its colon. *)
Lemma on_header_panics st : says_length (name l) = true -> after l = [] -> on_header hdr st = Panic.
Proof.
  intros Hs Ha. assert (line_value l = Panic) as Hv by (unfold line_value; by rewrite Ha).
  unfold on_header. rewrite !hdr_name. cbn [mbind outcome_bind]. unfold says_length in Hs.
  destruct (Str.eq_ignore_ascii_case (name l) CONTENT_LEN_HEADER) eqn:Hc.
  - rewrite !(eq_ignore_trans _ _ _ Hc).
    change (Str.eq_ignore_ascii_case CONTENT_LEN_HEADER HOST_HEADER) with false.
    change (Str.eq_ignore_ascii_case CONTENT_LEN_HEADER COOKIE_HEADER) with false. cbn [mbind outcome_bind].
    unfold get_usize_value. by rewrite hdr_value_str, Hv.
  - cbn [orb] in Hs. rewrite !(eq_ignore_trans _ _ _ Hs).
    change (Str.eq_ignore_ascii_case TRANSFER_ENCODING_HEADER HOST_HEADER) with false.
    change (Str.eq_ignore_ascii_case TRANSFER_ENCODING_HEADER COOKIE_HEADER) with false. cbn [mbind outcome_bind].
    change (Str.eq_ignore_ascii_case TRANSFER_ENCODING_HEADER TRANSFER_ENCODING_HEADER) with true. cbn [mbind outcome_bind].
    by rewrite hdr_value_str, Hv.
Qed.

End Line.

Lemma parse_loop_spec src rest ls : forall fuel pos st hv,
  (length ls < fuel)%nat -> (pos <= length src)%nat -> Forall line_ok ls ->
  drop pos src = concat (map line_wire ls) ++ CRLF ++ rest -> host_ok src st hv ->
  match framing ls (content_length st) with
  | Some cl => exists h,
      parse_loop fuel src pos st = Ok (Some h) /\ first_line_end h = first_line_end st /\
      head_end h = (pos + length (concat (map line_wire ls)) + 2)%nat /\
      content_length h = cl /\ host_ok src h (last_host ls hv)
  | None => parse_loop fuel src pos st = Ok None
  end.
Proof.
  induction ls as [|l ls IH]; intros fuel pos st hv Hf Hp Hok Hd Hh;
    (destruct fuel as [|fuel]; [simpl in Hf; lia|]); cbn [parse_loop framing].
  - rewrite (find_crlf src pos [] rest) by (done || by intros i).
    rewrite decide_True by (simpl; lia). eexists. split; [done|]. cbn. by split_and!.
  - apply Forall_cons in Hok as [Hl Hok].
    assert (drop pos src = line_bytes l ++ CRLF ++ concat (map line_wire ls) ++ CRLF ++ rest) as Hd'.
    { rewrite Hd. cbn [map concat]. unfold line_wire at 1. by rewrite <-!app_assoc. }
    rewrite (find_crlf src pos (line_bytes l) _ Hd' (proj1 (proj2 Hl))).
    rewrite decide_False by (unfold line_bytes; rewrite length_app; simpl; lia).
    unfold HttpHeader_new.
    rewrite (find_colon src pos (name l) (after l ++ CRLF ++ concat (map line_wire ls) ++ CRLF ++ rest));
      [|rewrite Hd'; unfold line_bytes; by rewrite <-!app_assoc|apply Hl].
    cbn [mbind option_bind].
    pose proof (on_header_spec src pos l _ Hp Hd' st hv (proj2 (proj2 Hl)) Hh) as Hon. unfold hdr in Hon.
    destruct (line_framing l (content_length st)) as [cl|]; cbn [mbind option_bind];
      [|by rewrite Hon].
    destruct Hon as (st' & -> & Hcl & Hfl & Hh'). cbn [mbind outcome_bind].
    assert (pos + length (line_bytes l) + 2 <= length src)%nat as Hp'.
    { apply (f_equal length) in Hd'. rewrite length_drop, !length_app in Hd'. simpl in Hd'. lia. }
    specialize (IH fuel (pos + length (line_bytes l) + length CRLF)%nat st' (last_host [l] hv)).
    rewrite Hcl in IH. cbn [length] in Hf, Hp'.
    assert (drop (pos + length (line_bytes l) + length CRLF) src = concat (map line_wire ls) ++ CRLF ++ rest) as Hd''.
    { rewrite <-drop_drop, <-drop_drop, Hd', drop_app_length. apply drop_app_length. }
    specialize (IH ltac:(lia) ltac:(simpl; lia) Hok Hd'' Hh').
    destruct (framing ls cl) as [cl'|]; [|done].
    destruct IH as (h & -> & Hf1 & He1 & Hc1 & Hh1). exists h. split_and!; try done; [congruence|].
    rewrite He1. cbn [map concat]. unfold line_wire at 2. rewrite !length_app. lia.
Qed.

Lemma parse_head_spec first ls rest :
  one_line first -> verify_http11_first_line first = Ok tt -> Forall line_ok ls ->
  match framing ls NoLength with
  | Some cl => exists h,
      parse (head first ls ++ rest) = Ok (Some h) /\ first_line_end h = length first /\
      head_end h = length (head first ls) /\ content_length h = cl /\
      host_ok (head first ls ++ rest) h (last_host ls None)
  | None => parse (head first ls ++ rest) = Ok None
  end.
Proof.
  intros Hcr Hv Hok. unfold parse, head.
  set (src := (first ++ CRLF ++ concat (map line_wire ls) ++ CRLF) ++ rest).
  assert (drop 0 src = first ++ CRLF ++ concat (map line_wire ls) ++ CRLF ++ rest) as Hsrc0
    by (unfold src; rewrite drop_0; by rewrite <-!app_assoc).
  rewrite (find_crlf src 0 first _ Hsrc0 Hcr). cbn [plus].
  assert (length first + 2 <= length src)%nat as Hl.
  { unfold src. rewrite !length_app. simpl. lia. }
  rewrite slice_to_ok by lia. cbn [mbind outcome_bind].
  assert (take (length first) src = first) as ->.
  { rewrite drop_0 in Hsrc0. rewrite Hsrc0. apply take_app_length. }
  rewrite Hv.
  assert (drop (length first + length CRLF) src = concat (map line_wire ls) ++ CRLF ++ rest) as Hd.
  { rewrite drop_0 in Hsrc0. rewrite Hsrc0, <-drop_drop, drop_app_length. apply drop_app_length. }
  assert (length ls < S (length src))%nat as Hfuel.
  { unfold src. rewrite !length_app. assert (length ls <= length (concat (map line_wire ls)))%nat; [|lia].
    clear. induction ls as [|l ls IH]; simpl; [lia|]. rewrite length_app. unfold line_wire at 1.
    rewrite length_app. simpl. lia. }
  pose proof (parse_loop_spec src rest ls (S (length src)) (length first + length CRLF)%nat
    {| first_line_end := length first; head_end := 0; content_length := NoLength;
       host_value := None; cookie_value := None; upgrade_value := None |} None
    Hfuel ltac:(simpl; lia) Hok Hd I) as Hspec.
  cbn [content_length first_line_end] in Hspec.
  destruct (framing ls NoLength) as [cl|]; [|done].
  destruct Hspec as (h & Hh & H1 & H2 & H3 & H4). exists h. split_and!; try done.
  rewrite H2, !length_app. simpl. lia.
Qed.

(** On any well-formed head, whatever follows it in the buffer, the
    parser stops exactly at the end of the head, takes the body framing from
    the last content-length or chunked transfer-encoding line, finds the last
    Host value, and refuses the head exactly when a framing line is
    unreadable.  The byte behind a header's colon is never looked at. *)
Theorem parse_head first ls rest :
  one_line first -> verify_http11_first_line first = Ok tt -> Forall line_ok ls ->
  match framing ls NoLength with
  | Some cl => exists h,
      parse (head first ls ++ rest) = Ok (Some h) /\ first_line_end h = length first /\
      head_end h = length (head first ls) /\ content_length h = cl /\
      host_ok (head first ls ++ rest) h (last_host ls None)
  | None => parse (head first ls ++ rest) = Ok None
  end.
Proof. apply parse_head_spec. Qed.

Definition start_state (first : bytes) : Http1Headers :=
  {| first_line_end := length first; head_end := 0; content_length := NoLength;
     host_value := None; cookie_value := None; upgrade_value := None |}.

(** Past a good first line the parser is its loop. *)
Lemma parse_first_line first more :
  one_line first -> verify_http11_first_line first = Ok tt ->
  parse (first ++ CRLF ++ more) =
    parse_loop (S (length (first ++ CRLF ++ more))) (first ++ CRLF ++ more)
      (length first + length CRLF) (start_state first) /\
  drop (length first + length CRLF) (first ++ CRLF ++ more) = more.
Proof.
  intros Hcr Hv. unfold parse. rewrite (find_crlf _ 0 first more) by done.
  cbn [plus]. rewrite slice_to_ok by (rewrite length_app; lia). cbn [mbind outcome_bind].
  rewrite take_app_length, Hv. split; [done|].
  by rewrite <-drop_drop, drop_app_length, drop_app_length.
Qed.

Lemma content_length_name :
  bs "Content-Length:" = bs "Content-Length" ++ [COLON] /\
  COLON ∉ bs "Content-Length" /\ Byte.x0d ∉ bs "Content-Length".
Proof.
  split; [vm_compute; reflexivity|].
  split; apply not_in_dec; vm_compute; reflexivity.
Qed.

Lemma content_length_no_space first d ds n rest :
  one_line first -> verify_http11_first_line first = Ok tt ->
  d <> Byte.x0d -> Byte.x0d ∉ ds -> Utf8.valid ds = true ->
  Str.parse_uint (2 ^ 64 - 1) (Str.trim ds) = Some n ->
  exists h,
    parse (first ++ CRLF ++ bs "Content-Length:" ++ d :: ds ++ CRLF ++ CRLF ++ rest) = Ok (Some h) /\
    content_length h = Known n.
Proof.
  intros Hcr Hv Hd Hds Hu Hn. destruct content_length_name as (Hb & Hc1 & Hc2).
  destruct (parse_first_line first (bs "Content-Length:" ++ d :: ds ++ CRLF ++ CRLF ++ rest) Hcr Hv)
    as [-> Hdrop].
  set (src := first ++ _) in *. set (l := mk_line (bs "Content-Length") d ds).
  assert (length first + 2 + 2 <= length src)%nat as Hlen
    by (unfold src; rewrite !length_app; simpl; rewrite !length_app; simpl; lia).
  pose proof (parse_loop_spec src rest [l] (S (length src)) (length first + length CRLF)%nat
    (start_state first) None) as Hspec.
  assert (framing [l] NoLength = Some (Known n)) as Hfr.
  { unfold framing, line_framing, l. change (value (mk_line (bs "Content-Length") d ds)) with ds.
    change (name (mk_line (bs "Content-Length") d ds)) with (bs "Content-Length").
    change (Str.eq_ignore_ascii_case (bs "Content-Length") CONTENT_LEN_HEADER) with true.
    unfold Utf8.from_utf8. rewrite Hu. cbn [mbind option_bind]. by rewrite Hn. }
  cbn [content_length start_state] in Hspec. rewrite Hfr in Hspec.
  destruct Hspec as (h & Hh & _ & _ & Hcl & _); [simpl; lia|simpl; lia| | |exact I|].
  - apply Forall_singleton. by apply plain_line_ok.
  - rewrite Hdrop. cbn [map concat]. unfold line_wire, line_bytes, l. cbn [name after mk_line].
    by rewrite Hb, app_nil_r, <-!app_assoc.
  - by exists h.
Qed.

Lemma content_length_empty first rest :
  one_line first -> verify_http11_first_line first = Ok tt ->
  parse (first ++ CRLF ++ bs "Content-Length:" ++ CRLF ++ CRLF ++ rest) = Panic.
Proof.
  intros Hcr Hv. destruct content_length_name as (Hb & Hc1 & Hc2).
  destruct (parse_first_line first (bs "Content-Length:" ++ CRLF ++ CRLF ++ rest) Hcr Hv) as [-> Hdr].
  set (src := first ++ _) in *. set (p := (length first + length CRLF)%nat) in *.
  assert (p <= length src)%nat as Hp by (unfold p, src; rewrite !length_app; simpl; lia).
  assert (drop p src = bs "Content-Length" ++ COLON :: CRLF ++ CRLF ++ rest) as Hdr'
    by (rewrite Hdr, Hb; by rewrite <-app_assoc).
  cbn [parse_loop]. rewrite (find_crlf src p (bs "Content-Length" ++ [COLON]) (CRLF ++ rest));
    [|by rewrite Hdr', <-!app_assoc|apply no_cr_one_line; rewrite elem_of_app, list_elem_of_singleton; naive_solver].
  rewrite decide_False by (rewrite length_app; simpl; lia).
  unfold HttpHeader_new. rewrite (find_colon src p (bs "Content-Length") (CRLF ++ CRLF ++ rest)) by done.
  cbn [mbind option_bind]. unfold on_header.
  rewrite !(header_name_at src p (bs "Content-Length") (CRLF ++ CRLF ++ rest)) by done.
  cbn [mbind outcome_bind].
  change (Str.eq_ignore_ascii_case (bs "Content-Length") HOST_HEADER) with false. cbn iota.
  cbn [mbind outcome_bind].
  change (Str.eq_ignore_ascii_case (bs "Content-Length") COOKIE_HEADER) with false. cbn iota.
  cbn [mbind outcome_bind].
  change (Str.eq_ignore_ascii_case (bs "Content-Length") CONTENT_LEN_HEADER) with true. cbn iota.
  unfold get_usize_value, get_value_as_str. cbn [header_separator_index header_end hdr_payload].
  unfold slice. rewrite length_app. cbn [length].
  case_decide as Hle; [destruct Hle; lia|done].
Qed.

(** A content-length written without a space behind its colon is
    misread, its first digit being taken for the separator (so the body is
    cut short while the line is forwarded unchanged), and an empty one makes
    the parser panic. *)
Theorem content_length_without_space first d ds n rest :
  one_line first -> verify_http11_first_line first = Ok tt ->
  d <> Byte.x0d -> Byte.x0d ∉ ds -> Utf8.valid ds = true ->
  Str.parse_uint (2 ^ 64 - 1) (Str.trim ds) = Some n ->
  (exists h,
    parse (first ++ CRLF ++ bs "Content-Length:" ++ d :: ds ++ CRLF ++ CRLF ++ rest) = Ok (Some h) /\
    content_length h = Known n) /\
  parse (first ++ CRLF ++ bs "Content-Length:" ++ CRLF ++ CRLF ++ rest) = Panic.
Proof.
  intros. split; [by apply (content_length_no_space first d ds)|by apply content_length_empty].
Qed.

(** *** What the parser accepts *)

(** A line of an accepted head, with or without a colon. *)
Definition raw_ok (l : bytes) : Prop :=
  one_line l /\ l <> [] /\ forall n a, l = n ++ COLON :: a -> COLON ∉ n -> says_length n = true -> a <> [].

Definition raw_wire (raws : list bytes) : bytes := concat (map (fun l => l ++ CRLF) raws).

Lemma raw_wire_app a b : raw_wire (a ++ b) = raw_wire a ++ raw_wire b.
Proof. unfold raw_wire. by rewrite map_app, concat_app. Qed.

Lemma raw_wire_lines ls : raw_wire (map line_bytes ls) = concat (map line_wire ls).
Proof. unfold raw_wire. by rewrite map_map. Qed.

Lemma on_header_first_line hd st st' : on_header hd st = Ok (Some st') -> first_line_end st' = first_line_end st.
Proof.
  unfold on_header.
  destruct (is_my_header_name hd HOST_HEADER) as [[]| |]; cbn; [by intros [= <-]| |done|done].
  destruct (is_my_header_name hd COOKIE_HEADER) as [[]| |]; cbn; [by intros [= <-]| |done|done].
  destruct (is_my_header_name hd CONTENT_LEN_HEADER) as [[]| |]; cbn; [| |done|done].
  { destruct (get_usize_value hd) as [[n|]| |]; cbn; [by intros [= <-]|done..]. }
  destruct (is_my_header_name hd TRANSFER_ENCODING_HEADER) as [[]| |]; cbn; [| |done|done].
  { destruct (get_value_as_str hd) as [[v|]| |]; cbn; [|done..]. by case_match; intros [= <-]. }
  destruct (is_my_header_name hd UPGRADE_HEADER) as [[]| |]; cbn; [by intros [= <-]..|done|done].
Qed.

Lemma parse_loop_raws src : forall fuel pos st h,
  parse_loop fuel src pos st = Ok (Some h) -> (pos <= length src)%nat ->
  exists raws rest, drop pos src = raw_wire raws ++ CRLF ++ rest /\ Forall raw_ok raws /\
    head_end h = (pos + length (raw_wire raws) + 2)%nat /\ first_line_end h = first_line_end st.
Proof.
  induction fuel as [|fuel IH]; intros pos st h Hp Hpos; [done|]. cbn [parse_loop] in Hp.
  destruct (find_sequence_pos src CRLF pos) as [e|] eqn:Hf; [|done].
  destruct (found_crlf _ _ _ Hf) as (l & more & Hd & -> & Hl). case_decide as He.
  { assert (l = []) as -> by (destruct l; [done|cbn in He; lia]). injection Hp as <-. exists [], more. cbn.
    split_and!; [done|constructor|lia|done]. }
  destruct (HttpHeader_new src pos (pos + length l)) as [hd|] eqn:Hhd; [|done].
  destruct (on_header hd st) as [[st'|]| |] eqn:Hon; [|done..]. cbn [mbind outcome_bind] in Hp.
  assert (drop (pos + length l + length CRLF) src = more) as Hd'
    by (by rewrite <-!drop_drop, Hd, drop_app_length, drop_app_length).
  assert (pos + length l + length CRLF <= length src)%nat as Hpos'.
  { apply (f_equal length) in Hd. rewrite length_drop, !length_app in Hd. lia. }
  destruct (IH _ _ _ Hp Hpos') as (raws & rest & Hm & Hok & Hend & Hfirst). rewrite Hd' in Hm.
  exists (l :: raws), rest. unfold raw_wire in *. cbn [map concat]. split_and!.
  - rewrite Hd, Hm. by rewrite <-!app_assoc.
  - constructor; [|done]. split; [done|]. split; [intros ->; cbn in He; lia|].
    intros n a -> Hn Hs Ha. unfold HttpHeader_new in Hhd.
    rewrite (find_colon src pos n (a ++ CRLF ++ more)) in Hhd by (done || by rewrite Hd, <-app_assoc).
    cbn [mbind option_bind] in Hhd. injection Hhd as <-.
    pose proof (on_header_panics src pos {| name := n; after := a |} (CRLF ++ more) Hpos Hd st Hs Ha) as Hx.
    unfold hdr, line_bytes in Hx. cbn [name after] in Hx. by rewrite Hon in Hx.
  - rewrite Hend, !length_app. cbn [length CRLF]. lia.
  - by rewrite Hfirst, (on_header_first_line _ _ _ Hon).
Qed.

(** A block of lines either is one of header lines, or has a first line without
    a colon. *)
Lemma raws_lines raws :
  Forall raw_ok raws ->
  (exists ls, raws = map line_bytes ls /\ Forall line_ok ls) \/
  (exists ls raw more, raws = map line_bytes ls ++ raw :: more /\ Forall line_ok ls /\ raw_ok raw /\ COLON ∉ raw).
Proof.
  induction 1 as [|l raws Hl _ IH]; [left; by exists []|].
  destruct (decide (COLON ∈ l)) as [Hc|Hc]; [|right; by exists [], l, raws].
  apply list_elem_of_split_l in Hc as (n & a & -> & Hn).
  assert (line_ok {| name := n; after := a |}) as Hok.
  { destruct Hl as (Ho & _ & Hs). split_and!; [done|done|]. by apply (Hs n a). }
  destruct IH as [(ls & -> & Hls)|(ls & raw & more & -> & Hls & Hraw)]; [left|right].
  - exists ({| name := n; after := a |} :: ls). split; [done|by constructor].
  - exists ({| name := n; after := a |} :: ls), raw, more. split; [done|]. split; [by constructor|done].
Qed.

(** Every accepted head is a good first line and header lines up to an empty
    line, except that lines without a colon are let through. *)
Lemma parse_accepts src h :
  parse src = Ok (Some h) ->
  exists first, one_line first /\ verify_http11_first_line first = Ok tt /\ first_line_end h = length first /\
    ((exists ls rest, src = head first ls ++ rest /\ Forall line_ok ls) \/
     (exists ls raw more, src = first ++ CRLF ++ concat (map line_wire ls) ++ raw ++ CRLF ++ more /\
        Forall line_ok ls /\ raw_ok raw /\ COLON ∉ raw)).
Proof.
  unfold parse. destruct (find_sequence_pos src CRLF 0) as [e|] eqn:Hf; [|done].
  destruct (found_crlf _ _ _ Hf) as (first & more & Hd & -> & Hfirst). rewrite drop_0 in Hd. subst src.
  cbn [plus]. rewrite slice_to_ok by (rewrite length_app; lia). cbn [mbind outcome_bind]. rewrite take_app_length.
  destruct (verify_http11_first_line first) as [[]| |] eqn:Hv; [|done..]. intros Hp.
  apply parse_loop_raws in Hp as (raws & rest & Hm & Hok & _ & Hend); [|rewrite !length_app; lia].
  rewrite <-drop_drop, drop_app_length, drop_app_length in Hm. subst more.
  exists first. split_and!; [done|done|done|].
  destruct (raws_lines _ Hok) as [(ls & -> & Hls)|(ls & raw & more & -> & Hls & Hraw & Hc)]; [left|right].
  - exists ls, rest. split; [|done]. unfold head. by rewrite raw_wire_lines, <-!app_assoc.
  - exists ls, raw, (raw_wire more ++ CRLF ++ rest). split; [|done].
    rewrite raw_wire_app, raw_wire_lines. unfold raw_wire at 1. cbn [map concat]. fold (raw_wire more).
    by rewrite <-!app_assoc.
Qed.

(** *** Round trip of the proxy's own responses *)

Lemma push_header_wire nm v payload :
  push_header nm v payload = payload ++ line_wire (mk_line nm SPACE v).
Proof.
  unfold push_header, push_cl_cr, line_wire, line_bytes. cbn [name after mk_line].
  assert (bs ": " = [COLON; SPACE]) as -> by (vm_compute; reflexivity). by rewrite <-!app_assoc.
Qed.

(** The response the builder writes for a status line, header lines and a
    body. *)
Definition build_response (status_line : bytes) (hs : list (bytes * bytes)) (body : bytes) : bytes :=
  build_with_body body (fold_left (fun p '(n, v) => push_header n v p) hs (push_cl_cr status_line)).

Definition line_of (nv : bytes * bytes) : Line := mk_line (fst nv) SPACE (snd nv).

Lemma build_response_head status_line hs body :
  build_response status_line hs body =
  head status_line (map line_of hs ++
    [line_of (bs "content-length", Str.uint_to_string (Z.of_nat (length body)))]) ++ body.
Proof.
  assert (forall p, fold_left (fun p '(n, v) => push_header n v p) hs p
          = p ++ concat (map line_wire (map line_of hs))) as Hfold.
  { induction hs as [|[n v] hs IH]; intros p; cbn [fold_left map concat]; [by rewrite app_nil_r|].
    rewrite IH, push_header_wire. by rewrite <-app_assoc. }
  unfold build_response, build_with_body, push_content_length. rewrite push_header_wire, Hfold.
  unfold push_cl_cr, head. rewrite map_app, concat_app. cbn [map concat].
  rewrite app_nil_r. unfold line_of at 2. cbn [fst snd]. by rewrite <-!app_assoc.
Qed.

Lemma digits_graphic l :
  Forall (fun b => Str.is_digit b = true) l -> Forall (fun b => Str.is_graphic b = true) l.
Proof. intros D. by eapply Forall_impl; [exact D|exact Str.digit_graphic]. Qed.

Lemma framing_app ls l cl :
  framing (ls ++ [l]) cl = (cl' ← framing ls cl; line_framing l cl').
Proof.
  revert cl. induction ls as [|x ls IH]; intros cl; cbn [framing app].
  - cbn. by destruct (line_framing l cl).
  - destruct (line_framing x cl); cbn; [apply IH|done].
Qed.

Lemma own_line_ok n : line_ok (line_of (bs "content-length", Str.uint_to_string n)).
Proof.
  assert (Byte.x0d ∉ Str.uint_to_string n) as Hv.
  { intros Hin.
    assert (Forall (fun b => Str.is_digit b = true) (Str.uint_to_string n)) as Hd
      by (apply to_dec_digits; constructor).
    rewrite Forall_forall in Hd. by specialize (Hd _ Hin). }
  apply plain_line_ok; try done; apply not_in_dec; vm_compute; reflexivity.
Qed.

Lemma own_content_length_framing n cl :
  0 <= n < 2 ^ 64 ->
  line_framing (line_of (bs "content-length", Str.uint_to_string n)) cl = Some (Known n).
Proof.
  intros Hn. unfold line_framing. change (value (line_of ?x)) with (snd x). change (name (line_of ?x)) with (fst x). cbn [fst snd].
  change (Str.eq_ignore_ascii_case (bs "content-length") CONTENT_LEN_HEADER) with true.
  assert (Forall (fun b => Str.is_digit b = true) (Str.uint_to_string n)) as Hd
    by (apply to_dec_digits; constructor).
  unfold Utf8.from_utf8, Utf8.valid. rewrite Str.graphic_chars by (by apply digits_graphic). cbn [mbind option_bind].
  rewrite Str.trim_graphic, parse_uint_to_string by (by apply digits_graphic || lia). done.
Qed.

(** The proxy's own responses are self-delimiting: parsed back by the
    same rules a client uses, the head ends exactly where the body starts
    and announces exactly its length, whatever headers were added. *)
Theorem response_roundtrip status_line hs body :
  one_line status_line -> verify_http11_first_line status_line = Ok tt ->
  Forall line_ok (map line_of hs) -> is_Some (framing (map line_of hs) NoLength) ->
  Z.of_nat (length body) < 2 ^ 64 ->
  exists h, parse (build_response status_line hs body) = Ok (Some h) /\
            content_length h = Known (Z.of_nat (length body)) /\
            drop (head_end h) (build_response status_line hs body) = body.
Proof.
  intros Hcr Hv Hls [cl Hfr] Hb. rewrite build_response_head.
  set (ls := map line_of hs ++ _).
  assert (Forall line_ok ls) as Hok.
  { unfold ls. apply Forall_app_2; [done|]. apply Forall_singleton. apply own_line_ok. }
  assert (framing ls NoLength = Some (Known (Z.of_nat (length body)))) as Hf.
  { unfold ls. rewrite framing_app, Hfr. cbn [mbind option_bind].
    apply own_content_length_framing. lia. }
  pose proof (parse_head_spec status_line ls body Hcr Hv Hok) as Hp. rewrite Hf in Hp.
  destruct Hp as (h & Hh & _ & He & Hc & _). exists h. split_and!; [done|done|].
  rewrite He. apply drop_app_length.
Qed.

End ParserProofs.

(** *** Witnesses *)

#[local] Existing Instance reference_slice_ext.

Program Definition reference_h1_libs : H1Libs :=
  {| eq_case_insensitive := Str.eq_ignore_ascii_case; canonical_reason := fun _ => None |}.
Next Obligation. done. Qed.

#[local] Existing Instance reference_h1_libs.

Definition sample_first : bytes := bs "POST /api HTTP/1.1".
Definition sample_lines : list Line :=
  [mk_line (bs "Host") SPACE (bs "example.com"); mk_line (bs "content-LENGTH") SPACE (bs " 512 ")].

Lemma sample_lines_ok : Forall line_ok sample_lines.
Proof.
  apply Forall_cons; split; [|apply Forall_singleton]; apply plain_line_ok;
    try (apply not_in_dec; vm_compute; reflexivity); discriminate.
Qed.

Lemma parse_head_witness :
  exists h, parse (head sample_first sample_lines ++ bs "GET") = Ok (Some h) /\
            content_length h = Known 512.
Proof.
  assert (one_line sample_first) as Hcr by (apply no_cr_one_line, not_in_dec; vm_compute; reflexivity).
  assert (verify_http11_first_line sample_first = Ok tt) as Hv by (vm_compute; reflexivity).
  pose proof (parse_head sample_first sample_lines (bs "GET") Hcr Hv sample_lines_ok) as Hp.
  assert (framing sample_lines NoLength = Some (Known 512)) as Hf by (vm_compute; reflexivity).
  rewrite Hf in Hp. destruct Hp as (h & H1 & _ & _ & H2 & _). exists h. split; assumption.
Defined.

Lemma content_length_without_space_witness :
  exists h,
    parse (sample_first ++ CRLF ++ bs "Content-Length:" ++ Byte.x31 :: bs "5" ++ CRLF ++ CRLF ++ [])
      = Ok (Some h) /\ content_length h = Known 5.
Proof.
  assert (one_line sample_first) as Hcr by (apply no_cr_one_line, not_in_dec; vm_compute; reflexivity).
  assert (Byte.x0d ∉ bs "5") as Hds by (apply not_in_dec; vm_compute; reflexivity).
  destruct (content_length_without_space sample_first Byte.x31 (bs "5") 5 []) as [Hx _];
    [exact Hcr|vm_compute; reflexivity|discriminate|exact Hds|vm_compute; reflexivity
    |vm_compute; reflexivity|].
  exact Hx.
Defined.

Lemma response_roundtrip_witness :
  exists h, parse (build_response (bs "HTTP/1.1 200 OK") [(bs "content-type", bs "text/html")] (bs "hello"))
              = Ok (Some h) /\ content_length h = Known 5.
Proof.
  destruct (response_roundtrip (bs "HTTP/1.1 200 OK") [(bs "content-type", bs "text/html")] (bs "hello"))
    as (h & H1 & H2 & _).
  - apply no_cr_one_line, not_in_dec. vm_compute. reflexivity.
  - vm_compute. reflexivity.
  - apply Forall_singleton, plain_line_ok; try (apply not_in_dec; vm_compute; reflexivity); discriminate.
  - vm_compute. eexists. reflexivity.
  - vm_compute. reflexivity.
  - exists h. split; assumption.
Defined.

End H1.
