(* ===== verification/H1Rewrite.v ===== *)
(** * Rewriting of heads: [h1_proxy_server/h1_read_part.rs],
      [h1_proxy_server/http_headers_reader.rs], [scripts/populate_value.rs],
      [configurations/modify_headers_config.rs]

    Between the client and the upstream every head is copied line by line
    into the builder: configured headers are removed and added, the client's
    address and country are recorded, and the rest is forwarded as it is.
    The body that follows is relayed by the framing the parser found in the
    head as it came in. *)

From Stdlib Require Import ZArith Lia Strings.Byte.
From stdpp Require Import base tactics list gmap strings.
From S2P Require Import Prelude RustStd LoopBuffer H1Headers.

Local Open Scope Z_scope.

(** The placeholder iterator of the [rust_common] library, the environment,
    and the generated country tables. *)
Inductive ContentToken := Text (t : bytes) | Placeholder (p : bytes).

Class RewriteLibs := {
  placeholders : bytes -> list ContentToken;
  env_var : bytes -> option bytes;
  lookup_country : bytes -> option bytes
}.

Module Rewrite.
Import H1.

(** ** [ModifyHeadersConfig] *)

Record ModifyHeadersConfig := {
  remove : gset bytes;
  add_headers : gmap bytes bytes
}.

Definition config_default : ModifyHeadersConfig := {| remove := ∅; add_headers := ∅ |}.

Record ModifyHttpHeadersSettings := {
  add_request : option (list (bytes * bytes));
  add_response : option (list (bytes * bytes));
  remove_request : option (list bytes);
  remove_response : option (list bytes)
}.

Definition insert_all (c : ModifyHeadersConfig) (rs : option (list bytes))
    (adds : option (list (bytes * bytes))) : ModifyHeadersConfig :=
  {| remove := fold_left (fun s r => {[r]} ∪ s) (default [] rs) (remove c);
     add_headers := fold_left (fun m a => <[fst a := snd a]> m) (default [] adds) (add_headers c) |}.

(** [populate_request] takes what it inserts out of the settings. *)
Definition populate_request (c : ModifyHeadersConfig) (s : ModifyHttpHeadersSettings) :
    ModifyHeadersConfig * ModifyHttpHeadersSettings :=
  (insert_all c (remove_request s) (add_request s),
   {| add_request := None; add_response := add_response s; remove_request := None;
      remove_response := remove_response s |}).

Definition populate_response (c : ModifyHeadersConfig) (s : ModifyHttpHeadersSettings) :
    ModifyHeadersConfig * ModifyHttpHeadersSettings :=
  (insert_all c (remove_response s) (add_response s),
   {| add_request := add_request s; add_response := None; remove_request := remove_request s;
      remove_response := None |}).

Record HttpEndpointModifyHeadersSettings := {
  global_modify_headers_settings : option ModifyHttpHeadersSettings;
  endpoint_modify_headers_settings : option ModifyHttpHeadersSettings
}.

Definition populate_opt
    (f : ModifyHeadersConfig -> ModifyHttpHeadersSettings -> ModifyHeadersConfig * ModifyHttpHeadersSettings)
    (c : ModifyHeadersConfig) (s : option ModifyHttpHeadersSettings) :
    ModifyHeadersConfig * option ModifyHttpHeadersSettings :=
  match s with Some s => let (c, s) := f c s in (c, Some s) | None => (c, None) end.

Definition new_config
    (f : ModifyHeadersConfig -> ModifyHttpHeadersSettings -> ModifyHeadersConfig * ModifyHttpHeadersSettings)
    (src : HttpEndpointModifyHeadersSettings) : ModifyHeadersConfig * HttpEndpointModifyHeadersSettings :=
  let (c, g) := populate_opt f config_default (global_modify_headers_settings src) in
  let (c, e) := populate_opt f c (endpoint_modify_headers_settings src) in
  (c, {| global_modify_headers_settings := g; endpoint_modify_headers_settings := e |}).

Definition new_request := new_config populate_request.
Definition new_response := new_config populate_response.

Definition add_to_remove (header : bytes) (c : ModifyHeadersConfig) : ModifyHeadersConfig :=
  {| remove := {[header]} ∪ remove c; add_headers := add_headers c |}.

Definition has_to_be_removed (c : ModifyHeadersConfig) (header : bytes) : bool :=
  existsb (fun r => Str.eq_ignore_ascii_case r header) (elements (remove c)) ||
  existsb (fun a => Str.eq_ignore_ascii_case (fst a) header) (map_to_list (add_headers c)).

(** The parts of [HttpEndpointInfo] a head depends on, and how
    [HttpEndpointInfo::new] fills the two header configurations. *)
Record HttpEndpointInfo := {
  inject_country : bool;
  listen_is_https : bool;
  oauth : option bytes;
  modify_request_headers : ModifyHeadersConfig;
  modify_response_headers : ModifyHeadersConfig;
  keep_alive : bool;
  hsts : bool
}.

Definition endpoint_new (inject_country listen_is_https : bool) (oauth : option bytes)
    (keep_alive hsts : bool) (settings : HttpEndpointModifyHeadersSettings) : HttpEndpointInfo :=
  let (req, settings) := new_request settings in
  let req := match oauth with Some _ => add_to_remove (bs "authorization") req | None => req end in
  let (resp, _) := new_response settings in
  {| inject_country := inject_country; listen_is_https := listen_is_https; oauth := oauth;
     modify_request_headers := req; modify_response_headers := resp; keep_alive := keep_alive;
     hsts := hsts |}.

(** What [HttpConnectionInfo] says about the client: its printed address,
    [None] on a unix socket, and the scheme of the listener. *)
Record HttpConnectionInfo := { connection_ip : option bytes; endpoint_is_https : bool }.

Inductive H1HeadersKind :=
  | RequestHead (info : HttpEndpointInfo)
  | ResponseHead (info : HttpEndpointInfo).

Definition modify_headers (kind : H1HeadersKind) : ModifyHeadersConfig :=
  match kind with
  | RequestHead info => modify_request_headers info
  | ResponseHead info => modify_response_headers info
  end.

(** [s.contains("${")] *)
Fixpoint has_placeholder (s : bytes) : bool :=
  match s with
  | [] => false
  | _ :: s' => Str.starts_with (bs "${") s || has_placeholder s'
  end.

Record H1Reader := { loop_buffer : LoopBuffer.t; builder : bytes }.

Section Rewrite.
Context `{SliceOfU8Ext} `{RewriteLibs}.
Context (iter_add : gmap bytes bytes -> list (bytes * bytes)).

(** [HttpHeadersReader] *)
Definition reader_path_and_query (payload : bytes) : outcome bytes bytes :=
  index_start ← unwrap (find_byte_pos payload SPACE 0);
  index_end ← unwrap (find_byte_pos payload SPACE (index_start + 1));
  slice payload (index_start + 1) index_end.

Definition reader_host (h : Http1Headers) (payload : bytes) : outcome bytes (option bytes) :=
  match host_value h with
  | None => Ok None
  | Some p => Some <$> slice payload (start p) (pos_end p)
  end.

(** [populate_value] *)
Definition placeholder_value (h : Http1Headers) (payload : bytes) (conn : HttpConnectionInfo)
    (identity : option bytes) (p : bytes) : outcome bytes bytes :=
  if decide (p = bs "ENDPOINT_IP") then Ok (default [] (connection_ip conn))
  else if decide (p = bs "CLIENT_CERT_CN") then Ok (default [] identity)
  else if decide (p = bs "PATH_AND_QUERY") then reader_path_and_query payload
  else if decide (p = bs "HOST_PORT") then host ← reader_host h payload; Ok (default [] host)
  else if decide (p = bs "ENDPOINT_SCHEMA") then
    Ok (if endpoint_is_https conn then bs "https" else bs "http")
  else Ok (default [] (env_var p)).

Fixpoint populate_tokens (h : Http1Headers) (payload : bytes) (conn : HttpConnectionInfo)
    (identity : option bytes) (tokens : list ContentToken) (result : bytes) : outcome bytes bytes :=
  match tokens with
  | [] => Ok result
  | Text t :: tokens => populate_tokens h payload conn identity tokens (result ++ t)
  | Placeholder p :: tokens =>
      v ← placeholder_value h payload conn identity p;
      populate_tokens h payload conn identity tokens (result ++ v)
  end.

Definition populate_value (h : Http1Headers) (payload : bytes) (conn : HttpConnectionInfo)
    (identity : option bytes) (value : bytes) : outcome bytes bytes :=
  if negb (has_placeholder value) then Ok value
  else populate_tokens h payload conn identity (placeholders value) [].

(** One header line of the loop of [compile_headers]. *)
Definition rewrite_header (mh : ModifyHeadersConfig) (client_ip : option bytes)
    (inject_country_enabled dynamic : bool) (header_name header : bytes) (colon : nat)
    (out : bytes) (xff_written : bool) : outcome bytes (bytes * bool) :=
  let skip_for_dynamic_proxy :=
    dynamic && (Str.eq_ignore_ascii_case header_name (bs "host")
                || Str.eq_ignore_ascii_case header_name (bs "proxy-to")) in
  if negb skip_for_dynamic_proxy && negb (has_to_be_removed mh header_name) then
    if Str.eq_ignore_ascii_case header_name (bs "x-forwarded-for") then
      match client_ip with
      | Some ip =>
          value_bytes ← slice_from header (colon + 1);
          let value_str := Str.trim (default [] (Utf8.from_utf8 value_bytes)) in
          Ok (push_header (bs "X-Forwarded-For") (value_str ++ bs "," ++ ip) out, true)
      | None => Ok (out ++ header ++ CRLF, true)
      end
    else if inject_country_enabled && Str.eq_ignore_ascii_case header_name (bs "cf-ipcountry") then
      Ok (out, xff_written)
    else Ok (out ++ header ++ CRLF, xff_written)
  else Ok (out, xff_written).

(** The loop; every round moves past a line end, so the buffer length is
    enough fuel. *)
Fixpoint rewrite_loop (fuel : nat) (mh : ModifyHeadersConfig) (client_ip : option bytes)
    (inject_country_enabled dynamic : bool) (data : bytes) (pos : nat) (out : bytes)
    (xff_written : bool) : outcome bytes (bytes * bool) :=
  match fuel with
  | O => Panic
  | S fuel =>
      next_pos ← unwrap (find_sequence_pos data CRLF pos);
      if decide (next_pos = pos) then Ok (out, xff_written)
      else
        header ← slice data pos next_pos;
        match find_byte_pos header COLON 0 with
        | None => Err (bs "Header does not have end `:` symbol")
        | Some header_name_end_pos =>
            header_name ← slice_to header header_name_end_pos;
            '(out, xff_written) ← rewrite_header mh client_ip inject_country_enabled dynamic
                                    header_name header header_name_end_pos out xff_written;
            rewrite_loop fuel mh client_ip inject_country_enabled dynamic data
              (next_pos + length CRLF) out xff_written
        end
  end.

(** The configured headers. *)
Fixpoint push_added (h : Http1Headers) (payload : bytes) (conn : HttpConnectionInfo)
    (identity : option bytes) (adds : list (bytes * bytes)) (out : bytes) : outcome bytes bytes :=
  match adds with
  | [] => Ok out
  | (n, template) :: adds =>
      if decide (template = []) then push_added h payload conn identity adds out
      else
        v ← populate_value h payload conn identity template;
        push_added h payload conn identity adds (if decide (v = []) then out else push_header n v out)
  end.

Definition push_country (inject_country_enabled : bool) (ip : option bytes) (out : bytes) :
    outcome bytes bytes :=
  if inject_country_enabled then
    match ip ≫= lookup_country with
    | Some code =>
        code_str ← unwrap (Utf8.from_utf8 code); Ok (push_header (bs "CF-IPCountry") code_str out)
    | None => Ok out
    end
  else Ok out.

Definition push_response_only (kind : H1HeadersKind) (out : bytes) : bytes :=
  match kind with
  | ResponseHead info =>
      let out := if negb (keep_alive info) then push_header (bs "Connection") (bs "close") out else out in
      if hsts info && listen_is_https info then
        push_header (bs "Strict-Transport-Security") (bs "max-age=31536000; includeSubDomains; preload") out
      else out
  | RequestHead _ => out
  end.

Definition is_web_socket_upgrade (h : Http1Headers) (data : bytes) : outcome bytes bool :=
  match upgrade_value h with
  | None => Ok false
  | Some p =>
      upgrade ← slice data (start p) (pos_end p); compare_case_insensitive upgrade (bs "websocket")
  end.

(** [compile_headers].  When it fails the buffer is as it was; the builder
    is scratch space, cleared at the start of every call. *)
Definition compile_headers (h : Http1Headers) (kind : H1HeadersKind) (conn : HttpConnectionInfo)
    (identity mcp_path dynamic_proxy_host_override : option bytes) (r : H1Reader) :
    outcome bytes (H1Reader * bool) :=
  let mh := modify_headers kind in
  let dynamic := match dynamic_proxy_host_override with Some _ => true | None => false end in
  data ← LoopBuffer.get_data (loop_buffer r);
  out ← match mcp_path with
        | Some mcp_path => push_cl_cr <$> first_line_with_other_path h data mcp_path
        | None => slice_to data (first_line_end h + length CRLF)
        end;
  let client_ip := match kind with RequestHead _ => connection_ip conn | ResponseHead _ => None end in
  let inject := match kind with RequestHead e => inject_country e | ResponseHead _ => false end in
  '(out, xff_written) ← rewrite_loop (S (length data)) mh client_ip inject dynamic data
                          (first_line_end h + length CRLF) out false;
  let out :=
    match client_ip with
    | Some ip => if xff_written : bool then out else push_header (bs "X-Forwarded-For") ip out
    | None => out
    end in
  out ← push_country inject (connection_ip conn) out;
  let out :=
    match dynamic_proxy_host_override with
    | Some host_override => push_header (bs "Host") host_override out
    | None => out
    end in
  out ← push_added h data conn identity (iter_add (add_headers mh)) out;
  let out := push_cl_cr (push_response_only kind out) in
  web_socket_upgrade ← is_web_socket_upgrade h data;
  Ok ({| loop_buffer := LoopBuffer.commit_read (head_end h) (loop_buffer r); builder := out |},
      web_socket_upgrade).

End Rewrite.

(** ** The rewritten head as a list of lines *)

(** A header the proxy writes itself. *)
Definition own_line (n v : bytes) : Line := mk_line n SPACE v.

Definition wire (ls : list Line) : bytes := concat (map line_wire ls).

Lemma push_header_line n v out : push_header n v out = out ++ wire [own_line n v].
Proof.
  unfold push_header, push_cl_cr, wire, line_wire, line_bytes, own_line. simpl. rewrite app_nil_r.
  change (bs ": ") with [COLON; SPACE]. by rewrite <-!app_assoc.
Qed.

Lemma wire_app a b : wire (a ++ b) = wire a ++ wire b.
Proof. unfold wire. by rewrite map_app, concat_app. Qed.

Lemma wire_cons l ls : wire (l :: ls) = line_wire l ++ wire ls.
Proof. done. Qed.

Section Lines.
Context (mh : ModifyHeadersConfig) (client_ip : option bytes) (inject dynamic : bool).

(** Whether a line is taken out before it is looked at. *)
Definition dropped (n : bytes) : bool :=
  dynamic && (Str.eq_ignore_ascii_case n (bs "host") || Str.eq_ignore_ascii_case n (bs "proxy-to"))
  || has_to_be_removed mh n.

Definition is_xff (n : bytes) : bool := Str.eq_ignore_ascii_case n (bs "x-forwarded-for").

(** What becomes of one line of the incoming head. *)
Definition keep_line (l : Line) : list Line :=
  if dropped (name l) then []
  else if is_xff (name l) then
    match client_ip with
    | Some ip =>
        [own_line (bs "X-Forwarded-For")
           (Str.trim (default [] (Utf8.from_utf8 (after l))) ++ bs "," ++ ip)]
    | None => [l]
    end
  else if inject && Str.eq_ignore_ascii_case (name l) (bs "cf-ipcountry") then []
  else [l].

Definition writes_xff (l : Line) : bool := negb (dropped (name l)) && is_xff (name l).

Lemma rewrite_header_spec l out xff :
  rewrite_header mh client_ip inject dynamic (name l) (line_bytes l) (length (name l)) out xff =
  Ok (out ++ wire (keep_line l), xff || writes_xff l).
Proof.
  unfold rewrite_header, keep_line, writes_xff, dropped, is_xff.
  rewrite <-negb_orb. destruct (_ || has_to_be_removed mh (name l)); cbn [negb andb];
    [by rewrite app_nil_r, orb_false_r|].
  destruct (Str.eq_ignore_ascii_case (name l) (bs "x-forwarded-for")); cbn [andb].
  - destruct client_ip as [ip|]; [|by rewrite orb_true_r; unfold wire, line_wire; simpl; rewrite app_nil_r].
    rewrite slice_from_ok by (unfold line_bytes; rewrite length_app; simpl; lia).
    cbn [mbind outcome_bind]. rewrite push_header_line, orb_true_r.
    unfold line_bytes at 1. rewrite <-drop_drop, drop_app_length. done.
  - rewrite orb_false_r. destruct (inject && _); [by rewrite app_nil_r|].
    unfold wire, line_wire. simpl. by rewrite app_nil_r.
Qed.

End Lines.

Section Loop.
Context `{SliceOfU8Ext} `{RewriteLibs}.

Section Loop_steps.
Context (mh : ModifyHeadersConfig) (ip : option bytes) (inject dynamic : bool) (data : bytes).

Let kept (ls : list Line) : bytes := wire (mjoin (keep_line mh ip inject dynamic <$> ls)).

(** The rounds over a block of header lines, whatever follows it. *)
Lemma rewrite_loop_lines tail ls : forall fuel pos out xff,
  Forall line_ok ls -> (pos <= length data)%nat -> drop pos data = wire ls ++ tail ->
  rewrite_loop (length ls + fuel) mh ip inject dynamic data pos out xff =
  rewrite_loop fuel mh ip inject dynamic data (pos + length (wire ls)) (out ++ kept ls)
    (xff || existsb (writes_xff mh dynamic) ls).
Proof.
  unfold kept. induction ls as [|l ls IH]; intros fuel pos out xff Hok Hp Hd.
  - cbn. by rewrite Nat.add_0_r, app_nil_r, orb_false_r.
  - apply Forall_cons in Hok as [Hl Hls]. rewrite wire_cons in Hd. unfold line_wire in Hd.
    rewrite <-!app_assoc in Hd. cbn [length plus rewrite_loop].
    rewrite (find_crlf data pos (line_bytes l) (wire ls ++ tail) Hd (proj1 (proj2 Hl))).
    cbn [unwrap mbind outcome_bind].
    rewrite decide_False by (unfold line_bytes; rewrite length_app; simpl; lia).
    pose proof (slice_at (E:=bytes) data [] (line_bytes l) (CRLF ++ wire ls ++ tail) pos Hd Hp) as Hs.
    simpl in Hs. rewrite Nat.add_0_r in Hs. rewrite Hs. cbn [mbind outcome_bind].
    rewrite (find_colon (line_bytes l) 0 (name l) (after l)) by (done || apply Hl).
    cbn [plus]. rewrite slice_to_ok by (unfold line_bytes; rewrite length_app; lia).
    cbn [mbind outcome_bind].
    replace (take (length (name l)) (line_bytes l)) with (name l) by (unfold line_bytes; by rewrite take_app_length).
    rewrite rewrite_header_spec. cbn [mbind outcome_bind].
    rewrite IH; [|done| |].
    + rewrite wire_cons. unfold line_wire at 1. rewrite !length_app, !Nat.add_assoc.
      cbn [fmap list_fmap mjoin list_join existsb]. by rewrite wire_app, <-app_assoc, orb_assoc.
    + apply (f_equal length) in Hd. rewrite length_drop, !length_app in Hd. simpl in *. lia.
    + by rewrite <-!drop_drop, Hd, drop_app_length, drop_app_length.
Qed.

Lemma after_block ls tail pos : drop pos data = wire ls ++ tail -> drop (pos + length (wire ls)) data = tail.
Proof. intros Hd. by rewrite <-drop_drop, Hd, drop_app_length. Qed.

Lemma block_fits ls tail pos :
  (pos <= length data)%nat -> drop pos data = wire ls ++ tail -> (pos + length (wire ls) <= length data)%nat.
Proof. intros Hp Hd. apply (f_equal length) in Hd. rewrite length_drop, length_app in Hd. lia. Qed.

Lemma rewrite_loop_spec rest ls fuel pos out xff :
  Forall line_ok ls -> (length ls < fuel)%nat -> (pos <= length data)%nat ->
  drop pos data = wire ls ++ CRLF ++ rest ->
  rewrite_loop fuel mh ip inject dynamic data pos out xff =
  Ok (out ++ kept ls, xff || existsb (writes_xff mh dynamic) ls).
Proof.
  intros Hok Hf Hp Hd. replace fuel with (length ls + S (fuel - length ls - 1))%nat by lia.
  rewrite (rewrite_loop_lines (CRLF ++ rest)) by done. cbn [rewrite_loop].
  rewrite (find_crlf data _ [] rest) by (by apply after_block || by intros i).
  cbn [unwrap mbind outcome_bind length]. by rewrite Nat.add_0_r, decide_True by done.
Qed.

(** A line without a colon ends the loop with an error. *)
Lemma rewrite_loop_refuses raw more ls fuel pos out xff :
  Forall line_ok ls -> raw_ok raw -> COLON ∉ raw -> (length ls < fuel)%nat -> (pos <= length data)%nat ->
  drop pos data = wire ls ++ raw ++ CRLF ++ more ->
  rewrite_loop fuel mh ip inject dynamic data pos out xff = Err (bs "Header does not have end `:` symbol").
Proof.
  intros Hok (Ho & Hne & _) Hc Hf Hp Hd. replace fuel with (length ls + S (fuel - length ls - 1))%nat by lia.
  rewrite (rewrite_loop_lines (raw ++ CRLF ++ more)) by done. cbn [rewrite_loop].
  pose proof (after_block _ _ _ Hd) as Hd'. pose proof (block_fits _ _ _ Hp Hd) as Hp'.
  set (pos' := (pos + length (wire ls))%nat) in *.
  rewrite (find_crlf data pos' raw more Hd' Ho). cbn [unwrap mbind outcome_bind].
  rewrite decide_False by (destruct raw; [done|cbn; lia]).
  pose proof (slice_at (E:=bytes) data [] raw (CRLF ++ more) pos' Hd' Hp') as Hs.
  simpl in Hs. rewrite Nat.add_0_r in Hs. rewrite Hs. cbn [mbind outcome_bind].
  pose proof (find_byte_pos_spec raw COLON 0) as Hfb. destruct (find_byte_pos raw COLON 0) as [q|]; [|done].
  destruct Hfb as (_ & Hq & _). exfalso. apply Hc. by eapply list_elem_of_lookup_2.
Qed.

End Loop_steps.

(** The lines that follow the copied ones. *)
Fixpoint added_lines (h : Http1Headers) (payload : bytes) (conn : HttpConnectionInfo)
    (identity : option bytes) (adds : list (bytes * bytes)) : outcome bytes (list Line) :=
  match adds with
  | [] => Ok []
  | (n, template) :: adds =>
      if decide (template = []) then added_lines h payload conn identity adds
      else
        v ← populate_value h payload conn identity template;
        ls ← added_lines h payload conn identity adds;
        Ok (if decide (v = []) then ls else own_line n v :: ls)
  end.

Lemma push_added_spec h payload conn identity adds out :
  push_added h payload conn identity adds out =
  (fun ls => out ++ wire ls) <$> added_lines h payload conn identity adds.
Proof.
  revert out. induction adds as [|[n t] adds IH]; intros out; simpl; [by rewrite app_nil_r|].
  case_decide; [done|]. destruct (populate_value h payload conn identity t) as [v| |]; simpl; [|done|done].
  rewrite IH. destruct (added_lines h payload conn identity adds) as [ls| |]; simpl; [|done|done].
  case_decide; [done|]. f_equal. rewrite push_header_line, <-app_assoc. f_equal. by rewrite <-wire_app.
Qed.

Definition country_lines (inject : bool) (ip : option bytes) : outcome bytes (list Line) :=
  if inject then
    match ip ≫= lookup_country with
    | Some code => v ← unwrap (Utf8.from_utf8 code); Ok [own_line (bs "CF-IPCountry") v]
    | None => Ok []
    end
  else Ok [].

Lemma push_country_spec inject ip out :
  push_country inject ip out = (fun ls => out ++ wire ls) <$> country_lines inject ip.
Proof.
  unfold push_country, country_lines. destruct inject; simpl; [|by rewrite app_nil_r].
  destruct (ip ≫= lookup_country) as [code|]; simpl; [|by rewrite app_nil_r].
  destruct (Utf8.from_utf8 code); simpl; [by rewrite push_header_line|done].
Qed.

Definition response_lines (kind : H1HeadersKind) : list Line :=
  match kind with
  | ResponseHead info =>
      (if keep_alive info then [] else [own_line (bs "Connection") (bs "close")]) ++
      (if hsts info && listen_is_https info
       then [own_line (bs "Strict-Transport-Security") (bs "max-age=31536000; includeSubDomains; preload")]
       else [])
  | RequestHead _ => []
  end.

Lemma push_response_only_spec kind out : push_response_only kind out = out ++ wire (response_lines kind).
Proof.
  destruct kind as [info|info]; simpl; [by rewrite app_nil_r|].
  rewrite wire_app. destruct (keep_alive info), (hsts info && listen_is_https info); simpl;
    rewrite ?push_header_line, ?app_nil_r, <-?app_assoc; done.
Qed.

(** The first line that is forwarded. *)
Definition forwarded_first (mcp_path : option bytes) (first : bytes) : bytes :=
  match mcp_path with
  | Some path =>
      concat (imap (fun no itm =>
        (if decide (0 < no)%nat then [SPACE] else []) ++ (if decide (no = 1%nat) then path else itm))
        (Str.split SPACE first))
  | None => first
  end.

Definition client_ip_of (kind : H1HeadersKind) (conn : HttpConnectionInfo) : option bytes :=
  match kind with RequestHead _ => connection_ip conn | ResponseHead _ => None end.

Definition inject_of (kind : H1HeadersKind) : bool :=
  match kind with RequestHead e => inject_country e | ResponseHead _ => false end.

Definition is_dynamic (host_override : option bytes) : bool :=
  match host_override with Some _ => true | None => false end.

Definition kept_lines (kind : H1HeadersKind) (conn : HttpConnectionInfo) (dyn : option bytes)
    (ls : list Line) : list Line :=
  mjoin (keep_line (modify_headers kind) (client_ip_of kind conn) (inject_of kind) (is_dynamic dyn) <$> ls).

Definition xff_lines (kind : H1HeadersKind) (conn : HttpConnectionInfo) (dyn : option bytes)
    (ls : list Line) : list Line :=
  match client_ip_of kind conn with
  | Some ip =>
      if existsb (writes_xff (modify_headers kind) (is_dynamic dyn)) ls then []
      else [own_line (bs "X-Forwarded-For") ip]
  | None => []
  end.

Definition host_lines (dyn : option bytes) : list Line :=
  match dyn with Some h => [own_line (bs "Host") h] | None => [] end.

Lemma wire_length ls : (length ls <= length (wire ls))%nat.
Proof.
  induction ls as [|l ls IH]; [done|]. rewrite wire_cons, length_app. unfold line_wire, line_bytes.
  rewrite !length_app. simpl. lia.
Qed.

Lemma xff_step kind conn dyn ls out :
  match client_ip_of kind conn with
  | Some ip =>
      if existsb (writes_xff (modify_headers kind) (is_dynamic dyn)) ls then out
      else push_header (bs "X-Forwarded-For") ip out
  | None => out
  end = out ++ wire (xff_lines kind conn dyn ls).
Proof.
  unfold xff_lines. destruct (client_ip_of kind conn); [|by rewrite app_nil_r].
  destruct (existsb _ _); [by rewrite app_nil_r|]. apply push_header_line.
Qed.

Lemma host_step dyn out :
  match dyn with Some h => push_header (bs "Host") h out | None => out end = out ++ wire (host_lines dyn).
Proof. destruct dyn; [apply push_header_line|by rewrite app_nil_r]. Qed.

Section Compile.
Context (iter_add : gmap bytes bytes -> list (bytes * bytes)).

(** The lines of the head that is sent on. *)
Definition out_lines (h : Http1Headers) (data : bytes) (kind : H1HeadersKind) (conn : HttpConnectionInfo)
    (identity dyn : option bytes) (ls : list Line) : outcome bytes (list Line) :=
  country ← country_lines (inject_of kind) (connection_ip conn);
  added ← added_lines h data conn identity (iter_add (add_headers (modify_headers kind)));
  Ok (kept_lines kind conn dyn ls ++ xff_lines kind conn dyn ls ++ country ++ host_lines dyn ++
      added ++ response_lines kind).

(** The first line that goes into the builder. *)
Lemma first_line_out h data mcp first tail :
  data = first ++ CRLF ++ tail -> first_line_end h = length first ->
  match mcp with
  | Some mcp_path => push_cl_cr <$> first_line_with_other_path h data mcp_path
  | None => slice_to (E:=bytes) data (first_line_end h + length CRLF)
  end = Ok (forwarded_first mcp first ++ CRLF).
Proof.
  intros -> Hfirst. destruct mcp as [p|]; unfold first_line_with_other_path;
    rewrite Hfirst, slice_to_ok by (rewrite !length_app; simpl; lia).
  - by rewrite take_app_length.
  - by rewrite take_app_add, take_app_length.
Qed.

Lemma compile_headers_spec h kind conn identity mcp dyn r first ls rest :
  LoopBuffer.inv (loop_buffer r) -> LoopBuffer.queue (loop_buffer r) = head first ls ++ rest ->
  Forall line_ok ls -> first_line_end h = length first -> head_end h = length (head first ls) ->
  compile_headers iter_add h kind conn identity mcp dyn r =
  (out ← out_lines h (head first ls ++ rest) kind conn identity dyn ls;
   ws ← is_web_socket_upgrade h (head first ls ++ rest);
   Ok ({| loop_buffer := LoopBuffer.commit_read (length (head first ls)) (loop_buffer r);
          builder := head (forwarded_first mcp first) out |}, ws)).
Proof.
  intros Hi Hq Hls Hfirst Hend. unfold compile_headers.
  rewrite LoopBuffer.get_data_queue, Hq by done. cbn [mbind outcome_bind].
  set (data := head first ls ++ rest).
  assert (data = first ++ CRLF ++ wire ls ++ CRLF ++ rest) as Hdata
    by (unfold data, head; by rewrite <-!app_assoc).
  rewrite (first_line_out h data mcp first _ Hdata Hfirst). cbn [mbind outcome_bind]. rewrite Hfirst.
  rewrite (rewrite_loop_spec _ _ _ _ data rest ls);
    [|done|rewrite Hdata, !length_app; pose proof (wire_length ls); lia
     |rewrite Hdata, !length_app; simpl; lia
     |rewrite Hdata, <-drop_drop, drop_app_length; by rewrite drop_app_length].
  cbn [mbind outcome_bind orb].
  fold (client_ip_of kind conn) (inject_of kind) (is_dynamic dyn) (kept_lines kind conn dyn ls).
  rewrite xff_step, push_country_spec. unfold out_lines.
  destruct (country_lines _ _) as [country| |]; [|done|done]. cbn [fmap outcome_fmap mbind outcome_bind].
  rewrite host_step, push_added_spec. destruct (added_lines _ _ _ _ _) as [added| |]; [|done|done].
  cbn [fmap outcome_fmap mbind outcome_bind]. destruct (is_web_socket_upgrade _ _) as [ws| |]; [|done|done].
  cbn [mbind outcome_bind]. rewrite Hend, push_response_only_spec. unfold push_cl_cr, head. do 3 f_equal.
  fold (wire ls). change (concat (map line_wire ?l)) with (wire l).
  rewrite !wire_app, <-!app_assoc. done.
Qed.

(** A head with a line that has no colon is refused. *)
Lemma compile_headers_refuses h kind conn identity mcp dyn r first ls raw more :
  LoopBuffer.inv (loop_buffer r) ->
  LoopBuffer.queue (loop_buffer r) = first ++ CRLF ++ wire ls ++ raw ++ CRLF ++ more ->
  Forall line_ok ls -> raw_ok raw -> COLON ∉ raw -> first_line_end h = length first ->
  compile_headers iter_add h kind conn identity mcp dyn r = Err (bs "Header does not have end `:` symbol").
Proof.
  intros Hi Hq Hls Hraw Hc Hfirst. unfold compile_headers.
  rewrite LoopBuffer.get_data_queue, Hq by done. cbn [mbind outcome_bind].
  set (data := first ++ _). rewrite (first_line_out h data mcp first _ eq_refl Hfirst).
  cbn [mbind outcome_bind]. rewrite Hfirst.
  rewrite (rewrite_loop_refuses _ _ _ _ data raw more ls); [done|done|done|done| | |].
  - unfold data. rewrite !length_app. pose proof (wire_length ls). lia.
  - unfold data. rewrite !length_app. simpl. lia.
  - unfold data. by rewrite <-drop_drop, drop_app_length, drop_app_length.
Qed.

(** *** Names in the forwarded head *)

Context (iter_add_perm : forall m, iter_add m ≡ₚ map_to_list m).

Lemma added_lines_names h payload conn identity adds ls :
  added_lines h payload conn identity adds = Ok ls ->
  Forall (fun l => exists v, (name l, v) ∈ adds) ls.
Proof.
  revert ls. induction adds as [|[n t] adds IH]; intros ls; simpl; [intros [= <-]; constructor|].
  assert (forall ls', Forall (fun l => exists v, (name l, v) ∈ adds) ls' ->
    Forall (fun l => exists v, (name l, v) ∈ (n, t) :: adds) ls') as Hmono.
  { intros ls' Hf. eapply Forall_impl; [exact Hf|]. intros l [v Hv]. exists v. by right. }
  case_decide; [intros Hl; by apply Hmono, IH|].
  destruct (populate_value h payload conn identity t) as [v| |]; [|done|done].
  destruct (added_lines h payload conn identity adds) as [ls'| |]; [|done|done].
  cbn [mbind outcome_bind]. intros [= <-]. case_decide; [by apply Hmono, IH|].
  constructor; [exists t; by left|by apply Hmono, IH].
Qed.

Lemma country_lines_names inject ip ls :
  country_lines inject ip = Ok ls -> Forall (fun l => inject = true /\ name l = bs "CF-IPCountry") ls.
Proof.
  unfold country_lines. destruct inject; [|intros [= <-]; constructor].
  destruct (ip ≫= lookup_country) as [code|]; [|intros [= <-]; constructor].
  destruct (Utf8.from_utf8 code); [|done]. intros [= <-]. by repeat constructor.
Qed.

(** The names the proxy writes on its own account. *)
Definition own_names : list bytes :=
  [bs "X-Forwarded-For"; bs "CF-IPCountry"; bs "Host"; bs "Connection"; bs "Strict-Transport-Security"].

(** Where a forwarded line comes from. *)
Definition origin (kind : H1HeadersKind) (ls : list Line) (l : Line) : Prop :=
  name l ∈ own_names \/
  (exists v, add_headers (modify_headers kind) !! name l = Some v) \/
  (l ∈ ls /\ has_to_be_removed (modify_headers kind) (name l) = false).

Lemma kept_origin kind conn dyn ls l : l ∈ kept_lines kind conn dyn ls -> origin kind ls l.
Proof.
  unfold kept_lines, origin. intros (k & Hk & Hin)%list_elem_of_join.
  apply list_elem_of_fmap in Hin as (l0 & -> & Hl0). unfold keep_line, dropped in Hk.
  destruct (_ || has_to_be_removed (modify_headers kind) (name l0)) eqn:Hd; [by apply elem_of_nil in Hk|].
  apply orb_false_iff in Hd as [_ Hd].
  destruct (is_xff (name l0)); [destruct (client_ip_of kind conn)|destruct (_ && _)];
    try (by apply elem_of_nil in Hk); apply list_elem_of_singleton in Hk as ->; auto.
  left. by left.
Qed.

Lemma out_lines_origin h data kind conn identity dyn ls out :
  out_lines h data kind conn identity dyn ls = Ok out -> Forall (origin kind ls) out.
Proof.
  unfold out_lines. destruct (country_lines _ _) as [country| |] eqn:Hc; [|done|done].
  destruct (added_lines _ _ _ _ _) as [added| |] eqn:Ha; [|done|done].
  cbn [mbind outcome_bind]. intros [= <-].
  assert (forall n v, bool_decide (n ∈ own_names) = true -> Forall (origin kind ls) [own_line n v]) as Hown.
  { intros n v Hn%bool_decide_eq_true. apply Forall_singleton. by left. }
  rewrite !Forall_app. split_and!.
  - apply Forall_forall. intros l. apply kept_origin.
  - unfold xff_lines. repeat case_match; first [by apply Hown|by constructor].
  - eapply Forall_impl; [by eapply country_lines_names|]. intros l [_ Hn]. left. rewrite Hn. by right; left.
  - destruct dyn; [by apply Hown|constructor].
  - eapply Forall_impl; [by eapply added_lines_names|]. intros l [v Hv]. right. left. exists v.
    rewrite iter_add_perm in Hv. by apply elem_of_map_to_list in Hv.
  - unfold response_lines. destruct kind as [e|e]; [constructor|].
    apply Forall_app; split; case_match; first [by apply Hown|by constructor].
Qed.

(** *** Framing of the forwarded head *)

Section Framing.
Context `{H1Libs}.

(** A line that says nothing about the length of the body. *)
Definition neutral (n : bytes) : Prop :=
  Str.eq_ignore_ascii_case n CONTENT_LEN_HEADER = false /\
  Str.eq_ignore_ascii_case n TRANSFER_ENCODING_HEADER = false.

Lemma neutral_framing l cl : neutral (name l) -> line_framing l cl = Some cl.
Proof. intros [Hc Ht]. unfold line_framing. by rewrite Hc, Ht. Qed.

Lemma framing_concat ls1 ls2 cl : framing (ls1 ++ ls2) cl = framing ls1 cl ≫= framing ls2.
Proof.
  revert cl. induction ls1 as [|l ls1 IH]; intros cl; [done|]. simpl.
  destruct (line_framing l cl); simpl; [apply IH|done].
Qed.

Lemma framing_neutral ls cl : Forall (fun l => neutral (name l)) ls -> framing ls cl = Some cl.
Proof. induction 1 as [|l ls Hl _ IH]; [done|]. simpl. by rewrite neutral_framing. Qed.

Lemma has_to_be_removed_case mh a b :
  Str.eq_ignore_ascii_case a b = true -> has_to_be_removed mh a = has_to_be_removed mh b.
Proof.
  intros He. unfold has_to_be_removed.
  assert (forall c, Str.eq_ignore_ascii_case c a = Str.eq_ignore_ascii_case c b) as Hc.
  { intros c. rewrite !(Str.eq_ignore_ascii_case_sym c). by apply eq_ignore_trans. }
  f_equal; (induction (elements _) || induction (map_to_list _)); simpl; rewrite ?Hc; congruence.
Qed.

Lemma keep_framing_line kind conn dyn l :
  has_to_be_removed (modify_headers kind) CONTENT_LEN_HEADER = false ->
  has_to_be_removed (modify_headers kind) TRANSFER_ENCODING_HEADER = false ->
  let kl := keep_line (modify_headers kind) (client_ip_of kind conn) (inject_of kind) (is_dynamic dyn) l in
  kl = [l] \/ (neutral (name l) /\ Forall (fun l => neutral (name l)) kl).
Proof.
  intros Hcl Hte kl.
  assert (forall n, n = CONTENT_LEN_HEADER \/ n = TRANSFER_ENCODING_HEADER ->
    Str.eq_ignore_ascii_case (name l) n = true -> kl = [l]) as Hfr.
  { intros n Hn He. unfold kl, keep_line, dropped, is_xff.
    rewrite (has_to_be_removed_case _ _ _ He), !(eq_ignore_trans _ _ _ He).
    destruct Hn as [-> | ->]; rewrite ?Hcl, ?Hte, ?orb_false_r;
      repeat match goal with
      | |- context [Str.eq_ignore_ascii_case ?a ?b] =>
          change (Str.eq_ignore_ascii_case a b) with false
      end; by rewrite ?andb_false_r. }
  destruct (Str.eq_ignore_ascii_case (name l) CONTENT_LEN_HEADER) eqn:Hc; [left; apply (Hfr _ (or_introl eq_refl) Hc)|].
  destruct (Str.eq_ignore_ascii_case (name l) TRANSFER_ENCODING_HEADER) eqn:Ht; [left; apply (Hfr _ (or_intror eq_refl) Ht)|].
  right. split; [done|]. unfold kl, keep_line.
  repeat case_match; repeat constructor; done.
Qed.

Lemma kept_framing kind conn dyn ls cl :
  has_to_be_removed (modify_headers kind) CONTENT_LEN_HEADER = false ->
  has_to_be_removed (modify_headers kind) TRANSFER_ENCODING_HEADER = false ->
  framing (kept_lines kind conn dyn ls) cl = framing ls cl.
Proof.
  intros Hcl Hte. revert cl. unfold kept_lines.
  induction ls as [|l ls IH]; intros cl; [done|]. simpl. rewrite framing_concat.
  destruct (keep_framing_line kind conn dyn l Hcl Hte) as [-> | [Hn Hk]].
  - simpl. destruct (line_framing l cl); simpl; [apply IH|done].
  - rewrite framing_neutral, neutral_framing by done. apply IH.
Qed.

(** *** The forwarded head is well formed *)

Lemma own_line_clean n v : existsb (fun b => Byte.eqb b COLON || Byte.eqb b Byte.x0d) n = false ->
  one_line v -> line_ok (own_line n v).
Proof.
  intros Hn Hv.
  assert (forall b, b = COLON \/ b = Byte.x0d -> b ∉ n) as Hno.
  { intros b Hb Hin. apply list_elem_of_In in Hin.
    assert (existsb (fun b => Byte.eqb b COLON || Byte.eqb b Byte.x0d) n = true) as Ht; [|congruence].
    apply existsb_exists. exists b. split; [done|]. destruct Hb as [-> | ->]; done. }
  split_and!; [by apply Hno; left| |done].
  change (one_line (n ++ [COLON; SPACE] ++ v)). rewrite (assoc_L (++)). apply one_line_app; [|done].
  rewrite elem_of_app, !elem_of_cons. intros [Hx|[?|[?|?%elem_of_nil]]]; [|done..]. revert Hx. apply Hno. by right.
Qed.

Lemma own_line_text n v : existsb (fun b => Byte.eqb b COLON || Byte.eqb b Byte.x0d) n = false ->
  existsb (Byte.eqb Byte.x0d) v = false -> line_ok (own_line n v).
Proof. intros Hn Hv. apply own_line_clean; [done|]. by apply no_cr_one_line, not_in_dec. Qed.

(** What the configuration and the connection contribute to the head brings no
    line end with it, and no colon in a name. *)
Record clean (h : Http1Headers) (data : bytes) (kind : H1HeadersKind) (conn : HttpConnectionInfo)
    (identity mcp dyn : option bytes) : Prop := {
  clean_path : mcp <> None -> one_line (forwarded_first mcp (take (first_line_end h) data));
  clean_ip : forall ip, connection_ip conn = Some ip -> one_line ip;
  clean_country : forall ip c, connection_ip conn = Some ip -> lookup_country ip = Some c -> one_line c;
  clean_host : forall h, dyn = Some h -> one_line h;
  clean_added : forall added,
    added_lines h data conn identity (iter_add (add_headers (modify_headers kind))) = Ok added ->
    Forall line_ok added
}.

(** The client's address is appended to what the client's line says. *)
Lemma appended_ok l ip :
  line_ok l -> one_line ip ->
  line_ok (own_line (bs "X-Forwarded-For") (Str.trim (default [] (Utf8.from_utf8 (after l))) ++ bs "," ++ ip)).
Proof.
  intros (_ & Hl & _) Hip. apply own_line_clean; [done|]. change (bs "," ++ ip) with (Byte.x2c :: ip).
  apply one_line_seam; [|done|by apply (one_line_app [Byte.x2c]); [apply not_in_dec|]].
  destruct (Utf8.from_utf8 (after l)) as [v|] eqn:Hv; [|by intros [|]].
  apply Utf8.from_utf8_Some in Hv as [_ ->]. change (default [] (Some (after l))) with (after l).
  destruct (Str.trim_infix (after l)) as (a & b & Ht).
  apply (one_line_infix (name l ++ COLON :: a) _ b). rewrite <-app_assoc. cbn [app]. by rewrite <-Ht.
Qed.

Section Clean.
Context (h : Http1Headers) (data : bytes) (kind : H1HeadersKind) (conn : HttpConnectionInfo).
Context (identity mcp dyn : option bytes) (Hcl : clean h data kind conn identity mcp dyn).

Lemma client_ip_clean ip : client_ip_of kind conn = Some ip -> one_line ip.
Proof. intros Hip. apply (clean_ip _ _ _ _ _ _ _ Hcl). by destruct kind. Qed.

Lemma kept_ok ls : Forall line_ok ls -> Forall line_ok (kept_lines kind conn dyn ls).
Proof.
  intros Hls. apply Forall_forall. intros l (k & Hk & Hin)%list_elem_of_join.
  apply list_elem_of_fmap in Hin as (l0 & -> & Hl0). rewrite Forall_forall in Hls.
  specialize (Hls _ Hl0). unfold keep_line in Hk.
  destruct (dropped _ _ _); [by apply elem_of_nil in Hk|].
  destruct (is_xff (name l0)); [destruct (client_ip_of kind conn) as [ip|] eqn:Hip|destruct (_ && _)];
    try (by apply elem_of_nil in Hk); apply list_elem_of_singleton in Hk as ->; try done.
  apply appended_ok; [done|]. by apply client_ip_clean.
Qed.

Lemma out_lines_ok ls out :
  Forall line_ok ls -> out_lines h data kind conn identity dyn ls = Ok out -> Forall line_ok out.
Proof.
  intros Hls. unfold out_lines.
  destruct (country_lines _ _) as [country| |] eqn:Hc; [|done|done].
  destruct (added_lines _ _ _ _ _) as [added| |] eqn:Ha; [|done|done].
  cbn [mbind outcome_bind]. intros [= <-]. rewrite !Forall_app. split_and!.
  - by apply kept_ok.
  - unfold xff_lines. destruct (client_ip_of kind conn) as [ip|] eqn:Hip; [|constructor].
    destruct (existsb _ _); [constructor|]. apply Forall_singleton, own_line_clean; [done|].
    by apply client_ip_clean.
  - unfold country_lines in Hc. destruct (inject_of kind); [|injection Hc as <-; constructor].
    destruct (connection_ip conn) as [ip|] eqn:Hip; simpl in Hc; [|injection Hc as <-; constructor].
    destruct (lookup_country ip) as [c|] eqn:Hco; [|injection Hc as <-; constructor].
    destruct (Utf8.from_utf8 c) as [c'|] eqn:Hu; [|done]. injection Hc as <-.
    apply Utf8.from_utf8_Some in Hu as [_ ->]. apply Forall_singleton, own_line_clean; [done|].
    by eapply (clean_country _ _ _ _ _ _ _ Hcl).
  - unfold host_lines. destruct dyn as [hd|]; [|constructor]. apply Forall_singleton, own_line_clean; [done|].
    by apply (clean_host _ _ _ _ _ _ _ Hcl).
  - by apply (clean_added _ _ _ _ _ _ _ Hcl).
  - unfold response_lines. destruct kind as [e|e]; [constructor|].
    apply Forall_app; split; case_match; first [by constructor|apply Forall_singleton, own_line_text];
      by vm_compute.
Qed.

End Clean.

Lemma out_lines_framing h data kind conn identity dyn ls out cl :
  has_to_be_removed (modify_headers kind) CONTENT_LEN_HEADER = false ->
  has_to_be_removed (modify_headers kind) TRANSFER_ENCODING_HEADER = false ->
  out_lines h data kind conn identity dyn ls = Ok out ->
  framing out cl = framing ls cl.
Proof.
  intros Hcl Hte Hout. pose proof Hout as Horig. unfold out_lines in Hout.
  destruct (country_lines _ _) as [country| |] eqn:Hc; [|done|done].
  destruct (added_lines _ _ _ _ _) as [added| |] eqn:Ha; [|done|done].
  cbn [mbind outcome_bind] in Hout. injection Hout as <-.
  rewrite framing_concat, kept_framing by done.
  destruct (framing ls cl) as [cl'|]; [|done]. simpl. apply framing_neutral.
  rewrite !Forall_app. split_and!.
  - unfold xff_lines. repeat case_match; repeat constructor.
  - eapply Forall_impl; [by eapply country_lines_names|]. intros l [_ ->]. done.
  - destruct dyn; repeat constructor.
  - eapply Forall_impl; [by eapply added_lines_names|]. intros l [v Hv].
    rewrite iter_add_perm in Hv.
    assert (forall n, has_to_be_removed (modify_headers kind) n = false ->
      Str.eq_ignore_ascii_case (name l) n = false) as Hn; [|by split; apply Hn].
    intros n Hr. unfold has_to_be_removed in Hr. apply orb_false_iff in Hr as [_ Hr].
    destruct (Str.eq_ignore_ascii_case (name l) n) eqn:He; [|done].
    assert (existsb (fun a => Str.eq_ignore_ascii_case a.1 n) (map_to_list (add_headers (modify_headers kind))) = true);
      [|congruence].
    apply existsb_exists. exists (name l, v). split; [by apply list_elem_of_In|done].
  - unfold response_lines. destruct kind as [e|e]; [constructor|].
    apply Forall_app; split; case_match; repeat constructor.
Qed.

(** A parsed head, at the positions the rewriting uses. *)
Lemma parsed_positions first ls rest h :
  one_line first -> verify_http11_first_line first = Ok tt -> Forall line_ok ls ->
  parse (head first ls ++ rest) = Ok (Some h) ->
  first_line_end h = length first /\ head_end h = length (head first ls) /\
  framing ls NoLength = Some (content_length h).
Proof.
  intros Hcr Hv Hls Hp. pose proof (parse_head_spec first ls rest Hcr Hv Hls) as Hs.
  destruct (framing ls NoLength) as [cl|]; [|congruence].
  destruct Hs as (h' & Hp' & Hf & He & Hc & _). rewrite Hp in Hp'. injection Hp' as ->. by subst cl.
Qed.

(** What the copying of an accepted head can come to. *)
Definition rewritten (h : Http1Headers) (kind : H1HeadersKind) (conn : HttpConnectionInfo)
    (identity mcp dyn : option bytes) (r : H1Reader) (first : bytes) (ls : list Line) (rest : bytes) : Prop :=
  let data := LoopBuffer.queue (loop_buffer r) in
  let lb := LoopBuffer.commit_read (length (head first ls)) (loop_buffer r) in
  data = head first ls ++ rest /\
  compile_headers iter_add h kind conn identity mcp dyn r =
    (country ← country_lines (inject_of kind) (connection_ip conn);
     added ← added_lines h data conn identity (iter_add (add_headers (modify_headers kind)));
     ws ← is_web_socket_upgrade h data;
     Ok ({| loop_buffer := lb;
            builder := head (forwarded_first mcp first)
              (kept_lines kind conn dyn ls ++ xff_lines kind conn dyn ls ++ country ++
               host_lines dyn ++ added ++ response_lines kind) |}, ws)) /\
  LoopBuffer.inv lb /\ LoopBuffer.queue lb = rest.

Definition refused (h : Http1Headers) (kind : H1HeadersKind) (conn : HttpConnectionInfo)
    (identity mcp dyn : option bytes) (r : H1Reader) (first : bytes) (ls : list Line) : Prop :=
  exists raw more,
    LoopBuffer.queue (loop_buffer r) = first ++ CRLF ++ wire ls ++ raw ++ CRLF ++ more /\
    raw_ok raw /\ COLON ∉ raw /\
    compile_headers iter_add h kind conn identity mcp dyn r = Err (bs "Header does not have end `:` symbol").

(** C30: for every head the parser accepts there are just two outcomes.  If
    one of its lines has no colon (the parser lets such a line through when a
    colon follows anywhere in the buffer), the exchange ends with the parse
    error and nothing is consumed.  Otherwise the head is a first line and
    header lines up to the empty line, and what is sent on is exactly this:
    the first line (with the configured path, for an MCP location), the lines
    in their order without the removed ones, a client address appended to
    every X-Forwarded-For or put in one of its own, the country, the host
    override, the configured lines, and for responses the connection and HSTS
    lines; the head is consumed from the buffer and nothing behind it.  Three
    things can still stop the task there, each by a panic: a country code that
    is not UTF-8, filling in a configured value, and reading the Upgrade
    value. *)
Theorem head_rewritten h kind conn identity mcp dyn r :
  LoopBuffer.inv (loop_buffer r) -> parse (LoopBuffer.queue (loop_buffer r)) = Ok (Some h) ->
  exists first ls, one_line first /\ verify_http11_first_line first = Ok tt /\ Forall line_ok ls /\
    ((exists rest, rewritten h kind conn identity mcp dyn r first ls rest) \/
     refused h kind conn identity mcp dyn r first ls).
Proof.
  intros Hi Hp. destruct (parse_accepts _ _ Hp) as (first & Hcr & Hv & Hfe & [Hgood|Hbad]).
  - destruct Hgood as (ls & rest & Hq & Hls). rewrite Hq in Hp.
    destruct (parsed_positions first ls rest h Hcr Hv Hls Hp) as (Hf & He & _).
    exists first, ls. split_and!; [done..|]. left. exists rest. unfold rewritten. split; [done|].
    rewrite (compile_headers_spec h kind conn identity mcp dyn r first ls rest) by done. split.
    + unfold out_lines. rewrite Hq. destruct (country_lines _ _) as [c| |]; [|done|done].
      cbn [mbind outcome_bind]. by destruct (added_lines _ _ _ _ _).
    + destruct (LoopBuffer.commit_queue (length (head first ls)) (loop_buffer r) Hi) as (Hi' & Hq' & _).
      { rewrite Hq, length_app. lia. }
      split; [done|]. by rewrite Hq', Hq, drop_app_length.
  - destruct Hbad as (ls & raw & more & Hq & Hls & Hraw & Hc). exists first, ls. split_and!; [done..|].
    right. exists raw, more. split_and!; [done..|]. by eapply compile_headers_refuses.
Qed.

(** The head behind a successful copy. *)
Lemma sent_head h kind conn identity mcp dyn r r' ws :
  LoopBuffer.inv (loop_buffer r) -> parse (LoopBuffer.queue (loop_buffer r)) = Ok (Some h) ->
  compile_headers iter_add h kind conn identity mcp dyn r = Ok (r', ws) ->
  exists first ls out, one_line first /\ verify_http11_first_line first = Ok tt /\ Forall line_ok ls /\
    first = take (first_line_end h) (LoopBuffer.queue (loop_buffer r)) /\
    framing ls NoLength = Some (content_length h) /\
    out_lines h (LoopBuffer.queue (loop_buffer r)) kind conn identity dyn ls = Ok out /\
    builder r' = head (forwarded_first mcp first) out.
Proof.
  intros Hi Hp Hc. destruct (parse_accepts _ _ Hp) as (first & Hcr & Hv & Hfe & [Hgood|Hbad]).
  - destruct Hgood as (ls & rest & Hq & Hls). pose proof Hp as Hp'. rewrite Hq in Hp'.
    destruct (parsed_positions first ls rest h Hcr Hv Hls Hp') as (Hf & He & Hfr).
    rewrite (compile_headers_spec h kind conn identity mcp dyn r first ls rest) in Hc by done.
    destruct (out_lines _ _ _ _ _ _ _) as [out| |] eqn:Hout; [|done|done]. cbn [mbind outcome_bind] in Hc.
    destruct (is_web_socket_upgrade _ _); [|done|done]. injection Hc as <- _.
    exists first, ls, out. split_and!; try done; [|by rewrite Hq].
    rewrite Hf, Hq. unfold head. by rewrite <-app_assoc, take_app_length.
  - destruct Hbad as (ls & raw & more & Hq & Hls & Hraw & Hcol).
    erewrite compile_headers_refuses in Hc by done. done.
Qed.

(** *** Line ends of a head *)

Lemma crlf_ends_line a tl pre post :
  one_line a -> a ++ CRLF ++ tl = pre ++ CRLF ++ post ->
  (pre = a /\ tl = post) \/ exists pre', tl = pre' ++ CRLF ++ post.
Proof.
  intros Ha He.
  assert (forall i, (a ++ CRLF ++ tl) !! (length pre + i)%nat = (CRLF ++ post) !! i) as Hlk.
  { intros i. rewrite He, lookup_app_r by lia. f_equal. lia. }
  pose proof (Hlk 0%nat) as H0'. pose proof (Hlk 1%nat) as H1'.
  rewrite Nat.add_0_r in H0'. rewrite Nat.add_1_r in H1'.
  change ((CRLF ++ post) !! 0%nat) with (Some Byte.x0d) in H0'.
  change ((CRLF ++ post) !! 1%nat) with (Some Byte.x0a) in H1'.
  destruct (decide (length pre < length a + 2)%nat) as [Hlt|Hge].
  - left. rewrite (assoc_L (++)), lookup_app_l in H0' by (rewrite length_app; cbn; lia).
    destruct (decide (length pre = length a + 1)%nat) as [Hx|Hx].
    { rewrite Hx, lookup_app_r in H0' by lia. replace (length a + 1 - length a)%nat with 1%nat in H0' by lia. done. }
    rewrite (assoc_L (++)), lookup_app_l in H1' by (rewrite length_app; cbn; lia).
    pose proof (crlf_inside a (length pre) Ha H0' H1') as Hlen.
    apply app_inj_1 in He as [-> He]; [|done]. apply app_inj_1 in He as [_ He]; [done|done].
  - right. exists (drop (length a + 2) pre). apply (f_equal (drop (length a + 2))) in He.
    rewrite (assoc_L (++)), drop_app_length' in He by (rewrite length_app; cbn; lia).
    by rewrite drop_app_le in He by lia.
Qed.

(** What stands behind a line end of a head: its last line end, or nothing, or
    one of its lines. *)
Lemma wire_crlf out pre post :
  Forall line_ok out -> wire out ++ CRLF = pre ++ CRLF ++ post ->
  post = [] \/ post = CRLF \/ exists l tl, l ∈ out /\ post = line_wire l ++ tl.
Proof.
  intros Hok. revert pre. induction Hok as [|l out (_ & Hl & _) _ IH]; intros pre He.
  - left. destruct (crlf_ends_line [] [] pre post) as [[_ <-]|(pre' & Hx)]; [by intros [|]|done|done|].
    by destruct pre'.
  - rewrite wire_cons in He. unfold line_wire in He. rewrite <-!app_assoc in He.
    destruct (crlf_ends_line _ _ _ _ Hl He) as [[_ <-]|(pre' & Hx)].
    + right. destruct out as [|l' out]; [by left|]. right. exists l', (wire out ++ CRLF).
      split; [by right; left|]. by rewrite wire_cons, <-app_assoc.
    + destruct (IH _ Hx) as [|[|(l' & tl & Hin & ->)]]; [by left|by right; left|].
      right. right. exists l', tl. split; [by right|done].
Qed.

Lemma head_line_start first out pre n more :
  one_line first -> Forall line_ok out -> head first out = pre ++ CRLF ++ n ++ COLON :: more -> COLON ∉ n ->
  exists l, l ∈ out /\ name l = n.
Proof.
  intros Hf Hok He Hn. unfold head in He. fold (wire out) in He.
  assert (forall l tl, l ∈ out -> n ++ COLON :: more = line_wire l ++ tl -> exists l, l ∈ out /\ name l = n) as Hline.
  { intros l tl Hl Hx. exists l. split; [done|]. rewrite Forall_forall in Hok. destruct (Hok l Hl) as (Hc & _).
    unfold line_wire, line_bytes in Hx. rewrite <-!app_assoc in Hx. cbn [app] in Hx.
    assert (length n = length (name l)) as Hlen.
    { pose proof (find_colon (n ++ COLON :: more) 0 n more eq_refl Hn) as H1'.
      rewrite (find_colon _ 0 (name l) (after l ++ CRLF ++ tl)) in H1' by (by rewrite Hx || done).
      cbn in H1'. by injection H1'. }
    by apply app_inj_1 in Hx as [-> _]. }
  destruct (crlf_ends_line _ _ _ _ Hf He) as [[_ Hx]|(pre' & Hx)].
  - destruct out as [|l out].
    + exfalso. cbn in Hx. destruct n as [|a [|b [|c n]]]; cbn in Hx; by simplify_eq.
    + apply (Hline l (wire out ++ CRLF)); [by left|]. by rewrite <-Hx, wire_cons, <-app_assoc.
  - destruct (wire_crlf _ _ _ Hok Hx) as [Hp|[Hp|(l & tl & Hl & Hp)]].
    + by destruct n.
    + exfalso. destruct n as [|a [|b [|c n]]]; cbn in Hp; by simplify_eq.
    + by apply (Hline l tl).
Qed.

Lemma named_no_colon n m : Str.eq_ignore_ascii_case n m = true -> COLON ∉ m -> COLON ∉ n.
Proof.
  unfold Str.eq_ignore_ascii_case. intros He%bool_decide_eq_true Hm Hin.
  assert (COLON ∈ Str.lower m) as Hl.
  { rewrite <-He. unfold Str.lower. apply list_elem_of_fmap. by exists COLON. }
  unfold Str.lower in Hl. apply list_elem_of_fmap in Hl as (b & Hb & Hbm). apply Hm.
  assert (b = COLON) as ->; [|done]. revert Hb. destruct b; vm_compute; congruence.
Qed.

(** C32: the access token stays in the proxy.  On an endpoint with an OAuth
    block, whatever head of a client the parser accepts and whatever header
    changes are configured, in the bytes that are sent upstream no line end is
    followed by Authorization, in any spelling, and a colon, unless the
    operator configured the proxy to add such a header itself.  What the
    operator and the connection contribute (the path of an MCP location, the
    printed address, the country, the host override and the configured values
    once filled in) is taken to bring no line end and no colon in a name.  A
    name with a blank before its colon is another name, and such a line is
    sent on. *)
Theorem oauth_token_not_forwarded h conn identity mcp dyn r r' ws inj https block ka hs settings :
  let endpoint := endpoint_new inj https (Some block) ka hs settings in
  LoopBuffer.inv (loop_buffer r) -> parse (LoopBuffer.queue (loop_buffer r)) = Ok (Some h) ->
  clean h (LoopBuffer.queue (loop_buffer r)) (RequestHead endpoint) conn identity mcp dyn ->
  (forall k v, add_headers (modify_request_headers endpoint) !! k = Some v ->
     Str.eq_ignore_ascii_case k (bs "authorization") = false) ->
  compile_headers iter_add h (RequestHead endpoint) conn identity mcp dyn r = Ok (r', ws) ->
  forall pre n more, builder r' = pre ++ CRLF ++ n ++ COLON :: more ->
    Str.eq_ignore_ascii_case n (bs "authorization") = false.
Proof.
  intros endpoint Hi Hp Hcl Hadd Hc pre n more Hb.
  destruct (sent_head _ _ _ _ _ _ _ _ _ Hi Hp Hc) as (first & ls & out & Hcr & _ & Hls & Hfirst & _ & Hout & Hbld).
  destruct (Str.eq_ignore_ascii_case n (bs "authorization")) eqn:Hn; [|done]. exfalso.
  assert (COLON ∉ n) as Hnc by (eapply named_no_colon; [done|by apply not_in_dec]).
  assert (one_line (forwarded_first mcp first)) as Hff.
  { destruct mcp as [p|]; [|done]. rewrite Hfirst. by apply (clean_path _ _ _ _ _ _ _ Hcl). }
  rewrite Hbld in Hb.
  destruct (head_line_start _ out pre n more Hff) as (l & Hl & <-); [by eapply out_lines_ok|done|done|].
  pose proof (out_lines_origin _ _ _ _ _ _ _ _ Hout) as Ho. rewrite Forall_forall in Ho.
  destruct (Ho l Hl) as [Hown|[[v Hv']|[_ Hr]]].
  - unfold own_names in Hown.
    repeat (apply elem_of_cons in Hown as [Hx | Hown]; [rewrite Hx in Hn; by vm_compute in Hn|]).
    by apply elem_of_nil in Hown.
  - by rewrite (Hadd _ _ Hv') in Hn.
  - rewrite (has_to_be_removed_case _ _ _ Hn) in Hr. unfold has_to_be_removed in Hr.
    apply orb_false_iff in Hr as [Hr _].
    assert (existsb (fun n => Str.eq_ignore_ascii_case n (bs "authorization"))
      (elements (remove (modify_headers (RequestHead endpoint)))) = true) as Ht; [|congruence].
    apply existsb_exists. exists (bs "authorization"). split; [|done].
    apply list_elem_of_In, elem_of_elements. unfold endpoint, endpoint_new. simpl.
    destruct (new_request settings) as [req st]. destruct (new_response st). simpl. set_solver.
Qed.

(** C31: proxy and upstream agree where the body ends.  For every head the
    parser accepts and the proxy sends on, unless the configuration touches
    Content-Length or Transfer-Encoding, the head that is sent, read by the
    same rules, ends exactly where the builder ends and announces the framing
    by which the proxy relays the body.  What the operator and the connection
    contribute (the path of an MCP location, the printed address, the country,
    the host override and the configured values once filled in) is taken to
    bring no line end and no colon in a name, and the first line with the path
    of an MCP location to be a first line still. *)
Theorem forwarded_framing_agrees h kind conn identity mcp dyn r r' ws body :
  LoopBuffer.inv (loop_buffer r) -> parse (LoopBuffer.queue (loop_buffer r)) = Ok (Some h) ->
  has_to_be_removed (modify_headers kind) (bs "content-length") = false ->
  has_to_be_removed (modify_headers kind) (bs "transfer-encoding") = false ->
  clean h (LoopBuffer.queue (loop_buffer r)) kind conn identity mcp dyn ->
  (mcp <> None -> verify_http11_first_line
     (forwarded_first mcp (take (first_line_end h) (LoopBuffer.queue (loop_buffer r)))) = Ok tt) ->
  compile_headers iter_add h kind conn identity mcp dyn r = Ok (r', ws) ->
  exists h', parse (builder r' ++ body) = Ok (Some h') /\
    head_end h' = length (builder r') /\ content_length h' = content_length h.
Proof.
  intros Hi Hp Hrl Hrt Hcl Hmcp Hc.
  destruct (sent_head _ _ _ _ _ _ _ _ _ Hi Hp Hc) as (first & ls & out & Hcr & Hv & Hls & Hfirst & Hfr & Hout & ->).
  rewrite <-Hfirst in Hmcp.
  assert (one_line (forwarded_first mcp first) /\ verify_http11_first_line (forwarded_first mcp first) = Ok tt) as [Hff Hvf].
  { destruct mcp as [p|]; [|done]. split; [|by apply Hmcp]. rewrite Hfirst. by apply (clean_path _ _ _ _ _ _ _ Hcl). }
  assert (Forall line_ok out) as Hok by (by eapply out_lines_ok).
  pose proof (parse_head_spec _ out body Hff Hvf Hok) as Hs.
  rewrite (out_lines_framing _ _ _ _ _ _ _ _ NoLength Hrl Hrt Hout), Hfr in Hs.
  destruct Hs as (h' & ? & _ & ? & ? & _). by exists h'.
Qed.

End Framing.

End Compile.

End Loop.

(** ** A concrete request *)

#[local] Existing Instance reference_slice_ext.
#[local] Existing Instance reference_h1_libs.

Definition demo_libs : RewriteLibs :=
  {| placeholders := fun v => [Text v]; env_var := fun _ => None; lookup_country := fun _ => Some (bs "DE") |}.
#[local] Existing Instance demo_libs.

Definition demo_settings : HttpEndpointModifyHeadersSettings :=
  {| global_modify_headers_settings := None;
     endpoint_modify_headers_settings :=
       Some {| add_request := Some [(bs "X-Proxy", bs "1")]; add_response := None;
               remove_request := Some [bs "cookie"]; remove_response := None |} |}.

Definition demo_endpoint : HttpEndpointInfo := endpoint_new true true (Some (bs "mcp")) true false demo_settings.

Definition demo_first : bytes := bs "POST /x HTTP/1.1".
Definition demo_lines : list Line :=
  [own_line (bs "Host") (bs "a.b"); own_line (bs "AUTHORIZATION") (bs "Bearer t");
   own_line (bs "x-forwarded-for") (bs "10.0.0.1"); own_line (bs "Content-Length") (bs "3");
   own_line (bs "Cookie") (bs "c=1")].

Definition demo_data : bytes := head demo_first demo_lines ++ bs "abc".
Definition demo_reader : H1Reader :=
  {| loop_buffer := {| LoopBuffer.data := demo_data; LoopBuffer.read_from := 0;
                       LoopBuffer.read_to := length demo_data |};
     builder := [] |}.
Definition demo_conn : HttpConnectionInfo :=
  {| connection_ip := Some (bs "192.0.2.7"); endpoint_is_https := true |}.

Definition demo_head : bytes :=
  head demo_first
    [own_line (bs "Host") (bs "a.b"); own_line (bs "X-Forwarded-For") (bs "10.0.0.1,192.0.2.7");
     own_line (bs "Content-Length") (bs "3"); own_line (bs "CF-IPCountry") (bs "DE");
     own_line (bs "X-Proxy") (bs "1")].

Lemma demo_lines_ok : Forall line_ok demo_lines.
Proof. repeat (apply Forall_cons; split; [apply own_line_text; vm_compute; reflexivity|]). constructor. Qed.

Lemma demo_first_ok : one_line demo_first /\ verify_http11_first_line demo_first = Ok tt.
Proof. split; [apply no_cr_one_line, not_in_dec; vm_compute; reflexivity|vm_compute; reflexivity]. Qed.

Lemma demo_inv : LoopBuffer.inv (loop_buffer demo_reader).
Proof. unfold LoopBuffer.inv. simpl. lia. Qed.

Lemma demo_queue : LoopBuffer.queue (loop_buffer demo_reader) = demo_data.
Proof. vm_compute. reflexivity. Qed.

Definition demo_parsed : Http1Headers :=
  match parse demo_data with Ok (Some h) => h | _ => start_state [] end.

Lemma demo_parse : parse demo_data = Ok (Some demo_parsed).
Proof. vm_compute. reflexivity. Qed.

Lemma demo_compiled :
  compile_headers map_to_list demo_parsed (RequestHead demo_endpoint) demo_conn None None None demo_reader =
  Ok ({| loop_buffer := LoopBuffer.commit_read (length (head demo_first demo_lines)) (loop_buffer demo_reader);
         builder := demo_head |}, false).
Proof. vm_compute. reflexivity. Qed.

(** A request with a line that has no colon. *)
Definition colonless_data : bytes := demo_first ++ CRLF ++ bs "Host a.b" ++ CRLF ++ CRLF ++ bs "a:b".
Definition colonless_reader : H1Reader :=
  {| loop_buffer := {| LoopBuffer.data := colonless_data; LoopBuffer.read_from := 0;
                       LoopBuffer.read_to := length colonless_data |};
     builder := [] |}.
Definition colonless_parsed : Http1Headers :=
  match parse colonless_data with Ok (Some h) => h | _ => start_state [] end.

Example colonless_refused :
  parse colonless_data = Ok (Some colonless_parsed) /\
  compile_headers map_to_list colonless_parsed (RequestHead demo_endpoint) demo_conn None None None colonless_reader =
    Err (bs "Header does not have end `:` symbol").
Proof. split; vm_compute; reflexivity. Qed.

Lemma head_rewritten_witness :
  exists first ls, one_line first /\ verify_http11_first_line first = Ok tt /\ Forall line_ok ls /\
    ((exists rest, rewritten map_to_list demo_parsed (RequestHead demo_endpoint) demo_conn None None None demo_reader
                     first ls rest) \/
     refused map_to_list demo_parsed (RequestHead demo_endpoint) demo_conn None None None demo_reader first ls).
Proof.
  apply (head_rewritten map_to_list); [exact demo_inv|]. rewrite demo_queue. exact demo_parse.
Defined.

Lemma demo_no_auth_added k v :
  add_headers (modify_request_headers demo_endpoint) !! k = Some v ->
  Str.eq_ignore_ascii_case k (bs "authorization") = false.
Proof.
  change (add_headers (modify_request_headers demo_endpoint)) with ({[bs "X-Proxy" := bs "1"]} : gmap bytes bytes).
  intros [<- _]%lookup_singleton_Some. vm_compute. reflexivity.
Qed.

Lemma demo_added_ok added :
  added_lines demo_parsed demo_data demo_conn None
    (map_to_list (add_headers (modify_headers (RequestHead demo_endpoint)))) = Ok added ->
  Forall line_ok added.
Proof.
  intros Ha. assert (added = [own_line (bs "X-Proxy") (bs "1")]) as ->.
  { assert (Ok (E:=bytes) added = Ok [own_line (bs "X-Proxy") (bs "1")]) as [=]; [|done].
    rewrite <-Ha. vm_compute. reflexivity. }
  apply Forall_singleton, own_line_text; vm_compute; reflexivity.
Qed.

Lemma demo_clean :
  clean map_to_list demo_parsed (LoopBuffer.queue (loop_buffer demo_reader)) (RequestHead demo_endpoint) demo_conn
    None None None.
Proof.
  rewrite demo_queue. split; [done|intros ip [= <-]|intros ip c _ [= <-]|done|exact demo_added_ok];
    apply no_cr_one_line, not_in_dec; vm_compute; reflexivity.
Qed.

Lemma demo_parse_queue : parse (LoopBuffer.queue (loop_buffer demo_reader)) = Ok (Some demo_parsed).
Proof. rewrite demo_queue. exact demo_parse. Qed.

(** The head behind its first line, from the name of its first header on. *)
Definition demo_more : bytes := drop (length demo_first + 2 + length (bs "Host:")) demo_head.

Lemma oauth_token_not_forwarded_witness :
  demo_head = demo_first ++ CRLF ++ bs "Host" ++ COLON :: demo_more /\
  Str.eq_ignore_ascii_case (bs "Host") (bs "authorization") = false.
Proof.
  assert (demo_head = demo_first ++ CRLF ++ bs "Host" ++ COLON :: demo_more) as Hb by (vm_compute; reflexivity).
  split; [exact Hb|].
  apply (oauth_token_not_forwarded map_to_list (fun _ => reflexivity _) demo_parsed demo_conn None None None demo_reader
    _ _ true true (bs "mcp") true false demo_settings demo_inv demo_parse_queue demo_clean demo_no_auth_added
    demo_compiled demo_first (bs "Host") demo_more Hb).
Defined.

Lemma forwarded_framing_agrees_witness :
  exists h', parse (demo_head ++ bs "abc") = Ok (Some h') /\ head_end h' = length demo_head /\
    content_length h' = Known 3.
Proof.
  destruct (forwarded_framing_agrees map_to_list (fun _ => reflexivity _) demo_parsed (RequestHead demo_endpoint)
    demo_conn None None None demo_reader _ _ (bs "abc") demo_inv demo_parse_queue
    ltac:(vm_compute; reflexivity) ltac:(vm_compute; reflexivity) demo_clean ltac:(done) demo_compiled)
    as (h' & Hp & He & Hc).
  exists h'. split; [exact Hp|]. split; [exact He|]. rewrite Hc. vm_compute. reflexivity.
Defined.

End Rewrite.
