(* ===== verification/OAuthForm.v ===== *)
(** * Form encoding, HTML escaping and secret comparison: [oauth/form.rs],
      [oauth/secrets.rs], the form fields of [oauth/consent_page.rs]

    Every parameter of the OAuth server enters through these functions and
    every value it echoes leaves through them. *)

From Stdlib Require Import ZArith Lia Strings.Byte.
From stdpp Require Import base tactics list gmap strings.
From S2P Require Import Prelude RustStd.

Local Open Scope Z_scope.

Module Form.

(** [hex_value] *)
Definition hex_value (b : byte) : option Z :=
  let v := u8 b in
  if (48 <=? v) && (v <=? 57) then Some (v - 48)
  else if (97 <=? v) && (v <=? 102) then Some (v - 97 + 10)
  else if (65 <=? v) && (v <=? 70) then Some (v - 65 + 10)
  else None.

(** The loop of [form_url_decode]; [index + 2 < len] holds when two more
    bytes follow. *)
Fixpoint decode_bytes (l : bytes) : bytes :=
  match l with
  | [] => []
  | b :: rest =>
      if decide (b = Byte.x2b) then Byte.x20 :: decode_bytes rest
      else if decide (b = Byte.x25) then
        match rest with
        | h :: (lo :: rest') =>
            match hex_value h, hex_value lo with
            | Some high, Some low => u8_of_Z (Z.lor (Z.shiftl high 4) low) :: decode_bytes rest'
            | _, _ => b :: decode_bytes rest
            end
        | _ => b :: decode_bytes rest
        end
      else b :: decode_bytes rest
  end.

(** [form_url_decode] *)
Definition form_url_decode (src : bytes) : bytes := Utf8.from_utf8_lossy (decode_bytes src).

(** [parse_form_urlencoded] *)
Definition parse_pair (result : gmap bytes bytes) (pair : bytes) : gmap bytes bytes :=
  if decide (pair = []) then result
  else
    let '(name, value) :=
      match Str.split_once Byte.x3d pair with Some nv => nv | None => (pair, []) end in
    let name := form_url_decode name in
    match result !! name with
    | Some _ => result
    | None => <[name := form_url_decode value]> result
    end.

Definition parse_form_urlencoded (src : bytes) : gmap bytes bytes :=
  fold_left parse_pair (Str.split Byte.x26 src) ∅.

(** [{:02X}] of a byte *)
Definition hex_digit (n : Z) : byte := if n <? 10 then u8_of_Z (48 + n) else u8_of_Z (55 + n).

Definition unreserved (b : byte) : bool :=
  let v := u8 b in
  ((65 <=? v) && (v <=? 90)) || ((97 <=? v) && (v <=? 122)) || ((48 <=? v) && (v <=? 57))
  || (v =? 45) || (v =? 95) || (v =? 46) || (v =? 126).

Definition encode_byte (b : byte) : bytes :=
  if unreserved b then [b] else [Byte.x25; hex_digit (u8 b / 16); hex_digit (u8 b mod 16)].

(** [percent_encode] *)
Definition percent_encode (src : bytes) : bytes := concat (map encode_byte src).

(** [html_escape]: the five characters are ASCII, so the characters that are
    not escaped are copied byte by byte. *)
Definition escape_byte (b : byte) : bytes :=
  match b with
  | Byte.x26 => bs "&amp;"
  | Byte.x3c => bs "&lt;"
  | Byte.x3e => bs "&gt;"
  | Byte.x22 => bs "&quot;"
  | Byte.x27 => bs "&#x27;"
  | other => [other]
  end.

Definition html_escape (src : bytes) : bytes := concat (map escape_byte src).

Definition quote : bytes := [Byte.x22].

(** [hidden_field] *)
Definition hidden_field (name value : bytes) : bytes :=
  bs "<input type=" ++ quote ++ bs "hidden" ++ quote ++ bs " name=" ++ quote ++ html_escape name
  ++ quote ++ bs " value=" ++ quote ++ html_escape value ++ quote ++ bs ">".

(** [constant_time_eq] *)
Definition constant_time_eq (left right : bytes) : bool :=
  if negb (length left =? length right)%nat then false
  else
    fold_left (fun difference '(l, r) => Z.lor difference (Z.lxor (u8 l) (u8 r))) (zip left right) 0
    =? 0.

(** ** Percent encoding *)

Definition encode_byte_ok (b : byte) : bool :=
  if unreserved b then negb (Byte.eqb b Byte.x2b || Byte.eqb b Byte.x25)
  else match hex_value (hex_digit (u8 b / 16)), hex_value (hex_digit (u8 b mod 16)) with
       | Some high, Some low => Byte.eqb (u8_of_Z (Z.lor (Z.shiftl high 4) low)) b
       | _, _ => false
       end.

Lemma encode_byte_checked b : encode_byte_ok b = true.
Proof. destruct b; vm_compute; reflexivity. Qed.

Lemma decode_encode_byte b rest : decode_bytes (encode_byte b ++ rest) = b :: decode_bytes rest.
Proof.
  pose proof (encode_byte_checked b) as Hok. unfold encode_byte_ok, encode_byte in *.
  destruct (unreserved b).
  - apply negb_true_iff, orb_false_iff in Hok as [H1 H2].
    simpl. rewrite !decide_False; [done| |]; intros ->; vm_compute in H1, H2; discriminate.
  - simpl. destruct (hex_value _) as [high|]; [|done]. destruct (hex_value _) as [low|]; [|done].
    apply Byte.byte_dec_bl in Hok. by rewrite Hok.
Qed.

Lemma decode_percent_encode src : decode_bytes (percent_encode src) = src.
Proof.
  unfold percent_encode. induction src as [|b src IH]; [done|].
  simpl. by rewrite decode_encode_byte, IH.
Qed.

Lemma encode_byte_safe b c : c ∈ encode_byte b -> c <> Byte.x26 /\ c <> Byte.x3d /\ c <> Byte.x3f /\ c <> Byte.x23.
Proof.
  assert (forallb (fun c => negb (existsb (Byte.eqb c) [Byte.x26; Byte.x3d; Byte.x3f; Byte.x23]))
                  (encode_byte b) = true) as Hall by (destruct b; vm_compute; reflexivity).
  intros Hc%list_elem_of_In. rewrite forallb_forall in Hall. specialize (Hall c Hc).
  split_and!; intros ->; vm_compute in Hall; discriminate.
Qed.

Lemma percent_encode_safe src c :
  c ∈ percent_encode src -> c <> Byte.x26 /\ c <> Byte.x3d /\ c <> Byte.x3f /\ c <> Byte.x23.
Proof.
  unfold percent_encode. induction src as [|b src IH]; simpl; [by intros ?%not_elem_of_nil|].
  intros [Hc|Hc]%elem_of_app; [by eapply encode_byte_safe|auto].
Qed.

(** ** Forms *)

(** The encoder a client uses: [k=v] pairs joined by [&]. *)
Definition encode_pair (kv : bytes * bytes) : bytes :=
  percent_encode (fst kv) ++ Byte.x3d :: percent_encode (snd kv).

Fixpoint join (ps : list bytes) : bytes :=
  match ps with
  | [] => []
  | [p] => p
  | p :: ps => p ++ Byte.x26 :: join ps
  end.

Definition form_encode (kvs : list (bytes * bytes)) : bytes := join (map encode_pair kvs).

Lemma encode_pair_no_amp kv : Byte.x26 ∉ encode_pair kv.
Proof.
  unfold encode_pair. intros [Hc|[Hc|Hc]%elem_of_cons]%elem_of_app; try done;
    apply percent_encode_safe in Hc; naive_solver.
Qed.

Lemma split_join kvs :
  Str.split Byte.x26 (form_encode kvs) = match kvs with [] => [[]] | _ => map encode_pair kvs end.
Proof.
  unfold form_encode. induction kvs as [|kv kvs IH]; [done|]. cbn [map].
  destruct kvs as [|kv' kvs]; [by apply Str.split_no_sep, encode_pair_no_amp|].
  change (join (encode_pair kv :: map encode_pair (kv' :: kvs)))
    with (encode_pair kv ++ Byte.x26 :: join (map encode_pair (kv' :: kvs))).
  rewrite Str.split_app_sep by apply encode_pair_no_amp. by rewrite IH.
Qed.

Definition valid_pair (kv : bytes * bytes) : Prop :=
  Utf8.valid (fst kv) = true /\ Utf8.valid (snd kv) = true.

Lemma parse_encoded_pair m k v :
  valid_pair (k, v) ->
  parse_pair m (encode_pair (k, v)) = match m !! k with Some _ => m | None => <[k := v]> m end.
Proof.
  intros [Hk Hv]. unfold parse_pair, encode_pair. simpl in *.
  rewrite decide_False by (by intros ?%(f_equal length); rewrite length_app in *; simpl in *; lia).
  rewrite Str.split_once_app by (intros Hc%percent_encode_safe; naive_solver).
  unfold form_url_decode. rewrite !decode_percent_encode. by rewrite !Utf8.lossy_valid.
Qed.

(** Folding pairs in from the left, keeping what is there, is the map whose
    leftmost binding of a key counts. *)
Lemma fold_encoded kvs : forall m,
  Forall valid_pair kvs ->
  fold_left parse_pair (map encode_pair kvs) m = m ∪ list_to_map kvs.
Proof.
  induction kvs as [|[k v] kvs IH]; intros m Hv; simpl; [by rewrite right_id_L by apply _|].
  apply Forall_cons in Hv as [Hkv Hv]. rewrite parse_encoded_pair, IH by done.
  destruct (m !! k) as [x|] eqn:Hk.
  - apply map_eq. intros i. rewrite !lookup_union.
    destruct (decide (i = k)) as [->|]; [|by rewrite lookup_insert_ne].
    rewrite Hk. by destruct (list_to_map kvs !! k), (<[k:=v]> _ !! k).
  - rewrite <-insert_union_l. by rewrite insert_union_r.
Qed.

(** A form is read back exactly: whatever parameters a client encodes
    (any UTF-8 names and values, separators and percent signs included), the
    server sees precisely them, the first of a repeated name counting. *)
Theorem form_roundtrip kvs :
  Forall valid_pair kvs -> parse_form_urlencoded (form_encode kvs) = list_to_map kvs.
Proof.
  intros Hv. unfold parse_form_urlencoded. rewrite split_join.
  destruct kvs as [|kv kvs]; [done|]. rewrite fold_encoded by done. by rewrite left_id_L by apply _.
Qed.

Lemma form_roundtrip_witness :
  parse_form_urlencoded
    (form_encode [(bs "state", bs "a&b=100%+ok"); (bs "scope", bs "mcp"); (bs "state", bs "x")]) =
  list_to_map [(bs "state", bs "a&b=100%+ok"); (bs "scope", bs "mcp"); (bs "state", bs "x")].
Proof.
  apply form_roundtrip. repeat constructor; vm_compute; reflexivity.
Defined.

(** ** HTML escaping *)

(** What a browser reads back from an attribute value. *)
Fixpoint html_unescape (l : bytes) : bytes :=
  match l with
  | Byte.x26 :: Byte.x61 :: Byte.x6d :: Byte.x70 :: Byte.x3b :: l => Byte.x26 :: html_unescape l
  | Byte.x26 :: Byte.x6c :: Byte.x74 :: Byte.x3b :: l => Byte.x3c :: html_unescape l
  | Byte.x26 :: Byte.x67 :: Byte.x74 :: Byte.x3b :: l => Byte.x3e :: html_unescape l
  | Byte.x26 :: Byte.x71 :: Byte.x75 :: Byte.x6f :: Byte.x74 :: Byte.x3b :: l => Byte.x22 :: html_unescape l
  | Byte.x26 :: Byte.x23 :: Byte.x78 :: Byte.x32 :: Byte.x37 :: Byte.x3b :: l => Byte.x27 :: html_unescape l
  | b :: l => b :: html_unescape l
  | [] => []
  end.

Definition markup (b : byte) : bool :=
  existsb (Byte.eqb b) [Byte.x3c; Byte.x3e; Byte.x22; Byte.x27].

Lemma unescape_escape_byte b l : html_unescape (escape_byte b ++ l) = b :: html_unescape l.
Proof. destruct b; reflexivity. Qed.

Lemma escape_byte_no_markup b : forallb (fun c => negb (markup c)) (escape_byte b) = true.
Proof. destruct b; vm_compute; reflexivity. Qed.

Lemma html_escape_no_markup src : Forall (fun b => markup b = false) (html_escape src).
Proof.
  unfold html_escape. induction src as [|b src IH]; [constructor|]. simpl. apply Forall_app_2; [|done].
  apply Forall_forall. intros c Hc%list_elem_of_In. apply negb_true_iff.
  pose proof (escape_byte_no_markup b) as Hall. rewrite forallb_forall in Hall. by apply Hall.
Qed.

(** A hidden field of the consent form can not be broken out of: the
    escaped value contains no angle bracket and no quote, and a browser
    reads back exactly the value that was put in, so the POST carries what
    the GET validated. *)
Theorem html_escape_safe src :
  Forall (fun b => markup b = false) (html_escape src) /\ html_unescape (html_escape src) = src.
Proof.
  split; [apply html_escape_no_markup|].
  unfold html_escape. induction src as [|b src IH]; [done|].
  simpl. by rewrite unescape_escape_byte, IH.
Qed.

(** ** Secret comparison *)

Lemma fold_lor_nonneg (ps : list (byte * byte)) : forall d,
  0 <= d -> 0 <= fold_left (fun d '(l, r) => Z.lor d (Z.lxor (u8 l) (u8 r))) ps d.
Proof.
  induction ps as [|[l r] ps IH]; intros d Hd; simpl; [done|]. apply IH.
  apply Z.lor_nonneg. split; [done|]. apply Z.lxor_nonneg.
  pose proof (u8_range l). pose proof (u8_range r). lia.
Qed.

Lemma fold_lor_zero (ps : list (byte * byte)) : forall d,
  fold_left (fun d '(l, r) => Z.lor d (Z.lxor (u8 l) (u8 r))) ps d = 0 <->
  d = 0 /\ Forall (fun '(l, r) => l = r) ps.
Proof.
  induction ps as [|[l r] ps IH]; intros d; simpl; [by split; [|intros []]|].
  rewrite IH, Forall_cons, Z.lor_eq_0_iff, Z.lxor_eq_0_iff. split.
  - intros [[-> He] Hf]. by apply u8_inj in He.
  - intros [-> [-> Hf]]. done.
Qed.

Lemma zip_eq_Forall (l r : bytes) :
  length l = length r -> Forall (fun '(a, b) => a = b) (zip l r) <-> l = r.
Proof.
  revert r. induction l as [|a l IH]; intros [|b r]; simpl; try done.
  intros [= Hl]. rewrite Forall_cons, IH by done. split; [by intros [-> ->]|by intros [= -> ->]].
Qed.

Lemma constant_time_eq_iff l r : constant_time_eq l r = true <-> l = r.
Proof.
  unfold constant_time_eq. destruct (Nat.eqb_spec (length l) (length r)) as [He|Hne]; simpl.
  - rewrite Z.eqb_eq, fold_lor_zero, zip_eq_Forall by done. naive_solver.
  - split; [done|]. by intros ->.
Qed.

(** The comparison without early exit decides equality. *)
Theorem constant_time_eq_is_equality l r : constant_time_eq l r = bool_decide (l = r).
Proof.
  destruct (constant_time_eq l r) eqn:He; symmetry.
  - by apply bool_decide_eq_true_2, constant_time_eq_iff.
  - apply bool_decide_eq_false_2. intros Hn%constant_time_eq_iff. congruence.
Qed.

End Form.
