(* ===== verification/OAuthTokens.v ===== *)
(** * Tokens and authorization codes: [oauth/hmac_sha256.rs], [oauth/pkce.rs],
      [oauth/token_signer.rs], [oauth/auth_codes.rs],
      [oauth/auth_codes_inner.rs], [oauth/oauth_context.rs]

    Tokens are stateless (claims plus an HMAC), codes are the only state.
    SHA-256, base64 and [serde_json] are libraries outside this repository
    and enter as a class with the laws the code relies on. *)

From Stdlib Require Import ZArith Lia Strings.Byte.
From stdpp Require Import base tactics list gmap strings.
From S2P Require Import Prelude RustStd OAuthForm.

Local Open Scope Z_scope.

Inductive TokenKind := Access | Refresh.

#[global] Instance TokenKind_eq_dec : EqDecision TokenKind.
Proof. solve_decision. Defined.

(** The JSON claims of a token. *)
Record TokenPayload := { k : bytes; exp : Z; sc : bytes; aud : option bytes }.

Class OAuthLibs := {
  Sha256_digest : bytes -> bytes;
  URL_SAFE_NO_PAD_encode : bytes -> bytes;
  URL_SAFE_NO_PAD_decode : bytes -> outcome bytes bytes;
  STANDARD_decode : bytes -> outcome bytes bytes;
  payload_to_vec : TokenPayload -> outcome bytes bytes;
  payload_from_slice : bytes -> outcome bytes TokenPayload;
  digest_len : forall m, length (Sha256_digest m) = 32%nat;
  url_decode_encode : forall m, URL_SAFE_NO_PAD_decode (URL_SAFE_NO_PAD_encode m) = Ok m;
  url_encode_no_dot : forall m, Byte.x2e ∉ URL_SAFE_NO_PAD_encode m;
  payload_from_to : forall p v, payload_to_vec p = Ok v -> payload_from_slice v = Ok p
}.

Module Tokens.

Definition BLOCK_SIZE : nat := 64.
Definition HMAC_SHA256_LEN : nat := 32.
Definition VERSION : bytes := bs "v1".
Definition DEFAULT_ACCESS_TOKEN_TTL_SEC : Z := 60 * 60.
Definition DEFAULT_REFRESH_TOKEN_TTL_SEC : Z := 30 * 24 * 60 * 60.

Definition kind_as_str (kd : TokenKind) : bytes :=
  match kd with Access => bs "a" | Refresh => bs "r" end.

Definition kind_parse (src : bytes) : option TokenKind :=
  if decide (src = bs "a") then Some Access
  else if decide (src = bs "r") then Some Refresh
  else None.

Record VerifiedToken := { scope : bytes; audience : option bytes }.

Definition to_option {E A} (o : outcome E A) : option A :=
  match o with Ok a => Some a | _ => None end.

Section Signer.
Context `{OAuthLibs}.

(** [base64_url_encode], [base64_url_decode], [base64_standard_decode] *)
Definition base64_url_encode (b : bytes) : bytes := URL_SAFE_NO_PAD_encode b.
Definition base64_url_decode (text : bytes) : outcome bytes bytes :=
  map_err (fun err => bs "Not a valid base64url value. Err: " ++ err) (URL_SAFE_NO_PAD_decode text).
Definition base64_standard_decode (text : bytes) : outcome bytes bytes :=
  map_err (fun err => bs "Not a valid base64 value. Err: " ++ err) (STANDARD_decode text).

Definition xor_pad (pad : Z) (block_key : bytes) : bytes :=
  map (fun b => u8_of_Z (Z.lxor pad (u8 b))) block_key.

(** [hmac_sha256] *)
Definition block_key (key : bytes) : bytes :=
  if decide (BLOCK_SIZE < length key)%nat
  then Sha256_digest key ++ replicate (BLOCK_SIZE - HMAC_SHA256_LEN) Byte.x00
  else key ++ replicate (BLOCK_SIZE - length key) Byte.x00.

Definition hmac_sha256 (key message : bytes) : bytes :=
  let inner_pad := xor_pad 54 (block_key key) in
  let outer_pad := xor_pad 92 (block_key key) in
  let inner := Sha256_digest (inner_pad ++ message) in
  Sha256_digest (outer_pad ++ inner).

(** [verify_s256] *)
Definition verify_s256 (code_verifier code_challenge : bytes) : bool :=
  if decide (code_verifier = [] \/ code_challenge = []) then false
  else Form.constant_time_eq (base64_url_encode (Sha256_digest code_verifier)) code_challenge.

(** [TokenSigner::mint]; [now] is [now_unix_seconds()], [oc] whether the
    build checks integer overflow. *)
Definition mint (oc : bool) (now : Z) (key : bytes) (kind : TokenKind) (scope : bytes)
    (audience : option bytes) (ttl_sec : Z) : outcome bytes bytes :=
  exp ← i64_op oc (now + ttl_sec);
  payload ← map_err (fun err => bs "Can not serialize the token. Err: " ++ err)
    (payload_to_vec {| k := kind_as_str kind; exp := exp; sc := scope; aud := audience |});
  let body := VERSION ++ bs "." ++ base64_url_encode payload in
  let signature := hmac_sha256 key body in
  Ok (body ++ bs "." ++ base64_url_encode signature).

(** [TokenSigner::verify] *)
Definition verify (now : Z) (key token : bytes) (expected : TokenKind) : option VerifiedToken :=
  '(body, signature) ← Str.rsplit_once Byte.x2e token;
  if negb (Str.starts_with VERSION body) then None
  else
    presented ← to_option (base64_url_decode signature);
    if negb (Form.constant_time_eq (hmac_sha256 key body) presented) then None
    else
      '(_, payload) ← Str.split_once Byte.x2e body;
      raw ← to_option (base64_url_decode payload);
      payload ← to_option (payload_from_slice raw);
      kind ← kind_parse (k payload);
      if decide (kind <> expected) then None
      else if exp payload <=? now then None
      else Some {| scope := sc payload; audience := aud payload |}.

(** *** Lemmas *)

Lemma base64_url_decode_encode m : base64_url_decode (base64_url_encode m) = Ok m.
Proof. unfold base64_url_decode, base64_url_encode. by rewrite url_decode_encode. Qed.

Lemma kind_parse_as_str kd : kind_parse (kind_as_str kd) = Some kd.
Proof. destruct kd; vm_compute; reflexivity. Qed.

Lemma dot_bs : bs "." = [Byte.x2e].
Proof. vm_compute. reflexivity. Qed.

Lemma hmac_sha256_len key m : length (hmac_sha256 key m) = 32%nat.
Proof. apply digest_len. Qed.

Lemma block_key_len key : length (block_key key) = BLOCK_SIZE.
Proof.
  unfold block_key. case_decide; rewrite length_app, length_replicate; [by rewrite digest_len|lia].
Qed.

Lemma mint_Ok oc now key kind scope au ttl token :
  in_i64 (now + ttl) -> mint oc now key kind scope au ttl = Ok token ->
  exists raw,
    payload_to_vec {| k := kind_as_str kind; exp := now + ttl; sc := scope; aud := au |} = Ok raw /\
    let body := VERSION ++ Byte.x2e :: base64_url_encode raw in
    token = body ++ Byte.x2e :: base64_url_encode (hmac_sha256 key body).
Proof.
  intros Hr. unfold mint. rewrite i64_op_fits by done. cbn [mbind outcome_bind].
  destruct (payload_to_vec _) as [raw|e|]; [|done|done]. cbn [map_err mbind outcome_bind].
  rewrite !dot_bs. intros [= <-]. by exists raw.
Qed.

Lemma verify_mint oc now key kind scope au ttl token now' expected :
  in_i64 (now + ttl) -> mint oc now key kind scope au ttl = Ok token ->
  verify now' key token expected =
    if decide (expected = kind /\ now' < now + ttl)
    then Some {| scope := scope; audience := au |} else None.
Proof.
  intros Hr Hm. apply mint_Ok in Hm as (raw & Hraw & ->); [|done].
  set (body := VERSION ++ Byte.x2e :: base64_url_encode raw).
  unfold verify. rewrite Str.rsplit_once_app by apply url_encode_no_dot. cbn [mbind option_bind].
  assert (Str.starts_with VERSION body = true) as -> by (apply Str.starts_with_spec; by eexists).
  cbn [negb]. rewrite base64_url_decode_encode. cbn [to_option mbind option_bind].
  assert (Form.constant_time_eq (hmac_sha256 key body) (hmac_sha256 key body) = true) as ->
    by (by apply Form.constant_time_eq_iff).
  cbn [negb]. unfold body at 1.
  rewrite Str.split_once_app
    by (intros Hc; apply list_elem_of_In in Hc; vm_compute in Hc; by destruct Hc as [?|[?|[]]]).
  cbn [mbind option_bind]. rewrite base64_url_decode_encode. cbn [to_option mbind option_bind].
  rewrite (payload_from_to _ _ Hraw). cbn [to_option mbind option_bind k exp sc aud].
  rewrite kind_parse_as_str. cbn [mbind option_bind].
  destruct (Z.leb_spec (now + ttl) now') as [Hle|Hlt].
  - rewrite (decide_False (P := expected = kind /\ now' < now + ttl)) by lia. by case_decide.
  - case_decide as Hk.
    + by rewrite decide_False by naive_solver.
    + by rewrite decide_True by done.
Qed.

(** C27: a token minted at [now] verifies under the same key exactly while it
    lives and exactly as the kind it was minted as, and then yields the
    scope and audience it was minted with. *)
Theorem token_lifetime oc now key kind scope au ttl token now' expected :
  in_i64 (now + ttl) -> mint oc now key kind scope au ttl = Ok token ->
  verify now' key token expected =
    if decide (expected = kind /\ now' < now + ttl)
    then Some {| scope := scope; audience := au |} else None.
Proof. intros Hr Hm. by eapply verify_mint. Qed.

Lemma verify_Some now key token kind v :
  verify now key token kind = Some v ->
  exists body sig rest raw p,
    token = body ++ Byte.x2e :: sig /\ base64_url_decode sig = Ok (hmac_sha256 key body) /\
    (exists v0, body = v0 ++ Byte.x2e :: rest /\ Byte.x2e ∉ v0) /\ VERSION `prefix_of` body /\
    base64_url_decode rest = Ok raw /\ payload_from_slice raw = Ok p /\
    kind_parse (k p) = Some kind /\ now < exp p /\ v = {| scope := sc p; audience := aud p |}.
Proof.
  unfold verify. destruct (Str.rsplit_once Byte.x2e token) as [[body sig]|] eqn:Hr; [|done].
  cbn [mbind option_bind]. apply Str.rsplit_once_Some in Hr as [-> _].
  destruct (Str.starts_with VERSION body) eqn:Hv; [|done]. cbn [negb].
  apply Str.starts_with_spec in Hv.
  destruct (base64_url_decode sig) as [presented|e|] eqn:Hs; [|done|done]. cbn [to_option mbind option_bind].
  destruct (Form.constant_time_eq _ presented) eqn:He; [|done]. cbn [negb].
  apply Form.constant_time_eq_iff in He as <-.
  destruct (Str.split_once Byte.x2e body) as [[v0 rest]|] eqn:Hb; [|done]. cbn [mbind option_bind].
  apply Str.split_once_Some in Hb as [Hb Hn].
  destruct (base64_url_decode rest) as [raw|e|] eqn:Hraw; [|done|done]. cbn [to_option mbind option_bind].
  destruct (payload_from_slice raw) as [p|e|] eqn:Hp; [|done|done]. cbn [to_option mbind option_bind].
  destruct (kind_parse (k p)) as [kd|] eqn:Hk; [|done]. cbn [mbind option_bind].
  case_decide as Hkd; [done|]. subst kd.
  destruct (Z.leb_spec (exp p) now); [done|]. intros [= <-].
  exists body, sig, rest, raw, p. split_and!; try done. by exists v0.
Qed.

(** Whatever verifies carries the HMAC of everything in front of its
    last dot under the server's key, and its claims, read from that signed
    part, are of the requested kind and unexpired. *)
Theorem verified_token_is_signed now key token kind v :
  verify now key token kind = Some v ->
  exists body sig rest raw p,
    token = body ++ Byte.x2e :: sig /\ base64_url_decode sig = Ok (hmac_sha256 key body) /\
    (exists v0, body = v0 ++ Byte.x2e :: rest /\ Byte.x2e ∉ v0) /\ VERSION `prefix_of` body /\
    base64_url_decode rest = Ok raw /\ payload_from_slice raw = Ok p /\
    kind_parse (k p) = Some kind /\ now < exp p /\ v = {| scope := sc p; audience := aud p |}.
Proof. apply verify_Some. Qed.

Lemma verify_s256_iff verifier challenge :
  verify_s256 verifier challenge = true <->
  verifier <> [] /\ challenge <> [] /\ challenge = base64_url_encode (Sha256_digest verifier).
Proof.
  unfold verify_s256. case_decide as Hd.
  - split; [done|]. naive_solver.
  - rewrite Form.constant_time_eq_iff. split; [|naive_solver].
    intros <-. split_and!; [| |done]; intros He; apply Hd; auto.
Qed.

End Signer.

End Tokens.

(** ** A concrete instance of the libraries *)

Module ToyLibs.

Definition hex_byte (b : byte) : bytes := [Form.hex_digit (u8 b / 16); Form.hex_digit (u8 b mod 16)].
Definition hex (m : bytes) : bytes := concat (map hex_byte m).

Fixpoint unhex (l : bytes) : outcome bytes bytes :=
  match l with
  | [] => Ok []
  | h :: lo :: l =>
      match Form.hex_value h, Form.hex_value lo with
      | Some x, Some y => m ← unhex l; Ok (u8_of_Z (x * 16 + y) :: m)
      | _, _ => Err (bs "bad digit")
      end
  | [_] => Err (bs "odd length")
  end.

Definition hex_byte_ok (b : byte) : bool :=
  negb (existsb (Byte.eqb Byte.x2e) (hex_byte b)) &&
  match Form.hex_value (Form.hex_digit (u8 b / 16)), Form.hex_value (Form.hex_digit (u8 b mod 16)) with
  | Some x, Some y => Byte.eqb (u8_of_Z (x * 16 + y)) b
  | _, _ => false
  end.

Lemma hex_byte_checked b : hex_byte_ok b = true.
Proof. destruct b; vm_compute; reflexivity. Qed.

Lemma unhex_hex m : unhex (hex m) = Ok m.
Proof.
  unfold hex. induction m as [|b m IH]; [done|]. simpl.
  pose proof (hex_byte_checked b) as Hb. apply andb_prop in Hb as [_ Hb].
  destruct (Form.hex_value _) as [x|]; [|done]. destruct (Form.hex_value _) as [y|]; [|done].
  apply Byte.byte_dec_bl in Hb. by rewrite IH, Hb.
Qed.

Lemma hex_no_dot m : Byte.x2e ∉ hex m.
Proof.
  unfold hex. induction m as [|b m IH]; [apply not_elem_of_nil|]. simpl.
  pose proof (hex_byte_checked b) as Hb. apply andb_prop in Hb as [Hb _].
  intros Hc. rewrite !elem_of_cons in Hc. unfold hex_byte in Hb. simpl in Hb.
  destruct Hc as [Hc|[Hc|Hc]]; [rewrite <-Hc in Hb|rewrite <-Hc in Hb|done].
  - by vm_compute in Hb.
  - rewrite orb_comm in Hb. by vm_compute in Hb.
Qed.

#[local] Instance TokenPayload_eq_dec : EqDecision TokenPayload.
Proof. solve_decision. Defined.

(** The claims the toy serializer knows. *)
Definition table : list TokenPayload :=
  [{| k := bs "a"; exp := 3600; sc := bs "mcp offline_access"; aud := Some (bs "https://h/mt") |};
   {| k := bs "r"; exp := 2592000; sc := bs "mcp offline_access"; aud := Some (bs "https://h/mt") |}].

Definition toy_to_vec (p : TokenPayload) : outcome bytes bytes :=
  match table with
  | [p0; p1] => if decide (p = p0) then Ok [Byte.x00] else if decide (p = p1) then Ok [Byte.x01]
                else Err (bs "unknown")
  | _ => Err (bs "unknown")
  end.

Definition toy_from_slice (v : bytes) : outcome bytes TokenPayload :=
  match v with
  | [b] => match table !! Z.to_nat (u8 b) with Some p => Ok p | None => Err (bs "unknown") end
  | _ => Err (bs "unknown")
  end.

Program Definition toy_libs : OAuthLibs := {|
  Sha256_digest := fun m => replicate 32 (u8_of_Z (Z.of_nat (length m)));
  URL_SAFE_NO_PAD_encode := hex;
  URL_SAFE_NO_PAD_decode := unhex;
  STANDARD_decode := unhex;
  payload_to_vec := toy_to_vec;
  payload_from_slice := toy_from_slice
|}.
Next Obligation. intros m. apply length_replicate. Qed.
Next Obligation. exact unhex_hex. Qed.
Next Obligation. exact hex_no_dot. Qed.
Next Obligation.
  unfold toy_to_vec, table. intros p v Hp.
  repeat case_decide; simplify_eq; vm_compute; reflexivity.
Qed.

End ToyLibs.

Module TokensWitness.
Import Tokens.
#[local] Existing Instance ToyLibs.toy_libs.

Definition sample_key : bytes := bs "signing key".
Definition sample_scope : bytes := bs "mcp offline_access".
Definition sample_aud : option bytes := Some (bs "https://h/mt").

Definition sample_token : bytes :=
  match mint true 0 sample_key Access sample_scope sample_aud 3600 with Ok t => t | _ => [] end.

Lemma sample_minted : mint true 0 sample_key Access sample_scope sample_aud 3600 = Ok sample_token.
Proof. vm_compute. reflexivity. Qed.

Lemma token_lifetime_witness :
  verify 3599 sample_key sample_token Access = Some {| scope := sample_scope; audience := sample_aud |} /\
  verify 3600 sample_key sample_token Access = None /\
  verify 10 sample_key sample_token Refresh = None.
Proof.
  assert (in_i64 (0 + 3600)) as Hr by (unfold in_i64; lia).
  split_and!; rewrite (token_lifetime true 0 sample_key Access sample_scope sample_aud 3600 _ _ _ Hr sample_minted);
    vm_compute; reflexivity.
Defined.

Lemma sample_verified : verify 1 sample_key sample_token Access =
  Some {| scope := sample_scope; audience := sample_aud |}.
Proof. vm_compute. reflexivity. Qed.

Lemma verified_token_is_signed_witness :
  exists body sig, sample_token = body ++ Byte.x2e :: sig /\
                   base64_url_decode sig = Ok (hmac_sha256 sample_key body).
Proof.
  destruct (verified_token_is_signed 1 sample_key sample_token Access _ sample_verified)
    as (body & sig & rest & raw & p & H1 & H2 & _).
  exists body, sig. split; assumption.
Defined.

End TokensWitness.

(** ** Authorization codes *)

Module AuthCodes.

Definition AUTH_CODE_TTL_SEC : Z := 300.
Definition MAX_CODES : nat := 256.

Record AuthCode := {
  redirect_uri : bytes;
  code_challenge : bytes;
  scope : bytes;
  resource : option bytes;
  expires_at_sec : Z
}.

Record IssuedAuthCode := {
  issued_redirect_uri : bytes;
  issued_code_challenge : bytes;
  issued_scope : bytes;
  issued_resource : option bytes
}.

Abbreviation store := (gmap bytes AuthCode).

(** [min_by_key] returns the first of the least elements in iteration
    order. *)
Fixpoint min_by_key (l : list (bytes * AuthCode)) (best : option (bytes * AuthCode)) :
    option (bytes * AuthCode) :=
  match l with
  | [] => best
  | x :: l =>
      match best with
      | None => min_by_key l (Some x)
      | Some b =>
          if expires_at_sec (snd x) <? expires_at_sec (snd b) then min_by_key l (Some x)
          else min_by_key l (Some b)
      end
  end.

Section Codes.
(** The iteration order of the hash map. *)
Context (order : store -> list (bytes * AuthCode)).

Definition remove_expired (now : Z) (codes : store) : store :=
  filter (fun kv => now < expires_at_sec (snd kv)) codes.

Definition oldest_code (codes : store) : option bytes := fst <$> min_by_key (order codes) None.

(** [AuthCodesInner::add] *)
Definition add (now : Z) (code : bytes) (issued : AuthCode) (codes : store) : store :=
  let codes := remove_expired now codes in
  let codes :=
    if decide (MAX_CODES <= size codes)%nat then
      match oldest_code codes with Some oldest => delete oldest codes | None => codes end
    else codes in
  <[code := issued]> codes.

(** [AuthCodesInner::take] *)
Definition take (now : Z) (code : bytes) (codes : store) : option AuthCode * store :=
  let codes := remove_expired now codes in
  match codes !! code with
  | None => (None, codes)
  | Some issued =>
      (if expires_at_sec issued <=? now then None else Some issued, delete code codes)
  end.

(** [AuthCodes::issue] and [AuthCodes::redeem] *)
Definition auth_code (now : Z) (i : IssuedAuthCode) : AuthCode :=
  {| redirect_uri := issued_redirect_uri i; code_challenge := issued_code_challenge i;
     scope := issued_scope i; resource := issued_resource i;
     expires_at_sec := now + AUTH_CODE_TTL_SEC |}.

Definition issue (now : Z) (code : bytes) (i : IssuedAuthCode) (codes : store) : store :=
  add now code (auth_code now i) codes.

Definition redeem (now : Z) (code : bytes) (codes : store) : option AuthCode * store :=
  take now code codes.

(** *** Histories of the store *)

Inductive op := Issue (now : Z) (code : bytes) (i : IssuedAuthCode) | Redeem (now : Z) (code : bytes).

(** The store and the codes handed out, after each operation. *)
Definition run_op (s : store * list (Z * bytes * AuthCode)) (o : op) :
    store * list (Z * bytes * AuthCode) :=
  let '(codes, granted) := s in
  match o with
  | Issue now code i => (issue now code i codes, granted)
  | Redeem now code =>
      match redeem now code codes with
      | (Some c, codes) => (codes, granted ++ [(now, code, c)])
      | (None, codes) => (codes, granted)
      end
  end.

Definition run (ops : list op) : store * list (Z * bytes * AuthCode) := fold_left run_op ops (∅, []).

Definition is_issue (code : bytes) (o : op) : bool :=
  match o with Issue _ c _ => bool_decide (c = code) | _ => false end.
Definition is_grant (code : bytes) (g : Z * bytes * AuthCode) : bool := bool_decide (snd (fst g) = code).

Definition issues (code : bytes) (ops : list op) : nat := length (List.filter (is_issue code) ops).
Definition grants (code : bytes) (gs : list (Z * bytes * AuthCode)) : nat :=
  length (List.filter (is_grant code) gs).

(** Where a stored or granted code comes from. *)
Definition issued_by (ops : list op) (code : bytes) (c : AuthCode) : Prop :=
  exists t i, Issue t code i ∈ ops /\ c = auth_code t i.

Record inv (ops : list op) (s : store * list (Z * bytes * AuthCode)) : Prop := {
  inv_size : (size (fst s) <= MAX_CODES)%nat;
  inv_once : forall code,
    (grants code (snd s) + (if decide (is_Some (fst s !! code)) then 1 else 0) <= issues code ops)%nat;
  inv_store : forall code c, fst s !! code = Some c -> issued_by ops code c;
  inv_grant : forall now code c, (now, code, c) ∈ snd s ->
    issued_by ops code c /\ now < expires_at_sec c
}.

Lemma issued_by_snoc ops o code c : issued_by ops code c -> issued_by (ops ++ [o]) code c.
Proof. intros (t & i & Hi & ->). exists t, i. split; [by apply elem_of_app; left|done]. Qed.

Lemma remove_expired_lookup now codes code c :
  remove_expired now codes !! code = Some c -> codes !! code = Some c /\ now < expires_at_sec c.
Proof. unfold remove_expired. intros Hf. by apply map_lookup_filter_Some in Hf. Qed.

Lemma remove_expired_size now codes : (size (remove_expired now codes) <= size codes)%nat.
Proof.
  apply map_subseteq_size. apply map_filter_subseteq.
Qed.

Context (order_perm : forall m, order m ≡ₚ map_to_list m).

Lemma min_by_key_In l best x :
  min_by_key l best = Some x -> x ∈ l \/ best = Some x.
Proof.
  revert best. induction l as [|y l IH]; intros best; simpl; [by right|].
  destruct best as [b|]; [destruct (_ <? _)|]; intros [Hx|Hx]%IH;
    set_solver || (left; apply elem_of_cons; naive_solver).
Qed.

Lemma min_by_key_None l best : min_by_key l best = None -> l = [] /\ best = None.
Proof.
  revert best. induction l as [|y l IH]; intros best; simpl; [done|].
  destruct best as [b|]; [destruct (_ <? _)|]; intros [_ ?]%IH; done.
Qed.

(** Making room: one entry goes when the store is full. *)
Lemma make_room codes :
  (size codes <= MAX_CODES)%nat ->
  let codes' :=
    if decide (MAX_CODES <= size codes)%nat then
      match oldest_code codes with Some oldest => delete oldest codes | None => codes end
    else codes in
  (size codes' < MAX_CODES)%nat /\ codes' ⊆ codes.
Proof.
  intros Hs. cbv zeta. case_decide as Hd; [|split; [lia|done]].
  unfold oldest_code. destruct (min_by_key (order codes) None) as [[o c]|] eqn:Hm; simpl.
  - apply min_by_key_In in Hm as [Hm|]; [|done].
    rewrite order_perm in Hm. apply elem_of_map_to_list in Hm.
    split; [|apply delete_subseteq].
    rewrite map_size_delete_Some by done. assert (size codes <> 0%nat).
    { intros Hz%map_size_empty_inv. by rewrite Hz, lookup_empty in Hm. }
    unfold MAX_CODES in *. lia.
  - apply min_by_key_None in Hm as [Hm _].
    assert (map_to_list codes = []) as He by (apply Permutation_nil; by rewrite <-order_perm, Hm).
    apply map_to_list_empty_iff in He as ->. rewrite map_size_empty in Hd. unfold MAX_CODES in Hd. lia.
Qed.

Lemma count_snoc {A} (f : A -> bool) l x :
  length (List.filter f (l ++ [x])) = (length (List.filter f l) + if f x then 1 else 0)%nat.
Proof. rewrite List.filter_app, length_app. simpl. by destruct (f x). Qed.

Lemma inv_issue ops codes granted now code i :
  inv ops (codes, granted) ->
  inv (ops ++ [Issue now code i]) (issue now code i codes, granted).
Proof.
  intros [Hs Ho Hst Hg]. unfold issue, add. simpl in *.
  destruct (make_room (remove_expired now codes)) as [Hlt Hsub].
  { pose proof (remove_expired_size now codes). lia. }
  set (m := if decide _ then _ else _) in *.
  assert (forall c v, m !! c = Some v -> codes !! c = Some v) as Hm.
  { intros c v Hv. eapply lookup_weaken in Hv; [|exact Hsub]. by apply remove_expired_lookup in Hv as [Hv _]. }
  split; simpl.
  - rewrite map_size_insert. destruct (m !! code); simpl; lia.
  - intros c. unfold issues. rewrite count_snoc. simpl. specialize (Ho c). unfold issues in Ho.
    destruct (decide (c = code)) as [->|Hne].
    + rewrite bool_decide_eq_true_2 by done. destruct (decide (is_Some (<[code := auth_code now i]> m !! code))); lia.
    + rewrite lookup_insert_ne by done. rewrite bool_decide_eq_false_2 by done.
      destruct (decide (is_Some (m !! c))) as [[v Hv]|]; [|lia].
      rewrite decide_True in Ho by (exists v; by apply Hm). lia.
  - intros c v. destruct (decide (c = code)) as [->|Hne].
    + rewrite lookup_insert_eq. intros [= <-]. exists now, i. split; [|done].
      apply elem_of_app. right. by apply list_elem_of_singleton.
    + rewrite lookup_insert_ne by done. intros Hv%Hm. by apply issued_by_snoc, Hst.
  - intros t c v Hin. destruct (Hg t c v Hin). split; [by apply issued_by_snoc|done].
Qed.

Lemma inv_redeem ops s now code :
  inv ops s -> inv (ops ++ [Redeem now code]) (run_op s (Redeem now code)).
Proof.
  destruct s as [codes granted]. intros [Hs Ho Hst Hg]. simpl in *. unfold redeem, take.
  pose proof (remove_expired_size now codes) as Hsz.
  set (m := remove_expired now codes) in *.
  assert (forall c v, m !! c = Some v -> codes !! c = Some v /\ now < expires_at_sec v) as Hm
    by (intros; by apply remove_expired_lookup).
  assert (forall c, issues c (ops ++ [Redeem now code]) = issues c ops) as Hi
    by (intros; unfold issues; rewrite count_snoc; simpl; lia).
  assert (forall c (P : bool), (if decide (is_Some (m !! c)) then 1 else 0) <=
                    (if decide (is_Some (codes !! c)) then 1 else 0))%nat as Hle.
  { intros c _. destruct (decide (is_Some (m !! c))) as [[v Hv]|]; [|lia].
    rewrite decide_True by (exists v; by apply Hm). lia. }
  destruct (m !! code) as [c|] eqn:Hc.
  - destruct (Hm _ _ Hc) as [Hcc Hlt]. destruct (Z.leb_spec (expires_at_sec c) now); [lia|].
    split; simpl.
    + rewrite map_size_delete_Some by done. lia.
    + intros c'. rewrite Hi. unfold grants. rewrite count_snoc. unfold is_grant at 2. simpl.
      specialize (Ho c'). specialize (Hle c' true). unfold grants in Ho.
      destruct (decide (c' = code)) as [->|Hne].
      * rewrite bool_decide_eq_true_2 by done.
        rewrite lookup_delete_eq, decide_False by (by intros []).
        rewrite decide_True in Ho by (by exists c). lia.
      * rewrite bool_decide_eq_false_2 by done. rewrite lookup_delete_ne by done. lia.
    + intros c' v. rewrite lookup_delete_Some. intros [_ Hv]. apply issued_by_snoc, Hst. by apply Hm.
    + intros t c' v. rewrite elem_of_app, list_elem_of_singleton. intros [Hin|[= -> -> ->]].
      * destruct (Hg _ _ _ Hin). split; [by apply issued_by_snoc|done].
      * split; [by apply issued_by_snoc, Hst|done].
  - split; simpl.
    + lia.
    + intros c'. rewrite Hi. specialize (Ho c'). specialize (Hle c' true). lia.
    + intros c' v Hv. apply issued_by_snoc, Hst. by apply Hm.
    + intros t c' v Hin. destruct (Hg _ _ _ Hin). split; [by apply issued_by_snoc|done].
Qed.

Lemma run_inv ops : inv ops (run ops).
Proof.
  induction ops as [|o ops IH] using rev_ind.
  - split; simpl; [|intros c; by rewrite decide_False by (rewrite lookup_empty; by intros [])| |].
    + rewrite map_size_empty. lia.
    + intros c v. by rewrite lookup_empty.
    + intros t c v Hin. by apply not_elem_of_nil in Hin.
  - unfold run in *. rewrite fold_left_app. cbn [fold_left].
    destruct o as [now code i|now code]; [|by apply inv_redeem].
    destruct (fold_left run_op ops (∅, [])) as [codes granted]. by apply inv_issue.
Qed.

(** C26: over any history of consents and redemptions, in any order and with
    any clock, the store never holds more than 256 codes; a code is handed
    out at most as often as it was issued, so a redeemed code can not be
    redeemed again; and what is handed out is exactly what some consent
    stored under that code less than 300 seconds before. *)
Theorem codes_single_use ops :
  (size (fst (run ops)) <= MAX_CODES)%nat /\
  (forall code, (grants code (snd (run ops)) <= issues code ops)%nat) /\
  (forall now code c, (now, code, c) ∈ snd (run ops) ->
     exists t i, Issue t code i ∈ ops /\ c = auth_code t i /\ now < t + 300).
Proof.
  destruct (run_inv ops) as [Hs Ho _ Hg]. split_and!; [done| |].
  - intros code. specialize (Ho code). lia.
  - intros now code c Hin. destruct (Hg _ _ _ Hin) as [(t & i & Hi & ->) Hlt]. by exists t, i.
Qed.

(** A code that was just issued can be redeemed within its life, whatever
    else the store holds. *)
Lemma redeem_issued now now' code i codes :
  now' < now + 300 -> fst (redeem now' code (issue now code i codes)) = Some (auth_code now i).
Proof.
  intros Hn. unfold redeem, take, issue, add.
  set (m := if decide _ then _ else _).
  assert (remove_expired now' (<[code := auth_code now i]> m) !! code = Some (auth_code now i)) as ->.
  { unfold remove_expired. apply map_lookup_filter_Some. split; [apply lookup_insert_eq|].
    simpl. unfold AUTH_CODE_TTL_SEC. lia. }
  destruct (Z.leb_spec (expires_at_sec (auth_code now i)) now') as [Hle|]; [|done].
  simpl in Hle. unfold AUTH_CODE_TTL_SEC in Hle. lia.
Qed.

End Codes.

Definition sample_issue : IssuedAuthCode :=
  {| issued_redirect_uri := bs "http://localhost/cb"; issued_code_challenge := bs "c";
     issued_scope := bs "mcp"; issued_resource := None |}.

Lemma codes_single_use_witness :
  (grants (bs "code") (snd (run map_to_list [Issue 0 (bs "code") sample_issue; Redeem 5 (bs "code");
                                             Redeem 6 (bs "code")])) <= 1)%nat.
Proof.
  destruct (codes_single_use map_to_list (fun m => reflexivity _)
    [Issue 0 (bs "code") sample_issue; Redeem 5 (bs "code"); Redeem 6 (bs "code")]) as (_ & H1 & _).
  etransitivity; [apply H1|]. vm_compute. lia.
Defined.

End AuthCodes.
