(* ===== verification/SigningKey.v ===== *)
(** * The key the tokens are signed with: [oauth/signing_key_storage.rs]

    One small JSON file per OAuth block, read on start and written once.  The
    disk is a map from paths to contents, so that what an interrupted write
    leaves behind can be looked at. *)

From Stdlib Require Import ZArith Lia Strings.String Strings.Byte.
From stdpp Require Import base tactics list gmap strings.
From S2P Require Import Prelude RustStd OAuthForm OAuthTokens.

Local Open Scope Z_scope.

(** [serde_json] on [SigningKeyFile], whose only field is the key: what is
    written can be read, and is not empty. *)
Class KeyFileJson := {
  key_to_json : option bytes -> bytes;
  key_from_json : bytes -> outcome bytes (option bytes);
  key_from_to : forall k, key_from_json (key_to_json k) = Ok k;
  key_json_not_empty : forall k, key_to_json k <> []
}.

Module SigningKey.

Abbreviation Disk := (gmap bytes bytes).

(** [default_signing_key_file]; the name of a block is ASCII or its characters
    are replaced as a whole. *)
Definition safe_char (c : bytes) : bytes :=
  match c with
  | [b] =>
      let v := u8 b in
      if ((48 <=? v) && (v <=? 57)) || ((65 <=? v) && (v <=? 90)) || ((97 <=? v) && (v <=? 122)) || (v =? 45) || (v =? 95)
      then c else bs "_"
  | _ => bs "_"
  end.

Definition default_signing_key_file (oauth_id : bytes) : bytes :=
  bs "~/.my-reverse-proxy-oauth/" ++ concat (map safe_char (default [] (Utf8.chars oauth_id))) ++ bs ".json".

(** [Path::parent], for a path that ends in a file name and has no doubled
    separators. *)
Definition parent (path : bytes) : bytes :=
  match rev (Str.drop_while (fun b => negb (bool_decide (b = Byte.x2f))) (rev path)) with
  | [] => []
  | [b] => [b]
  | folder => take (length folder - 1) folder
  end.

(** [temporary_path], for a path that ends in a file name. *)
Definition temporary_path (path : bytes) : bytes := path ++ bs ".tmp".

Section Storage.
Context `{OAuthLibs} `{KeyFileJson}.

(** The error of a read other than that there is no file, and the errors of
    the folder, the write and the renaming. *)
Context (read_error : bytes -> option bytes).

(** [SigningKeyFile::load] *)
Definition load (d : Disk) (path : bytes) : outcome bytes (option bytes) :=
  match read_error path with
  | Some err => Err (bs "Can not read the oauth signing key file '" ++ path ++ bs "'. Err: " ++ err)
  | None =>
      match d !! path with
      | None => Ok None
      | Some content =>
          if decide (content = []) then Ok None
          else
            map_err (fun err => bs "The oauth signing key file '" ++ path ++ bs "' is not valid JSON. Err: " ++ err ++
                       bs ". Fix or remove it — removing it regenerates the key, which forces every connector using " ++
                       bs "this oauth block to be authorized again")
              (key_from_json content)
      end
  end.

(** The step of a write that fails, if any does, with its error. *)
Inductive WriteFailure := FolderFails (err : bytes) | WriteFails (written : nat) (err : bytes) | RenameFails (err : bytes).

(** [save]: the new content goes to a file of its own, which then takes the
    place of the old one. *)
Definition save (failure : option WriteFailure) (path content : bytes) (d : Disk) : Disk * outcome bytes unit :=
  let temporary := temporary_path path in
  match failure with
  | Some (FolderFails err) => (d, Err (bs "Can not create the oauth signing key folder '" ++ parent path ++ bs "'. Err: " ++ err))
  | Some (WriteFails n err) =>
      (<[temporary := take n content]> d,
       Err (bs "Can not write the oauth signing key file '" ++ temporary ++ bs "'. Err: " ++ err))
  | Some (RenameFails err) =>
      (<[temporary := content]> d, Err (bs "Can not replace the oauth signing key file '" ++ path ++ bs "'. Err: " ++ err))
  | None => (<[path := content]> (delete temporary d), Ok tt)
  end.

(** The disks a process that is stopped in the middle of [save] can leave. *)
Definition save_trace (path content : bytes) (d : Disk) : list Disk :=
  d :: map (fun n => <[temporary_path path := take n content]> d) (seq 0 (S (length content))) ++
  [fst (save None path content d)].

(** [load_or_create]; [random] are the fresh 64 bytes. *)
Definition load_or_create (failure : option WriteFailure) (random path : bytes) (d : Disk) : Disk * outcome bytes bytes :=
  match load d path with
  | Panic => (d, Panic)
  | Err err => (d, Err err)
  | Ok existing =>
      let key := Str.trim (default [] existing) in
      if decide (key = []) then
        let generated := Tokens.base64_url_encode random in
        let '(d, saved) := save failure path (key_to_json (Some generated)) d in
        (d, _ ← saved; Tokens.base64_url_decode generated)
      else
        (d, map_err (fun err => bs "The oauth signing key in '" ++ path ++ bs "' is not valid base64url. Err: " ++ err)
              (Tokens.base64_url_decode key))
  end.

(** ** The key outlives what happens to the process *)

Lemma temporary_is_another path : temporary_path path <> path.
Proof. unfold temporary_path. intros E. apply (f_equal length) in E. rewrite length_app in E.
  assert (length (bs ".tmp") = 4%nat) by done. lia. Qed.

Lemma load_same d d' path : d !! path = d' !! path -> load d path = load d' path.
Proof. intros E. unfold load. by rewrite E. Qed.

Context (trim_encoded : forall b, Str.trim (Tokens.base64_url_encode b) = Tokens.base64_url_encode b).

Lemma decode_encoded b : Tokens.base64_url_decode (Tokens.base64_url_encode b) = Ok b.
Proof. unfold Tokens.base64_url_decode, Tokens.base64_url_encode. by rewrite url_decode_encode. Qed.

Lemma load_fails_everywhere path d : load d path = Ok None -> read_error path = None.
Proof. unfold load. by destruct (read_error path). Qed.

(** A file that holds a key gives that key, and stays. *)
Lemma key_file_gives_key failure random path d key :
  read_error path = None -> Tokens.base64_url_encode key <> [] ->
  d !! path = Some (key_to_json (Some (Tokens.base64_url_encode key))) ->
  load_or_create failure random path d = (d, Ok key).
Proof.
  intros R B E. unfold load_or_create, load. rewrite R, E, decide_False by apply key_json_not_empty.
  rewrite key_from_to. cbn [map_err from_option]. unfold id. by rewrite trim_encoded, decide_False, decode_encoded by done.
Qed.

Lemma no_key_creates random path d :
  load d path = Ok None ->
  load_or_create None random path d =
  (<[path := key_to_json (Some (Tokens.base64_url_encode random))]> (delete (temporary_path path) d), Ok random).
Proof. intros L. unfold load_or_create. rewrite L. simpl. by rewrite decode_encoded. Qed.

(** C8: The signing key outlives restarts: what the first start creates, every
    later one reads, and a process that is stopped at any point while it writes
    the file, even in the middle of the write, leaves a disk from which the
    next start gets the same key or, if it was not in place yet, a fresh one,
    but never an error. *)
Theorem signing_key_survives random path d :
  Tokens.base64_url_encode random <> [] -> load d path = Ok None ->
  let (d', key) := load_or_create None random path d in
  key = Ok random /\
  (forall failure random', load_or_create failure random' path d' = (d', Ok random)) /\
  (forall c random',
     c ∈ save_trace path (key_to_json (Some (Tokens.base64_url_encode random))) d ->
     snd (load_or_create None random' path c) ∈ [Ok random'; Ok random]).
Proof.
  intros B L. rewrite no_key_creates by done. pose proof (load_fails_everywhere _ _ L) as R.
  split; [done|]. split.
  { intros. apply key_file_gives_key; [done..|]. apply lookup_insert_eq. }
  intros c random' Hc.
  assert (c !! path = d !! path \/ c !! path = Some (key_to_json (Some (Tokens.base64_url_encode random)))) as [E|E].
  { unfold save_trace in Hc. apply elem_of_cons in Hc as [->|Hc]; [by left|].
    apply elem_of_app in Hc as [Hc|Hc].
    - apply list_elem_of_fmap in Hc as (n & -> & _). left.
      rewrite lookup_insert_ne; [done|]. apply temporary_is_another.
    - apply list_elem_of_singleton in Hc as ->. right. apply lookup_insert_eq. }
  - rewrite no_key_creates by (by rewrite (load_same _ d)). simpl. set_solver.
  - rewrite (key_file_gives_key _ _ _ _ random) by done. simpl. set_solver.
Qed.
End Storage.

(** ** A concrete instance *)

Definition demo_to_json (k : option bytes) : bytes := match k with None => bs "-" | Some k => bs "+" ++ k end.
Definition demo_from_json (content : bytes) : outcome bytes (option bytes) :=
  match content with
  | Byte.x2b :: k => Ok (Some k)
  | [Byte.x2d] => Ok None
  | _ => Err (bs "not JSON")
  end.

Lemma demo_from_to k : demo_from_json (demo_to_json k) = Ok k.
Proof. by destruct k. Qed.
Lemma demo_not_empty k : demo_to_json k <> [].
Proof. by destruct k. Qed.

Definition demo_json : KeyFileJson :=
  {| key_to_json := demo_to_json; key_from_json := demo_from_json; key_from_to := demo_from_to;
     key_json_not_empty := demo_not_empty |}.

Lemma hex_digit_graphic b : Str.is_graphic (Form.hex_digit (u8 b / 16)) && Str.is_graphic (Form.hex_digit (u8 b mod 16)) = true.
Proof. destruct b; vm_compute; reflexivity. Qed.

Lemma trim_hex m : Str.trim (ToyLibs.hex m) = ToyLibs.hex m.
Proof.
  apply Str.trim_graphic. unfold ToyLibs.hex. induction m as [|b m IH]; [apply Forall_nil_2|].
  pose proof (hex_digit_graphic b) as [G1 G2]%andb_true_iff. simpl. by repeat constructor.
Qed.

Lemma signing_key_survives_witness :
  snd (load_or_create (H:=ToyLibs.toy_libs) (H0:=demo_json) (fun _ => None) None (bs "new") (bs "k.json")
         (fst (load_or_create (H:=ToyLibs.toy_libs) (H0:=demo_json) (fun _ => None) None (bs "old") (bs "k.json") ∅)))
  = Ok (bs "old").
Proof.
  assert (B : Tokens.base64_url_encode (H:=ToyLibs.toy_libs) (bs "old") <> []) by (vm_compute; congruence).
  pose proof (signing_key_survives (H:=ToyLibs.toy_libs) (H0:=demo_json) (fun _ => None) trim_hex (bs "old") (bs "k.json") ∅
    B eq_refl) as W.
  destruct (load_or_create _ None (bs "old") _ _) as [d' key]. destruct W as (_ & W & _). simpl fst. by rewrite W.
Defined.

End SigningKey.
