(* ===== verification/OAuthServer.v ===== *)
(** * The OAuth server: [oauth/oauth_route.rs], [base_url.rs], [redirect_uri.rs],
      [oauth_request.rs], [oauth_response.rs], [oauth_error.rs], [metadata.rs],
      [consent_page.rs], [oauth_context.rs], [handle_authorize.rs],
      [handle_token.rs], [handle_oauth_request.rs], [bearer_gate.rs]

    One pure function from request to response, plus the gate in front of
    every proxied request.  The only state is the store of authorization
    codes, which is passed through. *)

From Stdlib Require Import ZArith Lia Strings.Byte.
From stdpp Require Import base tactics list gmap strings.
From S2P Require Import Prelude RustStd OAuthForm OAuthTokens.

Local Open Scope Z_scope.

(** ** Routes and origins *)

Module Route.

Definition AS_METADATA_PATH : bytes := bs "/.well-known/oauth-authorization-server".
Definition OPENID_CONFIGURATION_PATH : bytes := bs "/.well-known/openid-configuration".
Definition PROTECTED_RESOURCE_METADATA_PATH : bytes := bs "/.well-known/oauth-protected-resource".
Definition AUTHORIZE_PATH : bytes := bs "/oauth/authorize".
Definition TOKEN_PATH : bytes := bs "/oauth/token".

Inductive OAuthRoute :=
  | AuthorizationServerMetadata
  | ProtectedResourceMetadata (resource_path : bytes)
  | Authorize
  | Token.

(** [matches_with_suffix]: both slices panic inside a character. *)
Definition matches_with_suffix (path prefix : bytes) : outcome bytes (option bytes) :=
  if decide (length path < length prefix)%nat then Ok None
  else
    head ← Str.str_slice_to path (length prefix);
    if negb (Str.eq_ignore_ascii_case head prefix) then Ok None
    else
      suffix ← Str.str_slice_from path (length prefix);
      if bool_decide (suffix = []) || Str.starts_with (bs "/") suffix then Ok (Some suffix)
      else Ok None.

(** [normalize_resource_path] *)
Definition normalize_resource_path (path : bytes) : bytes :=
  let trimmed := Str.trim_end_matches Byte.x2f path in
  if decide (trimmed = []) then bs "/"
  else if Str.starts_with (bs "/") trimmed then trimmed
  else bs "/" ++ trimmed.

(** [route_oauth_path] *)
Definition route_oauth_path (path : bytes) : outcome bytes (option OAuthRoute) :=
  if Str.eq_ignore_ascii_case path AUTHORIZE_PATH then Ok (Some Authorize)
  else if Str.eq_ignore_ascii_case path TOKEN_PATH then Ok (Some Token)
  else
    as_metadata ← matches_with_suffix path AS_METADATA_PATH;
    is_as_metadata ←
      match as_metadata with
      | Some _ => Ok true
      | None => openid ← matches_with_suffix path OPENID_CONFIGURATION_PATH;
                Ok (match openid with Some _ => true | None => false end)
      end;
    if (is_as_metadata : bool) then Ok (Some AuthorizationServerMetadata)
    else
      protected ← matches_with_suffix path PROTECTED_RESOURCE_METADATA_PATH;
      match protected with
      | Some suffix => Ok (Some (ProtectedResourceMetadata (normalize_resource_path suffix)))
      | None => Ok None
      end.

(** [build_base_url] *)
Definition build_base_url (is_https : bool) (host : bytes) : bytes :=
  let scheme := if is_https then bs "https" else bs "http" in
  let default_port := if is_https then bs "443" else bs "80" in
  let host := Str.trim_end_matches Byte.x2f (Str.trim host) in
  let host :=
    match Str.rsplit_once Byte.x3a host with
    | Some (name, port) =>
        if negb (bool_decide (name = []))
           && (negb (Str.contains Byte.x3a name) || Str.ends_with (bs "]") name)
        then if decide (port = default_port) then name else host
        else host
    | None => host
    end in
  scheme ++ bs "://" ++ host.

(** [redirect_uri.rs] *)
Definition CLAUDE_REDIRECT_URI : bytes := bs "https://claude.ai/api/mcp/auth_callback".

Definition loopback_hosts : list bytes := [bs "127.0.0.1"; bs "localhost"; bs "[::1]"].

Definition is_loopback_redirect (redirect_uri : bytes) : bool :=
  match Str.strip_prefix (bs "http://") redirect_uri with
  | None => false
  | Some rest =>
      if Str.contains Byte.x40 rest then false
      else
        let host_and_port :=
          match Str.split_once Byte.x2f rest with Some (h, _) => h | None => rest end in
        let host :=
          match Str.rsplit_once Byte.x3a host_and_port with
          | Some (host, port) =>
              if negb (bool_decide (port = []))
                 && match Str.parse_uint 65535 port with Some _ => false | None => true end
              then None else Some host
          | None => Some host_and_port
          end in
        match host with
        | Some host => bool_decide (host ∈ loopback_hosts)
        | None => false
        end
  end.

Definition is_allowed_redirect_uri (redirect_uri : bytes) : bool :=
  if decide (redirect_uri = CLAUDE_REDIRECT_URI) then true else is_loopback_redirect redirect_uri.

End Route.

(** ** JSON documents; [serde_json::to_vec] is outside this repository *)

Inductive Json := JStr (s : bytes) | JInt (n : Z) | JArr (l : list bytes) | JObj (fields : list (bytes * Json)).

Class SerdeJson := { json_to_vec : Json -> option bytes }.

Module OAuth.
Import Route Tokens.

(** *** Requests and responses *)

Inductive OAuthMethod := Get | Post | OtherMethod.

#[global] Instance OAuthMethod_eq_dec : EqDecision OAuthMethod.
Proof. solve_decision. Defined.

Definition method_parse (method : bytes) : OAuthMethod :=
  if Str.eq_ignore_ascii_case method (bs "GET") then Get
  else if Str.eq_ignore_ascii_case method (bs "POST") then Post
  else OtherMethod.

Record OAuthRequest := {
  method : OAuthMethod;
  route : OAuthRoute;
  req_base_url : bytes;
  query : option bytes;
  body : bytes;
  content_type : option bytes;
  authorization : option bytes;
  known_resource_paths : list bytes
}.

(** [OAuthRequest::parameters] *)
Definition parameters (r : OAuthRequest) : gmap bytes bytes :=
  match method r with
  | Post => Form.parse_form_urlencoded (Utf8.from_utf8_lossy (body r))
  | Get | OtherMethod => Form.parse_form_urlencoded (default [] (query r))
  end.

Record OAuthHttpResponse := {
  status_code : Z;
  resp_content_type : bytes;
  headers : list (bytes * bytes);
  resp_body : bytes;
  register_ip_failure : bool
}.

Definition CONTENT_TYPE_JSON : bytes := bs "application/json".
Definition CONTENT_TYPE_HTML : bytes := bs "text/html; charset=UTF-8".

Definition response_json (status : Z) (b : bytes) : OAuthHttpResponse :=
  {| status_code := status; resp_content_type := CONTENT_TYPE_JSON;
     headers := [(bs "Cache-Control", bs "no-store"); (bs "Pragma", bs "no-cache")];
     resp_body := b; register_ip_failure := false |}.

Definition response_metadata (b : bytes) : OAuthHttpResponse :=
  {| status_code := 200; resp_content_type := CONTENT_TYPE_JSON;
     headers := [(bs "Cache-Control", bs "max-age=300")];
     resp_body := b; register_ip_failure := false |}.

Definition response_html (status : Z) (b : bytes) : OAuthHttpResponse :=
  {| status_code := status; resp_content_type := CONTENT_TYPE_HTML;
     headers := [(bs "Cache-Control", bs "no-store")];
     resp_body := b; register_ip_failure := false |}.

Definition response_redirect (location : bytes) : OAuthHttpResponse :=
  {| status_code := 302; resp_content_type := CONTENT_TYPE_HTML;
     headers := [(bs "Location", location); (bs "Cache-Control", bs "no-store")];
     resp_body := []; register_ip_failure := false |}.

Definition add_header (name value : bytes) (r : OAuthHttpResponse) : OAuthHttpResponse :=
  {| status_code := status_code r; resp_content_type := resp_content_type r;
     headers := headers r ++ [(name, value)]; resp_body := resp_body r;
     register_ip_failure := register_ip_failure r |}.

Definition into_credential_failure (r : OAuthHttpResponse) : OAuthHttpResponse :=
  {| status_code := status_code r; resp_content_type := resp_content_type r;
     headers := headers r; resp_body := resp_body r; register_ip_failure := true |}.

(** *** Errors *)

Definition ERROR_INVALID_REQUEST : bytes := bs "invalid_request".
Definition ERROR_INVALID_CLIENT : bytes := bs "invalid_client".
Definition ERROR_INVALID_GRANT : bytes := bs "invalid_grant".
Definition ERROR_UNSUPPORTED_GRANT_TYPE : bytes := bs "unsupported_grant_type".
Definition ERROR_UNSUPPORTED_RESPONSE_TYPE : bytes := bs "unsupported_response_type".
Definition ERROR_INVALID_TOKEN : bytes := bs "invalid_token".
Definition ERROR_SERVER_ERROR : bytes := bs "server_error".

(** Text with every backquote read as a double quote. *)
Definition html (s : String.string) : bytes :=
  map (fun b => if decide (b = Byte.x60) then Byte.x22 else b) (bs s).

Section Server.
Context `{OAuthLibs} `{SerdeJson}.
Context (order : gmap bytes AuthCodes.AuthCode -> list (bytes * AuthCodes.AuthCode)).

Definition error_body (error description : bytes) : bytes :=
  match json_to_vec (JObj [(bs "error", JStr error); (bs "error_description", JStr description)]) with
  | Some b => b
  | None => html "{`error`:`server_error`,`error_description`:`Can not build the error body`}"
  end.

Definition oauth_error_response (status : Z) (error description : bytes) : OAuthHttpResponse :=
  response_json status (error_body error description).

Definition method_not_allowed (allowed : bytes) : OAuthHttpResponse :=
  add_header (bs "Allow") allowed
    (oauth_error_response 405 ERROR_INVALID_REQUEST (bs "This endpoint only accepts " ++ allowed)).

(** *** Metadata *)

Definition serialize (value : Json) : bytes :=
  match json_to_vec value with
  | Some b => b
  | None => error_body ERROR_SERVER_ERROR (bs "Can not build the metadata document")
  end.

Definition MCP_SCOPE : bytes := bs "mcp".
Definition OFFLINE_SCOPE : bytes := bs "offline_access".

Definition build_authorization_server_metadata (base_url : bytes) : bytes :=
  serialize (JObj
    [(bs "issuer", JStr base_url);
     (bs "authorization_endpoint", JStr (base_url ++ AUTHORIZE_PATH));
     (bs "token_endpoint", JStr (base_url ++ TOKEN_PATH));
     (bs "response_types_supported", JArr [bs "code"]);
     (bs "grant_types_supported", JArr [bs "authorization_code"; bs "refresh_token"]);
     (bs "code_challenge_methods_supported", JArr [bs "S256"]);
     (bs "token_endpoint_auth_methods_supported",
        JArr [bs "client_secret_post"; bs "client_secret_basic"]);
     (bs "scopes_supported", JArr [MCP_SCOPE; OFFLINE_SCOPE])]).

Definition build_resource_url (base_url resource_path : bytes) : bytes :=
  if decide (resource_path = bs "/" \/ resource_path = []) then base_url
  else base_url ++ resource_path.

Definition build_protected_resource_metadata (base_url resource_path : bytes) : bytes :=
  serialize (JObj
    [(bs "resource", JStr (build_resource_url base_url resource_path));
     (bs "authorization_servers", JArr [base_url]);
     (bs "scopes_supported", JArr [MCP_SCOPE; OFFLINE_SCOPE]);
     (bs "bearer_methods_supported", JArr [bs "header"])]).

Definition build_resource_metadata_url (base_url resource_path : bytes) : bytes :=
  if decide (resource_path = bs "/" \/ resource_path = [])
  then base_url ++ PROTECTED_RESOURCE_METADATA_PATH
  else base_url ++ PROTECTED_RESOURCE_METADATA_PATH ++ resource_path.

(** *** The context *)

Record OAuthSettings := {
  client_id : bytes;
  client_secret : bytes;
  consent_password : bytes;
  set_public_url : option bytes;
  set_signing_key : option bytes;
  set_signing_key_file : option bytes;
  set_access_token_ttl_sec : option Z;
  set_refresh_token_ttl_sec : option Z
}.

Record OAuthContext := {
  settings : OAuthSettings;
  public_url : option bytes;
  access_token_ttl_sec : Z;
  refresh_token_ttl_sec : Z;
  signer_key : bytes
}.

Definition context_new (s : OAuthSettings) (signing_key : bytes) : OAuthContext :=
  {| settings := s;
     public_url := (fun url => Str.trim_end_matches Byte.x2f (Str.trim url)) <$> set_public_url s;
     access_token_ttl_sec := default DEFAULT_ACCESS_TOKEN_TTL_SEC (set_access_token_ttl_sec s);
     refresh_token_ttl_sec := default DEFAULT_REFRESH_TOKEN_TTL_SEC (set_refresh_token_ttl_sec s);
     signer_key := signing_key |}.

Definition base_url (ctx : OAuthContext) (request_base_url : bytes) : bytes :=
  match public_url ctx with
  | Some url => url
  | None => Str.trim_end_matches Byte.x2f request_base_url
  end.

Definition check_client_id (ctx : OAuthContext) (presented : bytes) : bool :=
  Form.constant_time_eq (Str.trim presented) (Str.trim (client_id (settings ctx))).

Definition check_client_secret (ctx : OAuthContext) (presented : bytes) : bool :=
  Form.constant_time_eq presented (Str.trim (client_secret (settings ctx))).

Definition check_consent_password (ctx : OAuthContext) (presented : bytes) : bool :=
  Form.constant_time_eq (Str.trim presented) (Str.trim (consent_password (settings ctx))).

Definition scope_includes (scope wanted : bytes) : bool :=
  existsb (fun entry => bool_decide (entry = wanted)) (Str.split_whitespace scope).

Definition granted_scope (requested : option bytes) : bytes :=
  let requested := default [] requested in
  if scope_includes requested OFFLINE_SCOPE then MCP_SCOPE ++ bs " " ++ OFFLINE_SCOPE else MCP_SCOPE.

Record MintedTokens := {
  access_token : bytes;
  refresh_token : option bytes;
  expires_in : Z;
  minted_scope : bytes
}.

Definition mint_tokens (oc : bool) (now : Z) (ctx : OAuthContext) (scope : bytes)
    (audience : option bytes) : outcome bytes MintedTokens :=
  access ← mint oc now (signer_key ctx) Access scope audience (access_token_ttl_sec ctx);
  refresh ←
    (if scope_includes scope OFFLINE_SCOPE
     then Some <$> mint oc now (signer_key ctx) Refresh scope audience (refresh_token_ttl_sec ctx)
     else Ok None);
  Ok {| access_token := access; refresh_token := refresh;
        expires_in := access_token_ttl_sec ctx; minted_scope := scope |}.

Definition get (ps : gmap bytes bytes) (name : bytes) : bytes := default [] (ps !! name).

(** *** The consent page *)

Record ConsentPageParams := {
  cp_client_id : bytes;
  cp_redirect_uri : bytes;
  cp_state : option bytes;
  cp_scope : bytes;
  cp_code_challenge : bytes;
  cp_resource : option bytes;
  cp_error : option bytes
}.

Definition generate_consent_page (params : ConsentPageParams) : bytes :=
  let error_block :=
    match cp_error params with
    | Some e => html "<p class=`error`>" ++ Form.html_escape e ++ bs "</p>"
    | None => []
    end in
  let resource_row :=
    match cp_resource params with
    | Some r => bs "<tr><th>Resource</th><td>" ++ Form.html_escape r ++ bs "</td></tr>"
    | None => []
    end in
  let state_field :=
    match cp_state params with Some st => Form.hidden_field (bs "state") st | None => [] end in
  let resource_field :=
    match cp_resource params with Some r => Form.hidden_field (bs "resource") r | None => [] end in
  html "<html><head><title>Authorize connector</title>
<meta name=`viewport` content=`width=device-width, initial-scale=1`>
<style>
body { font-family: -apple-system, Segoe UI, Roboto, Helvetica, Arial, sans-serif;
       background: #f5f6f8; margin: 0; padding: 0; color: #1c1e21; }
#card { max-width: 460px; margin: 8vh auto; background: #fff; border-radius: 10px;
        box-shadow: 0 1px 4px rgba(0,0,0,.14); padding: 28px 32px; }
h1 { font-size: 20px; margin: 0 0 6px 0; }
p.lead { color: #55595e; font-size: 14px; margin: 0 0 20px 0; }
table { width: 100%; border-collapse: collapse; margin-bottom: 20px; font-size: 13px; }
th { text-align: left; color: #6a6e73; font-weight: 500; width: 34%; padding: 5px 0; vertical-align: top; }
td { padding: 5px 0; word-break: break-all; }
label { display: block; font-size: 13px; margin-bottom: 6px; color: #37393d; }
input[type=password] { width: 100%; box-sizing: border-box; padding: 9px 11px; font-size: 14px;
                        border: 1px solid #ccd0d5; border-radius: 6px; }
button { margin-top: 16px; width: 100%; padding: 10px; font-size: 15px; border: 0;
          border-radius: 6px; background: #2f6fdb; color: #fff; cursor: pointer; }
button:hover { background: #2a61c0; }
p.error { background: #fdecec; border: 1px solid #f3c2c2; color: #a12020;
          padding: 9px 11px; border-radius: 6px; font-size: 13px; margin: 0 0 16px 0; }
</style>
</head><body>
<div id=`card`>
<h1>Authorize connector</h1>
<p class=`lead`>An application is asking for access through this proxy. Enter the consent password to approve it.</p>
"
  ++ error_block
  ++ html "
<table>
<tr><th>Client</th><td>"
  ++ Form.html_escape (cp_client_id params)
  ++ html "</td></tr>
"
  ++ resource_row
  ++ html "
<tr><th>Scope</th><td>"
  ++ Form.html_escape (cp_scope params)
  ++ html "</td></tr>
<tr><th>Redirect</th><td>"
  ++ Form.html_escape (cp_redirect_uri params)
  ++ html "</td></tr>
</table>
<form method=`POST` action=`"
  ++ AUTHORIZE_PATH
  ++ html "`>
"
  ++ Form.hidden_field (bs "client_id") (cp_client_id params)
  ++ html "
"
  ++ Form.hidden_field (bs "redirect_uri") (cp_redirect_uri params)
  ++ html "
"
  ++ Form.hidden_field (bs "response_type") (bs "code")
  ++ html "
"
  ++ Form.hidden_field (bs "scope") (cp_scope params)
  ++ html "
"
  ++ Form.hidden_field (bs "code_challenge") (cp_code_challenge params)
  ++ html "
"
  ++ Form.hidden_field (bs "code_challenge_method") (bs "S256")
  ++ html "
"
  ++ state_field
  ++ html "
"
  ++ resource_field
  ++ html "
<label for=`consent_password`>Consent password</label>
<input type=`password` id=`consent_password` name=`consent_password` autocomplete=`off` autofocus spellcheck=`false`>
<button type=`submit`>Approve</button>
</form>
</div>
</body></html>".

Definition generate_error_page (title message : bytes) : bytes :=
  html "<html><head><title>"
  ++ Form.html_escape title
  ++ html "</title>
<meta name=`viewport` content=`width=device-width, initial-scale=1`>
<style>
body { font-family: -apple-system, Segoe UI, Roboto, Helvetica, Arial, sans-serif;
       background: #f5f6f8; margin: 0; color: #1c1e21; }
#card { max-width: 460px; margin: 8vh auto; background: #fff; border-radius: 10px;
        box-shadow: 0 1px 4px rgba(0,0,0,.14); padding: 28px 32px; }
h1 { font-size: 20px; margin: 0 0 10px 0; }
p { color: #55595e; font-size: 14px; margin: 0; }
</style>
</head><body><div id=`card`><h1>"
  ++ Form.html_escape title
  ++ html "</h1><p>"
  ++ Form.html_escape message
  ++ html "</p></div></body></html>".

(** *** The authorize endpoint *)

Record ValidatedAuthorizeRequest := {
  v_client_id : bytes;
  v_redirect_uri : bytes;
  v_state : option bytes;
  v_code_challenge : bytes;
  v_granted_scope : bytes;
  v_resource : option bytes
}.

Inductive Validated := Accepted (v : ValidatedAuthorizeRequest) | Rejected (r : OAuthHttpResponse).

Definition append_query (redirect_uri : bytes) : bytes :=
  redirect_uri ++ (if Str.contains Byte.x3f redirect_uri then bs "&" else bs "?").

Definition state_suffix (state : option bytes) : bytes :=
  match state with Some st => bs "&state=" ++ Form.percent_encode st | None => [] end.

Definition redirect_with_error (redirect_uri : bytes) (state : option bytes) (error description : bytes) :
    OAuthHttpResponse :=
  response_redirect
    (append_query redirect_uri ++ bs "error=" ++ Form.percent_encode error
     ++ bs "&error_description=" ++ Form.percent_encode description ++ state_suffix state).

Definition non_empty (o : option bytes) : option bytes :=
  match o with Some [] => None | o => o end.

Definition validate (ctx : OAuthContext) (ps : gmap bytes bytes) (base : bytes) : Validated :=
  let cid := get ps (bs "client_id") in
  let redirect_uri := get ps (bs "redirect_uri") in
  let state := non_empty (ps !! bs "state") in
  if negb (check_client_id ctx cid) then
    Rejected (into_credential_failure (response_html 400
      (generate_error_page (bs "Unknown client") (bs "The client_id is not configured on this proxy."))))
  else if negb (is_allowed_redirect_uri redirect_uri) then
    Rejected (response_html 400
      (generate_error_page (bs "Invalid redirect_uri")
         (bs "This proxy only redirects to the Claude callback or to a loopback address.")))
  else if decide (get ps (bs "response_type") <> bs "code") then
    Rejected (redirect_with_error redirect_uri state ERROR_UNSUPPORTED_RESPONSE_TYPE
                (bs "Only the authorization code flow is supported"))
  else
    let code_challenge := get ps (bs "code_challenge") in
    if decide (code_challenge = []) then
      Rejected (redirect_with_error redirect_uri state ERROR_INVALID_REQUEST
                  (bs "code_challenge is required — this server requires PKCE with S256"))
    else
      let code_challenge_method := default (bs "S256") (ps !! bs "code_challenge_method") in
      if negb (Str.eq_ignore_ascii_case code_challenge_method (bs "S256")) then
        Rejected (redirect_with_error redirect_uri state ERROR_INVALID_REQUEST
                    (bs "Only the S256 code_challenge_method is supported"))
      else
        let resource := non_empty (ps !! bs "resource") in
        let off_server :=
          match resource with
          | Some r => negb (Str.starts_with base (Str.trim_end_matches Byte.x2f r))
          | None => false
          end in
        if off_server then
          Rejected (redirect_with_error redirect_uri state (bs "invalid_target")
                      (bs "The requested resource is not served by this authorization server"))
        else
          Accepted {| v_client_id := cid; v_redirect_uri := redirect_uri; v_state := state;
                      v_code_challenge := code_challenge;
                      v_granted_scope := granted_scope (ps !! bs "scope"); v_resource := resource |}.

Definition consent_page (v : ValidatedAuthorizeRequest) (error : option bytes) : OAuthHttpResponse :=
  let status := match error with Some _ => 401 | None => 200 end in
  response_html status
    (generate_consent_page
       {| cp_client_id := v_client_id v; cp_redirect_uri := v_redirect_uri v; cp_state := v_state v;
          cp_scope := v_granted_scope v; cp_code_challenge := v_code_challenge v;
          cp_resource := v_resource v; cp_error := error |}).

Definition issued_of (v : ValidatedAuthorizeRequest) : AuthCodes.IssuedAuthCode :=
  {| AuthCodes.issued_redirect_uri := v_redirect_uri v;
     AuthCodes.issued_code_challenge := v_code_challenge v;
     AuthCodes.issued_scope := v_granted_scope v;
     AuthCodes.issued_resource := v_resource v |}.

(** [issue_code]; [code] is the fresh [random_secret(32)]. *)
Definition issue_code (now : Z) (code : bytes) (v : ValidatedAuthorizeRequest) (codes : gmap bytes AuthCodes.AuthCode) :
    OAuthHttpResponse * gmap bytes AuthCodes.AuthCode :=
  let codes := AuthCodes.issue order now code (issued_of v) codes in
  (response_redirect
     (append_query (v_redirect_uri v) ++ bs "code=" ++ Form.percent_encode code ++ state_suffix (v_state v)),
   codes).

Definition handle_authorize (ctx : OAuthContext) (now : Z) (code : bytes) (r : OAuthRequest)
    (codes : gmap bytes AuthCodes.AuthCode) : OAuthHttpResponse * gmap bytes AuthCodes.AuthCode :=
  match method r with
  | OtherMethod => (method_not_allowed (bs "GET, POST"), codes)
  | Get | Post =>
      let ps := parameters r in
      match validate ctx ps (base_url ctx (req_base_url r)) with
      | Rejected response => (response, codes)
      | Accepted v =>
          if decide (method r = Get) then (consent_page v None, codes)
          else
            let presented_password := default [] (ps !! bs "consent_password") in
            if negb (check_consent_password ctx presented_password) then
              (into_credential_failure (consent_page v (Some (bs "Wrong consent password. Try again."))), codes)
            else issue_code now code v codes
      end
  end.

(** *** The token endpoint *)

Definition FORM_CONTENT_TYPE : bytes := bs "application/x-www-form-urlencoded".

Record PresentedClient := { p_client_id : bytes; p_client_secret : bytes; from_basic : bool }.

Definition presented_client (authorization : option bytes) (ps : gmap bytes bytes) :
    outcome bytes (option PresentedClient) :=
  let from_form :=
    let cid := get ps (bs "client_id") in
    if decide (cid = []) then Ok None
    else Ok (Some {| p_client_id := cid; p_client_secret := get ps (bs "client_secret");
                     from_basic := false |}) in
  match authorization with
  | None => from_form
  | Some authorization =>
      let trimmed := Str.trim authorization in
      if decide (length trimmed <= 6)%nat then from_form
      else
        head ← Str.str_slice_to trimmed 6;
        if negb (Str.eq_ignore_ascii_case head (bs "Basic ")) then from_form
        else
          rest ← Str.str_slice_from trimmed 6;
          Ok (decoded ← to_option (base64_standard_decode (Str.trim rest));
              decoded ← Utf8.from_utf8 decoded;
              '(cid, secret) ← Str.split_once Byte.x3a decoded;
              Some {| p_client_id := cid; p_client_secret := secret; from_basic := true |})
  end.

Definition matches_client_id (ctx : OAuthContext) (presented : bytes) : bool :=
  check_client_id ctx presented || check_client_id ctx (Form.form_url_decode presented).

Definition matches_client_secret (ctx : OAuthContext) (presented : bytes) : bool :=
  check_client_secret ctx presented || check_client_secret ctx (Form.form_url_decode presented).

Definition invalid_client (from_basic : bool) : OAuthHttpResponse :=
  let response :=
    oauth_error_response 401 ERROR_INVALID_CLIENT (bs "The client_id or client_secret is wrong") in
  if from_basic then add_header (bs "WWW-Authenticate") (html "Basic realm=`oauth`") response
  else response.

Definition token_response_body (minted : MintedTokens) : bytes :=
  match json_to_vec (JObj
    ([(bs "access_token", JStr (access_token minted)); (bs "token_type", JStr (bs "Bearer"));
      (bs "expires_in", JInt (expires_in minted))]
     ++ match refresh_token minted with Some t => [(bs "refresh_token", JStr t)] | None => [] end
     ++ [(bs "scope", JStr (minted_scope minted))])) with
  | Some b => b
  | None => error_body ERROR_SERVER_ERROR (bs "Can not build the token response")
  end.

Definition mint_response (oc : bool) (now : Z) (ctx : OAuthContext) (scope : bytes)
    (audience : option bytes) : outcome bytes OAuthHttpResponse :=
  match mint_tokens oc now ctx scope audience with
  | Ok minted => Ok (response_json 200 (token_response_body minted))
  | Err err => Ok (oauth_error_response 500 ERROR_SERVER_ERROR err)
  | Panic => Panic
  end.

Definition exchange_authorization_code (oc : bool) (now : Z) (ctx : OAuthContext) (ps : gmap bytes bytes)
    (codes : gmap bytes AuthCodes.AuthCode) : gmap bytes AuthCodes.AuthCode * outcome bytes OAuthHttpResponse :=
  let code := get ps (bs "code") in
  if decide (code = []) then
    (codes, Ok (oauth_error_response 400 ERROR_INVALID_REQUEST (bs "code is required")))
  else
    match AuthCodes.redeem now code codes with
    | (None, codes) =>
        (codes, Ok (oauth_error_response 400 ERROR_INVALID_GRANT
                      (bs "The authorization code is unknown, already used, or expired")))
    | (Some issued, codes) =>
        (codes,
         if decide (get ps (bs "redirect_uri") <> AuthCodes.redirect_uri issued) then
           Ok (oauth_error_response 400 ERROR_INVALID_GRANT
                 (bs "redirect_uri does not match the one the code was issued for"))
         else
           let code_verifier := get ps (bs "code_verifier") in
           if decide (code_verifier = []) then
             Ok (oauth_error_response 400 ERROR_INVALID_REQUEST (bs "code_verifier is required"))
           else if negb (verify_s256 code_verifier (AuthCodes.code_challenge issued)) then
             Ok (oauth_error_response 400 ERROR_INVALID_GRANT
                   (bs "The code_verifier does not match the code_challenge"))
           else mint_response oc now ctx (AuthCodes.scope issued) (AuthCodes.resource issued))
    end.

Definition refresh (oc : bool) (now : Z) (ctx : OAuthContext) (ps : gmap bytes bytes) :
    outcome bytes OAuthHttpResponse :=
  let token := get ps (bs "refresh_token") in
  if decide (token = []) then
    Ok (oauth_error_response 400 ERROR_INVALID_REQUEST (bs "refresh_token is required"))
  else
    match verify now (signer_key ctx) token Refresh with
    | None => Ok (oauth_error_response 400 ERROR_INVALID_GRANT (bs "The refresh token is invalid or expired"))
    | Some verified => mint_response oc now ctx (scope verified) (audience verified)
    end.

Definition handle_token (oc : bool) (ctx : OAuthContext) (now : Z) (r : OAuthRequest)
    (codes : gmap bytes AuthCodes.AuthCode) : gmap bytes AuthCodes.AuthCode * outcome bytes OAuthHttpResponse :=
  if decide (method r <> Post) then (codes, Ok (method_not_allowed (bs "POST")))
  else
    let ps := parameters r in
    if decide (ps = ∅) then
      (codes, Ok (oauth_error_response 400 ERROR_INVALID_REQUEST
        (match content_type r with
         | Some ct => bs "The request body must be " ++ FORM_CONTENT_TYPE
                      ++ bs ", and this one was sent as '" ++ ct ++ bs "'"
         | None => bs "The request body must be " ++ FORM_CONTENT_TYPE
         end)))
    else
      match presented_client (authorization r) ps with
      | Ok None => (codes, Ok (invalid_client false))
      | Ok (Some presented) =>
          if negb (matches_client_id ctx (p_client_id presented))
             || negb (matches_client_secret ctx (p_client_secret presented))
          then (codes, Ok (into_credential_failure (invalid_client (from_basic presented))))
          else
            match ps !! bs "grant_type" with
            | None =>
                (codes, Ok (oauth_error_response 400 ERROR_INVALID_REQUEST (bs "grant_type is required")))
            | Some grant_type =>
                if decide (grant_type = bs "authorization_code")
                then exchange_authorization_code oc now ctx ps codes
                else if decide (grant_type = bs "refresh_token") then (codes, refresh oc now ctx ps)
                else (codes, Ok (oauth_error_response 400 ERROR_UNSUPPORTED_GRANT_TYPE
                        (bs "The grant type '" ++ grant_type ++ bs "' is not supported")))
            end
      | Err e => (codes, Err e)
      | Panic => (codes, Panic)
      end.

(** *** Dispatch *)

Definition resource_path_is_served (resource_path : bytes) (location_paths : list bytes) : bool :=
  existsb (fun location_path =>
    let location_path := normalize_resource_path location_path in
    if decide (location_path = bs "/") then true
    else if Str.eq_ignore_ascii_case resource_path location_path then true
    else
      match Str.get_to resource_path (length location_path) with
      | Some prefix =>
          Str.eq_ignore_ascii_case prefix location_path
          && bool_decide (resource_path !! length location_path = Some Byte.x2f)
      | None => false
      end) location_paths.

Definition protected_resource_metadata (ctx : OAuthContext) (r : OAuthRequest) (resource_path : bytes) :
    OAuthHttpResponse :=
  if negb (resource_path_is_served resource_path (known_resource_paths r)) then
    oauth_error_response 404 ERROR_INVALID_REQUEST (bs "No such protected resource on this endpoint")
  else
    response_metadata (build_protected_resource_metadata (base_url ctx (req_base_url r)) resource_path).

Definition handle_oauth_request (oc : bool) (ctx : OAuthContext) (now : Z) (code : bytes) (r : OAuthRequest)
    (codes : gmap bytes AuthCodes.AuthCode) : gmap bytes AuthCodes.AuthCode * outcome bytes OAuthHttpResponse :=
  match route r with
  | AuthorizationServerMetadata =>
      (codes,
       if decide (method r <> Get) then Ok (method_not_allowed (bs "GET"))
       else Ok (response_metadata (build_authorization_server_metadata (base_url ctx (req_base_url r)))))
  | ProtectedResourceMetadata resource_path =>
      (codes,
       if decide (method r <> Get) then Ok (method_not_allowed (bs "GET"))
       else Ok (protected_resource_metadata ctx r resource_path))
  | Authorize => let '(resp, codes) := handle_authorize ctx now code r codes in (codes, Ok resp)
  | Token => handle_token oc ctx now r codes
  end.

(** *** The bearer gate *)

Record BearerGateRequest := {
  bg_authorization : option bytes;
  bg_base_url : bytes;
  bg_resource_path : bytes
}.

Inductive BearerGateResult := Allowed | Challenge (r : OAuthHttpResponse).

Definition bearer_token (authorization : option bytes) : outcome bytes (option bytes) :=
  match authorization with
  | None => Ok None
  | Some a =>
      let a := Str.trim a in
      if decide (length a <= 7)%nat then Ok None
      else
        head ← Str.str_slice_to a 7;
        if negb (Str.eq_ignore_ascii_case head (bs "Bearer ")) then Ok None
        else
          rest ← Str.str_slice_from a 7;
          let token := Str.trim rest in
          if decide (token = []) then Ok None else Ok (Some token)
  end.

Definition audience_allows (audience base resource_path : bytes) : bool :=
  let audience := Str.trim_end_matches Byte.x2f audience in
  let base := Str.trim_end_matches Byte.x2f base in
  match Str.strip_prefix base audience with
  | None => false
  | Some audience_path =>
      if decide (audience_path = [] \/ audience_path = bs "/") then true
      else if negb (Str.starts_with (bs "/") audience_path) then false
      else
        let resource_path := if decide (resource_path = []) then bs "/" else resource_path in
        if Str.eq_ignore_ascii_case resource_path audience_path then true
        else
          match Str.get_to resource_path (length audience_path) with
          | Some prefix =>
              Str.eq_ignore_ascii_case prefix audience_path
              && bool_decide (resource_path !! length audience_path = Some Byte.x2f)
          | None => false
          end
  end.

Definition challenge (r : BearerGateRequest) (error_description : option bytes) : OAuthHttpResponse :=
  let metadata_url := build_resource_metadata_url (bg_base_url r) (bg_resource_path r) in
  let header_value := html "Bearer resource_metadata=`" ++ metadata_url ++ html "`" in
  let '(header_value, b) :=
    match error_description with
    | Some description =>
        (header_value ++ html ", error=`" ++ ERROR_INVALID_TOKEN ++ html "`, error_description=`"
           ++ map (fun c => if decide (c = Byte.x22) then Byte.x27 else c) description ++ html "`",
         error_body ERROR_INVALID_TOKEN description)
    | None => (header_value, error_body ERROR_INVALID_TOKEN (bs "Authorization is required"))
    end in
  add_header (bs "WWW-Authenticate") header_value (response_json 401 b).

Definition check_bearer (ctx : OAuthContext) (now : Z) (r : BearerGateRequest) :
    outcome bytes BearerGateResult :=
  token ← bearer_token (bg_authorization r);
  match token with
  | None => Ok (Challenge (challenge r None))
  | Some token =>
      match verify now (signer_key ctx) token Access with
      | None => Ok (Challenge (challenge r (Some (bs "The access token is invalid or has expired"))))
      | Some verified =>
          match audience verified with
          | Some aud =>
              if negb (audience_allows aud (bg_base_url r) (bg_resource_path r)) then
                Ok (Challenge (challenge r
                      (Some (bs "The access token was issued for a different resource"))))
              else Ok Allowed
          | None => Ok Allowed
          end
      end
  end.

End Server.

End OAuth.
