(* ===== verification/OAuthServerSpec.v ===== *)
(** * What the OAuth server promises

    Safety of redirects, of code issuance and of token issuance, the exact
    condition under which the gate lets a request through, and the confinement
    of a token to its audience. *)

From Stdlib Require Import ZArith Lia Strings.Byte.
From stdpp Require Import base tactics list gmap strings.
From S2P Require Import Prelude RustStd OAuthForm OAuthTokens OAuthServer.

Local Open Scope Z_scope.

Module OAuthSpec.
Import Route Tokens OAuth.

(** ** Redirect targets *)

Definition port_ok (p : bytes) : Prop := p = [] \/ is_Some (Str.parse_uint 65535 p).

(** [http://], a loopback host, an optional port, an optional path. *)
Definition loopback_uri (uri : bytes) : Prop :=
  exists host port path,
    uri = bs "http://" ++ host ++ port ++ path /\ host ∈ loopback_hosts /\
    (port = [] /\ host <> bs "[::1]" \/ exists p, port = Byte.x3a :: p /\ port_ok p) /\
    (path = [] \/ exists q, path = Byte.x2f :: q) /\ Byte.x40 ∉ path.

Lemma digits_value_bytes l acc v b :
  Str.digits_value l acc = Some v -> b ∈ l -> Str.is_digit b = true.
Proof.
  revert acc. induction l as [|c l IH]; intros acc; simpl; [by intros _ ?%not_elem_of_nil|].
  destruct (Str.is_digit c) eqn:Hc; [|done]. intros Hv [->|Hb]%elem_of_cons; [done|by eapply IH].
Qed.

Lemma parse_uint_bytes max l v b :
  Str.parse_uint max l = Some v -> b ∈ l -> b = Byte.x2b \/ Str.is_digit b = true.
Proof.
  unfold Str.parse_uint. intros Hv Hb. destruct l as [|c l]; [done|].
  case_bool_decide as Hc.
  - apply elem_of_cons in Hb as [->|Hb]; [by left|]. right.
    destruct l as [|c' l]; [done|]. destruct (Str.digits_value (c' :: l) 0) eqn:He; [|done].
    by eapply digits_value_bytes.
  - right. destruct (Str.digits_value (c :: l) 0) eqn:He; [|done]. by eapply digits_value_bytes.
Qed.

Lemma port_ok_bytes p b :
  port_ok p -> b ∈ p -> b <> Byte.x3a /\ b <> Byte.x2f /\ b <> Byte.x40.
Proof.
  intros [->|[v Hv]] Hb; [by apply not_elem_of_nil in Hb|].
  destruct (parse_uint_bytes _ _ _ _ Hv Hb) as [->|Hd]; [done|].
  split_and!; intros ->; by vm_compute in Hd.
Qed.

Lemma rsplit_once_None c l : c ∉ l -> Str.rsplit_once c l = None.
Proof.
  intros Hc. unfold Str.rsplit_once.
  assert (Str.find c (rev l) = None) as ->; [|done].
  apply Str.find_None. by rewrite list_elem_of_In, <-in_rev, <-list_elem_of_In.
Qed.

Lemma split_once_None c l : c ∉ l -> Str.split_once c l = None.
Proof. intros Hc%Str.find_None. unfold Str.split_once. by rewrite Hc. Qed.

Lemma rsplit_once_None_inv c l : Str.rsplit_once c l = None -> c ∉ l.
Proof.
  unfold Str.rsplit_once. destruct (Str.find c (rev l)) eqn:Hf; [done|]. intros _.
  apply Str.find_None in Hf. by rewrite list_elem_of_In, in_rev, <-list_elem_of_In.
Qed.

Lemma split_once_None_inv c l : Str.split_once c l = None -> c ∉ l.
Proof. unfold Str.split_once. destruct (Str.find c l) eqn:Hf; [done|]. by rewrite <-Str.find_None. Qed.

Definition byte_in (b : byte) (l : bytes) : bool := existsb (Byte.eqb b) l.

Lemma byte_in_false b l : byte_in b l = false -> b ∉ l.
Proof.
  unfold byte_in. intros Hf Hin. apply list_elem_of_In in Hin.
  assert (existsb (Byte.eqb b) l = true) as Ht; [|congruence].
  apply existsb_exists. exists b. split; [done|]. by apply Byte.byte_dec_lb.
Qed.

Lemma loopback_host_bytes host :
  host ∈ loopback_hosts ->
  Byte.x2f ∉ host /\ Byte.x40 ∉ host /\ (host <> bs "[::1]" -> Byte.x3a ∉ host).
Proof.
  unfold loopback_hosts. rewrite !elem_of_cons, elem_of_nil.
  intros [->|[->|[->|[]]]]; split_and!; try (apply byte_in_false; vm_compute; reflexivity);
    intros Hne; (done || (apply byte_in_false; vm_compute; reflexivity)).
Qed.

Lemma loopback_host_colon host : host ∈ loopback_hosts -> Byte.x3a ∉ host -> host <> bs "[::1]".
Proof. intros _ Hc ->. apply Hc. apply list_elem_of_In. vm_compute. auto. Qed.

Lemma is_loopback_redirect_iff uri : is_loopback_redirect uri = true <-> loopback_uri uri.
Proof.
  unfold is_loopback_redirect. split.
  - destruct (Str.strip_prefix (bs "http://") uri) as [rest|] eqn:Hs; [|done].
    apply Str.strip_prefix_Some in Hs as ->.
    destruct (Str.contains Byte.x40 rest) eqn:Hat; [done|]. apply Str.contains_false in Hat.
    assert (exists hp path, rest = hp ++ path /\ (path = [] \/ exists q, path = Byte.x2f :: q) /\
      (match Str.split_once Byte.x2f rest with Some (h, _) => h | None => rest end) = hp) as (hp & path & -> & Hp & Hhp).
    { destruct (Str.split_once Byte.x2f rest) as [[h q]|] eqn:Hq.
      - apply Str.split_once_Some in Hq as [-> _]. exists h, (Byte.x2f :: q). eauto.
      - exists rest, []. rewrite app_nil_r. eauto. }
    rewrite Hhp. apply not_elem_of_app in Hat as [_ Hat].
    destruct (Str.rsplit_once Byte.x3a hp) as [[host port]|] eqn:Hr.
    + apply Str.rsplit_once_Some in Hr as [-> Hport].
      destruct (negb (bool_decide (port = [])) && _) eqn:Hpo; [done|].
      destruct (bool_decide (host ∈ loopback_hosts)) eqn:Hh; [|done]. apply bool_decide_eq_true in Hh.
      intros _. exists host, (Byte.x3a :: port), path. rewrite <-app_assoc. split_and!; try done.
      right. exists port. split; [done|]. unfold port_ok.
      apply andb_false_iff in Hpo as [Hpo|Hpo].
      * left. apply negb_false_iff in Hpo. by apply bool_decide_eq_true in Hpo.
      * right. by destruct (Str.parse_uint 65535 port).
    + destruct (bool_decide (hp ∈ loopback_hosts)) eqn:Hh; [|done]. apply bool_decide_eq_true in Hh.
      intros _. exists hp, [], path. split_and!; try done.
      left. split; [done|]. apply loopback_host_colon; [done|]. by apply rsplit_once_None_inv.
  - intros (host & port & path & -> & Hh & Hport & Hpath & Hat).
    rewrite (proj2 (Str.strip_prefix_Some _ _ (host ++ port ++ path)) eq_refl).
    destruct (loopback_host_bytes _ Hh) as (Hsl & Hhat & Hcol).
    assert (Byte.x40 ∉ port /\ Byte.x2f ∉ port) as [Hpat Hpsl].
    { destruct Hport as [[-> _]|(p & -> & Hp)]; [split; apply not_elem_of_nil|].
      split; intros [Hc|Hc]%elem_of_cons; try done; apply (port_ok_bytes p _ Hp) in Hc; naive_solver. }
    assert (Str.contains Byte.x40 (host ++ port ++ path) = false) as ->.
    { apply Str.contains_false. rewrite !elem_of_app. naive_solver. }
    assert ((match Str.split_once Byte.x2f (host ++ port ++ path) with Some (h, _) => h
             | None => host ++ port ++ path end) = host ++ port) as ->.
    { destruct Hpath as [->|[q ->]].
      - rewrite app_nil_r. rewrite split_once_None; [done|]. rewrite elem_of_app. naive_solver.
      - rewrite (assoc_L (++)), Str.split_once_app; [done|]. rewrite elem_of_app. naive_solver. }
    destruct Hport as [[-> Hne]|(p & -> & Hp)].
    + rewrite app_nil_r, rsplit_once_None by auto. by apply bool_decide_eq_true_2.
    + rewrite Str.rsplit_once_app by (intros Hc; apply (port_ok_bytes p _ Hp) in Hc; naive_solver).
      assert (negb (bool_decide (p = [])) && match Str.parse_uint 65535 p with Some _ => false | None => true end
              = false) as ->.
      { apply andb_false_iff. destruct Hp as [->|[v ->]]; [by left|by right]. }
      by apply bool_decide_eq_true_2.
Qed.

(** A code is only ever sent to the hosted callback or to a plain-http
    loopback address: the accepted redirect targets are exactly the Claude
    callback and [http://], one of the three loopback hosts, an optional
    [u16] port and an optional path without an at sign, except that the
    IPv6 literal is accepted only with a port. *)
Theorem redirect_targets uri :
  is_allowed_redirect_uri uri = true <-> uri = CLAUDE_REDIRECT_URI \/ loopback_uri uri.
Proof.
  unfold is_allowed_redirect_uri. case_decide; [naive_solver|].
  rewrite is_loopback_redirect_iff. naive_solver.
Qed.

(** ** The endpoints *)

Section Endpoints.
Context `{OAuthLibs} `{SerdeJson}.
Context (order : gmap bytes AuthCodes.AuthCode -> list (bytes * AuthCodes.AuthCode)).

(** What an accepted request is known to satisfy. *)
Record authorized_params (ctx : OAuthContext) (ps : gmap bytes bytes) (base : bytes)
    (v : ValidatedAuthorizeRequest) : Prop := {
  ap_client : Str.trim (get ps (bs "client_id")) = Str.trim (client_id (settings ctx));
  ap_redirect : is_allowed_redirect_uri (v_redirect_uri v) = true;
  ap_redirect_eq : v_redirect_uri v = get ps (bs "redirect_uri");
  ap_challenge : v_code_challenge v = get ps (bs "code_challenge") /\ v_code_challenge v <> [];
  ap_scope : v_granted_scope v = granted_scope (ps !! bs "scope");
  ap_resource : forall r, v_resource v = Some r ->
    ps !! bs "resource" = Some r /\ base `prefix_of` Str.trim_end_matches Byte.x2f r
}.

(** A rejection is either a page or a redirect to a checked target. *)
Definition safe_redirect (ctx : OAuthContext) (ps : gmap bytes bytes) (resp : OAuthHttpResponse) : Prop :=
  forall loc, (bs "Location", loc) ∈ headers resp ->
    status_code resp = 302 /\
    Str.trim (get ps (bs "client_id")) = Str.trim (client_id (settings ctx)) /\
    exists uri q, uri = get ps (bs "redirect_uri") /\ is_allowed_redirect_uri uri = true /\
      loc = append_query uri ++ q.

Lemma html_no_location status b ctx ps : safe_redirect ctx ps (response_html status b).
Proof.
  intros loc. simpl. rewrite list_elem_of_singleton. by intros [=].
Qed.

Lemma safe_credential_failure ctx ps r : safe_redirect ctx ps r -> safe_redirect ctx ps (into_credential_failure r).
Proof. done. Qed.

Lemma redirect_safe ctx ps uri q :
  check_client_id ctx (get ps (bs "client_id")) = true -> uri = get ps (bs "redirect_uri") ->
  is_allowed_redirect_uri uri = true ->
  safe_redirect ctx ps (response_redirect (append_query uri ++ q)).
Proof.
  intros Hc Hu Ha loc. simpl. rewrite !elem_of_cons, elem_of_nil.
  intros [[= ->]|[[=]|[]]].
  split; [done|]. split; [by apply Form.constant_time_eq_iff|]. by exists uri, q.
Qed.

Lemma non_empty_Some o r : non_empty o = Some r -> o = Some r.
Proof. destruct o as [[|]|]; simpl; naive_solver. Qed.

Lemma validate_spec ctx ps base :
  match validate ctx ps base with
  | Accepted v => authorized_params ctx ps base v
  | Rejected r => safe_redirect ctx ps r
  end.
Proof.
  unfold validate. cbv zeta.
  destruct (check_client_id ctx (get ps (bs "client_id"))) eqn:Hc; cbn [negb].
  2:{ apply safe_credential_failure, html_no_location. }
  destruct (is_allowed_redirect_uri (get ps (bs "redirect_uri"))) eqn:Hr; cbn [negb];
    [|apply html_no_location].
  assert (forall st e d, safe_redirect ctx ps (redirect_with_error (get ps (bs "redirect_uri")) st e d)) as Hre
    by (intros; by apply redirect_safe).
  destruct (decide (get ps (bs "response_type") <> bs "code")); [apply Hre|].
  destruct (decide (get ps (bs "code_challenge") = [])) as [|Hch]; [apply Hre|].
  destruct (negb (Str.eq_ignore_ascii_case _ _)); [apply Hre|].
  destruct (non_empty (ps !! bs "resource")) as [r|] eqn:Hres.
  - destruct (Str.starts_with base (Str.trim_end_matches Byte.x2f r)) eqn:Hb; cbn [negb]; [|apply Hre].
    split; try done; [by apply Form.constant_time_eq_iff|]. intros r' [= <-].
    split; [by apply non_empty_Some|]. by apply Str.starts_with_spec.
  - split; try done. by apply Form.constant_time_eq_iff.
Qed.

(** C24: the authorize endpoint is no open redirector and issues a code only
    for a checked request with the consent password: every Location it sends
    is an accepted redirect target of a request with the configured client
    id, and the code store changes only by a POST that carries the password,
    which stores under the fresh code exactly the validated redirect target,
    challenge and granted scope. *)
Theorem authorize_safe ctx now code r codes resp codes' :
  handle_authorize order ctx now code r codes = (resp, codes') ->
  safe_redirect ctx (parameters r) resp /\
  (codes' = codes \/
   exists v, method r = Post /\
     Str.trim (get (parameters r) (bs "consent_password")) = Str.trim (consent_password (settings ctx)) /\
     authorized_params ctx (parameters r) (base_url ctx (req_base_url r)) v /\
     status_code resp = 302 /\ codes' = AuthCodes.issue order now code (issued_of v) codes).
Proof.
  pose proof (validate_spec ctx (parameters r) (base_url ctx (req_base_url r))) as Hv.
  unfold handle_authorize. destruct (method r) eqn:Hm.
  - destruct (validate _ _ _) as [v|resp0]; cbn [decide decide_rel].
    + rewrite decide_True by done. intros [= <- <-]. split; [apply html_no_location|by left].
    + intros [= <- <-]. by split; [|left].
  - destruct (validate _ _ _) as [v|resp0].
    + rewrite decide_False by done.
      destruct (check_consent_password ctx _) eqn:Hp; cbn [negb].
      * intros [= <- <-]. split.
        { apply redirect_safe; try apply Hv. apply Form.constant_time_eq_iff. apply Hv. }
        right. exists v. split_and!; try done. by apply Form.constant_time_eq_iff in Hp.
      * intros [= <- <-]. split; [apply safe_credential_failure, html_no_location|by left].
    + intros [= <- <-]. by split; [|left].
  - intros [= <- <-]. split; [|by left]. intros loc. simpl. rewrite !elem_of_cons, elem_of_nil.
    by intros [[=]|[[=]|[[=]|[]]]].
Qed.

(** *** Token issuance *)

(** A 200 answer carries tokens minted for [sc] and [aud]. *)
Definition issues_tokens (oc : bool) (now : Z) (ctx : OAuthContext) (sc : bytes) (aud : option bytes)
    (resp : OAuthHttpResponse) : Prop :=
  exists minted, mint_tokens oc now ctx sc aud = Ok minted /\ resp = response_json 200 (token_response_body minted).

Lemma mint_response_200 oc now ctx sc aud resp :
  mint_response oc now ctx sc aud = Ok resp -> status_code resp = 200 ->
  issues_tokens oc now ctx sc aud resp.
Proof.
  unfold mint_response, issues_tokens. destruct (mint_tokens oc now ctx sc aud) as [m|e|]; [| |done].
  - intros [= <-] _. by exists m.
  - by intros [= <-].
Qed.

Definition client_proved (ctx : OAuthContext) (r : OAuthRequest) : Prop :=
  exists p, presented_client (authorization r) (parameters r) = Ok (Some p) /\
    matches_client_id ctx (p_client_id p) = true /\ matches_client_secret ctx (p_client_secret p) = true.

Lemma exchange_200 oc now ctx ps codes codes' resp :
  exchange_authorization_code oc now ctx ps codes = (codes', Ok resp) -> status_code resp = 200 ->
  exists issued,
    AuthCodes.redeem now (get ps (bs "code")) codes = (Some issued, codes') /\
    get ps (bs "redirect_uri") = AuthCodes.redirect_uri issued /\
    AuthCodes.code_challenge issued = base64_url_encode (Sha256_digest (get ps (bs "code_verifier"))) /\
    issues_tokens oc now ctx (AuthCodes.scope issued) (AuthCodes.resource issued) resp.
Proof.
  unfold exchange_authorization_code. case_decide; [by intros [= _ <-]|].
  destruct (AuthCodes.redeem now _ codes) as [[issued|] m] eqn:Hr; [|by intros [= _ <-]].
  case_decide as Hu; [by intros [= _ <-]|]. case_decide; [by intros [= _ <-]|].
  destruct (verify_s256 _ _) eqn:Hv; cbn [negb]; [|by intros [= _ <-]].
  intros [= <- Hm] H200. exists issued. apply verify_s256_iff in Hv as (_ & _ & Hv).
  split_and!; try done. by apply mint_response_200.
Qed.

Lemma refresh_200 oc now ctx ps resp :
  refresh oc now ctx ps = Ok resp -> status_code resp = 200 ->
  exists v, verify now (signer_key ctx) (get ps (bs "refresh_token")) Refresh = Some v /\
            issues_tokens oc now ctx (scope v) (audience v) resp.
Proof.
  unfold refresh. case_decide; [by intros [= <-]|].
  destruct (verify _ _ _ _) as [v|]; [|by intros [= <-]].
  intros Hm H200. exists v. split; [done|]. by apply mint_response_200.
Qed.

(** What a successful redemption does to the store: the code was there and
    live, and it is the live rest that stays. *)
Lemma redeem_spends now code codes issued codes' :
  AuthCodes.redeem now code codes = (Some issued, codes') ->
  codes !! code = Some issued /\ now < AuthCodes.expires_at_sec issued /\ codes' !! code = None /\
  forall other i, other <> code ->
    codes' !! other = Some i <-> codes !! other = Some i /\ now < AuthCodes.expires_at_sec i.
Proof.
  unfold AuthCodes.redeem, AuthCodes.take.
  destruct (AuthCodes.remove_expired now codes !! code) as [i|] eqn:Hc; [|done]. intros [= He <-].
  destruct (Z.leb_spec (AuthCodes.expires_at_sec i) now); [done|]. injection He as ->.
  apply AuthCodes.remove_expired_lookup in Hc as [Hc Hl]. split_and!; [done|done|apply lookup_delete_eq|].
  intros other i Hne. rewrite lookup_delete_ne by done. unfold AuthCodes.remove_expired.
  by rewrite map_lookup_filter_Some.
Qed.

(** C22: tokens are issued only to a client that presented the configured
    id and secret, and only for a live authorization code whose redirect
    target and PKCE challenge match, or for a live refresh token signed by
    this server; they carry the scope and resource that were granted, never
    more.  A code that was exchanged is gone from the store afterwards, where
    of the other codes exactly the live ones stay. *)
Theorem token_issuance oc ctx now r codes codes' resp :
  handle_token oc ctx now r codes = (codes', Ok resp) -> status_code resp = 200 ->
  method r = Post /\ client_proved ctx r /\
  ((exists issued,
      let code := get (parameters r) (bs "code") in
      parameters r !! bs "grant_type" = Some (bs "authorization_code") /\
      codes !! code = Some issued /\ now < AuthCodes.expires_at_sec issued /\
      codes' !! code = None /\
      (forall other i, other <> code ->
         codes' !! other = Some i <-> codes !! other = Some i /\ now < AuthCodes.expires_at_sec i) /\
      get (parameters r) (bs "redirect_uri") = AuthCodes.redirect_uri issued /\
      AuthCodes.code_challenge issued =
        base64_url_encode (Sha256_digest (get (parameters r) (bs "code_verifier"))) /\
      issues_tokens oc now ctx (AuthCodes.scope issued) (AuthCodes.resource issued) resp) \/
   (exists v,
      parameters r !! bs "grant_type" = Some (bs "refresh_token") /\ codes' = codes /\
      verify now (signer_key ctx) (get (parameters r) (bs "refresh_token")) Refresh = Some v /\
      issues_tokens oc now ctx (scope v) (audience v) resp)).
Proof.
  unfold handle_token. case_decide as Hm; [by intros [= _ <-]|]. case_decide; [by intros [= _ <-]|].
  destruct (presented_client _ _) as [[p|]| |] eqn:Hp; [|by intros [= _ <-]|done|done].
  destruct (_ || _) eqn:Hc; [by intros [= _ <-]; destruct (from_basic p)|].
  apply orb_false_iff in Hc as [Hi Hs]. apply negb_false_iff in Hi, Hs.
  destruct (parameters r !! bs "grant_type") as [g|] eqn:Hg; [|by intros [= _ <-]].
  case_decide as Hga; [|case_decide as Hgr; [|by intros [= _ <-]]].
  - intros He H200. split; [done|]. split; [by exists p|]. left.
    apply exchange_200 in He as (issued & Hr & ? & ? & ?); [|done]. exists issued.
    apply redeem_spends in Hr as (? & ? & ? & ?). by subst g.
  - intros [= <- He] H200. split; [done|]. split; [by exists p|]. right.
    apply refresh_200 in He as (v & ? & ?); [|done]. exists v. by subst g.
Qed.

Lemma take_gone now code codes res codes' :
  AuthCodes.take now code codes = (res, codes') -> codes' !! code = None.
Proof.
  unfold AuthCodes.take. destruct (AuthCodes.remove_expired now codes !! code) eqn:Hc; intros [= _ <-].
  - apply lookup_delete_eq.
  - done.
Qed.

Lemma redeem_absent now code codes : codes !! code = None -> fst (AuthCodes.redeem now code codes) = None.
Proof.
  intros Hn. unfold AuthCodes.redeem, AuthCodes.take.
  destruct (AuthCodes.remove_expired now codes !! code) eqn:Hc; [|done].
  apply AuthCodes.remove_expired_lookup in Hc as [Hc _]. congruence.
Qed.

(** A code is spent by the first exchange that names it, successful or
    not: once a request with proved client credentials has presented a code
    for exchange, no later exchange of the same code gets tokens. *)
Theorem code_replay_fails oc ctx now now' r r' codes codes' codes'' resp resp' :
  handle_token oc ctx now r codes = (codes', Ok resp) ->
  client_proved ctx r -> method r = Post ->
  parameters r !! bs "grant_type" = Some (bs "authorization_code") ->
  parameters r' !! bs "grant_type" = Some (bs "authorization_code") ->
  get (parameters r') (bs "code") = get (parameters r) (bs "code") ->
  handle_token oc ctx now' r' codes' = (codes'', Ok resp') ->
  status_code resp' <> 200.
Proof.
  clear order. intros H1 (p & Hp & Hi & Hs) Hm Hg Hg' Hsame H2 H200.
  assert (bs "authorization_code" <> bs "refresh_token") as Hne
    by (intros He%(f_equal length); by vm_compute in He).
  assert (get (parameters r) (bs "code") = [] \/ codes' !! get (parameters r) (bs "code") = None) as Hgone.
  { unfold handle_token in H1. rewrite decide_False in H1 by tauto.
    rewrite decide_False in H1 by (intros He; by rewrite He, lookup_empty in Hg).
    rewrite Hp, Hi, Hs, Hg in H1. cbn [negb orb] in H1. rewrite decide_True in H1 by done.
    unfold exchange_authorization_code in H1. case_decide; [by left|]. right.
    destruct (AuthCodes.redeem now _ codes) as [o m] eqn:Hr.
    apply take_gone in Hr. destruct o; by injection H1 as <- _. }
  assert (exists issued, AuthCodes.redeem now' (get (parameters r') (bs "code")) codes' = (Some issued, codes'')
          /\ get (parameters r') (bs "code") <> []) as (issued & Hr & Hnn).
  { unfold handle_token in H2. case_decide; [by injection H2 as _ <-|]. case_decide; [by injection H2 as _ <-|].
    destruct (presented_client _ (parameters r')) as [[p'|]| |]; [|by injection H2 as _ <-|done|done].
    destruct (_ || _); [injection H2 as _ <-; by destruct (from_basic p')|].
    rewrite Hg', decide_True in H2 by done.
    pose proof (exchange_200 _ _ _ _ _ _ _ H2 H200) as (issued & Hr & _). exists issued. split; [done|].
    unfold exchange_authorization_code in H2. case_decide; [by injection H2 as _ <-|done]. }
  rewrite Hsame in Hr, Hnn. destruct Hgone as [|Hgone]; [done|].
  apply (redeem_absent now') in Hgone. by rewrite Hr in Hgone.
Qed.

(** *** The gate *)

(** The value of the challenge header names the metadata of the resource. *)
Definition names_metadata (r : BearerGateRequest) (v : bytes) : Prop :=
  html "Bearer resource_metadata=`" ++ build_resource_metadata_url (bg_base_url r) (bg_resource_path r) ++ html "`"
    `prefix_of` v.

Definition challenged (r : BearerGateRequest) (resp : OAuthHttpResponse) : Prop :=
  status_code resp = 401 /\ exists v, (bs "WWW-Authenticate", v) ∈ headers resp /\ names_metadata r v.

Lemma challenge_401 r d : challenged r (challenge r d).
Proof.
  unfold challenged, challenge, names_metadata.
  destruct d; (split; [reflexivity|]); cbn [headers add_header]; eexists;
    (split; [apply elem_of_app; right; by apply list_elem_of_singleton|]).
  - by apply prefix_app_r.
  - done.
Qed.

(** The token an Authorization header carries: what is left of it, trimmed,
    behind [Bearer] in any case and a blank. *)
Definition carries (authorization : option bytes) (token : bytes) : Prop :=
  exists a scheme rest, authorization = Some a /\ Str.trim a = scheme ++ rest /\
    Str.eq_ignore_ascii_case scheme (bs "Bearer ") = true /\ Utf8.is_char_boundary (Str.trim a) 7 = true /\
    token = Str.trim rest /\ token <> [].

(** A header whose first seven bytes end inside a character. *)
Definition torn (authorization : option bytes) : Prop :=
  exists a, authorization = Some a /\ (7 < length (Str.trim a))%nat /\ Utf8.is_char_boundary (Str.trim a) 7 = false.

Lemma trim_nil : Str.trim [] = [].
Proof. done. Qed.

Lemma carries_parts a scheme rest :
  Str.trim a = scheme ++ rest -> Str.eq_ignore_ascii_case scheme (bs "Bearer ") = true -> Str.trim rest <> [] ->
  (7 < length (Str.trim a))%nat /\ scheme = take 7 (Str.trim a) /\ rest = drop 7 (Str.trim a).
Proof.
  intros -> Hs Hr. apply Str.eq_ignore_length in Hs. change (length (bs "Bearer ")) with 7%nat in Hs.
  split_and!; [|by rewrite take_app_length'|by rewrite drop_app_length'].
  rewrite length_app, Hs. destruct rest; [by rewrite trim_nil in Hr|cbn; lia].
Qed.

Lemma bearer_token_carries authorization :
  match bearer_token authorization with
  | Ok (Some token) => carries authorization token
  | Ok None => (forall token, ~ carries authorization token) /\ ~ torn authorization
  | Panic => torn authorization
  | Err _ => False
  end.
Proof.
  unfold bearer_token. destruct authorization as [a|]; [|split; [by intros ? (? & ? & ? & ? & _)|by intros (? & ? & _)]].
  case_decide as Hl.
  { split; [|intros (a' & [= <-] & ? & _); lia].
    intros t (a' & scheme & rest & [= <-] & Ha & Hs & _ & -> & Hr).
    destruct (carries_parts _ _ _ Ha Hs Hr) as (? & _). lia. }
  unfold Str.str_slice_to, Str.str_slice_from. destruct (Utf8.is_char_boundary (Str.trim a) 7) eqn:Hb;
    cbn [mbind outcome_bind]; [|exists a; split_and!; [done|lia|done]].
  assert (~ torn (Some a)) as Hnt by (intros (a' & [= <-] & _ & Hb'); congruence).
  destruct (Str.eq_ignore_ascii_case (take 7 (Str.trim a)) (bs "Bearer ")) eqn:Hs; cbn [negb].
  - cbn [mbind outcome_bind]. case_decide as Ht.
    + split; [|done]. intros t (a' & scheme & rest & [= <-] & Ha & Hs' & _ & -> & Hr).
      destruct (carries_parts _ _ _ Ha Hs' Hr) as (_ & _ & ->). done.
    + exists a, (take 7 (Str.trim a)), (drop 7 (Str.trim a)). split_and!; try done. by rewrite take_drop.
  - split; [|done]. intros t (a' & scheme & rest & [= <-] & Ha & Hs' & _ & -> & Hr).
    destruct (carries_parts _ _ _ Ha Hs' Hr) as (_ & -> & _). congruence.
Qed.

Lemma carries_unique authorization t t' : carries authorization t -> carries authorization t' -> t = t'.
Proof.
  intros (a & s & r & -> & Ha & Hs & _ & -> & Hr) (a' & s' & r' & [= <-] & Ha' & Hs' & _ & -> & Hr').
  destruct (carries_parts _ _ _ Ha Hs Hr) as (_ & _ & ->). by destruct (carries_parts _ _ _ Ha' Hs' Hr') as (_ & _ & ->).
Qed.

(** The header carries a live access token whose audience, if it has one,
    covers the location. *)
Definition passes (ctx : OAuthContext) (now : Z) (r : BearerGateRequest) : Prop :=
  exists token v, carries (bg_authorization r) token /\ verify now (signer_key ctx) token Access = Some v /\
    forall aud, audience v = Some aud -> audience_allows aud (bg_base_url r) (bg_resource_path r) = true.

(** C23: a proxied request passes the gate exactly when its Authorization
    header is Bearer, in any case, and a token that verifies as a live access
    token and whose audience, if it has one, covers the location.  The only
    other request that is not answered is one whose header has its seventh
    byte inside a character, which panics; every other request gets a 401
    whose WWW-Authenticate header names the resource's metadata. *)
Theorem gate_exact ctx now r :
  (check_bearer ctx now r = Ok Allowed <-> passes ctx now r) /\
  (check_bearer ctx now r = Panic <-> torn (bg_authorization r)) /\
  (~ passes ctx now r -> ~ torn (bg_authorization r) ->
   exists resp, check_bearer ctx now r = Ok (Challenge resp) /\ challenged r resp).
Proof.
  unfold check_bearer, passes. pose proof (bearer_token_carries (bg_authorization r)) as Hb.
  destruct (bearer_token (bg_authorization r)) as [[token|]|e|]; cbn [mbind outcome_bind]; [| |done|].
  - assert (~ torn (bg_authorization r)) as Hnt.
    { intros (a & Ha & _ & Hc). destruct Hb as (a' & s & rest & Ha' & _ & _ & Hc' & _). congruence. }
    assert (forall t, carries (bg_authorization r) t -> t = token) as Hu by (intros; by eapply carries_unique).
    destruct (verify now (signer_key ctx) token Access) as [v|] eqn:Hv;
      [destruct (audience v) as [aud|] eqn:Ha; [destruct (audience_allows aud _ _) eqn:Hal; cbn [negb]|]|].
    + split_and!; [split; [intros _|done]|done|intros []]; exists token, v; split_and!; try done; intros; congruence.
    + split_and!; [split; [done|]|done|intros _ _; eexists; split; [done|apply challenge_401]].
      intros (t & v' & ->%Hu & Hv' & Hall). rewrite Hv in Hv'. injection Hv' as <-. specialize (Hall _ Ha). congruence.
    + split_and!; [split; [intros _|done]|done|intros []]; exists token, v; split_and!; try done; intros; congruence.
    + split_and!; [split; [done|]|done|intros _ _; eexists; split; [done|apply challenge_401]].
      intros (t & v' & ->%Hu & Hv' & _). congruence.
  - destruct Hb as [Hb Hnt]. split_and!; [split; [done|]|done|intros _ _; eexists; split; [done|apply challenge_401]].
    intros (t & v & Hc & _). by destruct (Hb t).
  - split_and!; [split; [done|]|done|done]. destruct Hb as (a & Ha & _ & Hc).
    intros (t & v & (a' & s & rest & Ha' & _ & _ & Hc' & _) & _). congruence.
Qed.

End Endpoints.

(** ** Audiences *)

(** A token with an audience is confined to it: it opens only locations
    whose path, ignoring ASCII case, is the audience's path below this
    server's origin or continues it with a slash; only an audience that is
    the bare origin opens everything, and an audience of another host that
    merely begins with this origin opens nothing. *)
Theorem audience_confined audience base resource_path :
  audience_allows audience base resource_path = true ->
  let aud := Str.trim_end_matches Byte.x2f audience in
  let base := Str.trim_end_matches Byte.x2f base in
  let path := if decide (resource_path = []) then bs "/" else resource_path in
  exists aud_path, aud = base ++ aud_path /\
    (aud_path = [] \/ aud_path = bs "/" \/
     bs "/" `prefix_of` aud_path /\
     exists rest, Str.lower path = Str.lower aud_path ++ rest /\ (rest = [] \/ bs "/" `prefix_of` rest)).
Proof.
  unfold audience_allows. cbv zeta. set (p := if decide (resource_path = []) then _ else _).
  destruct (Str.strip_prefix _ _) as [ap|] eqn:Hs; [|done]. apply Str.strip_prefix_Some in Hs.
  case_decide as He; [intros _; exists ap; naive_solver|].
  destruct (Str.starts_with (bs "/") ap) eqn:Hsl; cbn [negb]; [|done].
  apply Str.starts_with_spec in Hsl.
  intros Hok. exists ap. split; [done|]. right; right. split; [done|].
  destruct (Str.eq_ignore_ascii_case p ap) eqn:Heq.
  - apply bool_decide_eq_true in Heq. exists []. rewrite app_nil_r. auto.
  - unfold Str.get_to in Hok. destruct (Utf8.is_char_boundary p (length ap)); [|done].
    apply andb_prop in Hok as [H1 H2]. apply bool_decide_eq_true in H1, H2.
    exists (Str.lower (drop (length ap) p)). split.
    + rewrite <-(take_drop (length ap) p) at 1. unfold Str.lower in *. by rewrite map_app, H1.
    + right. rewrite (drop_S p _ _ H2). exists (Str.lower (drop (S (length ap)) p)).
      simpl. vm_compute (bs "/"). reflexivity.
Qed.

(** ** A concrete run of the whole flow *)

#[local] Existing Instance ToyLibs.toy_libs.
#[local] Instance toy_json : SerdeJson := {| json_to_vec := fun _ => Some (bs "{}") |}.

Definition w_ctx : OAuthContext :=
  context_new {| client_id := bs "cid"; client_secret := bs "sec"; consent_password := bs "pw";
                 set_public_url := None; set_signing_key := None; set_signing_key_file := None; set_access_token_ttl_sec := None;
                 set_refresh_token_ttl_sec := None |} (bs "key").

Definition w_redirect : bytes := bs "http://localhost:8080/cb".
Definition w_challenge : bytes := base64_url_encode (Sha256_digest (bs "verifier")).

Definition w_post (rt : OAuthRoute) (kvs : list (bytes * bytes)) : OAuthRequest :=
  {| method := Post; route := rt; req_base_url := bs "https://h"; query := None;
     body := Form.form_encode kvs; content_type := None; authorization := None;
     known_resource_paths := [bs "/mt"] |}.

Definition w_authorize : OAuthRequest := w_post Authorize
  [(bs "client_id", bs "cid"); (bs "redirect_uri", w_redirect); (bs "response_type", bs "code");
   (bs "code_challenge", w_challenge); (bs "scope", bs "offline_access");
   (bs "resource", bs "https://h/mt"); (bs "consent_password", bs "pw")].

Definition w_exchange : OAuthRequest := w_post Token
  [(bs "client_id", bs "cid"); (bs "client_secret", bs "sec"); (bs "grant_type", bs "authorization_code");
   (bs "code", bs "C"); (bs "redirect_uri", w_redirect); (bs "code_verifier", bs "verifier")].

Definition w_issued := handle_authorize map_to_list w_ctx 0 (bs "C") w_authorize ∅.
Definition w_answer := handle_token true w_ctx 0 w_exchange (snd w_issued).

Definition w_response (x : gmap bytes AuthCodes.AuthCode * outcome bytes OAuthHttpResponse) : OAuthHttpResponse :=
  match snd x with Ok r => r | _ => response_html 0 [] end.

Lemma w_answer_eq :
  handle_token true w_ctx 0 w_exchange (snd w_issued) = (fst w_answer, Ok (w_response w_answer)).
Proof. vm_compute. reflexivity. Qed.

Lemma w_answer_200 : status_code (w_response w_answer) = 200.
Proof. vm_compute. reflexivity. Qed.

Lemma authorize_safe_witness :
  status_code (fst w_issued) = 302 /\ safe_redirect w_ctx (parameters w_authorize) (fst w_issued).
Proof.
  split; [vm_compute; reflexivity|].
  apply (authorize_safe map_to_list w_ctx 0 (bs "C") w_authorize ∅ (fst w_issued) (snd w_issued)).
  unfold w_issued. destruct (handle_authorize _ _ _ _ _ _); reflexivity.
Defined.

Lemma token_issuance_witness : method w_exchange = Post /\ client_proved w_ctx w_exchange.
Proof.
  destruct (token_issuance true w_ctx 0 w_exchange (snd w_issued) (fst w_answer) (w_response w_answer)
              w_answer_eq w_answer_200) as (H1 & H2 & _).
  split; assumption.
Defined.

Definition w_replay := handle_token true w_ctx 1 w_exchange (fst w_answer).

Lemma w_replay_eq :
  handle_token true w_ctx 1 w_exchange (fst w_answer) = (fst w_replay, Ok (w_response w_replay)).
Proof. vm_compute. reflexivity. Qed.

Lemma w_client_proved : client_proved w_ctx w_exchange.
Proof.
  exists {| p_client_id := bs "cid"; p_client_secret := bs "sec"; from_basic := false |}.
  split_and!; vm_compute; reflexivity.
Qed.

Lemma code_replay_fails_witness : status_code (w_response w_replay) <> 200.
Proof.
  apply (code_replay_fails true w_ctx 0 1 w_exchange w_exchange (snd w_issued) (fst w_answer)
           (fst w_replay) (w_response w_answer) (w_response w_replay)).
  - exact w_answer_eq.
  - exact w_client_proved.
  - reflexivity.
  - vm_compute; reflexivity.
  - vm_compute; reflexivity.
  - reflexivity.
  - exact w_replay_eq.
Defined.

Definition w_gate (a : option bytes) (path : bytes) : BearerGateRequest :=
  {| bg_authorization := a; bg_base_url := bs "https://h"; bg_resource_path := path |}.

Lemma w_challenged_eq :
  check_bearer w_ctx 0 (w_gate None (bs "/mt")) = Ok (Challenge (challenge (w_gate None (bs "/mt")) None)).
Proof. vm_compute. reflexivity. Qed.

Lemma gate_exact_witness :
  status_code (challenge (w_gate None (bs "/mt")) None) = 401.
Proof.
  destruct (proj2 (proj2 (gate_exact w_ctx 0 (w_gate None (bs "/mt"))))) as (resp & Hr & H401 & _).
  - intros (t & v & (a & s & rest & [=] & _) & _).
  - intros (a & [=] & _).
  - rewrite w_challenged_eq in Hr. injection Hr as <-. exact H401.
Defined.

Lemma w_audience : audience_allows (bs "https://h/mt") (bs "https://h") (bs "/MT/messages") = true.
Proof. vm_compute. reflexivity. Qed.

Lemma audience_confined_witness :
  audience_allows (bs "https://h/mt") (bs "https://h") (bs "/mt-risks") = false /\
  exists aud_path, Str.trim_end_matches Byte.x2f (bs "https://h/mt") =
                   Str.trim_end_matches Byte.x2f (bs "https://h") ++ aud_path.
Proof.
  split; [vm_compute; reflexivity|].
  destruct (audience_confined _ _ _ w_audience) as (ap & He & _). exists ap. exact He.
Defined.

(** A resource of another host that begins with this server's origin
    passes the authorize endpoint's resource check although it is not on
    this server; the code stored for it names that resource, and only the
    gate's stricter check makes the resulting token useless. *)
Theorem lookalike_resource_is_granted :
  let r := w_post Authorize
    [(bs "client_id", bs "cid"); (bs "redirect_uri", w_redirect); (bs "response_type", bs "code");
     (bs "code_challenge", w_challenge); (bs "resource", bs "https://h.evil/mt");
     (bs "consent_password", bs "pw")] in
  let '(resp, codes) := handle_authorize map_to_list w_ctx 0 (bs "C") r ∅ in
  status_code resp = 302 /\ AuthCodes.resource <$> codes !! bs "C" = Some (Some (bs "https://h.evil/mt")) /\
  audience_allows (bs "https://h.evil/mt") (bs "https://h") (bs "/mt") = false.
Proof. vm_compute. split_and!; reflexivity. Qed.

(** ** Routes *)

(** [path] is [prefix], ignoring ASCII case, followed by [suffix], which is
    empty or begins a further path segment. *)
Definition under (prefix path suffix : bytes) : Prop :=
  exists head, path = head ++ suffix /\ Str.lower head = Str.lower prefix /\
    (suffix = [] \/ exists q, suffix = Byte.x2f :: q).

Lemma under_length prefix path suffix : under prefix path suffix -> suffix = drop (length prefix) path.
Proof.
  intros (head & -> & Hl & _). assert (length head = length prefix) as <-
    by (rewrite <-(Str.lower_length head), Hl; apply Str.lower_length).
  by rewrite drop_app_length.
Qed.

Lemma under_boundary prefix path suffix :
  under prefix path suffix -> Utf8.is_char_boundary path (length prefix) = true.
Proof.
  intros (head & -> & Hl & Hs). assert (length head = length prefix) as <-
    by (rewrite <-(Str.lower_length head), Hl; apply Str.lower_length).
  unfold Utf8.is_char_boundary. destruct Hs as [->|[q ->]].
  - rewrite app_nil_r, lookup_ge_None_2 by done. by rewrite bool_decide_eq_true_2.
  - by rewrite list_lookup_middle.
Qed.

Lemma matches_exact path prefix :
  match matches_with_suffix path prefix with
  | Ok (Some suffix) => under prefix path suffix
  | Ok None => forall suffix, ~ under prefix path suffix
  | Err _ => False
  | Panic => (length prefix <= length path)%nat /\ Utf8.is_char_boundary path (length prefix) = false
  end.
Proof.
  unfold matches_with_suffix, Str.str_slice_to, Str.str_slice_from.
  case_decide as Hd.
  { intros suffix (head & -> & Hl & _). apply (f_equal length) in Hl.
    rewrite !Str.lower_length in Hl. rewrite length_app in Hd. lia. }
  destruct (Utf8.is_char_boundary path (length prefix)) eqn:Hb; cbn [mbind outcome_bind]; [|split; [lia|done]].
  destruct (Str.eq_ignore_ascii_case _ _) eqn:He; simpl.
  - apply bool_decide_eq_true in He. destruct (_ || _) eqn:Hs.
    + exists (take (length prefix) path). split; [by rewrite take_drop|]. split; [done|].
      apply orb_true_iff in Hs as [Hs|Hs]; [left; by apply bool_decide_eq_true in Hs|right].
      apply Str.starts_with_spec in Hs as [q Hq]. by exists q.
    + intros suffix Hu. pose proof (under_length _ _ _ Hu) as ->. destruct Hu as (head & _ & _ & Hu).
      apply orb_false_iff in Hs as [Hs1 Hs2]. apply bool_decide_eq_false in Hs1.
      destruct Hu as [Hu|[q Hq]]; [done|]. rewrite Hq in Hs2. done.
  - intros suffix (head & -> & Hl & _). apply bool_decide_eq_false in He. apply He.
    assert (length head = length prefix) as <-
      by (rewrite <-(Str.lower_length head), Hl; apply Str.lower_length).
    by rewrite take_app_length.
Qed.

(** Routing is exact.  A path goes to an endpoint precisely when it is
    the endpoint's path, ignoring ASCII case, or, for the metadata documents,
    that path followed by further segments; a path that merely begins alike
    goes to none.  The only way not to return is a metadata path length that
    falls inside a character of the request path. *)
Theorem route_exact (path : bytes) :
  match route_oauth_path path with
  | Ok (Some Authorize) => Str.lower path = Str.lower AUTHORIZE_PATH
  | Ok (Some Token) => Str.lower path = Str.lower TOKEN_PATH
  | Ok (Some AuthorizationServerMetadata) =>
      exists suffix, under AS_METADATA_PATH path suffix \/ under OPENID_CONFIGURATION_PATH path suffix
  | Ok (Some (ProtectedResourceMetadata rp)) =>
      exists suffix, under PROTECTED_RESOURCE_METADATA_PATH path suffix /\
        rp = normalize_resource_path suffix
  | Ok None =>
      Str.lower path <> Str.lower AUTHORIZE_PATH /\ Str.lower path <> Str.lower TOKEN_PATH /\
      forall suffix, ~ under AS_METADATA_PATH path suffix /\
        ~ under OPENID_CONFIGURATION_PATH path suffix /\
        ~ under PROTECTED_RESOURCE_METADATA_PATH path suffix
  | Err _ => False
  | Panic =>
      exists prefix, prefix ∈ [AS_METADATA_PATH; OPENID_CONFIGURATION_PATH; PROTECTED_RESOURCE_METADATA_PATH]
        /\ (length prefix <= length path)%nat /\ Utf8.is_char_boundary path (length prefix) = false
  end.
Proof.
  unfold route_oauth_path.
  pose proof (matches_exact path AS_METADATA_PATH) as H1.
  pose proof (matches_exact path OPENID_CONFIGURATION_PATH) as H2.
  pose proof (matches_exact path PROTECTED_RESOURCE_METADATA_PATH) as H3.
  destruct (Str.eq_ignore_ascii_case path AUTHORIZE_PATH) eqn:Ha; [by apply bool_decide_eq_true in Ha|].
  destruct (Str.eq_ignore_ascii_case path TOKEN_PATH) eqn:Ht; [by apply bool_decide_eq_true in Ht|].
  apply bool_decide_eq_false in Ha, Ht.
  destruct (matches_with_suffix path AS_METADATA_PATH) as [[sfx|]| |]; cbn [mbind outcome_bind];
    [by exists sfx; left| |done|exists AS_METADATA_PATH; set_solver].
  destruct (matches_with_suffix path OPENID_CONFIGURATION_PATH) as [[sfx|]| |]; cbn [mbind outcome_bind];
    [by exists sfx; right| |done|exists OPENID_CONFIGURATION_PATH; set_solver].
  destruct (matches_with_suffix path PROTECTED_RESOURCE_METADATA_PATH) as [[sfx|]| |]; cbn [mbind outcome_bind];
    [by exists sfx| |done|exists PROTECTED_RESOURCE_METADATA_PATH; set_solver].
  auto.
Qed.

End OAuthSpec.
