(* ===== verification/H1Pool.v ===== *)
(** * Upstream connection pool: [upstream_h1_pool/]

    Every request obtains a connection from the pool of its location.  The
    requests, the supervisor's probes and the background revivals run
    concurrently and share the entries through atomics; a task's transition
    here runs from one access that other tasks race on, or from the resumption
    after an await, to the next.  Two accesses are merged only where one of
    them is to the global counter, which [OtherPools] may move arbitrarily
    between any two transitions anyway.  A future may also be dropped at any
    await. *)

From Stdlib Require Import ZArith Lia.
From stdpp Require Import base tactics list gmap relations.
From S2P Require Import Prelude.

Local Open Scope Z_scope.

Module H1Pool.

Definition MAX_DISPOSABLE : Z := 100.

(** [H1Entry]; a client is named by the number of its connect. *)
Record H1Entry := {
  client : nat;
  dead : bool;
  rented : bool;
  revive_pending : bool
}.

Definition entry_new (c : nat) : H1Entry :=
  {| client := c; dead := false; rented := false; revive_pending := false |}.

Definition set_rented (b : bool) (e : H1Entry) : H1Entry :=
  {| client := client e; dead := dead e; rented := b; revive_pending := revive_pending e |}.
Definition set_dead (b : bool) (e : H1Entry) : H1Entry :=
  {| client := client e; dead := b; rented := rented e; revive_pending := revive_pending e |}.
Definition set_pending (b : bool) (e : H1Entry) : H1Entry :=
  {| client := client e; dead := dead e; rented := rented e; revive_pending := b |}.

(** [try_rent]: a compare-exchange of [rented]. *)
Definition try_rent (e : H1Entry) : bool * H1Entry :=
  if rented e then (false, e) else (true, set_rented true e).

(** [release_rent] *)
Definition release_rent (e : H1Entry) : H1Entry := set_rented false e.

(** Where a task is: the awaits and atomic accesses of [get_connection],
    the life of the handle it returned, a probe, a background revival. *)
Inductive Task :=
  | AtLoop                                  (* head of the loop *)
  | Connecting0                             (* phase 0: awaiting the connect *)
  | Scanning (start offset len : nat)       (* phase 1: about to try entry start+offset *)
  | Rented (i : nat)                        (* phase 1: rent taken, dead not read yet *)
  | Reviving (i : nat)                      (* path B: awaiting revive_entry *)
  | Reserving                               (* phase 2: before the first fetch_add *)
  | Reserved1 (cur_global : Z)              (* ... between the two *)
  | Reserved2 (cur_global cur_pool : Z)     (* ... after both *)
  | Overflow                                (* phase 2: awaiting the connect *)
  | Sleeping                                (* phase 2: over a limit *)
  | HoldsReusable (i : nat)
  | HoldsDisposable (admitted : bool)       (* proof bookkeeping: handed out by phase 2 *)
  | Probing (i : nat)                       (* supervisor: read the entry as not dead *)
  | Pinging (i : nat)                       (* ... awaiting the probe, with its rent guard *)
  | Pinged (i : nat)                        (* ... outcome stored, guard not dropped yet *)
  | SpawnChecked (i : nat)                  (* spawn_revive: read the entry as dead *)
  | BgReviving (i : nat).                   (* background revival, with its pending guard *)

(** The pool.  [leaked_rents] and [leaked_slots] are bookkeeping of the
    proof: what a dropped future took with it. *)
Record Pool := {
  entries : list H1Entry;
  next : Z;
  shutdown : bool;
  live_disposables : Z;
  DISPOSABLE_COUNTER : Z;
  fresh_client : nat;
  tasks : gmap nat Task;
  leaked_rents : list nat;
  leaked_slots : Z
}.

Definition pool_new : Pool :=
  {| entries := []; next := 0; shutdown := false; live_disposables := 0; DISPOSABLE_COUNTER := 0;
     fresh_client := 0; tasks := ∅; leaked_rents := []; leaked_slots := 0 |}.

Definition with_tasks (ts : gmap nat Task) (s : Pool) : Pool :=
  {| entries := entries s; next := next s; shutdown := shutdown s;
     live_disposables := live_disposables s; DISPOSABLE_COUNTER := DISPOSABLE_COUNTER s;
     fresh_client := fresh_client s; tasks := ts; leaked_rents := leaked_rents s;
     leaked_slots := leaked_slots s |}.

Definition with_entries (es : list H1Entry) (s : Pool) : Pool :=
  {| entries := es; next := next s; shutdown := shutdown s;
     live_disposables := live_disposables s; DISPOSABLE_COUNTER := DISPOSABLE_COUNTER s;
     fresh_client := fresh_client s; tasks := tasks s; leaked_rents := leaked_rents s;
     leaked_slots := leaked_slots s |}.

Definition fetch_add_counters (dg dp : Z) (s : Pool) : Pool :=
  {| entries := entries s; next := next s; shutdown := shutdown s;
     live_disposables := live_disposables s + dp; DISPOSABLE_COUNTER := DISPOSABLE_COUNTER s + dg;
     fresh_client := fresh_client s; tasks := tasks s; leaked_rents := leaked_rents s;
     leaked_slots := leaked_slots s |}.

(** A connect takes the next client number. *)
Definition connected (s : Pool) : Pool :=
  {| entries := entries s; next := next s; shutdown := shutdown s;
     live_disposables := live_disposables s; DISPOSABLE_COUNTER := DISPOSABLE_COUNTER s;
     fresh_client := S (fresh_client s); tasks := tasks s; leaked_rents := leaked_rents s;
     leaked_slots := leaked_slots s |}.

Definition goto (t : nat) (pc : Task) (s : Pool) : Pool := with_tasks (<[t := pc]> (tasks s)) s.
Definition finish (t : nat) (s : Pool) : Pool := with_tasks (delete t (tasks s)) s.
Definition on_entry (f : H1Entry -> H1Entry) (i : nat) (s : Pool) : Pool :=
  with_entries (alter f i (entries s)) s.

Inductive Action :=
  | Request (t : nat)                (* get_connection is called *)
  | LoopTop (t : nat)
  | Connect0 (t : nat) (ok : bool)
  | ScanNext (t : nat)
  | ReadDead (t : nat)
  | Revived (t : nat) (ok : bool)
  | Reserve (t : nat) (deadline_passed : bool)
  | ConnectOverflow (t : nat) (ok : bool)
  | Wake (t : nat)
  | RequestDone (t : nat) (ok : bool)  (* the client's do_request returned *)
  | DropHandle (t : nat)
  | Probe (t i : nat)
  | PingStart (t : nat)
  | PingDone (t : nat) (alive : bool)
  | PingRelease (t : nat)
  | SpawnRevive (t i : nat)
  | SpawnPending (t : nat)
  | BgRevived (t : nat) (ok : bool)
  | Shutdown
  | OtherPools (d : Z)               (* another pool moves the global counter *)
  | DropFuture (t : nat).            (* the future of task t is dropped at its await *)

Section Step.
Context (pool_size max_disposables : Z).

Definition target : nat := Z.to_nat pool_size.

(** [next.fetch_add(1)] *)
Definition bump_next (s : Pool) : Pool :=
  {| entries := entries s; next := (next s + 1) mod 2 ^ 64; shutdown := shutdown s;
     live_disposables := live_disposables s; DISPOSABLE_COUNTER := DISPOSABLE_COUNTER s;
     fresh_client := fresh_client s; tasks := tasks s; leaked_rents := leaked_rents s;
     leaked_slots := leaked_slots s |}.

(** [get_connection].  With a pool size of 0 the remainder by [len] panics
    and ends the request. *)
Definition loop_top (t : nat) (s : Pool) : Pool :=
  if shutdown s then finish t s
  else
    let len := length (entries s) in
    if decide (len < target)%nat then goto t Connecting0 s
    else if decide (len = 0)%nat then finish t (bump_next s)
    else goto t (Scanning (Z.to_nat (next s mod Z.of_nat len)) 0 len) (bump_next s).

Definition connect0 (t : nat) (ok : bool) (s : Pool) : Pool :=
  if negb ok then finish t s
  else
    let c := fresh_client s in
    let s := connected s in
    if decide (length (entries s) < target)%nat then
      goto t (HoldsReusable (length (entries s)))
        (with_entries (entries s ++ [set_rented true (entry_new c)]) s)
    else goto t (HoldsDisposable false) (fetch_add_counters 1 1 s).

Definition scan_next (t start offset len : nat) (s : Pool) : Pool :=
  if decide (offset < len)%nat then
    let i := ((start + offset) mod len)%nat in
    match entries s !! i with
    | Some e =>
        let '(won, e') := try_rent e in
        if won then goto t (Rented i) (with_entries (<[i := e']> (entries s)) s)
        else goto t (Scanning start (S offset) len) s
    | None => s
    end
  else goto t Reserving s.

Definition read_dead (t i : nat) (s : Pool) : Pool :=
  match entries s !! i with
  | Some e => if dead e then goto t (Reviving i) s else goto t (HoldsReusable i) s
  | None => s
  end.

(** [revive_entry]: under the entry's lock, a no-op when someone else has
    revived it. *)
Definition revive (i : nat) (ok : bool) (s : Pool) : bool * Pool :=
  match entries s !! i with
  | Some e =>
      if negb (dead e) then (true, s)
      else if ok then
        (true, on_entry (fun e => set_dead false
           {| client := fresh_client s; dead := dead e; rented := rented e;
              revive_pending := revive_pending e |}) i (connected s))
      else (false, s)
  | None => (false, s)
  end.

Definition revived (t i : nat) (ok : bool) (s : Pool) : Pool :=
  let '(r, s) := revive i ok s in
  if r then goto t (HoldsReusable i) s else finish t (on_entry release_rent i s).

Definition reserve (t : nat) (pc : Task) (late : bool) (s : Pool) : option Pool :=
  match pc with
  | Reserving => Some (goto t (Reserved1 (DISPOSABLE_COUNTER s)) (fetch_add_counters 1 0 s))
  | Reserved1 g => Some (goto t (Reserved2 g (live_disposables s)) (fetch_add_counters 0 1 s))
  | Reserved2 g p =>
      if (g <? MAX_DISPOSABLE) && (p <? max_disposables) then Some (goto t Overflow s)
      else
        let s := fetch_add_counters (-1) (-1) s in
        Some (if late then finish t s else goto t Sleeping s)
  | _ => None
  end.

Definition connect_overflow (t : nat) (ok : bool) (s : Pool) : Pool :=
  if ok then goto t (HoldsDisposable true) (connected s)
  else finish t (fetch_add_counters (-1) (-1) s).

(** [H1ClientHandle::do_request], once the client has answered; the time of
    the last success is not part of the state. *)
Definition do_request (pc : Task) (ok : bool) (s : Pool) : option Pool :=
  match pc with
  | HoldsReusable i => Some (if ok then s else on_entry (set_dead true) i s)
  | HoldsDisposable _ => Some s
  | _ => None
  end.

(** [Drop for H1ClientHandle] *)
Definition drop_handle (t : nat) (pc : Task) (s : Pool) : option Pool :=
  match pc with
  | HoldsReusable i => Some (finish t (on_entry release_rent i s))
  | HoldsDisposable _ => Some (finish t (fetch_add_counters (-1) (-1) s))
  | _ => None
  end.

(** [supervisor_tick]: a probe rents like a request.  Whether an idle live
    entry is probed at all depends on the clock and on the configured path;
    here it may be at any time. *)
Definition probe (t i : nat) (s : Pool) : option Pool :=
  match entries s !! i with
  | Some e => if shutdown s || dead e then None else Some (goto t (Probing i) s)
  | None => None
  end.

Definition ping_start (t i : nat) (s : Pool) : Pool :=
  match entries s !! i with
  | Some e =>
      let '(won, e') := try_rent e in
      if won then goto t (Pinging i) (with_entries (<[i := e']> (entries s)) s) else finish t s
  | None => s
  end.

Definition ping_done (t i : nat) (alive : bool) (s : Pool) : Pool :=
  goto t (Pinged i) (if alive then s else on_entry (set_dead true) i s).

(** [spawn_revive] *)
Definition spawn_revive (t i : nat) (s : Pool) : option Pool :=
  match entries s !! i with
  | Some e => if shutdown s || negb (dead e) then None else Some (goto t (SpawnChecked i) s)
  | None => None
  end.

Definition spawn_pending (t i : nat) (s : Pool) : Pool :=
  match entries s !! i with
  | Some e =>
      if revive_pending e then finish t s
      else goto t (BgReviving i) (on_entry (set_pending true) i s)
  | None => s
  end.

Definition bg_revived (t i : nat) (ok : bool) (s : Pool) : Pool :=
  finish t (on_entry (set_pending false) i (snd (revive i ok s))).

(** Dropping a future: the guards of the probe and of the background
    revival run; [get_connection] has none. *)
Definition drop_future (t : nat) (pc : Task) (s : Pool) : option Pool :=
  match pc with
  | Connecting0 | Sleeping => Some (finish t s)
  | Reviving i =>
      Some {| entries := entries s; next := next s; shutdown := shutdown s;
              live_disposables := live_disposables s; DISPOSABLE_COUNTER := DISPOSABLE_COUNTER s;
              fresh_client := fresh_client s; tasks := delete t (tasks s);
              leaked_rents := i :: leaked_rents s; leaked_slots := leaked_slots s |}
  | Overflow =>
      Some {| entries := entries s; next := next s; shutdown := shutdown s;
              live_disposables := live_disposables s; DISPOSABLE_COUNTER := DISPOSABLE_COUNTER s;
              fresh_client := fresh_client s; tasks := delete t (tasks s);
              leaked_rents := leaked_rents s; leaked_slots := leaked_slots s + 1 |}
  | Pinging i => Some (finish t (on_entry release_rent i s))
  | BgReviving i => Some (finish t (on_entry (set_pending false) i s))
  | _ => None
  end.

Definition exec (a : Action) (s : Pool) : option Pool :=
  match a with
  | Request t => match tasks s !! t with None => Some (goto t AtLoop s) | Some _ => None end
  | LoopTop t => match tasks s !! t with Some AtLoop => Some (loop_top t s) | _ => None end
  | Connect0 t ok => match tasks s !! t with Some Connecting0 => Some (connect0 t ok s) | _ => None end
  | ScanNext t =>
      match tasks s !! t with
      | Some (Scanning start offset len) => Some (scan_next t start offset len s)
      | _ => None
      end
  | ReadDead t => match tasks s !! t with Some (Rented i) => Some (read_dead t i s) | _ => None end
  | Revived t ok => match tasks s !! t with Some (Reviving i) => Some (revived t i ok s) | _ => None end
  | Reserve t late => match tasks s !! t with Some pc => reserve t pc late s | None => None end
  | ConnectOverflow t ok =>
      match tasks s !! t with Some Overflow => Some (connect_overflow t ok s) | _ => None end
  | Wake t => match tasks s !! t with Some Sleeping => Some (goto t AtLoop s) | _ => None end
  | RequestDone t ok => match tasks s !! t with Some pc => do_request pc ok s | None => None end
  | DropHandle t => match tasks s !! t with Some pc => drop_handle t pc s | None => None end
  | Probe t i => match tasks s !! t with None => probe t i s | Some _ => None end
  | PingStart t => match tasks s !! t with Some (Probing i) => Some (ping_start t i s) | _ => None end
  | PingDone t alive =>
      match tasks s !! t with Some (Pinging i) => Some (ping_done t i alive s) | _ => None end
  | PingRelease t =>
      match tasks s !! t with
      | Some (Pinged i) => Some (finish t (on_entry release_rent i s))
      | _ => None
      end
  | SpawnRevive t i => match tasks s !! t with None => spawn_revive t i s | Some _ => None end
  | SpawnPending t =>
      match tasks s !! t with Some (SpawnChecked i) => Some (spawn_pending t i s) | _ => None end
  | BgRevived t ok =>
      match tasks s !! t with Some (BgReviving i) => Some (bg_revived t i ok s) | _ => None end
  | Shutdown =>
      Some {| entries := entries s; next := next s; shutdown := true;
              live_disposables := live_disposables s; DISPOSABLE_COUNTER := DISPOSABLE_COUNTER s;
              fresh_client := fresh_client s; tasks := tasks s; leaked_rents := leaked_rents s;
              leaked_slots := leaked_slots s |}
  | OtherPools d => Some (fetch_add_counters d 0 s)
  | DropFuture t => match tasks s !! t with Some pc => drop_future t pc s | None => None end
  end.

Definition step (s s' : Pool) : Prop := exists a, exec a s = Some s'.
Definition reachable (s : Pool) : Prop := rtc step pool_new s.

End Step.

(** ** Ownership of rents *)

(** The entry a task holds the rent of. *)
Definition owns (o : option Task) : option nat :=
  match o with
  | Some (Rented i) | Some (Reviving i) | Some (HoldsReusable i) | Some (Pinging i)
  | Some (Pinged i) => Some i
  | _ => None
  end.

(** Whether a task holds a slot of the pool's disposable counter. *)
Definition slot (o : option Task) : Z :=
  match o with Some (Reserved2 _ _) | Some Overflow | Some (HoldsDisposable _) => 1 | _ => 0 end.

(** Whether it is one that phase 2 admits. *)
Definition admitted (max : Z) (o : option Task) : Z :=
  match o with
  | Some (Reserved2 g p) => if (g <? MAX_DISPOSABLE) && (p <? max) then 1 else 0
  | Some Overflow | Some (HoldsDisposable true) => 1
  | _ => 0
  end.

Definition is_rented (es : list H1Entry) (i : nat) : bool :=
  match es !! i with Some e => rented e | None => false end.

(** Rents and their owners: exclusive, and accounted for up to what dropped
    futures leaked. *)
Record owned (ts : gmap nat Task) (R : nat -> bool) (lk : list nat) : Prop := {
  own_excl : forall t1 t2 i, owns (ts !! t1) = Some i -> owns (ts !! t2) = Some i -> t1 = t2;
  own_leak : forall t i, owns (ts !! t) = Some i -> i ∉ lk;
  own_iff : forall i, R i = true <-> (exists t, owns (ts !! t) = Some i) \/ i ∈ lk
}.

Section Owned.
Context (ts : gmap nat Task) (R R' : nat -> bool) (lk : list nat) (t : nat) (o : option Task).
Context (Hown : owned ts R lk).

Definition moved_to : gmap nat Task := partial_alter (fun _ => o) t ts.

Lemma moved_lookup t' : moved_to !! t' = if decide (t' = t) then o else ts !! t'.
Proof.
  unfold moved_to. case_decide as Hd.
  - subst. apply lookup_partial_alter_eq.
  - by apply lookup_partial_alter_ne.
Qed.

Lemma owned_same :
  owns o = owns (ts !! t) -> (forall i, R' i = R i) -> owned moved_to R' lk.
Proof.
  intros Ho HR.
  assert (forall t', owns (moved_to !! t') = owns (ts !! t')) as Hsame.
  { intros t'. rewrite moved_lookup. case_decide; [by subst|done]. }
  split.
  - intros t1 t2 i. rewrite !Hsame. apply Hown.
  - intros t1 i. rewrite Hsame. apply Hown.
  - intros i. rewrite HR. setoid_rewrite Hsame. apply Hown.
Qed.

Lemma owned_gain i :
  owns (ts !! t) = None -> owns o = Some i -> R i = false ->
  R' i = true -> (forall j, j <> i -> R' j = R j) -> owned moved_to R' lk.
Proof.
  intros Ht Ho HR HR' Hne.
  assert (forall t', owns (ts !! t') <> Some i) as Hnone.
  { intros t' Ho'. assert (R i = true) by (apply Hown; eauto). congruence. }
  assert (i ∉ lk) as Hlk by (intros Hi; assert (R i = true) by (apply Hown; eauto); congruence).
  split.
  - intros t1 t2 j. rewrite !moved_lookup. repeat case_decide; subst; try done;
      [| |apply Hown]; intros H1 H2; exfalso.
    + apply (Hnone t2). congruence.
    + apply (Hnone t1). congruence.
  - intros t1 j. rewrite moved_lookup. case_decide; [|apply Hown]. intros H1. congruence.
  - intros j. destruct (decide (j = i)) as [->|Hj].
    + split; [|done]. intros _. left. exists t. by rewrite moved_lookup, decide_True.
    + rewrite Hne, (own_iff _ _ _ Hown) by done. split; (intros [[t' H1]|]; [left|by right]); exists t'.
      * rewrite moved_lookup. case_decide; [|done]. subst. congruence.
      * rewrite moved_lookup in H1. case_decide; [|done]. subst. congruence.
Qed.

Lemma owned_lose i :
  owns (ts !! t) = Some i -> owns o = None -> R' i = false ->
  (forall j, j <> i -> R' j = R j) -> owned moved_to R' lk.
Proof.
  intros Ht Ho HR' Hne. split.
  - intros t1 t2 j. rewrite !moved_lookup. repeat case_decide; subst; try done; try congruence. apply Hown.
  - intros t1 j. rewrite moved_lookup. case_decide; [congruence|apply Hown].
  - intros j. destruct (decide (j = i)) as [->|Hj].
    + split; [congruence|]. intros [[t' H1]|Hlk].
      * rewrite moved_lookup in H1. case_decide; [congruence|].
        exfalso. apply H. by eapply Hown.
      * exfalso. by eapply (own_leak _ _ _ Hown).
    + rewrite Hne, (own_iff _ _ _ Hown) by done. split; (intros [[t' H1]|]; [left|by right]); exists t'.
      * rewrite moved_lookup. case_decide; [|done]. subst. congruence.
      * rewrite moved_lookup in H1. case_decide; [congruence|done].
Qed.

Lemma owned_leak i :
  owns (ts !! t) = Some i -> owns o = None -> owned moved_to R (i :: lk).
Proof using Hown.
  clear R'.
  intros Ht Ho. split.
  - intros t1 t2 j. rewrite !moved_lookup. repeat case_decide; subst; try done; try congruence. apply Hown.
  - intros t1 j. rewrite moved_lookup. case_decide as Hd; [congruence|]. intros H1.
    apply not_elem_of_cons. split; [|by eapply Hown]. intros ->. apply Hd. by eapply Hown.
  - intros j. rewrite (own_iff _ _ _ Hown), elem_of_cons. split.
    + intros [[t' H1]|]; [|auto]. destruct (decide (t' = t)) as [->|Hd]; [naive_solver congruence|].
      left. exists t'. by rewrite moved_lookup, decide_False.
    + intros [[t' H1]|[->|]]; [|eauto|auto]. rewrite moved_lookup in H1. case_decide; [congruence|eauto].
Qed.

End Owned.

(** *** Counting tasks *)

Section Count.
Context (w : option Task -> Z).
Context (w_none : w None = 0).

Definition count (ts : gmap nat Task) : Z := map_fold (fun _ pc acc => w (Some pc) + acc) 0 ts.

Lemma count_insert ts t pc : ts !! t = None -> count (<[t := pc]> ts) = w (Some pc) + count ts.
Proof.
  intros Ht. unfold count. apply (map_fold_insert_L (fun _ pc acc => w (Some pc) + acc)); [|done].
  intros. lia.
Qed.

Lemma count_delete ts t : count (delete t ts) = count ts - w (ts !! t).
Proof using w_none.
  destruct (ts !! t) as [pc|] eqn:Ht.
  - rewrite <-(insert_delete_id ts t pc Ht) at 2. rewrite count_insert by apply lookup_delete_eq. lia.
  - rewrite delete_id by done. lia.
Qed.

Lemma count_moved ts t o : count (moved_to ts t o) = count ts - w (ts !! t) + w o.
Proof using w_none.
  unfold moved_to. destruct o as [pc|].
  - change (partial_alter (fun _ => Some pc) t ts) with (<[t := pc]> ts).
    rewrite <-insert_delete_eq, count_insert by apply lookup_delete_eq. rewrite count_delete. lia.
  - change (partial_alter (fun _ => None) t ts) with (delete t ts). rewrite count_delete. lia.
Qed.

End Count.

Lemma count_le (w w' : option Task -> Z) ts :
  (forall o, w o <= w' o) -> count w ts <= count w' ts.
Proof.
  intros Hle. induction ts as [|t pc ts Ht IH] using map_ind; [done|].
  rewrite !count_insert by done. specialize (Hle (Some pc)). lia.
Qed.

Lemma admitted_slot max o : admitted max o <= slot o.
Proof. destruct o as [[]|]; simpl; repeat case_match; lia. Qed.

(** *** The rent flags after an update of an entry *)

Lemma is_rented_lookup es i e : es !! i = Some e -> is_rented es i = rented e.
Proof. unfold is_rented. by intros ->. Qed.

Lemma is_rented_some es i : is_rented es i = true -> is_Some (es !! i).
Proof. unfold is_rented. case_match; [eauto|done]. Qed.

Lemma is_rented_alter_ne f es i j : j <> i -> is_rented (alter f i es) j = is_rented es j.
Proof. intros Hij. unfold is_rented. by rewrite list_lookup_alter_ne. Qed.

Lemma is_rented_alter_same f es i j :
  (forall e, rented (f e) = rented e) -> is_rented (alter f i es) j = is_rented es j.
Proof.
  intros Hf. destruct (decide (j = i)) as [->|]; [|by apply is_rented_alter_ne].
  unfold is_rented. rewrite list_lookup_alter_eq. destruct (es !! i); simpl; auto.
Qed.

Lemma is_rented_release es i : is_rented (alter release_rent i es) i = false.
Proof. unfold is_rented. rewrite list_lookup_alter_eq. by destruct (es !! i). Qed.

Lemma is_rented_insert es i e j :
  (i < length es)%nat -> is_rented (<[i := e]> es) j = if decide (j = i) then rented e else is_rented es j.
Proof.
  intros Hi. unfold is_rented. case_decide; [subst; by rewrite list_lookup_insert_eq|].
  by rewrite list_lookup_insert_ne.
Qed.

Lemma is_rented_snoc es e j :
  is_rented (es ++ [e]) j = if decide (j = length es) then rented e else is_rented es j.
Proof.
  unfold is_rented. case_decide as Hj; [subst; by rewrite list_lookup_middle|].
  destruct (decide (j < length es)%nat); [by rewrite lookup_app_l|].
  rewrite (lookup_ge_None_2 es) by lia. rewrite lookup_ge_None_2; [done|]. rewrite length_app. simpl. lia.
Qed.

(** ** The invariant *)

Section Invariant.
Context (pool_size max_disposables : Z).

Record inv (s : Pool) : Prop := {
  inv_len : (length (entries s) <= target pool_size)%nat;
  inv_own : owned (tasks s) (is_rented (entries s)) (leaked_rents s);
  inv_live : live_disposables s = count slot (tasks s) + leaked_slots s;
  inv_leak : 0 <= leaked_slots s;
  inv_adm : count (admitted max_disposables) (tasks s) <= max_disposables
}.

(** A transition of one task. *)
Lemma inv_move s s' t o :
  inv s -> tasks s' = moved_to (tasks s) t o ->
  (length (entries s') <= target pool_size)%nat ->
  owned (moved_to (tasks s) t o) (is_rented (entries s')) (leaked_rents s') ->
  live_disposables s' - leaked_slots s' =
    live_disposables s - leaked_slots s - slot (tasks s !! t) + slot o ->
  0 <= leaked_slots s' ->
  (admitted max_disposables o <= admitted max_disposables (tasks s !! t) \/
   live_disposables s < max_disposables /\ admitted max_disposables o <= 1) ->
  inv s'.
Proof.
  intros Hinv Ht Hlen Hown Hlive Hleak Hadm. destruct Hinv as [_ _ Hl Hk Ha].
  split; rewrite ?Ht; try done; rewrite count_moved by done; [lia|].
  destruct Hadm as [?|[Hlt ?]]; [lia|].
  pose proof (count_le _ _ (tasks s) (admitted_slot max_disposables)).
  assert (0 <= admitted max_disposables (tasks s !! t))
    by (destruct (tasks s !! t) as [[]|]; simpl; repeat case_match; lia).
  lia.
Qed.

(** ... that keeps its rent and the flags. *)
Lemma inv_same s s' t o :
  inv s -> tasks s' = moved_to (tasks s) t o -> owns o = owns (tasks s !! t) ->
  length (entries s') = length (entries s) ->
  (forall i, is_rented (entries s') i = is_rented (entries s) i) ->
  leaked_rents s' = leaked_rents s -> leaked_slots s' = leaked_slots s ->
  live_disposables s' = live_disposables s - slot (tasks s !! t) + slot o ->
  (admitted max_disposables o <= admitted max_disposables (tasks s !! t) \/
   live_disposables s < max_disposables /\ admitted max_disposables o <= 1) ->
  inv s'.
Proof.
  intros Hinv Ht Ho Hlen HR Hk1 Hk2 Hlive Hadm. pose proof Hinv as [Hl Hown _ Hk _].
  apply (inv_move s s' t o); rewrite ?Hlen, ?Hk1, ?Hk2; eauto; [by eapply owned_same|lia].
Qed.

(** ... that gives its rent back. *)
Lemma inv_release s s' t i :
  inv s -> owns (tasks s !! t) = Some i -> tasks s' = delete t (tasks s) ->
  entries s' = alter release_rent i (entries s) ->
  leaked_rents s' = leaked_rents s -> leaked_slots s' = leaked_slots s ->
  live_disposables s' = live_disposables s -> inv s'.
Proof.
  intros Hinv Hi Ht He Hk1 Hk2 Hlive. pose proof Hinv as [Hl Hown _ Hk _].
  assert (slot (tasks s !! t) = 0 /\ admitted max_disposables (tasks s !! t) = 0) as [Hs Ha]
    by (by destruct (tasks s !! t) as [[]|]).
  apply (inv_move s s' t None); rewrite ?He, ?Hk1, ?Hk2; eauto; simpl; try lia.
  - by rewrite length_alter.
  - eapply owned_lose; eauto; [apply is_rented_release|]. intros j. apply is_rented_alter_ne.
Qed.

(** ... that wins a rent. *)
Lemma inv_rent s t i e pc :
  inv s -> owns (tasks s !! t) = None -> slot (tasks s !! t) = 0 ->
  entries s !! i = Some e -> rented e = false ->
  owns (Some pc) = Some i -> slot (Some pc) = 0 -> admitted max_disposables (Some pc) = 0 ->
  inv (goto t pc (with_entries (<[i := set_rented true e]> (entries s)) s)).
Proof.
  intros Hinv Ho Hs He Hr Hpc Hs' Ha'. pose proof Hinv as [Hl Hown _ Hk _].
  pose proof (lookup_lt_Some _ _ _ He) as Hlt.
  assert (admitted max_disposables (tasks s !! t) = 0) as Ha
    by (destruct (tasks s !! t) as [[]|]; simpl in *; done || lia).
  apply (inv_move s _ t (Some pc)); rewrite ?Ho, ?Hs, ?Hs', ?Ha, ?Ha'; simpl; auto with lia.
  - by rewrite length_insert.
  - eapply owned_gain; eauto.
    + by rewrite (is_rented_lookup _ _ _ He).
    + by rewrite is_rented_insert, decide_True.
    + intros j Hj. by rewrite is_rented_insert, decide_False.
Qed.

(** One task moves, its rent and the flags stay. *)
Ltac same t o :=
  match goal with
  | Hinv : inv ?s |- inv ?s' =>
      apply (inv_same s s' t o); [exact Hinv|reflexivity|..];
      try match goal with H : _ !! t = _ |- _ => rewrite ?H end;
      simpl; rewrite ?length_alter;
      first [done | lia | (intros; apply is_rented_alter_same; by intros []) | idtac]
  end.

Lemma pool_inv_init : 0 <= max_disposables -> inv pool_new.
Proof.
  intros Hm. split; simpl; try done; try lia.
  split; simpl.
  - intros ??? Ho. by rewrite lookup_empty in Ho.
  - intros ?? Ho. by rewrite lookup_empty in Ho.
  - intros i. split; [done|]. intros [[t Ho]|Hi]; [by rewrite lookup_empty in Ho|by apply elem_of_nil in Hi].
Qed.

Lemma inv_loop_top s t : inv s -> tasks s !! t = Some AtLoop -> inv (loop_top pool_size t s).
Proof.
  intros Hinv Ht. unfold loop_top. case_match; [same t (@None Task)|].
  case_decide; [same t (Some Connecting0)|].
  case_decide; [same t (@None Task)|].
  same t (Some (Scanning (Z.to_nat (next s mod Z.of_nat (length (entries s)))) 0 (length (entries s)))).
Qed.

Lemma inv_connect0 s t ok :
  inv s -> tasks s !! t = Some Connecting0 -> inv (connect0 pool_size t ok s).
Proof.
  intros Hinv Ht. unfold connect0. destruct ok; simpl; [|same t (@None Task)].
  case_decide as Hlt; [|same t (Some (HoldsDisposable false))].
  pose proof Hinv as [Hl Hown _ Hk _].
  apply (inv_move s _ t (Some (HoldsReusable (length (entries s))))); rewrite ?Ht; simpl; auto; try lia.
  - rewrite length_app. simpl. lia.
  - eapply owned_gain; eauto.
    + by rewrite Ht.
    + unfold is_rented. by rewrite (lookup_ge_None_2 (entries s)).
    + by rewrite is_rented_snoc, decide_True.
    + intros j Hj. by rewrite is_rented_snoc, decide_False.
Qed.

Lemma inv_scan_next s t start offset len :
  inv s -> tasks s !! t = Some (Scanning start offset len) -> inv (scan_next t start offset len s).
Proof.
  intros Hinv Ht. unfold scan_next. case_decide; [|same t (Some Reserving)].
  destruct (entries s !! _) as [e|] eqn:He; [|done]. unfold try_rent.
  destruct (rented e) eqn:Hr; [same t (Some (Scanning start (S offset) len))|].
  apply inv_rent; rewrite ?Ht; auto.
Qed.

Lemma inv_read_dead s t i : inv s -> tasks s !! t = Some (Rented i) -> inv (read_dead t i s).
Proof.
  intros Hinv Ht. unfold read_dead. case_match; [|done].
  case_match; [same t (Some (Reviving i))|same t (Some (HoldsReusable i))].
Qed.

(** Reviving touches the client and [dead] only. *)
Lemma revive_frame i ok s :
  let s' := snd (revive i ok s) in
  tasks s' = tasks s /\ length (entries s') = length (entries s) /\
  (forall j, is_rented (entries s') j = is_rented (entries s) j) /\
  leaked_rents s' = leaked_rents s /\ leaked_slots s' = leaked_slots s /\
  live_disposables s' = live_disposables s.
Proof.
  unfold revive. repeat case_match; simpl; try done.
  rewrite length_alter. repeat split; try done. intros j. by apply is_rented_alter_same.
Qed.

Lemma inv_frame s s' :
  inv s -> tasks s' = tasks s -> length (entries s') = length (entries s) ->
  (forall j, is_rented (entries s') j = is_rented (entries s) j) ->
  leaked_rents s' = leaked_rents s -> leaked_slots s' = leaked_slots s ->
  live_disposables s' = live_disposables s -> inv s'.
Proof.
  intros [Hl [He Hk Hiff] Hlive Hleak Ha] Ht Hlen HR Hk1 Hk2 Hlv.
  split; rewrite ?Ht, ?Hlen, ?Hk1, ?Hk2, ?Hlv; try done.
  split; try done. intros i. by rewrite HR.
Qed.

Lemma inv_revive s i ok : inv s -> inv (snd (revive i ok s)).
Proof.
  intros Hinv. destruct (revive_frame i ok s) as (?&?&?&?&?&?). by apply (inv_frame s).
Qed.

Lemma inv_revived s t i ok : inv s -> tasks s !! t = Some (Reviving i) -> inv (revived t i ok s).
Proof.
  intros Hinv Ht. unfold revived.
  pose proof (inv_revive s i ok Hinv) as Hinv'. destruct (revive_frame i ok s) as [Hts _].
  destruct (revive i ok s) as [r s']. simpl in *. rewrite <-Hts in Ht. clear Hinv.
  destruct r; [same t (Some (HoldsReusable i))|].
  eapply (inv_release s' _ t i); try done. by rewrite Ht.
Qed.

Lemma inv_reserve s s' t pc late :
  inv s -> tasks s !! t = Some pc -> reserve max_disposables t pc late s = Some s' -> inv s'.
Proof.
  intros Hinv Ht. destruct pc; simpl; try done.
  - intros [= <-]. same t (Some (Reserved1 (DISPOSABLE_COUNTER s))).
  - intros [= <-]. same t (Some (Reserved2 cur_global (live_disposables s))).
    simpl. destruct (cur_global <? MAX_DISPOSABLE), (live_disposables s <? max_disposables) eqn:Hlt;
      simpl; lia.
  - destruct (_ && _) eqn:Hb; intros [= <-].
    + same t (Some Overflow). simpl. rewrite Hb. lia.
    + destruct late; [same t (@None Task)|same t (Some Sleeping)]; simpl; rewrite Hb; lia.
Qed.

Lemma inv_connect_overflow s t ok :
  inv s -> tasks s !! t = Some Overflow -> inv (connect_overflow t ok s).
Proof.
  intros Hinv Ht. unfold connect_overflow.
  destruct ok; [same t (Some (HoldsDisposable true))|same t (@None Task)].
Qed.

Lemma inv_drop_handle s s' t pc :
  inv s -> tasks s !! t = Some pc -> drop_handle t pc s = Some s' -> inv s'.
Proof.
  intros Hinv Ht. destruct pc; simpl; try done; intros [= <-].
  - eapply (inv_release s _ t i); try done. by rewrite Ht.
  - same t (@None Task). simpl. destruct admitted0; lia.
Qed.

Lemma inv_drop_future s s' t pc :
  inv s -> tasks s !! t = Some pc -> drop_future t pc s = Some s' -> inv s'.
Proof.
  intros Hinv Ht. pose proof Hinv as [Hl Hown _ Hk _]. destruct pc; simpl; try done; intros [= <-].
  - same t (@None Task).
  - apply (inv_move s _ t None); rewrite ?Ht; simpl; auto; try lia.
    apply owned_leak; rewrite ?Ht; auto.
  - apply (inv_move s _ t None); rewrite ?Ht; simpl; auto; try lia.
    apply (owned_same _ (is_rented (entries s))); rewrite ?Ht; auto.
  - same t (@None Task).
  - eapply (inv_release s _ t i); try done. by rewrite Ht.
  - same t (@None Task).
Qed.

Lemma inv_exec a s s' : inv s -> exec pool_size max_disposables a s = Some s' -> inv s'.
Proof.
  intros Hinv. destruct a; simpl;
    try (destruct (tasks s !! t) as [pc|] eqn:Ht; [|try done]).
  - done.
  - intros [= <-]. same t (Some AtLoop).
  - destruct pc; try done. intros [= <-]. by apply inv_loop_top.
  - destruct pc; try done. intros [= <-]. by apply inv_connect0.
  - destruct pc; try done. intros [= <-]. by apply inv_scan_next.
  - destruct pc; try done. intros [= <-]. by apply inv_read_dead.
  - destruct pc; try done. intros [= <-]. by apply inv_revived.
  - by apply inv_reserve.
  - destruct pc; try done. intros [= <-]. by apply inv_connect_overflow.
  - destruct pc; try done. intros [= <-]. same t (Some AtLoop).
  - destruct pc; try done; simpl; intros [= <-]; [|done]. destruct ok; [done|].
    apply (inv_frame s); simpl; try done; [by rewrite length_alter|].
    intros j. by apply is_rented_alter_same.
  - by apply inv_drop_handle.
  - done.
  - unfold probe. repeat case_match; try done. intros [= <-]. same t (Some (Probing i)).
  - destruct pc; try done. intros [= <-]. unfold ping_start, try_rent. case_match eqn:He; [|done].
    destruct (rented h) eqn:Hr; [same t (@None Task)|]. apply inv_rent; rewrite ?Ht; auto.
  - destruct pc; try done. intros [= <-]. unfold ping_done. destruct alive; same t (Some (Pinged i)).
  - destruct pc; try done. intros [= <-]. eapply (inv_release s _ t i); try done. by rewrite Ht.
  - done.
  - unfold spawn_revive. repeat case_match; try done. intros [= <-]. same t (Some (SpawnChecked i)).
  - destruct pc; try done. intros [= <-]. unfold spawn_pending. repeat case_match; try done.
    + same t (@None Task).
    + same t (Some (BgReviving i)).
  - destruct pc; try done. intros [= <-]. unfold bg_revived.
    pose proof (inv_revive s i ok Hinv) as Hinv'. destruct (revive_frame i ok s) as [Hts _].
    destruct (revive i ok s) as [r s']. simpl in *. rewrite <-Hts in Ht. clear Hinv.
    same t (@None Task).
  - intros [= <-]. by apply (inv_frame s).
  - intros [= <-]. apply (inv_frame s); simpl; try done. lia.
  - by apply inv_drop_future.
Qed.

Lemma pool_reachable_inv s :
  0 <= max_disposables -> reachable pool_size max_disposables s -> inv s.
Proof.
  intros Hm. unfold reachable. generalize (pool_inv_init Hm). generalize pool_new.
  induction 2 as [|s1 s2 s3 [a Ha] _ IH]; [done|]. apply IH. by eapply inv_exec.
Qed.

(** *** Leaks last *)

Lemma exec_leaked a s s' i :
  exec pool_size max_disposables a s = Some s' -> i ∈ leaked_rents s -> i ∈ leaked_rents s'.
Proof.
  intros Ha Hi.
  assert (forall t s, leaked_rents (finish t s) = leaked_rents s) as Hf by done.
  assert (forall j ok s, leaked_rents (snd (revive j ok s)) = leaked_rents s) as Hr
    by (intros j ok s0; apply (revive_frame j ok s0)).
  destruct a; simpl in Ha; repeat case_match; simplify_eq/=; try done;
    unfold loop_top, connect0, scan_next, read_dead, connect_overflow, revived, bg_revived, ping_start,
      ping_done, probe, spawn_revive, spawn_pending, try_rent, reserve, do_request, drop_handle, drop_future in *;
    repeat case_match; simplify_eq/=; rewrite ?elem_of_cons; auto.
  - specialize (Hr i0 ok s). by rewrite H0 in Hr; simpl in Hr; rewrite Hr.
  - specialize (Hr i0 ok s). by rewrite H0 in Hr; simpl in Hr; rewrite Hr.
  - by rewrite Hr.
Qed.

Lemma steps_leaked s s' i :
  rtc (step pool_size max_disposables) s s' -> i ∈ leaked_rents s -> i ∈ leaked_rents s'.
Proof.
  induction 1 as [|s1 s2 s3 [a Ha] _ IH]; [done|]. intros Hi. apply IH. by eapply exec_leaked.
Qed.

(** A rent without an owner stays without one. *)
Lemma leaked_for_ever s i :
  inv s -> i ∈ leaked_rents s ->
  is_rented (entries s) i = true /\ (forall t, owns (tasks s !! t) <> Some i).
Proof.
  intros [_ [_ Hk Hiff] _ _ _] Hi. split; [apply Hiff; auto|]. intros t Ho. by apply (Hk t i).
Qed.

End Invariant.

(** ** One scan on its own *)

(** The transitions of [acts], one after the other. *)
Definition run (pool_size max_disposables : Z) (acts : list Action) (s : Pool) : option Pool :=
  foldl (fun o a => o ≫= exec pool_size max_disposables a) (Some s) acts.

Lemma run_snoc ps mx acts a s : run ps mx (acts ++ [a]) s = run ps mx acts s ≫= exec ps mx a.
Proof. unfold run. by rewrite foldl_app. Qed.

Lemma run_none ps mx acts : foldl (fun o a => o ≫= exec ps mx a) None acts = None.
Proof. by induction acts. Qed.

Lemma run_cons ps mx a acts s : run ps mx (a :: acts) s = exec ps mx a s ≫= run ps mx acts.
Proof. unfold run. simpl. destruct (exec ps mx a s); simpl; [done|apply run_none]. Qed.

Lemma run_reachable ps mx acts s s' : run ps mx acts s = Some s' -> rtc (step ps mx) s s'.
Proof.
  revert s. induction acts as [|a acts IH]; intros s; [intros [= <-]; constructor|].
  rewrite run_cons. destruct (exec ps mx a s) as [s1|] eqn:Ha; [|done]. intros Hr.
  eapply rtc_l; [by exists a|by apply IH].
Qed.

(** The entries a scan has still to try. *)
Definition to_try (start offset len : nat) : list nat :=
  map (fun k => ((start + k) mod len)%nat) (seq offset (len - offset)).

Lemma to_try_step start offset len :
  (offset < len)%nat ->
  to_try start offset len = ((start + offset) mod len)%nat :: to_try start (S offset) len.
Proof.
  intros Hlt. unfold to_try. replace (len - offset)%nat with (S (len - S offset)) by lia. done.
Qed.

Lemma to_try_in start offset len i : i ∈ to_try start offset len -> (i < len)%nat.
Proof.
  unfold to_try. intros Hi. apply list_elem_of_fmap in Hi as (k & -> & Hk). apply elem_of_seq in Hk.
  apply Nat.mod_upper_bound. lia.
Qed.

(** Round robin misses no entry. *)
Lemma to_try_all start len i : (i < len)%nat -> i ∈ to_try start 0 len.
Proof.
  intros Hi. apply list_elem_of_fmap. exists ((i + (len - start mod len)) mod len)%nat. split.
  - rewrite Nat.Div0.add_mod_idemp_r, <-Nat.Div0.add_mod_idemp_l.
    pose proof (Nat.mod_upper_bound start len ltac:(lia)).
    replace (start mod len + (i + (len - start mod len)))%nat with (i + 1 * len)%nat by lia.
    by rewrite Nat.Div0.mod_add, Nat.mod_small.
  - apply elem_of_seq. pose proof (Nat.mod_upper_bound (i + (len - start mod len)) len ltac:(lia)). lia.
Qed.

(** Alone, a scan rents the first free entry in its order, or falls through
    to phase 2. *)
Lemma scan_from ps mx n : forall s t start offset len,
  (len - offset = n)%nat -> (len <= length (entries s))%nat ->
  tasks s !! t = Some (Scanning start offset len) ->
  match list_find (fun i => is_rented (entries s) i = false) (to_try start offset len) with
  | Some (k, i) =>
      exists s', run ps mx (replicate (S k) (ScanNext t)) s = Some s' /\
        tasks s' !! t = Some (Rented i) /\ entries s' = alter (set_rented true) i (entries s)
  | None =>
      exists s', run ps mx (replicate (S n) (ScanNext t)) s = Some s' /\
        tasks s' !! t = Some Reserving /\ entries s' = entries s
  end.
Proof.
  induction n as [|n IH]; intros s t start offset len Hn Hlen Ht.
  - unfold to_try. rewrite Hn. simpl list_find. cbv iota beta. eexists. split.
    + simpl replicate. rewrite run_cons. simpl. rewrite Ht. unfold scan_next. by rewrite decide_False by lia.
    + simpl. by rewrite lookup_insert_eq.
  - rewrite to_try_step by lia. simpl list_find. set (i := ((start + offset) mod len)%nat).
    assert (is_Some (entries s !! i)) as [e He].
    { apply lookup_lt_is_Some. pose proof (Nat.mod_upper_bound (start + offset) len). lia. }
    assert (exec ps mx (ScanNext t) s = Some (scan_next t start offset len s)) as Hx by (simpl; by rewrite Ht).
    unfold scan_next in Hx. rewrite decide_True in Hx by lia. fold i in Hx. rewrite He in Hx.
    unfold try_rent in Hx.
    destruct (decide (is_rented (entries s) i = false)) as [Hr|Hr];
      rewrite (is_rented_lookup _ _ _ He) in Hr.
    + rewrite Hr in Hx. eexists. split; [simpl replicate; by rewrite run_cons, Hx|]. simpl.
      rewrite lookup_insert_eq. split; [done|]. rewrite list_insert_alter.
      apply list_alter_ext; [|done]. intros x Hx'. rewrite He in Hx'. by injection Hx' as ->.
    + apply not_false_is_true in Hr. rewrite Hr in Hx.
      specialize (IH (goto t (Scanning start (S offset) len) s) t start (S offset) len).
      simpl in IH. specialize (IH ltac:(lia) Hlen ltac:(by rewrite lookup_insert_eq)).
      destruct (list_find _ _) as [[k j]|]; simpl; destruct IH as (s' & Hrun & Hpc & Hes);
        exists s'; (split; [rewrite run_cons, Hx; exact Hrun|done]).
Qed.

(** C28: in every state the pool can reach, under every interleaving of
    requests, probes, revivals, shutdown and dropped futures: the pool never
    exceeds its size; two tasks never hold the same entry, so no two requests
    share a connection; an entry is marked rented exactly when a task holds
    it, up to the rents that dropped futures took with them; the per-pool
    counter is the number of tasks with a slot, up to the same leaks; and
    phase 2 never has more than [max_disposables] admitted connections. *)
Theorem pool_safe (pool_size max_disposables : Z) (s : Pool) :
  0 <= max_disposables -> reachable pool_size max_disposables s ->
  Z.of_nat (length (entries s)) <= Z.max 0 pool_size /\
  (forall t1 t2 i, owns (tasks s !! t1) = Some i -> owns (tasks s !! t2) = Some i -> t1 = t2) /\
  (forall i, is_rented (entries s) i = true <->
             (exists t, owns (tasks s !! t) = Some i) \/ i ∈ leaked_rents s) /\
  live_disposables s = count slot (tasks s) + leaked_slots s /\
  count (admitted max_disposables) (tasks s) <= max_disposables.
Proof.
  intros Hm Hr. destruct (pool_reachable_inv _ _ s Hm Hr) as [Hl [Hx _ Hi] Hlive _ Ha].
  unfold target in Hl. repeat split; auto; try apply Hi. lia.
Qed.

Definition demo_acts : list Action :=
  [Request 1; LoopTop 1; Connect0 1 true; Request 2; LoopTop 2; ScanNext 2; ScanNext 2;
   Reserve 2 false; Reserve 2 false; Reserve 2 false; ConnectOverflow 2 true].

Lemma pool_safe_witness :
  exists s, reachable 1 5 s /\ owns (tasks s !! 1%nat) = Some 0%nat /\
    live_disposables s = 1 /\ Z.of_nat (length (entries s)) <= 1.
Proof.
  destruct (run 1 5 demo_acts pool_new) as [s|] eqn:Hs; [|by vm_compute in Hs].
  assert (reachable 1 5 s) as Hr by (by eapply run_reachable).
  exists s. split; [done|].
  pose proof (pool_safe 1 5 s ltac:(lia) Hr) as (Hl & _).
  vm_compute in Hs. injection Hs as <-. by vm_compute.
Defined.

(** Dropping a [get_connection] future while it awaits the revival of an
    entry loses the rent for good: the entry stays marked rented and no task
    ever holds it again, whatever happens later. *)
Theorem dropped_revive_leaks (pool_size max_disposables : Z) (s s' s'' : Pool) (t i : nat) :
  0 <= max_disposables -> reachable pool_size max_disposables s ->
  tasks s !! t = Some (Reviving i) ->
  exec pool_size max_disposables (DropFuture t) s = Some s' ->
  rtc (step pool_size max_disposables) s' s'' ->
  is_rented (entries s'') i = true /\ (forall t', owns (tasks s'' !! t') <> Some i).
Proof.
  intros Hm Hr Ht Hd Hs. apply leaked_for_ever with pool_size max_disposables.
  - apply pool_reachable_inv; [done|]. unfold reachable in *. etransitivity; [exact Hr|].
    eapply rtc_l; [by exists (DropFuture t)|done].
  - eapply steps_leaked; [done|]. simpl in Hd. rewrite Ht in Hd. injection Hd as <-. by left.
Qed.

Definition leak_acts : list Action :=
  [Request 1; LoopTop 1; Connect0 1 true; RequestDone 1 false; DropHandle 1;
   Request 2; LoopTop 2; ScanNext 2; ReadDead 2].

Lemma dropped_revive_leaks_witness :
  exists s s', run 1 5 leak_acts pool_new = Some s /\ exec 1 5 (DropFuture 2) s = Some s' /\
    is_rented (entries s') 0 = true /\ (forall t', owns (tasks s' !! t') <> Some 0%nat).
Proof.
  destruct (run 1 5 leak_acts pool_new) as [s|] eqn:Hs; [|by vm_compute in Hs].
  assert (tasks s !! 2%nat = Some (Reviving 0)) as Ht
    by (vm_compute in Hs; by injection Hs as <-).
  destruct (exec 1 5 (DropFuture 2) s) as [s'|] eqn:Hd; [|simpl in Hd; by rewrite Ht in Hd].
  exists s, s'. split; [done|]. split; [done|].
  apply (dropped_revive_leaks 1 5 s s' s' 2 0); try done. by eapply run_reachable.
Defined.

(** A request that scans a full pool while no other task moves rents an
    entry whenever one is free, within one round, and otherwise goes on to
    phase 2 having changed nothing. *)
Theorem scan_rents_free (pool_size max_disposables : Z) (s : Pool) (t start : nat) :
  tasks s !! t = Some (Scanning start 0 (length (entries s))) ->
  exists k s', (k <= length (entries s))%nat /\
    run pool_size max_disposables (replicate (S k) (ScanNext t)) s = Some s' /\
    ((exists i, (i < length (entries s))%nat /\ is_rented (entries s) i = false /\
        tasks s' !! t = Some (Rented i) /\ entries s' = alter (set_rented true) i (entries s)) \/
     ((forall i, (i < length (entries s))%nat -> is_rented (entries s) i = true) /\
        tasks s' !! t = Some Reserving /\ entries s' = entries s)).
Proof.
  intros Ht. pose proof (scan_from pool_size max_disposables (length (entries s)) s t start 0
    (length (entries s)) ltac:(lia) ltac:(lia) Ht) as Hscan.
  destruct (list_find _ _) as [[k i]|] eqn:Hf.
  - apply list_find_Some in Hf as (Hk & Hfree & _). destruct Hscan as (s' & Hrun & Hpc & Hes).
    exists k, s'. split_and!; [|done|left; exists i; split_and!; try done].
    + apply lookup_lt_Some in Hk. unfold to_try in Hk. rewrite length_map, length_seq in Hk. lia.
    + eapply to_try_in. by eapply list_elem_of_lookup_2.
  - destruct Hscan as (s' & Hrun & Hpc & Hes). eexists _, s'. split; [reflexivity|].
    split; [exact Hrun|]. right. split; [|done]. intros i Hi.
    apply list_find_None in Hf. rewrite Forall_forall in Hf.
    specialize (Hf i (to_try_all start _ i Hi)). by destruct (is_rented _ _).
Qed.

Lemma scan_rents_free_witness :
  exists s s', run 1 5 (take 5 demo_acts) pool_new = Some s /\
    run 1 5 [ScanNext 2; ScanNext 2] s = Some s' /\ tasks s' !! 2%nat = Some Reserving.
Proof.
  destruct (run 1 5 (take 5 demo_acts) pool_new) as [s|] eqn:Hs; [|by vm_compute in Hs].
  exists s. vm_compute in Hs.
  destruct (scan_rents_free 1 5 s 2 0) as (k & s' & Hk & Hrun & [(i & Hi & Hfree & _)|(_ & Hpc & _)]);
    injection Hs as <-; [reflexivity|..].
  - exfalso. simpl in Hi. destruct i; [by vm_compute in Hfree|lia].
  - destruct k as [|[|k]]; [..|simpl in Hk; lia].
    + exfalso. vm_compute in Hrun. injection Hrun as <-. by vm_compute in Hpc.
    + by exists s'.
Defined.

End H1Pool.
