(* ===== verification/IpBlocklist.v ===== *)
(** * Automatic IP block-list: [app/ip_blocklist.rs], [types/whitelisted_ip.rs],
      [types/whitelisted_ip_list.rs]

    Every accepted connection asks the block-list first; failed handshakes,
    unmatched requests and refused credentials are counted per address in a
    fixed window and, past a threshold, block the address for five minutes.
    An optional white list exempts addresses.  Times are Unix microseconds;
    the arithmetic of the date-time library is a parameter. *)

From Stdlib Require Import ZArith Lia Strings.String Strings.Byte.
From stdpp Require Import base tactics list gmap fin_maps countable strings.
From S2P Require Import Prelude RustStd.

Local Open Scope Z_scope.

(** The date-time library: [now.duration_since(start).get_full_seconds()] and
    [t.add_seconds(s)], on instants of the supported clock range. *)
Definition clock (t : Z) : Prop := 0 <= t < 2 ^ 62.

Class DateTimeLib := {
  full_seconds_since : Z -> Z -> Z;
  add_seconds : Z -> Z -> Z;
  full_seconds_spec : forall now start,
    clock now -> clock start -> start <= now ->
    full_seconds_since now start = (now - start) / 1000000;
  add_seconds_spec : forall t s, clock t -> 0 <= s < 2 ^ 32 -> add_seconds t s = t + s * 1000000
}.

Module WhiteList.

(** [std::net::IpAddr] *)
Inductive IpAddr :=
  | V4 (a b c d : byte)
  | V6 (octets : bytes).

#[global] Instance IpAddr_eq_dec : EqDecision IpAddr.
Proof. solve_decision. Defined.

#[global] Program Instance IpAddr_countable : Countable IpAddr :=
  inj_countable
    (fun ip => match ip with V4 a b c d => inl (a, b, c, d) | V6 o => inr o end)
    (fun x => Some (match x with inl (a, b, c, d) => V4 a b c d | inr o => V6 o end)) _.
Next Obligation. by intros []. Qed.

(** [WhitelistedIp] *)
Inductive WhitelistedIp :=
  | SingleIp (ip : Z)
  | Range (ip_from ip_to : Z).

(** [v << n] on [u32]: bits shifted out are lost. *)
Definition shl32 (v n : Z) : Z := Z.shiftl v n mod 2 ^ 32.

(** [IntoIp for &str] *)
Fixpoint str_ip_loop (i : nat) (parts : list bytes) (result : Z) : outcome Empty_set Z :=
  match parts with
  | [] => Ok result
  | v :: parts =>
      n ← (if decide (i < 4)%nat then unwrap (Str.parse_uint (2 ^ 32 - 1) v) else Panic);
      str_ip_loop (S i) parts (Z.lor result (shl32 n (24 - 8 * Z.of_nat i)))
  end.

Definition str_ip_value (s : bytes) : outcome Empty_set Z :=
  str_ip_loop 0 (Str.split Byte.x2e s) 0.

(** [IntoIp for &[u8; 4]] *)
Definition octets_ip_value (a b c d : byte) : Z :=
  Z.lor (Z.lor (Z.lor (Z.lor 0 (shl32 (u8 a) 24)) (shl32 (u8 b) 16)) (shl32 (u8 c) 8)) (u8 d).

(** [IntoIp for IpAddr] *)
Definition get_ip_value (ip : IpAddr) : outcome Empty_set Z :=
  match ip with
  | V4 a b c d => Ok (octets_ip_value a b c d)
  | V6 _ => Panic
  end.

Definition is_my_ip (w : WhitelistedIp) (other_ip : IpAddr) : outcome Empty_set bool :=
  value ← get_ip_value other_ip;
  Ok (match w with
      | SingleIp ip => ip =? value
      | Range ip_from ip_to => (ip_from <=? value) && (value <=? ip_to)
      end).

(** [to_ip], printed by [Ipv4Addr]'s [Display] *)
Definition to_ip (ip : Z) : bytes :=
  Str.uint_to_string (ip / 2 ^ 24 mod 256) ++ [Byte.x2e] ++
  Str.uint_to_string (ip / 2 ^ 16 mod 256) ++ [Byte.x2e] ++
  Str.uint_to_string (ip / 2 ^ 8 mod 256) ++ [Byte.x2e] ++
  Str.uint_to_string (ip mod 256).

Definition to_string (w : WhitelistedIp) : bytes :=
  match w with
  | SingleIp ip => to_ip ip
  | Range ip_from ip_to => to_ip ip_from ++ [Byte.x2d] ++ to_ip ip_to
  end.

(** [WhiteListedIpList::new] *)
Definition new_item (itm : bytes) : outcome Empty_set WhitelistedIp :=
  match Str.split Byte.x2d itm with
  | [] => Panic
  | [lhs] => ip ← str_ip_value lhs; Ok (SingleIp ip)
  | lhs :: rhs :: _ =>
      ip_from ← str_ip_value lhs; ip_to ← str_ip_value rhs; Ok (Range ip_from ip_to)
  end.

Fixpoint new (src : list bytes) : outcome Empty_set (list WhitelistedIp) :=
  match src with
  | [] => Ok []
  | itm :: src => w ← new_item itm; items ← new src; Ok (w :: items)
  end.

Fixpoint any_my_ip (items : list WhitelistedIp) (ip : IpAddr) : outcome Empty_set bool :=
  match items with
  | [] => Ok false
  | itm :: items => b ← is_my_ip itm ip; if (b : bool) then Ok true else any_my_ip items ip
  end.

Definition is_whitelisted (items : list WhitelistedIp) (ip : IpAddr) : outcome Empty_set bool :=
  match items with [] => Ok true | _ => any_my_ip items ip end.

Definition to_list_of_string (items : list WhitelistedIp) : list bytes := map to_string items.

(** ** The white list, printed and read back *)

Lemma lor_low q k y : 0 <= k -> 0 <= y < 2 ^ k -> Z.lor (q * 2 ^ k) y = q * 2 ^ k + y.
Proof.
  intros Hk Hy.
  assert (Z.land (q * 2 ^ k) y = 0) as Hl.
  { apply Z.bits_inj'. intros j Hj. rewrite Z.land_spec, Z.bits_0. apply andb_false_iff.
    destruct (decide (j < k)); [left; by apply Z.mul_pow2_bits_low|right].
    apply Z.testbit_false; [lia|]. rewrite Z.div_small; [done|].
    assert (2 ^ k <= 2 ^ j) by (apply Z.pow_le_mono_r; lia). lia. }
  by rewrite <-Z.lxor_lor, Z.add_nocarry_lxor.
Qed.

Definition ip_of (a b c d : Z) : Z := a * 2 ^ 24 + b * 2 ^ 16 + c * 2 ^ 8 + d.

(** Both parsers put the four parts at their places. *)
Lemma lor_octets a b c d :
  0 <= a < 256 -> 0 <= b < 256 -> 0 <= c < 256 -> 0 <= d < 256 ->
  Z.lor (Z.lor (Z.lor (Z.lor 0 (shl32 a 24)) (shl32 b 16)) (shl32 c 8)) d = ip_of a b c d.
Proof.
  intros. unfold shl32, ip_of. rewrite !Z.shiftl_mul_pow2, !Z.mod_small by lia. rewrite Z.lor_0_l.
  rewrite (lor_low a 24) by lia.
  replace (a * 2 ^ 24 + b * 2 ^ 16) with ((a * 2 ^ 8 + b) * 2 ^ 16) by lia.
  rewrite (lor_low _ 16) by lia.
  replace ((a * 2 ^ 8 + b) * 2 ^ 16 + c * 2 ^ 8) with ((a * 2 ^ 16 + b * 2 ^ 8 + c) * 2 ^ 8) by lia.
  rewrite (lor_low _ 8) by lia. lia.
Qed.

Lemma octets_value a b c d : octets_ip_value a b c d = ip_of (u8 a) (u8 b) (u8 c) (u8 d).
Proof. apply lor_octets; apply u8_range. Qed.

Lemma ip_parts v :
  in_u32 v -> ip_of (v / 2 ^ 24 mod 256) (v / 2 ^ 16 mod 256) (v / 2 ^ 8 mod 256) (v mod 256) = v.
Proof.
  unfold in_u32, ip_of. intros Hv.
  change (2 ^ 24) with (256 * (256 * 256)). change (2 ^ 16) with (256 * 256). change (2 ^ 8) with 256.
  rewrite <-!Z.div_div by lia.
  pose proof (Z.div_mod v 256). pose proof (Z.div_mod (v / 256) 256).
  pose proof (Z.div_mod (v / 256 / 256) 256).
  assert (v / 256 / 256 / 256 < 256) by (repeat apply Z.div_lt_upper_bound; lia).
  assert (0 <= v / 256 / 256 / 256) by (repeat apply Z.div_pos; lia).
  rewrite (Z.mod_small (v / 256 / 256 / 256)) by lia. lia.
Qed.

Lemma to_ip_parts v : Str.split Byte.x2e (to_ip v) =
  [Str.uint_to_string (v / 2 ^ 24 mod 256); Str.uint_to_string (v / 2 ^ 16 mod 256);
   Str.uint_to_string (v / 2 ^ 8 mod 256); Str.uint_to_string (v mod 256)].
Proof.
  unfold to_ip. cbn [app]. rewrite !Str.split_app_sep by (by apply uint_to_string_no).
  by rewrite Str.split_no_sep by (by apply uint_to_string_no).
Qed.

Lemma str_ip_value_to_ip v : in_u32 v -> str_ip_value (to_ip v) = Ok v.
Proof.
  intros Hv. unfold str_ip_value. rewrite to_ip_parts.
  pose proof (Z.mod_pos_bound (v / 2 ^ 24) 256). pose proof (Z.mod_pos_bound (v / 2 ^ 16) 256).
  pose proof (Z.mod_pos_bound (v / 2 ^ 8) 256). pose proof (Z.mod_pos_bound v 256).
  cbn [str_ip_loop]. rewrite !decide_True by lia. rewrite !parse_uint_to_string by lia.
  cbn [unwrap mbind outcome_bind]. f_equal.
  change (24 - 8 * Z.of_nat 0) with 24. change (24 - 8 * Z.of_nat 1) with 16.
  change (24 - 8 * Z.of_nat 2) with 8. change (24 - 8 * Z.of_nat 3) with 0.
  unfold shl32 at 4. rewrite Z.shiftl_0_r, (Z.mod_small (v mod 256)) by lia.
  rewrite lor_octets by lia. by apply ip_parts.
Qed.

Lemma to_ip_no_dash v : Byte.x2d ∉ to_ip v.
Proof.
  unfold to_ip. repeat (apply not_elem_of_app; split); try (by apply uint_to_string_no);
    (apply not_elem_of_cons; split; [done|apply not_elem_of_nil]).
Qed.

Definition item_ok (w : WhitelistedIp) : Prop :=
  match w with SingleIp ip => in_u32 ip | Range ip_from ip_to => in_u32 ip_from /\ in_u32 ip_to end.

Lemma new_item_to_string w : item_ok w -> new_item (to_string w) = Ok w.
Proof.
  pose proof to_ip_no_dash. unfold new_item. destruct w as [ip|f t]; simpl.
  - intros Hw. rewrite Str.split_no_sep by done. by rewrite str_ip_value_to_ip.
  - intros [Hf Ht]. rewrite Str.split_app_sep, Str.split_no_sep by done.
    by rewrite !str_ip_value_to_ip.
Qed.

Lemma new_to_list items : Forall item_ok items -> new (to_list_of_string items) = Ok items.
Proof.
  induction 1 as [|w items Hw _ IH]; [done|]. simpl. by rewrite new_item_to_string, IH.
Qed.

(** The addresses an item covers. *)
Definition covers (w : WhitelistedIp) (v : Z) : Prop :=
  match w with SingleIp ip => v = ip | Range ip_from ip_to => ip_from <= v <= ip_to end.

Lemma any_my_ip_v4 items a b c d :
  exists r, any_my_ip items (V4 a b c d) = Ok r /\
    (r = true <-> Exists (fun w => covers w (octets_ip_value a b c d)) items).
Proof.
  induction items as [|w items (r & Hr & Hiff)]; [exists false; by rewrite Exists_nil|].
  simpl. set (v := octets_ip_value a b c d) in *.
  destruct (match w with SingleIp ip => ip =? v | Range f t => (f <=? v) && (v <=? t) end) eqn:Hw.
  - exists true. split; [done|]. rewrite Exists_cons. split; [|done]. intros _. left.
    destruct w; simpl in *; lia.
  - exists r. split; [done|]. rewrite Exists_cons, Hiff. split; [auto|]. intros [Hc|]; [|done].
    exfalso. destruct w; simpl in *; lia.
Qed.

(** A configured white list means what it prints.  Reading back the
    printed items gives the same list; an IPv4 address is on a non-empty list
    exactly when an item covers its value, the octets in network order; and
    asking about any IPv6 address stops the task. *)
Theorem white_list_exact (items : list WhitelistedIp) :
  Forall item_ok items -> items <> [] ->
  new (to_list_of_string items) = Ok items /\
  (forall a b c d, exists r, is_whitelisted items (V4 a b c d) = Ok r /\
     (r = true <->
      Exists (fun w => covers w (u8 a * 2 ^ 24 + u8 b * 2 ^ 16 + u8 c * 2 ^ 8 + u8 d)) items)) /\
  (forall octets, is_whitelisted items (V6 octets) = Panic).
Proof.
  intros Hok Hne. split; [by apply new_to_list|]. destruct items as [|w items]; [done|]. split.
  - intros a b c d. destruct (any_my_ip_v4 (w :: items) a b c d) as (r & Hr & Hiff).
    exists r. split; [done|]. by rewrite octets_value in Hiff.
  - done.
Qed.

Lemma white_list_exact_witness :
  new [bs "127.0.0.5-127.0.0.10"%string] = Ok [Range 2130706437 2130706442] /\
  exists r, is_whitelisted [Range 2130706437 2130706442]
              (V4 Byte.x7f Byte.x00 Byte.x00 Byte.x0a) = Ok r /\ r = true.
Proof.
  destruct (white_list_exact [Range 2130706437 2130706442]) as (Hn & Hv4 & _);
    [repeat constructor; by vm_compute|done|].
  split; [exact Hn|]. destruct (Hv4 Byte.x7f Byte.x00 Byte.x00 Byte.x0a) as (r & Hr & Hiff).
  exists r. split; [done|]. apply Hiff. constructor. by vm_compute.
Defined.

End WhiteList.

Module IpBlocklist.
Import WhiteList.

Definition WINDOW_SECS : Z := 15.
Definition HARD_FAIL_THRESHOLD : Z := 5.
Definition SOFT_FAIL_THRESHOLD : Z := 30.
Definition BLOCK_SECS : Z := 5 * 60.

Inductive FailureSeverity := Hard | Soft.
#[global] Instance FailureSeverity_eq_dec : EqDecision FailureSeverity.
Proof. solve_decision. Defined.

Record IpEntry := {
  hard_count : Z;
  soft_count : Z;
  window_start : Z;
  blocked_until : option Z
}.

Record State := {
  entries : gmap IpAddr IpEntry;
  white_list : option (list WhitelistedIp)
}.

Definition init : State := {| entries := ∅; white_list := None |}.

Definition set_entries (m : gmap IpAddr IpEntry) (s : State) : State :=
  {| entries := m; white_list := white_list s |}.

Definition set_white_list (src : option (list bytes)) (s : State) : outcome Empty_set State :=
  match src with
  | Some (x :: xs) =>
      wl ← new (x :: xs); Ok {| entries := entries s; white_list := Some wl |}
  | _ => Ok {| entries := entries s; white_list := None |}
  end.

Definition is_white_listed (s : State) (ip : IpAddr) : outcome Empty_set bool :=
  match white_list s with Some wl => is_whitelisted wl ip | None => Ok false end.

(** [u16::saturating_add(1)] *)
Definition saturating_inc (c : Z) : Z := Z.min (2 ^ 16 - 1) (c + 1).

(** Whether a block is in force at [now]. *)
Definition blocking (now : Z) (e : IpEntry) : bool :=
  match blocked_until e with Some until => now <? until | None => false end.

Definition is_blocked (s : State) (ip : IpAddr) (now : Z) : outcome Empty_set bool :=
  wl ← is_white_listed s ip;
  if (wl : bool) then Ok false
  else Ok (match entries s !! ip with Some e => blocking now e | None => false end).

Definition register_success (ip : IpAddr) (s : State) : State := set_entries (delete ip (entries s)) s.

Definition unblock (ip : IpAddr) (s : State) : bool * State :=
  (bool_decide (is_Some (entries s !! ip)), set_entries (delete ip (entries s)) s).

(** The operations as events at an instant. *)
Inductive Event :=
  | Failure (ip : IpAddr) (severity : FailureSeverity)
  | Success (ip : IpAddr)
  | Unblock (ip : IpAddr)
  | Cleanup
  | SetWhiteList (src : option (list bytes)).
#[global] Instance Event_eq_dec : EqDecision Event.
Proof. solve_decision. Defined.

Section Ops.
Context `{DateTimeLib}.

(** The update of an entry in [register_failure]. *)
Definition failure_entry (now : Z) (severity : FailureSeverity) (e : IpEntry) : IpEntry :=
  let e :=
    if WINDOW_SECS <? full_seconds_since now (window_start e)
    then {| hard_count := 0; soft_count := 0; window_start := now; blocked_until := blocked_until e |}
    else e in
  let e :=
    match severity with
    | Hard => {| hard_count := saturating_inc (hard_count e); soft_count := soft_count e;
                 window_start := window_start e; blocked_until := blocked_until e |}
    | Soft => {| hard_count := hard_count e; soft_count := saturating_inc (soft_count e);
                 window_start := window_start e; blocked_until := blocked_until e |}
    end in
  if (HARD_FAIL_THRESHOLD <=? hard_count e) || (SOFT_FAIL_THRESHOLD <=? soft_count e)
  then {| hard_count := hard_count e; soft_count := soft_count e; window_start := window_start e;
          blocked_until := Some (add_seconds now BLOCK_SECS) |}
  else e.

Definition fresh_entry (now : Z) : IpEntry :=
  {| hard_count := 0; soft_count := 0; window_start := now; blocked_until := None |}.

(** [register_failure]; the first component is the counts of the log line
    written when the failure starts a block. *)
Definition register_failure (ip : IpAddr) (severity : FailureSeverity) (now : Z) (s : State) :
    outcome Empty_set (option (Z * Z) * State) :=
  wl ← is_white_listed s ip;
  if (wl : bool) then Ok (None, s)
  else
    let e := default (fresh_entry now) (entries s !! ip) in
    let e' := failure_entry now severity e in
    let newly_blocked := blocking now e' && negb (blocking now e) in
    Ok (if newly_blocked then Some (hard_count e', soft_count e') else None,
        set_entries (<[ip := e']> (entries s)) s).

Definition retained (now : Z) (e : IpEntry) : bool :=
  blocking now e || (full_seconds_since now (window_start e) <=? WINDOW_SECS).

Definition cleanup (now : Z) (s : State) : nat * State :=
  let m := filter (fun kv => retained now (snd kv) = true) (entries s) in
  (size (filter (fun kv => blocking now (snd kv) = true) m), set_entries m s).

Definition exec (now : Z) (ev : Event) (s : State) : outcome Empty_set State :=
  match ev with
  | Failure ip severity => snd <$> register_failure ip severity now s
  | Success ip => Ok (register_success ip s)
  | Unblock ip => Ok (snd (unblock ip s))
  | Cleanup => Ok (snd (cleanup now s))
  | SetWhiteList src => set_white_list src s
  end.

Fixpoint run (evs : list (Z * Event)) (s : State) : outcome Empty_set State :=
  match evs with
  | [] => Ok s
  | (now, ev) :: evs => s ← exec now ev s; run evs s
  end.

(** The history of a process: an operation that panics takes its task down and
    leaves the block-list as it was, because the white list is built and asked
    before anything is stored. *)
Definition task (s : State) (x : Z * Event) : State :=
  match exec (fst x) (snd x) s with Ok s' => s' | _ => s end.

Definition history (evs : list (Z * Event)) (s : State) : State := fold_left task evs s.

End Ops.

(** The events are in the order of a clock that does not go back, from [lo]
    to [hi]. *)
Fixpoint ordered (lo : Z) (evs : list (Z * Event)) (hi : Z) : Prop :=
  match evs with
  | [] => lo <= hi
  | (now, _) :: evs => lo <= now /\ ordered now evs hi
  end.

Definition is_failure (ip : IpAddr) (severity : FailureSeverity) (lo hi : Z) (x : Z * Event) : bool :=
  match x with
  | (t, Failure ip' severity') =>
      bool_decide (ip' = ip) && bool_decide (severity' = severity) && (lo <=? t) && (t <=? hi)
  | _ => false
  end.

(** The number of failures of [ip] in [[lo, hi]]. *)
Definition failures (ip : IpAddr) (severity : FailureSeverity) (lo hi : Z) (evs : list (Z * Event)) : Z :=
  Z.of_nat (length (filter (fun x => is_failure ip severity lo hi x = true) evs)).

(** ** Counting failures *)

Lemma failures_snoc ip sev lo hi evs x :
  failures ip sev lo hi (evs ++ [x]) =
  failures ip sev lo hi evs + (if is_failure ip sev lo hi x then 1 else 0).
Proof.
  unfold failures. rewrite list.filter_app, length_app, list.filter_cons, list.filter_nil.
  destruct (is_failure ip sev lo hi x); [rewrite decide_True by done|rewrite decide_False by done];
    simpl; lia.
Qed.

Lemma failures_nonneg ip sev lo hi evs : 0 <= failures ip sev lo hi evs.
Proof. unfold failures. lia. Qed.

Lemma is_failure_mono ip sev lo hi hi' x :
  hi <= hi' -> is_failure ip sev lo hi x = true -> is_failure ip sev lo hi' x = true.
Proof. unfold is_failure. repeat case_match; try done. rewrite !andb_true_iff, !Z.leb_le. intuition lia. Qed.

Lemma failures_mono ip sev lo hi hi' evs :
  hi <= hi' -> failures ip sev lo hi evs <= failures ip sev lo hi' evs.
Proof.
  intros Hle. induction evs as [|x evs IH] using rev_ind; [done|]. rewrite !failures_snoc.
  pose proof (is_failure_mono ip sev lo hi hi' x Hle).
  destruct (is_failure ip sev lo hi x); [|destruct (is_failure ip sev lo hi' x); lia].
  rewrite H by done. lia.
Qed.

Lemma failures_grow ip sev lo hi hi' evs x :
  hi <= hi' -> failures ip sev lo hi evs <= failures ip sev lo hi' (evs ++ [x]).
Proof.
  intros Hle. rewrite failures_snoc. pose proof (failures_mono ip sev lo hi hi' evs Hle).
  destruct (is_failure ip sev lo hi' x); lia.
Qed.

Lemma failures_this ip sev lo hi now evs :
  lo <= now -> hi <= now ->
  failures ip sev lo hi evs + 1 <= failures ip sev lo now (evs ++ [(now, Failure ip sev)]).
Proof.
  intros Hlo Hhi. rewrite failures_snoc. pose proof (failures_mono ip sev lo hi now evs Hhi).
  simpl. rewrite !bool_decide_eq_true_2 by done. simpl.
  destruct (lo <=? now) eqn:E1, (now <=? now) eqn:E2; simpl; lia.
Qed.

Lemma ordered_snoc lo evs hi now ev :
  ordered lo (evs ++ [(now, ev)]) hi <-> ordered lo evs now /\ now <= hi.
Proof.
  revert lo. induction evs as [|[t e] evs IH]; intros lo; simpl; [tauto|]. rewrite IH. tauto.
Qed.

Lemma ordered_le lo evs hi : ordered lo evs hi -> lo <= hi.
Proof. revert lo. induction evs as [|[t e] evs IH]; intros lo; simpl; [done|]. intros [? ?%IH]. lia. Qed.

Lemma ordered_weaken lo evs hi hi' : hi <= hi' -> ordered lo evs hi -> ordered lo evs hi'.
Proof.
  intros Hle. revert lo. induction evs as [|[t e] evs IH]; intros lo; simpl; [lia|]. intros [? ?]. auto.
Qed.

Section Proofs.
Context `{DateTimeLib}.

Lemma run_app evs1 evs2 s : run (evs1 ++ evs2) s = run evs1 s ≫= run evs2.
Proof.
  revert s. induction evs1 as [|[now ev] evs1 IH]; intros s; [done|]. simpl.
  destruct (exec now ev s); simpl; [apply IH|done|done].
Qed.

(** ** Soundness of a block *)

(** A block that ends at [until] was earned: within one window a threshold
    was reached, by the failure the block is counted from. *)
Definition justified (h : list (Z * Event)) (ip : IpAddr) (last until : Z) : Prop :=
  exists w T sev, (T, Failure ip sev) ∈ h /\ until = T + BLOCK_SECS * 1000000 /\ w <= T <= last /\
    (T - w) / 1000000 <= WINDOW_SECS /\
    (HARD_FAIL_THRESHOLD <= failures ip Hard w T h \/ SOFT_FAIL_THRESHOLD <= failures ip Soft w T h).

Record entry_ok (h : list (Z * Event)) (last : Z) (ip : IpAddr) (e : IpEntry) : Prop := {
  ok_start : 0 <= window_start e <= last;
  ok_hard : hard_count e <= failures ip Hard (window_start e) last h;
  ok_soft : soft_count e <= failures ip Soft (window_start e) last h;
  ok_block : forall until, blocked_until e = Some until -> justified h ip last until
}.

Lemma justified_mono h x ip last last' until :
  last <= last' -> justified h ip last until -> justified (h ++ [x]) ip last' until.
Proof.
  intros Hle (w & T & sev & Hin & -> & HT & Hw & Hc). exists w, T, sev. split_and!; try done; try lia.
  { apply elem_of_app. by left. }
  pose proof (failures_grow ip Hard w T T h x). pose proof (failures_grow ip Soft w T T h x). lia.
Qed.

Lemma entry_ok_mono h x last last' ip e :
  last <= last' -> entry_ok h last ip e -> entry_ok (h ++ [x]) last' ip e.
Proof.
  intros Hle [Hs Hh Hf Hb].
  pose proof (failures_grow ip Hard (window_start e) last last' h x Hle).
  pose proof (failures_grow ip Soft (window_start e) last last' h x Hle).
  split; try lia. intros u Hu. eapply justified_mono; eauto.
Qed.

(** The window an entry is in when a failure at [now] is counted. *)
Lemma failure_entry_ok h last now ip sev e :
  clock now -> last <= now -> entry_ok h last ip e ->
  entry_ok (h ++ [(now, Failure ip sev)]) now ip (failure_entry now sev e).
Proof.
  intros Hc Hle He. pose proof (entry_ok_mono h (now, Failure ip sev) last now ip e Hle He) as Hmono.
  destruct He as [Hs Hh Hf Hb]. unfold clock in Hc.
  set (h' := h ++ [(now, Failure ip sev)]) in *.
  set (e1 := if WINDOW_SECS <? full_seconds_since now (window_start e)
     then {| hard_count := 0; soft_count := 0; window_start := now; blocked_until := blocked_until e |}
     else e).
  assert (0 <= window_start e1 <= now /\ (now - window_start e1) / 1000000 <= WINDOW_SECS /\
    hard_count e1 + (match sev with Hard => 1 | Soft => 0 end) <= failures ip Hard (window_start e1) now h' /\
    soft_count e1 + (match sev with Hard => 0 | Soft => 1 end) <= failures ip Soft (window_start e1) now h' /\
    blocked_until e1 = blocked_until e) as (Hw & Hin & Hh1 & Hf1 & Hb1).
  { pose proof (failures_this ip sev (window_start e) last now h ltac:(lia) Hle) as Hthis.
    pose proof (failures_this ip sev now now now h ltac:(lia) ltac:(lia)) as Hnow.
    pose proof (failures_nonneg ip sev now now h). destruct Hmono as [_ Hmh Hms _].
    pose proof (failures_nonneg ip Hard now now h'). pose proof (failures_nonneg ip Soft now now h').
    fold h' in Hthis, Hnow. unfold e1.
    rewrite full_seconds_spec by (unfold clock; lia).
    destruct (WINDOW_SECS <? (now - window_start e) / 1000000) eqn:Hx; simpl.
    - rewrite Z.sub_diag. unfold WINDOW_SECS. destruct sev; split_and!; simpl; try done; try lia.
    - destruct sev; split_and!; try done; try lia. }
  assert ((now, Failure ip sev) ∈ h') as Hin_h by (apply elem_of_app; right; by apply list_elem_of_singleton).
  unfold failure_entry. fold e1. unfold saturating_inc.
  split; destruct sev; simpl; case_match; simpl; try lia;
    intros u; rewrite ?Hb1; try (intros ?; by eapply Hmono); intros [= <-];
    eexists (window_start e1), now, _; (split; [exact Hin_h|]); unfold HARD_FAIL_THRESHOLD, SOFT_FAIL_THRESHOLD, BLOCK_SECS, WINDOW_SECS in *;
    rewrite add_seconds_spec by (unfold clock; lia); split_and!; try lia.
Qed.

Lemma fresh_entry_ok h last now ip : 0 <= now <= last -> entry_ok h last ip (fresh_entry now).
Proof.
  intros Hn. split; simpl; [lia| | |done].
  - apply failures_nonneg.
  - apply failures_nonneg.
Qed.

Lemma set_white_list_entries src s s' : set_white_list src s = Ok s' -> entries s' = entries s.
Proof.
  unfold set_white_list. destruct src as [[|x xs]|]; [by intros [= <-]| |by intros [= <-]].
  destruct (new (x :: xs)) as [wl| |]; [|done|done]. by intros [= <-].
Qed.

Definition all_ok (h : list (Z * Event)) (last : Z) (s : State) : Prop :=
  forall ip e, entries s !! ip = Some e -> entry_ok h last ip e.

Lemma all_ok_exec h last now ev s s' :
  clock now -> last <= now -> all_ok h last s -> exec now ev s = Ok s' ->
  all_ok (h ++ [(now, ev)]) now s'.
Proof.
  intros Hc Hle Hok Hx ip e He.
  assert (forall ip e, entries s !! ip = Some e -> entry_ok (h ++ [(now, ev)]) now ip e) as Hold
    by (intros; eapply entry_ok_mono; eauto).
  destruct ev; simpl in Hx.
  - unfold register_failure in Hx. destruct (is_white_listed s ip0) as [[]| |]; simplify_eq/=; [by apply Hold|].
    destruct (decide (ip = ip0)) as [->|Hne]; [|rewrite lookup_insert_ne in He by done; by apply Hold].
    rewrite lookup_insert_eq in He. injection He as <-.
    destruct (entries s !! ip0) as [e0|] eqn:He0; simpl.
    + apply (failure_entry_ok h last); auto.
    + apply (failure_entry_ok h now); [done|lia|].
      unfold clock in Hc. apply fresh_entry_ok; lia.
  - simplify_eq/=. apply lookup_delete_Some in He as [_ He]. by apply Hold.
  - simplify_eq/=. apply lookup_delete_Some in He as [_ He]. by apply Hold.
  - simplify_eq/=. apply map_lookup_filter_Some in He as [He _]. by apply Hold.
  - apply Hold. by rewrite <-(set_white_list_entries _ _ _ Hx).
Qed.

Lemma all_ok_task h last s x :
  clock (fst x) -> last <= fst x -> all_ok h last s -> all_ok (h ++ [x]) (fst x) (task s x).
Proof.
  intros Hc Hle Hok. unfold task. destruct (exec (fst x) (snd x) s) as [s'| |] eqn:Hx.
  - destruct x as [now ev]. by apply (all_ok_exec h last now ev s).
  - intros ip en He. eapply entry_ok_mono; [exact Hle|by apply Hok].
  - intros ip en He. eapply entry_ok_mono; [exact Hle|by apply Hok].
Qed.

Lemma history_ok h last evs s hi :
  clock last -> clock hi -> ordered last evs hi -> all_ok h last s -> all_ok (h ++ evs) hi (history evs s).
Proof.
  revert h last s. induction evs as [|[now ev] evs IH]; intros h last s Hl Hh Ho Hok.
  - rewrite app_nil_r. intros ip e He. destruct (Hok ip e He) as [Hs Hhd Hsf Hb].
    simpl in Ho. pose proof (failures_mono ip Hard (window_start e) last hi h Ho).
    pose proof (failures_mono ip Soft (window_start e) last hi h Ho).
    split; try lia. intros u Hu. destruct (Hb u Hu) as (w & T & sev & ? & ? & ? & ? & ?).
    exists w, T, sev. split_and!; try done; lia.
  - simpl in Ho. destruct Ho as [Hle Ho]. pose proof (ordered_le _ _ _ Ho).
    assert (clock now) as Hc by (unfold clock in *; lia).
    replace (h ++ (now, ev) :: evs) with ((h ++ [(now, ev)]) ++ evs) by (by rewrite <-app_assoc).
    cbn [history fold_left]. apply (IH _ now); try done. exact (all_ok_task h last s (now, ev) Hc Hle Hok).
Qed.

(** C33: the block-list blocks nobody without cause.  After any history of
    failures, successes, unblocks, cleanups and white-list changes under a
    clock that does not go back, in which tasks may have panicked (on a bad
    white list, or on an IPv6 address under one), an address is reported
    blocked only if its failure at some instant is less than five minutes old
    and closes a stretch of less than 16 seconds in which it had at least 5
    hard or 30 soft failures. *)
Theorem blocked_only_after_abuse (evs : list (Z * Event)) (ip : IpAddr) (now : Z) :
  clock now -> ordered 0 evs now -> is_blocked (history evs init) ip now = Ok true ->
  exists w T sev, (T, Failure ip sev) ∈ evs /\ w <= T <= now /\ now < T + 300000000 /\ T - w < 16000000 /\
    (5 <= failures ip Hard w T evs \/ 30 <= failures ip Soft w T evs).
Proof.
  intros Hc Ho Hb.
  assert (all_ok evs now (history evs init)) as Hok by (by apply (history_ok [] 0 evs init now)).
  set (s := history evs init) in *.
  unfold is_blocked in Hb. destruct (is_white_listed s ip) as [[]| |]; simplify_eq/=.
  destruct (entries s !! ip) as [e|] eqn:He; [|done]. unfold blocking in Hb.
  destruct (blocked_until e) as [u|] eqn:Hu; [|done].
  destruct (ok_block _ _ _ _ (Hok ip e He) u Hu) as (w & T & sev & Hin & -> & HT & Hw & Hcnt).
  unfold BLOCK_SECS, WINDOW_SECS, HARD_FAIL_THRESHOLD, SOFT_FAIL_THRESHOLD in *.
  pose proof (Z.mul_succ_div_gt (T - w) 1000000 ltac:(lia)). apply Z.ltb_lt in Hb.
  exists w, T, sev. split_and!; auto; lia.
Qed.

(** ** Completeness: a burst is blocked *)

(** Events that neither clear the record of [ip] nor change the white list,
    and whose white-list check returns. *)
Definition quiet (ip : IpAddr) (s : State) (ev : Event) : bool :=
  match ev with
  | Failure ip' _ => is_ok (is_white_listed s ip')
  | Success ip' | Unblock ip' => negb (bool_decide (ip' = ip))
  | Cleanup => true
  | SetWhiteList _ => false
  end.

(** The record of an address since its first failure at [t0]. *)
Record counted (h : list (Z * Event)) (ip : IpAddr) (t0 last : Z) (e : IpEntry) : Prop := {
  cnt_start : window_start e = t0;
  cnt_hard : hard_count e = Z.min (2 ^ 16 - 1) (failures ip Hard t0 last h);
  cnt_soft : soft_count e = Z.min (2 ^ 16 - 1) (failures ip Soft t0 last h);
  cnt_block : HARD_FAIL_THRESHOLD <= hard_count e \/ SOFT_FAIL_THRESHOLD <= soft_count e ->
    exists u, blocked_until e = Some u /\ t0 + BLOCK_SECS * 1000000 <= u
}.

(** A later event of the history does not change the count up to now,
    itself apart. *)
Lemma failures_hi ip sev lo hi hi' h :
  ordered lo h hi -> hi <= hi' -> failures ip sev lo hi' h = failures ip sev lo hi h.
Proof.
  revert hi hi'. induction h as [|[t ev] h IH] using rev_ind; intros hi hi'; [done|].
  rewrite ordered_snoc, !failures_snoc. intros [Ho Ht] Hle.
  rewrite (IH t hi' Ho), (IH t hi Ho) by lia. f_equal. simpl.
  destruct ev; try done. destruct (t <=? hi') eqn:E1, (t <=? hi) eqn:E2; try done; lia.
Qed.

Lemma failures_step ip sev t0 last now h ev :
  ordered t0 h last -> t0 <= now -> last <= now ->
  failures ip sev t0 now (h ++ [(now, ev)]) =
  failures ip sev t0 last h +
    (if bool_decide (ev = Failure ip sev) then 1 else 0).
Proof.
  intros Ho Hn Hle. rewrite failures_snoc, (failures_hi _ _ _ last now h Ho Hle). f_equal.
  unfold is_failure. destruct ev; try (by rewrite bool_decide_eq_false_2).
  rewrite (proj2 (Z.leb_le t0 now) Hn), (proj2 (Z.leb_le now now)) by lia. rewrite !andb_true_r.
  destruct (bool_decide_reflect (ip0 = ip)), (bool_decide_reflect (severity = sev)); subst; simpl;
    first [by rewrite bool_decide_eq_true_2 | by rewrite bool_decide_eq_false_2 by congruence].
Qed.

Lemma failure_entry_counted h ip t0 last now sev e :
  clock now -> 0 <= t0 <= now -> last <= now -> now - t0 < 16000000 -> ordered t0 h last ->
  counted h ip t0 last e ->
  counted (h ++ [(now, Failure ip sev)]) ip t0 now (failure_entry now sev e).
Proof.
  intros Hc Ht0 Hle Hwin Ho [Hs Hh Hf Hb]. unfold clock in Hc. destruct e as [hc sc ws bu]. simpl in Hs, Hh, Hf, Hb. subst.
  pose proof (failures_step ip Hard t0 last now h (Failure ip sev) Ho ltac:(lia) Hle) as Hh'.
  pose proof (failures_step ip Soft t0 last now h (Failure ip sev) Ho ltac:(lia) Hle) as Hf'.
  assert ((now - t0) / 1000000 < 16) as Hdiv by (apply Z.div_lt_upper_bound; lia).
  unfold failure_entry. cbn [window_start]. rewrite full_seconds_spec by (unfold clock; lia).
  rewrite (proj2 (Z.ltb_ge WINDOW_SECS ((now - t0) / 1000000))) by (unfold WINDOW_SECS; lia).
  pose proof (failures_nonneg ip Hard t0 last h). pose proof (failures_nonneg ip Soft t0 last h).
  unfold saturating_inc, HARD_FAIL_THRESHOLD, SOFT_FAIL_THRESHOLD in *.
  destruct sev; rewrite bool_decide_eq_true_2 in * by done; rewrite bool_decide_eq_false_2 in * by done;
    case_match eqn:Hthr; simpl in *; apply orb_true_iff in Hthr || apply orb_false_iff in Hthr;
    split; simpl; try lia; try (rewrite ?Hh', ?Hf'; lia);
    unfold HARD_FAIL_THRESHOLD, SOFT_FAIL_THRESHOLD;
    first [intros ?; exfalso; lia|intros _]; eexists; (split; [reflexivity|]);
    rewrite add_seconds_spec by (unfold clock, BLOCK_SECS; lia); lia.
Qed.

Lemma other_counted h ip t0 last now ev e :
  t0 <= now -> last <= now -> ordered t0 h last -> (forall sev, ev <> Failure ip sev) ->
  counted h ip t0 last e -> counted (h ++ [(now, ev)]) ip t0 now e.
Proof.
  intros Ht0 Hle Ho Hev [Hs Hh Hf Hb].
  pose proof (failures_step ip Hard t0 last now h ev Ho Ht0 Hle) as Hh'.
  pose proof (failures_step ip Soft t0 last now h ev Ho Ht0 Hle) as Hf'.
  rewrite bool_decide_eq_false_2 in Hh', Hf' by auto. split; try done; lia.
Qed.

(** What a burst keeps true: the white list, and the record of [ip]. *)
Definition burst (wl : option (list WhitelistedIp)) (h : list (Z * Event)) (ip : IpAddr)
    (t0 last : Z) (s : State) : Prop :=
  white_list s = wl /\ exists e, entries s !! ip = Some e /\ counted h ip t0 last e.

Lemma burst_exec s0 h ip t0 last now ev s :
  clock now -> 0 <= t0 <= now -> last <= now -> now - t0 < 16000000 -> ordered t0 h last ->
  quiet ip s0 ev = true -> is_white_listed s0 ip = Ok false ->
  burst (white_list s0) h ip t0 last s ->
  exists s', exec now ev s = Ok s' /\ burst (white_list s0) (h ++ [(now, ev)]) ip t0 now s'.
Proof.
  intros Hc Ht0 Hle Hwin Ho Hq Hip [Hwl (e & He & Hcnt)].
  assert (forall ip', is_white_listed s ip' = is_white_listed s0 ip') as Hsame
    by (intros; unfold is_white_listed; by rewrite Hwl).
  assert (forall s', white_list s' = white_list s0 -> entries s' !! ip = Some e ->
    (forall sev, ev <> Failure ip sev) ->
    burst (white_list s0) (h ++ [(now, ev)]) ip t0 now s') as Hother.
  { intros s' Hw' He' Hev. split; [done|]. exists e. split; [done|].
    apply (other_counted _ _ _ last); auto; lia. }
  destruct ev as [ip' sev|ip'|ip'| |src]; simpl in *; try (eexists; split; [reflexivity|]); try done.
  - unfold register_failure. rewrite Hsame.
    destruct (decide (ip' = ip)) as [->|Hne].
    + rewrite Hip. simpl. eexists. split; [reflexivity|]. split; [done|]. simpl.
      rewrite He. simpl. eexists. rewrite lookup_insert_eq. split; [done|].
      by apply (failure_entry_counted _ _ _ last).
    + destruct (is_white_listed s0 ip') as [b| |]; [|done|done]. simpl.
      destruct b; (eexists; split; [reflexivity|]); apply Hother; simpl; try done; try congruence.
      by rewrite lookup_insert_ne.
  - apply negb_true_iff, bool_decide_eq_false in Hq. apply Hother; simpl; try done.
    by rewrite lookup_delete_ne.
  - apply negb_true_iff, bool_decide_eq_false in Hq. apply Hother; simpl; try done.
    by rewrite lookup_delete_ne.
  - apply Hother; simpl; try done. apply map_lookup_filter_Some. split; [done|]. simpl.
    unfold retained. destruct Hcnt as [Hs _ _ _]. unfold clock in Hc.
    rewrite Hs, full_seconds_spec by (unfold clock; lia).
    assert ((now - t0) / 1000000 < 16) by (apply Z.div_lt_upper_bound; lia).
    rewrite (proj2 (Z.leb_le _ WINDOW_SECS)) by (unfold WINDOW_SECS; lia). apply orb_true_r.
Qed.

Lemma burst_run s0 ip t0 hi evs : forall h last s,
  clock hi -> 0 <= t0 <= last -> hi - t0 < 16000000 -> ordered t0 h last -> ordered last evs hi ->
  Forall (fun x => quiet ip s0 (snd x) = true) evs -> is_white_listed s0 ip = Ok false ->
  burst (white_list s0) h ip t0 last s ->
  exists s' last', run evs s = Ok s' /\ last' <= hi /\ ordered t0 (h ++ evs) last' /\
    burst (white_list s0) (h ++ evs) ip t0 last' s'.
Proof.
  induction evs as [|[now ev] evs IH]; intros h last s Hc Ht0 Hwin Ho Hevs Hq Hip Hb; simpl in Hevs.
  - exists s, last. rewrite app_nil_r. auto.
  - destruct Hevs as [Hle Hevs]. pose proof (ordered_le _ _ _ Hevs). inversion Hq as [|? ? Hq1 Hq2]; subst.
    unfold clock in *.
    destruct (burst_exec s0 h ip t0 last now ev s) as (s1 & Hx & Hb1); unfold clock; auto; try lia.
    destruct (IH (h ++ [(now, ev)]) now s1) as (s' & last' & Hr & Hl & Ho' & Hb'); auto; try lia.
    { rewrite ordered_snoc. split; [|lia]. by apply (ordered_weaken _ _ last); [lia|]. }
    rewrite <-app_assoc in Ho', Hb'. exists s', last'. split_and!; try done. simpl. by rewrite Hx.
Qed.

(** A burst is blocked.  Take an address with no record that is not
    white-listed, and let its first failure come at [t0].  Whatever other
    addresses do and whenever the cleanup runs, if it collects 5 hard or 30
    soft failures before 16 seconds have passed, without a success or an
    unblock in between, then the operations return and the address is
    reported blocked until at least five minutes after [t0]. *)
Theorem burst_is_blocked (s0 : State) (ip : IpAddr) (sev : FailureSeverity) (t0 hi : Z)
    (evs : list (Z * Event)) :
  entries s0 !! ip = None -> is_white_listed s0 ip = Ok false ->
  clock hi -> 0 <= t0 -> ordered t0 evs hi -> hi - t0 < 16000000 ->
  Forall (fun x => quiet ip s0 (snd x) = true) evs ->
  let h := (t0, Failure ip sev) :: evs in
  5 <= failures ip Hard t0 hi h \/ 30 <= failures ip Soft t0 hi h ->
  exists s, run h s0 = Ok s /\
    forall now, hi <= now < t0 + 300000000 -> is_blocked s ip now = Ok true.
Proof.
  intros Hnone Hwl Hc Ht0 Ho Hwin Hq h Hcnt. pose proof (ordered_le _ _ _ Ho) as Hle.
  set (s1 := set_entries (<[ip := failure_entry t0 sev (fresh_entry t0)]> (entries s0)) s0).
  assert (exec t0 (Failure ip sev) s0 = Ok s1) as Hx.
  { simpl. unfold register_failure. rewrite Hwl. simpl. by rewrite Hnone. }
  assert (burst (white_list s0) [(t0, Failure ip sev)] ip t0 t0 s1) as Hb1.
  { split; [done|]. eexists. split; [apply lookup_insert_eq|].
    apply (failure_entry_counted [] ip t0 t0 t0); unfold clock in *; simpl; try lia.
    split; simpl; try done. intros [?|?]; unfold HARD_FAIL_THRESHOLD, SOFT_FAIL_THRESHOLD in *; lia. }
  destruct (burst_run s0 ip t0 hi evs [(t0, Failure ip sev)] t0 s1) as (s & last & Hr & Hl & Hol & Hw & e & He & Hce);
    auto; try lia; [simpl; lia|].
  exists s. split; [unfold h; cbn [run]; by rewrite Hx|]. intros now Hnow.
  destruct Hce as [_ Hh Hf Hblk]. change ([_] ++ evs) with h in *.
  pose proof (failures_hi ip Hard t0 last hi h Hol Hl). pose proof (failures_hi ip Soft t0 last hi h Hol Hl).
  destruct Hblk as (u & Hu & Hge);
    [unfold HARD_FAIL_THRESHOLD, SOFT_FAIL_THRESHOLD; rewrite Hh, Hf; lia|].
  unfold is_blocked, is_white_listed. rewrite Hw. fold (is_white_listed s0 ip). rewrite Hwl. simpl.
  rewrite He. unfold blocking. rewrite Hu. f_equal. apply Z.ltb_lt. unfold BLOCK_SECS in Hge. lia.
Qed.

End Proofs.

(** *** A concrete clock library, and the claims on concrete histories *)

Definition micros_lib : DateTimeLib.
Proof.
  refine {| full_seconds_since := fun now start => (now - start) / 1000000;
            add_seconds := fun t s => t + s * 1000000 |}; done.
Defined.

Definition demo_ip : IpAddr := V4 Byte.x0a Byte.x00 Byte.x00 Byte.x07.

Definition demo_burst : list (Z * Event) :=
  [(2000000, Failure demo_ip Hard); (3000000, Cleanup); (3000000, Failure demo_ip Hard);
   (9000000, Failure demo_ip Hard); (16000000, Failure demo_ip Hard)].

Definition demo_failures : list (Z * Event) := (1000000, Failure demo_ip Hard) :: demo_burst.

Lemma blocked_only_after_abuse_witness :
  exists w T sev, (T, Failure demo_ip sev) ∈ demo_failures /\ w <= T <= 20000000 /\ 20000000 < T + 300000000 /\
    T - w < 16000000 /\
    (5 <= failures demo_ip Hard w T demo_failures \/ 30 <= failures demo_ip Soft w T demo_failures).
Proof.
  apply (@blocked_only_after_abuse micros_lib demo_failures); [done|vm_compute; intuition discriminate|].
  vm_compute. reflexivity.
Defined.

(** A task that dies on the white list leaves the record it came to change. *)
Example panicking_task_changes_nothing :
  @history micros_lib [(5, Failure demo_ip Soft); (7, SetWhiteList (Some [bs "no.ip"]))] init =
  @history micros_lib [(5, Failure demo_ip Soft)] init.
Proof. vm_compute. reflexivity. Qed.

Lemma burst_is_blocked_witness :
  exists s, @run micros_lib ((1000000, Failure demo_ip Hard) :: demo_burst) init = Ok s /\
    is_blocked s demo_ip 300999999 = Ok true.
Proof.
  destruct (@burst_is_blocked micros_lib init demo_ip Hard 1000000 16000000 demo_burst)
    as (s & Hr & Hb); try done; try (simpl; lia).
  - by repeat constructor.
  - left. by vm_compute.
  - exists s. split; [done|]. by apply Hb.
Defined.

End IpBlocklist.
