(* ===== verification/H1Reader.v ===== *)
(** * The HTTP/1.1 reader of one connection: [h1_proxy_server/]

    Errors and the pages they are answered with ([rev_proxy_error.rs],
    [error_templates/generate_layout.rs]), the loop that reads a head from a
    socket and the choice of the body pump ([h1_read_part.rs]), and the
    writers a body is pumped into ([pipeline/response_event.rs],
    [pipeline/body_collector_sink.rs]). *)

From Stdlib Require Import ZArith Lia Strings.Byte.
From stdpp Require Import base tactics list strings gmap.
From S2P Require Import Prelude RustStd LoopBuffer BodyRelay H1Headers H1Rewrite.

Local Open Scope Z_scope.

(** ** Errors *)

Module ProxyErrors.

Definition is_timeout (e : NetworkError) : bool := match e with Timeout _ => true | _ => false end.

Definition as_timeout (e : NetworkError) : option Z := match e with Timeout d => Some d | _ => None end.

Inductive ProxyServerError :=
  | NetworkErr (e : NetworkError)
  | ParsingPayloadError (s : bytes)
  | BufferAllocationFail
  | ChunkHeaderParseError
  | HeadersParseError (s : bytes)
  | CanNotConnectToRemoteResource (remote_resource : bytes) (err : NetworkError)
  | CanNotWriteContentToRemoteConnection (e : NetworkError)
  | HttpConfigurationIsNotFound
  | LocationIsNotFound
  | NotAuthorized
  | DropConnection
  | HttpResponse (payload : bytes)
  | ProxyToHeaderMissing
  | ProxyToHeaderInvalid
  | ProxyToHostNotAllowed
  | MisdirectedClientCertRequired.

(** The errors of the body pumps are among them. *)
Definition of_transfer (e : BodyRelay.TransferError) : ProxyServerError :=
  match e with
  | BodyRelay.NetworkErr e => NetworkErr e
  | BodyRelay.BufferAllocationFail => BufferAllocationFail
  | BodyRelay.ChunkHeaderParseError => ChunkHeaderParseError
  | BodyRelay.CanNotWriteContentToRemoteConnection e => CanNotWriteContentToRemoteConnection e
  end.

Section Pages.
Context `{H1Libs}.

(** [APP_VERSION] is the version of the build. *)
Context (APP_VERSION : bytes).

Definition NL : byte := Byte.x0a.
Definition spaces (n : nat) : bytes := replicate n H1.SPACE.

Definition layout_body (status_code : Z) (text : bytes) (second_line : option bytes) : bytes :=
  let second_line :=
    match second_line with Some l => bs "<h4>" ++ l ++ bs "</h4>" | None => [] end in
  NL :: spaces 8 ++ bs "<div style=" ++ [Byte.x22] ++ bs "text-align: center;" ++ [Byte.x22] ++ bs ">" ++
  NL :: spaces 8 ++ bs "<h2>" ++ text ++ bs "</h2>" ++
  NL :: spaces 6 ++ second_line ++
  NL :: spaces 8 ++ bs "<p>" ++ Str.uint_to_string status_code ++ bs "</p>" ++
  NL :: spaces 8 ++ bs "<hr/>" ++
  NL :: spaces 8 ++ bs "<div>MyReverseProxy " ++ APP_VERSION ++ bs "</div>" ++
  NL :: spaces 8 ++ bs "</div>" ++ NL :: spaces 8.

Definition build_layout (status_code : Z) (text : bytes) (second_line : option bytes)
    (connection_close : bool) : bytes :=
  let body := layout_body status_code text second_line in
  let headers := H1.push_response_first_line status_code [] in
  let headers := H1.push_content_length (Z.of_nat (length body)) headers in
  let headers :=
    if connection_close then H1.push_header (bs "Connection") (bs "close") headers else headers in
  H1.push_cl_cr headers ++ body.

Definition build_layout_with_explicit_status (status_code : Z) (text : bytes)
    (second_line : option bytes) : bytes :=
  let body := layout_body status_code text second_line in
  let headers := H1.push_response_first_line status_code [] in
  let headers := H1.push_content_length (Z.of_nat (length body)) headers in
  H1.push_cl_cr headers ++ body.

Definition generate_layout (status_code : Z) (text : bytes) (second_line : option bytes) : bytes :=
  build_layout status_code text second_line false.

Definition generate_layout_with_close (status_code : Z) (text : bytes) (second_line : option bytes) :
    bytes :=
  build_layout status_code text second_line true.

Definition NOT_FOUND : bytes := generate_layout 404 (bs "Resource not found") None.
Definition REMOTE_RESOURCE_IS_NOT_AVAILABLE : bytes :=
  generate_layout 503 (bs "Server Error") (Some (bs "Remote resource is not available")).
Definition LOCATION_IS_NOT_FOUND : bytes :=
  generate_layout_with_close 503 (bs "Server Error") (Some (bs "Remote location configuration is missing")).
Definition ERROR_TIMEOUT : bytes := generate_layout 503 (bs "Server Error") (Some (bs "Timeout")).
Definition ERROR_GETTING_CONTENT_FROM_REMOTE_RESOURCE : bytes :=
  generate_layout 502 (bs "Server Error") (Some (bs "Bad gateway")).
Definition UPSTREAM_IS_NOT_HTTP : bytes :=
  generate_layout 502 (bs "Server Error") (Some (bs "Upstream is not a valid HTTP server")).
Definition NOT_AUTHORIZED_PAGE : bytes := generate_layout 401 (bs "Not authorized request") None.
Definition PROXY_TO_HEADER_MISSING : bytes :=
  build_layout_with_explicit_status 421 (bs "Misdirected Request") (Some (bs "Missing or invalid proxy-to header")).
Definition PROXY_TO_HOST_NOT_ALLOWED : bytes :=
  build_layout_with_explicit_status 403 (bs "Forbidden") (Some (bs "Upstream host not allowed")).
Definition MTLS_REQUIRED_MISDIRECTED : bytes :=
  build_layout_with_explicit_status 421 (bs "Misdirected Request")
    (Some (bs "A client certificate is required for this host")).

(** What becomes of a failed request. *)
Record ErrorHandling := {
  page : option bytes;
  status_5xx : option Z;
  register_ip_failure : bool
}.

Definition error_handling (err : ProxyServerError) : ErrorHandling :=
  match err with
  | NetworkErr _ | DropConnection | HttpConfigurationIsNotFound =>
      {| page := None; status_5xx := None; register_ip_failure := false |}
  | ParsingPayloadError _ | ChunkHeaderParseError | HeadersParseError _ =>
      {| page := None; status_5xx := None; register_ip_failure := true |}
  | BufferAllocationFail =>
      {| page := Some REMOTE_RESOURCE_IS_NOT_AVAILABLE; status_5xx := Some 503; register_ip_failure := false |}
  | CanNotConnectToRemoteResource _ err =>
      let page :=
        match as_timeout err with Some _ => ERROR_TIMEOUT | None => REMOTE_RESOURCE_IS_NOT_AVAILABLE end in
      {| page := Some page; status_5xx := Some 503; register_ip_failure := false |}
  | CanNotWriteContentToRemoteConnection _ =>
      {| page := Some REMOTE_RESOURCE_IS_NOT_AVAILABLE; status_5xx := Some 503; register_ip_failure := false |}
  | LocationIsNotFound =>
      {| page := Some LOCATION_IS_NOT_FOUND; status_5xx := Some 503; register_ip_failure := false |}
  | NotAuthorized =>
      {| page := Some NOT_AUTHORIZED_PAGE; status_5xx := None; register_ip_failure := false |}
  | ProxyToHeaderMissing | ProxyToHeaderInvalid =>
      {| page := Some PROXY_TO_HEADER_MISSING; status_5xx := None; register_ip_failure := false |}
  | ProxyToHostNotAllowed =>
      {| page := Some PROXY_TO_HOST_NOT_ALLOWED; status_5xx := None; register_ip_failure := false |}
  | MisdirectedClientCertRequired =>
      {| page := Some MTLS_REQUIRED_MISDIRECTED; status_5xx := None; register_ip_failure := false |}
  | HttpResponse payload =>
      {| page := Some payload; status_5xx := None; register_ip_failure := false |}
  end.

End Pages.

(** *** The pages *)

Section PageProofs.
Context `{SliceOfU8Ext} `{H1Libs}.
Context (APP_VERSION : bytes) (Hversion : (length APP_VERSION < 1000)%nat).

(** The page is a response with this status line and nothing behind its body. *)
Definition self_delimiting (status_line page : bytes) : Prop :=
  exists h body, H1.parse page = Ok (Some h) /\ H1.content_length h = H1.Known (Z.of_nat (length body)) /\
    drop (H1.head_end h) page = body /\ take (length status_line + 2) page = status_line ++ H1.CRLF.

Lemma layout_self_delimiting line ls body :
  H1.one_line line -> H1.verify_http11_first_line line = Ok tt -> Forall H1.line_ok ls ->
  H1.framing ls H1.NoLength = Some (H1.Known (Z.of_nat (length body))) ->
  self_delimiting line (H1.head line ls ++ body).
Proof.
  intros Hcr Hv Hls Hfr. pose proof (H1.parse_head_spec line ls body Hcr Hv Hls) as Hp. rewrite Hfr in Hp.
  destruct Hp as (h & Hp & _ & He & Hc & _). exists h, body. split_and!; [done|done| |].
  - rewrite He. apply drop_app_length.
  - unfold H1.head. rewrite <-!app_assoc, (assoc_L (++)).
    replace (length line + 2)%nat with (length (line ++ H1.CRLF)) by (rewrite length_app; done).
    apply take_app_length.
Qed.

Lemma build_layout_head line code text second close :
  H1.push_response_first_line code [] = line ++ H1.CRLF ->
  let body := layout_body APP_VERSION code text second in
  build_layout APP_VERSION code text second close =
  H1.head line (H1.line_of (bs "content-length", Str.uint_to_string (Z.of_nat (length body))) ::
    (if close then [H1.line_of (bs "Connection", bs "close")] else [])) ++ body.
Proof.
  intros Hl body. unfold build_layout, H1.push_content_length. fold body. rewrite Hl.
  destruct close; rewrite !H1.push_header_wire; unfold H1.push_cl_cr, H1.head, H1.line_of;
    cbn [map concat fst snd]; rewrite ?app_nil_r, <-!app_assoc; done.
Qed.

Lemma layout_body_length code text second :
  length (layout_body APP_VERSION code text second) =
  (length (layout_body [] code text second) + length APP_VERSION)%nat.
Proof. unfold layout_body. repeat (rewrite length_app || cbn [length app]). lia. Qed.

Lemma page_framed line code text second close :
  H1.push_response_first_line code [] = line ++ H1.CRLF ->
  existsb (Byte.eqb Byte.x0d) line = false -> H1.verify_http11_first_line line = Ok tt ->
  (length (layout_body [] code text second) < 1000)%nat ->
  self_delimiting line (build_layout APP_VERSION code text second close).
Proof.
  intros Hl Hcr Hv Hlen. rewrite (build_layout_head line) by done.
  apply layout_self_delimiting; [by apply H1.no_cr_one_line, H1.not_in_dec|done| |].
  - constructor; [apply H1.own_line_ok|]. destruct close; [|constructor].
    apply Forall_singleton, H1.plain_line_ok; try done; apply H1.not_in_dec; vm_compute; reflexivity.
  - cbn [H1.framing]. rewrite H1.own_content_length_framing; [by destruct close|].
    rewrite layout_body_length. lia.
Qed.

Definition line_503 : bytes := bs "HTTP/1.1 503 Service Temporarily Unavailable".
Definition line_502 : bytes := bs "HTTP/1.1 502 Bad Gateway".

Lemma build_layout_explicit code text second :
  build_layout_with_explicit_status APP_VERSION code text second = build_layout APP_VERSION code text second false.
Proof. unfold build_layout, build_layout_with_explicit_status. exact eq_refl. Qed.

Ltac page := apply page_framed; vm_compute; (reflexivity || lia).

Lemma unavailable_framed : self_delimiting line_503 (REMOTE_RESOURCE_IS_NOT_AVAILABLE APP_VERSION).
Proof. page. Qed.

Lemma timeout_framed : self_delimiting line_503 (ERROR_TIMEOUT APP_VERSION).
Proof. page. Qed.

Lemma bad_gateway_framed : self_delimiting line_502 (ERROR_GETTING_CONTENT_FROM_REMOTE_RESOURCE APP_VERSION).
Proof. page. Qed.

Lemma not_http_framed : self_delimiting line_502 (UPSTREAM_IS_NOT_HTTP APP_VERSION).
Proof. page. Qed.

(** Every page the proxy makes for an error is a complete response:
    parsed by the rules a client uses, it ends exactly where its body ends;
    its status is the one that is logged when it is logged as a 5xx, and a
    client error otherwise. *)
Theorem error_pages_framed err p :
  (forall payload, err <> HttpResponse payload) ->
  page (error_handling APP_VERSION err) = Some p ->
  exists line, self_delimiting line p /\
    match status_5xx (error_handling APP_VERSION err) with
    | Some code => code = 503 /\ line = line_503
    | None => line ∈ [bs "HTTP/1.1 401 Unauthorized"; bs "HTTP/1.1 421 Misdirected Request"; bs "HTTP/1.1 403 Forbidden"]
    end.
Proof.
  intros Hn Hp.
  destruct err; simplify_eq/=; try by edestruct Hn.
  - exists line_503. split; [page|done].
  - destruct (as_timeout err); [exists line_503; split; [page|done]|exists line_503; split; [page|done]].
  - exists line_503. split; [page|done].
  - exists line_503. split; [page|done].
  - eexists. split; [|left]. page.
  - eexists. split; [|right; left]. unfold PROXY_TO_HEADER_MISSING. rewrite build_layout_explicit. page.
  - eexists. split; [|right; left]. unfold PROXY_TO_HEADER_MISSING. rewrite build_layout_explicit. page.
  - eexists. split; [|right; right; left]. unfold PROXY_TO_HOST_NOT_ALLOWED. rewrite build_layout_explicit. page.
  - eexists. split; [|right; left]. unfold MTLS_REQUIRED_MISDIRECTED. rewrite build_layout_explicit. page.
Qed.

End PageProofs.

End ProxyErrors.

(** ** Writers *)

Module Sinks.

(** [BodyCollectorSink] *)
Record BodyCollectorSink := { body : bytes; limit : Z; overflowed : bool }.

Definition collector_new (limit : Z) : BodyCollectorSink :=
  {| body := []; limit := limit; overflowed := false |}.

Definition into_body (s : BodyCollectorSink) : option bytes :=
  if overflowed s then None else Some (body s).

Definition collector_write (buffer : bytes) (s : BodyCollectorSink) : BodyCollectorSink :=
  if overflowed s then s
  else if limit s <? Z.of_nat (length (body s)) + Z.of_nat (length buffer) then
    {| body := []; limit := limit s; overflowed := true |}
  else {| body := body s ++ buffer; limit := limit s; overflowed := overflowed s |}.

(** A writer that accepts everything, as [NullSink] and [BodyCollectorSink]
    do, and what the latter holds after the writes it was given. *)
Definition accepting : BodyRelay.Sink := {| BodyRelay.writes := []; BodyRelay.verdicts := [] |}.

Definition collect (limit : Z) (ws : list bytes) : BodyCollectorSink :=
  fold_left (fun s w => collector_write w s) ws (collector_new limit).

Lemma collect_spec limit ws :
  0 <= limit ->
  collect limit ws =
    if decide (Z.of_nat (length (concat ws)) <= limit)
    then {| body := concat ws; Sinks.limit := limit; overflowed := false |}
    else {| body := []; Sinks.limit := limit; overflowed := true |}.
Proof.
  intros Hl. induction ws as [|w ws IH] using rev_ind; [by rewrite decide_True|].
  unfold collect in *. rewrite fold_left_app, IH, concat_app. cbn [fold_left concat].
  rewrite app_nil_r, length_app. unfold collector_write.
  repeat case_decide; cbn; try done; try lia;
    destruct (Z.ltb_spec limit (Z.of_nat (length (concat ws)) + Z.of_nat (length w))); done || lia.
Qed.

(** The collector accepts every write and never holds more than its
    limit: it ends with exactly the body when the body fits, and with nothing
    otherwise. *)
Theorem collector_exact limit ws :
  0 <= limit ->
  into_body (collect limit ws) =
    (if decide (Z.of_nat (length (concat ws)) <= limit) then Some (concat ws) else None) /\
  Z.of_nat (length (body (collect limit ws))) <= limit.
Proof.
  intros Hl. rewrite (collect_spec limit ws Hl). unfold into_body. by case_decide.
Qed.

End Sinks.

(** ** The reader *)

Module Reader.
Import ReadPart H1 ProxyErrors.

Record H1Reader := {
  core : Rewrite.H1Reader;
  read_part : source;
  timeouts : BodyRelay.HttpTimeouts
}.

(** [H1Reader::new]; the memory of the buffer is not initialised. *)
Definition reader_new (uninit : bytes) (read_part : source) (timeouts : BodyRelay.HttpTimeouts) : H1Reader :=
  {| core := {| Rewrite.loop_buffer := LoopBuffer.new uninit; Rewrite.builder := [] |};
     read_part := read_part; timeouts := timeouts |}.

Definition buffer (r : H1Reader) : LoopBuffer.t := Rewrite.loop_buffer (core r).

Definition set_core (c : Rewrite.H1Reader) (r : H1Reader) : H1Reader :=
  {| core := c; read_part := read_part r; timeouts := timeouts r |}.

Definition set_timeouts (t : BodyRelay.HttpTimeouts) (r : H1Reader) : H1Reader :=
  {| core := core r; read_part := read_part r; timeouts := t |}.

(** The reader together with a writer is what the body pumps work on. *)
Definition to_io (r : H1Reader) (w : BodyRelay.Sink) : BodyRelay.Io :=
  {| BodyRelay.loop_buffer := buffer r; BodyRelay.read_stream := read_part r; BodyRelay.write_stream := w |}.

Definition of_io (r : H1Reader) (io : BodyRelay.Io) : H1Reader :=
  {| core := {| Rewrite.loop_buffer := BodyRelay.loop_buffer io; Rewrite.builder := Rewrite.builder (core r) |};
     read_part := BodyRelay.read_stream io; timeouts := timeouts r |}.

Section Ops.
Context `{SliceOfU8Ext} `{H1Libs}.

(** The loop of [read_headers]; every successful read shortens the source,
    whose size is the fuel. *)
Fixpoint read_headers_loop (fuel : nat) (r : H1Reader) :
    H1Reader * option (outcome ProxyServerError Http1Headers) :=
  match fuel with
  | O => (r, None)
  | S fuel =>
      let parsed : outcome bytes (option Http1Headers) :=
        buf ← LoopBuffer.get_data (buffer r);
        if decide (0 < length buf)%nat then parse buf else Ok None in
      match parsed with
      | Ok (Some headers) => (r, Some (Ok headers))
      | Ok None =>
          let '(io, res) := BodyRelay.read_more (timeouts r) (to_io r Sinks.accepting) in
          let r := of_io r io in
          match res with
          | Ok _ => read_headers_loop fuel r
          | Err e => (r, Some (Err (of_transfer e)))
          | Panic => (r, Some Panic)
          end
      | Err _ | Panic => (r, Some Panic)
      end
  end.

Definition read_headers (r : H1Reader) : H1Reader * option (outcome ProxyServerError Http1Headers) :=
  read_headers_loop (S (size (read_part r))) r.

(** [transfer_body]; [fuel] bounds the number of chunks. *)
Definition transfer_body (fuel : nat) (oc : bool) (content_length : HttpContentLength)
    (r : H1Reader) (w : BodyRelay.Sink) :
    H1Reader * BodyRelay.Sink * option (outcome ProxyServerError Z) :=
  let finish x :=
    let '(io, res) := x in
    (of_io r io, BodyRelay.write_stream io, map_err of_transfer <$> res) in
  match content_length with
  | NoLength => (r, w, Some (Ok 0))
  | Known size =>
      if size =? 0 then (r, w, Some (Ok 0))
      else finish (BodyRelay.transfer_known_size size (timeouts r) (to_io r w))
  | Chunked => finish (BodyRelay.transfer_chunked_body fuel oc (timeouts r) 0 (to_io r w))
  end.

End Ops.

(** *** A head that has not arrived completely is not parsed *)

Section Partial.
Context `{SliceOfU8Ext} `{H1Libs}.

Lemma find_crlf_none src pos l t :
  drop pos src ++ t = l ++ CRLF -> t <> [] -> one_line l -> find_sequence_pos src CRLF pos = None.
Proof.
  intros Hd Ht Hl. eapply first_from_unique; [by apply find_sequence_pos_spec|].
  intros q Hq [Hc Hc']%crlf_occurs. apply lookup_lt_Some in Hc' as Hlen.
  assert (length (drop pos src) + length t = length l + 2)%nat as Hn.
  { apply (f_equal length) in Hd. rewrite !length_app in Hd. exact Hd. }
  rewrite length_drop in Hn. destruct t as [|b t]; [done|]. cbn [length] in Hn.
  assert (forall k, (pos + k < length src)%nat -> (l ++ CRLF) !! k = src !! (pos + k)%nat) as Hlk.
  { intros k Hk. rewrite <-Hd, lookup_app_l by (rewrite length_drop; lia). by rewrite lookup_drop. }
  assert ((q - pos)%nat = length l); [|lia].
  apply crlf_inside; [done| |]; rewrite Hlk by lia; rewrite <-?Hc, <-?Hc'; f_equal; lia.
Qed.

(** A cut of a concatenation falls inside its first block or behind it. *)
Lemma app_cut {A} (x t l more : list A) :
  x ++ t = l ++ more ->
  (exists k, k <> [] /\ x ++ k = l) \/ (exists p, x = l ++ p /\ p ++ t = more).
Proof.
  intros [(k & -> & ->)|(k & -> & ->)]%app_eq_inv; [right; by exists k|].
  destruct k as [|b k]; [right; exists []; by rewrite !app_nil_r|left; by exists (b :: k)].
Qed.

Lemma parse_loop_partial src ls : forall fuel pos st hv t,
  (pos <= length src)%nat -> Forall line_ok ls -> host_ok src st hv ->
  drop pos src ++ t = concat (map line_wire ls) ++ CRLF -> t <> [] ->
  parse_loop fuel src pos st = Ok None.
Proof.
  induction ls as [|l ls IH]; intros [|fuel] pos st hv t Hp Hok Hh Hd Ht; try done; cbn [parse_loop].
  - by rewrite (find_crlf_none src pos [] t) by (done || by intros i).
  - apply Forall_cons in Hok as [Hl Hok]. cbn [map concat] in Hd. rewrite <-app_assoc in Hd.
    apply app_cut in Hd as [(k & Hne & Hk)|(p & Hk & Hk')].
    { by rewrite (find_crlf_none src pos (line_bytes l) k) by (done || apply Hl). }
    unfold line_wire in Hk. rewrite <-app_assoc in Hk.
    rewrite (find_crlf src pos (line_bytes l) p Hk (proj1 (proj2 Hl))).
    rewrite decide_False by (unfold line_bytes; rewrite length_app; simpl; lia).
    unfold HttpHeader_new. rewrite (find_colon src pos (name l) (after l ++ CRLF ++ p));
      [|rewrite Hk; unfold line_bytes; by rewrite <-!app_assoc|apply Hl].
    cbn [mbind option_bind].
    pose proof (on_header_spec src pos l _ Hp Hk st hv (proj2 (proj2 Hl)) Hh) as Hon. unfold hdr in Hon.
    destruct (line_framing l (content_length st)) as [cl|]; [|by rewrite Hon].
    destruct Hon as (st' & -> & _ & _ & Hh'). cbn [mbind outcome_bind].
    assert (drop (pos + length (line_bytes l) + length CRLF) src = p) as Hd'.
    { by rewrite <-drop_drop, <-drop_drop, Hk, drop_app_length, drop_app_length. }
    apply (IH _ _ _ (last_host [l] hv) t); try done; [|by rewrite Hd'].
    apply (f_equal length) in Hk. rewrite length_drop, !length_app in Hk. lia.
Qed.

Lemma parse_partial first ls q t :
  one_line first -> verify_http11_first_line first = Ok tt -> Forall line_ok ls ->
  q ++ t = head first ls -> t <> [] -> parse q = Ok None.
Proof.
  intros Hcr Hv Hls Hq Ht. unfold head in Hq. rewrite (assoc_L (++)) in Hq.
  apply app_cut in Hq as [(k & Hne & Hk)|(p & -> & Hp)].
  - unfold parse. by rewrite (find_crlf_none q 0 first k) by done.
  - rewrite <-app_assoc. destruct (parse_first_line first p Hcr Hv) as [-> Hd].
    apply (parse_loop_partial _ ls _ _ _ None t); try done; [|by rewrite Hd].
    rewrite !length_app. simpl. lia.
Qed.

End Partial.

(** *** Reading a head *)

(** The error in which the reads of a source end. *)
Fixpoint end_error (timeout : Z) (s : source) : NetworkError :=
  match s with
  | [] => Timeout timeout
  | Data [] :: _ | Eof :: _ => Disconnected
  | Data _ :: s => end_error timeout s
  | Failure e :: _ => IoError e
  end.

Lemma read_with_timeout_end cap d s s' r :
  (0 < cap)%nat -> read_with_timeout cap d s = (s', r) ->
  match r with
  | Ok _ => end_error d s' = end_error d s
  | Err e => e = end_error d s
  | Panic => False
  end.
Proof.
  intros Hc. unfold read_with_timeout.
  destruct s as [|[[|b seg]| |e] s]; cbn [read_from_socket]; try (intros [= <- <-]; done).
  destruct (decide (length (take cap (b :: seg)) = 0%nat)) as [H0|_].
  { rewrite length_take in H0. simpl in H0. lia. }
  intros [= <- <-]. destruct (drop cap (b :: seg)); by destruct (decide _).
Qed.

Lemma read_more_end t io io' r :
  BodyRelay.ok_io io -> BodyRelay.read_more t io = (io', r) ->
  match r with
  | Ok _ => end_error (fst t) (BodyRelay.read_stream io') = end_error (fst t) (BodyRelay.read_stream io)
  | Err (BodyRelay.NetworkErr e) => e = end_error (fst t) (BodyRelay.read_stream io)
  | _ => True
  end.
Proof.
  intros [Hi _]. destruct (LoopBuffer.get_mut_spec _ Hi) as (_ & _ & _ & Gr).
  unfold BodyRelay.read_more. destruct (LoopBuffer.get_mut _) as [b [room|]]; [|by intros [= <- <-]].
  destruct (read_with_timeout _ _ _) as [s x] eqn:Hx.
  apply read_with_timeout_end in Hx; [|by destruct Gr].
  by destruct x; intros [= <- <-].
Qed.

(** A failed read changes nothing. *)
Lemma read_more_Err t io io' e :
  BodyRelay.ok_io io -> BodyRelay.read_more t io = (io', Err e) ->
  LoopBuffer.queue (BodyRelay.loop_buffer io') = LoopBuffer.queue (BodyRelay.loop_buffer io) /\
  BodyRelay.read_stream io' = BodyRelay.read_stream io.
Proof.
  intros [Hi _]. destruct (LoopBuffer.get_mut_spec _ Hi) as (_ & Gq & _ & Gr).
  unfold BodyRelay.read_more. destruct (LoopBuffer.get_mut _) as [b [room|]]; simpl in *; [|by intros [= <- <-]].
  destruct (read_with_timeout _ _ _) as [s x] eqn:Hx. destruct x; intros [= <- <-].
  by apply read_with_timeout_Err in Hx as [_ ->]; [|by destruct Gr].
Qed.

(** What the reader can still take in. *)
Definition arriving (r : H1Reader) : bytes := BodyRelay.stream (to_io r Sinks.accepting).
Definition ok_reader (r : H1Reader) : Prop := BodyRelay.ok_io (to_io r Sinks.accepting).
Definition capacity (r : H1Reader) : nat := length (LoopBuffer.data (buffer r)).

(** [r'] has read on from [r]: nothing is consumed, only moved from the
    socket into the buffer. *)
Record read_on (r r' : H1Reader) : Prop := {
  ro_ok : ok_reader r';
  ro_arriving : arriving r' = arriving r;
  ro_capacity : capacity r' = capacity r;
  ro_end : end_error (fst (timeouts r)) (read_part r') = end_error (fst (timeouts r)) (read_part r);
  ro_builder : Rewrite.builder (core r') = Rewrite.builder (core r);
  ro_timeouts : timeouts r' = timeouts r
}.

Lemma read_on_refl r : ok_reader r -> read_on r r.
Proof. by split. Qed.

Lemma read_on_trans r1 r2 r3 : read_on r1 r2 -> read_on r2 r3 -> read_on r1 r3.
Proof.
  intros H12 H23. pose proof (ro_timeouts _ _ H12) as Ht. destruct H12, H23. rewrite Ht in *.
  split; congruence.
Qed.

Lemma of_io_read_on r io io' :
  io = to_io r Sinks.accepting -> BodyRelay.moved 0 io io' ->
  end_error (fst (timeouts r)) (BodyRelay.read_stream io') = end_error (fst (timeouts r)) (read_part r) ->
  read_on r (of_io r io').
Proof.
  intros -> Hm He. split; try done.
  - apply Hm.
  - unfold arriving. pose proof (BodyRelay.moved_stream _ _ _ Hm) as Hs.
    change (Z.to_nat 0) with 0%nat in Hs. rewrite drop_0 in Hs. exact Hs.
  - apply (BodyRelay.moved_cap _ _ _ Hm).
Qed.

Section Reading.
Context `{SliceOfU8Ext} `{H1Libs}.

(** What one look at the buffer gives. *)
Definition look (r : H1Reader) : outcome bytes (option Http1Headers) :=
  let q := LoopBuffer.queue (buffer r) in if decide (q = []) then Ok None else parse q.

Lemma read_headers_spec fuel : forall r,
  (size (read_part r) < fuel)%nat -> ok_reader r ->
  exists r' res, read_headers_loop fuel r = (r', Some res) /\ read_on r r' /\
    match res with
    | Ok h => look r' = Ok (Some h)
    | Err (NetworkErr e) => look r' = Ok None /\ e = end_error (fst (timeouts r)) (read_part r) /\
                            LoopBuffer.queue (buffer r') = arriving r
    | Err BufferAllocationFail => look r' = Ok None /\ length (LoopBuffer.queue (buffer r')) = capacity r
    | Err _ => False
    | Panic => is_ok (look r') = false
    end.
Proof.
  induction fuel as [|fuel IH]; intros r Hf Ho; [lia|].
  assert (LoopBuffer.get_data (E:=bytes) (buffer r) = Ok (LoopBuffer.queue (buffer r))) as Hg
    by (apply LoopBuffer.get_data_queue; apply Ho).
  assert ((if decide (0 < length (LoopBuffer.queue (buffer r)))%nat then parse (LoopBuffer.queue (buffer r))
           else Ok None) = look r) as Hlook.
  { unfold look. destruct (LoopBuffer.queue (buffer r)) as [|b q]; [done|]. rewrite decide_True by (simpl; lia).
    by rewrite decide_False. }
  cbn [read_headers_loop]. rewrite Hg. cbn [mbind outcome_bind]. rewrite Hlook.
  destruct (look r) as [[h|]|e|] eqn:Hl.
  - exists r, (Ok h). split_and!; [done|by apply read_on_refl|done].
  - destruct (BodyRelay.read_more_spec (timeouts r) (to_io r Sinks.accepting) Ho) as (io' & x & Hx & Hm & Hres).
    pose proof (read_more_end _ _ _ _ Ho Hx) as Hend. rewrite Hx. clear Hg Hlook.
    assert (arriving (of_io r io') = arriving r) as Ha.
    { unfold arriving. pose proof (BodyRelay.moved_stream _ _ _ Hm) as Hs.
      change (Z.to_nat 0) with 0%nat in Hs. rewrite drop_0 in Hs. exact Hs. }
    destruct x as [[]|e|]; [| |done].
    + destruct (IH (of_io r io')) as (r' & res & -> & Hon & Hr); [cbn in *; lia|apply Hm|].
      assert (read_on r r') as Hr' by (eapply read_on_trans; [by eapply of_io_read_on|done]).
      exists r', res. split_and!; [done|done|]. cbn [timeouts of_io] in *.
      destruct res as [h|[e| | | | | | | | | | | | | | |]|]; try done.
      * destruct Hr as (? & -> & ?). split_and!; [done|exact Hend|congruence].
      * destruct Hr as (? & Hc). split; [done|]. rewrite Hc. apply (BodyRelay.moved_cap _ _ _ Hm).
    + destruct (read_more_Err _ _ _ _ Ho Hx) as [Hq Hs]. cbn [to_io BodyRelay.loop_buffer BodyRelay.read_stream] in *.
      exists (of_io r io'), (Err (of_transfer e)). split; [done|].
      split; [eapply of_io_read_on; [done|done|by rewrite Hs]|].
      assert (look (of_io r io') = Ok None) as Hl' by (unfold look; cbn; by rewrite Hq).
      destruct Hres as [[-> Hfull]|[Hp [e' ->]]]; cbn [of_transfer].
      * split; [done|]. cbn. by rewrite Hq.
      * split_and!; [done|done|]. cbn. rewrite Hq. unfold arriving, BodyRelay.stream. cbn. by rewrite Hp, app_nil_r.
  - exists r, Panic. split_and!; [done|by apply read_on_refl|by rewrite Hl].
  - exists r, Panic. split_and!; [done|by apply read_on_refl|by rewrite Hl].
Qed.

Lemma read_headers_complete first ls rest cl r :
  one_line first -> verify_http11_first_line first = Ok tt -> Forall line_ok ls ->
  framing ls NoLength = Some cl -> ok_reader r -> (length (head first ls) <= capacity r)%nat ->
  arriving r = head first ls ++ rest ->
  exists r' q h, read_headers r = (r', Some (Ok h)) /\ read_on r r' /\
    LoopBuffer.queue (buffer r') = head first ls ++ q /\
    parse (head first ls ++ q) = Ok (Some h) /\ first_line_end h = length first /\
    head_end h = length (head first ls) /\ content_length h = cl.
Proof.
  intros Hcr Hv Hls Hfr Ho Hcap Hst.
  assert (0 < length (head first ls))%nat as Hne by (unfold head; rewrite !length_app; simpl; lia).
  destruct (read_headers_spec (S (size (read_part r))) r ltac:(lia) Ho) as (r' & res & Hrun & Hon & Hres).
  (* the buffer holds a cut of the stream: a whole head parses, a part does not *)
  assert (exists t, LoopBuffer.queue (buffer r') ++ t = head first ls ++ rest) as [t Ht].
  { exists (pending (read_part r')). rewrite <-Hst, <-(ro_arriving _ _ Hon). done. }
  assert ((look r' = Ok None /\ length (LoopBuffer.queue (buffer r')) < length (head first ls))%nat \/
          exists q h, LoopBuffer.queue (buffer r') = head first ls ++ q /\ look r' = Ok (Some h) /\
            parse (head first ls ++ q) = Ok (Some h) /\ first_line_end h = length first /\
            head_end h = length (head first ls) /\ content_length h = cl) as Hcases.
  { destruct (app_cut _ _ _ _ Ht) as [(k & Hk & Hq)|(q & Hq & _)].
    - left. split; [unfold look; case_decide; [done|by eapply parse_partial]|].
      apply (f_equal length) in Hq. rewrite length_app in Hq. destruct k; [done|]. simpl in Hq. lia.
    - right. pose proof (parse_head_spec first ls q Hcr Hv Hls) as Hp. rewrite Hfr in Hp.
      destruct Hp as (h & Hp & ? & ? & ? & _). exists q, h. split_and!; try done.
      unfold look. rewrite Hq, decide_False; [done|]. intros Hn. apply (f_equal length) in Hn.
      rewrite length_app in Hn. simpl in Hn. lia. }
  destruct Hcases as [[Hl Hlt]|(q & h & Hq & Hl & Hp & Hf & He & Hc)].
  - exfalso. destruct res as [h|[e| | | | | | | | | | | | | | |]|]; try done; try congruence.
    + destruct Hres as (_ & _ & Hall). rewrite Hall, Hst, length_app in Hlt. lia.
    + destruct Hres as (_ & Hfull). lia.
    + by rewrite Hl in Hres.
  - exists r', q, h. split_and!; try done. unfold read_headers. rewrite Hrun.
    destruct res as [h'|[e| | | | | | | | | | | | | | |]|]; try done; try (destruct Hres; congruence).
    + congruence.
    + by rewrite Hl in Hres.
Qed.

(** A head is read the same however it is cut into segments.  If the
    bytes that arrive start with a well-formed head that fits the buffer, the
    reader returns exactly the parse of that head, with everything behind it
    still to come; and in every case, head or not, the reader ends, consumes
    nothing, and fails only when the connection ended before anything that
    parses, when the buffer is full without a head in it, or where the parser
    itself panics. *)
Theorem head_read_any_segmentation r :
  ok_reader r ->
  (exists r' res, read_headers r = (r', Some res) /\ read_on r r' /\
    match res with
    | Ok h => parse (LoopBuffer.queue (buffer r')) = Ok (Some h)
    | Err (NetworkErr e) =>
        e = end_error (fst (timeouts r)) (read_part r) /\ LoopBuffer.queue (buffer r') = arriving r /\
        look r' = Ok None
    | Err BufferAllocationFail => length (LoopBuffer.queue (buffer r')) = capacity r /\ look r' = Ok None
    | Err _ => False
    | Panic => is_ok (parse (LoopBuffer.queue (buffer r'))) = false
    end) /\
  forall first ls rest cl,
    one_line first -> verify_http11_first_line first = Ok tt -> Forall line_ok ls ->
    framing ls NoLength = Some cl -> (length (head first ls) <= capacity r)%nat ->
    arriving r = head first ls ++ rest ->
    exists r' q h, read_headers r = (r', Some (Ok h)) /\ read_on r r' /\
      LoopBuffer.queue (buffer r') = head first ls ++ q /\
      parse (head first ls ++ q) = Ok (Some h) /\ head_end h = length (head first ls) /\ content_length h = cl.
Proof.
  intros Ho. split.
  - destruct (read_headers_spec (S (size (read_part r))) r ltac:(lia) Ho) as (r' & res & Hrun & Hon & Hres).
    exists r', res. split_and!; [done|done|]. unfold look in *.
    destruct res as [h|[e| | | | | | | | | | | | | | |]|]; try done; try naive_solver;
      by destruct (decide (LoopBuffer.queue (buffer r') = [])).
  - intros first ls rest cl Hcr Hv Hls Hfr Hcap Hst.
    destruct (read_headers_complete first ls rest cl r Hcr Hv Hls Hfr Ho Hcap Hst)
      as (r' & q & h & ? & ? & ? & ? & _ & ? & ?). exists r', q, h. by split_and!.
Qed.

(** Whatever arrives and is no head, the reader waits for more, and reports
    the way the connection ends. *)
Lemma no_head_is_a_transport_error r :
  ok_reader r -> (length (arriving r) < capacity r)%nat ->
  (forall q t, q ++ t = arriving r -> q <> [] -> parse q = Ok None) ->
  snd (read_headers r) = Some (Err (NetworkErr (end_error (fst (timeouts r)) (read_part r)))).
Proof.
  intros Ho Hlen Hno.
  destruct (read_headers_spec (S (size (read_part r))) r ltac:(lia) Ho) as (r' & res & Hrun & Hon & Hres).
  unfold read_headers. rewrite Hrun. cbn [snd].
  assert (look r' = Ok None) as Hl.
  { unfold look. case_decide as Hd; [done|]. apply (Hno _ (pending (read_part r'))); [|done].
    by rewrite <-(ro_arriving _ _ Hon). }
  destruct res as [h|[e| | | | | | | | | | | | | | |]|]; try done; try congruence.
  - by destruct Hres as (_ & -> & _).
  - destruct Hres as (_ & Hfull). exfalso.
    pose proof (ro_arriving _ _ Hon) as Ha. apply (f_equal length) in Ha.
    unfold arriving, BodyRelay.stream in *. cbn in *. rewrite length_app in Ha. lia.
  - by rewrite Hl in Hres.
Qed.

(** *** Relaying a body *)

Lemma to_io_of_io r io : to_io (of_io r io) (BodyRelay.write_stream io) = io.
Proof. by destruct io. Qed.

(** The framings under which a body is relayed, with the number of rounds of
    the chunked pump: nothing, a length, or chunks up to the two bytes behind
    the line of the last chunk, with size lines of at most 15 hexadecimal digits
    that fit the buffer. *)
Inductive framed (room : nat) : HttpContentLength -> bytes -> nat -> Prop :=
| framed_none : framed room NoLength [] 0
| framed_known body : framed room (Known (Z.of_nat (length body))) body 0
| framed_chunked cs zero two :
    BodyRelay.chunks_ok room cs -> BodyRelay.line_ok room zero 0 -> length two = 2%nat ->
    Z.of_nat (length (BodyRelay.chunks_wire cs ++ zero ++ BodyRelay.HTTP_CR_LF ++ two)) < 2 ^ 64 ->
    framed room Chunked (BodyRelay.chunks_wire cs ++ zero ++ BodyRelay.HTTP_CR_LF ++ two) (S (length cs)).

Definition length_ok (cl : HttpContentLength) : Prop :=
  match cl with Known n => 0 <= n | _ => True end.

(** What the parser returns is within the buffer, and a length is one. *)
Lemma parse_uint_nonneg max l n : Str.parse_uint max l = Some n -> 0 <= n.
Proof.
  assert (forall l acc v, 0 <= acc -> Str.digits_value l acc = Some v -> 0 <= v) as Hd.
  { clear. induction l as [|b l IH]; intros acc v Ha; cbn; [by intros [= <-]|].
    destruct (Str.is_digit b) eqn:Hb; [|done]. apply IH. unfold Str.is_digit in Hb. lia. }
  unfold Str.parse_uint. destruct (match l with [] => [] | _ => _ end) as [|b x]; [done|].
  destruct (Str.digits_value (b :: x) 0) as [v|] eqn:Hv; [|done]. cbn. destruct (v <=? max); [|done].
  intros [= <-]. by eapply Hd.
Qed.

Lemma on_header_length hd st st' :
  on_header hd st = Ok (Some st') -> length_ok (content_length st) -> length_ok (content_length st').
Proof.
  unfold on_header. intros Ho Hl.
  destruct (is_my_header_name hd HOST_HEADER) as [[]| |]; cbn in Ho; [by injection Ho as <-| |done|done].
  destruct (is_my_header_name hd COOKIE_HEADER) as [[]| |]; cbn in Ho; [by injection Ho as <-| |done|done].
  destruct (is_my_header_name hd CONTENT_LEN_HEADER) as [[]| |]; cbn in Ho; [| |done|done].
  { unfold get_usize_value in Ho. destruct (get_value_as_str hd) as [[v|]| |]; cbn in Ho; try done.
    destruct (Str.parse_uint _ v) as [n|] eqn:Hn; cbn in Ho; [|done]. injection Ho as <-. cbn.
    by eapply parse_uint_nonneg. }
  destruct (is_my_header_name hd TRANSFER_ENCODING_HEADER) as [[]| |]; cbn in Ho; [| |done|done].
  { destruct (get_value_as_str hd) as [[v|]| |]; cbn in Ho; try done. injection Ho as <-.
    by destruct (eq_case_insensitive v _). }
  destruct (is_my_header_name hd UPGRADE_HEADER) as [[]| |]; cbn in Ho; try done; by injection Ho as <-.
Qed.

Lemma parse_loop_bounds src fuel : forall pos st h,
  parse_loop fuel src pos st = Ok (Some h) -> length_ok (content_length st) ->
  (head_end h <= length src)%nat /\ length_ok (content_length h).
Proof.
  induction fuel as [|fuel IH]; intros pos st h Hp Hl; [done|]. cbn [parse_loop] in Hp.
  pose proof (find_sequence_pos_spec src CRLF pos ltac:(done)) as Hf.
  destruct (find_sequence_pos src CRLF pos) as [e|]; [|done].
  destruct Hf as (_ & Hocc & _). apply BodyRelay.occurs_crlf_lookup in Hocc as [_ He].
  case_decide.
  - injection Hp as <-. cbn. split; [lia|done].
  - destruct (HttpHeader_new src pos e) as [hd|]; [|done].
    destruct (on_header hd st) as [[st'|]| |] eqn:Ho; cbn in Hp; try done.
    apply (IH _ _ _ Hp). by eapply on_header_length.
Qed.

Lemma parse_bounds src h :
  parse src = Ok (Some h) -> (head_end h <= length src)%nat /\ length_ok (content_length h).
Proof.
  unfold parse. destruct (find_sequence_pos src CRLF 0) as [e|]; [|done].
  destruct (slice_to src e) as [l| |]; cbn [mbind outcome_bind]; try done.
  destruct (verify_http11_first_line l); try done. intros Hp. by apply (parse_loop_bounds _ _ _ _ _ Hp).
Qed.

(** Rewriting consumes exactly the head. *)
Lemma compile_headers_buffer `{RewriteLibs} iter_add h kind conn identity mcp dyn r k ws :
  Rewrite.compile_headers iter_add h kind conn identity mcp dyn r = Ok (k, ws) ->
  Rewrite.loop_buffer k = LoopBuffer.commit_read (head_end h) (Rewrite.loop_buffer r).
Proof.
  unfold Rewrite.compile_headers. intros Hc.
  repeat match type of Hc with
  | mbind _ ?m = Ok _ => destruct m as [[]| |]; cbn [mbind outcome_bind] in Hc; try discriminate Hc
  | mbind _ ?m = Ok _ => destruct m; cbn [mbind outcome_bind] in Hc; try discriminate Hc
  end; by injection Hc as <- <-.
Qed.

(** The reader behind a head that was read and rewritten. *)
Lemma behind_head r1 h k :
  ok_reader r1 -> look r1 = Ok (Some h) ->
  Rewrite.loop_buffer k = LoopBuffer.commit_read (head_end h) (buffer r1) ->
  ok_reader (set_core k r1) /\ length_ok (content_length h) /\
  capacity (set_core k r1) = capacity r1 /\
  arriving (set_core k r1) = drop (head_end h) (arriving r1).
Proof.
  intros [Hi Hn] Hl Hk. cbn in Hi, Hn.
  assert (parse (LoopBuffer.queue (buffer r1)) = Ok (Some h)) as Hp
    by (unfold look in Hl; by destruct (decide (LoopBuffer.queue (buffer r1) = []))).
  apply parse_bounds in Hp as [He Hlen].
  destruct (LoopBuffer.commit_queue (head_end h) (buffer r1) Hi He) as (Ci & Cq & Cl).
  unfold ok_reader, BodyRelay.ok_io, capacity, arriving, BodyRelay.stream, to_io, buffer, set_core. cbn.
  rewrite Hk. split_and!; [done|unfold buffer in *; cbn in *; lia|done|done|].
  rewrite Cq, drop_app_le; done.
Qed.

(** Whatever arrives, what the writer is given is a prefix of it. *)
Lemma transfer_body_moved fuel oc cl r w r' w' res :
  length_ok cl -> BodyRelay.ok_io (to_io r w) ->
  transfer_body fuel oc cl r w = (r', w', res) ->
  (exists k, BodyRelay.moved k (to_io r w) (to_io r' w')) /\
  Rewrite.builder (core r') = Rewrite.builder (core r) /\ timeouts r' = timeouts r.
Proof.
  intros Hcl Ho. unfold transfer_body.
  assert (forall k io' res', BodyRelay.moved k (to_io r w) io' ->
    (of_io r io', BodyRelay.write_stream io', res') = (r', w', res) ->
    (exists k, BodyRelay.moved k (to_io r w) (to_io r' w')) /\
    Rewrite.builder (core r') = Rewrite.builder (core r) /\ timeouts r' = timeouts r) as Hfin.
  { intros k io' res' Hm [= <- <- <-]. split; [|done]. exists k. by rewrite to_io_of_io. }
  assert ((r, w, Some (Ok 0)) = (r', w', res) ->
    (exists k, BodyRelay.moved k (to_io r w) (to_io r' w')) /\
    Rewrite.builder (core r') = Rewrite.builder (core r) /\ timeouts r' = timeouts r) as Hskip.
  { intros [= <- <- _]. split; [|done]. exists 0. by apply BodyRelay.moved_refl. }
  destruct cl as [|n|]; [done| |].
  - destruct (n =? 0); [done|].
    destruct (BodyRelay.transfer_known_size_moved n (timeouts r) _ Hcl Ho) as (k & io' & x & -> & Hm).
    by eapply Hfin.
  - destruct (BodyRelay.transfer_chunked_moved oc (timeouts r) fuel 0 _ Ho) as (k & io' & x & -> & Hm).
    by eapply Hfin.
Qed.

(** The same for the way back: a known length that succeeds has moved. *)
Lemma transfer_body_exact fuel oc cl r w r' w' res :
  length_ok cl -> BodyRelay.ok_io (to_io r w) ->
  transfer_body fuel oc cl r w = (r', w', res) ->
  exists k, BodyRelay.moved k (to_io r w) (to_io r' w') /\
    forall n v, cl = Known n -> res = Some (Ok v) -> k = n.
Proof.
  intros Hcl Ho Ht. destruct cl as [|size|].
  - destruct (transfer_body_moved _ _ _ _ _ _ _ _ Hcl Ho Ht) as [[k ?] _]. by exists k.
  - unfold transfer_body in Ht. destruct (Z.eqb_spec size 0) as [->|Hz].
    { injection Ht as <- <- <-. exists 0. split; [by apply BodyRelay.moved_refl|]. by intros n v [= <-]. }
    unfold BodyRelay.transfer_known_size in Ht.
    destruct (BodyRelay.relay_loop_spec (timeouts r) (S (ReadPart.size (read_part r))) size (to_io r w))
      as (m & io' & x & Hrl & Hm & _ & Hres); [cbn; lia|exact Hcl|done|].
    cbn [BodyRelay.read_stream to_io] in *. rewrite Hrl in Ht. injection Ht as <- <- <-. exists m.
    split; [by rewrite to_io_of_io|]. intros n v [= <-]. by destruct x.
  - destruct (transfer_body_moved _ _ _ _ _ _ _ _ Hcl Ho Ht) as [[k ?] _]. by exists k.
Qed.

(** A body that arrives in full is relayed in full. *)
Lemma transfer_body_complete fuel oc cl body n rest r w :
  framed (capacity r) cl body n -> (n <= fuel)%nat ->
  BodyRelay.ok_io (to_io r w) -> BodyRelay.healthy (to_io r w) -> arriving r = body ++ rest ->
  exists r' w', transfer_body fuel oc cl r w = (r', w', Some (Ok (Z.of_nat (length body)))) /\
    BodyRelay.moved (Z.of_nat (length body)) (to_io r w) (to_io r' w') /\ arriving r' = rest.
Proof.
  intros Hfr Hn Ho Hh Hst.
  assert (forall io', BodyRelay.moved (Z.of_nat (length body)) (to_io r w) io' -> arriving (of_io r io') = rest) as Hrest.
  { intros io' Hm. unfold arriving. pose proof (BodyRelay.moved_stream _ _ _ Hm) as Hs.
    rewrite Nat2Z.id in Hs. change (BodyRelay.stream (to_io r w)) with (arriving r) in Hs.
    rewrite Hst, drop_app_length in Hs. exact Hs. }
  destruct Hfr as [|body|cs zero two Hcs Hz Htwo H64]; unfold transfer_body.
  - exists r, w. split_and!; [done|by apply BodyRelay.moved_refl|done].
  - destruct (Z.eqb_spec (Z.of_nat (length body)) 0) as [Hz|Hz].
    { destruct body; [|simpl in Hz; lia]. exists r, w. split_and!; [done|by apply BodyRelay.moved_refl|done]. }
    destruct (BodyRelay.transfer_known_size_spec (Z.of_nat (length body)) (timeouts r) (to_io r w))
      as (io' & -> & Hm); try done; [lia| |].
    { change (BodyRelay.stream (to_io r w)) with (arriving r). rewrite Hst, length_app. lia. }
    exists (of_io r io'), (BodyRelay.write_stream io'). split; [done|]. rewrite to_io_of_io. auto.
  - destruct (BodyRelay.transfer_chunked_spec oc (timeouts r) cs zero two rest (to_io r w))
      as (io' & Hr & Hm); try done.
    rewrite (BodyRelay.transfer_chunked_fuel _ _ _ fuel _ _ _ _ Hn Hr).
    exists (of_io r io'), (BodyRelay.write_stream io'). split; [done|]. rewrite to_io_of_io. auto.
Qed.

End Reading.

(** *** Witnesses: a head in three segments, and one byte pair that is no HTTP *)

#[local] Existing Instance reference_slice_ext.
#[local] Existing Instance reference_h1_libs.

Lemma reader_new_ok uninit s t : (0 < length uninit)%nat -> ok_reader (reader_new uninit s t).
Proof. intros Hu. split; [unfold LoopBuffer.inv; cbn; lia|exact Hu]. Qed.

Definition sample_reader : H1Reader :=
  reader_new (replicate 100 Byte.x00)
    [Data (take 5 (head sample_first sample_lines)); Data (drop 5 (head sample_first sample_lines) ++ bs "ab");
     Data (bs "c")] (10, 10).

Lemma head_read_any_segmentation_witness :
  exists r' q h, read_headers sample_reader = (r', Some (Ok h)) /\
    LoopBuffer.queue (buffer r') = head sample_first sample_lines ++ q /\ content_length h = Known 512.
Proof.
  assert (ok_reader sample_reader) as Ho by (apply reader_new_ok; vm_compute; lia).
  destruct (proj2 (head_read_any_segmentation sample_reader Ho)
    sample_first sample_lines (bs "abc") (Known 512)) as (r' & q & h & Hr & _ & Hq & _ & _ & Hc).
  - apply no_cr_one_line, not_in_dec. vm_compute. reflexivity.
  - vm_compute. reflexivity.
  - exact sample_lines_ok.
  - vm_compute. reflexivity.
  - vm_compute. lia.
  - vm_compute. reflexivity.
  - exists r', q, h. split; [exact Hr|]. split; [exact Hq|exact Hc].
Defined.

End Reader.

Lemma collector_exact_witness :
  Sinks.into_body (Sinks.collect 8 [bs "grant"; bs "_type="]) = None.
Proof. exact (proj1 (Sinks.collector_exact 8 [bs "grant"; bs "_type="] ltac:(lia))). Defined.

#[local] Existing Instance reference_slice_ext.
#[local] Existing Instance H1.reference_h1_libs.

Lemma error_pages_framed_witness :
  exists line, ProxyErrors.self_delimiting line (ProxyErrors.ERROR_TIMEOUT (bs "1.0")).
Proof.
  destruct (ProxyErrors.error_pages_framed (bs "1.0") ltac:(vm_compute; lia)
    (ProxyErrors.CanNotConnectToRemoteResource [] (Timeout 1)) _ ltac:(discriminate) eq_refl)
    as (line & Hl & _).
  exists line. exact Hl.
Defined.
