(* ===== verification/H1ClientWriter.v ===== *)
(** * The client writer of the HTTP/1.1 pipeline:
      [h1_proxy_server/pipeline/client_writer.rs], [response_event.rs]

    One task owns the write half of the client connection.  It takes response
    slots from a queue in the order in which the requests were read, and
    writes the events of one slot to its end before it looks at the next.
    What has reached the channels at a given moment is the input: a slot is
    the events its worker has sent so far and whether the worker has dropped
    its sender, and the queue the slots pushed so far and whether the reader
    is gone.  So a run of the model is a state of the task under some
    schedule of reader and workers, and [Waiting] means that the task is
    blocked on a channel. *)

From Stdlib Require Import ZArith Lia Strings.Byte.
From stdpp Require Import base tactics list strings.
From S2P Require Import Prelude RustStd LoopBuffer BodyRelay.

Local Open Scope Z_scope.

Module ClientWriter.

Inductive ResponseEvent :=
  | Chunk (b : bytes)
  | Done
  | Abort.

Record ResponseSlot := { events : list ResponseEvent; sender_dropped : bool; write_timeout : Z }.

(** Capacities of the channels between the tasks. *)
Definition RESPONSE_CHANNEL_CAPACITY : Z := 4.
Definition REQUEST_BODY_CHANNEL_CAPACITY : Z := 4.
Definition RESPONSE_QUEUE_CAPACITY : Z := 1.

(** The write half: what it was given, and whether it was shut down or
    flushed. *)
Record WritePart := { socket : BodyRelay.Sink; shut_down : bool; flushed : bool }.

Definition write_all_with_timeout (b : bytes) (wp : WritePart) : WritePart * outcome NetworkError unit :=
  let '(s, r) := BodyRelay.write_http_payload b (socket wp) in
  ({| socket := s; shut_down := shut_down wp; flushed := flushed wp |}, r).

Definition shutdown_socket (wp : WritePart) : WritePart :=
  {| socket := socket wp; shut_down := true; flushed := flushed wp |}.

Definition flush_it (wp : WritePart) : WritePart :=
  {| socket := socket wp; shut_down := shut_down wp; flushed := true |}.

(** Where the task stands: blocked, or returned with the write half
    ([Some(write_part)]) or without it. *)
Inductive Progress := Waiting | Returned (write_part : bool).

(** How the inner loop over one slot's events leaves it. *)
Inductive SlotEnd := Finished (cleanly : bool) | Gone | Blocked.

Fixpoint drain_slot (es : list ResponseEvent) (sender_dropped : bool) (wp : WritePart) : WritePart * SlotEnd :=
  match es with
  | [] => (wp, if sender_dropped then Finished false else Blocked)
  | Chunk b :: es =>
      let '(wp, r) := write_all_with_timeout b wp in
      match r with
      | Ok _ => drain_slot es sender_dropped wp
      | _ => (wp, Gone)
      end
  | Done :: _ => (wp, Finished true)
  | Abort :: _ => (shutdown_socket wp, Gone)
  end.

Fixpoint run_client_writer (slots : list ResponseSlot) (queue_closed : bool) (wp : WritePart) :
    WritePart * Progress :=
  match slots with
  | [] => if queue_closed then (flush_it wp, Returned true) else (wp, Waiting)
  | s :: slots =>
      let '(wp, e) := drain_slot (events s) (sender_dropped s) wp in
      match e with
      | Finished true => run_client_writer slots queue_closed wp
      | Finished false => (shutdown_socket wp, Returned false)
      | Gone => (wp, Returned false)
      | Blocked => (wp, Waiting)
      end
  end.

(** ** What a client is to see *)

(** The response bytes of a slot, and whether the response is complete. *)
Fixpoint response (es : list ResponseEvent) : list bytes * bool :=
  match es with
  | Chunk b :: es => let '(bs, c) := response es in (b :: bs, c)
  | Done :: _ => ([], true)
  | Abort :: _ | [] => ([], false)
  end.

(** The responses in order, up to and including the first incomplete one. *)
Fixpoint expected (slots : list ResponseSlot) : list bytes :=
  match slots with
  | [] => []
  | s :: slots => let '(bs, c) := response (events s) in bs ++ if c then expected slots else []
  end.

Definition all_done (slots : list ResponseSlot) : bool :=
  forallb (fun s => snd (response (events s))) slots.

(** Every write to come succeeds. *)
Definition healthy (wp : WritePart) : Prop := Forall (fun v => v = None) (BodyRelay.verdicts (socket wp)).

Definition written (wp : WritePart) : list bytes := BodyRelay.writes (socket wp).

(** The write behind the next [n] ones fails. *)
Definition fails_at (n : nat) (wp : WritePart) : Prop :=
  exists e, BodyRelay.verdicts (socket wp) !! n = Some (Some e).

Lemma healthy_never_fails n wp : healthy wp -> ~ fails_at n wp.
Proof. unfold healthy. intros Hh [e He]. by apply (Forall_lookup_1 _ _ _ _ Hh) in He. Qed.

(** [n] writes have gone through between [wp] and [wp']. *)
Definition after_writes (n : nat) (wp wp' : WritePart) : Prop :=
  BodyRelay.verdicts (socket wp') = drop n (BodyRelay.verdicts (socket wp)).

Lemma after_writes_healthy n wp wp' : after_writes n wp wp' -> healthy wp -> healthy wp'.
Proof. unfold after_writes, healthy. intros ->. apply Forall_drop. Qed.

Lemma after_writes_fails n m wp wp' : after_writes n wp wp' -> fails_at m wp' -> fails_at (n + m) wp.
Proof. unfold after_writes, fails_at. intros ->. by setoid_rewrite lookup_drop. Qed.

Lemma after_writes_trans n m wp1 wp2 wp3 :
  after_writes n wp1 wp2 -> after_writes m wp2 wp3 -> after_writes (n + m) wp1 wp3.
Proof. unfold after_writes. intros Ha ->. by rewrite Ha, drop_drop. Qed.

Lemma write_all_spec b wp wp' r :
  write_all_with_timeout b wp = (wp', r) ->
  shut_down wp' = shut_down wp /\ flushed wp' = flushed wp /\
  match r with
  | Ok _ => written wp' = written wp ++ [b] /\ after_writes 1 wp wp'
  | Err _ => written wp' = written wp /\ fails_at 0 wp
  | Panic => False
  end.
Proof.
  unfold write_all_with_timeout, BodyRelay.write_http_payload, written, after_writes, fails_at.
  destruct wp as [[ws vs] sd fl]; cbn. destruct vs as [|[e|] vs]; intros [= <- <-]; cbn; split_and!; try done.
  by exists e.
Qed.

(** One slot: what is written of it, and how it ends. *)
Lemma drain_slot_spec es sd : forall wp wp' e,
  drain_slot es sd wp = (wp', e) ->
  exists ws, written wp' = written wp ++ ws /\ ws `prefix_of` fst (response es) /\
    flushed wp' = flushed wp /\
    match e with
    | Finished true => ws = fst (response es) /\ snd (response es) = true /\ shut_down wp' = shut_down wp /\
        after_writes (length ws) wp wp'
    | Finished false => ws = fst (response es) /\ snd (response es) = false /\ sd = true
    | Gone => ws = fst (response es) /\ snd (response es) = false /\ shut_down wp' = true \/
        fails_at (length ws) wp /\ shut_down wp' = shut_down wp
    | Blocked => ws = fst (response es) /\ snd (response es) = false /\ sd = false
    end.
Proof.
  induction es as [|[b| |] es IH]; intros wp wp' e Hd; cbn [drain_slot response] in *.
  - injection Hd as <- <-. exists []. rewrite app_nil_r. by destruct sd.
  - destruct (write_all_with_timeout b wp) as [wp1 r] eqn:Hw.
    apply write_all_spec in Hw as (Hs & Hf & Hr).
    destruct (response es) as [bs c]; cbn [fst snd] in *. destruct r as [[]|err|]; [| |done].
    + destruct Hr as [Hwr Hn1]. destruct (IH _ _ _ Hd) as (ws & Hws & Hpre & Hfl & He).
      exists (b :: ws). rewrite Hws, Hwr, <-app_assoc. split_and!; [done|by apply prefix_cons|congruence|].
      destruct e as [[]| |].
      * destruct He as (-> & -> & -> & Hn2). split_and!; try done. exact (after_writes_trans _ _ _ _ _ Hn1 Hn2).
      * by destruct He as (-> & ? & ?).
      * destruct He as [(-> & ? & ?)|[Hfa ->]]; [by left|]. right. split; [|done].
        exact (after_writes_fails _ _ _ _ Hn1 Hfa).
      * by destruct He as (-> & ? & ?).
    + destruct Hr as [Hwr Hn]. injection Hd as <- <-. exists []. rewrite app_nil_r.
      split_and!; [done|apply prefix_nil|done|by right].
  - injection Hd as <- <-. exists []. rewrite app_nil_r. by split_and!.
  - injection Hd as <- <-. exists []. rewrite app_nil_r. split_and!; try done. by left.
Qed.

(** How the task can have ended or stopped after writing [ws]. *)
Definition ended (slots : list ResponseSlot) (qc : bool) (wp wp' : WritePart) (ws : list bytes) (p : Progress) : Prop :=
  match p with
  | Returned true => ws = expected slots /\ all_done slots = true /\ qc = true /\
      shut_down wp' = shut_down wp /\ flushed wp' = true
  | Returned false =>
      ws = expected slots /\ all_done slots = false /\ shut_down wp' = true \/
      fails_at (length ws) wp /\ shut_down wp' = shut_down wp
  | Waiting => ws = expected slots /\ (all_done slots = true -> qc = false)
  end.

Lemma run_client_writer_spec slots qc : forall wp wp' p,
  run_client_writer slots qc wp = (wp', p) ->
  exists ws, written wp' = written wp ++ ws /\ ws `prefix_of` expected slots /\ ended slots qc wp wp' ws p.
Proof.
  induction slots as [|s slots IH]; intros wp wp' p Hr; cbn [run_client_writer] in *; unfold ended;
    cbn [expected all_done forallb].
  - destruct qc; injection Hr as <- <-; exists []; rewrite app_nil_r; by split_and!.
  - destruct (drain_slot (events s) (sender_dropped s) wp) as [wp1 e] eqn:Hd.
    apply drain_slot_spec in Hd as (ws1 & Hws1 & Hpre1 & Hf1 & He).
    destruct (response (events s)) as [bs c]; cbn [fst snd] in *.
    destruct e as [[]| |].
    + destruct He as (-> & -> & Hs1 & Hn1). destruct (IH _ _ _ Hr) as (ws2 & Hws2 & Hpre2 & He2).
      exists (bs ++ ws2). rewrite Hws2, Hws1, <-app_assoc. split_and!; [done|by apply prefix_app|].
      cbn [andb]. unfold ended in He2. rewrite Hs1 in He2. destruct p as [|[]].
      * by destruct He2 as [-> ?].
      * by destruct He2 as (-> & ? & ? & ? & ?).
      * destruct He2 as [(-> & ? & ?)|[Hfa ?]]; [by left|]. right. split; [|done]. rewrite length_app.
        exact (after_writes_fails _ _ _ _ Hn1 Hfa).
    + injection Hr as <- <-. destruct He as (-> & -> & _). exists bs. rewrite app_nil_r. split_and!; [done..|by left].
    + injection Hr as <- <-. exists ws1. split_and!; [done|by apply prefix_app_r|].
      destruct He as [(-> & -> & ?)|He]; [left; by rewrite app_nil_r|by right].
    + injection Hr as <- <-. destruct He as (-> & -> & _). exists bs. rewrite app_nil_r. by split_and!.
Qed.

(** ** More of the channels' contents *)

(** [s'] is the slot [s] after some more of its events, if its sender is
    still there, and [Forall2]-wise, with more slots at the end, of a queue. *)
Definition slot_le (s s' : ResponseSlot) : Prop :=
  events s `prefix_of` events s' /\ (sender_dropped s = true -> s' = s).

Inductive queue_le : list ResponseSlot -> list ResponseSlot -> Prop :=
| queue_le_nil slots : queue_le [] slots
| queue_le_cons s s' slots slots' : slot_le s s' -> queue_le slots slots' -> queue_le (s :: slots) (s' :: slots').

Lemma response_prefix es es' :
  es `prefix_of` es' ->
  fst (response es) `prefix_of` fst (response es') /\
  (snd (response es) = true -> response es' = response es).
Proof.
  intros [more ->]. induction es as [|[b| |] es IH]; cbn; [|destruct (response es), (response (es ++ more)); cbn in *|by split_and!|by split_and!].
  - split; [apply prefix_nil|done].
  - destruct IH as [Hp Hs]. split; [by apply prefix_cons|]. intros Ht. by injection (Hs Ht) as -> ->.
Qed.

Lemma expected_prefix slots slots' : queue_le slots slots' -> expected slots `prefix_of` expected slots'.
Proof.
  induction 1 as [slots|s s' slots slots' [Hp _] Hq IH]; [apply prefix_nil|]. cbn.
  apply response_prefix in Hp as [Hp Hs].
  destruct (response (events s)) as [bs c], (response (events s')) as [bs' c']; cbn in *.
  destruct c; [injection (Hs eq_refl) as -> ->; by apply prefix_app|].
  rewrite app_nil_r. by apply prefix_app_r.
Qed.

Lemma prefix_concat {A} (xs ys : list (list A)) : xs `prefix_of` ys -> concat xs `prefix_of` concat ys.
Proof. intros [zs ->]. rewrite concat_app. apply prefix_app_r. done. Qed.


Definition sample_slots : list ResponseSlot :=
  [{| events := [Chunk (bs "HTTP/1.1 200 OK"); Chunk (bs "body"); Done]; sender_dropped := false; write_timeout := 30 |};
   {| events := [Chunk (bs "HTTP/1.1 404")]; sender_dropped := false; write_timeout := 30 |}].

Definition sample_final : list ResponseSlot :=
  [{| events := [Chunk (bs "HTTP/1.1 200 OK"); Chunk (bs "body"); Done]; sender_dropped := false; write_timeout := 30 |};
   {| events := [Chunk (bs "HTTP/1.1 404"); Chunk (bs "x"); Abort]; sender_dropped := true; write_timeout := 30 |};
   {| events := [Chunk (bs "never"); Done]; sender_dropped := true; write_timeout := 30 |}].

Definition sample_half : WritePart :=
  {| socket := {| BodyRelay.writes := []; BodyRelay.verdicts := [] |}; shut_down := false; flushed := false |}.


End ClientWriter.
