(* ===== verification/ProxyPassConfig.v ===== *)
(** * Compiled configuration: [configurations/]

    The upstream descriptions ([proxy_pass_to_config.rs],
    [my_reverse_proxy_remote_endpoint.rs]) and the pool keys made of them
    ([h1_remote_connection/upstream_state.rs]), the virtual hosts
    ([host_str.rs], [http_endpoint_info.rs], [http_type.rs]), the listen ports
    ([http_listen_port_configuration.rs], with [merge_http_into_existing] and
    [delete_http_endpoint_if_exists] of [scripts/]) and the lists requests
    are checked against. *)

From Stdlib Require Import ZArith Lia Strings.Byte.
From stdpp Require Import base tactics list strings gmap.
From S2P Require Import Prelude RustStd IpBlocklist H1Rewrite.

Local Open Scope Z_scope.

(** [rust_extensions::remote_endpoint] and [my_ssh], libraries outside this
    repository.  [scheme_debug] and [debug_opt_string] are what [{:?}] prints
    of an [Option<Scheme>] and of an [Option<String>]. *)
Inductive Scheme := Http | Https | Ws | Wss | UnixSocket.

#[global] Instance scheme_eq_dec : EqDecision Scheme.
Proof. solve_decision. Defined.

Class RemoteEndpointLib := {
  RemoteEndpointOwned : Type;
  SshCredentials : Type;
  endpoint_try_parse : bytes -> outcome bytes RemoteEndpointOwned;
  endpoint_as_str : RemoteEndpointOwned -> bytes;
  get_scheme : RemoteEndpointOwned -> option Scheme;
  get_host : RemoteEndpointOwned -> bytes;
  get_remote_port : RemoteEndpointOwned -> option Z;
  get_host_port : RemoteEndpointOwned -> bytes;
  get_http_path_and_query : RemoteEndpointOwned -> option bytes;
  scheme_debug : option Scheme -> bytes;
  debug_opt_string : option bytes -> bytes;
  ssh_to_string : SshCredentials -> bytes;
  scheme_debug_inj : Inj (=) (=) scheme_debug;
  scheme_debug_plain : forall s, Forall (fun b => b <> Byte.x7c) (scheme_debug s)
}.

Module Config.

(** ** Upstreams *)

Definition GATEWAY_PREFIX : bytes := bs "gateway:".
Definition BAR : byte := Byte.x7c.

(** [str.find(pattern)] and [str.split(pattern)] for a pattern of several
    bytes; the fuel of the latter is the length of the text. *)
Fixpoint find_str (p l : bytes) : option nat :=
  if Str.starts_with p l then Some O
  else match l with [] => None | _ :: l => S <$> find_str p l end.

Fixpoint split_str_loop (fuel : nat) (p l : bytes) : list bytes :=
  match fuel with
  | O => [l]
  | S fuel =>
      match find_str p l with
      | None => [l]
      | Some i => take i l :: split_str_loop fuel p (drop (i + length p) l)
      end
  end.

Definition split_str (p l : bytes) : list bytes := split_str_loop (S (length l)) p l.

(** [get_gateway_id] *)
Definition get_gateway_id (src : bytes) : outcome bytes bytes :=
  match Str.find Byte.x3a src with
  | None => Err (bs "Can not extract id from gateway prefix: '" ++ src ++ bs "'")
  | Some index => slice_from src (index + 1)
  end.

Section Upstreams.
Context `{RemoteEndpointLib}.

Inductive MyReverseProxyRemoteEndpoint :=
  | Gateway (id : bytes) (remote_host : RemoteEndpointOwned)
  | OverSsh (ssh_credentials : SshCredentials) (remote_host : RemoteEndpointOwned)
  | Direct (remote_host : RemoteEndpointOwned).

Definition kind_as_str (e : MyReverseProxyRemoteEndpoint) : bytes :=
  match e with Direct _ => bs "direct" | OverSsh _ _ => bs "ssh" | Gateway _ _ => bs "gateway" end.

Definition remote_get_host (e : MyReverseProxyRemoteEndpoint) : option bytes :=
  match e with Gateway _ h | OverSsh _ h | Direct h => Some (get_host h) end.

Definition get_path_and_query (e : MyReverseProxyRemoteEndpoint) : bytes :=
  match e with Gateway _ h | OverSsh _ h | Direct h => default (bs "/") (get_http_path_and_query h) end.

Definition try_parse_gateway_source (src : bytes) : outcome bytes MyReverseProxyRemoteEndpoint :=
  let src_split := split_str (bs "->") src in
  l ← unwrap (src_split !! 0%nat);
  match src_split !! 1%nat with
  | None => Err (bs "Invalid gateway source: " ++ src)
  | Some r =>
      gateway_id ← get_gateway_id l;
      remote_host ← endpoint_try_parse r;
      Ok (Gateway gateway_id remote_host)
  end.

Definition remote_to_string (e : MyReverseProxyRemoteEndpoint) : bytes :=
  match e with
  | Gateway id h => GATEWAY_PREFIX ++ id ++ bs "->" ++ endpoint_as_str h
  | OverSsh c h => bs "ssh:" ++ ssh_to_string c ++ bs "->" ++ endpoint_as_str h
  | Direct h => endpoint_as_str h
  end.

Record StaticContentConfig := { status_code : Z; content_type : option bytes; static_body : bytes }.
Record ProxyPassFilesPathModel := { files_path : MyReverseProxyRemoteEndpoint; default_file : option bytes }.
Record PoolTuning := { pool_size : Z; ping_timeout : Z; hot_window : Z }.
Record ProxyPassToModel := {
  remote_host : MyReverseProxyRemoteEndpoint;
  request_timeout : Z;
  connect_timeout : Z;
  pool_tuning : PoolTuning
}.
Record DynamicProxyConfig := {
  dyn_request_timeout : Z;
  dyn_connect_timeout : Z;
  allowed_hosts : option (list bytes)
}.

Inductive ProxyPassToConfig :=
  | Http1 (m : ProxyPassToModel)
  | Http2 (m : ProxyPassToModel)
  | McpHttp1 (m : ProxyPassToModel)
  | McpHttp2 (m : ProxyPassToModel)
  | UnixHttp1 (m : ProxyPassToModel)
  | UnixHttp2 (m : ProxyPassToModel)
  | FilesPath (m : ProxyPassFilesPathModel)
  | Static (c : StaticContentConfig)
  | Drop
  | DynamicProxy (c : DynamicProxyConfig).

Definition is_drop (p : ProxyPassToConfig) : bool := match p with Drop => true | _ => false end.

Definition is_mcp (p : ProxyPassToConfig) : bool :=
  match p with McpHttp1 _ | McpHttp2 _ => true | _ => false end.

Definition get_type_as_str (p : ProxyPassToConfig) : bytes :=
  match p with
  | UnixHttp1 _ => bs "unix+http1"
  | UnixHttp2 _ => bs "unix+http2"
  | Http1 _ => bs "http1"
  | McpHttp1 _ => bs "mcp"
  | McpHttp2 _ => bs "mcp-h2"
  | Http2 _ => bs "http2"
  | FilesPath _ => bs "files_path"
  | Static _ => bs "static"
  | Drop => bs "drop"
  | DynamicProxy _ => bs "dynamic"
  end.

Definition remote_endpoint_kind (p : ProxyPassToConfig) : option bytes :=
  match p with
  | Http1 m | McpHttp1 m | McpHttp2 m | Http2 m | UnixHttp1 m | UnixHttp2 m =>
      Some (kind_as_str (remote_host m))
  | FilesPath m => Some (kind_as_str (files_path m))
  | Static _ | Drop | DynamicProxy _ => None
  end.

(** [upstream_state.rs] *)
Definition mcp_path (p : ProxyPassToConfig) : option bytes :=
  match p with
  | McpHttp1 m | McpHttp2 m => Some (get_path_and_query (remote_host m))
  | _ => None
  end.

Definition remote_host_key (protocol : bytes) (m : ProxyPassToModel) : bytes :=
  match remote_host m with
  | Direct h => protocol ++ [BAR] ++ scheme_debug (get_scheme h) ++ [BAR] ++ get_host_port h
  | OverSsh c h => protocol ++ bs "|ssh:" ++ ssh_to_string c ++ [BAR] ++ get_host_port h
  | Gateway id h => protocol ++ bs "|gw:" ++ id ++ [BAR] ++ get_host_port h
  end.

Definition mcp_key (protocol : bytes) (m : ProxyPassToModel) : bytes :=
  remote_host_key protocol m ++ [BAR] ++ get_path_and_query (remote_host m).

Definition static_to_string (c : StaticContentConfig) : bytes :=
  bs "status_code: " ++ Str.uint_to_string (status_code c) ++ bs ", content_type: " ++
  debug_opt_string (content_type c) ++ bs ", body: " ++
  Str.uint_to_string (Z.of_nat (length (static_body c))) ++ bs "bytes".

Definition to_string (p : ProxyPassToConfig) : bytes :=
  match p with
  | Http1 m | McpHttp1 m | McpHttp2 m | UnixHttp1 m | UnixHttp2 m | Http2 m => remote_to_string (remote_host m)
  | FilesPath m => remote_to_string (files_path m)
  | Static c => static_to_string c
  | Drop => bs "drop"
  | DynamicProxy _ => bs "dynamic"
  end.

Definition connection_key (p : ProxyPassToConfig) : bytes :=
  match p with
  | Http1 m => remote_host_key (bs "h1") m
  | McpHttp1 m => mcp_key (bs "mcp-h1") m
  | McpHttp2 m => mcp_key (bs "mcp-h2") m
  | Http2 m => remote_host_key (bs "h2") m
  | UnixHttp1 m => remote_host_key (bs "uds-h1") m
  | UnixHttp2 m => remote_host_key (bs "uds-h2") m
  | other => to_string other
  end.

(** [build_location_id_string] *)
Definition build_location_id_string (listen_host path : bytes) (p : ProxyPassToConfig) : bytes :=
  listen_host ++ [BAR] ++ path ++ bs "->" ++ get_type_as_str p ++ [BAR] ++ to_string p.

(** [ProxyPassLocationConfig]; [location_id] is its [id]. *)
Record ProxyPassLocationConfig := {
  path : bytes;
  location_id : Z;
  id_string : bytes;
  modify_request_headers : Rewrite.ModifyHeadersConfig;
  modify_response_headers : Rewrite.ModifyHeadersConfig;
  ip_white_list_id : option bytes;
  domain_name : option bytes;
  proxy_pass_to : ProxyPassToConfig;
  compress : bool;
  auth_header : option bytes
}.

(** [ProxyPassLocationConfig::new]: [known_id] is what
    [find_location_id_by_id_string] finds among the live pools, [next_id] the
    application's next id. *)
Definition location_new (path : bytes) (modify_headers : option Rewrite.ModifyHttpHeadersSettings)
    (ip_white_list_id : option bytes) (proxy_pass_to : ProxyPassToConfig) (domain_name : option bytes)
    (compress : bool) (auth_header : option bytes) (listen_host : bytes) (known_id : bytes -> option Z) (next_id : Z) :
    ProxyPassLocationConfig :=
  let '(request_headers, response_headers) :=
    match modify_headers with
    | Some settings =>
        let (request_headers, settings) := Rewrite.populate_request Rewrite.config_default settings in
        let (response_headers, _) := Rewrite.populate_response Rewrite.config_default settings in
        (request_headers, response_headers)
    | None => (Rewrite.config_default, Rewrite.config_default)
    end in
  let id_string := build_location_id_string listen_host path proxy_pass_to in
  {| path := path; location_id := default next_id (known_id id_string); id_string := id_string;
     modify_request_headers := request_headers; modify_response_headers := response_headers;
     ip_white_list_id := ip_white_list_id; domain_name := domain_name; proxy_pass_to := proxy_pass_to;
     compress := compress; auth_header := auth_header |}.

Definition is_remote_content_http1 (l : ProxyPassLocationConfig) : option bool :=
  match proxy_pass_to l with
  | Http1 _ | McpHttp1 _ | UnixHttp1 _ | DynamicProxy _ => Some true
  | Http2 _ | McpHttp2 _ | UnixHttp2 _ => Some false
  | FilesPath _ | Static _ | Drop => None
  end.

End Upstreams.

(** ** Listeners *)

Inductive ListenHttpEndpointType := LHttp1 | LHttp2 | LHttps1 | LHttps2 | LMcp.

Definition can_be_under_the_same_port (self other : ListenHttpEndpointType) : bool :=
  match self, other with
  | LHttp1, LHttp1 => true
  | LHttp2, LHttp2 => true
  | LHttps1, (LHttps1 | LHttps2 | LMcp) => true
  | LHttps2, (LHttps1 | LHttps2) => true
  | LMcp, (LMcp | LHttps1 | LHttps2) => true
  | _, _ => false
  end.

Definition is_http1_or_mcp (t : ListenHttpEndpointType) : bool :=
  match t with LHttp1 | LHttps1 | LMcp => true | _ => false end.

Definition is_https (t : ListenHttpEndpointType) : bool :=
  match t with LHttps1 | LHttps2 => true | _ => false end.

Definition is_https_or_mcp (t : ListenHttpEndpointType) : bool :=
  match t with LHttps1 | LHttps2 | LMcp => true | _ => false end.

(** [host_str.rs] *)
Inductive EndpointPort := TcpPort (port : Z) | UnixSocketPort (path : bytes).

Record EndpointHttpHostString := { src : bytes; port : option Z; host_index : option nat }.

Definition host_string_new (host : bytes) : outcome bytes EndpointHttpHostString :=
  let is_unix_socket := Str.starts_with (bs "/") host || Str.starts_with (bs "~/") host in
  if is_unix_socket then Ok {| src := host; port := None; host_index := None |}
  else
    let index := Str.find Byte.x3a host in
    port_str ← match index with Some i => slice_from host (i + 1) | None => Ok host end;
    match Str.parse_uint 65535 port_str with
    | Some port => Ok {| src := host; port := Some port; host_index := index |}
    | None => Err (bs "Can not pars endpoint port for host: " ++ host)
    end.

Definition has_server_name (e : EndpointHttpHostString) : bool :=
  match host_index e with Some _ => true | None => false end.

Definition get_server_name (e : EndpointHttpHostString) : option bytes :=
  i ← host_index e; Some (take i (src e)).

Definition is_my_server_name (e : EndpointHttpHostString) (server_name : bytes) : bool :=
  match get_server_name e with
  | Some my_server_name => Str.eq_ignore_ascii_case my_server_name server_name
  | None => true
  end.

Definition get_port (e : EndpointHttpHostString) : EndpointPort :=
  match port e with Some p => TcpPort p | None => UnixSocketPort (src e) end.

(** [ListenHost]: all addresses of a TCP port, or a unix socket. *)
Inductive ListenHost := ListenTcp (port : Z) | ListenUnix (path : bytes).

Definition get_listen_host (e : EndpointHttpHostString) : ListenHost :=
  match get_port e with TcpPort p => ListenTcp p | UnixSocketPort h => ListenUnix h end.

(** ** Virtual hosts *)

Inductive HttpProxyPassIdentity :=
  | ClientCert (cn ca_id : bytes)
  | GoogleUser (email : bytes).

Definition identity_as_str (i : HttpProxyPassIdentity) : bytes :=
  match i with ClientCert cn _ => cn | GoogleUser email => email end.

Inductive AuthorizationRequired := GoogleAuth (g_auth : bytes) | ClientCertificate.

(** [allowed_users_list.rs], [white_list_ip_list_config.rs] *)
Definition AllowedUsersList : Type := gmap bytes (gset bytes).

Definition is_allowed (l : AllowedUsersList) (id user : bytes) : bool :=
  match l !! id with Some users => bool_decide (user ∈ users) | None => false end.

Definition WhiteListedIpListConfigurations : Type := gmap bytes (list WhiteList.WhitelistedIp).

Definition is_white_listed (l : WhiteListedIpListConfigurations) (id : bytes) (ip : WhiteList.IpAddr) :
    outcome Empty_set bool :=
  match l !! id with Some white_list => WhiteList.is_whitelisted white_list ip | None => Ok false end.

Section Endpoints.
Context `{RemoteEndpointLib}.

Record McpEndpointSettings := { mcp_read_timeout : Z; mcp_write_timeout : Z; mcp_buffer_size : Z }.

(** [HttpEndpointInfo]; the fields that decide about heads are [heads]. *)
Record HttpEndpointInfo := {
  host_endpoint : EndpointHttpHostString;
  debug : bool;
  listen_endpoint_type : ListenHttpEndpointType;
  g_auth : option bytes;
  ssl_certificate_id : option bytes;
  client_certificate_id : option bytes;
  locations : list ProxyPassLocationConfig;
  allowed_user_list_id : option bytes;
  whitelisted_ip_list_id : option bytes;
  track_metrics_by_all_domains : bool;
  mcp_settings : McpEndpointSettings;
  timeouts : Z * Z;
  heads : Rewrite.HttpEndpointInfo
}.

Definition oauth (e : HttpEndpointInfo) : option bytes := Rewrite.oauth (heads e).
Definition keep_alive (e : HttpEndpointInfo) : bool := Rewrite.keep_alive (heads e).

Definition tracked_domain (e : HttpEndpointInfo) (request_host : option bytes) : option bytes :=
  if track_metrics_by_all_domains e then request_host else get_server_name (host_endpoint e).

Definition is_my_endpoint (e : HttpEndpointInfo) (server_name : bytes) : bool :=
  is_my_server_name (host_endpoint e) server_name.

Definition endpoint_str (e : HttpEndpointInfo) : bytes := src (host_endpoint e).

(** [find_location]: slicing the path inside a character panics. *)
Fixpoint find_location_in (locations : list ProxyPassLocationConfig) (request_path : bytes) :
    outcome bytes (option ProxyPassLocationConfig) :=
  match locations with
  | [] => Ok None
  | location :: locations =>
      if decide (length request_path < length (path location))%nat then find_location_in locations request_path
      else
        path_prefix ← Str.str_slice_to request_path (length (path location));
        if Str.eq_ignore_ascii_case path_prefix (path location) then Ok (Some location)
        else find_location_in locations request_path
  end.

Definition find_location (e : HttpEndpointInfo) (request_path : bytes) :
    outcome bytes (option ProxyPassLocationConfig) :=
  find_location_in (locations e) request_path.

Definition connection_satisfies_client_cert (e : HttpEndpointInfo) (connection_cert_ca : option bytes) : bool :=
  match client_certificate_id e with
  | Some required_ca => bool_decide (connection_cert_ca = Some required_ca)
  | None => true
  end.

Definition client_cert_identity_applies (e : HttpEndpointInfo) (connection_cert_ca : bytes) : bool :=
  match client_certificate_id e with
  | Some required_ca => bool_decide (required_ca = connection_cert_ca)
  | None => false
  end.

Definition must_be_authorized (e : HttpEndpointInfo) : option AuthorizationRequired :=
  match g_auth e with
  | Some g_auth => Some (GoogleAuth g_auth)
  | None => match ssl_certificate_id e with Some _ => Some ClientCertificate | None => None end
  end.

Definition user_is_allowed (users : AllowedUsersList) (e : HttpEndpointInfo)
    (identity : option HttpProxyPassIdentity) : bool :=
  match allowed_user_list_id e with
  | None => true
  | Some allowed_user_list_id =>
      match identity with
      | None => false
      | Some who => is_allowed users allowed_user_list_id (identity_as_str who)
      end
  end.

(** ** Listen ports *)

Record HttpListenPortConfiguration := {
  endpoints : list HttpEndpointInfo;
  port_endpoint_type : ListenHttpEndpointType;
  listen_host : ListenHost
}.

Definition port_new (endpoint_info : HttpEndpointInfo) (listen_host : ListenHost) : HttpListenPortConfiguration :=
  {| endpoints := [endpoint_info]; port_endpoint_type := listen_endpoint_type endpoint_info;
     listen_host := listen_host |}.

(** [iter().position(|itm| itm.host_endpoint.as_str() == name)] *)
Definition position (l : list HttpEndpointInfo) (name : bytes) : option nat :=
  fst <$> list_find (fun itm => endpoint_str itm = name) l.

Definition insert_or_replace_configuration (endpoint_info : HttpEndpointInfo) (c : HttpListenPortConfiguration) :
    HttpListenPortConfiguration :=
  {| endpoints :=
       match position (endpoints c) (endpoint_str endpoint_info) with
       | Some index => <[index := endpoint_info]> (endpoints c)
       | None => endpoints c ++ [endpoint_info]
       end;
     port_endpoint_type := port_endpoint_type c; listen_host := listen_host c |}.

Definition delete_configuration (host : EndpointHttpHostString) (c : HttpListenPortConfiguration) :
    option HttpListenPortConfiguration :=
  index ← position (endpoints c) (src host);
  Some {| endpoints := delete index (endpoints c); port_endpoint_type := port_endpoint_type c;
          listen_host := get_listen_host host |}.

Definition get_http_endpoint_info (c : HttpListenPortConfiguration) (server_name : option bytes) :
    outcome bytes (option HttpEndpointInfo) :=
  match server_name with
  | None =>
      if decide (1 < length (endpoints c))%nat then Ok None
      else
        first ← unwrap (head (endpoints c));
        if negb (has_server_name (host_endpoint first)) then Ok (Some first) else Ok None
  | Some server_name => Ok (list_find (fun e => is_my_endpoint e server_name = true) (endpoints c) ≫= fun x => Some (snd x))
  end.

Fixpoint get_ssl_certificate_in (l : list HttpEndpointInfo) (server_name : bytes) :
    option (bytes * HttpEndpointInfo) :=
  match l with
  | [] => None
  | e :: l =>
      if is_my_endpoint e server_name then
        match ssl_certificate_id e with
        | Some ssl_id => Some (ssl_id, e)
        | None => get_ssl_certificate_in l server_name
        end
      else get_ssl_certificate_in l server_name
  end.

Definition get_ssl_certificate (c : HttpListenPortConfiguration) (server_name : bytes) :=
  get_ssl_certificate_in (endpoints c) server_name.

Record TcpEndpointHostConfig := {
  tcp_host_endpoint : EndpointHttpHostString;
  tcp_remote_host : MyReverseProxyRemoteEndpoint;
  tcp_debug : bool;
  tcp_ip_white_list_id : option bytes;
  tcp_timeouts : Z * Z
}.

Inductive ListenConfiguration :=
  | ListenHttp (c : HttpListenPortConfiguration)
  | ListenTcpForward (c : TcpEndpointHostConfig)
  | ListenMcp (c : HttpListenPortConfiguration).

Definition get_white_list_id (c : ListenConfiguration) : option bytes :=
  match c with ListenTcpForward c => tcp_ip_white_list_id c | ListenHttp _ | ListenMcp _ => None end.

Definition listen_endpoint_type_debug (t : ListenHttpEndpointType) : bytes :=
  match t with
  | LHttp1 => bs "Http1" | LHttp2 => bs "Http2" | LHttps1 => bs "Https1" | LHttps2 => bs "Https2" | LMcp => bs "Mcp"
  end.

Definition check_endpoint_type (c : HttpListenPortConfiguration) (e : HttpEndpointInfo) : outcome bytes unit :=
  if can_be_under_the_same_port (port_endpoint_type c) (listen_endpoint_type e) then Ok tt
  else Err (bs "Can not apply endpoint " ++ endpoint_str e ++ bs " which has " ++
            listen_endpoint_type_debug (listen_endpoint_type e) ++ bs " type to the endpoint " ++ endpoint_str e ++
            bs " already configured as " ++ listen_endpoint_type_debug (port_endpoint_type c) ++ bs ".").

Definition merge_http_into_existing (existing : option ListenConfiguration) (e : HttpEndpointInfo) :
    outcome bytes HttpListenPortConfiguration :=
  let listen_host := get_listen_host (host_endpoint e) in
  match existing with
  | None => Ok (port_new e listen_host)
  | Some (ListenHttp config) | Some (ListenMcp config) =>
      _ ← check_endpoint_type config e;
      Ok (insert_or_replace_configuration e config)
  | Some (ListenTcpForward _) =>
      Err (bs "Can not apply endpoint " ++ endpoint_str e ++ bs ". It is already configured as TCP.")
  end.

(** The part of [AppConfigurationInner] that says what is listened on. *)
Record ListenMaps := {
  listen_tcp_endpoints : gmap Z ListenConfiguration;
  listen_unix_socket_endpoints : gmap bytes ListenConfiguration
}.

Definition lookup_port (p : EndpointPort) (m : ListenMaps) : option ListenConfiguration :=
  match p with
  | TcpPort port => listen_tcp_endpoints m !! port
  | UnixSocketPort host => listen_unix_socket_endpoints m !! host
  end.

Definition set_port (p : EndpointPort) (c : option ListenConfiguration) (m : ListenMaps) : ListenMaps :=
  match p with
  | TcpPort port =>
      {| listen_tcp_endpoints := partial_alter (fun _ => c) port (listen_tcp_endpoints m);
         listen_unix_socket_endpoints := listen_unix_socket_endpoints m |}
  | UnixSocketPort host =>
      {| listen_tcp_endpoints := listen_tcp_endpoints m;
         listen_unix_socket_endpoints := partial_alter (fun _ => c) host (listen_unix_socket_endpoints m) |}
  end.

(** [delete_http_endpoint_if_exists], once the host string is resolved. *)
Definition delete_http_endpoint_if_exists (host_endpoint : EndpointHttpHostString) (m : ListenMaps) : ListenMaps :=
  let endpoint_port := get_port host_endpoint in
  match lookup_port endpoint_port m with
  | None => m
  | Some (ListenHttp http_config) | Some (ListenMcp http_config) =>
      match delete_configuration host_endpoint http_config with
      | None => m
      | Some new_configuration =>
          if decide (endpoints new_configuration = []) then set_port endpoint_port None m
          else set_port endpoint_port (Some (ListenHttp new_configuration)) m
      end
  | Some (ListenTcpForward _) => set_port endpoint_port None m
  end.

(** What a host of the settings compiles to ([compile_host_configuration],
    the settings themselves being compiled before), and the two changes of the
    live configuration: [update_host_configuration], which leaves it alone on
    an error, and the deletion. *)
Inductive CompiledHost :=
  | HttpHost (e : HttpEndpointInfo)
  | TcpHost (c : TcpEndpointHostConfig).

Definition host_of (h : CompiledHost) : EndpointHttpHostString :=
  match h with HttpHost e => host_endpoint e | TcpHost c => tcp_host_endpoint c end.

Definition compile_host_configuration (h : CompiledHost) (existing : option ListenConfiguration) :
    outcome bytes ListenConfiguration :=
  match h with
  | HttpHost e =>
      config ← merge_http_into_existing existing e;
      Ok (match listen_endpoint_type e with LMcp => ListenMcp config | _ => ListenHttp config end)
  | TcpHost c => Ok (ListenTcpForward c)
  end.

Definition update_host_configuration (h : CompiledHost) (m : ListenMaps) : outcome bytes ListenMaps :=
  let tcp_port := get_port (host_of h) in
  configuration ← compile_host_configuration h (lookup_port tcp_port m);
  Ok (set_port tcp_port (Some configuration) m).

Inductive HostOp := UpdateHost (h : CompiledHost) | DeleteHost (host : EndpointHttpHostString).

Definition run_host_op (m : ListenMaps) (o : HostOp) : ListenMaps :=
  match o with
  | UpdateHost h => match update_host_configuration h m with Ok m' => m' | _ => m end
  | DeleteHost host => delete_http_endpoint_if_exists host m
  end.

End Endpoints.

(** ** Locations *)

Section LocationProofs.
Context `{RemoteEndpointLib}.

(** The location's path is a prefix of the request's, up to ASCII case. *)
Definition serves (l : ProxyPassLocationConfig) (p : bytes) : bool :=
  Str.eq_ignore_ascii_case (take (length (path l)) p) (path l).

Definition cuts_cleanly (p : bytes) (l : ProxyPassLocationConfig) : Prop :=
  (length (path l) <= length p)%nat -> Utf8.is_char_boundary p (length (path l)) = true.

Lemma serves_length l p : serves l p = true -> (length (path l) <= length p)%nat.
Proof. intros Hs%Str.eq_ignore_length. rewrite length_take in Hs. lia. Qed.

Lemma find_location_in_spec ls p :
  Forall (cuts_cleanly p) ls ->
  find_location_in ls p = Ok (list_find (fun l => serves l p = true) ls ≫= fun x => Some (snd x)).
Proof.
  induction 1 as [|l ls Hl _ IH]; [done|]. cbn [find_location_in list_find].
  case_decide as Hlen.
  - rewrite IH. destruct (decide (serves l p = true)) as [Hs|]; [apply serves_length in Hs; lia|].
    by destruct (list_find _ ls) as [[]|].
  - unfold Str.str_slice_to. rewrite Hl by lia. cbn [mbind outcome_bind]. fold (serves l p).
    destruct (serves l p) eqn:Hs; [by rewrite decide_True|]. rewrite decide_False, IH by done.
    by destruct (list_find _ ls) as [[]|].
Qed.

Lemma ascii_cuts p ls : Forall (fun b => u8 b < 128) p -> Forall (cuts_cleanly p) ls.
Proof.
  intros Hp. apply Forall_forall. intros l _ Hl. unfold Utf8.is_char_boundary.
  destruct (p !! length (path l)) as [b|] eqn:Hb.
  - apply (Forall_lookup_1 _ _ _ _ Hp) in Hb. unfold Utf8.is_cont. lia.
  - apply lookup_ge_None in Hb. apply bool_decide_eq_true. lia.
Qed.

Definition QUESTION : byte := Byte.x3f.

Lemma to_lower_question b : Str.to_lower b = QUESTION -> b = QUESTION.
Proof. destruct b; vm_compute; congruence. Qed.

(** A location without a query serves a request by its path alone. *)
Lemma serves_query l p q :
  QUESTION ∉ path l -> serves l (p ++ QUESTION :: q) = serves l p.
Proof.
  intros Hq. unfold serves. destruct (decide (length (path l) <= length p)%nat) as [Hl|Hl].
  { by rewrite take_app_le. }
  assert (forall x, length x = length (path l) -> Str.eq_ignore_ascii_case x (path l) = true ->
    x !! length p <> Some QUESTION) as Hno.
  { intros x Hx He Hc. unfold Str.eq_ignore_ascii_case in He. apply bool_decide_eq_true in He.
    apply (f_equal (fun x => x !! length p)) in He. unfold Str.lower in He.
    rewrite !list_lookup_fmap, Hc in He. simpl in He.
    destruct (path l !! length p) as [b|] eqn:Hb; [|done]. simpl in He. injection He as He.
    symmetry in He. apply to_lower_question in He as ->. by apply list_elem_of_lookup_2 in Hb. }
  destruct (Str.eq_ignore_ascii_case (take (length (path l)) p) (path l)) eqn:E1.
  { apply Str.eq_ignore_length in E1. rewrite length_take in E1. lia. }
  destruct (Str.eq_ignore_ascii_case (take (length (path l)) (p ++ QUESTION :: q)) (path l)) eqn:E2; [|done].
  exfalso. apply (Hno _ (Str.eq_ignore_length _ _ E2) E2).
  rewrite lookup_take_lt, list_lookup_middle by lia. done.
Qed.

(** Which location serves a request.  [find_location] returns the
    first location in the configured order whose path is a prefix of the
    request's up to ASCII case, or none if there is none.  The OAuth gate looks the path up without its query and the dispatcher with
    it: as long as no configured path has a question mark, both get the same
    location, so the token is checked for the location that serves the
    request. *)
Theorem location_is_first_prefix e p q :
  Forall (fun l => QUESTION ∉ path l) (locations e) ->
  Forall (fun b => u8 b < 128) (p ++ QUESTION :: q) ->
  find_location e (p ++ QUESTION :: q) = find_location e p /\
  match find_location e p with
  | Ok (Some l) => exists before after, locations e = before ++ l :: after /\ serves l p = true /\
                     Forall (fun x => serves x p = false) before
  | Ok None => Forall (fun x => serves x p = false) (locations e)
  | _ => False
  end.
Proof.
  intros Hq Ha. assert (Forall (fun b => u8 b < 128) p) as Hp by (by apply Forall_app in Ha as [? _]).
  unfold find_location. rewrite !find_location_in_spec by (by apply ascii_cuts). split.
  - f_equal. induction Hq as [|l ls Hl _ IH]; [done|]. cbn [list_find]. rewrite serves_query by done.
    case_decide; [done|]. by destruct (list_find (fun l => serves l (p ++ _) = true) ls) as [[]|],
      (list_find (fun l => serves l p = true) ls) as [[]|]; simplify_eq/=.
  - destruct (list_find _ (locations e)) as [[i l]|] eqn:Hf; cbn.
    + apply list_find_Some in Hf as (Hi & Hs & Hb). exists (take i (locations e)), (drop (S i) (locations e)).
      split_and!; [by rewrite take_drop_middle|done|]. apply Forall_lookup. intros j x Hx.
      apply lookup_take_Some in Hx as [Hx Hj]. apply not_true_iff_false. by apply (Hb j).
    + apply list_find_None in Hf. eapply Forall_impl; [exact Hf|]. intros x. apply not_true_iff_false.
Qed.

(** A location's path is compared byte by byte, with no regard to
    segments, and a request whose path is cut inside a character stops the
    task: a configured [/mt] serves [/mtx], and a configured path of [n]
    bytes panics on a request with a character across its [n]th byte. *)
Theorem location_prefix_is_blind e l ls p :
  locations e = l :: ls -> (length (path l) <= length p)%nat ->
  find_location e p =
    (if Utf8.is_char_boundary p (length (path l)) then
       if serves l p then Ok (Some l) else find_location_in ls p
     else Panic) /\
  (forall suffix, Forall (fun b => u8 b < 128) (path l ++ suffix) ->
     find_location e (path l ++ suffix) = Ok (Some l)).
Proof.
  intros He Hl. unfold find_location. rewrite He. split.
  - cbn [find_location_in]. rewrite decide_False by lia. unfold Str.str_slice_to.
    by destruct (Utf8.is_char_boundary _ _).
  - intros suffix Ha. rewrite find_location_in_spec by (by apply ascii_cuts). cbn [list_find].
    rewrite decide_True; [done|]. unfold serves. rewrite take_app_length. apply Str.eq_ignore_ascii_case_refl.
Qed.

End LocationProofs.

(** ** Pool keys *)

Section KeyProofs.
Context `{RemoteEndpointLib}.

Lemma app_bar_inj (a b x y : bytes) :
  BAR ∉ a -> BAR ∉ b -> a ++ BAR :: x = b ++ BAR :: y -> a = b /\ x = y.
Proof.
  revert b. induction a as [|c a IH]; intros [|d b]; rewrite ?not_elem_of_cons; intros Ha Hb He; simplify_list_eq;
    naive_solver.
Qed.

Definition protocol_of (p : ProxyPassToConfig) : option (bytes * bool * ProxyPassToModel) :=
  match p with
  | Http1 m => Some (bs "h1", false, m)
  | McpHttp1 m => Some (bs "mcp-h1", true, m)
  | McpHttp2 m => Some (bs "mcp-h2", true, m)
  | Http2 m => Some (bs "h2", false, m)
  | UnixHttp1 m => Some (bs "uds-h1", false, m)
  | UnixHttp2 m => Some (bs "uds-h2", false, m)
  | _ => None
  end.

Lemma protocol_plain p proto mcp m : protocol_of p = Some (proto, mcp, m) -> BAR ∉ proto.
Proof.
  destruct p; intros [= <- <- <-]; intros Hin; apply list_elem_of_In in Hin; vm_compute in Hin; naive_solver.
Qed.

Lemma scheme_plain s : BAR ∉ scheme_debug s.
Proof.
  intros Hin. pose proof (scheme_debug_plain s) as Hf. rewrite Forall_forall in Hf. by apply (Hf _ Hin).
Qed.

(** Connections are pooled per upstream.  Two directly connected
    upstreams share pooled connections only if protocol, scheme and host and
    port agree, and, for MCP servers, the path as well, which is what tells
    several servers on one port apart; upstreams of different protocols never
    share one. *)
Theorem connection_key_separates p1 p2 proto1 proto2 mcp1 mcp2 m1 m2 h1 h2 :
  protocol_of p1 = Some (proto1, mcp1, m1) -> protocol_of p2 = Some (proto2, mcp2, m2) ->
  remote_host m1 = Direct h1 -> remote_host m2 = Direct h2 ->
  BAR ∉ get_host_port h1 -> BAR ∉ get_host_port h2 ->
  connection_key p1 = connection_key p2 <->
  proto1 = proto2 /\ get_scheme h1 = get_scheme h2 /\ get_host_port h1 = get_host_port h2 /\
  (mcp1 = true -> get_path_and_query (Direct h1) = get_path_and_query (Direct h2)).
Proof.
  intros Hp1 Hp2 Hr1 Hr2 Hb1 Hb2.
  assert (forall p proto (mcp : bool) m h, protocol_of p = Some (proto, mcp, m) -> remote_host m = Direct h ->
    connection_key p = proto ++ BAR :: scheme_debug (get_scheme h) ++ BAR :: get_host_port h ++
      (if mcp then BAR :: get_path_and_query (Direct h) else [])) as Hkey.
  { intros p proto mcp m h Hp Hr.
    destruct p; try discriminate Hp; injection Hp as <- <- <-; unfold connection_key, mcp_key, remote_host_key; rewrite Hr;
      rewrite ?app_nil_r; rewrite <-?app_assoc; done. }
  rewrite (Hkey _ _ _ _ _ Hp1 Hr1), (Hkey _ _ _ _ _ Hp2 Hr2).
  assert (mcp1 = mcp2 \/ proto1 <> proto2) as Hmcp.
  { destruct p1; try discriminate Hp1; destruct p2; try discriminate Hp2;
      injection Hp1 as <- <- _; injection Hp2 as <- <- _; (by left) || (right; vm_compute; congruence). }
  split.
  - intros [-> He]%app_bar_inj; [|by eapply protocol_plain..].
    apply app_bar_inj in He as [Hs He]; [|by apply scheme_plain..].
    apply scheme_debug_inj in Hs. destruct Hmcp as [->|]; [|done]. destruct mcp2.
    + apply app_bar_inj in He as [-> ->]; done.
    + rewrite !app_nil_r in He. done.
  - intros (-> & -> & -> & Hpath). destruct Hmcp as [->|]; [|done]. destruct mcp2; [|done].
    by rewrite (Hpath eq_refl).
Qed.

End KeyProofs.

(** ** The listen maps *)

Section PortProofs.
Context `{RemoteEndpointLib}.

(** A port's virtual hosts: at least one, no two of one name, all of a type
    the port takes, all belonging to it. *)
Record port_ok (p : EndpointPort) (c : HttpListenPortConfiguration) : Prop := {
  po_some : endpoints c <> [];
  po_nodup : NoDup (map endpoint_str (endpoints c));
  po_types : Forall (fun e => can_be_under_the_same_port (port_endpoint_type c) (listen_endpoint_type e) = true) (endpoints c);
  po_port : Forall (fun e => get_port (host_endpoint e) = p) (endpoints c)
}.

Definition listen_ok (p : EndpointPort) (c : ListenConfiguration) : Prop :=
  match c with ListenHttp c | ListenMcp c => port_ok p c | ListenTcpForward _ => True end.

Definition maps_ok (m : ListenMaps) : Prop := forall p c, lookup_port p m = Some c -> listen_ok p c.

Lemma same_port_refl t : can_be_under_the_same_port t t = true.
Proof. by destruct t. Qed.

Lemma position_Some l name i :
  position l name = Some i -> exists e, l !! i = Some e /\ endpoint_str e = name.
Proof.
  unfold position. destruct (list_find _ l) as [[j e]|] eqn:Hf; [|done]. intros [= <-].
  apply list_find_Some in Hf as (? & ? & _). by exists e.
Qed.

Lemma position_None l name : position l name = None -> name ∉ map endpoint_str l.
Proof.
  unfold position. destruct (list_find _ l) as [[j e]|] eqn:Hf; [done|]. intros _.
  apply list_find_None in Hf. intros (e & -> & He)%list_elem_of_fmap. rewrite Forall_forall in Hf. by apply (Hf e).
Qed.

Lemma insert_ok p e c :
  port_ok p c -> get_port (host_endpoint e) = p ->
  can_be_under_the_same_port (port_endpoint_type c) (listen_endpoint_type e) = true ->
  port_ok p (insert_or_replace_configuration e c).
Proof.
  intros [Hs Hn Ht Hp] He Hc. unfold insert_or_replace_configuration.
  destruct (position (endpoints c) (endpoint_str e)) as [i|] eqn:Hi.
  - apply position_Some in Hi as (e0 & Hl & Hname). split; cbn.
    + intros Hnil. apply (f_equal length) in Hnil. rewrite length_insert in Hnil. by destruct (endpoints c).
    + replace (map endpoint_str (<[i:=e]> (endpoints c))) with (map endpoint_str (endpoints c)); [done|].
      change (map endpoint_str) with (fmap (M:=list) endpoint_str). rewrite list_fmap_insert, <-Hname.
      symmetry. apply list_insert_id. rewrite list_lookup_fmap, Hl. done.
    + by apply Forall_insert.
    + by apply Forall_insert.
  - apply position_None in Hi. split; cbn.
    + by destruct (endpoints c).
    + rewrite map_app. apply NoDup_app. split_and!; [done|cbn; set_solver|apply NoDup_singleton].
    + by apply Forall_app_2; [|apply Forall_singleton].
    + by apply Forall_app_2; [|apply Forall_singleton].
Qed.

Lemma merge_ok p existing e c :
  (forall c, existing = Some c -> listen_ok p c) -> get_port (host_endpoint e) = p ->
  merge_http_into_existing existing e = Ok c -> port_ok p c.
Proof.
  intros Hex Hp. unfold merge_http_into_existing.
  assert (forall c0, port_ok p c0 -> (_ ← check_endpoint_type c0 e; Ok (insert_or_replace_configuration e c0)) = Ok c ->
    port_ok p c) as Hins.
  { intros c0 Hc0. unfold check_endpoint_type.
    destruct (can_be_under_the_same_port _ _) eqn:Ht; [|done]. intros [= <-]. by apply insert_ok. }
  destruct existing as [[c0|id|c0]|].
  - apply Hins. by apply (Hex (ListenHttp c0)).
  - done.
  - apply Hins. by apply (Hex (ListenMcp c0)).
  - intros [= <-]. split; cbn; [done|apply NoDup_singleton|apply Forall_singleton, same_port_refl|by apply Forall_singleton].
Qed.

Lemma lookup_set_port p c m : lookup_port p (set_port p c m) = c.
Proof. destruct p; cbn; apply lookup_partial_alter_eq. Qed.

Lemma lookup_set_port_ne p q c m : p <> q -> lookup_port q (set_port p c m) = lookup_port q m.
Proof. destruct p, q; cbn; intros; try done; apply lookup_partial_alter_ne; congruence. Qed.

#[local] Instance endpoint_port_eq_dec : EqDecision EndpointPort.
Proof. solve_decision. Defined.

Lemma set_port_ok p c m :
  maps_ok m -> (forall c', c = Some c' -> listen_ok p c') -> maps_ok (set_port p c m).
Proof.
  intros Hm Hc q c'. destruct (decide (p = q)) as [<-|Hne].
  - rewrite lookup_set_port. apply Hc.
  - rewrite lookup_set_port_ne by done. apply Hm.
Qed.

Lemma delete_ok p host c c' :
  port_ok p c -> delete_configuration host c = Some c' -> endpoints c' <> [] -> port_ok p c'.
Proof.
  intros [Hs Hn Ht Hp]. unfold delete_configuration. destruct (position _ _) as [i|]; [|done].
  intros [= <-] Hne. cbn in Hne. split; cbn; [done| |by apply Forall_delete..].
  change (map endpoint_str) with (fmap (M:=list) endpoint_str). rewrite list_fmap_delete.
  eapply sublist_NoDup; [exact Hn|apply sublist_delete].
Qed.

Lemma host_op_ok m o : maps_ok m -> maps_ok (run_host_op m o).
Proof.
  intros Hm. destruct o as [h|host]; cbn.
  - unfold update_host_configuration. destruct (compile_host_configuration _ _) as [c| |] eqn:Hc; cbn; [|done..].
    apply set_port_ok; [done|]. intros c' [= <-]. destruct h as [e|host id]; cbn in *; [|by injection Hc as <-].
    destruct (merge_http_into_existing _ e) as [config| |] eqn:Hmer; cbn in Hc; [|done..].
    apply (merge_ok (get_port (host_endpoint e))) in Hmer; [|by apply Hm|done].
    injection Hc as <-. by destruct (listen_endpoint_type e).
  - unfold delete_http_endpoint_if_exists. destruct (lookup_port _ m) as [[c|id|c]|] eqn:Hl; [| | |done].
    + destruct (delete_configuration host c) as [c'|] eqn:Hd; [|done]. case_decide; apply set_port_ok; try done.
      intros ? [= <-]. cbn. eapply delete_ok; [by apply (Hm _ _ Hl)|done|done].
    + by apply set_port_ok.
    + destruct (delete_configuration host c) as [c'|] eqn:Hd; [|done]. case_decide; apply set_port_ok; try done.
      intros ? [= <-]. cbn. eapply delete_ok; [by apply (Hm _ _ Hl)|done|done].
Qed.

Definition no_listeners : ListenMaps := {| listen_tcp_endpoints := ∅; listen_unix_socket_endpoints := ∅ |}.

Lemma reachable_maps_ok ops : maps_ok (fold_left run_host_op ops no_listeners).
Proof.
  assert (maps_ok no_listeners) as H0 by (intros [p|p] c; cbn; by rewrite lookup_empty).
  revert H0. generalize no_listeners. induction ops as [|o ops IH]; intros m Hm; [done|]. cbn.
  apply IH. by apply host_op_ok.
Qed.

(** What resolving a request's host on a port finds: by name, the first host
    that has it; without a name, the port's only host, if that has none. *)
Definition resolved (c : HttpListenPortConfiguration) (server_name : option bytes)
    (found : option HttpEndpointInfo) : Prop :=
  match server_name, found with
  | Some n, Some e => exists before after, endpoints c = before ++ e :: after /\
      Forall (fun e => is_my_endpoint e n = false) before /\ is_my_endpoint e n = true
  | Some n, None => Forall (fun e => is_my_endpoint e n = false) (endpoints c)
  | None, Some e => endpoints c = [e] /\ has_server_name (host_endpoint e) = false
  | None, None => forall e, endpoints c = [e] -> has_server_name (host_endpoint e) = true
  end.

(** C34: whatever hosts are applied, replaced and deleted, and in whatever
    order, every HTTP port has at least one virtual host, no two of the same
    name, only hosts configured for that port and of a type it takes.  So
    resolving a request's host never stops the task.  By a server name it
    finds the first host that has the name, and none exactly if no host has
    it; without one it finds the host of a port that has a single host, if
    that host has no name of its own, and none in every other case. *)
Theorem listen_maps_consistent ops p c server_name :
  lookup_port p (fold_left run_host_op ops no_listeners) = Some (ListenHttp c) \/
  lookup_port p (fold_left run_host_op ops no_listeners) = Some (ListenMcp c) ->
  port_ok p c /\
  exists found, get_http_endpoint_info c server_name = Ok found /\ resolved c server_name found.
Proof.
  intros Hl. assert (port_ok p c) as Hok by (destruct Hl as [Hl|Hl]; exact (reachable_maps_ok ops p _ Hl)).
  split; [done|]. destruct server_name as [n|]; unfold get_http_endpoint_info.
  - eexists. split; [done|]. destruct (list_find _ (endpoints c)) as [[i e]|] eqn:Hf; cbn.
    + apply list_find_Some in Hf as (Hi & Hm & Hno). exists (take i (endpoints c)), (drop (S i) (endpoints c)).
      split_and!; [by rewrite take_drop_middle| |done]. apply Forall_lookup. intros k x Hx.
      apply lookup_take_Some in Hx as [Hx Hk]. apply not_true_iff_false. by eapply Hno.
    + apply list_find_None in Hf. eapply Forall_impl; [exact Hf|]. intros x. apply not_true_iff_false.
  - case_decide as Hlen.
    + exists None. split; [done|]. intros e He. rewrite He in Hlen. cbn in Hlen. lia.
    + destruct (endpoints c) as [|e [|e' l]] eqn:He; [by destruct Hok|cbn|cbn in Hlen; lia].
      destruct (has_server_name (host_endpoint e)) eqn:Hn; cbn; eexists; (split; [done|]); cbn; rewrite He; [|done].
      by intros e' [= <-].
Qed.

(** Whether two hosts may share a port depends on which is configured
    first: MCP hosts and HTTPS/2 hosts go together when the MCP host comes
    first, and the second one is refused when it comes second; for every
    other pair the order is irrelevant. *)
Theorem same_port_depends_on_order a b :
  can_be_under_the_same_port a b <> can_be_under_the_same_port b a <->
  (a = LHttps2 /\ b = LMcp) \/ (a = LMcp /\ b = LHttps2).
Proof. destruct a, b; cbn; naive_solver. Qed.

End PortProofs.

(** ** Gateway sources *)

Section GatewayProofs.
Context `{RemoteEndpointLib}.

Lemma find_arrow_app l r : find_str (bs "->") l = None -> find_str (bs "->") (l ++ bs "->" ++ r) = Some (length l).
Proof.
  assert (bs "->" = [Byte.x2d; Byte.x3e]) as -> by (vm_compute; reflexivity).
  induction l as [|b l IH]; intros Hn; [done|]. cbn [app find_str] in *.
  assert (Str.starts_with [Byte.x2d; Byte.x3e] (b :: l ++ Byte.x2d :: Byte.x3e :: r) = false) as ->.
  { destruct (Str.starts_with _ (b :: l ++ _)) eqn:Hs; [|done].
    apply Str.starts_with_spec in Hs as [k Hk]. injection Hk as -> Hk. destruct l as [|b' l]; [done|].
    injection Hk as -> Hk. done. }
  destruct (Str.starts_with _ (b :: l)); [done|]. rewrite IH; [done|]. by destruct (find_str _ l).
Qed.

(** The text of a gateway upstream reads back as the same upstream,
    whatever its id, as long as neither the id nor the address has an arrow
    in it. *)
Theorem gateway_source_roundtrip id h :
  find_str (bs "->") (GATEWAY_PREFIX ++ id) = None -> find_str (bs "->") (endpoint_as_str h) = None ->
  endpoint_try_parse (endpoint_as_str h) = Ok h ->
  try_parse_gateway_source (remote_to_string (Gateway id h)) = Ok (Gateway id h).
Proof.
  intros Hid Ha Hp. unfold try_parse_gateway_source, remote_to_string, split_str.
  set (src := GATEWAY_PREFIX ++ id ++ bs "->" ++ endpoint_as_str h).
  assert (src = (GATEWAY_PREFIX ++ id) ++ bs "->" ++ endpoint_as_str h) as Hsrc by (unfold src; by rewrite <-app_assoc).
  assert (find_str (bs "->") src = Some (length (GATEWAY_PREFIX ++ id))) as Hf by (rewrite Hsrc; by apply find_arrow_app).
  assert (exists n, length src = S n) as [n Hn].
  { unfold src. rewrite length_app. change (length GATEWAY_PREFIX) with 8%nat. by eexists. }
  rewrite Hn. cbn [split_str_loop]. rewrite Hf.
  assert (drop (length (GATEWAY_PREFIX ++ id) + length (bs "->")) src = endpoint_as_str h) as ->
    by (rewrite Hsrc, <-drop_drop, drop_app_length; apply drop_app_length).
  assert (take (length (GATEWAY_PREFIX ++ id)) src = GATEWAY_PREFIX ++ id) as ->
    by (rewrite Hsrc; apply take_app_length).
  rewrite Ha. cbn [lookup list_lookup unwrap mbind outcome_bind].
  assert (get_gateway_id (GATEWAY_PREFIX ++ id) = Ok id) as ->; [|cbn; by rewrite Hp].
  unfold get_gateway_id.
  assert (GATEWAY_PREFIX = bs "gateway" ++ [Byte.x3a]) as -> by (vm_compute; reflexivity).
  rewrite <-app_assoc. cbn [app].
  rewrite Str.find_app_l by (intros Hin%list_elem_of_In; vm_compute in Hin; naive_solver).
  rewrite slice_from_ok by (rewrite length_app; cbn [length]; lia).
  done.
Qed.

End GatewayProofs.

(** ** Witnesses: endpoints that are their own text *)

Program Definition text_endpoints : RemoteEndpointLib := {|
  RemoteEndpointOwned := bytes; SshCredentials := unit;
  endpoint_try_parse x := Ok x; endpoint_as_str x := x; get_scheme _ := Some Http;
  get_host x := x; get_remote_port _ := None; get_host_port x := x; get_http_path_and_query _ := None;
  scheme_debug o := match o with
    | None => bs "None" | Some Http => bs "Some(Http)" | Some Https => bs "Some(Https)"
    | Some Ws => bs "Some(Ws)" | Some Wss => bs "Some(Wss)" | Some UnixSocket => bs "Some(UnixSocket)" end;
  debug_opt_string o := default [] o; ssh_to_string _ := []
|}.
Next Obligation. intros [[]|] [[]|]; vm_compute; congruence. Qed.
Next Obligation. intros [[]|]; vm_compute; repeat constructor; discriminate. Qed.
#[local] Existing Instance text_endpoints.

Definition demo_model (h : bytes) : ProxyPassToModel :=
  {| remote_host := Direct h; request_timeout := 1; connect_timeout := 1;
     pool_tuning := {| pool_size := 1; ping_timeout := 1; hot_window := 1 |} |}.

Definition demo_location (p h : bytes) : ProxyPassLocationConfig :=
  location_new p None None (Http1 (demo_model h)) None false None (bs "a.b:443") (fun _ => None) 1.

Definition demo_host : EndpointHttpHostString :=
  {| src := bs "a.b:443"; port := Some 443; host_index := Some 3%nat |}.

Definition demo_vhost (t : ListenHttpEndpointType) : HttpEndpointInfo :=
  {| host_endpoint := demo_host; debug := false; listen_endpoint_type := t; g_auth := None; ssl_certificate_id := None;
     client_certificate_id := None; locations := [demo_location (bs "/mt") (bs "h:80"); demo_location (bs "/") (bs "h:81")];
     allowed_user_list_id := None; whitelisted_ip_list_id := None; track_metrics_by_all_domains := false;
     mcp_settings := {| mcp_read_timeout := 180; mcp_write_timeout := 30; mcp_buffer_size := 512 |};
     timeouts := (180, 30); heads := Rewrite.demo_endpoint |}.

Lemma location_is_first_prefix_witness :
  find_location (demo_vhost LHttps1) (bs "/mtx" ++ QUESTION :: bs "q=1") = find_location (demo_vhost LHttps1) (bs "/mtx").
Proof.
  apply (location_is_first_prefix (demo_vhost LHttps1) (bs "/mtx") (bs "q=1")).
  - repeat constructor; intros Hin%list_elem_of_In; vm_compute in Hin; naive_solver.
  - vm_compute. repeat constructor; discriminate.
Defined.

Lemma location_prefix_is_blind_witness :
  find_location (demo_vhost LHttps1) (bs "/mtx") = Ok (Some (demo_location (bs "/mt") (bs "h:80"))).
Proof.
  apply (proj2 (location_prefix_is_blind (demo_vhost LHttps1) (demo_location (bs "/mt") (bs "h:80"))
    [demo_location (bs "/") (bs "h:81")] (bs "/mtx") eq_refl ltac:(vm_compute; lia)) (bs "x")).
  vm_compute. repeat constructor; discriminate.
Defined.

Lemma connection_key_separates_witness :
  connection_key (McpHttp1 (demo_model (bs "h:1"))) <> connection_key (Http1 (demo_model (bs "h:1"))).
Proof.
  intros He.
  assert (BAR ∉ bs "h:1") as Hb by (intros Hin%list_elem_of_In; vm_compute in Hin; naive_solver).
  apply (connection_key_separates (McpHttp1 (demo_model (bs "h:1"))) (Http1 (demo_model (bs "h:1")))
    (bs "mcp-h1") (bs "h1") true false (demo_model (bs "h:1")) (demo_model (bs "h:1")) (bs "h:1") (bs "h:1")
    eq_refl eq_refl eq_refl eq_refl Hb Hb) in He as [Hp _].
  vm_compute in Hp. congruence.
Defined.

Lemma listen_maps_consistent_witness :
  port_ok (TcpPort 443) (port_new (demo_vhost LHttps1) (ListenTcp 443)).
Proof.
  apply (listen_maps_consistent [UpdateHost (HttpHost (demo_vhost LHttps1))] (TcpPort 443) _ None).
  left. reflexivity.
Defined.

Definition demo_gateway : MyReverseProxyRemoteEndpoint :=
  @Gateway text_endpoints (bs "g1") (bs "http://h:80").

Lemma gateway_source_roundtrip_witness :
  try_parse_gateway_source (remote_to_string demo_gateway) = Ok demo_gateway.
Proof.
  apply (@gateway_source_roundtrip text_endpoints (bs "g1") (bs "http://h:80")); vm_compute; reflexivity.
Defined.

End Config.
