(* ===== verification/H1Upstream.v ===== *)
(** * Upstream connections of the HTTP/1.1 pipeline: [h1_remote_connection/]

    One checked-out connection ([upstream.rs], [inner.rs]) and the holder that
    keeps idle ones for reuse ([h1_pool_holder.rs]); the class [UpstreamPool]
    is what the worker relies on, and the holder is its instance. *)

From Stdlib Require Import ZArith Lia Strings.Byte.
From stdpp Require Import base tactics list strings gmap.
From S2P Require Import Prelude RustStd LoopBuffer BodyRelay ProxyPassConfig.

Local Open Scope Z_scope.

Module Upstream.
Import Config.

(** An upstream connection checked out by value: its write half with what was
    written to it for the current request, its read half and the shared flag
    that the peer is gone. *)
Record OwnedUpstream := {
  connection_id : Z;
  write_half : BodyRelay.Sink;
  response_read : ReadPart.source;
  disconnected : bool
}.

Definition set_write_half (s : BodyRelay.Sink) (c : OwnedUpstream) : OwnedUpstream :=
  {| connection_id := connection_id c; write_half := s; response_read := response_read c;
     disconnected := disconnected c |}.

Definition set_response_read (s : ReadPart.source) (c : OwnedUpstream) : OwnedUpstream :=
  {| connection_id := connection_id c; write_half := write_half c; response_read := s;
     disconnected := disconnected c |}.

Definition set_disconnected (c : OwnedUpstream) : OwnedUpstream :=
  {| connection_id := connection_id c; write_half := write_half c; response_read := response_read c;
     disconnected := true |}.

(** [write_http_payload] and [send_head_bytes] of [upstream.rs]. *)
Definition upstream_write (b : bytes) (c : OwnedUpstream) : OwnedUpstream * outcome NetworkError unit :=
  let '(s, r) := BodyRelay.write_http_payload b (write_half c) in (set_write_half s c, r).

Definition send_head_bytes (head : bytes) (c : OwnedUpstream) : OwnedUpstream * bool :=
  if disconnected c then (c, false)
  else let '(c, r) := upstream_write head c in (c, is_ok r).

(** What was written to a connection for the current request. *)
Definition received (c : OwnedUpstream) : bytes := concat (BodyRelay.writes (write_half c)).

Section Dial.
Context `{RemoteEndpointLib}.

Inductive Transport := Http1Direct | Http1UnixSocket | Https1Direct | Http1OverSsh | Http1OverGateway.

(** Which transport [connect_owned] dials, where it does not refuse or
    panic. *)
Definition transport_of (p : ProxyPassToConfig) : outcome NetworkError Transport :=
  match p with
  | Http1 m | McpHttp1 m =>
      match remote_host m with
      | Gateway _ _ => Ok Http1OverGateway
      | OverSsh _ _ => Ok Http1OverSsh
      | Direct h =>
          match get_scheme h with
          | Some Https => Ok Https1Direct
          | _ => Ok Http1Direct
          end
      end
  | UnixHttp1 m => match remote_host m with Direct _ => Ok Http1UnixSocket | _ => Panic end
  | Http2 _ | McpHttp2 _ | UnixHttp2 _ =>
      Err (OtherStr (bs "an http2 upstream requires an http2/https2 endpoint — this endpoint is http/1"))
  | FilesPath _ | Static _ | Drop | DynamicProxy _ => Panic
  end.

(** The network: how the connection attempts to come end, a connection being
    the results of the writes to it and what can be read from it; an attempt
    beyond them never completes and times out. *)
Definition Dials : Type := list (outcome NetworkError (list (option NetworkError) * ReadPart.source)).

Definition connect_timeout_of (p : ProxyPassToConfig) : Z :=
  match p with
  | Http1 m | Http2 m | McpHttp1 m | McpHttp2 m | UnixHttp1 m | UnixHttp2 m => connect_timeout m
  | _ => 0
  end.

Definition dial (timeout : Z) (d : Dials) :
    Dials * outcome NetworkError (list (option NetworkError) * ReadPart.source) :=
  match d with
  | [] => ([], Err (Timeout timeout))
  | r :: d => (d, r)
  end.

(** [connect_owned]; [id] is the number drawn from [CONN_ID]. *)
Definition connect_owned (id : Z) (p : ProxyPassToConfig) (d : Dials) : Dials * outcome NetworkError OwnedUpstream :=
  match transport_of p with
  | Ok _ =>
      let '(d, r) := dial (connect_timeout_of p) d in
      (d, '(verdicts, read_part) ← r;
          Ok {| connection_id := id; write_half := {| BodyRelay.writes := []; BodyRelay.verdicts := verdicts |};
                response_read := read_part; disconnected := false |})
  | Err e => (d, Err e)
  | Panic => (d, Panic)
  end.

(** ** [H1PoolHolder] *)

Record H1PoolHolder := { pools : gmap bytes (list OwnedUpstream); max_idle_per_key : Z }.

Definition new_local : H1PoolHolder := {| pools := ∅; max_idle_per_key := 1 |}.

Definition new_global (max_idle_per_key : Z) : H1PoolHolder :=
  {| pools := ∅; max_idle_per_key := Z.max max_idle_per_key 1 |}.

Definition set_idle (key : bytes) (idle : list OwnedUpstream) (h : H1PoolHolder) : H1PoolHolder :=
  {| pools := <[key := idle]> (pools h); max_idle_per_key := max_idle_per_key h |}.

(** The loop that pops idle connections until one is alive, over the list
    from its end. *)
Fixpoint pop_live (from_end : list OwnedUpstream) : list OwnedUpstream * option OwnedUpstream :=
  match from_end with
  | [] => ([], None)
  | c :: rest => if disconnected c then pop_live rest else (rest, Some c)
  end.

Definition take_idle (key : bytes) (h : H1PoolHolder) : H1PoolHolder * option OwnedUpstream :=
  match pools h !! key with
  | None => (h, None)
  | Some idle => let '(rest, c) := pop_live (rev idle) in (set_idle key (rev rest) h, c)
  end.

(** The holder, the network and the next connection number, a [u64] counter
    that is taken not to wrap around. *)
Record Net := { holder : H1PoolHolder; dials : Dials; next_id : Z }.

Definition acquire (p : ProxyPassToConfig) (n : Net) : Net * outcome NetworkError (OwnedUpstream * bool) :=
  let '(h, idle) := take_idle (connection_key p) (holder n) in
  match idle with
  | Some c => ({| holder := h; dials := dials n; next_id := next_id n |}, Ok (c, true))
  | None =>
      let '(d, r) := connect_owned (next_id n) p (dials n) in
      ({| holder := h; dials := d; next_id := next_id n + 1 |}, c ← r; Ok (c, false))
  end.

(** A connection that is parked has nothing left to say about the request
    it served. *)
Definition forget (c : OwnedUpstream) : OwnedUpstream :=
  set_write_half {| BodyRelay.writes := []; BodyRelay.verdicts := BodyRelay.verdicts (write_half c) |} c.

Definition release (p : ProxyPassToConfig) (c : OwnedUpstream) (n : Net) : Net :=
  let h := holder n in
  if disconnected c then n
  else
    let key := connection_key p in
    let idle := default [] (pools h !! key) in
    {| holder := set_idle key
         (if Z.of_nat (length idle) <? max_idle_per_key h then idle ++ [forget c] else idle) h;
       dials := dials n; next_id := next_id n |}.

End Dial.

(** ** The holder under concurrent requests

    Every operation on the holder is atomic (it runs under the mutex, and
    dialling does not touch the holder), so the requests of a connection, or of
    all connections for a global holder, are a sequence of operations.
    [held] are the connections that are checked out, with the key they were
    acquired for, and [born] remembers the key each was dialled for. *)

Section Holder.
Context `{RemoteEndpointLib}.

Record Sys := { net : Net; held : list (Z * bytes); born : gmap Z bytes }.

Inductive sys_step : Sys -> Sys -> Prop :=
| step_reuse s p n c :
    acquire p (net s) = (n, Ok (c, true)) ->
    sys_step s {| net := n; held := (connection_id c, connection_key p) :: held s; born := born s |}
| step_fresh s p n c :
    acquire p (net s) = (n, Ok (c, false)) ->
    sys_step s {| net := n; held := (connection_id c, connection_key p) :: held s;
                  born := <[connection_id c := connection_key p]> (born s) |}
| step_refused s p n r :
    acquire p (net s) = (n, r) -> is_ok r = false ->
    sys_step s {| net := n; held := held s; born := born s |}
| step_release s p c rest :
    held s ≡ₚ (connection_id c, connection_key p) :: rest ->
    sys_step s {| net := release p c (net s); held := rest; born := born s |}
| step_drop s x rest :
    held s ≡ₚ x :: rest -> sys_step s {| net := net s; held := rest; born := born s |}.

Definition idle (h : H1PoolHolder) (key : bytes) : list OwnedUpstream := default [] (pools h !! key).

Definition idle_ids (n : Net) (key : bytes) : list Z := map connection_id (idle (holder n) key).

Record sys_ok (s : Sys) : Prop := {
  so_max : 1 <= max_idle_per_key (holder (net s));
  so_bound : forall k, Z.of_nat (length (idle (holder (net s)) k)) <= max_idle_per_key (holder (net s));
  so_nodup : forall k, NoDup (idle_ids (net s) k);
  so_idle : forall k, Forall (fun i => born s !! i = Some k) (idle_ids (net s) k);
  so_held : Forall (fun x => born s !! fst x = Some (snd x) /\ fst x ∉ idle_ids (net s) (snd x)) (held s);
  so_held_nodup : NoDup (map fst (held s));
  so_born : forall i k, born s !! i = Some k -> i < next_id (net s)
}.

Lemma pop_live_spec l rest o :
  pop_live l = (rest, o) ->
  exists dead, Forall (fun c => disconnected c = true) dead /\
    match o with
    | Some c => l = dead ++ c :: rest /\ disconnected c = false
    | None => l = dead /\ rest = []
    end.
Proof.
  revert rest o. induction l as [|c l IH]; intros rest o; cbn.
  - intros [= <- <-]. by exists [].
  - destruct (disconnected c) eqn:Hc.
    + intros Hp. destruct (IH _ _ Hp) as (dead & Hd & Ho). exists (c :: dead). split; [by constructor|].
      destruct o as [c'|]; destruct Ho as [-> ?]; by subst.
    + intros [= <- <-]. exists []. by split_and!.
Qed.

(** What [take_idle] does to the list of a key: it keeps a part of it, from
    the front, and hands out a live connection behind that part. *)
Lemma take_idle_spec key h h' o :
  take_idle key h = (h', o) ->
  max_idle_per_key h' = max_idle_per_key h /\
  (forall k, k <> key -> idle h' k = idle h k) /\
  match o with
  | Some c => disconnected c = false /\ exists dead, idle h key = idle h' key ++ c :: dead
  | None => idle h' key = []
  end.
Proof.
  unfold take_idle, idle. destruct (pools h !! key) as [idle0|] eqn:Hk.
  - destruct (pop_live (rev idle0)) as [rest c] eqn:Hp. intros [= <- <-].
    apply pop_live_spec in Hp as (dead & _ & Ho). split; [done|]. split.
    { intros k Hne. cbn. by rewrite lookup_insert_ne. }
    cbn. rewrite lookup_insert_eq. destruct c as [c|]; cbn in *.
    + destruct Ho as [Hr Hc]. split; [done|]. exists (rev dead).
      rewrite <-(rev_involutive idle0), Hr, rev_app_distr. cbn. by rewrite <-app_assoc.
    + by destruct Ho as [_ ->].
  - intros [= <- <-]. split; [done|]. split; [done|]. by rewrite Hk.
Qed.

Lemma acquire_spec p n n' r :
  acquire p n = (n', r) ->
  exists o, take_idle (connection_key p) (holder n) = (holder n', o) /\
    match r with
    | Ok (c, true) => o = Some c /\ next_id n' = next_id n
    | Ok (c, false) => o = None /\ connection_id c = next_id n /\ next_id n' = next_id n + 1 /\
                       disconnected c = false /\ BodyRelay.writes (write_half c) = []
    | _ => o = None /\ next_id n' = next_id n + 1
    end.
Proof.
  unfold acquire. destruct (take_idle (connection_key p) (holder n)) as [h [c|]] eqn:Ht.
  - intros [= <- <-]. by exists (Some c).
  - unfold connect_owned. destruct (transport_of p) as [t|e|].
    + destruct (dial _ (dials n)) as [d [[vs src]|e|]]; cbn; intros [= <- <-]; exists None; by split_and!.
    + intros [= <- <-]. by exists None.
    + intros [= <- <-]. by exists None.
Qed.

(** Acquiring only shortens the lists of idle connections. *)
Lemma acquire_prefix p n n' r k :
  acquire p n = (n', r) -> idle (holder n') k `prefix_of` idle (holder n) k.
Proof.
  intros (o & Ht & _)%acquire_spec. apply take_idle_spec in Ht as (_ & Hne & Ho).
  destruct (decide (k = connection_key p)) as [->|Hk]; [|by rewrite Hne].
  destruct o as [c|]; [|rewrite Ho; apply prefix_nil]. destruct Ho as (_ & dead & ->). by eexists.
Qed.

Lemma acquire_max p n n' r :
  acquire p n = (n', r) -> max_idle_per_key (holder n') = max_idle_per_key (holder n).
Proof. intros (o & Ht & _)%acquire_spec. by apply take_idle_spec in Ht as (-> & _). Qed.

(** The conditions on the idle lists survive whatever shortens them. *)
Lemma shorter_ok s n' born' held' :
  sys_ok s -> max_idle_per_key (holder n') = max_idle_per_key (holder (net s)) ->
  (forall k, idle (holder n') k `prefix_of` idle (holder (net s)) k) ->
  (forall i k, born s !! i = Some k -> born' !! i = Some k) ->
  (forall i k, born' !! i = Some k -> i < next_id n') ->
  NoDup (map fst held') ->
  Forall (fun x => born' !! fst x = Some (snd x) /\ fst x ∉ idle_ids n' (snd x)) held' ->
  sys_ok {| net := n'; held := held'; born := born' |}.
Proof.
  intros [Hmax Hb Hn Hi _ _ _] Hm Hp Hborn Hlt Hnd Hheld.
  assert (forall k, idle_ids n' k `prefix_of` idle_ids (net s) k) as Hids.
  { intros k. unfold idle_ids. destruct (Hp k) as [more ->]. rewrite map_app. by eexists. }
  split; cbn [net held born]; rewrite ?Hm; try done.
  - intros k. etrans; [|apply Hb]. apply inj_le. by apply prefix_length.
  - intros k. destruct (Hids k) as [more Hk]. specialize (Hn k). rewrite Hk in Hn. by apply NoDup_app in Hn as [? _].
  - intros k. destruct (Hids k) as [more Hk]. specialize (Hi k). rewrite Hk in Hi. apply Forall_app in Hi as [Hi _].
    eapply Forall_impl; [exact Hi|]. auto.
Qed.

Lemma idle_ids_prefix n n' k i :
  idle (holder n') k `prefix_of` idle (holder n) k -> i ∉ idle_ids n k -> i ∉ idle_ids n' k.
Proof.
  unfold idle_ids. intros [more ->]. rewrite map_app, elem_of_app. naive_solver.
Qed.

Lemma step_reuse_ok s p n c :
  sys_ok s -> acquire p (net s) = (n, Ok (c, true)) ->
  born s !! connection_id c = Some (connection_key p) /\ connection_id c ∉ map fst (held s) /\
  disconnected c = false /\
  sys_ok {| net := n; held := (connection_id c, connection_key p) :: held s; born := born s |}.
Proof.
  intros Hok Ha. pose proof (acquire_prefix _ _ _ _ (connection_key p) Ha) as Hpre.
  pose proof Ha as (o & Ht & Ho & Hid)%acquire_spec. subst o. apply take_idle_spec in Ht as (_ & _ & Hd & dead & Hk).
  assert (connection_id c ∈ idle_ids (net s) (connection_key p)) as Hin.
  { unfold idle_ids. rewrite Hk, map_app. set_solver. }
  assert (born s !! connection_id c = Some (connection_key p)) as Hborn.
  { pose proof (so_idle _ Hok (connection_key p)) as Hi. rewrite Forall_forall in Hi. by apply Hi. }
  assert (connection_id c ∉ map fst (held s)) as Hnh.
  { intros ([i k] & Hx & He)%list_elem_of_fmap. cbn in Hx. subst i.
    pose proof (so_held _ Hok) as Hh. rewrite Forall_forall in Hh. destruct (Hh _ He) as [Hb Hni]. cbn in *.
    rewrite Hborn in Hb. injection Hb as <-. done. }
  split_and!; try done.
  apply shorter_ok with (s := s); try done.
  - by eapply acquire_max.
  - intros k. by eapply acquire_prefix.
  - intros i k. rewrite Hid. apply (so_born _ Hok).
  - cbn. constructor; [done|]. apply (so_held_nodup _ Hok).
  - constructor; cbn [fst snd].
    + split; [done|]. pose proof (so_nodup _ Hok (connection_key p)) as Hn. unfold idle_ids in *.
      rewrite Hk, map_app in Hn. apply NoDup_app in Hn as (_ & Hn & _). intros Hc. apply (Hn _ Hc). set_solver.
    + eapply Forall_impl; [apply (so_held _ Hok)|]. intros x [? ?]. split; [done|].
      eapply idle_ids_prefix; [by eapply acquire_prefix|done].
Qed.

Lemma step_fresh_ok s p n c :
  sys_ok s -> acquire p (net s) = (n, Ok (c, false)) ->
  born s !! connection_id c = None /\ disconnected c = false /\
  sys_ok {| net := n; held := (connection_id c, connection_key p) :: held s;
            born := <[connection_id c := connection_key p]> (born s) |}.
Proof.
  intros Hok Ha. pose proof Ha as (o & Ht & _ & Hc & Hid & Hd & _)%acquire_spec.
  assert (born s !! connection_id c = None) as Hnew.
  { destruct (born s !! connection_id c) as [k|] eqn:Hb; [|done]. apply (so_born _ Hok) in Hb. lia. }
  assert (forall i k, born s !! i = Some k -> <[connection_id c := connection_key p]> (born s) !! i = Some k) as Hext.
  { intros i k Hi. rewrite lookup_insert_ne; [done|]. congruence. }
  split_and!; try done. apply shorter_ok with (s := s); try done.
  - by eapply acquire_max.
  - intros k. by eapply acquire_prefix.
  - intros i k. rewrite Hid. destruct (decide (i = connection_id c)) as [->|Hne]; [lia|].
    rewrite lookup_insert_ne by done. intros Hi%(so_born _ Hok). lia.
  - cbn. constructor; [|apply (so_held_nodup _ Hok)].
    intros ([i k] & Hx & He)%list_elem_of_fmap. cbn in Hx. subst i.
    pose proof (so_held _ Hok) as Hh. rewrite Forall_forall in Hh. destruct (Hh _ He) as [Hb _]. cbn in Hb. congruence.
  - constructor; cbn [fst snd].
    + split; [apply lookup_insert_eq|]. apply (idle_ids_prefix (net s)); [by eapply acquire_prefix|].
      intros Hin. pose proof (so_idle _ Hok (connection_key p)) as Hi. rewrite Forall_forall in Hi.
      apply Hi in Hin. congruence.
    + eapply Forall_impl; [apply (so_held _ Hok)|]. intros x [? ?]. split; [by apply Hext|].
      eapply idle_ids_prefix; [by eapply acquire_prefix|done].
Qed.

Lemma step_other_ok s n h' :
  sys_ok s -> (exists more, held s ≡ₚ more ++ h') -> max_idle_per_key (holder n) = max_idle_per_key (holder (net s)) ->
  (forall k, idle (holder n) k `prefix_of` idle (holder (net s)) k) -> next_id (net s) <= next_id n ->
  sys_ok {| net := n; held := h'; born := born s |}.
Proof.
  intros Hok [more Hp] Hm Hpre Hid. apply shorter_ok with (s := s); try done.
  - intros i k Hb%(so_born _ Hok). lia.
  - pose proof (so_held_nodup _ Hok) as Hn. rewrite Hp, map_app in Hn. by apply NoDup_app in Hn as (_ & _ & ?).
  - pose proof (so_held _ Hok) as Hh. rewrite Hp in Hh. apply Forall_app in Hh as [_ Hh].
    eapply Forall_impl; [exact Hh|]. intros x [? ?]. split; [done|]. apply (idle_ids_prefix (net s)); [apply Hpre|done].
Qed.

(** Parking a connection that was held. *)
Lemma step_release_ok s p c rest :
  sys_ok s -> held s ≡ₚ (connection_id c, connection_key p) :: rest ->
  sys_ok {| net := release p c (net s); held := rest; born := born s |}.
Proof.
  intros Hok Hp.
  assert (sys_ok {| net := net s; held := rest; born := born s |}) as Hrest.
  { apply step_other_ok with (s := s); try done. by exists [(connection_id c, connection_key p)]. }
  unfold release. destruct (disconnected c); [done|].
  pose proof (so_held _ Hok) as Hh. rewrite Hp in Hh. apply Forall_cons in Hh as [[Hborn Hni] _]. cbn in Hborn, Hni.
  set (key := connection_key p) in *. set (h := holder (net s)) in *. fold (idle h key).
  assert (forall l k, idle (set_idle key l h) k = if decide (k = key) then l else idle h k) as Hset.
  { intros l k. unfold idle. cbn. case_decide as Hk; [subst; by rewrite lookup_insert_eq|].
    by rewrite lookup_insert_ne. }
  destruct (Z.ltb_spec (Z.of_nat (length (idle h key))) (max_idle_per_key h)) as [Hlt|Hge].
  2: { apply step_other_ok with (s := {| net := net s; held := rest; born := born s |}); try done;
         [by exists []|]. intros k. cbn. rewrite Hset. case_decide; [by subst|done]. }
  destruct Hrest as [Hmax Hb Hn Hi Hhe Hhn Hbo].
  assert (forall k, idle_ids {| holder := set_idle key (idle h key ++ [forget c]) h; dials := dials (net s);
      next_id := next_id (net s) |} k = if decide (k = key) then idle_ids (net s) key ++ [connection_id c]
      else idle_ids (net s) k) as Hids.
  { intros k. unfold idle_ids. cbn [holder]. rewrite Hset. case_decide; [by rewrite map_app|done]. }
  split; cbn [net held born holder next_id max_idle_per_key set_idle] in *; try done.
  - intros k. rewrite Hset. case_decide; [rewrite length_app; cbn; lia|apply Hb].
  - intros k. rewrite Hids. case_decide; [|apply Hn]. apply NoDup_app. split_and!; [apply Hn|set_solver|apply NoDup_singleton].
  - intros k. rewrite Hids. case_decide; [|apply Hi]. subst k. apply Forall_app_2; [apply Hi|by apply Forall_singleton].
  - pose proof (so_held_nodup _ Hok) as Hnd. rewrite Hp in Hnd. cbn in Hnd. apply NoDup_cons in Hnd as [Hnd _].
    apply Forall_forall. intros x Hx. rewrite Forall_forall in Hhe. destruct (Hhe x Hx) as [? Hx']. split; [done|].
    rewrite Hids. case_decide as Hk; [|done]. rewrite Hk in Hx'. rewrite not_elem_of_app. split; [done|].
    intros He%list_elem_of_singleton. apply Hnd. rewrite <-He. apply list_elem_of_fmap. by exists x.
Qed.

Lemma sys_step_ok s s' : sys_step s s' -> sys_ok s -> sys_ok s'.
Proof.
  intros Hstep Hok. destruct Hstep.
  - by eapply step_reuse_ok.
  - by eapply step_fresh_ok.
  - pose proof H0 as (o & _ & Hr)%acquire_spec.
    apply step_other_ok with (s := s); [done|by exists []|by eapply acquire_max|intros k; by eapply acquire_prefix|].
    destruct r as [[c []]| |]; try done; lia.
  - by apply step_release_ok.
  - apply step_other_ok with (s := s); try done. by exists [x].
Qed.

Definition start (h : H1PoolHolder) (d : Dials) : Sys :=
  {| net := {| holder := h; dials := d; next_id := 0 |}; held := []; born := ∅ |}.

(** The connection holder, under any interleaving of requests that
    acquire, return and drop connections.  At most [max_idle_per_key]
    connections per upstream are kept; a connection that is handed out is
    held by no one else, and is either new, or alive as far as is known and
    was dialled for the very upstream the request is for. *)
Theorem pool_holder_exclusive n d s p n' c reused :
  rtc sys_step (start (new_global n) d) s ->
  acquire p (net s) = (n', Ok (c, reused)) ->
  (forall k, Z.of_nat (length (idle (holder (net s)) k)) <= Z.max n 1) /\
  connection_id c ∉ map fst (held s) /\ disconnected c = false /\
  born s !! connection_id c = if reused then Some (connection_key p) else None.
Proof.
  intros Hsteps Ha.
  assert (sys_ok (start (new_global n) d)) as H0ok.
  { assert (forall k, idle (new_global n) k = []) as Hidle by (intros k; unfold idle; cbn; by rewrite lookup_empty).
    split; unfold idle_ids; cbn [net holder start held born map].
    - unfold new_global. cbn. lia.
    - intros k. rewrite Hidle. unfold new_global. cbn. lia.
    - intros k. rewrite Hidle. apply NoDup_nil_2.
    - intros k. rewrite Hidle. constructor.
    - constructor.
    - apply NoDup_nil_2.
    - intros i k. by rewrite lookup_empty. }
  assert (sys_ok s /\ max_idle_per_key (holder (net s)) = Z.max n 1) as [Hok Hmax].
  { clear Ha. assert (max_idle_per_key (holder (net (start (new_global n) d))) = Z.max n 1) as Hm by done.
    revert H0ok Hm. induction Hsteps as [s|s1 s2 s3 Hst _ IH]; [done|]. intros Hok1 Hm.
    apply IH; [by eapply sys_step_ok|]. rewrite <-Hm.
    destruct Hst as [? ? ? ? Hx|? ? ? ? Hx|? ? ? ? Hx|? ? c0|]; cbn; try (by eapply acquire_max); [|done].
    unfold release. by destruct (disconnected c0). }
  split; [intros k; rewrite <-Hmax; apply (so_bound _ Hok)|].
  destruct reused.
  - destruct (step_reuse_ok _ _ _ _ Hok Ha) as (? & ? & ? & _). done.
  - destruct (step_fresh_ok _ _ _ _ Hok Ha) as (Hb & ? & _). split_and!; try done.
    intros ([i k] & Hx & He)%list_elem_of_fmap. cbn in Hx. subst i.
    pose proof (so_held _ Hok) as Hh. rewrite Forall_forall in Hh. destruct (Hh _ He) as [Hb' _]. cbn in Hb'. congruence.
Qed.

End Holder.

End Upstream.

(** What the worker relies on: connections it acquires are not known to be
    gone and nothing was written to them for this request. *)
Class UpstreamPool (Key Net : Type) := {
  pool_acquire : Key -> Net -> Net * outcome NetworkError (Upstream.OwnedUpstream * bool);
  pool_release : Key -> Upstream.OwnedUpstream -> Net -> Net;
  net_ok : Net -> Prop;
  pool_acquire_ok : forall k n n' r,
    net_ok n -> pool_acquire k n = (n', r) ->
    net_ok n' /\ forall c reused, r = Ok (c, reused) ->
      Upstream.disconnected c = false /\ BodyRelay.writes (Upstream.write_half c) = [];
  pool_release_ok : forall k c n,
    net_ok n -> net_ok (pool_release k c n)
}.

(** ** The holder is such a pool *)

Section PoolInstance.
Context `{RemoteEndpointLib}.
Import Upstream.

Definition holder_ok (n : Net) : Prop :=
  forall k, Forall (fun c => BodyRelay.writes (write_half c) = []) (idle (holder n) k).

Lemma acquire_holder_ok p n n' r :
  holder_ok n -> acquire p n = (n', r) ->
  holder_ok n' /\ forall c reused, r = Ok (c, reused) ->
    disconnected c = false /\ BodyRelay.writes (write_half c) = [].
Proof.
  intros Hok Ha. split.
  - intros k. destruct (acquire_prefix _ _ _ _ k Ha) as [more Hk]. specialize (Hok k). rewrite Hk in Hok.
    by apply Forall_app in Hok as [? _].
  - intros c reused ->. apply acquire_spec in Ha as (o & Ht & Ho). destruct reused.
    + destruct Ho as [-> _]. apply take_idle_spec in Ht as (_ & _ & Hd & dead & Hk). split; [done|].
      specialize (Hok (Config.connection_key p)). rewrite Hk in Hok. by apply Forall_app in Hok as [_ [? _]%Forall_cons].
    + by destruct Ho as (_ & _ & _ & ? & ?).
Qed.

Lemma release_holder_ok p c n : holder_ok n -> holder_ok (release p c n).
Proof.
  intros Hok k. unfold release. destruct (disconnected c); [apply Hok|]. cbn.
  unfold idle at 1. cbn. destruct (decide (k = Config.connection_key p)) as [->|Hne].
  - rewrite lookup_insert_eq. cbn. specialize (Hok (Config.connection_key p)). unfold idle in Hok.
    destruct (_ <? _); [|done]. apply Forall_app_2; [done|by apply Forall_singleton].
  - rewrite lookup_insert_ne by done. apply Hok.
Qed.

#[global] Instance holder_pool : UpstreamPool Config.ProxyPassToConfig Net := {|
  pool_acquire := acquire; pool_release := release; net_ok := holder_ok;
  pool_acquire_ok := acquire_holder_ok; pool_release_ok := release_holder_ok |}.

End PoolInstance.

(** A request that finds an idle connection of its upstream. *)
#[local] Existing Instance Config.text_endpoints.

Definition demo_upstream : Config.ProxyPassToConfig := Config.Http1 (Config.demo_model (bs "h:80")).

Definition demo_dials : Upstream.Dials := [Ok ([], []); Ok ([], [])].

Definition demo_parked : Upstream.Sys :=
  let n0 := Upstream.net (Upstream.start (Upstream.new_global 1) demo_dials) in
  let n1 := fst (Upstream.acquire demo_upstream n0) in
  let c := {| Upstream.connection_id := 0; Upstream.write_half := {| BodyRelay.writes := []; BodyRelay.verdicts := [] |}; Upstream.response_read := [];
              Upstream.disconnected := false |} in
  {| Upstream.net := Upstream.release demo_upstream c n1; Upstream.held := [];
     Upstream.born := {[ 0 := Config.connection_key demo_upstream ]} |}.

Lemma pool_holder_exclusive_witness :
  Upstream.born demo_parked !! 0 = Some (Config.connection_key demo_upstream) /\
  exists n' c, Upstream.acquire demo_upstream (Upstream.net demo_parked) = (n', Ok (c, true)) /\
    Upstream.disconnected c = false.
Proof.
  assert (exists n' c, Upstream.acquire demo_upstream (Upstream.net demo_parked) = (n', Ok (c, true))) as (n' & c & Ha).
  { vm_compute. eexists _, _. reflexivity. }
  split; [apply lookup_singleton_eq|].
  destruct (Upstream.pool_holder_exclusive 1 demo_dials demo_parked demo_upstream n' c true) as (_ & _ & Hd & _).
  - eapply rtc_l.
    { eapply Upstream.step_fresh with (p := demo_upstream). vm_compute. reflexivity. }
    eapply rtc_l; [|apply rtc_refl].
    unfold demo_parked.
    set (c0 := {| Upstream.connection_id := 0; Upstream.write_half := _; Upstream.response_read := _;
                  Upstream.disconnected := false |}).
    exact (Upstream.step_release _ demo_upstream c0 [] (reflexivity _)).
  - exact Ha.
  - exists n', c. split; [exact Ha|exact Hd].
Defined.
