(* ===== verification/H1Worker.v ===== *)
(** * The upstream worker of the HTTP/1.1 pipeline:
      [h1_proxy_server/pipeline/worker.rs]

    One task per request: it takes a connection to the upstream, writes the
    head, streams the body as the reader delivers it, reads the response head
    and relays the response as events to the client writer.  While nothing
    has reached the client it may deliver the request once more, on another
    connection, out of the part of the body it remembers. *)

From Stdlib Require Import ZArith Lia Strings.Byte.
From stdpp Require Import base tactics list strings gmap.
From S2P Require Import Prelude RustStd LoopBuffer BodyRelay H1Headers H1Rewrite H1Reader H1ClientWriter.
From S2P Require Import ProxyPassConfig H1Upstream.

Local Open Scope Z_scope.

Module Worker.
Import H1 ProxyErrors Reader ClientWriter Upstream.

Definition MAX_DELIVERY_ATTEMPTS : nat := 2.
Definition REPLAY_WINDOW : Z := 64 * 1024.
Definition DEFAULT_MCP_READ_TIMEOUT : Z := Duration.from_secs (60 * 60).

(** ** [RequestBodyPump]

    [rx] are the chunks the reader is still to deliver before it drops its
    sender. *)
Record RequestBodyPump := { rx : list bytes; replay : option bytes; completed : bool; total : Z }.

Definition pump_new (rx : list bytes) : RequestBodyPump :=
  {| rx := rx; replay := Some []; completed := false; total := 0 |}.

Definition is_replayable (b : RequestBodyPump) : bool :=
  match replay b with Some _ => true | None => false end.

Definition resend (b : RequestBodyPump) (c : OwnedUpstream) : OwnedUpstream * bool :=
  match replay b with
  | None => (c, false)
  | Some r =>
      if decide (r = []) then (c, true)
      else let '(c, res) := upstream_write r c in (c, is_ok res)
  end.

(** The replay window after one more chunk. *)
Definition remember (chunk : bytes) (r : option bytes) : option bytes :=
  match r with
  | Some r => if REPLAY_WINDOW <? Z.of_nat (length r) + Z.of_nat (length chunk) then None else Some (r ++ chunk)
  | None => None
  end.

Fixpoint stream_chunks (chunks : list bytes) (replay : option bytes) (completed : bool) (total : Z)
    (c : OwnedUpstream) : RequestBodyPump * OwnedUpstream * bool :=
  match chunks with
  | [] => ({| rx := []; replay := replay; completed := true; total := total |}, c, true)
  | chunk :: chunks =>
      let total := total + Z.of_nat (length chunk) in
      let replay := remember chunk replay in
      let '(c, res) := upstream_write chunk c in
      if is_ok res then stream_chunks chunks replay completed total c
      else ({| rx := chunks; replay := replay; completed := completed; total := total |}, c, false)
  end.

Definition stream (b : RequestBodyPump) (c : OwnedUpstream) : RequestBodyPump * OwnedUpstream * bool :=
  stream_chunks (rx b) (replay b) (completed b) (total b) c.

Fixpoint discard_chunks (chunks : list bytes) (discarded : Z) (b : RequestBodyPump) : RequestBodyPump * bool :=
  match chunks with
  | [] => ({| rx := []; replay := replay b; completed := true; total := total b |}, true)
  | chunk :: chunks =>
      let b := {| rx := chunks; replay := replay b; completed := completed b;
                  total := total b + Z.of_nat (length chunk) |} in
      let discarded := discarded + Z.of_nat (length chunk) in
      if REPLAY_WINDOW <? discarded then (b, false) else discard_chunks chunks discarded b
  end.

Definition discard_rest (b : RequestBodyPump) : RequestBodyPump * bool :=
  if completed b then (b, true) else discard_chunks (rx b) 0 b.

(** ** Events

    The sending side of a response slot: the events that were accepted, and
    the results of the sends to come. *)
Record Tx := { sent : list ResponseEvent; send_verdicts : list (option NetworkError) }.

Definition send (e : ResponseEvent) (tx : Tx) : Tx * bool :=
  match send_verdicts tx with
  | Some _ :: vs => ({| sent := sent tx; send_verdicts := vs |}, false)
  | None :: vs => ({| sent := sent tx ++ [e]; send_verdicts := vs |}, true)
  | [] => ({| sent := sent tx ++ [e]; send_verdicts := [] |}, true)
  end.

(** [ChannelSink]: every payload is sent as a chunk. *)
Definition channel_sink (tx : Tx) : BodyRelay.Sink :=
  {| BodyRelay.writes := []; BodyRelay.verdicts := send_verdicts tx |}.

Definition after_sink (tx : Tx) (w : BodyRelay.Sink) : Tx :=
  {| sent := sent tx ++ map Chunk (BodyRelay.writes w); send_verdicts := BodyRelay.verdicts w |}.

(** ** Failures *)

Definition is_stale_connection (err : ProxyServerError) : bool :=
  match err with NetworkErr e => negb (is_timeout e) | _ => false end.

Section Failures.
Context `{H1Libs} (APP_VERSION : bytes).

Definition classify_upstream_failure (err : ProxyServerError) : bytes :=
  match err with
  | NetworkErr e =>
      if is_timeout e then ERROR_TIMEOUT APP_VERSION else REMOTE_RESOURCE_IS_NOT_AVAILABLE APP_VERSION
  | _ => UPSTREAM_IS_NOT_HTTP APP_VERSION
  end.

Definition fail_request (is_mcp : bool) (page : bytes) (b : RequestBodyPump) (tx : Tx) : RequestBodyPump * Tx :=
  let '(b, stays_synced) := discard_rest b in
  if is_mcp then (b, fst (send Abort tx))
  else
    let '(tx, ok) := send (Chunk page) tx in
    if negb ok then (b, tx)
    else (b, fst (send (if stays_synced : bool then Done else Abort) tx)).

End Failures.

(** ** [run_upstream_request] *)

Section Run.
Context `{SliceOfU8Ext} `{H1Libs} `{RewriteLibs} `{RemoteEndpointLib}.
Context {N : Type} `{UpstreamPool Config.ProxyPassToConfig N}.
Context (iter_add : gmap bytes bytes -> list (bytes * bytes)).
Context (APP_VERSION : bytes) (uninit : bytes) (oc : bool).

(** The parts of [UpstreamRequest] that do not change. *)
Record UpstreamRequest := {
  req_proxy_pass_to : Config.ProxyPassToConfig;
  req_end_point_info : Config.HttpEndpointInfo;
  req_connection_info : Rewrite.HttpConnectionInfo;
  req_head : bytes
}.

(** What the task works on: the pool and the network, the body, the response
    channel, the connections that were closed on the way and the traffic
    counters. *)
Record World := {
  net : N;
  body : RequestBodyPump;
  tx : Tx;
  closed : list OwnedUpstream;
  recorded_c2s : option Z;
  recorded_s2c : option Z
}.

Definition set_net (n : N) (w : World) : World :=
  {| net := n; body := body w; tx := tx w; closed := closed w;
     recorded_c2s := recorded_c2s w; recorded_s2c := recorded_s2c w |}.
Definition set_body (b : RequestBodyPump) (w : World) : World :=
  {| net := net w; body := b; tx := tx w; closed := closed w;
     recorded_c2s := recorded_c2s w; recorded_s2c := recorded_s2c w |}.
Definition set_tx (t : Tx) (w : World) : World :=
  {| net := net w; body := body w; tx := t; closed := closed w;
     recorded_c2s := recorded_c2s w; recorded_s2c := recorded_s2c w |}.
Definition close_connection (c : OwnedUpstream) (w : World) : World :=
  {| net := net w; body := body w; tx := tx w; closed := closed w ++ [c];
     recorded_c2s := recorded_c2s w; recorded_s2c := recorded_s2c w |}.
Definition record_c2s (n : Z) (w : World) : World :=
  {| net := net w; body := body w; tx := tx w; closed := closed w;
     recorded_c2s := Some n; recorded_s2c := recorded_s2c w |}.
Definition record_s2c (n : Z) (w : World) : World :=
  {| net := net w; body := body w; tx := tx w; closed := closed w;
     recorded_c2s := recorded_c2s w; recorded_s2c := Some n |}.

Definition fail_world (req : UpstreamRequest) (page : bytes) (w : World) : World :=
  let '(b, t) := fail_request (Config.is_mcp (req_proxy_pass_to req)) page (body w) (tx w) in
  set_tx t (set_body b w).

Definition worker_timeouts (req : UpstreamRequest) : BodyRelay.HttpTimeouts :=
  let t := Config.timeouts (req_end_point_info req) in
  if Config.is_mcp (req_proxy_pass_to req) then (DEFAULT_MCP_READ_TIMEOUT, snd t) else t.

(** How the delivery loop ends: with a connection whose response head has
    been read and rewritten, with the failure answered, or in a panic. *)
Inductive Delivery :=
  | Answered (c : OwnedUpstream) (r : H1Reader) (cl : HttpContentLength) (is_websocket : bool)
  | Failed
  | Crashed.

(** The body of the request onto one connection. *)
Definition write_request (b : RequestBodyPump) (c : OwnedUpstream) :
    RequestBodyPump * OwnedUpstream * bool :=
  let '(c, delivered) := resend b c in
  if delivered then stream b c else (b, c, false).

Fixpoint deliver (fuel attempt : nat) (req : UpstreamRequest) (w : World) : World * option Delivery :=
  match fuel with
  | O => (w, None)
  | S fuel =>
      let attempt := S attempt in
      let retries_left := (attempt <? MAX_DELIVERY_ATTEMPTS)%nat in
      let '(n, acquired) := pool_acquire (req_proxy_pass_to req) (net w) in
      let w := set_net n w in
      match acquired with
      | Err _ => (fail_world req (REMOTE_RESOURCE_IS_NOT_AVAILABLE APP_VERSION) w, Some Failed)
      | Panic => (w, Some Crashed)
      | Ok (c, reused) =>
          let '(c, head_sent) := send_head_bytes (req_head req) c in
          if negb head_sent then
            let w := close_connection c w in
            if retries_left && is_replayable (body w) then deliver fuel attempt req w
            else (fail_world req (REMOTE_RESOURCE_IS_NOT_AVAILABLE APP_VERSION) w, Some Failed)
          else
          let '(b, c, delivered) := write_request (body w) c in
          let w := set_body b w in
          if negb delivered then
            let w := close_connection c w in
            if retries_left && is_replayable (body w) then deliver fuel attempt req w
            else (fail_world req (ERROR_GETTING_CONTENT_FROM_REMOTE_RESOURCE APP_VERSION) w, Some Failed)
          else
          let '(r, headers) := read_headers (reader_new uninit (response_read c) (worker_timeouts req)) in
          match headers with
          | None => (w, None)
          | Some Panic => (close_connection c w, Some Crashed)
          | Some (Err err) =>
              let w := close_connection (set_disconnected c) w in
              if reused && retries_left && is_replayable (body w) && is_stale_connection err
              then deliver fuel attempt req w
              else (fail_world req (classify_upstream_failure APP_VERSION err) w, Some Failed)
          | Some (Ok h) =>
              match Rewrite.compile_headers iter_add h
                      (Rewrite.ResponseHead (Config.heads (req_end_point_info req)))
                      (req_connection_info req) None None None (core r) with
              | Ok (core', ws) => (w, Some (Answered c (set_core core' r) (content_length h) ws))
              | Err e =>
                  (fail_world req (classify_upstream_failure APP_VERSION (HeadersParseError e))
                     (close_connection (set_disconnected c) w), Some Failed)
              | Panic => (close_connection c w, Some Crashed)
              end
          end
      end
  end.

(** [matches!(response_content_length, Known(_) | Chunked)] *)
Definition reusable_framing (cl : HttpContentLength) : bool :=
  match cl with Known _ | Chunked => true | NoLength => false end.

(** [leftover.get_data().is_empty()] *)
Definition nothing_left (r : H1Reader) : bool :=
  match LoopBuffer.get_data (E:=bytes) (buffer r) with Ok [] => true | _ => false end.

(** From the first byte of the response on: [false] is a panic. *)
Definition relay_response (fuel : nat) (req : UpstreamRequest) (c : OwnedUpstream) (r : H1Reader)
    (cl : HttpContentLength) (is_websocket : bool) (w : World) : World * option bool :=
  let w := record_c2s (total (body w)) w in
  let '(t, ok) := send (Chunk (Rewrite.builder (core r))) (tx w) in
  let w := set_tx t w in
  if negb ok then (close_connection c w, Some true)
  else if is_websocket then (close_connection c (set_tx (fst (send Abort (tx w))) w), Some true)
  else
    let '(r, sink, res) := transfer_body fuel oc cl r (channel_sink (tx w)) in
    let w := set_tx (after_sink (tx w) sink) w in
    let c := set_response_read (read_part r) c in
    match res with
    | None => (w, None)
    | Some Panic => (close_connection c w, Some false)
    | Some (Err _) => (close_connection c (set_tx (fst (send Abort (tx w))) w), Some true)
    | Some (Ok bytes_to_client) =>
        let '(t, ok) := send Done (tx w) in
        let w := set_tx t w in
        if negb ok then (close_connection c w, Some true)
        else
          let w := record_s2c bytes_to_client w in
          if reusable_framing cl && nothing_left r && negb (disconnected c)
          then (set_net (pool_release (req_proxy_pass_to req) c (net w)) w, Some true)
          else (close_connection c w, Some true)
    end.

Definition run_upstream_request (fuel : nat) (req : UpstreamRequest) (w : World) : World * option bool :=
  let '(w, d) := deliver MAX_DELIVERY_ATTEMPTS 0 req w in
  match d with
  | None => (w, None)
  | Some Failed => (w, Some true)
  | Some Crashed => (w, Some false)
  | Some (Answered c r cl ws) => relay_response fuel req c r cl ws w
  end.

Definition world_new (n : N) (chunks : list bytes) (verdicts : list (option NetworkError)) : World :=
  {| net := n; body := pump_new chunks; tx := {| sent := []; send_verdicts := verdicts |}; closed := [];
     recorded_c2s := None; recorded_s2c := None |}.

End Run.

(** ** The body pump *)

(** [b] has taken a part of the request body off the client, and remembers
    all of it or nothing. *)
Definition pump_ok (chunks : list bytes) (b : RequestBodyPump) : Prop :=
  exists taken, chunks = taken ++ rx b /\ total b = Z.of_nat (length (concat taken)) /\
    (forall x, replay b = Some x -> x = concat taken /\ Z.of_nat (length x) <= REPLAY_WINDOW) /\
    (completed b = true -> rx b = []).

Lemma pump_new_ok chunks : pump_ok chunks (pump_new chunks).
Proof. exists []. split_and!; try done. intros x [= <-]. done. Qed.

Lemma upstream_write_spec x c c' r :
  upstream_write x c = (c', r) ->
  connection_id c' = connection_id c /\ response_read c' = response_read c /\ disconnected c' = disconnected c /\
  received c' = received c ++ (if is_ok r then x else []) /\
  (Forall (fun v => v = None) (BodyRelay.verdicts (write_half c)) ->
   is_ok r = true /\ Forall (fun v => v = None) (BodyRelay.verdicts (write_half c'))).
Proof.
  unfold upstream_write, BodyRelay.write_http_payload, received.
  destruct (BodyRelay.verdicts (write_half c)) as [|[e|] vs]; intros [= <- <-]; cbn;
    rewrite ?concat_app; cbn; rewrite ?app_nil_r; split_and!; try done.
  - by intros [? _]%Forall_cons.
  - intros [_ ?]%Forall_cons. done.
Qed.

(** The rest of the body onto one connection. *)
Lemma stream_chunks_spec chunks todo : forall rep comp tot c b c' ok,
  pump_ok chunks {| rx := todo; replay := rep; completed := comp; total := tot |} ->
  stream_chunks todo rep comp tot c = (b, c', ok) ->
  pump_ok chunks b /\ response_read c' = response_read c /\ disconnected c' = disconnected c /\
  connection_id c' = connection_id c /\
  received c' `prefix_of` received c ++ concat todo /\ received c `prefix_of` received c' /\
  (ok = true -> received c' = received c ++ concat todo /\ rx b = [] /\ completed b = true) /\
  (Forall (fun v => v = None) (BodyRelay.verdicts (write_half c)) -> ok = true).
Proof.
  induction todo as [|x todo IH]; intros rep comp tot c b c' ok Hp Hs; cbn [stream_chunks concat] in *.
  - injection Hs as <- <- <-. rewrite app_nil_r. split_and!; try done.
    destruct Hp as (taken & ? & ? & ? & _). by exists taken.
  - destruct (upstream_write x c) as [c1 r] eqn:Hw. apply upstream_write_spec in Hw as (Hid & Hr & Hd & Hrec & Hh).
    assert (pump_ok chunks {| rx := todo; replay := remember x rep; completed := comp;
                              total := tot + Z.of_nat (length x) |}) as Hp'.
    { destruct Hp as (taken & -> & Ht & Hrep & Hc). cbn in *. exists (taken ++ [x]). rewrite <-app_assoc.
      rewrite concat_app, length_app. cbn. rewrite app_nil_r. split_and!; [done|lia| |by intros ?%Hc].
      intros y. unfold remember. destruct rep as [z|]; [|done]. destruct (Hrep z eq_refl) as [-> _].
      destruct (Z.ltb_spec REPLAY_WINDOW (Z.of_nat (length (concat taken)) + Z.of_nat (length x))); [done|].
      intros [= <-]. rewrite length_app. split; [done|lia]. }
    destruct (is_ok r) eqn:Hok.
    + destruct (IH _ _ _ _ _ _ _ Hp' Hs) as (Hb & Hr' & Hd' & Hid' & Hpre & Hext & Htrue & Hhe).
      rewrite Hrec, <-app_assoc in Hpre. split_and!; try congruence; try done.
      * etrans; [|exact Hext]. rewrite Hrec. by eexists.
      * intros ->. destruct (Htrue eq_refl) as (-> & ? & ?). by rewrite Hrec, <-app_assoc.
      * intros [? ?]%Hh. auto.
    + injection Hs as <- <- <-. rewrite Hrec, app_nil_r. split_and!; try done; [by apply prefix_app_r|].
      intros [? ?]%Hh. done.
Qed.

(** The body as remembered and the rest of it: a connection that has taken
    nothing but [pre] ends with a part of [pre] and the whole body. *)
Lemma write_request_spec chunks b c b' c' ok pre :
  pump_ok chunks b -> received c = pre -> write_request b c = (b', c', ok) ->
  pump_ok chunks b' /\ response_read c' = response_read c /\ disconnected c' = disconnected c /\
  connection_id c' = connection_id c /\
  received c' `prefix_of` pre ++ concat chunks /\
  (ok = true -> received c' = pre ++ concat chunks /\ rx b' = [] /\ completed b' = true) /\
  (Forall (fun v => v = None) (BodyRelay.verdicts (write_half c)) -> is_replayable b = true -> ok = true).
Proof.
  intros Hp Hpre. unfold write_request, resend, is_replayable.
  destruct (replay b) as [x|] eqn:Hrep.
  2: { intros [= <- <- <-]. rewrite Hpre. split_and!; try done. by eexists. }
  destruct Hp as (taken & Hch & Ht & Hx & Hc). destruct (Hx _ Hrep) as [-> Hwin].
  assert (pump_ok chunks {| rx := rx b; replay := replay b; completed := completed b; total := total b |}) as Hp
    by (by exists taken).
  assert (concat chunks = concat taken ++ concat (rx b)) as Hcc by (by rewrite Hch, concat_app).
  (* after the remembered part, the stream *)
  assert (forall c1, received c1 = pre ++ concat taken -> response_read c1 = response_read c ->
    disconnected c1 = disconnected c -> connection_id c1 = connection_id c ->
    stream b c1 = (b', c', ok) ->
    pump_ok chunks b' /\ response_read c' = response_read c /\ disconnected c' = disconnected c /\
    connection_id c' = connection_id c /\
    received c' `prefix_of` pre ++ concat chunks /\
    (ok = true -> received c' = pre ++ concat chunks /\ rx b' = [] /\ completed b' = true) /\
    (Forall (fun v => v = None) (BodyRelay.verdicts (write_half c1)) -> ok = true)) as Hstream.
  { intros c1 Hr1 Hrr Hdd Hii Hs.
    destruct (stream_chunks_spec chunks (rx b) _ _ _ _ _ _ _ Hp Hs) as (? & ? & ? & ? & Hpr & _ & Htr & ?).
    rewrite Hr1, <-app_assoc, <-Hcc in *. split_and!; try congruence; done. }
  case_decide as Hnil.
  - intros Hs. destruct (Hstream c) as (? & ? & ? & ? & ? & ? & ?); try done; [by rewrite Hnil, app_nil_r|].
    split_and!; try done. auto.
  - destruct (upstream_write (concat taken) c) as [c1 r] eqn:Hw.
    apply upstream_write_spec in Hw as (Hid & Hr & Hd & Hrec & Hh). destruct (is_ok r) eqn:Hok.
    + intros Hs. destruct (Hstream c1) as (? & ? & ? & ? & ? & ? & ?); try done; [by rewrite Hrec, Hpre|].
      split_and!; try done. intros [? ?]%Hh. auto.
    + intros [= <- <- <-]. rewrite Hrec, Hpre, app_nil_r. split_and!; try done;
        [by apply prefix_app_r|by intros [? ?]%Hh].
Qed.

(** ** Delivery *)

#[local] Opaque REMOTE_RESOURCE_IS_NOT_AVAILABLE ERROR_GETTING_CONTENT_FROM_REMOTE_RESOURCE ERROR_TIMEOUT
  UPSTREAM_IS_NOT_HTTP.

Section Proofs.
Context `{SliceOfU8Ext} `{H1Libs} `{RewriteLibs} `{RemoteEndpointLib}.
Context {N : Type} `{UpstreamPool Config.ProxyPassToConfig N}.
Context (iter_add : gmap bytes bytes -> list (bytes * bytes)).
Context (APP_VERSION : bytes) (uninit : bytes) (oc : bool) (Huninit : (0 < length uninit)%nat).

Let deliver := deliver iter_add APP_VERSION uninit.

(** The failure pages, and the events a failure is answered with. *)
Definition pages : list bytes :=
  [REMOTE_RESOURCE_IS_NOT_AVAILABLE APP_VERSION; ERROR_GETTING_CONTENT_FROM_REMOTE_RESOURCE APP_VERSION;
   ERROR_TIMEOUT APP_VERSION; UPSTREAM_IS_NOT_HTTP APP_VERSION].

Lemma classify_page err : classify_upstream_failure APP_VERSION err ∈ pages.
Proof. unfold pages. destruct err as [e| | | | | | | | | | | | | | |]; cbn; [destruct (is_timeout e)|..]; set_solver. Qed.

Definition failure_of (req : UpstreamRequest) (t t' : Tx) : Prop :=
  exists page b, page ∈ pages /\ t' = snd (fail_request (Config.is_mcp (req_proxy_pass_to req)) page b t).

Lemma fail_world_spec req page (w : @World N) :
  page ∈ pages ->
  net (fail_world req page w) = net w /\ closed (fail_world req page w) = closed w /\
  failure_of req (tx w) (tx (fail_world req page w)).
Proof.
  intros Hp. unfold fail_world. destruct (fail_request _ page (body w) (tx w)) as [b t] eqn:Hf. cbn.
  split_and!; [done|done|]. exists page, (body w). by rewrite Hf.
Qed.

(** What the loop has done: at most [n] connections were closed on the way,
    each with a part of the request and nothing else on it. *)
Record delivered (n : nat) (req : UpstreamRequest) (chunks : list bytes) (w w' : @World N)
    (d : option Delivery) : Prop := {
  de_net : net_ok (net w');
  de_closed : exists cs, closed w' = closed w ++ cs /\
    Forall (fun c => received c `prefix_of` req_head req ++ concat chunks) cs /\
    (length cs + (match d with Some (Answered _ _ _ _) => 1 | _ => 0 end) <= n)%nat;
  de_result :
    match d with
    | Some (Answered c r cl ws) =>
        received c = req_head req ++ concat chunks /\ disconnected c = false /\ tx w' = tx w /\
        pump_ok chunks (body w') /\ rx (body w') = [] /\
        exists r1 h k, read_headers (reader_new uninit (response_read c) (worker_timeouts req)) = (r1, Some (Ok h)) /\
          Rewrite.compile_headers iter_add h (Rewrite.ResponseHead (Config.heads (req_end_point_info req)))
            (req_connection_info req) None None None (core r1) = Ok (k, ws) /\
          r = set_core k r1 /\ cl = content_length h
    | Some Failed => failure_of req (tx w) (tx w')
    | Some Crashed => tx w' = tx w
    | None => False
    end
}.

Lemma delivered_closed n req chunks (w : @World N) c w' d :
  delivered n req chunks (close_connection c w) w' d ->
  received c `prefix_of` req_head req ++ concat chunks ->
  delivered (S n) req chunks w w' d.
Proof.
  intros [Hn (cs & Hc & Hp & Hl) Hr] Hpre. split; [done| |done].
  exists (c :: cs). cbn in Hc. rewrite Hc, <-app_assoc. split_and!; [done|by constructor|cbn; lia].
Qed.

Lemma send_head_spec head c c' ok :
  send_head_bytes head c = (c', ok) -> BodyRelay.writes (write_half c) = [] ->
  response_read c' = response_read c /\ disconnected c' = disconnected c /\
  received c' = (if ok then head else []) /\
  (disconnected c = false -> Forall (fun v => v = None) (BodyRelay.verdicts (write_half c)) ->
   ok = true /\ Forall (fun v => v = None) (BodyRelay.verdicts (write_half c'))).
Proof.
  unfold send_head_bytes. intros Hs Hw. destruct (disconnected c) eqn:Hd.
  { injection Hs as <- <-. unfold received. by rewrite Hw, Hd. }
  destruct (upstream_write head c) as [c1 r] eqn:Hu. injection Hs as <- <-.
  apply upstream_write_spec in Hu as (_ & ? & ? & Hr & Hh).
  rewrite Hr, Hd in *. unfold received. rewrite Hw. cbn. by split_and!.
Qed.

(** The conditions under which a closed connection leaves the loop. *)
Lemma delivered_fail n req chunks (w w1 : @World N) page :
  page ∈ pages -> net_ok (net w1) -> tx w1 = tx w ->
  (exists cs, closed w1 = closed w ++ cs /\
     Forall (fun c => received c `prefix_of` req_head req ++ concat chunks) cs /\ (length cs <= n)%nat) ->
  delivered n req chunks w (fail_world req page w1) (Some Failed).
Proof.
  intros Hpg Hn1 Ht1 Hc1. destruct (fail_world_spec req page w1 Hpg) as (Hfn & Hfc & Hff).
  split; [by rewrite Hfn| |by rewrite <-Ht1]. rewrite Hfc. destruct Hc1 as (cs & ? & ? & ?). exists cs.
  split_and!; try done. lia.
Qed.

(** After a connection is closed: another attempt, or the answer. *)
Lemma retry_or_answer fuel attempt req chunks (w : @World N) (go : bool) page c1 w1 :
  (S attempt + S fuel = S MAX_DELIVERY_ATTEMPTS)%nat ->
  (forall w, (S (S attempt) + fuel = S MAX_DELIVERY_ATTEMPTS)%nat -> (0 < fuel)%nat -> net_ok (net w) ->
     pump_ok chunks (body w) ->
     exists w' d, deliver fuel (S attempt) req w = (w', d) /\ delivered fuel req chunks w w' d) ->
  page ∈ pages -> net_ok (net w1) -> tx w1 = tx w -> closed w1 = closed w ->
  pump_ok chunks (body w1) -> received c1 `prefix_of` req_head req ++ concat chunks ->
  (go = true -> (S attempt < MAX_DELIVERY_ATTEMPTS)%nat) ->
  exists w' d, (if go then deliver fuel (S attempt) req (close_connection c1 w1)
                else (fail_world req page (close_connection c1 w1), Some Failed)) = (w', d) /\
               delivered (S fuel) req chunks w w' d.
Proof.
  intros Hfuel IH Hpg Hn1 Ht1 Hc1 Hp1 Hpre Hgo.
  destruct go.
  - destruct (IH (close_connection c1 w1)) as (w' & d & -> & Hd); [lia|specialize (Hgo eq_refl); lia|done|done|].
    exists w', d. split; [done|]. eapply delivered_closed in Hd; [|done].
    destruct Hd as [? (cs & Hcs & ? & ?) ?]. split; [done| |by rewrite <-Ht1].
    exists cs. by rewrite Hcs, Hc1.
  - eexists _, _. split; [done|]. apply delivered_fail; try done.
    exists [c1]. cbn. rewrite Hc1. split_and!; [done|by apply Forall_singleton|lia].
Qed.

Lemma deliver_spec fuel : forall attempt req chunks (w : @World N),
  (S attempt + fuel = S MAX_DELIVERY_ATTEMPTS)%nat -> (0 < fuel)%nat -> net_ok (net w) -> pump_ok chunks (body w) ->
  exists w' d, deliver fuel attempt req w = (w', d) /\ delivered fuel req chunks w w' d.
Proof.
  induction fuel as [|fuel IH]; intros attempt req chunks w Hfuel Hpos Hnet Hpump; [lia|].
  unfold deliver. cbn [Worker.deliver]. fold deliver.
  destruct (pool_acquire (req_proxy_pass_to req) (net w)) as [n a] eqn:Ha.
  pose proof (pool_acquire_ok _ _ _ _ Hnet Ha) as [Hn Hacq].
  destruct a as [[c reused]|e|].
  2: { eexists _, _. split; [done|]. apply delivered_fail; [unfold pages; set_solver|done|done|].
       exists []. cbn. rewrite app_nil_r. split_and!; [done|constructor|lia]. }
  2: { eexists _, _. split; [done|]. split; [done| |done]. exists []. cbn. rewrite app_nil_r.
       split_and!; [done|constructor|lia]. }
  destruct (Hacq _ _ eq_refl) as [Hdc Hlog].
  pose proof (fun go page c1 w1 => retry_or_answer fuel attempt req chunks w go page c1 w1 ltac:(lia) (IH _ req chunks)) as Hretry.
  destruct (send_head_bytes (req_head req) c) as [c1 head_sent] eqn:Hhead.
  apply send_head_spec in Hhead as (Hr1 & Hd1 & Hrec1 & _); [|done].
  destruct head_sent; cbn [negb].
  2: { apply (Hretry (_ && is_replayable (body (close_connection c1 (set_net n w))))); try done.
       - unfold pages. set_solver.
       - rewrite Hrec1. apply prefix_nil.
       - intros [? _]%andb_true_iff. by apply Nat.ltb_lt. }
  destruct (write_request (body (set_net n w)) c1) as [[b c2] ok] eqn:Hwr.
  destruct (write_request_spec chunks _ _ _ _ _ (req_head req) Hpump Hrec1 Hwr)
    as (Hb & Hr2 & Hd2 & _ & Hpre2 & Hok & _).
  destruct ok; cbn [negb].
  2: { apply (Hretry (_ && is_replayable (body (close_connection c2 (set_body b (set_net n w)))))); try done.
       - unfold pages. set_solver.
       - intros [? _]%andb_true_iff. by apply Nat.ltb_lt. }
  destruct (Hok eq_refl) as (Hfull & Hrx & _).
  destruct (read_headers_spec (S (ReadPart.size (response_read c2))) (reader_new uninit (response_read c2) (worker_timeouts req)))
    as (r1 & res & Hread & _ & Hres); [cbn; lia|by apply reader_new_ok|].
  unfold read_headers. cbn [read_part reader_new] in *. rewrite Hread.
  destruct res as [h|err|].
  - destruct (Rewrite.compile_headers iter_add h _ _ None None None (core r1)) as [[k ws]|e|] eqn:Hcomp.
    + eexists _, _. split; [done|]. split; [done| |].
      * exists []. cbn. rewrite app_nil_r. split_and!; [done|constructor|lia].
      * split_and!; try done; [by rewrite Hd2, Hd1, Hdc|]. exists r1, h, k. unfold read_headers. cbn. by split_and!.
    + eexists _, _. split; [done|]. apply delivered_fail; [apply classify_page|done|done|].
      exists [set_disconnected c2]. cbn. split_and!; [done|by apply Forall_singleton|lia].
    + eexists _, _. split; [done|]. split; [done| |done]. exists [c2]. cbn.
      split_and!; [done|by apply Forall_singleton|lia].
  - apply (Hretry (reused && _ && _ && _) _ (set_disconnected c2)); try done; [apply classify_page|].
    intros [[[_ ?]%andb_true_iff _]%andb_true_iff _]%andb_true_iff. by apply Nat.ltb_lt.
  - eexists _, _. split; [done|]. split; [done| |done]. exists [c2]. cbn.
    split_and!; [done|by apply Forall_singleton|lia].
Qed.

(** ** Events *)

Definition open (t : Tx) : Prop := Forall (fun v => v = None) (send_verdicts t).

Lemma send_spec e t t' ok :
  send e t = (t', ok) ->
  sent t' = sent t ++ (if ok then [e] else []) /\ (open t -> ok = true /\ open t').
Proof.
  unfold send, open. destruct (send_verdicts t) as [|[x|] vs] eqn:Hv; intros [= <- <-]; cbn; rewrite ?app_nil_r;
    (split; [done|]).
  - done.
  - by intros [? _]%Forall_cons.
  - by intros [_ ?]%Forall_cons.
Qed.

(** The events of a response: chunks, and then at most one more, which is
    the end. *)
Definition response_events (es : list ResponseEvent) (ended : option ResponseEvent) : Prop :=
  exists cs, es = map Chunk cs ++ match ended with Some e => [e] | None => [] end /\
    match ended with Some (Chunk _) => False | _ => True end.

Lemma fail_request_events mcp page b t :
  sent t = [] ->
  exists ended, response_events (sent (snd (fail_request mcp page b t))) ended /\
    (open t -> exists e, ended = Some e).
Proof.
  intros Ht. unfold fail_request. destruct (discard_rest b) as [b' synced].
  destruct mcp; cbn [snd].
  - destruct (send Abort t) as [t1 ok] eqn:Hs. apply send_spec in Hs as [Hs Ho]. rewrite Ht in Hs. cbn [fst].
    exists (if ok then Some Abort else None). split; [exists []; rewrite Hs; by destruct ok|].
    intros [-> _]%Ho. by eexists.
  - destruct (send (Chunk page) t) as [t1 ok] eqn:Hs. apply send_spec in Hs as [Hs Ho]. rewrite Ht in Hs.
    destruct ok; cbn [negb snd].
    2: { exists None. split; [by exists []|]. by intros [? _]%Ho. }
    destruct (send _ t1) as [t2 ok2] eqn:Hs2. apply send_spec in Hs2 as [Hs2 Ho2]. cbn [fst].
    exists (if ok2 then Some (if synced then Done else Abort) else None). split.
    + exists [page]. rewrite Hs2, Hs. by destruct ok2, synced.
    + intros [_ [-> _]%Ho2]%Ho. by eexists.
Qed.

(** What [relay_response] writes to the channel: the rewritten head, a part
    of what comes behind it, and the end. *)
Lemma relay_response_spec fuel req c r cl ws (w w' : @World N) res :
  length_ok cl -> ok_reader r -> sent (tx w) = [] ->
  relay_response oc fuel req c r cl ws w = (w', res) ->
  exists ended, response_events (sent (tx w')) ended /\
    (exists cs, sent (tx w') = map Chunk cs ++ (match ended with Some e => [e] | None => [] end) /\
       concat cs `prefix_of` Rewrite.builder (core r) ++ arriving r) /\
    (open (tx w) -> res = Some true -> exists e, ended = Some e) /\
    (res <> Some true -> ended = None).
Proof.
  intros Hcl Hr Ht. unfold relay_response.
  set (w0 := record_c2s _ w). change (tx w0) with (tx w). set (out := Rewrite.builder (core r)).
  destruct (send (Chunk out) (tx w)) as [t1 ok] eqn:Hs. apply send_spec in Hs as [Hs Ho]. rewrite Ht in Hs.
  destruct ok; cbn [negb].
  2: { intros [= <- <-]. exists None. cbn. rewrite Hs. split_and!; [by exists []| |by intros [? _]%Ho|done].
       exists []. split; [done|]. apply prefix_nil. }
  cbn in Hs. destruct ws.
  { intros [= <- <-]. change (tx (set_tx t1 w0)) with t1. cbn [tx close_connection set_tx].
    destruct (send Abort t1) as [t2 ok2] eqn:Hs2. apply send_spec in Hs2 as [Hs2 Ho2]. cbn [fst].
    exists (if ok2 then Some Abort else None). rewrite Hs2, Hs. split_and!.
    - exists [out]. by destruct ok2.
    - exists [out]. split; [by destruct ok2|]. cbn. rewrite app_nil_r. by apply prefix_app_r.
    - intros [_ [-> _]%Ho2]%Ho _. by eexists.
    - done. }
  change (tx (set_tx t1 w0)) with t1.
  destruct (transfer_body fuel oc cl r (channel_sink t1)) as [[r' sink] x] eqn:Htb.
  assert (BodyRelay.ok_io (to_io r (channel_sink t1))) as Hrs by exact Hr.
  destruct (transfer_body_moved _ _ _ _ _ _ _ _ Hcl Hrs Htb) as [[k Hm] _].
  destruct (BodyRelay.moved_writes _ _ _ Hm) as (cs & Hws & Hcs & _). cbn in Hws.
  assert (open t1 -> open (after_sink t1 sink)) as Hopen by (intros Hx; exact (BodyRelay.moved_healthy _ _ _ Hm Hx)).
  assert (sent (after_sink t1 sink) = map Chunk (out :: cs)) as Hsent by (cbn; by rewrite Hs, Hws).
  assert (concat (out :: cs) `prefix_of` out ++ arriving r) as Hpre.
  { cbn. apply prefix_app. rewrite Hcs. exists (drop (Z.to_nat k) (arriving r)). symmetry. apply take_drop. }
  set (w1 := set_tx (after_sink t1 sink) _). change (tx w1) with (after_sink t1 sink).
  destruct x as [[n|e|]|].
  - destruct (send Done (after_sink t1 sink)) as [t2 ok2] eqn:Hs2. apply send_spec in Hs2 as [Hs2 Ho2].
    rewrite Hsent in Hs2. intros Hend.
    assert (tx w' = t2 /\ res = Some true) as [-> ->].
    { destruct ok2; cbn [negb] in Hend; [|by injection Hend as <- <-].
      destruct (_ && _ && _); by injection Hend as <- <-. }
    exists (if ok2 then Some Done else None). rewrite Hs2. split_and!.
    + exists (out :: cs). by destruct ok2.
    + exists (out :: cs). split; [by destruct ok2|done].
    + intros [_ [-> _]%Hopen%Ho2]%Ho _. by eexists.
    + done.
  - intros [= <- <-]. cbn [tx close_connection set_tx].
    destruct (send Abort (after_sink t1 sink)) as [t2 ok2] eqn:Hs2. apply send_spec in Hs2 as [Hs2 Ho2].
    rewrite Hsent in Hs2. cbn [fst]. exists (if ok2 then Some Abort else None). rewrite Hs2. split_and!.
    + exists (out :: cs). by destruct ok2.
    + exists (out :: cs). split; [by destruct ok2|done].
    + intros [_ [-> _]%Hopen%Ho2]%Ho _. by eexists.
    + done.
  - intros [= <- <-]. exists None. change (sent (tx (close_connection _ w1))) with (sent (after_sink t1 sink)).
    rewrite Hsent. split_and!; try done.
    + exists (out :: cs). by rewrite app_nil_r.
    + exists (out :: cs). by rewrite app_nil_r.
  - intros [= <- <-]. exists None. change (tx w1) with (after_sink t1 sink). rewrite Hsent. split_and!; try done.
    + exists (out :: cs). by rewrite app_nil_r.
    + exists (out :: cs). by rewrite app_nil_r.
Qed.

(** ** An upstream that answers *)

Definition accepts (c : OwnedUpstream) : Prop :=
  Forall (fun v => v = None) (BodyRelay.verdicts (write_half c)).

Definition response_kind (req : UpstreamRequest) : Rewrite.H1HeadersKind :=
  Rewrite.ResponseHead (Config.heads (req_end_point_info req)).

(** [c] sends, in whatever segments, a response of the first line [first],
    the lines [ls] and the body [body], and [rest] behind it; the head fits
    the buffer, is no switch to a web socket, and its lines are rewritten to
    [out]. *)
Record replies (req : UpstreamRequest) (c : OwnedUpstream) (first : bytes) (ls : list Line)
    (cl : HttpContentLength) (payload : bytes) (n : nat) (rest : bytes) (out : list Line) : Prop := {
  rp_first : one_line first;
  rp_version : verify_http11_first_line first = Ok tt;
  rp_lines : Forall line_ok ls;
  rp_framing : framing ls NoLength = Some cl;
  rp_body : framed (length uninit) cl payload n;
  rp_room : (length (head first ls) <= length uninit)%nat;
  rp_wire : ReadPart.pending (response_read c) = head first ls ++ payload ++ rest;
  rp_rewrite : forall q h, q `prefix_of` payload ++ rest -> parse (head first ls ++ q) = Ok (Some h) ->
    Rewrite.out_lines iter_add h (head first ls ++ q) (response_kind req) (req_connection_info req)
      None None ls = Ok out /\
    Rewrite.is_web_socket_upgrade h (head first ls ++ q) = Ok false
}.

(** The reader behind such a response's head. *)
Lemma replies_head req c first ls cl payload n rest out :
  replies req c first ls cl payload n rest out ->
  exists r1 h k, read_headers (reader_new uninit (response_read c) (worker_timeouts req)) = (r1, Some (Ok h)) /\
    Rewrite.compile_headers iter_add h (response_kind req) (req_connection_info req) None None None (core r1) =
      Ok (k, false) /\
    content_length h = cl /\ Rewrite.builder k = head first out /\
    ok_reader (set_core k r1) /\ capacity (set_core k r1) = length uninit /\
    arriving (set_core k r1) = payload ++ rest.
Proof.
  intros [Hcr Hv Hls Hfr Hb Hroom Hw Hrw].
  destruct (read_headers_complete first ls (payload ++ rest) cl
    (reader_new uninit (response_read c) (worker_timeouts req)))
    as (r1 & q & h & Hrd & Hon & Hq & Hp & Hfe & He & Hc); try done.
  { by apply reader_new_ok. }
  assert (q `prefix_of` payload ++ rest) as Hpre.
  { exists (ReadPart.pending (read_part r1)). apply (app_inv_head (head first ls)).
    rewrite <-Hw, (assoc_L (++)), <-Hq. symmetry. exact (ro_arriving _ _ Hon). }
  destruct (Hrw q h Hpre Hp) as [Hout Hws].
  pose proof (Rewrite.compile_headers_spec iter_add h (response_kind req) (req_connection_info req) None None None
    (core r1) first ls q (proj1 (ro_ok _ _ Hon)) Hq Hls Hfe He) as Hcomp.
  rewrite Hout, Hws in Hcomp. cbn [mbind outcome_bind] in Hcomp.
  assert (look r1 = Ok (Some h)) as Hl.
  { unfold look. rewrite Hq. case_decide as Hd; [|done]. exfalso. apply (f_equal length) in Hd.
    unfold head in Hd. rewrite !length_app in Hd. cbn in Hd. lia. }
  destruct (behind_head r1 h _ (ro_ok _ _ Hon) Hl (compile_headers_buffer _ _ _ _ _ _ _ _ _ _ Hcomp))
    as (Hok & _ & Hcap & Harr).
  eexists r1, h, _. split_and!; [done|exact Hcomp|done|done|exact Hok| |].
  - rewrite Hcap. exact (ro_capacity _ _ Hon).
  - rewrite Harr, (ro_arriving _ _ Hon), He.
    change (arriving (reader_new _ _ _)) with (ReadPart.pending (response_read c)). rewrite Hw. apply drop_app_length.
Qed.

(** An attempt on a connection that takes the request and answers is the
    last one. *)
Lemma deliver_answered fuel attempt req chunks (w : @World N) n c reused first ls cl payload m rest out :
  net_ok (net w) -> pump_ok chunks (body w) -> is_replayable (body w) = true ->
  pool_acquire (req_proxy_pass_to req) (net w) = (n, Ok (c, reused)) ->
  accepts c -> replies req c first ls cl payload m rest out ->
  exists b c' r, deliver (S fuel) attempt req w = (set_body b (set_net n w), Some (Answered c' r cl false)) /\
    total b = Z.of_nat (length (concat chunks)) /\ received c' = req_head req ++ concat chunks /\
    disconnected c' = false /\
    Rewrite.builder (core r) = head first out /\ ok_reader r /\ capacity r = length uninit /\
    arriving r = payload ++ rest.
Proof.
  intros Hnet Hpump Hrep Ha Hacc Hrp.
  destruct (pool_acquire_ok _ _ _ _ Hnet Ha) as [_ Hacq]. destruct (Hacq _ _ eq_refl) as [Hdc Hlog].
  unfold deliver. cbn [Worker.deliver]. rewrite Ha.
  destruct (send_head_bytes (req_head req) c) as [c1 sent1] eqn:Hhead.
  apply send_head_spec in Hhead as (Hr1 & Hd1 & Hrec1 & Hh1); [|done].
  destruct (Hh1 Hdc Hacc) as [-> Hacc1]. cbn [negb].
  destruct (write_request (body (set_net n w)) c1) as [[b c2] ok] eqn:Hwr.
  destruct (write_request_spec chunks _ _ _ _ _ (req_head req) Hpump Hrec1 Hwr)
    as (Hb & Hr2 & Hd2 & _ & _ & Hok & Hh2).
  specialize (Hh2 Hacc1 Hrep) as ->. destruct (Hok eq_refl) as (Hfull & Hrx & _). cbn [negb].
  rewrite Hr2, Hr1.
  destruct (replies_head _ _ _ _ _ _ _ _ _ Hrp) as (r1 & h & k & -> & Hcomp & Hcl & Hbld & Hokr & Hcap & Harr).
  unfold response_kind in Hcomp. rewrite Hcomp, Hcl. eexists b, c2, _. split_and!; try done.
  - destruct Hb as (taken & Hch & Ht & _). by rewrite Ht, Hch, Hrx, app_nil_r.
  - by rewrite Hd2, Hd1.
Qed.

(** The events of a response that was relayed to its end. *)
Definition relayed (first : bytes) (out : list Line) (payload : bytes) (es : list ResponseEvent) : Prop :=
  exists cs, es = Chunk (head first out) :: map Chunk cs ++ [Done] /\ concat cs = payload.

Lemma relay_complete fuel req c r cl (w : @World N) first out payload m rest :
  sent (tx w) = [] -> open (tx w) -> disconnected c = false ->
  Rewrite.builder (core r) = head first out -> ok_reader r -> capacity r = length uninit ->
  arriving r = payload ++ rest -> framed (length uninit) cl payload m -> (m <= fuel)%nat ->
  exists w', relay_response oc fuel req c r cl false w = (w', Some true) /\
    relayed first out payload (sent (tx w')) /\
    recorded_c2s w' = Some (total (body w)) /\ recorded_s2c w' = Some (Z.of_nat (length payload)) /\
    exists c', received c' = received c /\ disconnected c' = false /\
      (closed w' = closed w ++ [c'] /\ net w' = net w /\ (rest <> [] \/ reusable_framing cl = false) \/
       closed w' = closed w /\ net w' = pool_release (req_proxy_pass_to req) c' (net w) /\
       reusable_framing cl = true).
Proof.
  intros Ht Hopen Hd Hb Hr Hcap Harr Hfr Hm. unfold relay_response. cbn [record_c2s tx]. rewrite Hb.
  destruct (send (Chunk (head first out)) (tx w)) as [t1 ok] eqn:Hs. apply send_spec in Hs as [Hs Ho].
  destruct (Ho Hopen) as [-> Ho1]. rewrite Ht in Hs. cbn [negb set_tx tx app] in *.
  rewrite <-Hcap in Hfr.
  destruct (transfer_body_complete fuel oc cl payload m rest r (channel_sink t1) Hfr Hm Hr Ho1 Harr)
    as (r' & sink & Htb & Hmv & Harr').
  rewrite Htb. destruct (BodyRelay.moved_writes _ _ _ Hmv) as (cs & Hws & Hcs & _). cbn in Hws.
  rewrite Nat2Z.id in Hcs. change (BodyRelay.stream (to_io r (channel_sink t1))) with (arriving r) in Hcs.
  rewrite Harr, take_app_length in Hcs.
  assert (open (after_sink t1 sink)) as Ho2 by exact (BodyRelay.moved_healthy _ _ _ Hmv Ho1).
  destruct (send Done (after_sink t1 sink)) as [t2 ok2] eqn:Hs2. apply send_spec in Hs2 as [Hs2 Ho3].
  destruct (Ho3 Ho2) as [-> _]. cbn [negb].
  assert (relayed first out payload (sent t2)) as Hrel.
  { exists cs. rewrite Hs2. cbn. by rewrite Hs, Hws. }
  assert (rest = [] -> nothing_left r' = true) as Hleft.
  { intros ->. unfold nothing_left. rewrite LoopBuffer.get_data_queue by apply (BodyRelay.moved_ok _ _ _ Hmv).
    unfold arriving, BodyRelay.stream in Harr'. apply app_eq_nil in Harr' as [Hq _]. cbn in Hq. by rewrite Hq. }
  destruct (reusable_framing cl && nothing_left r' && negb (disconnected (set_response_read (read_part r') c))) eqn:Hgo;
    eexists; (split; [done|]); cbn [set_net close_connection set_tx record_s2c tx net closed body recorded_c2s recorded_s2c];
    (split_and!; [done|done|done|]); exists (set_response_read (read_part r') c); (split_and!; [done|done|]).
  - right. apply andb_true_iff in Hgo as [[? _]%andb_true_iff _]. by split_and!.
  - left. split_and!; [done|done|]. destruct (reusable_framing cl); [|by right]. left.
    intros Hrest%Hleft. rewrite Hrest in Hgo. cbn in Hgo. by rewrite Hd in Hgo.
Qed.

(** C11: a request is delivered at most twice and never in pieces of two.
    Whatever the connections, the body and the answers: the worker's loop
    ends; every connection it gave up on had received a part of the request,
    from its first byte on and nothing else; together with the answering one
    they are at most two; and the connection whose response is relayed has
    received the whole request and is the only one left open. *)
Theorem request_delivered_at_most_twice req chunks verdicts n :
  net_ok n ->
  exists w d, deliver MAX_DELIVERY_ATTEMPTS 0 req (world_new n chunks verdicts) = (w, Some d) /\
    net_ok (net w) /\
    Forall (fun c => received c `prefix_of` req_head req ++ concat chunks) (closed w) /\
    match d with
    | Answered c _ _ _ =>
        (length (closed w) <= 1)%nat /\ received c = req_head req ++ concat chunks /\ disconnected c = false /\
        total (body w) = Z.of_nat (length (concat chunks)) /\ sent (tx w) = []
    | _ => (length (closed w) <= 2)%nat
    end.
Proof.
  intros Hn.
  destruct (deliver_spec MAX_DELIVERY_ATTEMPTS 0 req chunks (world_new n chunks verdicts)) as
    (w & d & Hd & [Hnet (cs & Hc & Hp & Hl) Hr]); [done|unfold MAX_DELIVERY_ATTEMPTS; lia|done|apply pump_new_ok|].
  destruct d as [d|]; [|done]. exists w, d. cbn in Hc. subst cs. unfold MAX_DELIVERY_ATTEMPTS in Hl.
  split_and!; [done|done|done|]. destruct d as [c r cl ws| |]; cbn in Hl; [|lia|lia].
  destruct Hr as (? & ? & Ht & Hb & Hrx & _). split_and!; [lia|done|done| |by rewrite Ht].
  destruct Hb as (taken & -> & Htot & _). by rewrite Htot, Hrx, app_nil_r.
Qed.

(** What the client writer gets.  For any upstream behaviour the worker
    sends chunks and then at most one more event, the end of the response;
    when the channel stays open and the task does not panic that end is
    always sent, so no request is left without an answer. *)
Theorem every_request_is_ended fuel req chunks verdicts n w ok :
  net_ok n ->
  run_upstream_request iter_add APP_VERSION uninit oc fuel req (world_new n chunks verdicts) = (w, Some ok) ->
  exists cs ended, sent (tx w) = map Chunk cs ++ (match ended with Some e => [e] | None => [] end) /\
    ended ∈ [None; Some Done; Some Abort] /\
    (ok = true -> Forall (fun v => v = None) verdicts -> ended <> None).
Proof.
  intros Hn Hrun. unfold run_upstream_request in Hrun.
  destruct (deliver_spec MAX_DELIVERY_ATTEMPTS 0 req chunks (world_new n chunks verdicts)) as
    (w1 & d & Hd & [_ _ Hr]); [done|unfold MAX_DELIVERY_ATTEMPTS; lia|done|apply pump_new_ok|].
  unfold deliver in Hd. rewrite Hd in Hrun. clear Hd.
  (* an end is Done or Abort *)
  assert (forall t ended, response_events (sent t) ended ->
    (ok = true -> Forall (fun v => v = None) verdicts -> exists e, ended = Some e) ->
    exists cs ended, sent t = map Chunk cs ++ (match ended with Some e => [e] | None => [] end) /\
      ended ∈ [None; Some Done; Some Abort] /\
      (ok = true -> Forall (fun v => v = None) verdicts -> ended <> None)) as Hfin.
  { intros t ended (cs & Hs & He) Hall. exists cs, ended. split_and!; [done|destruct ended as [[]|]; set_solver|].
    intros Hx Hv. by destruct (Hall Hx Hv) as [e ->]. }
  destruct d as [[c r cl ws| |]|]; try done.
  - destruct Hr as (_ & _ & Ht & _ & _ & r1 & h & k & Hread & Hcomp & -> & ->).
    destruct (read_headers_spec (S (ReadPart.size (response_read c)))
      (reader_new uninit (response_read c) (worker_timeouts req))) as (r2 & res & Hread2 & Hon & Hl);
      [cbn; lia|by apply reader_new_ok|].
    unfold read_headers in Hread. cbn [read_part reader_new] in *. rewrite Hread in Hread2.
    injection Hread2 as <- <-. cbn in Hl.
    destruct (behind_head r1 h k (ro_ok _ _ Hon) Hl (compile_headers_buffer _ _ _ _ _ _ _ _ _ _ Hcomp))
      as (Hok & Hlen & _).
    destruct (relay_response_spec _ _ _ _ _ _ _ _ _ Hlen Hok ltac:(by rewrite Ht) Hrun) as (ended & Hev & _ & He & _).
    apply (Hfin _ _ Hev). intros -> Hv. apply He; [|done]. rewrite Ht. exact Hv.
  - injection Hrun as <- <-. destruct Hr as (page & b & _ & Ht).
    destruct (fail_request_events (Config.is_mcp (req_proxy_pass_to req)) page b
      (tx (world_new n chunks verdicts)) eq_refl) as (ended & Hev & He).
    rewrite <-Ht in Hev. apply (Hfin _ _ Hev). intros _ Hv. exact (He Hv).
  - injection Hrun as <- <-. rewrite Hr. exists [], None. split_and!; [done|set_solver|done].
Qed.

(** C12: a healthy exchange completes.  Suppose the connection handed out
    takes every write and sends, in whatever segments, an HTTP/1.1 head that
    fits the buffer, whose header lines are rewritten without an error and are
    no switch to a web socket, and then a body of one of these kinds: one of
    the announced Content-Length; chunks with size lines of at most 15
    hexadecimal digits and no extension, up to the two bytes behind the line
    of the last chunk (all that is taken of a trailer); or no body, without a
    length (a body that ends with the connection counts as bytes behind the
    response, and is not relayed).  Suppose further that the client's channel
    stays open.  Then the client gets exactly the rewritten head, that body
    byte for byte, and the end; the upstream has received exactly the request;
    both directions are counted; and the connection is given back to the pool
    when the response was framed and nothing came behind it. *)
Theorem healthy_exchange_completes fuel req chunks verdicts n n1 c reused first ls cl payload m rest out :
  net_ok n -> pool_acquire (req_proxy_pass_to req) n = (n1, Ok (c, reused)) ->
  accepts c -> replies req c first ls cl payload m rest out ->
  Forall (fun v => v = None) verdicts -> (m <= fuel)%nat ->
  exists w c', run_upstream_request iter_add APP_VERSION uninit oc fuel req (world_new n chunks verdicts) = (w, Some true) /\
    relayed first out payload (sent (tx w)) /\
    received c' = req_head req ++ concat chunks /\
    recorded_c2s w = Some (Z.of_nat (length (concat chunks))) /\ recorded_s2c w = Some (Z.of_nat (length payload)) /\
    (rest = [] -> reusable_framing cl = true ->
     closed w = [] /\ net w = pool_release (req_proxy_pass_to req) c' n1).
Proof.
  intros Hn Ha Hacc Hrp Hv Hm.
  destruct (deliver_answered 1 0 req chunks (world_new n chunks verdicts) n1 c reused first ls cl payload m rest out)
    as (b & c1 & r & Hd & Htot & Hrec & Hdc & Hb & Hr & Hcap & Harr); try done; [apply pump_new_ok|].
  destruct (relay_complete fuel req c1 r cl (set_body b (set_net n1 (world_new n chunks verdicts))) first out payload m rest)
    as (w & Hrl & Hrel & Hc2s & Hs2c & c' & Hrec' & _ & Hend); try done; [by destruct Hrp|].
  exists w, c'. unfold run_upstream_request. unfold deliver in Hd. unfold MAX_DELIVERY_ATTEMPTS. rewrite Hd, Hrl.
  split_and!; try done; [by rewrite Hrec'|cbn in Hc2s; by rewrite Hc2s, Htot|].
  intros -> Hre. destruct Hend as [(_ & _ & [?|?])|(? & ? & _)]; [done|congruence|done].
Qed.

(** A body within the replay window is remembered whole. *)
Lemma stream_chunks_remembers chunks : forall x comp tot c b c' ok,
  Z.of_nat (length (x ++ concat chunks)) <= REPLAY_WINDOW ->
  stream_chunks chunks (Some x) comp tot c = (b, c', ok) -> is_replayable b = true.
Proof.
  induction chunks as [|y chunks IH]; intros x comp tot c b c' ok Hl; cbn [stream_chunks concat] in *.
  - by intros [= <- _ _].
  - rewrite !length_app in Hl. destruct (upstream_write y c) as [c1 r].
    assert (remember y (Some x) = Some (x ++ y)) as ->.
    { unfold remember. case_match; [lia|done]. }
    destruct (is_ok r); [|by intros [= <- _ _]].
    apply IH. rewrite !length_app. lia.
Qed.

(** [c] takes the request and ends without an HTTP head. *)
Record mute (req : UpstreamRequest) (c : OwnedUpstream) : Prop := {
  mu_room : (length (ReadPart.pending (response_read c)) < length uninit)%nat;
  mu_silent : forall q t, q ++ t = ReadPart.pending (response_read c) -> q <> [] -> parse q = Ok None;
  mu_end : is_timeout (end_error (fst (worker_timeouts req)) (response_read c)) = false
}.

(** A reused connection of that kind leads to another attempt. *)
Lemma deliver_stale fuel req chunks (w : @World N) n c :
  net_ok (net w) -> body w = pump_new chunks -> Z.of_nat (length (concat chunks)) <= REPLAY_WINDOW ->
  pool_acquire (req_proxy_pass_to req) (net w) = (n, Ok (c, true)) -> accepts c -> mute req c ->
  exists b c', deliver (S fuel) 0 req w = deliver fuel 1 req (close_connection c' (set_body b (set_net n w))) /\
    pump_ok chunks b /\ is_replayable b = true /\ received c' = req_head req ++ concat chunks.
Proof.
  intros Hn Hbody Hsmall Ha Hacc [Hroom Hsil Hend].
  destruct (pool_acquire_ok _ _ _ _ Hn Ha) as [_ Hacq]. destruct (Hacq _ _ eq_refl) as [Hdc Hlog].
  unfold deliver. cbn [Worker.deliver]. fold deliver. rewrite Ha.
  destruct (send_head_bytes (req_head req) c) as [d1 sent1] eqn:Hhead.
  apply send_head_spec in Hhead as (Hr1 & Hd1 & Hrec1 & Hh1); [|done].
  destruct (Hh1 Hdc Hacc) as [-> Hacc1]. cbn [negb].
  change (body (set_net n w)) with (body w). rewrite Hbody.
  destruct (write_request (pump_new chunks) d1) as [[b d2] ok] eqn:Hwr.
  destruct (write_request_spec chunks _ _ _ _ _ (req_head req) (pump_new_ok chunks) Hrec1 Hwr)
    as (Hb & Hr2 & _ & _ & _ & Hok & Hh2).
  specialize (Hh2 Hacc1 eq_refl) as ->. destruct (Hok eq_refl) as (Hfull & _ & _). cbn [negb]. rewrite Hr2, Hr1.
  destruct (read_headers (reader_new uninit (response_read c) (worker_timeouts req))) as [r1 res] eqn:Hread.
  pose proof (no_head_is_a_transport_error (reader_new uninit (response_read c) (worker_timeouts req))
    (reader_new_ok _ _ _ Huninit) Hroom Hsil) as Hnet. rewrite Hread in Hnet. cbn [snd] in Hnet. subst res.
  assert (is_replayable b = true) as Hrep by exact (stream_chunks_remembers chunks [] _ _ _ _ _ _ Hsmall Hwr).
  exists b, (set_disconnected d2). split_and!; try done.
  change (body (close_connection _ _)) with b. cbn [is_stale_connection timeouts reader_new read_part].
  by rewrite Hrep, Hend.
Qed.

(** A pooled connection that turns out to be dead is invisible to the
    client.  When a reused connection takes the request, of a body within the
    replay window, and then ends without a response head, whether it is
    closed or sends something that is no HTTP, the request is written once
    more and the second connection's response is the one the client gets.
    The first upstream has received the whole request too: nothing tells it
    from one that processed it. *)
Theorem stale_connection_is_replayed fuel req chunks verdicts n n1 n2 c1 c2 reused first ls cl payload m rest out :
  net_ok n -> Z.of_nat (length (concat chunks)) <= REPLAY_WINDOW ->
  pool_acquire (req_proxy_pass_to req) n = (n1, Ok (c1, true)) -> accepts c1 -> mute req c1 ->
  pool_acquire (req_proxy_pass_to req) n1 = (n2, Ok (c2, reused)) -> accepts c2 ->
  replies req c2 first ls cl payload m rest out ->
  Forall (fun v => v = None) verdicts -> (m <= fuel)%nat ->
  exists w c1' c2' more,
    run_upstream_request iter_add APP_VERSION uninit oc fuel req (world_new n chunks verdicts) = (w, Some true) /\
    relayed first out payload (sent (tx w)) /\
    closed w = c1' :: more /\
    received c1' = req_head req ++ concat chunks /\ received c2' = req_head req ++ concat chunks /\
    (rest = [] -> reusable_framing cl = true ->
     more = [] /\ net w = pool_release (req_proxy_pass_to req) c2' n2).
Proof.
  intros Hn Hsmall Ha1 Hacc1 Hmute Ha2 Hacc2 Hrp Hv Hm.
  destruct (pool_acquire_ok _ _ _ _ Hn Ha1) as [Hn1 _].
  destruct (deliver_stale 1 req chunks (world_new n chunks verdicts) n1 c1)
    as (b & c1' & Hd1 & Hb & Hrep & Hrec1); try done.
  set (w1 := close_connection _ _) in Hd1.
  destruct (deliver_answered 0 1 req chunks w1 n2 c2 reused first ls cl payload m rest out)
    as (b' & c' & r & Hd & _ & Hrec & Hdc' & Hbld & Hr & Hcap & Harr); try done.
  destruct (relay_complete fuel req c' r cl (set_body b' (set_net n2 w1)) first out payload m rest)
    as (w & Hrl & Hrel & _ & _ & c2' & Hrec2 & _ & Hend); try done; [by destruct Hrp|].
  assert (run_upstream_request iter_add APP_VERSION uninit oc fuel req (world_new n chunks verdicts) = (w, Some true)) as Hrun.
  { unfold run_upstream_request, MAX_DELIVERY_ATTEMPTS. unfold deliver in Hd1, Hd. by rewrite Hd1, Hd. }
  exists w, c1', c2'. rewrite Hrec2.
  destruct Hend as [(Hc & Hnw & Hwhy)|(Hc & Hnw & _)].
  - exists [c2']. split_and!; try done. intros Hrest Hre. destruct Hwhy; [done|congruence].
  - exists []. by split_and!.
Qed.

(** A response without a length is cut.  Where the upstream sends
    neither Content-Length nor Transfer-Encoding, its body is what it sends
    until it closes the connection; the client gets the head, and the end
    right behind it, whatever the body was. *)
Theorem close_delimited_body_is_lost fuel req chunks verdicts n n1 c reused first ls rest out :
  net_ok n -> pool_acquire (req_proxy_pass_to req) n = (n1, Ok (c, reused)) ->
  accepts c -> replies req c first ls NoLength [] 0 rest out ->
  Forall (fun v => v = None) verdicts ->
  exists w, run_upstream_request iter_add APP_VERSION uninit oc fuel req (world_new n chunks verdicts) = (w, Some true) /\
    relayed first out [] (sent (tx w)) /\ recorded_s2c w = Some 0.
Proof.
  intros Hn Ha Hacc Hrp Hv.
  destruct (deliver_answered 1 0 req chunks (world_new n chunks verdicts) n1 c reused first ls NoLength [] 0 rest out)
    as (b & c1 & r & Hd & _ & _ & Hdc & Hb & Hr & Hcap & Harr); try done; [apply pump_new_ok|].
  destruct (relay_complete fuel req c1 r NoLength (set_body b (set_net n1 (world_new n chunks verdicts))) first out [] 0 rest)
    as (w & Hrl & Hrel & _ & Hs2c & _); try done; [by destruct Hrp|lia|].
  exists w. unfold run_upstream_request. unfold deliver in Hd. unfold MAX_DELIVERY_ATTEMPTS. by rewrite Hd, Hrl.
Qed.

End Proofs.

(** ** Witnesses: a request whose pooled connection is dead *)

#[local] Existing Instance reference_slice_ext.
#[local] Existing Instance H1.reference_h1_libs.
#[local] Existing Instance Rewrite.demo_libs.
#[local] Existing Instance Config.text_endpoints.

Definition demo_request : UpstreamRequest :=
  {| req_proxy_pass_to := demo_upstream; req_end_point_info := Config.demo_vhost Config.LHttps1;
     req_connection_info := Rewrite.demo_conn; req_head := Rewrite.demo_head |}.

Definition demo_status : bytes := bs "HTTP/1.1 200 OK".
Definition demo_response_lines : list Line := [Rewrite.own_line (bs "Content-Length") (bs "2")].
Definition demo_uninit : bytes := replicate 100 Byte.x00.

Definition demo_connection (s : ReadPart.source) : OwnedUpstream :=
  {| connection_id := 0; write_half := {| BodyRelay.writes := []; BodyRelay.verdicts := [] |};
     response_read := s; disconnected := false |}.

(** A response in two segments, cut inside the head. *)
Definition demo_segments (ls : list Line) (payload : bytes) : ReadPart.source :=
  [ReadPart.Data (take 9 (head demo_status ls)); ReadPart.Data (drop 9 (head demo_status ls) ++ payload); ReadPart.Eof].

Definition demo_out (ls : list Line) : list Line :=
  match Rewrite.out_lines map_to_list (start_state []) [] (response_kind demo_request) Rewrite.demo_conn None None ls with
  | Ok out => out
  | _ => []
  end.

Definition fresh_net (s : ReadPart.source) : Net :=
  {| holder := new_global 1; dials := [Ok ([], s)]; next_id := 7 |}.

Definition stale_net (s : ReadPart.source) : Net :=
  {| holder := set_idle (Config.connection_key demo_upstream) [demo_connection [ReadPart.Eof]] (new_global 1);
     dials := [Ok ([], s)]; next_id := 7 |}.

Lemma fresh_net_ok s : net_ok (fresh_net s).
Proof. intros k. unfold idle. cbn. rewrite lookup_empty. constructor. Qed.

Lemma stale_net_ok s : net_ok (stale_net s).
Proof.
  intros k. unfold idle, stale_net, set_idle. cbn [holder pools new_global].
  destruct (decide (k = Config.connection_key demo_upstream)) as [->|Hne].
  - rewrite lookup_insert_eq. cbn. by apply Forall_singleton.
  - rewrite lookup_insert_ne, lookup_empty by done. constructor.
Qed.

Lemma demo_replies ls cl payload m rest c :
  Forall line_ok ls -> framing ls NoLength = Some cl -> framed (length demo_uninit) cl payload m ->
  ReadPart.pending (response_read c) = head demo_status ls ++ payload ++ rest ->
  (length (head demo_status ls) <= length demo_uninit)%nat ->
  forallb (fun n => match parse (head demo_status ls ++ take n (payload ++ rest)) with
                    | Ok (Some h) => match upgrade_value h with None => true | _ => false end
                    | _ => true end) (seq 0 (S (length (payload ++ rest)))) = true ->
  replies map_to_list demo_uninit demo_request c demo_status ls cl payload m rest (demo_out ls).
Proof.
  intros Hls Hfr Hb Hw Hroom Hup. split; try done.
  - apply no_cr_one_line, not_in_dec. vm_compute. reflexivity.
  - intros q h [t Hq] Hp. rewrite forallb_forall in Hup. specialize (Hup (length q)).
    rewrite Hq, take_app_length, Hp in Hup. split.
    + assert (forall h' data, Rewrite.added_lines h' data Rewrite.demo_conn None
        (map_to_list (Rewrite.add_headers (Rewrite.modify_headers (response_kind demo_request)))) = Ok []) as Hadd
        by (intros; vm_compute; reflexivity).
      unfold demo_out, Rewrite.out_lines. cbn [req_connection_info demo_request]. rewrite !Hadd.
      destruct (Rewrite.country_lines _ _) as [ctry| |] eqn:Hc; [done|vm_compute in Hc; discriminate..].
    + unfold Rewrite.is_web_socket_upgrade. destruct (upgrade_value h); [|done].
      discriminate Hup. apply in_seq. rewrite length_app. lia.
Qed.

Lemma demo_response_lines_ok : Forall line_ok demo_response_lines.
Proof. apply Forall_singleton, Rewrite.own_line_text; vm_compute; reflexivity. Qed.

Lemma demo_reply c :
  response_read c = demo_segments demo_response_lines (bs "ok") ->
  replies map_to_list demo_uninit demo_request c demo_status demo_response_lines (Known 2) (bs "ok") 0 []
    (demo_out demo_response_lines).
Proof.
  intros Hc. apply demo_replies; [exact demo_response_lines_ok|vm_compute; reflexivity| | | |].
  - exact (framed_known _ (bs "ok")).
  - rewrite Hc. vm_compute. reflexivity.
  - vm_compute. lia.
  - vm_compute. reflexivity.
Qed.

Lemma request_delivered_at_most_twice_witness :
  exists w d, deliver map_to_list (bs "1") demo_uninit MAX_DELIVERY_ATTEMPTS 0 demo_request
      (world_new (fresh_net []) [bs "abc"] []) = (w, Some d) /\ net_ok (net w).
Proof.
  destruct (request_delivered_at_most_twice map_to_list (bs "1") demo_uninit ltac:(vm_compute; lia)
    demo_request [bs "abc"] [] (fresh_net []) (fresh_net_ok [])) as (w & d & Hd & Hn & _).
  exists w, d. split; [exact Hd|exact Hn].
Defined.

Lemma every_request_is_ended_witness :
  exists cs ended, sent (tx (fst (run_upstream_request map_to_list (bs "1") demo_uninit true 0 demo_request
      (world_new (fresh_net [ReadPart.Eof]) [bs "abc"] [])))) = map Chunk cs ++ [ended] /\
    Some ended ∈ [Some Done; Some Abort].
Proof.
  destruct (every_request_is_ended map_to_list (bs "1") demo_uninit true ltac:(vm_compute; lia) 0 demo_request
    [bs "abc"] [] (fresh_net [ReadPart.Eof])
    (fst (run_upstream_request map_to_list (bs "1") demo_uninit true 0 demo_request
      (world_new (fresh_net [ReadPart.Eof]) [bs "abc"] []))) true (fresh_net_ok _))
    as (cs & ended & Hs & He & Hall).
  - vm_compute. reflexivity.
  - destruct ended as [e|]; [|by destruct (Hall eq_refl (Forall_nil_2 _))].
    exists cs, e. split; [exact Hs|]. clear -He. set_solver.
Defined.

Lemma healthy_exchange_completes_witness :
  exists w, run_upstream_request map_to_list (bs "1") demo_uninit true 0 demo_request
      (world_new (fresh_net (demo_segments demo_response_lines (bs "ok"))) [bs "abc"] []) = (w, Some true) /\
    relayed demo_status (demo_out demo_response_lines) (bs "ok") (sent (tx w)) /\ closed w = [].
Proof.
  destruct (healthy_exchange_completes map_to_list (bs "1") demo_uninit true ltac:(vm_compute; lia) 0 demo_request
    [bs "abc"] [] (fresh_net (demo_segments demo_response_lines (bs "ok"))) _ _ _ demo_status demo_response_lines
    (Known 2) (bs "ok") 0 [] (demo_out demo_response_lines) (fresh_net_ok _) eq_refl)
    as (w & c' & Hrun & Hrel & _ & _ & _ & Hend).
  - constructor.
  - apply demo_reply. reflexivity.
  - constructor.
  - lia.
  - exists w. split; [exact Hrun|]. split; [exact Hrel|]. exact (proj1 (Hend eq_refl eq_refl)).
Defined.

Lemma stale_connection_is_replayed_witness :
  exists w c1 more, run_upstream_request map_to_list (bs "1") demo_uninit true 0 demo_request
      (world_new (stale_net (demo_segments demo_response_lines (bs "ok"))) [bs "abc"] []) = (w, Some true) /\
    relayed demo_status (demo_out demo_response_lines) (bs "ok") (sent (tx w)) /\
    closed w = c1 :: more /\ received c1 = Rewrite.demo_head ++ bs "abc".
Proof.
  destruct (stale_connection_is_replayed map_to_list (bs "1") demo_uninit true ltac:(vm_compute; lia) 0 demo_request
    [bs "abc"] [] (stale_net (demo_segments demo_response_lines (bs "ok")))
    (fst (acquire demo_upstream (stale_net (demo_segments demo_response_lines (bs "ok")))))
    (fst (acquire demo_upstream (fst (acquire demo_upstream (stale_net (demo_segments demo_response_lines (bs "ok")))))))
    (demo_connection [ReadPart.Eof])
    {| connection_id := 7; write_half := {| BodyRelay.writes := []; BodyRelay.verdicts := [] |};
       response_read := demo_segments demo_response_lines (bs "ok"); disconnected := false |} false
    demo_status demo_response_lines (Known 2) (bs "ok") 0 [] (demo_out demo_response_lines) (stale_net_ok _))
    as (w & c1 & c2 & more & Hrun & Hrel & Hc & Hr1 & _).
  - vm_compute. discriminate.
  - vm_compute. reflexivity.
  - constructor.
  - split; [vm_compute; lia| |vm_compute; reflexivity]. intros [|] t Hq; [done|discriminate Hq].
  - vm_compute. reflexivity.
  - constructor.
  - apply demo_reply. reflexivity.
  - constructor.
  - lia.
  - exists w, c1, more. split; [exact Hrun|]. split; [exact Hrel|]. split; [exact Hc|exact Hr1].
Defined.

Lemma close_delimited_body_is_lost_witness :
  exists w, run_upstream_request map_to_list (bs "1") demo_uninit true 0 demo_request
      (world_new (fresh_net (demo_segments [] (bs "page"))) [] []) = (w, Some true) /\
    relayed demo_status (demo_out []) [] (sent (tx w)).
Proof.
  destruct (close_delimited_body_is_lost map_to_list (bs "1") demo_uninit true ltac:(vm_compute; lia) 0 demo_request
    [] [] (fresh_net (demo_segments [] (bs "page"))) _ _ _ demo_status [] (bs "page") (demo_out [])
    (fresh_net_ok _) eq_refl) as (w & Hrun & Hrel & _).
  - constructor.
  - apply demo_replies; [constructor|reflexivity|constructor|reflexivity|vm_compute; lia|vm_compute; reflexivity].
  - constructor.
  - exists w. split; [exact Hrun|exact Hrel].
Defined.

End Worker.
