(* ===== verification/GoogleAuth.v ===== *)
(** * Google sign-in: [google_auth/], [configurations/google_auth_credentials.rs],
      [types/email.rs], [types/http_request_reader.rs], [utils.rs]

    An endpoint with a Google block serves a request when its cookie is a
    sealed token naming an address of an allowed domain; otherwise it answers
    with the sign-in page.  Google redirects back to [/authorized] with a
    code, which the proxy exchanges for the address and seals into the
    cookie. *)

From Stdlib Require Import ZArith Lia Strings.Byte.
From stdpp Require Import base tactics list gmap strings.
From S2P Require Import Prelude RustStd H1Headers H1Rewrite OAuthServer.

Local Open Scope Z_scope.

(** [token.rs]: the sealed message. *)
Record AuthToken := { email : bytes; expires : Z }.

(** [resolve_email.rs]: the form sent to Google. *)
Record GetData := {
  code : bytes;
  client_id : bytes;
  client_secret : bytes;
  redirect_uri : bytes;
  grant_type : bytes
}.

(** Libraries outside this repository: the AES box and its base 64 text, the
    protobuf codec, the clock, string comparison, URL decoding, and the two
    HTTP exchanges with Google with the JSON parser for their bodies ([None]
    is a failure). *)
Class GoogleLibs := {
  aes_encrypt : bytes -> bytes -> bytes;
  aes_decrypt : bytes -> bytes -> option bytes;
  as_base_64 : bytes -> bytes;
  from_base_64 : bytes -> option bytes;
  prost_encode : AuthToken -> bytes;
  prost_decode : bytes -> option AuthToken;
  date_add : Z -> Z -> Z;
  compare_strings_case_insensitive : bytes -> bytes -> bool;
  decode_from_url_string : bytes -> bytes;
  post_token : GetData -> option bytes;
  parse_oauth_response : bytes -> option (option bytes);
  get_userinfo : bytes -> option bytes;
  parse_user_info : bytes -> option (option bytes);
  aes_roundtrip : forall k m, aes_decrypt k (aes_encrypt k m) = Some m;
  base_64_roundtrip : forall m, from_base_64 (as_base_64 m) = Some m;
  base_64_text : forall m, Forall (fun b => u8 b < 128 /\ b <> Byte.x3b) (as_base_64 m);
  prost_roundtrip : forall t, prost_decode (prost_encode t) = Some t;
  date_add_spec : forall t d, in_i64 t -> 0 <= d -> in_i64 (t + Duration.as_micros d) ->
    date_add t d = t + Duration.as_micros d;
  compare_strings_ascii : forall a b,
    Forall (fun c => u8 c < 128) a -> Forall (fun c => u8 c < 128) b ->
    compare_strings_case_insensitive a b = Str.eq_ignore_ascii_case a b
}.

(** [HttpRequestReader], the view of a request that both servers implement. *)
Record HttpRequestReader := {
  get_cookie : bytes -> outcome bytes (option bytes);
  get_query_string : outcome bytes (option bytes);
  get_host : outcome bytes (option bytes);
  get_path : outcome bytes bytes
}.

Module Google.

Definition AUTHORIZED_PATH : bytes := bs "/authorized".
Definition LOGOUT_PATH : bytes := bs "/logout".
Definition AUTHORIZED_COOKIE_NAME : bytes := bs "x-authorized".
Definition SEMICOLON : byte := Byte.x3b.
Definition EQUALS : byte := Byte.x3d.
Definition AMPERSAND : byte := Byte.x26.
Definition QUESTION : byte := Byte.x3f.
Definition AT : byte := Byte.x40.
Definition COMMA : byte := Byte.x2c.

(** ** [utils::get_cookie] *)

Fixpoint find_cookie (items : list bytes) (cookie_name : bytes) : option bytes :=
  match items with
  | [] => None
  | itm :: items =>
      match Str.find EQUALS itm with
      | Some eq_index =>
          if decide (Str.trim (take eq_index itm) = cookie_name) then Some (drop (S eq_index) itm)
          else find_cookie items cookie_name
      | None => find_cookie items cookie_name
      end
  end.

Definition cookie_of (cookie_string cookie_name : bytes) : option bytes :=
  find_cookie (Str.split SEMICOLON cookie_string) cookie_name.

(** ** [Email] *)

Definition get_domain (e : bytes) : option bytes := index ← Str.find AT e; Some (drop (S index) e).

(** ** [GoogleAuthCredentials] *)

Record GoogleAuthCredentials := {
  cred_client_id : bytes;
  cred_client_secret : bytes;
  whitelisted_domains : bytes
}.

(** [GoogleAuthCredentialsList] *)
Definition GoogleAuthCredentialsList : Type := gmap bytes GoogleAuthCredentials.

Definition add_or_update (key : bytes) (item : GoogleAuthCredentials) (l : GoogleAuthCredentialsList) :
    GoogleAuthCredentialsList := <[key := item]> l.

Definition has_credentials (key : bytes) (l : GoogleAuthCredentialsList) : bool :=
  match l !! key with Some _ => true | None => false end.

Inductive GoogleAuthOkResult :=
  | Passed (e : bytes)
  | SetToken (e : bytes)
  | ShowLoginPage (c : GoogleAuthCredentials).

Inductive GoogleAuthError :=
  | ShowLogoutPage
  | EmailDomainIsNotAuthorized
  | ShowEmailDomainIsNotAuthorizedPage
  | ShowUserAuthenticatedPage (e : bytes)
  | ShowError (text : bytes).

(** [HttpHeadersReader], on the request in the buffer. *)
Section HeadersReader.
Context `{SliceOfU8Ext}.
Import H1.

Definition reader_cookie (h : Http1Headers) (payload cookie_name : bytes) : outcome bytes (option bytes) :=
  match cookie_value h with
  | None => Ok None
  | Some p => s ← slice payload (start p) (pos_end p); Ok (cookie_of s cookie_name)
  end.

Definition reader_query_string (payload : bytes) : outcome bytes (option bytes) :=
  path_and_query ← Rewrite.reader_path_and_query payload;
  match Str.find QUESTION path_and_query with
  | Some index => Ok (Some (drop (S index) path_and_query))
  | None => Ok None
  end.

Definition reader_path (payload : bytes) : outcome bytes bytes :=
  path_and_query ← Rewrite.reader_path_and_query payload;
  match Str.find QUESTION path_and_query with
  | Some index => Ok (take index path_and_query)
  | None => Ok path_and_query
  end.

Definition headers_reader (h : Http1Headers) (payload : bytes) : HttpRequestReader :=
  {| get_cookie := reader_cookie h payload;
     get_query_string := reader_query_string payload;
     get_host := Rewrite.reader_host h payload;
     get_path := reader_path payload |}.

End HeadersReader.

Definition generate_redirect_url (req : HttpRequestReader) : outcome bytes bytes :=
  host ← get_host req; Ok (default [] host ++ AUTHORIZED_PATH).

(** ** The pages *)

Definition generate_with_template (my_content : bytes) : bytes :=
  OAuth.html "<html><head><title>Authentication</title>
        <link href=`https://cdn.jsdelivr.net/npm/bootstrap@5.3.3/dist/css/bootstrap.min.css` rel=`stylesheet` integrity=`sha384-QWTKZyjpPEjISv5WaRU9OFeRpok6YctnYmDr5pNlyT2bRjXh0JMhjY6hW+ALEwIH` crossorigin=`anonymous`>
        <style>
        #main {
            --total-width: 100vw;
            --total-height: 100vh;
            text-align: center;
            width: 100%;
            height: 100vh;
        }
        </style>
        </head><body>
        <table id=`main`>
        <tr>
        <td>
        "
  ++ my_content ++
  OAuth.html "
        </td>
        </tr>
        </table>
        
        </body>
        <script>
        </script>
        </html>".

Definition generate_authenticated_user (req : HttpRequestReader) (e : bytes) : outcome bytes bytes :=
  host ← get_host req;
  Ok (generate_with_template
    (OAuth.html "<h2>Authenticated user: " ++ e ++
     OAuth.html "</h2><a class=`btn btn-primary` href=`https://" ++ default [] host ++
     OAuth.html "`>Ok</a>")).

Definition generate_login_page (req : HttpRequestReader) (settings : GoogleAuthCredentials) : outcome bytes bytes :=
  redirect ← generate_redirect_url req;
  Ok (generate_with_template
    (OAuth.html "<a class=`btn btn-primary` href=`https://accounts.google.com/o/oauth2/v2/auth?scope=openid%20email&access_type=offline&include_granted_scopes=true&response_type=code&state=state_parameter_passthrough_value&redirect_uri=https%3A//" ++ redirect ++
     OAuth.html "&client_id=" ++ cred_client_id settings ++
     OAuth.html "`>Sign in with Google</a>")).

Definition generate_logout_page (req : HttpRequestReader) (text : bytes) : outcome bytes bytes :=
  host ← get_host req;
  Ok (generate_with_template
    (OAuth.html "<h2>" ++ text ++
     OAuth.html "</h2><a class=`btn btn-primary` href=`https://" ++ default [] host ++
     OAuth.html "`>Ok</a>
            <script>
            var cookies = document.cookie.split(`;`);

            for (let i = 0; i < cookies.length; i++) {
                var cookie = cookies[i];
                var eqPos = cookie.indexOf(`=`);
                var name = eqPos > -1 ? cookie.substr(0, eqPos) : cookie;
                document.cookie = name + `=;expires=Thu, 01 Jan 1970 00:00:00 GMT`;
            }
            </script>
            
            ")).

Section Auth.
Context `{GoogleLibs} (token_secret_key : bytes).

Definition domain_is_allowed (c : GoogleAuthCredentials) (e : bytes) : bool :=
  if decide (whitelisted_domains c = bs "*") then true
  else
    match get_domain e with
    | None => false
    | Some email_domain =>
        let separator := if Str.contains COMMA (whitelisted_domains c) then COMMA else SEMICOLON in
        existsb (fun d => compare_strings_case_insensitive (Str.trim d) email_domain)
          (Str.split separator (whitelisted_domains c))
    end.

(** ** [token] *)

Definition generate (now : Z) (e : bytes) : bytes :=
  let auth_token := {| email := e; expires := date_add now (Duration.from_secs (60 * 60 * 24)) |} in
  as_base_64 (aes_encrypt token_secret_key (prost_encode auth_token)).

Definition resolve (now : Z) (token_str : bytes) : option bytes :=
  aes ← from_base_64 token_str;
  token ← aes_decrypt token_secret_key aes;
  result ← prost_decode token;
  if expires result <? now then None else Some (email result).

(** ** Request parameters *)

Fixpoint find_param (items : list bytes) (param : bytes) : option bytes :=
  match items with
  | [] => None
  | itm :: items =>
      match Str.split EQUALS itm with
      | l :: r :: _ =>
          if decide (Str.trim l = param) then Some (decode_from_url_string (Str.trim r))
          else find_param items param
      | _ => find_param items param
      end
  end.

Definition get_query_string_param (req : HttpRequestReader) (param : bytes) : outcome bytes (option bytes) :=
  query ← get_query_string req;
  Ok (q ← query; find_param (Str.split AMPERSAND q) param).

Definition get_authorization_token (req : HttpRequestReader) : outcome bytes (option bytes) :=
  get_cookie req AUTHORIZED_COOKIE_NAME.

(** ** [resolve_email]: [unwrap] panics on a failed exchange or a body that
    is not the expected JSON; with [debug] the bodies are printed as UTF-8. *)
Definition resolve_email (req : HttpRequestReader) (auth_code : bytes) (settings : GoogleAuthCredentials)
    (debug : bool) : outcome bytes bytes :=
  redirect ← generate_redirect_url req;
  let json_data :=
    {| code := auth_code; client_id := cred_client_id settings; client_secret := cred_client_secret settings;
       redirect_uri := bs "https://" ++ redirect; grant_type := bs "authorization_code" |} in
  response ← unwrap (post_token json_data);
  _ ← (if debug then unwrap (Utf8.from_utf8 response) else Ok response);
  access_token ← unwrap (parse_oauth_response response);
  match access_token with
  | None => text ← unwrap (Utf8.from_utf8 response); Err text
  | Some access_token =>
      resp ← unwrap (get_userinfo (bs "Bearer " ++ access_token));
      user_email ← unwrap (parse_user_info resp);
      match user_email with
      | Some e => Ok e
      | None => Err resp
      end
  end.

(** ** [handle_google_auth] *)

(** The outer [outcome] is the panic; the inner sum the function's result. *)
Definition handle_google_auth (now : Z) (creds : GoogleAuthCredentialsList) (req : HttpRequestReader)
    (g_auth_settings : bytes) (debug : bool) : outcome GoogleAuthError GoogleAuthOkResult :=
  let lift {A} (m : outcome bytes A) : outcome GoogleAuthError A := map_err ShowError m in
  credentials ← unwrap (creds !! g_auth_settings);
  path ← lift (get_path req);
  if Str.eq_ignore_ascii_case path LOGOUT_PATH then Err ShowLogoutPage
  else
    token ← lift (get_authorization_token req);
    let resolved := token ≫= resolve now in
    if Str.eq_ignore_ascii_case path AUTHORIZED_PATH then
      match resolved with
      | Some e =>
          if negb (domain_is_allowed credentials e) then Err EmailDomainIsNotAuthorized
          else Err (ShowUserAuthenticatedPage e)
      | None =>
          auth_code ← lift (get_query_string_param req (bs "code"));
          auth_code ← unwrap auth_code;
          e ← lift (resolve_email req auth_code credentials debug);
          if negb (domain_is_allowed credentials e) then Err ShowEmailDomainIsNotAuthorizedPage
          else Ok (SetToken e)
      end
    else
      match resolved with
      | Some e =>
          if negb (domain_is_allowed credentials e) then Err EmailDomainIsNotAuthorized
          else Ok (Passed e)
      | None => Ok (ShowLoginPage credentials)
      end.

End Auth.

(** ** Cookies *)

Lemma split_app c (x y : bytes) : Str.split c (x ++ c :: y) = Str.split c x ++ Str.split c y.
Proof.
  induction x as [|b x IH]; cbn [app Str.split]; [by rewrite decide_True|].
  rewrite IH. case_decide; [done|]. pose proof (Str.split_nonempty c x).
  by destruct (Str.split c x).
Qed.

Lemma find_cookie_app xs ys n :
  find_cookie xs n = None -> find_cookie (xs ++ ys) n = find_cookie ys n.
Proof.
  induction xs as [|x xs IH]; cbn; [done|]. destruct (Str.find EQUALS x); [|done]. case_decide; [done|auto].
Qed.

(** A cookie that stands behind others is found, whole. *)
Lemma cookie_of_app others v rest :
  cookie_of others AUTHORIZED_COOKIE_NAME = None -> SEMICOLON ∉ v -> (rest = [] \/ exists r, rest = SEMICOLON :: r) ->
  cookie_of (others ++ bs "; x-authorized=" ++ v ++ rest) AUTHORIZED_COOKIE_NAME = Some v.
Proof.
  intros Hno Hv Hrest. unfold cookie_of in *.
  change (bs "; x-authorized=" ++ v ++ rest) with (SEMICOLON :: (bs " x-authorized=" ++ v ++ rest)).
  rewrite split_app, find_cookie_app by done.
  assert (SEMICOLON ∉ bs " x-authorized=" ++ v) as Hin.
  { intros [Hx|Hx]%elem_of_app; [|done]. revert Hx. by apply H1.not_in_dec. }
  assert (exists more, Str.split SEMICOLON (bs " x-authorized=" ++ v ++ rest) = (bs " x-authorized=" ++ v) :: more)
    as [more ->].
  { rewrite (assoc_L (++)). destruct Hrest as [->|[r ->]].
    - exists []. rewrite app_nil_r. by apply Str.split_no_sep.
    - eexists. by apply Str.split_app_sep. }
  reflexivity.
Qed.

Section AuthProofs.
Context `{GoogleLibs} (token_secret_key : bytes).

Lemma resolve_generate t0 now e :
  in_i64 t0 -> in_i64 (t0 + 86400000000) ->
  resolve token_secret_key now (generate token_secret_key t0 e) =
  if t0 + 86400000000 <? now then None else Some e.
Proof.
  intros Ht Ht'. unfold resolve, generate. rewrite base_64_roundtrip. cbn [mbind option_bind].
  rewrite aes_roundtrip. cbn [mbind option_bind]. rewrite prost_roundtrip. cbn [mbind option_bind expires email].
  by rewrite date_add_spec.
Qed.

(** A path the sign-in answers itself. *)
Definition own_path (p : bytes) : bool :=
  Str.eq_ignore_ascii_case p LOGOUT_PATH || Str.eq_ignore_ascii_case p AUTHORIZED_PATH.

(** Who gets past the Google gate.  A request is let through as [e]
    exactly when its path is not one of the two the sign-in serves itself and
    its cookie opens under the proxy's key to a token for [e] that has not
    expired, with [e] in a domain of this endpoint's list. *)
Theorem google_gate_exact now creds req g debug e :
  handle_google_auth token_secret_key now creds req g debug = Ok (Passed e) <->
  exists c p token sealed plain t,
    creds !! g = Some c /\ get_path req = Ok p /\ own_path p = false /\
    get_cookie req AUTHORIZED_COOKIE_NAME = Ok (Some token) /\
    from_base_64 token = Some sealed /\ aes_decrypt token_secret_key sealed = Some plain /\
    prost_decode plain = Some t /\ now <= expires t /\ email t = e /\ domain_is_allowed c e = true.
Proof.
  unfold handle_google_auth, get_authorization_token, own_path. split.
  - destruct (creds !! g) as [c|] eqn:Hc; cbn [unwrap mbind outcome_bind]; [|done].
    destruct (get_path req) as [p| |] eqn:Hp; cbn [map_err mbind outcome_bind]; try done.
    destruct (Str.eq_ignore_ascii_case p LOGOUT_PATH) eqn:Hl; [done|].
    destruct (get_cookie req AUTHORIZED_COOKIE_NAME) as [token| |] eqn:Hk; cbn [map_err mbind outcome_bind]; try done.
    destruct (Str.eq_ignore_ascii_case p AUTHORIZED_PATH) eqn:Ha.
    + destruct (token ≫= resolve token_secret_key now) as [x|]; [by destruct (negb _)|].
      destruct (get_query_string_param req (bs "code")) as [[q|]| |]; cbn [map_err unwrap mbind outcome_bind]; try done.
      destruct (resolve_email req q c debug); cbn [map_err mbind outcome_bind]; try done. by destruct (negb _).
    + destruct token as [token|]; cbn [mbind option_bind]; [|done]. unfold resolve.
      destruct (from_base_64 token) as [sealed|] eqn:Hb; cbn [mbind option_bind]; [|done].
      destruct (aes_decrypt token_secret_key sealed) as [plain|] eqn:Hd; cbn [mbind option_bind]; [|done].
      destruct (prost_decode plain) as [t|] eqn:Ht; cbn [mbind option_bind]; [|done].
      destruct (Z.ltb_spec (expires t) now); [done|].
      destruct (domain_is_allowed c (email t)) eqn:Hdom; cbn [negb]; [|done]. intros [= <-].
      exists c, p, token, sealed, plain, t. by rewrite Hl.
  - intros (c & p & token & sealed & plain & t & -> & -> & Hown & -> & Hb & Hd & Ht & Hexp & <- & Hdom).
    apply orb_false_iff in Hown as [Hl Ha]. cbn [unwrap map_err mbind outcome_bind]. rewrite Hl, Ha.
    cbn [mbind option_bind]. unfold resolve. rewrite Hb. cbn [mbind option_bind]. rewrite Hd. cbn [mbind option_bind].
    rewrite Ht. cbn [mbind option_bind]. destruct (Z.ltb_spec (expires t) now); [lia|]. by rewrite Hdom.
Qed.

(** A sign-in lasts a day, on every endpoint.  The token handed out for
    [e] at [t0], sent back among any other cookies, lets [e] through until
    exactly 24 hours later and shows the sign-in page after that; and it does
    so for any Google block of the configuration, not only for the one [e]
    signed in with, as long as that block's domains include [e]'s. *)
Theorem google_session_lasts_a_day t0 now e creds g c req p debug others rest :
  in_i64 t0 -> in_i64 (t0 + 86400000000) ->
  creds !! g = Some c -> get_path req = Ok p -> own_path p = false ->
  cookie_of others AUTHORIZED_COOKIE_NAME = None -> (rest = [] \/ exists r, rest = SEMICOLON :: r) ->
  (forall n, get_cookie req n =
     Ok (cookie_of (others ++ bs "; x-authorized=" ++ generate token_secret_key t0 e ++ rest) n)) ->
  handle_google_auth token_secret_key now creds req g debug =
    if t0 + 86400000000 <? now then Ok (ShowLoginPage c)
    else if domain_is_allowed c e then Ok (Passed e) else Err EmailDomainIsNotAuthorized.
Proof.
  intros Ht Ht' Hc Hp Hown Hno Hrest Hk. apply orb_false_iff in Hown as [Hl Ha].
  unfold handle_google_auth, get_authorization_token. rewrite Hc, Hp. cbn [unwrap map_err mbind outcome_bind].
  rewrite Hl, Ha, Hk, cookie_of_app; [|done| |done].
  2: { intros Hin. pose proof (base_64_text (aes_encrypt token_secret_key (prost_encode
         {| email := e; expires := date_add t0 (Duration.from_secs (60 * 60 * 24)) |}))) as Htxt.
       rewrite Forall_forall in Htxt. by destruct (Htxt _ Hin). }
  cbn [map_err mbind outcome_bind option_bind]. rewrite resolve_generate by done.
  destruct (t0 + 86400000000 <? now); [done|]. by destruct (domain_is_allowed c e).
Qed.

(** Google's redirect without a code stops the task: a request for
    [/authorized] with neither a valid cookie nor a [code] parameter panics,
    whoever sends it. *)
Theorem callback_without_code_panics now creds req g c p debug :
  creds !! g = Some c -> get_path req = Ok p -> Str.eq_ignore_ascii_case p AUTHORIZED_PATH = true ->
  get_cookie req AUTHORIZED_COOKIE_NAME = Ok None -> get_query_string_param req (bs "code") = Ok None ->
  handle_google_auth token_secret_key now creds req g debug = Panic.
Proof.
  intros Hc Hp Ha Hk Hq. unfold handle_google_auth, get_authorization_token.
  rewrite Hc, Hp. cbn [unwrap map_err mbind outcome_bind].
  destruct (Str.eq_ignore_ascii_case p LOGOUT_PATH) eqn:Hl.
  { exfalso. apply Str.eq_ignore_length in Hl, Ha. rewrite Hl in Ha. vm_compute in Ha. discriminate. }
  rewrite Hk, Ha. cbn [map_err mbind outcome_bind option_bind]. by rewrite Hq.
Qed.

End AuthProofs.

(** ** Witnesses: boxes that spell every byte in hexadecimal *)

Definition hex_digit (n : Z) : byte := u8_of_Z (if n <? 10 then 48 + n else 87 + n).
Definition hex_value (b : byte) : Z := if u8 b <? 58 then u8 b - 48 else u8 b - 87.
Definition hex (m : bytes) : bytes := concat (map (fun b => [hex_digit (u8 b / 16); hex_digit (u8 b mod 16)]) m).

Fixpoint unhex (m : bytes) : option bytes :=
  match m with
  | [] => Some []
  | a :: b :: m => r ← unhex m; Some (u8_of_Z (hex_value a * 16 + hex_value b) :: r)
  | _ => None
  end.

Lemma google_unhex_hex m : unhex (hex m) = Some m.
Proof.
  induction m as [|b m IH]; [done|].
  change (hex (b :: m)) with (hex_digit (u8 b / 16) :: hex_digit (u8 b mod 16) :: hex m).
  cbn [unhex]. rewrite IH. cbn [mbind option_bind]. f_equal. f_equal. by destruct b.
Qed.

Lemma hex_text m : Forall (fun b => u8 b < 128 /\ b <> Byte.x3b) (hex m).
Proof.
  induction m as [|b m IH]; [constructor|]. change (hex (b :: m)) with
    (hex_digit (u8 b / 16) :: hex_digit (u8 b mod 16) :: hex m).
  repeat constructor; [destruct b; done..|exact IH].
Qed.

(** The time in unary, the sign in front: enough for a codec. *)
Definition demo_encode (t : AuthToken) : bytes :=
  (if 0 <=? expires t then Byte.x2b else Byte.x2d) :: repeat Byte.x31 (Z.abs_nat (expires t)) ++ Byte.x0a :: email t.

Definition demo_decode (l : bytes) : option AuthToken :=
  match l with
  | s :: l =>
      '(d, e) ← Str.split_once Byte.x0a l;
      Some {| email := e; expires := if decide (s = Byte.x2b) then Z.of_nat (length d) else - Z.of_nat (length d) |}
  | [] => None
  end.

Lemma demo_decode_encode t : demo_decode (demo_encode t) = Some t.
Proof.
  unfold demo_decode, demo_encode. rewrite Str.split_once_app.
  - cbn. rewrite repeat_length. destruct t as [e x]. cbn. f_equal. f_equal.
    destruct (Z.leb_spec 0 x); cbn; case_decide; try done; lia.
  - intros Hin%list_elem_of_In%repeat_spec. discriminate.
Qed.

Definition demo_google : GoogleLibs.
Proof.
  refine {| aes_encrypt := fun _ m => m; aes_decrypt := fun _ m => Some m; as_base_64 := hex; from_base_64 := unhex;
            prost_encode := demo_encode; prost_decode := demo_decode;
            date_add := fun t d => t + Duration.as_micros d;
            compare_strings_case_insensitive := Str.eq_ignore_ascii_case;
            decode_from_url_string := fun x => x; post_token := fun _ => None;
            parse_oauth_response := fun _ => None; get_userinfo := fun _ => None; parse_user_info := fun _ => None |}.
  - done.
  - exact google_unhex_hex.
  - exact hex_text.
  - exact demo_decode_encode.
  - done.
  - done.
Defined.
#[local] Existing Instance demo_google.

Definition demo_creds : GoogleAuthCredentialsList :=
  {[ bs "g" := {| cred_client_id := bs "c"; cred_client_secret := bs "s"; whitelisted_domains := bs "A.b; x.y" |} ]}.

(** The cookie of a sign-in at [t0]. *)
Definition demo_google_request (p cookie : bytes) : HttpRequestReader :=
  {| get_cookie := fun n => Ok (cookie_of cookie n); get_query_string := Ok None;
     get_host := Ok (Some (bs "h")); get_path := Ok p |}.

Definition demo_cookie : bytes := bs "a=1" ++ bs "; x-authorized=" ++ generate [] (-86399999999) (bs "me@a.B") ++ bs "; b=2".

Lemma google_session_lasts_a_day_witness :
  handle_google_auth [] 1 demo_creds (demo_google_request (bs "/") demo_cookie) (bs "g") false = Ok (Passed (bs "me@a.B")).
Proof.
  etransitivity; [apply (google_session_lasts_a_day [] (-86399999999) 1 (bs "me@a.B") demo_creds (bs "g")
    {| cred_client_id := bs "c"; cred_client_secret := bs "s"; whitelisted_domains := bs "A.b; x.y" |}
    (demo_google_request (bs "/") demo_cookie) (bs "/") false (bs "a=1") (bs "; b=2"))|vm_compute; reflexivity].
  - unfold in_i64. lia.
  - unfold in_i64. lia.
  - reflexivity.
  - reflexivity.
  - reflexivity.
  - reflexivity.
  - right. exists (bs " b=2"). reflexivity.
  - intros n. reflexivity.
Defined.

Lemma callback_without_code_panics_witness :
  handle_google_auth [] 0 demo_creds (demo_google_request (bs "/Authorized") []) (bs "g") false = Panic.
Proof.
  exact (callback_without_code_panics [] 0 demo_creds (demo_google_request (bs "/Authorized") []) (bs "g")
    {| cred_client_id := bs "c"; cred_client_secret := bs "s"; whitelisted_domains := bs "A.b; x.y" |}
    (bs "/Authorized") false eq_refl eq_refl eq_refl eq_refl eq_refl).
Defined.

End Google.
