(* ===== verification/LocalContent.v ===== *)
(** * Content the proxy serves itself: [http_content_source/]

    Static responses and files of a folder.  The two protocols have a source
    of their own for files: [LocalPathContent] behind the HTTP/1 pipeline,
    [LocalPathContentSrc] behind the HTTP/2 one. *)

From Stdlib Require Import ZArith Lia Strings.Byte.
From stdpp Require Import base tactics list strings gmap.
From S2P Require Import Prelude RustStd H1Headers H1Reader IpBlocklist ProxyPassConfig.

Local Open Scope Z_scope.

(** [rust_extensions::FilePath], the content type table of [my_http_server],
    the home directory, and the file system. *)
Class FileLibs := {
  FilePath : Type;
  filepath_from_str : bytes -> FilePath;
  append_segment : FilePath -> bytes -> FilePath;
  filepath_as_str : FilePath -> bytes;
  detect_by_extension : bytes -> option bytes;
  fs_read : bytes -> option bytes;
  home_dir : option bytes
}.

Module Content.
Import H1.

Definition SLASH : byte := Byte.x2f.
Definition TILDE : byte := Byte.x7e.

(** [Http1HeadersBuilder::get_first_line] *)
Definition builder_first_line `{SliceOfU8Ext} (payload : bytes) : outcome bytes bytes :=
  index ← unwrap (find_byte_pos payload Byte.x0a 0); slice_to payload index.

Section Files.
Context `{SliceOfU8Ext} `{H1Libs} `{FileLibs} (APP_VERSION : bytes).

(** ** [serve_file] *)
Definition serve_file (files_path : FilePath) (path : bytes) (default_file : option bytes) : bytes :=
  let serve file_name :=
    let file_path := filepath_as_str (append_segment files_path file_name) in
    match fs_read file_path with
    | Some content =>
        let result := response_new 200 in
        let result :=
          match detect_by_extension file_path with
          | Some content_type => add_content_type content_type result
          | None => result
          end in
        build_with_body content result
    | None => ProxyErrors.NOT_FOUND APP_VERSION
    end in
  if decide (path = bs "/") then
    match default_file with
    | Some default_file => serve default_file
    | None => ProxyErrors.NOT_FOUND APP_VERSION
    end
  else serve path.

(** ** [LocalPathContent] *)
Record LocalPathContent := {
  lpc_files_path : FilePath;
  lpc_default_file : option bytes;
  requests : gmap Z (bytes * bytes)
}.

Definition local_path_new (files_path : bytes) (default_file : option bytes) : LocalPathContent :=
  {| lpc_files_path := filepath_from_str files_path; lpc_default_file := default_file; requests := ∅ |}.

Definition send_headers (request_id : Z) (h1_headers : bytes) (c : LocalPathContent) :
    outcome bytes LocalPathContent :=
  first_line ← builder_first_line h1_headers;
  '(verb, path) ← get_verb_and_path first_line;
  Ok {| lpc_files_path := lpc_files_path c; lpc_default_file := lpc_default_file c;
        requests := <[request_id := (verb, path)]> (requests c) |}.

Definition get_content (request_id : Z) (c : LocalPathContent) : LocalPathContent * bytes :=
  let verb_and_path := requests c !! request_id in
  let c := {| lpc_files_path := lpc_files_path c; lpc_default_file := lpc_default_file c;
              requests := delete request_id (requests c) |} in
  match verb_and_path with
  | None => (c, ProxyErrors.NOT_FOUND APP_VERSION)
  | Some (verb, path) =>
      if decide (verb <> bs "GET") then (c, ProxyErrors.NOT_FOUND APP_VERSION)
      else (c, serve_file (lpc_files_path c) path (lpc_default_file c))
  end.

(** ** [LocalFilePath] *)

(** [s.replace("~", home)] *)
Definition replace_tilde (s home : bytes) : bytes :=
  concat (map (fun b => if decide (b = TILDE) then home else [b]) s).

Definition local_file_path_value (location : bytes) : outcome bytes bytes :=
  if negb (Str.starts_with (bs "~") location) then Ok location
  else home ← unwrap home_dir; Ok (replace_tilde location home).

(** ** [LocalPathContentSrc] *)
Record LocalPathContentSrc := { src_file_path : bytes; src_default_file : option bytes }.

Definition local_path_src_new (location : bytes) (default_file : option bytes) :
    outcome bytes LocalPathContentSrc :=
  file_path ← local_file_path_value location;
  last_char ← unwrap (last file_path);
  Ok {| src_file_path := if decide (last_char = SLASH) then take (length file_path - 1) file_path else file_path;
        src_default_file := default_file |}.

Record RequestExecutorResult := {
  rer_status_code : Z;
  rer_content_type : option bytes;
  rer_body : bytes
}.

(** [execute_request]: the file that will be read. *)
Definition execute_request (s : LocalPathContentSrc) (path : bytes) : bytes :=
  if decide (path = bs "/") then
    match src_default_file s with
    | Some default_file => src_file_path s ++ bs "/" ++ default_file
    | None => src_file_path s ++ path
    end
  else src_file_path s ++ path.

Definition file_request_executor (file_path : bytes) : RequestExecutorResult :=
  match fs_read file_path with
  | Some content =>
      {| rer_status_code := 200; rer_content_type := detect_by_extension file_path; rer_body := content |}
  | None => {| rer_status_code := 404; rer_content_type := None; rer_body := bs "Not found" |}
  end.

(** [StaticContentExecutor::execute_request] *)
Definition static_execute_request (c : Config.StaticContentConfig) : RequestExecutorResult :=
  {| rer_status_code := Config.status_code c; rer_content_type := Config.content_type c;
     rer_body := Config.static_body c |}.

(** ** What is served *)

(** The folder is not a boundary.  For any folder and any path but
    [/], the file that is opened is the folder's name with the path behind it
    as it came, so a path that climbs out of the folder is followed and what
    it names is served. *)
Theorem files_are_not_confined s location default_file p :
  local_path_src_new location default_file = Ok s ->
  Str.starts_with (bs "~") location = false -> last location <> Some SLASH -> p <> bs "/" ->
  file_request_executor (execute_request s p) =
    match fs_read (location ++ p) with
    | Some content =>
        {| rer_status_code := 200; rer_content_type := detect_by_extension (location ++ p); rer_body := content |}
    | None => {| rer_status_code := 404; rer_content_type := None; rer_body := bs "Not found" |}
    end.
Proof.
  intros Hs Ht Hl Hp. unfold local_path_src_new, local_file_path_value in Hs. rewrite Ht in Hs.
  cbn [negb mbind outcome_bind] in Hs. destruct (last location) as [x|] eqn:Hx; [|done].
  cbn [unwrap mbind outcome_bind] in Hs. rewrite decide_False in Hs by congruence. injection Hs as <-.
  unfold execute_request. by rewrite decide_False.
Qed.

End Files.

(** A folder next to a file that is not in it. *)
Definition demo_files : FileLibs :=
  {| FilePath := bytes; filepath_from_str := fun s => s; append_segment := fun p s => p ++ [SLASH] ++ s;
     filepath_as_str := fun p => p; detect_by_extension := fun _ => None;
     fs_read := fun p => if decide (p = bs "/www/../key.pem") then Some (bs "secret") else None;
     home_dir := None |}.
#[local] Existing Instance demo_files.

Lemma files_are_not_confined_witness :
  rer_body (file_request_executor (execute_request {| src_file_path := bs "/www"; src_default_file := None |}
    (bs "/../key.pem"))) = bs "secret".
Proof.
  rewrite (files_are_not_confined {| src_file_path := bs "/www"; src_default_file := None |} (bs "/www") None
    (bs "/../key.pem") eq_refl eq_refl ltac:(discriminate) ltac:(discriminate)).
  reflexivity.
Defined.

End Content.
