(* ===== verification/H1Dispatch.v ===== *)
(** * The request reader of the HTTP/1.1 pipeline:
      [h1_proxy_server/pipeline/reader.rs], [h1_proxy_server/authorize.rs],
      [h1_proxy_server/pipeline/oauth_gate.rs], and the routing methods of
      [h1_proxy_server/h1_read_part.rs]

    One task per connection reads request after request.  Every request is
    checked in a fixed order, client certificate, address list, OAuth gate,
    location, authorization, allowed users, and only then handed to an
    upstream worker, whose slot in the response queue is reserved first. *)

From Stdlib Require Import ZArith Lia Strings.Byte.
From stdpp Require Import base tactics list strings gmap.
From S2P Require Import Prelude RustStd LoopBuffer BodyRelay H1Headers H1Rewrite H1Reader H1ClientWriter.
From S2P Require Import OAuthForm OAuthTokens OAuthServer IpBlocklist ProxyPassConfig H1Upstream H1Worker GoogleAuth LocalContent.

Local Open Scope Z_scope.

Module Dispatch.
Import H1 ProxyErrors Reader.

Definition MAX_OAUTH_BODY : Z := 64 * 1024.

(** What a request can be checked against, and the clock readings of the
    request: seconds for tokens, microseconds for the rest. *)
Section Dispatch.
Context `{SliceOfU8Ext} `{H1Libs} `{RewriteLibs} `{RemoteEndpointLib} `{OAuthLibs} `{SerdeJson} `{GoogleLibs}
  `{DateTimeLib} `{FileLibs}.
Context (iter_add : gmap bytes bytes -> list (bytes * bytes)).
Context (order : gmap bytes AuthCodes.AuthCode -> list (bytes * AuthCodes.AuthCode)).
Context (APP_VERSION token_secret_key : bytes) (oc : bool).

Record AppConfiguration := {
  google_auth_credentials : Google.GoogleAuthCredentialsList;
  oauth_credentials : gmap bytes OAuth.OAuthContext;
  allowed_users : Config.AllowedUsersList;
  white_list_ip_list : Config.WhiteListedIpListConfigurations;
  now_secs : Z;
  now_micros : Z;
  random_code : bytes
}.

(** [HttpConnectionInfo] but for the endpoint, which changes. *)
Record HttpConnectionInfo := {
  listen_config : Config.HttpListenPortConfiguration;
  client_ip : option WhiteList.IpAddr;
  head_info : Rewrite.HttpConnectionInfo;
  cn_user_name : option (bytes * bytes)
}.

(** ** Routing *)

(** The host of the request without its port, for the metrics and to decide
    whether the connection's endpoint still applies. *)
Definition request_host (h : Http1Headers) (buf : bytes) : outcome bytes (option bytes) :=
  match host_value h with
  | None => Ok None
  | Some p =>
      if decide (length buf < pos_end p)%nat then Ok None
      else
        raw ← slice buf (start p) (pos_end p);
        match Utf8.from_utf8 raw with
        | None => Ok None
        | Some host_str =>
            let host_no_port := match Str.find COLON host_str with Some idx => take idx host_str | None => host_str end in
            Ok (Some (Str.trim host_no_port))
        end
  end.

Definition try_find_endpoint_info (h : Http1Headers) (buf : bytes) (c : Config.HttpListenPortConfiguration) :
    outcome bytes (option Config.HttpEndpointInfo) :=
  match host_value h with
  | None => Config.get_http_endpoint_info c None
  | Some p =>
      raw ← slice buf (start p) (pos_end p);
      match Utf8.from_utf8 raw with
      | None => Config.get_http_endpoint_info c None
      | Some host =>
          match Str.find COLON host with
          | Some index => Config.get_http_endpoint_info c (Some (take index host))
          | None => Config.get_http_endpoint_info c (Some host)
          end
      end
  end.

Definition needs_endpoint_resolve (current : option Config.HttpEndpointInfo) (host : option bytes) : bool :=
  match current with
  | None => true
  | Some current => match host with Some host => negb (Config.is_my_endpoint current host) | None => false end
  end.

(** [H1Reader::find_location] *)
Definition find_location (h : Http1Headers) (buf : bytes) (e : Config.HttpEndpointInfo) :
    outcome ProxyServerError Config.ProxyPassLocationConfig :=
  first_line ← map_err HeadersParseError (slice_to buf (first_line_end h));
  path ← map_err HeadersParseError (H1.get_path_and_query first_line);
  location ← map_err HeadersParseError (Config.find_location e path);
  ok_or location LocationIsNotFound.

(** ** [authorize] *)

(** [trim_ascii] *)
Definition is_blank (b : byte) : bool := bool_decide (b = Byte.x20 \/ b = Byte.x09).
Definition trim_ascii (input : bytes) : bytes :=
  rev (Str.drop_while is_blank (rev (Str.drop_while is_blank input))).

Fixpoint find_authorization_loop (fuel : nat) (data : bytes) (pos : nat) : outcome bytes (option bytes) :=
  match fuel with
  | O => Ok None
  | S fuel =>
      match find_sequence_pos data CRLF pos with
      | None => Ok None
      | Some next =>
          if decide (next = pos) then Ok None
          else
            let skip := find_authorization_loop fuel data (next + length CRLF) in
            match HttpHeader_new data pos next with
            | None => skip
            | Some header =>
                is_mine ← is_my_header_name header (bs "authorization");
                if (is_mine : bool) then
                  raw ← slice data (start (get_value header)) (pos_end (get_value header));
                  Ok (Some (trim_ascii raw))
                else skip
            end
      end
  end.

Definition find_authorization_value (h : Http1Headers) (data : bytes) : outcome bytes (option bytes) :=
  find_authorization_loop (S (length data)) data (first_line_end h + length CRLF).

(** A page of the sign-in, as the error that answers with it. *)
Definition answer_page {A} (b : outcome bytes bytes) : outcome ProxyServerError A :=
  match b with Ok b => Err (HttpResponse (build_with_body b new_as_html)) | Err _ | Panic => Panic end.

Definition from_google_auth_error {A} (e : Google.GoogleAuthError) (req : HttpRequestReader) :
    outcome ProxyServerError A :=
  match e with
  | Google.ShowLogoutPage => answer_page (Google.generate_logout_page req (bs "You have successfully logged out!"))
  | Google.EmailDomainIsNotAuthorized => Err NotAuthorized
  | Google.ShowEmailDomainIsNotAuthorizedPage =>
      answer_page (Google.generate_logout_page req (bs "Unauthorized email domain"))
  | Google.ShowUserAuthenticatedPage e => answer_page (Google.generate_authenticated_user req e)
  | Google.ShowError text => Err (HttpResponse (build_with_body text new_as_html))
  end.

Definition google_identity (env : AppConfiguration) (e : Config.HttpEndpointInfo) (settings : bytes)
    (req : HttpRequestReader) : outcome ProxyServerError (option Config.HttpProxyPassIdentity) :=
  match Google.handle_google_auth token_secret_key (now_micros env) (google_auth_credentials env) req settings
          (Config.debug e) with
  | Ok (Google.Passed email) => Ok (Some (Config.GoogleUser email))
  | Ok (Google.SetToken email) =>
      match Google.generate_authenticated_user req email with
      | Ok body =>
          let token := Google.generate token_secret_key (now_micros env) email in
          let cookie_value := Google.AUTHORIZED_COOKIE_NAME ++ bs "=" ++ token ++ bs "; SameSite=None; Secure;" in
          Err (HttpResponse (build_with_body body (push_header (bs "Set-Cookie") cookie_value new_as_html)))
      | Err _ | Panic => Panic
      end
  | Ok (Google.ShowLoginPage credentials) => answer_page (Google.generate_login_page req credentials)
  | Err err => from_google_auth_error err req
  | Panic => Panic
  end.

(** The certificate of the connection as an identity on this endpoint. *)
Definition cert_identity (e : Config.HttpEndpointInfo) (conn : HttpConnectionInfo) :
    option Config.HttpProxyPassIdentity :=
  '(cn, ca_id) ← cn_user_name conn;
  if Config.client_cert_identity_applies e ca_id then Some (Config.ClientCert cn ca_id) else None.

Definition auth_header_matches (location : Config.ProxyPassLocationConfig) (h : Http1Headers) (data : bytes) :
    outcome bytes bool :=
  match Config.auth_header location with
  | None => Ok true
  | Some expected =>
      actual ← find_authorization_value h data;
      Ok (match actual with Some actual => bool_decide (actual = expected) | None => false end)
  end.

Definition authorize (env : AppConfiguration) (e : Config.HttpEndpointInfo)
    (location : Config.ProxyPassLocationConfig) (conn : HttpConnectionInfo) (h : Http1Headers) (data : bytes) :
    outcome ProxyServerError (option Config.HttpProxyPassIdentity) :=
  match auth_header_matches location h data with
  | Ok false => Err NotAuthorized
  | Ok true =>
      match Config.must_be_authorized e with
      | Some (Config.GoogleAuth settings) =>
          google_identity env e settings (Google.headers_reader h data)
      | Some Config.ClientCertificate => Ok (cert_identity e conn)
      | None => Ok (cert_identity e conn)
      end
  | Err _ | Panic => Panic
  end.

(** ** The state of the task *)

(** A slot of the response queue: a complete answer, or the request a worker
    serves and the body chunks it is sent. *)
Inductive Slot :=
  | Answer (page : bytes) (write_timeout : Z)
  | Proxied (req : Worker.UpstreamRequest) (chunks : list bytes) (write_timeout : Z).

Inductive ReaderStep :=
  | Continue
  | Close
  | Upgrade (req : Worker.UpstreamRequest) (write_timeout : Z).

(** [queue_verdicts] are the results of the sends to come on the response
    queue, [body_verdicts] those on the current request's body channel. *)
Record State := {
  reader : H1Reader;
  endpoint_info : option Config.HttpEndpointInfo;
  queue : list Slot;
  queue_verdicts : list bool;
  body_verdicts : list (option NetworkError);
  ip_blocklist : IpBlocklist.State;
  auth_codes : gmap bytes AuthCodes.AuthCode
}.

Definition set_reader (r : H1Reader) (s : State) : State :=
  {| reader := r; endpoint_info := endpoint_info s; queue := queue s; queue_verdicts := queue_verdicts s;
     body_verdicts := body_verdicts s; ip_blocklist := ip_blocklist s; auth_codes := auth_codes s |}.
Definition set_endpoint (e : option Config.HttpEndpointInfo) (s : State) : State :=
  {| reader := reader s; endpoint_info := e; queue := queue s; queue_verdicts := queue_verdicts s;
     body_verdicts := body_verdicts s; ip_blocklist := ip_blocklist s; auth_codes := auth_codes s |}.
Definition set_blocklist (b : IpBlocklist.State) (s : State) : State :=
  {| reader := reader s; endpoint_info := endpoint_info s; queue := queue s; queue_verdicts := queue_verdicts s;
     body_verdicts := body_verdicts s; ip_blocklist := b; auth_codes := auth_codes s |}.
Definition set_auth_codes (c : gmap bytes AuthCodes.AuthCode) (s : State) : State :=
  {| reader := reader s; endpoint_info := endpoint_info s; queue := queue s; queue_verdicts := queue_verdicts s;
     body_verdicts := body_verdicts s; ip_blocklist := ip_blocklist s; auth_codes := c |}.

(** [queue_tx.send(..)]: [false] when the writer is gone. *)
Definition queue_send (x : Slot) (s : State) : State * bool :=
  let '(ok, vs) := match queue_verdicts s with ok :: vs => (ok, vs) | [] => (true, []) end in
  ({| reader := reader s; endpoint_info := endpoint_info s; queue := if ok then queue s ++ [x] else queue s;
      queue_verdicts := vs; body_verdicts := body_verdicts s; ip_blocklist := ip_blocklist s;
      auth_codes := auth_codes s |}, ok).

(** The slot whose worker is being fed gets its body. *)
Definition feed (req : Worker.UpstreamRequest) (chunks : list bytes) (t : Z) (before : list Slot) (s : State) : State :=
  {| reader := reader s; endpoint_info := endpoint_info s; queue := before ++ [Proxied req chunks t];
     queue_verdicts := queue_verdicts s; body_verdicts := []; ip_blocklist := ip_blocklist s;
     auth_codes := auth_codes s |}.

(** A failure counted against the client; the list panics on addresses its
    white list cannot hold. *)
Definition register_failure (severity : IpBlocklist.FailureSeverity) (env : AppConfiguration)
    (conn : HttpConnectionInfo) (s : State) : outcome bytes State :=
  match client_ip conn with
  | None => Ok s
  | Some ip =>
      match IpBlocklist.register_failure ip severity (now_micros env) (ip_blocklist s) with
      | Ok (_, b) => Ok (set_blocklist b s)
      | Err x => match x with end
      | Panic => Panic
      end
  end.

Definition emit_single_response (write_timeout : Z) (b : bytes) (s : State) : State * ReaderStep :=
  let '(s, ok) := queue_send (Answer b write_timeout) s in (s, if ok : bool then Continue else Close).

Definition DEFAULT_WRITE_TIMEOUT : Z := Duration.from_secs 30.

Definition respond_error (env : AppConfiguration) (conn : HttpConnectionInfo) (err : ProxyServerError) (s : State) :
    State * outcome bytes ReaderStep :=
  let handling := error_handling APP_VERSION err in
  match (if ProxyErrors.register_ip_failure handling then register_failure IpBlocklist.Soft env conn s else Ok s) with
  | Ok s =>
      match page handling with
      | Some p => (fst (queue_send (Answer p DEFAULT_WRITE_TIMEOUT) s), Ok Close)
      | None => (s, Ok Close)
      end
  | Err e => (s, Err e)
  | Panic => (s, Panic)
  end.

(** [emit_single_response], and then the endpoint's keep-alive policy. *)
Definition answer_and_keep (e : Config.HttpEndpointInfo) (b : bytes) (s : State) : State * outcome bytes ReaderStep :=
  let '(s, step) := emit_single_response (snd (Config.timeouts e)) b s in
  (s, Ok (match step with Continue => if negb (Config.keep_alive e) then Close else Continue | other => other end)).

(** ** [run_oauth_gate] *)

Inductive OAuthGateOutcome := Proceed | Answered (b : bytes) | GateClose.

(** [Http1ResponseBuilder::add_header] for every header of the response. *)
Definition build_response_bytes (r : OAuth.OAuthHttpResponse) : bytes :=
  build_with_body (OAuth.resp_body r)
    (fold_left (fun p '(n, v) => push_header n v p) (OAuth.headers r)
       (add_content_type (OAuth.resp_content_type r) (response_new (OAuth.status_code r)))).

Definition register_credential_failure (env : AppConfiguration) (conn : HttpConnectionInfo)
    (r : OAuth.OAuthHttpResponse) (s : State) : outcome bytes State :=
  if negb (OAuth.register_ip_failure r) then Ok s else register_failure IpBlocklist.Hard env conn s.

(** [read_body]: [Ok None] is a body that could not be read to its end,
    [Ok (Some None)] one beyond the limit. *)
Definition read_body (fuel : nat) (h : Http1Headers) (collect : bool) (s : State) :
    State * option (outcome bytes (option (option bytes))) :=
  let r := reader s in
  let r := set_core {| Rewrite.loop_buffer := LoopBuffer.commit_read (head_end h) (buffer r);
                       Rewrite.builder := Rewrite.builder (core r) |} r in
  let '(r, sink, res) := transfer_body fuel oc (content_length h) r Sinks.accepting in
  (set_reader r s,
   match res with
   | None => None
   | Some (Ok _) =>
       Some (Ok (Some (if collect
                       then Sinks.into_body (Sinks.collect MAX_OAUTH_BODY (BodyRelay.writes sink))
                       else Some [])))
   | Some (Err _) => Some (Ok None)
   | Some Panic => Some Panic
   end).

Record RequestFacts := {
  rf_method : bytes;
  rf_path : bytes;
  rf_query : option bytes;
  rf_base_url : bytes;
  rf_resource_path : bytes;
  rf_authorization : option bytes;
  rf_content_type : option bytes
}.

Definition request_facts (e : Config.HttpEndpointInfo) (h : Http1Headers) (buf : bytes) : outcome bytes RequestFacts :=
  first_line ← slice_to buf (first_line_end h);
  '(verb, path_and_query) ← get_verb_and_path first_line;
  let '(path, query) :=
    match Str.split_once Byte.x3f path_and_query with
    | Some (path, query) => (path, Some query)
    | None => (path_and_query, None)
    end in
  host ← find_header_value_str h buf (bs "host");
  let host := default (Config.endpoint_str e) host in
  location ← Config.find_location e path;
  let resource_path :=
    match location with
    | Some location => Route.normalize_resource_path (Config.path location)
    | None => Route.normalize_resource_path path
    end in
  authorization ← find_header_value_str h buf (bs "authorization");
  content_type ← find_header_value_str h buf (bs "content-type");
  Ok {| rf_method := verb; rf_path := path; rf_query := query;
        rf_base_url := Route.build_base_url (Config.is_https_or_mcp (Config.listen_endpoint_type e)) host;
        rf_resource_path := resource_path; rf_authorization := authorization; rf_content_type := content_type |}.

(** [answer] *)
Definition gate_answer (fuel : nat) (env : AppConfiguration) (conn : HttpConnectionInfo) (h : Http1Headers)
    (response : OAuth.OAuthHttpResponse) (s : State) : State * option (outcome bytes OAuthGateOutcome) :=
  let '(s, body) := read_body fuel h false s in
  match body with
  | None => (s, None)
  | Some (Ok None) => (s, Some (Ok GateClose))
  | Some (Ok (Some _)) =>
      match register_credential_failure env conn response s with
      | Ok s => (s, Some (Ok (Answered (build_response_bytes response))))
      | Err _ | Panic => (s, Some Panic)
      end
  | Some (Err _) | Some Panic => (s, Some Panic)
  end.

Definition gate_proxied_request (fuel : nat) (env : AppConfiguration) (conn : HttpConnectionInfo) (h : Http1Headers)
    (context : OAuth.OAuthContext) (request : RequestFacts) (s : State) :
    State * option (outcome bytes OAuthGateOutcome) :=
  match OAuth.check_bearer context (now_secs env)
          {| OAuth.bg_authorization := rf_authorization request;
             OAuth.bg_base_url := OAuth.base_url context (rf_base_url request);
             OAuth.bg_resource_path := rf_resource_path request |} with
  | Ok OAuth.Allowed => (s, Some (Ok Proceed))
  | Ok (OAuth.Challenge response) => gate_answer fuel env conn h response s
  | Err _ | Panic => (s, Some Panic)
  end.

Definition run_oauth_gate (fuel : nat) (env : AppConfiguration) (e : Config.HttpEndpointInfo)
    (conn : HttpConnectionInfo) (h : Http1Headers) (buf : bytes) (s : State) :
    State * option (outcome bytes OAuthGateOutcome) :=
  match Config.oauth e with
  | None => (s, Some (Ok Proceed))
  | Some oauth_id =>
      match oauth_credentials env !! oauth_id with
      | None =>
          gate_answer fuel env conn h
            (OAuth.oauth_error_response 503 OAuth.ERROR_SERVER_ERROR
               (bs "The oauth configuration for this endpoint is not loaded")) s
      | Some context =>
          match request_facts e h buf with
          | Err _ | Panic => (s, Some Panic)
          | Ok request =>
              match Route.route_oauth_path (rf_path request) with
              | Err _ | Panic => (s, Some Panic)
              | Ok None => gate_proxied_request fuel env conn h context request s
              | Ok (Some route) =>
                  let '(s, body) := read_body fuel h true s in
                  match body with
                  | None => (s, None)
                  | Some (Ok None) => (s, Some (Ok GateClose))
                  | Some (Ok (Some None)) =>
                      (s, Some (Ok (Answered (build_response_bytes
                        (OAuth.oauth_error_response 413 OAuth.ERROR_INVALID_REQUEST
                           (bs "The request body is too large for an oauth endpoint"))))))
                  | Some (Ok (Some (Some body))) =>
                      let '(codes, response) :=
                        OAuth.handle_oauth_request order oc context (now_secs env) (random_code env)
                          {| OAuth.method := OAuth.method_parse (rf_method request); OAuth.route := route;
                             OAuth.req_base_url := rf_base_url request; OAuth.query := rf_query request;
                             OAuth.body := body; OAuth.content_type := rf_content_type request;
                             OAuth.authorization := rf_authorization request;
                             OAuth.known_resource_paths := map Config.path (Config.locations e) |}
                          (auth_codes s) in
                      let s := set_auth_codes codes s in
                      match response with
                      | Ok response =>
                          match register_credential_failure env conn response s with
                          | Ok s => (s, Some (Ok (Answered (build_response_bytes response))))
                          | Err _ | Panic => (s, Some Panic)
                          end
                      | Err _ | Panic => (s, Some Panic)
                      end
                  | Some (Err _) | Some Panic => (s, Some Panic)
                  end
              end
          end
      end
  end.

(** ** [read_and_dispatch] *)

Definition default_pool_tuning : Config.PoolTuning :=
  {| Config.pool_size := 5; Config.ping_timeout := Duration.from_secs 1; Config.hot_window := Duration.from_secs 3 |}.

(** The upstream of this request, and the host to announce to it. *)
Definition resolve_dynamic_proxy (p : Config.ProxyPassToConfig) (h : Http1Headers) (buf : bytes) :
    outcome ProxyServerError (Config.ProxyPassToConfig * option bytes) :=
  match p with
  | Config.DynamicProxy config =>
      proxy_to ← map_err HeadersParseError (find_header_value_str h buf (bs "proxy-to"));
      proxy_to ← ok_or proxy_to ProxyToHeaderMissing;
      endpoint ← map_err (fun _ => ProxyToHeaderInvalid) (endpoint_try_parse proxy_to);
      match get_scheme endpoint with
      | Some Http | Some Https | Some Ws | Some Wss =>
          let allowed :=
            match Config.allowed_hosts config with
            | Some allowed => existsb (fun a => Str.eq_ignore_ascii_case a (ProxyPassConfig.get_host endpoint)) allowed
            | None => true
            end in
          if negb allowed then Err ProxyToHostNotAllowed
          else
            Ok (Config.Http1 {| Config.remote_host := Config.Direct endpoint;
                                Config.request_timeout := Config.dyn_request_timeout config;
                                Config.connect_timeout := Config.dyn_connect_timeout config;
                                Config.pool_tuning := default_pool_tuning |},
                Some (get_host_port endpoint))
      | _ => Err ProxyToHeaderInvalid
      end
  | other => Ok (other, None)
  end.

(** The request's endpoint, kept for the requests to come; the first one
    found counts as a success of the client. *)
Definition resolve_endpoint (conn : HttpConnectionInfo) (h : Http1Headers) (buf : bytes) (s : State) :
    outcome bytes State :=
  host ← request_host h buf;
  if needs_endpoint_resolve (endpoint_info s) host then
    found ← try_find_endpoint_info h buf (listen_config conn);
    let was_none := match endpoint_info s with None => true | Some _ => false end in
    let s := set_endpoint found s in
    Ok (match was_none, found, client_ip conn with
        | true, Some _, Some ip => set_blocklist (IpBlocklist.register_success ip (ip_blocklist s)) s
        | _, _, _ => s
        end)
  else Ok s.

(** The address list of the endpoint; an unknown address passes. *)
Definition ip_is_allowed (env : AppConfiguration) (e : Config.HttpEndpointInfo) (conn : HttpConnectionInfo) :
    outcome bytes bool :=
  match Config.whitelisted_ip_list_id e, client_ip conn with
  | Some id, Some ip =>
      match Config.is_white_listed (white_list_ip_list env) id ip with
      | Ok b => Ok b
      | Err x => match x with end
      | Panic => Panic
      end
  | _, _ => Ok true
  end.

(** The response of a static location or a file. *)
Definition local_response (p : Config.ProxyPassToConfig) (head : bytes) : outcome bytes (option bytes) :=
  match p with
  | Config.Static cfg =>
      let builder := response_new (Config.status_code cfg) in
      let builder :=
        match Config.content_type cfg with Some content_type => add_content_type content_type builder | None => builder end in
      Ok (Some (build_with_body (Config.static_body cfg) builder))
  | Config.FilesPath model =>
      let source := Content.local_path_new (Config.remote_to_string (Config.files_path model)) (Config.default_file model) in
      source ← Content.send_headers 0 head source;
      Ok (Some (snd (Content.get_content APP_VERSION 0 source)))
  | _ => Ok None
  end.

(** From the authorized request on: the head is rewritten, and the request is
    answered locally, handed to the tunnel, or to a worker. *)
Definition forward_request (fuel : nat) (env : AppConfiguration) (e : Config.HttpEndpointInfo)
    (location : Config.ProxyPassLocationConfig) (conn : HttpConnectionInfo) (h : Http1Headers)
    (who : option Config.HttpProxyPassIdentity) (proxy_pass_to : Config.ProxyPassToConfig)
    (dynamic_host_override : option bytes) (s : State) : State * option (outcome bytes ReaderStep) :=
  match Rewrite.compile_headers iter_add h (Rewrite.RequestHead (Config.heads e)) (head_info conn)
          (Config.identity_as_str <$> who) (Config.mcp_path proxy_pass_to) dynamic_host_override
          (core (reader s)) with
  | Panic => (s, Some Panic)
  | Err err => let '(s, r) := respond_error env conn (HeadersParseError err) s in (s, Some r)
  | Ok (core', is_websocket) =>
      let s := set_reader (set_core core' (reader s)) s in
      let head := Rewrite.builder core' in
      let req := {| Worker.req_proxy_pass_to := proxy_pass_to; Worker.req_end_point_info := e;
                    Worker.req_connection_info := head_info conn; Worker.req_head := head |} in
      match local_response (Config.proxy_pass_to location) head with
      | Err _ | Panic => (s, Some Panic)
      | Ok (Some b) =>
          let '(r, _, res) := transfer_body fuel oc (content_length h) (reader s) Sinks.accepting in
          let s := set_reader r s in
          match res with
          | None => (s, None)
          | Some Panic => (s, Some Panic)
          | Some _ => let '(s, x) := answer_and_keep e b s in (s, Some x)
          end
      | Ok None =>
          let write_timeout := snd (Config.timeouts e) in
          if is_websocket then (s, Some (Ok (Upgrade req write_timeout)))
          else
            let before := queue s in
            let '(s, ok) := queue_send (Proxied req [] write_timeout) s in
            if negb ok then (s, Some (Ok Close))
            else
              let '(r, sink, res) :=
                transfer_body fuel oc (content_length h) (reader s)
                  {| BodyRelay.writes := []; BodyRelay.verdicts := body_verdicts s |} in
              let s := feed req (BodyRelay.writes sink) write_timeout before (set_reader r s) in
              match res with
              | None => (s, None)
              | Some (Ok _) => (s, Some (Ok (if Config.keep_alive e then Continue else Close)))
              | Some (Err _) => (s, Some (Ok Close))
              | Some Panic => (s, Some Panic)
              end
      end
  end.

(** The request behind the gates: location, authorization, allowed users. *)
Definition route_request (fuel : nat) (env : AppConfiguration) (e : Config.HttpEndpointInfo)
    (conn : HttpConnectionInfo) (h : Http1Headers) (buf : bytes) (s : State) :
    State * option (outcome bytes ReaderStep) :=
  let fail err s := let '(s, r) := respond_error env conn err s in (s, Some r) in
  match find_location h buf e with
  | Panic => (s, Some Panic)
  | Err err => fail err s
  | Ok location =>
      if Config.is_drop (Config.proxy_pass_to location) then (s, Some (Ok Close))
      else
        match authorize env e location conn h buf with
        | Panic => (s, Some Panic)
        | Err err => fail err s
        | Ok who =>
            if negb (Config.user_is_allowed (allowed_users env) e who) then fail NotAuthorized s
            else
              match resolve_dynamic_proxy (Config.proxy_pass_to location) h buf with
              | Panic => (s, Some Panic)
              | Err err => fail err s
              | Ok (proxy_pass_to, dynamic_host_override) =>
                  forward_request fuel env e location conn h who proxy_pass_to dynamic_host_override s
              end
        end
  end.

(** The endpoint-wide checks in front of it. *)
Definition serve_endpoint (fuel : nat) (env : AppConfiguration) (e : Config.HttpEndpointInfo)
    (conn : HttpConnectionInfo) (h : Http1Headers) (buf : bytes) (s : State) :
    State * option (outcome bytes ReaderStep) :=
  let fail err s := let '(s, r) := respond_error env conn err s in (s, Some r) in
  let s := set_reader (set_timeouts (Config.timeouts e) (reader s)) s in
  if negb (Config.connection_satisfies_client_cert e (snd <$> cn_user_name conn))
  then fail MisdirectedClientCertRequired s
  else
    match ip_is_allowed env e conn with
    | Ok false => fail NotAuthorized s
    | Ok true =>
        let '(s, gate) := run_oauth_gate fuel env e conn h buf s in
        match gate with
        | None => (s, None)
        | Some (Ok Proceed) => route_request fuel env e conn h buf s
        | Some (Ok GateClose) => (s, Some (Ok Close))
        | Some (Ok (Answered b)) => let '(s, x) := answer_and_keep e b s in (s, Some x)
        | Some (Err _) | Some Panic => (s, Some Panic)
        end
    | Err _ | Panic => (s, Some Panic)
    end.

Definition read_and_dispatch (fuel : nat) (env : AppConfiguration) (conn : HttpConnectionInfo) (s : State) :
    State * option (outcome bytes ReaderStep) :=
  let '(r, headers) := read_headers (reader s) in
  let s := set_reader r s in
  match headers with
  | None => (s, None)
  | Some Panic => (s, Some Panic)
  | Some (Err _) => (s, Some (Ok Close))
  | Some (Ok h) =>
      match LoopBuffer.get_data (E:=bytes) (buffer r) with
      | Err _ | Panic => (s, Some Panic)
      | Ok buf =>
          match resolve_endpoint conn h buf s with
          | Err _ | Panic => (s, Some Panic)
          | Ok s =>
              match endpoint_info s with
              | None =>
                  let '(s, r) := respond_error env conn HttpConfigurationIsNotFound s in (s, Some r)
              | Some e => serve_endpoint fuel env e conn h buf s
              end
          end
      end
  end.

(** The loop of [serve_reverse_proxy_pipelined]: the steps of the connection,
    one per element of [envs], the configuration each request finds and its
    body channel's results. *)
Fixpoint serve_connection (fuel : nat) (envs : list (AppConfiguration * list (option NetworkError)))
    (conn : HttpConnectionInfo) (s : State) : State * option (outcome bytes ReaderStep) :=
  match envs with
  | [] => (s, Some (Ok Continue))
  | (env, verdicts) :: envs =>
      let s := {| reader := reader s; endpoint_info := endpoint_info s; queue := queue s;
                  queue_verdicts := queue_verdicts s; body_verdicts := verdicts; ip_blocklist := ip_blocklist s;
                  auth_codes := auth_codes s |} in
      let '(s, step) := read_and_dispatch fuel env conn s in
      match step with
      | Some (Ok Continue) => serve_connection fuel envs conn s
      | other => (s, other)
      end
  end.

(** ** What reaches an upstream *)

(** The step neither reserved a slot for a worker nor handed the connection
    to a tunnel; at most it answered. *)
Definition kept_here (s s' : State) (step : option (outcome bytes ReaderStep)) : Prop :=
  (queue s' = queue s \/ exists p t, queue s' = queue s ++ [Answer p t]) /\
  forall req t, step <> Some (Ok (Upgrade req t)).

(** The step passed [req] on, to a worker with its body or to a tunnel. *)
Definition passed_on (req : Worker.UpstreamRequest) (s s' : State) (step : option (outcome bytes ReaderStep)) : Prop :=
  (exists chunks t, queue s' = queue s ++ [Proxied req chunks t] /\ forall req t, step <> Some (Ok (Upgrade req t))) \/
  (queue s' = queue s /\ exists t, step = Some (Ok (Upgrade req t))).

(** The OAuth gate of an endpoint lets a request through. *)
Definition gate_open (env : AppConfiguration) (e : Config.HttpEndpointInfo) (h : Http1Headers) (buf : bytes) : Prop :=
  match Config.oauth e with
  | None => True
  | Some id =>
      exists ctx facts, oauth_credentials env !! id = Some ctx /\ request_facts e h buf = Ok facts /\
        Route.route_oauth_path (rf_path facts) = Ok None /\
        OAuth.check_bearer ctx (now_secs env)
          {| OAuth.bg_authorization := rf_authorization facts;
             OAuth.bg_base_url := OAuth.base_url ctx (rf_base_url facts);
             OAuth.bg_resource_path := rf_resource_path facts |} = Ok OAuth.Allowed
  end.

(** Everything that is checked before a request is passed on: [e] is its
    endpoint, [who] the identity it acts as, [p] its upstream and [override]
    the host announced to it. *)
Record permitted (env : AppConfiguration) (conn : HttpConnectionInfo) (h : Http1Headers) (buf : bytes)
    (e : Config.HttpEndpointInfo) (location : Config.ProxyPassLocationConfig)
    (who : option Config.HttpProxyPassIdentity) (p : Config.ProxyPassToConfig) (override : option bytes) : Prop := {
  pm_cert : Config.connection_satisfies_client_cert e (snd <$> cn_user_name conn) = true;
  pm_ip : ip_is_allowed env e conn = Ok true;
  pm_gate : gate_open env e h buf;
  pm_location : find_location h buf e = Ok location;
  pm_drop : Config.is_drop (Config.proxy_pass_to location) = false;
  pm_authorized : authorize env e location conn h buf = Ok who;
  pm_user : Config.user_is_allowed (allowed_users env) e who = true;
  pm_upstream : resolve_dynamic_proxy (Config.proxy_pass_to location) h buf = Ok (p, override)
}.

Lemma queue_send_spec x s s' ok :
  queue_send x s = (s', ok) ->
  queue s' = (if ok then queue s ++ [x] else queue s) /\ reader s' = reader s /\ body_verdicts s' = body_verdicts s.
Proof. unfold queue_send. destruct (queue_verdicts s) as [|[] vs]; by intros [= <- <-]. Qed.

Lemma register_failure_queue severity env conn s s' :
  register_failure severity env conn s = Ok s' -> queue s' = queue s /\ reader s' = reader s.
Proof.
  unfold register_failure. destruct (client_ip conn); [|by intros [= <-]].
  destruct (IpBlocklist.register_failure _ _ _ _) as [[? ?]|x|]; [by intros [= <-]|destruct x|done].
Qed.

Lemma respond_error_kept env conn err s s' r :
  respond_error env conn err s = (s', r) -> kept_here s s' (Some r).
Proof.
  unfold respond_error, kept_here.
  assert (forall s1, (if ProxyErrors.register_ip_failure (error_handling APP_VERSION err)
    then register_failure IpBlocklist.Soft env conn s else Ok s) = Ok s1 -> queue s1 = queue s) as Hq.
  { intros s1. destruct (ProxyErrors.register_ip_failure _); [|by intros [= <-]].
    by intros [? _]%register_failure_queue. }
  destruct (if ProxyErrors.register_ip_failure _ then _ else _) as [s1|e|].
  - specialize (Hq _ eq_refl). destruct (page _) as [p|].
    + destruct (queue_send (Answer p DEFAULT_WRITE_TIMEOUT) s1) as [s2 ok] eqn:Hs.
      apply queue_send_spec in Hs as [Hs _]. intros [= <- <-]. cbn [fst]. rewrite Hs, Hq. split; [|done].
      destruct ok; [right; by eexists _, _|by left].
    + intros [= <- <-]. split; [by left|done].
  - intros [= <- <-]. split; [by left|done].
  - intros [= <- <-]. split; [by left|done].
Qed.

Lemma answer_and_keep_kept e b s s' r : answer_and_keep e b s = (s', r) -> kept_here s s' (Some r).
Proof.
  unfold answer_and_keep, emit_single_response. destruct (queue_send _ s) as [s1 ok] eqn:Hs.
  apply queue_send_spec in Hs as [Hs _]. intros [= <- <-]. split.
  - rewrite Hs. destruct ok; [right; by eexists _, _|by left].
  - intros req t. destruct ok; [destruct (negb _)|]; done.
Qed.

Lemma read_body_queue fuel h collect s s' res : read_body fuel h collect s = (s', res) -> queue s' = queue s.
Proof. unfold read_body. destruct (transfer_body _ _ _ _ _) as [[r w] x]. by intros [= <- _]. Qed.

(** The gate leaves the queue alone, and the request too when it opens. *)
Definition gated (s s' : State) (g : option (outcome bytes OAuthGateOutcome)) : Prop :=
  queue s' = queue s /\ g <> Some (Ok Proceed).

Lemma gate_answer_gated fuel env conn h response s s' g :
  gate_answer fuel env conn h response s = (s', g) -> gated s s' g.
Proof.
  unfold gate_answer, register_credential_failure.
  destruct (read_body fuel h false s) as [s1 body] eqn:Hb. apply read_body_queue in Hb.
  destruct body as [[[body|]|e|]|]; try (by intros [= <- <-]).
  destruct (negb (OAuth.register_ip_failure response)); [by intros [= <- <-]|].
  destruct (register_failure _ env conn s1) as [s2| |] eqn:Hr; try (by intros [= <- <-]).
  apply register_failure_queue in Hr as [Hr _]. intros [= <- <-]. split; [congruence|done].
Qed.

Lemma run_oauth_gate_spec fuel env e conn h buf s s' g :
  run_oauth_gate fuel env e conn h buf s = (s', g) ->
  gated s s' g \/ s' = s /\ g = Some (Ok Proceed) /\ gate_open env e h buf.
Proof.
  unfold run_oauth_gate, gate_open. destruct (Config.oauth e) as [id|]; [|intros [= <- <-]; by right].
  destruct (oauth_credentials env !! id) as [ctx|] eqn:Hctx; [|intros Ha; left; by eapply gate_answer_gated].
  destruct (request_facts e h buf) as [facts| |] eqn:Hf; try (intros [= <- <-]; by left).
  destruct (Route.route_oauth_path (rf_path facts)) as [[route|]| |] eqn:Hroute; try (intros [= <- <-]; by left).
  - intros Hrun. left. destruct (read_body fuel h true s) as [s1 body] eqn:Hb. apply read_body_queue in Hb.
    destruct body as [[[[body|]|]|err|]|]; try (by injection Hrun as <- <-).
    destruct (OAuth.handle_oauth_request _ _ _ _ _ _ _) as [codes response]. unfold register_credential_failure in Hrun.
    destruct response as [response| |]; try (by injection Hrun as <- <-).
    destruct (negb (OAuth.register_ip_failure response)); [by injection Hrun as <- <-|].
    destruct (register_failure _ env conn _) as [s2| |] eqn:Hr; try (by injection Hrun as <- <-).
    apply register_failure_queue in Hr as [Hr _]. injection Hrun as <- <-. split; [by etrans; [exact Hr|]|done].
  - unfold gate_proxied_request. destruct (OAuth.check_bearer _ _ _) as [[|resp]| |] eqn:Hc;
      try (intros [= <- <-]; by left); [|intros Ha; left; by eapply gate_answer_gated].
    intros [= <- <-]. right. split_and!; try done. by exists ctx, facts.
Qed.

Lemma forward_request_spec fuel env e location conn h who p override s s' step :
  forward_request fuel env e location conn h who p override s = (s', step) ->
  kept_here s s' step \/
  exists req k, passed_on req s s' step /\ Worker.req_proxy_pass_to req = p /\ Worker.req_end_point_info req = e /\
    Rewrite.compile_headers iter_add h (Rewrite.RequestHead (Config.heads e)) (head_info conn)
      (Config.identity_as_str <$> who) (Config.mcp_path p) override (core (reader s)) = Ok k /\
    Worker.req_head req = Rewrite.builder (fst k) /\
    forall req' chunks t, queue s' = queue s ++ [Proxied req' chunks t] ->
      exists sink res, transfer_body fuel oc (content_length h) (set_core (fst k) (reader s))
          {| BodyRelay.writes := []; BodyRelay.verdicts := body_verdicts s |} = (reader s', sink, res) /\
        chunks = BodyRelay.writes sink /\ (step = Some (Ok Continue) -> exists n, res = Some (Ok n)).
Proof.
  unfold forward_request. destruct (Rewrite.compile_headers _ _ _ _ _ _ _ _) as [[k ws]|err|] eqn:Hk.
  2: { destruct (respond_error _ _ _ s) as [s1 r] eqn:Hr. intros [= <- <-]. left. by eapply respond_error_kept. }
  2: { intros [= <- <-]. left. split; [by left|done]. }
  set (s1 := set_reader _ s). change (queue s1) with (queue s).
  set (req := {| Worker.req_proxy_pass_to := p |}).
  destruct (local_response _ _) as [[b|]| |]; try (intros [= <- <-]; left; split; [by left|done]).
  - destruct (transfer_body _ _ _ _ _) as [[r w] res]. destruct res as [[|x|]|];
      try (intros [= <- <-]; left; split; [by left|done]).
    all: destruct (answer_and_keep e b (set_reader r s1)) as [s2 x2] eqn:Ha;
      intros [= <- <-]; left; exact (answer_and_keep_kept _ _ _ _ _ Ha).
  - destruct ws.
    { intros [= <- <-]. right. exists req, (k, true). split_and!; try done; [right; split; [done|by eexists]|].
      intros req' chunks t Hq. exfalso. apply (f_equal length) in Hq. rewrite length_app in Hq. cbn in Hq. lia. }
    destruct (queue_send _ s1) as [s2 ok] eqn:Hs. apply queue_send_spec in Hs as (Hq & Hrd & Hbv).
    destruct ok; cbn [negb]; [|intros [= <- <-]; left; split; [by left|done]].
    rewrite Hrd, Hbv. change (reader s1) with (set_core k (reader s)). change (body_verdicts s1) with (body_verdicts s).
    destruct (transfer_body _ _ _ _ _) as [[r sink] res] eqn:Htb. intros Hend. right. exists req, (k, false).
    assert (queue s' = queue s ++ [Proxied req (BodyRelay.writes sink) (snd (Config.timeouts e))] /\ reader s' = r /\
      (forall req t, step <> Some (Ok (Upgrade req t))) /\ (step = Some (Ok Continue) -> exists n, res = Some (Ok n)))
      as (Hq' & <- & Hup & Hok).
    { destruct res as [[n|x|]|]; injection Hend as <- <-; split_and!; try done; [by destruct (Config.keep_alive e)|].
      intros _. by exists n. }
    split_and!; try done; [left; by eexists _, _|]. intros req' chunks t Hq2.
    rewrite Hq' in Hq2. apply app_inj_2 in Hq2 as [_ [= <- <- <-]]; [|done]. by exists sink, res.
Qed.

Lemma kept_here_queue s1 s s' step : queue s1 = queue s -> kept_here s1 s' step -> kept_here s s' step.
Proof. unfold kept_here. by intros ->. Qed.

(** A request that is not passed on by the checks is kept. *)
Lemma route_request_spec fuel env e conn h buf s s' step :
  route_request fuel env e conn h buf s = (s', step) ->
  Config.connection_satisfies_client_cert e (snd <$> cn_user_name conn) = true ->
  ip_is_allowed env e conn = Ok true -> gate_open env e h buf ->
  kept_here s s' step \/
  exists location who p override, permitted env conn h buf e location who p override /\
    forward_request fuel env e location conn h who p override s = (s', step).
Proof.
  intros Hrun Hcert Hip Hgate. unfold route_request in Hrun.
  assert (forall err, (let '(s1, r) := respond_error env conn err s in (s1, Some r)) = (s', step) ->
    kept_here s s' step) as Hfail.
  { intros err. destruct (respond_error env conn err s) as [s1 r] eqn:Hr. intros [= <- <-].
    by eapply respond_error_kept. }
  assert ((s, Some Panic) = (s', step) -> kept_here s s' step) as Hpanic by (intros [= <- <-]; split; [by left|done]).
  destruct (find_location h buf e) as [location|err|] eqn:Hloc; [|left; by eapply Hfail|left; by apply Hpanic].
  destruct (Config.is_drop (Config.proxy_pass_to location)) eqn:Hdrop.
  { injection Hrun as <- <-. left. split; [by left|done]. }
  destruct (authorize env e location conn h buf) as [who|err|] eqn:Hauth; [|left; by eapply Hfail|left; by apply Hpanic].
  destruct (Config.user_is_allowed (allowed_users env) e who) eqn:Husers; cbn [negb] in Hrun; [|left; by eapply Hfail].
  destruct (resolve_dynamic_proxy (Config.proxy_pass_to location) h buf) as [[p override]|err|] eqn:Hdyn;
    [|left; by eapply Hfail|left; by apply Hpanic].
  right. by exists location, who, p, override.
Qed.

Lemma resolve_endpoint_frame conn h buf s s1 :
  resolve_endpoint conn h buf s = Ok s1 -> queue s1 = queue s /\ reader s1 = reader s.
Proof.
  unfold resolve_endpoint. destruct (request_host h buf) as [host| |]; cbn [mbind outcome_bind]; try done.
  destruct (needs_endpoint_resolve _ _); [|by intros [= <-]].
  destruct (try_find_endpoint_info _ _ _) as [found| |]; cbn [mbind outcome_bind]; try done.
  intros [= <-]. by repeat case_match.
Qed.

Lemma serve_endpoint_spec fuel env e conn h buf s s' step :
  serve_endpoint fuel env e conn h buf s = (s', step) ->
  kept_here s s' step \/
  exists location who p override, permitted env conn h buf e location who p override /\
    forward_request fuel env e location conn h who p override
      (set_reader (set_timeouts (Config.timeouts e) (reader s)) s) = (s', step).
Proof.
  unfold serve_endpoint. set (s2 := set_reader _ s).
  assert (forall err, (let '(s3, x) := respond_error env conn err s2 in (s3, Some x)) = (s', step) ->
    kept_here s s' step) as Hfail.
  { intros err. destruct (respond_error env conn err s2) as [s3 x] eqn:Hx. intros [= <- <-].
    exact (respond_error_kept _ _ _ _ _ _ Hx). }
  destruct (Config.connection_satisfies_client_cert e _) eqn:Hcert; cbn [negb]; [|intros; left; by eapply Hfail].
  destruct (ip_is_allowed env e conn) as [[]| |] eqn:Hip; try (intros [= <- <-]; left; split; [by left|done]).
  2: { intros; left; by eapply Hfail. }
  destruct (run_oauth_gate fuel env e conn h buf s2) as [s3 g] eqn:Hg.
  apply run_oauth_gate_spec in Hg as [[Hq3 Hng]|(-> & -> & Hopen)].
  - intros Hend. left. destruct g as [[[|b|]| |]|]; try done; try (injection Hend as <- <-; split; [by left|done]).
    destruct (answer_and_keep e b s3) as [s4 x] eqn:Hx. injection Hend as <- <-.
    apply answer_and_keep_kept in Hx. by apply (kept_here_queue s3).
  - intros Hroute. apply route_request_spec in Hroute as [?|?]; try done; [by left|by right].
Qed.

(** One step, up to the point where an authorized request is forwarded. *)
Lemma read_and_dispatch_spec fuel env conn s s' step :
  read_and_dispatch fuel env conn s = (s', step) ->
  kept_here s s' step \/
  exists r h buf s1 e location who p override,
    read_headers (reader s) = (r, Some (Ok h)) /\ LoopBuffer.get_data (E:=bytes) (buffer r) = Ok buf /\
    resolve_endpoint conn h buf (set_reader r s) = Ok s1 /\ endpoint_info s1 = Some e /\
    queue s1 = queue s /\ reader s1 = r /\ permitted env conn h buf e location who p override /\
    forward_request fuel env e location conn h who p override
      (set_reader (set_timeouts (Config.timeouts e) r) s1) = (s', step).
Proof.
  unfold read_and_dispatch. destruct (read_headers (reader s)) as [r res] eqn:Hr.
  destruct res as [[h|err|]|]; try (intros [= <- <-]; left; split; [by left|done]).
  destruct (LoopBuffer.get_data (buffer r)) as [buf| |] eqn:Hbuf; try (intros [= <- <-]; left; split; [by left|done]).
  destruct (resolve_endpoint conn h buf (set_reader r s)) as [s1| |] eqn:Hres;
    try (intros [= <- <-]; left; split; [by left|done]).
  destruct (resolve_endpoint_frame _ _ _ _ _ Hres) as [Hq1 Hr1].
  destruct (endpoint_info s1) as [e|] eqn:He.
  - intros [?|(l & who & p & o & Hpm & Hf)]%serve_endpoint_spec; [left; by apply (kept_here_queue s1)|].
    rewrite Hr1 in Hf. right. exists r, h, buf, s1, e, l, who, p, o. by split_and!.
  - destruct (respond_error env conn HttpConfigurationIsNotFound s1) as [s2 x] eqn:Hx. intros [= <- <-]. left.
    apply (kept_here_queue s1); [done|]. by eapply respond_error_kept.
Qed.

(** C1: nothing reaches an upstream unchecked.  Whatever the configuration,
    the connection and the bytes of the client, one step of the reader either
    keeps the request here, answering at most once, or passes on exactly one
    request, and then every check was made on the endpoint the request was
    routed to and passed: the client certificate the endpoint requires, its
    address list, its OAuth gate (which never opens while its configuration
    is missing), a location that is not a drop, the location's authorization,
    the allowed users, and for a dynamic location the allowed hosts.  What is
    passed on is the rewritten head, for that location's upstream. *)
Theorem nothing_passes_unchecked fuel env conn s s' step :
  read_and_dispatch fuel env conn s = (s', step) ->
  kept_here s s' step \/
  exists r h buf s1 e location who p override req k,
    read_headers (reader s) = (r, Some (Ok h)) /\ LoopBuffer.get_data (E:=bytes) (buffer r) = Ok buf /\
    resolve_endpoint conn h buf (set_reader r s) = Ok s1 /\ endpoint_info s1 = Some e /\
    permitted env conn h buf e location who p override /\ passed_on req s s' step /\
    Worker.req_proxy_pass_to req = p /\ Worker.req_end_point_info req = e /\
    Rewrite.compile_headers iter_add h (Rewrite.RequestHead (Config.heads e)) (head_info conn)
      (Config.identity_as_str <$> who) (Config.mcp_path p) override (core r) = Ok k /\
    Worker.req_head req = Rewrite.builder (fst k).
Proof.
  intros [?|(r & h & buf & s1 & e & l & who & p & o & Hr & Hb & Hres & He & Hq & Hrd & Hpm & Hf)]%read_and_dispatch_spec;
    [by left|].
  apply forward_request_spec in Hf as [Hk|(req & k & Hp & Hto & Hei & Hc & Hh & _)].
  - left. by apply (kept_here_queue s1).
  - right. exists r, h, buf, s1, e, l, who, p, o, req, k. split_and!; try done.
    unfold passed_on in *. cbn [queue set_reader] in Hp. by rewrite Hq in Hp.
Qed.

(** C17: a request's body is what follows its head.  When a request goes to
    a worker, the worker is fed exactly the bytes behind the request's head,
    and the next request is read from the byte behind those; with a
    Content-Length the connection is only kept when that many were fed. *)
Theorem body_is_what_follows_the_head fuel env conn s s' step req chunks t :
  ok_reader (reader s) ->
  read_and_dispatch fuel env conn s = (s', step) -> queue s' = queue s ++ [Proxied req chunks t] ->
  exists r h, read_headers (reader s) = (r, Some (Ok h)) /\
    drop (head_end h) (arriving (reader s)) = concat chunks ++ arriving (reader s') /\
    ok_reader (reader s') /\
    (forall n, content_length h = Known n -> step = Some (Ok Continue) -> Z.of_nat (length (concat chunks)) = n).
Proof.
  intros Hok Hrun Hq'.
  assert (forall s0, queue s0 = queue s -> kept_here s0 s' step -> False) as Hnot.
  { intros s0 Hq0 [[Hx|(pg & t' & Hx)] _]; rewrite Hx, Hq0 in Hq'.
    - apply (f_equal length) in Hq'. rewrite length_app in Hq'. cbn in Hq'. lia.
    - by apply app_inv_head in Hq'. }
  apply read_and_dispatch_spec in Hrun
    as [Hk|(r & h & buf & s1 & e & l & who & p & o & Hr & Hb & Hres & He & Hq & Hrd & Hpm & Hf)]; [by destruct (Hnot s)|].
  apply forward_request_spec in Hf as [Hk|(rq & [k ws] & _ & _ & _ & Hc & _ & Hbody)];
    [by destruct (Hnot (set_reader (set_timeouts (Config.timeouts e) r) s1))|].
  destruct (Hbody req chunks t) as (sink & res & Htb & -> & Hcont); [cbn [queue set_reader]; by rewrite Hq|].
  exists r, h. split; [done|]. cbn [fst reader set_reader] in *.
  destruct (read_headers_spec (S (ReadPart.size (read_part (reader s)))) (reader s)) as (r' & x & Hrd2 & Hon & Hl); [lia|done|].
  unfold read_headers in Hr. rewrite Hr in Hrd2. injection Hrd2 as <- <-.
  destruct (behind_head r h k (ro_ok _ _ Hon) Hl (compile_headers_buffer _ _ _ _ _ _ _ _ _ _ Hc))
    as (Hok2 & Hlen & _ & Harr).
  set (w0 := {| BodyRelay.writes := []; BodyRelay.verdicts := _ |}) in Htb.
  assert (BodyRelay.ok_io (to_io (set_core k (set_timeouts (Config.timeouts e) r)) w0)) as Hio by exact Hok2.
  destruct (transfer_body_exact _ _ _ _ _ _ _ _ Hlen Hio Htb) as (m & Hm & Hn).
  assert (concat (BodyRelay.writes sink) = take (Z.to_nat m) (arriving (set_core k r))) as Hw.
  { destruct (BodyRelay.moved_writes _ _ _ Hm) as (cs & Hws & Hcs & _). cbn in Hws. rewrite Hws. exact Hcs. }
  assert (arriving (reader s') = drop (Z.to_nat m) (arriving (set_core k r))) as Hst
    by exact (BodyRelay.moved_stream _ _ _ Hm).
  assert (0 <= m <= Z.of_nat (length (arriving (set_core k r)))) as Hml by exact (BodyRelay.moved_len _ _ _ Hm).
  rewrite Hw, Hst, <-(ro_arriving _ _ Hon), <-Harr, take_drop. split_and!; [done|exact (BodyRelay.moved_ok _ _ _ Hm)|].
  intros n Hkn Hstep. destruct (Hcont Hstep) as [v ->]. rewrite length_take. specialize (Hn n v Hkn eq_refl). lia.
Qed.

(** C25: who a request acts as.  A request that is authorized carried the
    location's secret, if there is one, and acts as nobody, as the Google
    user whose cookie the endpoint's own Google block accepts, or as the
    holder of the connection's certificate, and this only where the endpoint
    requires the very CA that verified it: a certificate shown to one virtual
    host is no identity on another. *)
Theorem identity_is_confined env e location conn h data who :
  authorize env e location conn h data = Ok who ->
  (forall expected, Config.auth_header location = Some expected ->
     find_authorization_value h data = Ok (Some expected)) /\
  match who with
  | Some (Config.ClientCert cn ca) =>
      cn_user_name conn = Some (cn, ca) /\ Config.client_certificate_id e = Some ca /\ Config.g_auth e = None
  | Some (Config.GoogleUser email) =>
      exists g, Config.g_auth e = Some g /\
        Google.handle_google_auth token_secret_key (now_micros env) (google_auth_credentials env)
          (Google.headers_reader h data) g (Config.debug e) = Ok (Google.Passed email)
  | None => Config.g_auth e = None
  end.
Proof.
  unfold authorize. destruct (auth_header_matches location h data) as [[]| |] eqn:Hm; try done. intros Ha. split.
  { intros expected He. unfold auth_header_matches in Hm. rewrite He in Hm.
    destruct (find_authorization_value h data) as [[actual|]| |]; cbn [mbind outcome_bind] in Hm; try done.
    injection Hm as Hm. apply bool_decide_eq_true in Hm. by subst. }
  assert (cert_identity e conn = who -> Config.g_auth e = None -> match who with
    | Some (Config.ClientCert cn ca) =>
        cn_user_name conn = Some (cn, ca) /\ Config.client_certificate_id e = Some ca /\ Config.g_auth e = None
    | Some (Config.GoogleUser email) => False
    | None => Config.g_auth e = None
    end) as Hcert.
  { unfold cert_identity, Config.client_cert_identity_applies. intros <- Hg.
    destruct (cn_user_name conn) as [[cn ca]|]; cbn [mbind option_bind]; [|done].
    destruct (Config.client_certificate_id e) as [required|]; [|done]. case_bool_decide; [by subst|done]. }
  unfold Config.must_be_authorized in Ha. destruct (Config.g_auth e) as [g|].
  - unfold google_identity, answer_page, from_google_auth_error in Ha.
    destruct (Google.handle_google_auth _ _ _ _ g _) as [[email|email|c]|err|] eqn:Hh; try done.
    + injection Ha as <-. by exists g.
    + by destruct (Google.generate_authenticated_user _ _).
    + by destruct (Google.generate_login_page _ _).
    + destruct err; try done; unfold answer_page in Ha; by repeat case_match.
  - assert (cert_identity e conn = who) as Hw by (destruct (Config.ssl_certificate_id e); congruence).
    specialize (Hcert Hw eq_refl). destruct who as [[]|]; done.
Qed.

(** What a slot of a connection's queue stands for. *)
Definition slot_checked (envs : list AppConfiguration) (conn : HttpConnectionInfo) (x : Slot) : Prop :=
  match x with
  | Answer _ _ => True
  | Proxied req _ _ =>
      exists env h buf location who override, env ∈ envs /\
        permitted env conn h buf (Worker.req_end_point_info req) location who (Worker.req_proxy_pass_to req) override
  end.

Lemma slot_checked_mono envs envs' conn x : envs ⊆ envs' -> slot_checked envs conn x -> slot_checked envs' conn x.
Proof. destruct x; cbn; [done|]. intros Hs (env & ? & ? & ? & ? & ? & Hin & ?). naive_solver. Qed.

Lemma step_slots fuel env conn s s' step :
  read_and_dispatch fuel env conn s = (s', step) ->
  exists slots, queue s' = queue s ++ slots /\ (length slots <= 1)%nat /\ Forall (slot_checked [env] conn) slots.
Proof.
  assert (forall s0, queue s0 = queue s -> kept_here s0 s' step ->
    exists slots, queue s' = queue s ++ slots /\ (length slots <= 1)%nat /\ Forall (slot_checked [env] conn) slots) as Hkept.
  { intros s0 Hq0 [[Hq|(p & t & Hq)] _]; rewrite Hq, Hq0; [exists []|exists [Answer p t]].
    - rewrite app_nil_r. split_and!; [done|cbn; lia|constructor].
    - split_and!; [done|cbn; lia|by apply Forall_singleton]. }
  intros [Hk|(r & h & buf & s1 & e & l & who & p & o & _ & _ & _ & _ & Hq & _ & Hpm & Hf)]%read_and_dispatch_spec;
    [by apply (Hkept s)|].
  apply forward_request_spec in Hf as [Hk|(req & k & Hp & Hto & He & _)]; [by apply (Hkept _ Hq)|].
  cbn [queue set_reader] in Hp. destruct Hp as [(chunks & t & Hs & _)|[Hs _]]; cbn in Hs; rewrite Hs, Hq.
  - exists [Proxied req chunks t]. split_and!; [done|cbn; lia|]. apply Forall_singleton. cbn. rewrite Hto, He.
    exists env, h, buf, l, who, o. split; [set_solver|done].
  - exists []. rewrite app_nil_r. split_and!; [done|cbn; lia|constructor].
Qed.

(** The whole connection.  However many requests a connection carries,
    with the configuration changing between them, the response queue gets at
    most one slot per request, in the order of the requests, and every slot
    that belongs to a worker holds a request that passed all the checks of
    its own endpoint under the configuration of that moment. *)
Theorem connection_slots_checked fuel envs conn s s' step :
  serve_connection fuel envs conn s = (s', step) ->
  exists slots, queue s' = queue s ++ slots /\ (length slots <= length envs)%nat /\
    Forall (slot_checked (map fst envs) conn) slots.
Proof.
  revert s s' step. induction envs as [|[env verdicts] envs IH]; intros s s' step; cbn [serve_connection].
  { intros [= <- <-]. exists []. rewrite app_nil_r. split_and!; [done|cbn; lia|constructor]. }
  set (s0 := {| reader := reader s |}). destruct (read_and_dispatch fuel env conn s0) as [s1 x] eqn:Hstep.
  apply step_slots in Hstep as (sl & Hq & Hl & Hf). change (queue s0) with (queue s) in Hq.
  assert (Forall (slot_checked (map fst ((env, verdicts) :: envs)) conn) sl) as Hf1.
  { eapply Forall_impl; [exact Hf|]. intros y. apply slot_checked_mono. set_solver. }
  assert ((s1, x) = (s', step) -> exists slots, queue s' = queue s ++ slots /\
    (length slots <= length ((env, verdicts) :: envs))%nat /\
    Forall (slot_checked (map fst ((env, verdicts) :: envs)) conn) slots) as Hstop.
  { intros [= <- <-]. exists sl. split_and!; [done|cbn; lia|done]. }
  destruct x as [[[| |]| |]|]; try exact Hstop.
  intros (sl' & Hq' & Hl' & Hf')%IH. exists (sl ++ sl'). rewrite Hq', Hq, app_assoc, length_app. cbn [length].
  split_and!; [done|lia|]. apply Forall_app_2; [done|]. eapply Forall_impl; [exact Hf'|].
  intros y. apply slot_checked_mono. set_solver.
Qed.

End Dispatch.

(** ** Witnesses: a POST to a plain endpoint *)

#[local] Existing Instance reference_slice_ext.
#[local] Existing Instance H1.reference_h1_libs.
#[local] Existing Instance Rewrite.demo_libs.
#[local] Existing Instance Config.text_endpoints.
#[local] Existing Instance ToyLibs.toy_libs.
#[local] Existing Instance Google.demo_google.
#[local] Existing Instance IpBlocklist.IpBlocklist.micros_lib.
#[local] Existing Instance Content.demo_files.
#[local] Instance demo_json : SerdeJson := {| json_to_vec := fun _ => Some (bs "{}") |}.

Definition demo_plain : Config.HttpEndpointInfo :=
  {| Config.host_endpoint := Config.demo_host; Config.debug := false; Config.listen_endpoint_type := Config.LHttps1;
     Config.g_auth := None; Config.ssl_certificate_id := None; Config.client_certificate_id := Some (bs "ca");
     Config.locations := [Config.demo_location (bs "/") (bs "h:80")]; Config.allowed_user_list_id := Some (bs "staff");
     Config.whitelisted_ip_list_id := Some (bs "office"); Config.track_metrics_by_all_domains := false;
     Config.mcp_settings := {| Config.mcp_read_timeout := 180; Config.mcp_write_timeout := 30; Config.mcp_buffer_size := 512 |};
     Config.timeouts := (180, 30);
     Config.heads := Rewrite.endpoint_new false true None true false Rewrite.demo_settings |}.

Definition demo_env : AppConfiguration :=
  {| google_auth_credentials := ∅; oauth_credentials := ∅; allowed_users := {[ bs "staff" := {[ bs "bob" ]} ]};
     white_list_ip_list := {[ bs "office" := [WhiteList.Range 0 4294967295] ]};
     now_secs := 0; now_micros := 0; random_code := [] |}.

Definition demo_connection_info : HttpConnectionInfo :=
  {| listen_config := Config.port_new demo_plain (Config.ListenTcp 443);
     client_ip := Some (WhiteList.V4 Byte.x0a Byte.x00 Byte.x00 Byte.x07);
     head_info := {| Rewrite.connection_ip := Some (bs "10.0.0.7"); Rewrite.endpoint_is_https := true |};
     cn_user_name := Some (bs "bob", bs "ca") |}.

Definition demo_wire : bytes :=
  head (bs "POST /x HTTP/1.1") [Rewrite.own_line (bs "Host") (bs "a.b"); Rewrite.own_line (bs "Content-Length") (bs "3")]
  ++ bs "abcGET".

Definition demo_state : State :=
  {| reader := reader_new (replicate 120 Byte.x00) [ReadPart.Data (take 30 demo_wire); ReadPart.Data (drop 30 demo_wire)] (1, 1);
     endpoint_info := None; queue := []; queue_verdicts := []; body_verdicts := [];
     ip_blocklist := IpBlocklist.init; auth_codes := ∅ |}.

Definition demo_run := read_and_dispatch map_to_list map_to_list (bs "1") [] true 5 demo_env demo_connection_info demo_state.

Definition demo_passed : Worker.UpstreamRequest :=
  {| Worker.req_proxy_pass_to := Config.proxy_pass_to (Config.demo_location (bs "/") (bs "h:80"));
     Worker.req_end_point_info := demo_plain; Worker.req_connection_info := head_info demo_connection_info;
     Worker.req_head := head (bs "POST /x HTTP/1.1")
       [Rewrite.own_line (bs "Host") (bs "a.b"); Rewrite.own_line (bs "Content-Length") (bs "3");
        Rewrite.own_line (bs "X-Forwarded-For") (bs "10.0.0.7"); Rewrite.own_line (bs "X-Proxy") (bs "1")] |}.

Lemma demo_run_queue : queue (fst demo_run) = [Proxied demo_passed [bs "abc"] 30].
Proof. vm_compute. reflexivity. Qed.

Lemma demo_state_ok : ok_reader (reader demo_state).
Proof. apply reader_new_ok. vm_compute. lia. Qed.

Lemma nothing_passes_unchecked_witness :
  exists h buf e location who p override,
    permitted [] demo_env demo_connection_info h buf e location who p override.
Proof.
  destruct (nothing_passes_unchecked map_to_list map_to_list (bs "1") [] true 5 demo_env demo_connection_info demo_state
    (fst demo_run) (snd demo_run) (surjective_pairing demo_run)) as
    [[[Hq|(p & t & Hq)] _]|(r & h & buf & s1 & e & l & who & p & o & req & k & _ & _ & _ & _ & Hpm & _)].
  - rewrite demo_run_queue in Hq. discriminate Hq.
  - rewrite demo_run_queue in Hq. discriminate Hq.
  - exists h, buf, e, l, who, p, o. exact Hpm.
Defined.

Lemma identity_is_confined_witness :
  exists h, authorize [] demo_env demo_plain (Config.demo_location (bs "/") (bs "h:80")) demo_connection_info h [] =
      Ok (Some (Config.ClientCert (bs "bob") (bs "ca"))) /\
    Config.client_certificate_id demo_plain = Some (bs "ca").
Proof.
  exists (start_state []). split; [vm_compute; reflexivity|].
  destruct (identity_is_confined [] demo_env demo_plain (Config.demo_location (bs "/") (bs "h:80")) demo_connection_info
    (start_state []) [] (Some (Config.ClientCert (bs "bob") (bs "ca"))) ltac:(vm_compute; reflexivity)) as (_ & _ & Hca & _).
  exact Hca.
Defined.

Lemma body_is_what_follows_the_head_witness :
  exists h, drop (head_end h) (arriving (reader demo_state)) = bs "abc" ++ arriving (reader (fst demo_run)).
Proof.
  destruct (body_is_what_follows_the_head map_to_list map_to_list (bs "1") [] true 5 demo_env demo_connection_info demo_state
    (fst demo_run) (snd demo_run) demo_passed [bs "abc"] 30 demo_state_ok (surjective_pairing demo_run) demo_run_queue)
    as (r & h & _ & Hd & _).
  exists h. exact Hd.
Defined.

Lemma connection_slots_checked_witness :
  exists slots, queue (fst (serve_connection map_to_list map_to_list (bs "1") [] true 5 [(demo_env, [])]
      demo_connection_info demo_state)) = slots /\ (length slots <= 1)%nat /\
    Forall (slot_checked [] [demo_env] demo_connection_info) slots.
Proof.
  destruct (connection_slots_checked map_to_list map_to_list (bs "1") [] true 5 [(demo_env, [])]
    demo_connection_info demo_state _ _ (surjective_pairing _)) as (slots & Hq & Hl & Hf).
  exists slots. split; [exact Hq|]. split; [exact Hl|exact Hf].
Defined.

End Dispatch.
