(* ===== verification/H2Pool.v ===== *)
(** * Shared HTTP/2 connections: [upstream_h2_pool/], and the request loop of
      [http_proxy_pass/content_source/h2_dispatch.rs]

    A pool keeps up to [pool_size] connections, each used by many requests at
    once.  A dead connection is replaced in the background; only when all are
    dead does a request dial itself, under the entry's lock and not more often
    than the cooldown allows.  Requests, background revivals, the top-up task
    and the supervisor are tasks with a program counter; a transition runs
    from one await or racy access to the next, and a look at one entry of a
    scan is one transition.  The clock does not go back. *)

From Stdlib Require Import ZArith Lia Strings.Byte.
From stdpp Require Import base tactics list gmap.
From S2P Require Import Prelude.

Local Open Scope Z_scope.

Module H2Pool.

(** The parameters the pool's own decisions use; durations are microseconds. *)
Record PoolParams := {
  pool_size : nat;
  health_check_path : option bytes;
  hot_window : Z;
  revive_cooldown : Z
}.

(** [H2Entry]; a client is named by the number of its connect, the holder of
    the lock by its task. *)
Record H2Entry := {
  client : nat;
  dead : bool;
  last_success : Z;
  revive_pending : bool;
  last_revive_attempt : Z;
  revive_lock : option nat
}.

Definition entry_new (c : nat) (now : Z) : H2Entry :=
  {| client := c; dead := false; last_success := now; revive_pending := false;
     last_revive_attempt := 0; revive_lock := None |}.

Definition set_dead (b : bool) (e : H2Entry) : H2Entry :=
  {| client := client e; dead := b; last_success := last_success e; revive_pending := revive_pending e;
     last_revive_attempt := last_revive_attempt e; revive_lock := revive_lock e |}.
Definition set_last_success (t : Z) (e : H2Entry) : H2Entry :=
  {| client := client e; dead := dead e; last_success := t; revive_pending := revive_pending e;
     last_revive_attempt := last_revive_attempt e; revive_lock := revive_lock e |}.
Definition set_pending (b : bool) (e : H2Entry) : H2Entry :=
  {| client := client e; dead := dead e; last_success := last_success e; revive_pending := b;
     last_revive_attempt := last_revive_attempt e; revive_lock := revive_lock e |}.
Definition set_attempt (t : Z) (e : H2Entry) : H2Entry :=
  {| client := client e; dead := dead e; last_success := last_success e; revive_pending := revive_pending e;
     last_revive_attempt := t; revive_lock := revive_lock e |}.
Definition set_lock (l : option nat) (e : H2Entry) : H2Entry :=
  {| client := client e; dead := dead e; last_success := last_success e; revive_pending := revive_pending e;
     last_revive_attempt := last_revive_attempt e; revive_lock := l |}.

(** A successful dial: the new client, its time, and no longer dead. *)
Definition revived (c : nat) (now : Z) (e : H2Entry) : H2Entry :=
  {| client := c; dead := false; last_success := now; revive_pending := revive_pending e;
     last_revive_attempt := last_revive_attempt e; revive_lock := revive_lock e |}.

(** [revive_cooldown_remaining] *)
Definition revive_cooldown_remaining (now cooldown : Z) (e : H2Entry) : option Z :=
  let elapsed := now - last_revive_attempt e in
  if 0 <? elapsed then (if elapsed <? cooldown then Some (cooldown - elapsed) else None)
  else if elapsed =? 0 then Some cooldown
  else None.

(** [liveness_path_is_valid] *)
Definition liveness_path_is_valid (path : bytes) : bool :=
  negb (existsb (fun b => bool_decide (b = Byte.x0d) || bool_decide (b = Byte.x0a)
                          || bool_decide (b = Byte.x00) || bool_decide (b = Byte.x20)) path).

(** [ping_entry]: the path asked for, and what the answer says. *)
Definition ping_path (health_check_path : bytes) : bytes :=
  match health_check_path with
  | Byte.x2f :: _ => health_check_path
  | _ => Byte.x2f :: health_check_path
  end.

Definition ping_alive (status : option Z) : bool :=
  match status with Some status => (200 <=? status) && (status <=? 205) | None => false end.

(** A request in [execute_pooled_h2]: whether its method is idempotent, how
    many rounds of the loop are left, and how often it was sent. *)
Record Req := { idempotent : bool; left_attempts : nat; sent : nat }.

Definition max_attempts (idempotent : bool) : nat := if idempotent then 2%nat else 1%nat.

(** Who revives an entry: a request whose scan of [snap] from [start] found
    only dead entries, or a background task. *)
Inductive Origin := Foreground (r : Req) (start : nat) | Background.
Inductive Phase := WaitLock | Recheck | Stamp | Dial.

Inductive Task :=
| Getting (r : Req)                                       (* get_connection is called *)
| Growing (r : Req)                                       (* path 0: awaiting the connect *)
| Scanning (r : Req) (snap : list nat) (start k : nat)    (* path A: about to look at entry start+k *)
| Reviving (o : Origin) (i : nat) (p : Phase)             (* path B, or a background revival *)
| Rescanning (r : Req) (start : nat)                      (* path B failed *)
| Sending (r : Req) (i c : nat)                           (* do_request on client c of entry i *)
| Served (r : Req)
| Failed (r : Req)
| Panicked (r : Req)
| BgStart (i : nat)                                       (* spawned, not yet run *)
| TopUp                                                   (* head of the top-up loop *)
| TopUpConnecting
| Supervising (snap : list nat) (k : nat) (tick : Z)
| Pinging (snap : list nat) (k : nat) (tick : Z)
| Ended.

(** [clients] are entries by number; an entry that is not among them is the
    one-shot connection of one request.  [lost] are the clients whose
    transport is gone.  [dials] is for the specification: which entry was
    redialled, and when. *)
Record Pool := {
  clients : list nat;
  entries : list H2Entry;
  next : Z;
  shutdown : bool;
  top_up_pending : bool;
  fresh_client : nat;
  lost : list nat;
  now : Z;
  tasks : list Task;
  dials : list (nat * Z)
}.

Definition pool_new (now : Z) : Pool :=
  {| clients := []; entries := []; next := 0; shutdown := false; top_up_pending := false; fresh_client := 0;
     lost := []; now := now; tasks := []; dials := [] |}.

Definition with_tasks (ts : list Task) (s : Pool) : Pool :=
  {| clients := clients s; entries := entries s; next := next s; shutdown := shutdown s;
     top_up_pending := top_up_pending s; fresh_client := fresh_client s; lost := lost s; now := now s;
     tasks := ts; dials := dials s |}.
Definition with_entries (es : list H2Entry) (s : Pool) : Pool :=
  {| clients := clients s; entries := es; next := next s; shutdown := shutdown s;
     top_up_pending := top_up_pending s; fresh_client := fresh_client s; lost := lost s; now := now s;
     tasks := tasks s; dials := dials s |}.
Definition with_clients (cs : list nat) (s : Pool) : Pool :=
  {| clients := cs; entries := entries s; next := next s; shutdown := shutdown s;
     top_up_pending := top_up_pending s; fresh_client := fresh_client s; lost := lost s; now := now s;
     tasks := tasks s; dials := dials s |}.
Definition with_next (x : Z) (s : Pool) : Pool :=
  {| clients := clients s; entries := entries s; next := x; shutdown := shutdown s;
     top_up_pending := top_up_pending s; fresh_client := fresh_client s; lost := lost s; now := now s;
     tasks := tasks s; dials := dials s |}.
Definition with_shutdown (s : Pool) : Pool :=
  {| clients := clients s; entries := entries s; next := next s; shutdown := true;
     top_up_pending := top_up_pending s; fresh_client := fresh_client s; lost := lost s; now := now s;
     tasks := tasks s; dials := dials s |}.
Definition with_top_up (b : bool) (s : Pool) : Pool :=
  {| clients := clients s; entries := entries s; next := next s; shutdown := shutdown s;
     top_up_pending := b; fresh_client := fresh_client s; lost := lost s; now := now s;
     tasks := tasks s; dials := dials s |}.
Definition with_lost (c : nat) (s : Pool) : Pool :=
  {| clients := clients s; entries := entries s; next := next s; shutdown := shutdown s;
     top_up_pending := top_up_pending s; fresh_client := fresh_client s; lost := c :: lost s; now := now s;
     tasks := tasks s; dials := dials s |}.
Definition with_now (t : Z) (s : Pool) : Pool :=
  {| clients := clients s; entries := entries s; next := next s; shutdown := shutdown s;
     top_up_pending := top_up_pending s; fresh_client := fresh_client s; lost := lost s; now := t;
     tasks := tasks s; dials := dials s |}.
Definition with_dial (i : nat) (s : Pool) : Pool :=
  {| clients := clients s; entries := entries s; next := next s; shutdown := shutdown s;
     top_up_pending := top_up_pending s; fresh_client := fresh_client s; lost := lost s; now := now s;
     tasks := tasks s; dials := dials s ++ [(i, now s)] |}.
(** A connect takes the next client number. *)
Definition connected (s : Pool) : Pool :=
  {| clients := clients s; entries := entries s; next := next s; shutdown := shutdown s;
     top_up_pending := top_up_pending s; fresh_client := S (fresh_client s); lost := lost s; now := now s;
     tasks := tasks s; dials := dials s |}.

Definition goto (t : nat) (pc : Task) (s : Pool) : Pool := with_tasks (<[t := pc]> (tasks s)) s.
Definition spawn (pc : Task) (s : Pool) : Pool := with_tasks (tasks s ++ [pc]) s.
Definition on_entry (i : nat) (f : H2Entry -> H2Entry) (s : Pool) : Pool :=
  with_entries (alter f i (entries s)) s.

Definition is_alive (s : Pool) (c : nat) : bool := negb (bool_decide (c ∈ lost s)).
Definition entry (i : nat) (s : Pool) : H2Entry := default (entry_new 0 0) (entries s !! i).

Section Params.
Context (params : PoolParams).

(** [try_push] *)
Definition try_push (i : nat) (s : Pool) : bool * Pool :=
  if shutdown s then (false, s)
  else if (pool_size params <=? length (clients s))%nat then (false, s)
  else (true, with_clients (clients s ++ [i]) s).

(** [connect_one] and a new entry around the client. *)
Definition new_entry (s : Pool) : nat * Pool :=
  (length (entries s),
   with_entries (entries s ++ [entry_new (fresh_client s) (now s)]) (connected s)).

(** [spawn_revive] *)
Definition spawn_revive (i : nat) (s : Pool) : Pool :=
  if shutdown s then s
  else if negb (dead (entry i s)) then s
  else if negb (bool_decide (i ∈ clients s)) then s
  else match revive_cooldown_remaining (now s) (revive_cooldown params) (entry i s) with
  | Some _ => s
  | None => if revive_pending (entry i s) then s else spawn (BgStart i) (on_entry i (set_pending true) s)
  end.

(** The request's loop in [execute_pooled_h2]: it goes on with the entry it
    got, or with its next round. *)
Definition send (t : nat) (r : Req) (i : nat) (s : Pool) : Pool :=
  goto t (Sending {| idempotent := idempotent r; left_attempts := left_attempts r; sent := S (sent r) |}
            i (client (entry i s))) s.

Definition next_attempt (t : nat) (r : Req) (s : Pool) : Pool :=
  match left_attempts r with
  | S (S n) => goto t (Getting {| idempotent := idempotent r; left_attempts := S n; sent := sent r |}) s
  | _ => goto t (Failed r) s
  end.

(** [get_connection] up to its scan or its connect. *)
Definition get_connection (t : nat) (r : Req) (s : Pool) : Pool :=
  let len := length (clients s) in
  if (len <? pool_size params)%nat then goto t (Growing r) s
  else if (len =? 0)%nat then goto t (Panicked r) s
  else
    let start := Z.to_nat (next s mod Z.of_nat len) in
    goto t (Scanning r (clients s) start 0) (with_next ((next s + 1) mod 2 ^ 64) s).

Definition grown (t : nat) (r : Req) (ok : bool) (s : Pool) : Pool :=
  if ok then
    let (i, s1) := new_entry s in
    send t r i (try_push i s1).2
  else goto t (Failed r) s.

(** Path A looks at one entry. *)
Definition look (i : nat) (s : Pool) : option nat * Pool :=
  let e := entry i s in
  if negb (dead e) && is_alive s (client e) then (Some i, s)
  else (None, spawn_revive i (if dead e then s else on_entry i (set_dead true) s)).

Definition scan_next (t : nat) (r : Req) (snap : list nat) (start k : nat) (s : Pool) : option Pool :=
  let len := length snap in
  if (len <=? k)%nat then
    match snap !! start with
    | Some i => Some (goto t (Reviving (Foreground r start) i WaitLock) s)
    | None => None
    end
  else match snap !! ((start + k) mod len)%nat with
  | None => None
  | Some i =>
      match look i s with
      | (Some i, s1) => Some (send t r i s1)
      | (None, s1) => Some (goto t (Scanning r snap start (S k)) s1)
      end
  end.

(** The second scan of path B: whatever is not marked dead will do. *)
Fixpoint first_live (s : Pool) (l : list nat) : option nat :=
  match l with
  | [] => None
  | i :: l => if dead (entry i s) then first_live s l else Some i
  end.

Definition rescan (t : nat) (r : Req) (start : nat) (s : Pool) : Pool :=
  let len := length (clients s) in
  let k := (start mod len)%nat in
  match first_live s (drop k (clients s) ++ take k (clients s)) with
  | Some i => send t r i s
  | None => goto t (Failed r) s
  end.

(** [revive_under_lock] returns, and the lock guard goes. *)
Definition revive_done (t : nat) (o : Origin) (i : nat) (ok : bool) (s : Pool) : Pool :=
  let s1 := on_entry i (set_lock None) s in
  match o with
  | Foreground r start => if ok then send t r i s1 else goto t (Rescanning r start) s1
  | Background => goto t Ended (on_entry i (set_pending false) s1)
  end.

Definition acquire (t : nat) (o : Origin) (i : nat) (s : Pool) : option Pool :=
  match revive_lock <$> entries s !! i with
  | Some None => Some (goto t (Reviving o i Recheck) (on_entry i (set_lock (Some t)) s))
  | _ => None
  end.

Definition recheck (t : nat) (o : Origin) (i : nat) (s : Pool) : Pool :=
  if negb (dead (entry i s)) then revive_done t o i true s
  else match revive_cooldown_remaining (now s) (revive_cooldown params) (entry i s) with
  | Some _ => revive_done t o i false s
  | None => goto t (Reviving o i Stamp) s
  end.

Definition stamp (t : nat) (o : Origin) (i : nat) (s : Pool) : Pool :=
  goto t (Reviving o i Dial) (with_dial i (on_entry i (set_attempt (now s)) s)).

Definition dialled (t : nat) (o : Origin) (i : nat) (ok : bool) (s : Pool) : Pool :=
  if ok then revive_done t o i true (connected (on_entry i (revived (fresh_client s) (now s)) s))
  else revive_done t o i false s.

(** The result of [execute_h2]; of the client library's errors the code tells
    two from the rest. *)
Inductive ClientError := RequestTimeout | UpgradedToWebSocket | OtherClientError.
Inductive SendError := MyHttpClientError (e : ClientError) | OtherProxyPassError.
Inductive SendResult := SendOk | SendErr (err : SendError).

(** [is_connection_level_error] *)
Definition is_connection_level_error (err : SendError) : bool :=
  match err with
  | MyHttpClientError e => negb match e with RequestTimeout | UpgradedToWebSocket => true | _ => false end
  | _ => false
  end.

Definition sent_back (t : nat) (r : Req) (i c : nat) (res : SendResult) (s : Pool) : Pool :=
  match res with
  | SendOk => goto t (Served r) (on_entry i (set_last_success (now s)) s)
  | SendErr err =>
      if negb (is_connection_level_error err) then goto t (Failed r) s
      else
        next_attempt t r
          (if (c =? client (entry i s))%nat then spawn_revive i (on_entry i (set_dead true) s) else s)
  end.

(** [spawn_top_up] and its task *)
Definition spawn_top_up (s : Pool) : Pool :=
  let total := length (clients s) in
  if shutdown s then s
  else if (total =? 0)%nat || (pool_size params <=? total)%nat then s
  else if top_up_pending s then s
  else spawn TopUp (with_top_up true s).

Definition top_up_ends (t : nat) (s : Pool) : Pool := goto t Ended (with_top_up false s).

Definition top_up_head (t : nat) (s : Pool) : Pool :=
  if negb (shutdown s) && (length (clients s) <? pool_size params)%nat then goto t TopUpConnecting s
  else top_up_ends t s.

Definition top_up_connected (t : nat) (ok : bool) (s : Pool) : Pool :=
  if ok then
    let (i, s1) := new_entry s in
    match try_push i s1 with
    | (true, s2) => goto t TopUp s2
    | (false, s2) => top_up_ends t s2
    end
  else top_up_ends t s.

(** [supervisor_tick] *)
Definition supervisor_tick (s : Pool) : Pool :=
  if shutdown s then s
  else let s1 := spawn_top_up s in spawn (Supervising (clients s1) 0 (now s1)) s1.

Definition supervise (t : nat) (snap : list nat) (k : nat) (tick : Z) (s : Pool) : Pool :=
  match snap !! k with
  | None => goto t Ended s
  | Some i =>
      if shutdown s then goto t Ended s
      else
        let e := entry i s in
        let continue := goto t (Supervising snap (S k) tick) in
        if dead e then continue (spawn_revive i s)
        else if negb (is_alive s (client e)) then continue (spawn_revive i (on_entry i (set_dead true) s))
        else if Z.max 0 (tick - last_success e) <? hot_window params then continue s
        else match health_check_path params with
        | None => continue s
        | Some path => if liveness_path_is_valid path then goto t (Pinging snap k tick) s else continue s
        end
  end.

Definition pinged (t : nat) (snap : list nat) (k : nat) (tick : Z) (status : option Z) (s : Pool) : Pool :=
  match snap !! k with
  | None => goto t Ended s
  | Some i =>
      goto t (Supervising snap (S k) tick)
        (if ping_alive status then on_entry i (set_last_success (now s)) s
         else spawn_revive i (on_entry i (set_dead true) s))
  end.

(** A future is dropped at its await: its guards run. *)
Definition drop_future (t : nat) (task : Task) (s : Pool) : option Pool :=
  match task with
  | Growing _ | Sending _ _ _ | Pinging _ _ _ => Some (goto t Ended s)
  | TopUp | TopUpConnecting => Some (top_up_ends t s)
  | BgStart i => Some (goto t Ended (on_entry i (set_pending false) s))
  | Reviving o i WaitLock =>
      Some (goto t Ended (match o with Background => on_entry i (set_pending false) s | _ => s end))
  | Reviving o i Dial =>
      let s1 := on_entry i (set_lock None) s in
      Some (goto t Ended (match o with Background => on_entry i (set_pending false) s1 | _ => s1 end))
  | _ => None
  end.

Inductive Action :=
| NewRequest (idempotent : bool)
| Run (t : nat)                          (* the task goes on by itself *)
| Connected (t : nat) (ok : bool)        (* an awaited connect is over *)
| Acquire (t : nat)                      (* the revive lock is granted *)
| BudgetOver (t : nat)                   (* ... or not within the budget *)
| Returned (t : nat) (res : SendResult)
| Answered (t : nat) (status : option Z) (* a ping is over: its status, if it was answered in time *)
| DropFuture (t : nat)
| LateSpawn (i : nat)                    (* spawn_revive whose checks other tasks overtook *)
| Tick
| Lose (c : nat)                         (* the transport of a client breaks *)
| Clock (d : Z)
| Shutdown.

Definition exec (a : Action) (s : Pool) : option Pool :=
  match a with
  | NewRequest idem =>
      Some (spawn (Getting {| idempotent := idem; left_attempts := max_attempts idem; sent := 0 |}) s)
  | Run t =>
      match tasks s !! t with
      | Some (Getting r) => Some (get_connection t r s)
      | Some (Scanning r snap start k) => scan_next t r snap start k s
      | Some (Rescanning r start) => Some (rescan t r start s)
      | Some (Reviving o i Recheck) => Some (recheck t o i s)
      | Some (Reviving o i Stamp) => Some (stamp t o i s)
      | Some (BgStart i) =>
          Some (if shutdown s then goto t Ended (on_entry i (set_pending false) s)
                else goto t (Reviving Background i WaitLock) s)
      | Some TopUp => Some (top_up_head t s)
      | Some (Supervising snap k tick) => Some (supervise t snap k tick s)
      | _ => None
      end
  | Connected t ok =>
      match tasks s !! t with
      | Some (Growing r) => Some (grown t r ok s)
      | Some (Reviving o i Dial) => Some (dialled t o i ok s)
      | Some TopUpConnecting => Some (top_up_connected t ok s)
      | _ => None
      end
  | Acquire t => match tasks s !! t with Some (Reviving o i WaitLock) => acquire t o i s | _ => None end
  | BudgetOver t =>
      match tasks s !! t with
      | Some (Reviving (Foreground r start) i WaitLock) => Some (goto t (Rescanning r start) s)
      | _ => None
      end
  | Returned t res =>
      match tasks s !! t with Some (Sending r i c) => Some (sent_back t r i c res s) | _ => None end
  | Answered t status =>
      match tasks s !! t with Some (Pinging snap k tick) => Some (pinged t snap k tick status s) | _ => None end
  | DropFuture t => match tasks s !! t with Some task => drop_future t task s | None => None end
  | LateSpawn i =>
      if bool_decide (i ∈ clients s) && negb (revive_pending (entry i s))
      then Some (spawn (BgStart i) (on_entry i (set_pending true) s)) else None
  | Tick => Some (supervisor_tick s)
  | Lose c => Some (with_lost c s)
  | Clock d => if 0 <=? d then Some (with_now (now s + d) s) else None
  | Shutdown => Some (with_shutdown s)
  end.

Fixpoint run (acts : list Action) (s : Pool) : option Pool :=
  match acts with
  | [] => Some s
  | a :: rest => match exec a s with Some s1 => run rest s1 | None => None end
  end.

(** ** The protocol of locks, flags and stamps

    What a task owes: the entry it revives in the background, the entry whose
    lock it holds, whether it is about to stamp that entry, whether it is the
    top-up task.  An entry is its flag, its stamp and its lock. *)
Record VTask := { v_bg : option nat; v_lock : option nat; v_stamp : bool; v_top : bool }.
Record VEntry := { e_pending : bool; e_attempt : Z; e_lock : option nat }.

Definition no_debt : VTask := {| v_bg := None; v_lock := None; v_stamp := false; v_top := false |}.

Definition view (x : Task) : VTask :=
  match x with
  | Reviving o i p =>
      {| v_bg := match o with Background => Some i | _ => None end;
         v_lock := match p with WaitLock => None | _ => Some i end;
         v_stamp := match p with Stamp => true | _ => false end; v_top := false |}
  | BgStart i => {| v_bg := Some i; v_lock := None; v_stamp := false; v_top := false |}
  | TopUp | TopUpConnecting => {| v_bg := None; v_lock := None; v_stamp := false; v_top := true |}
  | _ => no_debt
  end.

Definition view_entry (e : H2Entry) : VEntry :=
  {| e_pending := revive_pending e; e_attempt := last_revive_attempt e; e_lock := revive_lock e |}.

Record Core := {
  c_clients : list nat; c_entries : list VEntry; c_tasks : list VTask;
  c_shutdown : bool; c_top : bool; c_now : Z; c_dials : list (nat * Z)
}.

Definition core (s : Pool) : Core :=
  {| c_clients := clients s; c_entries := view_entry <$> entries s; c_tasks := view <$> tasks s;
     c_shutdown := shutdown s; c_top := top_up_pending s; c_now := now s; c_dials := dials s |}.

Definition e_set_pending (b : bool) (e : VEntry) : VEntry :=
  {| e_pending := b; e_attempt := e_attempt e; e_lock := e_lock e |}.
Definition e_set_lock (l : option nat) (e : VEntry) : VEntry :=
  {| e_pending := e_pending e; e_attempt := e_attempt e; e_lock := l |}.
Definition e_set_attempt (a : Z) (e : VEntry) : VEntry :=
  {| e_pending := e_pending e; e_attempt := a; e_lock := e_lock e |}.
Definition e_new : VEntry := {| e_pending := false; e_attempt := 0; e_lock := None |}.

Inductive move : Core -> Core -> Prop :=
| MSpawn cl en tk sh tp nw dl :
    move (Build_Core cl en tk sh tp nw dl) (Build_Core cl en (tk ++ [no_debt]) sh tp nw dl)
| MEntry cl en tk sh tp nw dl :
    move (Build_Core cl en tk sh tp nw dl) (Build_Core cl (en ++ [e_new]) tk sh tp nw dl)
| MPush i cl en tk tp nw dl :
    (length cl < pool_size params)%nat -> i ∉ cl -> (i < length en)%nat ->
    move (Build_Core cl en tk false tp nw dl) (Build_Core (cl ++ [i]) en tk false tp nw dl)
| MShutdown cl en tk sh tp nw dl :
    move (Build_Core cl en tk sh tp nw dl) (Build_Core cl en tk true tp nw dl)
| MClock d cl en tk sh tp nw dl :
    0 <= d -> move (Build_Core cl en tk sh tp nw dl) (Build_Core cl en tk sh tp (nw + d) dl)
| MAcquire t i e v cl en tk sh tp nw dl :
    en !! i = Some e -> e_lock e = None -> tk !! t = Some v -> v_lock v = None -> v_stamp v = false ->
    move (Build_Core cl en tk sh tp nw dl)
         (Build_Core cl (alter (e_set_lock (Some t)) i en)
            (<[t := {| v_bg := v_bg v; v_lock := Some i; v_stamp := false; v_top := v_top v |}]> tk) sh tp nw dl)
| MRelease t i v cl en tk sh tp nw dl :
    tk !! t = Some v -> v_lock v = Some i ->
    move (Build_Core cl en tk sh tp nw dl)
         (Build_Core cl (alter (e_set_lock None) i en)
            (<[t := {| v_bg := v_bg v; v_lock := None; v_stamp := false; v_top := v_top v |}]> tk) sh tp nw dl)
| MCheck t i e v cl en tk sh tp nw dl :
    tk !! t = Some v -> v_lock v = Some i -> en !! i = Some e ->
    e_attempt e + revive_cooldown params <= nw \/ nw < e_attempt e ->
    move (Build_Core cl en tk sh tp nw dl)
         (Build_Core cl en
            (<[t := {| v_bg := v_bg v; v_lock := Some i; v_stamp := true; v_top := v_top v |}]> tk) sh tp nw dl)
| MStamp t i v cl en tk sh tp nw dl :
    tk !! t = Some v -> v_lock v = Some i -> v_stamp v = true ->
    move (Build_Core cl en tk sh tp nw dl)
         (Build_Core cl (alter (e_set_attempt nw) i en)
            (<[t := {| v_bg := v_bg v; v_lock := Some i; v_stamp := false; v_top := v_top v |}]> tk) sh tp nw
            (dl ++ [(i, nw)]))
| MBgSpawn i e cl en tk sh tp nw dl :
    en !! i = Some e -> e_pending e = false ->
    move (Build_Core cl en tk sh tp nw dl)
         (Build_Core cl (alter (e_set_pending true) i en)
            (tk ++ [{| v_bg := Some i; v_lock := None; v_stamp := false; v_top := false |}]) sh tp nw dl)
| MBgEnd t i v cl en tk sh tp nw dl :
    tk !! t = Some v -> v_bg v = Some i -> v_lock v = None -> v_stamp v = false ->
    move (Build_Core cl en tk sh tp nw dl)
         (Build_Core cl (alter (e_set_pending false) i en)
            (<[t := {| v_bg := None; v_lock := None; v_stamp := false; v_top := v_top v |}]> tk) sh tp nw dl)
| MTopSpawn cl en tk sh nw dl :
    move (Build_Core cl en tk sh false nw dl)
         (Build_Core cl en (tk ++ [{| v_bg := None; v_lock := None; v_stamp := false; v_top := true |}]) sh true nw dl)
| MTopEnd t v cl en tk sh tp nw dl :
    tk !! t = Some v -> v_top v = true ->
    move (Build_Core cl en tk sh tp nw dl)
         (Build_Core cl en
            (<[t := {| v_bg := v_bg v; v_lock := v_lock v; v_stamp := v_stamp v; v_top := false |}]> tk) sh false nw dl).

(** The invariant, in parts that hardly depend on each other. *)
Record clients_ok (c : Core) : Prop := {
  i_size : (length (c_clients c) <= pool_size params)%nat;
  i_nodup : NoDup (c_clients c);
  i_valid : forall i, i ∈ c_clients c -> (i < length (c_entries c))%nat
}.

(** Who holds which lock, seen from the tasks and from the entries. *)
Definition locks_agree (held : list (option nat)) (holder : list (option nat)) : Prop :=
  forall t i, held !! t = Some (Some i) <-> holder !! i = Some (Some t).

(** Which entry a background task is for, and which entries are flagged. *)
Record one_each (bg : list (option nat)) (pending : list bool) : Prop := {
  one_flagged : forall t i, bg !! t = Some (Some i) -> pending !! i = Some true;
  one_task : forall t1 t2 i, bg !! t1 = Some (Some i) -> bg !! t2 = Some (Some i) -> t1 = t2;
  one_exists : forall i, pending !! i = Some true -> exists t, bg !! t = Some (Some i)
}.

Record at_most_one (tops : list bool) (flag : bool) : Prop := {
  top_flag : forall t, tops !! t = Some true -> flag = true;
  top_task : forall t1 t2, tops !! t1 = Some true -> tops !! t2 = Some true -> t1 = t2;
  top_exists : flag = true -> exists t, tops !! t = Some true
}.

Record spaced (attempts : list Z) (nw : Z) (dl : list (nat * Z)) : Prop := {
  sp_now : 0 <= nw;
  sp_attempt : forall i a, attempts !! i = Some a -> 0 <= a <= nw;
  sp_dials : forall i a, (i, a) ∈ dl -> exists b, attempts !! i = Some b /\ a <= b;
  sp_spaced : forall l1 l2 l3 i a b, dl = l1 ++ (i, a) :: l2 ++ (i, b) :: l3 -> a + revive_cooldown params <= b
}.

(** A task that is about to stamp an entry has found the cooldown over. *)
Definition stamps_due (stamping : list (option nat * bool)) (attempts : list Z) (nw : Z) : Prop :=
  forall t o, stamping !! t = Some (o, true) ->
    exists i a, o = Some i /\ attempts !! i = Some a /\ a + revive_cooldown params <= nw.

Record inv (c : Core) : Prop := {
  i_clients : clients_ok c;
  i_locks : locks_agree (v_lock <$> c_tasks c) (e_lock <$> c_entries c);
  i_revivals : one_each (v_bg <$> c_tasks c) (e_pending <$> c_entries c);
  i_top : at_most_one (v_top <$> c_tasks c) (c_top c);
  i_spaced : spaced (e_attempt <$> c_entries c) (c_now c) (c_dials c);
  i_due : stamps_due ((fun v => (v_lock v, v_stamp v)) <$> c_tasks c) (e_attempt <$> c_entries c) (c_now c)
}.

Lemma clients_move c c' : move c c' -> clients_ok c -> clients_ok c'.
Proof.
  destruct 1; intros [S N V]; simpl in *; split; simpl; rewrite ?length_alter; try done.
  - intros i I. rewrite length_app. simpl. specialize (V _ I). lia.
  - rewrite length_app. simpl. lia.
  - apply NoDup_app. split; [done|]. split; [set_solver|apply NoDup_singleton].
  - set_solver.
Qed.

Lemma agree_snoc_task held holder : locks_agree held holder -> locks_agree (held ++ [None]) holder.
Proof.
  intros A t i. rewrite <-(A t i). split; intros H.
  - by apply lookup_snoc_Some in H as [[_ H]|[_ ?]].
  - by apply lookup_app_l_Some.
Qed.

Lemma agree_snoc_entry held holder : locks_agree held holder -> locks_agree held (holder ++ [None]).
Proof.
  intros A t i. rewrite (A t i). split; intros H.
  - by apply lookup_app_l_Some.
  - by apply lookup_snoc_Some in H as [[_ H]|[_ ?]].
Qed.

Lemma agree_acquire t i held holder :
  held !! t = Some None -> holder !! i = Some None -> locks_agree held holder ->
  locks_agree (<[t := Some i]> held) (alter (fun _ => Some t) i holder).
Proof.
  intros T I A t' i'. rewrite lookup_alter_const. assert (t < length held)%nat by by eapply lookup_lt_Some.
  destruct (decide (t = t')) as [<-|Nt].
  - rewrite list_lookup_insert_eq by done. case_bool_decide as D; [subst; by rewrite I|].
    split; [by intros [= ->]|]. intros H'. apply A in H'. congruence.
  - rewrite list_lookup_insert_ne by done. rewrite (A t' i'). case_bool_decide; [subst; rewrite I; simpl|done].
    split; [done|]. intros [= ->]. done.
Qed.

Lemma agree_release t i held holder :
  held !! t = Some (Some i) -> locks_agree held holder ->
  locks_agree (<[t := None]> held) (alter (fun _ => None) i holder).
Proof.
  intros T A t' i'. rewrite lookup_alter_const. assert (t < length held)%nat by by eapply lookup_lt_Some.
  assert (holder !! i = Some (Some t)) as I by by apply A.
  destruct (decide (t = t')) as [<-|Nt].
  - rewrite list_lookup_insert_eq by done. case_bool_decide as D; [subst; by rewrite I|].
    split; [done|]. intros H'. apply A in H'. congruence.
  - rewrite list_lookup_insert_ne by done. rewrite (A t' i'). case_bool_decide; [subst; rewrite I; simpl|done].
    split; [intros [= ->]; done|done].
Qed.

Lemma locks_move c c' : move c c' ->
  locks_agree (v_lock <$> c_tasks c) (e_lock <$> c_entries c) ->
  locks_agree (v_lock <$> c_tasks c') (e_lock <$> c_entries c').
Proof.
  destruct 1; simpl; intros A; rewrite ?fmap_app; try (by apply agree_snoc_task); try (by apply agree_snoc_entry);
    try done; rewrite ?(fmap_alter_same e_lock (e_set_pending _)), ?(fmap_alter_same e_lock (e_set_attempt _)) by done;
    try (by apply agree_snoc_task); try (erewrite insert_same; [done..|]; simpl; by auto).
  - rewrite list_fmap_insert, (fmap_alter_to _ _ (fun _ => Some t)) by done.
    apply agree_acquire; [|by rewrite list_lookup_fmap, H; simpl; f_equal|done].
    rewrite list_lookup_fmap, H1. simpl. by f_equal.
  - rewrite list_fmap_insert, (fmap_alter_to _ _ (fun _ => None)) by done.
    apply agree_release; [|done]. rewrite list_lookup_fmap, H. simpl. by f_equal.
Qed.

Lemma each_snoc_task bg pending : one_each bg pending -> one_each (bg ++ [None]) pending.
Proof.
  intros [F T X]. split.
  - intros t i H. apply lookup_snoc_Some in H as [[_ H]|[_ ?]]; [by eapply F|done].
  - intros t1 t2 i H1 H2. apply lookup_snoc_Some in H1 as [[_ H1]|[_ ?]]; [|done].
    apply lookup_snoc_Some in H2 as [[_ H2]|[_ ?]]; [by eapply T|done].
  - intros i H. destruct (X _ H) as [t Ht]. exists t. by apply lookup_app_l_Some.
Qed.

Lemma each_snoc_entry bg pending : one_each bg pending -> one_each bg (pending ++ [false]).
Proof.
  intros [F T X]. split; [|done|].
  - intros t i H. apply lookup_app_l_Some. by eapply F.
  - intros i H. apply lookup_snoc_Some in H as [[_ H]|[_ ?]]; [by apply X|done].
Qed.

Lemma each_spawn i bg pending :
  pending !! i = Some false -> one_each bg pending ->
  one_each (bg ++ [Some i]) (alter (fun _ => true) i pending).
Proof.
  intros P [F T X]. assert (forall t, bg !! t <> Some (Some i)) as N by (intros t H; apply F in H; congruence).
  split.
  - intros t j H. rewrite lookup_alter_const. case_bool_decide; [subst; by rewrite P|].
    apply lookup_snoc_Some in H as [[_ H]|[_ ?]]; [by eapply F|congruence].
  - intros t1 t2 j H1 H2. apply lookup_snoc_Some in H1 as [[? H1]|[-> [= E1]]];
      apply lookup_snoc_Some in H2 as [[? H2]|[-> [= E2]]]; [by eapply T|subst j; by destruct (N t1)|subst j; by destruct (N t2)|done].
  - intros j. rewrite lookup_alter_const. case_bool_decide as D; intros H.
    + subst j. exists (length bg). by apply list_lookup_middle.
    + destruct (X _ H) as [t Ht]. exists t. by apply lookup_app_l_Some.
Qed.

Lemma each_end t i bg pending :
  bg !! t = Some (Some i) -> one_each bg pending ->
  one_each (<[t := None]> bg) (alter (fun _ => false) i pending).
Proof.
  intros B [F T X]. split.
  - intros t' j H. apply list_lookup_insert_Some in H as [(_ & ? & _)|[N H]]; [done|].
    rewrite lookup_alter_const. case_bool_decide; [subst; by destruct N; eapply T|by eapply F].
  - intros t1 t2 j H1 H2. apply list_lookup_insert_Some in H1 as [(_ & ? & _)|[_ H1]]; [done|].
    apply list_lookup_insert_Some in H2 as [(_ & ? & _)|[_ H2]]; [done|by eapply T].
  - intros j. rewrite lookup_alter_const. case_bool_decide as D; [by destruct (pending !! j)|].
    intros H. destruct (X _ H) as [t' Ht]. exists t'. rewrite list_lookup_insert_ne; [done|].
    intros ->. congruence.
Qed.

Lemma revivals_move c c' : move c c' ->
  one_each (v_bg <$> c_tasks c) (e_pending <$> c_entries c) ->
  one_each (v_bg <$> c_tasks c') (e_pending <$> c_entries c').
Proof.
  destruct 1; simpl; intros A; rewrite ?fmap_app; try (by apply each_snoc_task); try (by apply each_snoc_entry);
    try done; rewrite ?(fmap_alter_same e_pending (e_set_lock _)), ?(fmap_alter_same e_pending (e_set_attempt _)) by done;
    try (erewrite insert_same; [done..|]; simpl; by auto).
  - rewrite (fmap_alter_to _ _ (fun _ => true)) by done. apply each_spawn; [|done].
    rewrite list_lookup_fmap, H. simpl. by f_equal.
  - rewrite list_fmap_insert, (fmap_alter_to _ _ (fun _ => false)) by done. apply each_end; [|done].
    rewrite list_lookup_fmap, H. simpl. by f_equal.
Qed.

Lemma top_move c c' : move c c' ->
  at_most_one (v_top <$> c_tasks c) (c_top c) -> at_most_one (v_top <$> c_tasks c') (c_top c').
Proof.
  assert (forall tops flag, at_most_one tops flag -> at_most_one (tops ++ [false]) flag) as SN.
  { intros tops flag [F T X]. split.
    - intros t H. apply lookup_snoc_Some in H as [[_ H]|[_ ?]]; [by eapply F|done].
    - intros t1 t2 H1 H2. apply lookup_snoc_Some in H1 as [[_ H1]|[_ ?]]; [|done].
      apply lookup_snoc_Some in H2 as [[_ H2]|[_ ?]]; [by eapply T|done].
    - intros H. destruct (X H) as [t Ht]. exists t. by apply lookup_app_l_Some. }
  destruct 1; simpl; intros A; rewrite ?fmap_app; try (by apply SN); try done;
    try (erewrite insert_same; [done..|]; simpl; by auto).
  - destruct A as [F T X]. split; [done| |intros _; exists (length (v_top <$> tk)); by apply list_lookup_middle].
    intros t1 t2 H1 H2. apply lookup_snoc_Some in H1 as [[_ H1]|[-> _]]; [by apply F in H1|].
    apply lookup_snoc_Some in H2 as [[_ H2]|[-> _]]; [by apply F in H2|done].
  - destruct A as [F T X]. rewrite list_fmap_insert. simpl.
    assert (forall t', <[t := false]> (v_top <$> tk) !! t' <> Some true) as N.
    { intros t' H'. apply list_lookup_insert_Some in H' as [(_ & ? & _)|[D H']]; [done|]. destruct D.
      apply T; [rewrite list_lookup_fmap, H; simpl; by f_equal|done]. }
    split; [intros t' H'|intros t1 t2 H1|done]; by edestruct N.
Qed.

Lemma spaced_entry attempts nw dl : spaced attempts nw dl -> spaced (attempts ++ [0]) nw dl.
Proof.
  intros [N A D S]. split; try done.
  - intros i a H. apply lookup_snoc_Some in H as [[_ H]|[_ <-]]; [by eapply A|lia].
  - intros i a H. destruct (D _ _ H) as (b & Hb & ?). exists b. by rewrite (lookup_app_l_Some _ _ _ _ Hb).
Qed.

Lemma spaced_clock d attempts nw dl : 0 <= d -> spaced attempts nw dl -> spaced attempts (nw + d) dl.
Proof. intros H [N A D S]. split; try done; [lia|]. intros i a Ha. specialize (A _ _ Ha). lia. Qed.

Lemma spaced_stamp i a attempts nw dl :
  attempts !! i = Some a -> a + revive_cooldown params <= nw -> spaced attempts nw dl ->
  spaced (alter (fun _ => nw) i attempts) nw (dl ++ [(i, nw)]).
Proof.
  intros I C [N A D S]. split; [done|..].
  - intros j x. rewrite lookup_alter_const. case_bool_decide as E; [|by apply A].
    destruct (attempts !! j); simpl; [intros [= <-]; lia|done].
  - intros j x H. rewrite lookup_alter_const. apply elem_of_app in H as [H|H%list_elem_of_singleton].
    + destruct (D _ _ H) as (b & Hb & ?). specialize (A _ _ Hb).
      case_bool_decide; [exists nw; rewrite Hb; split; [done|lia]|by exists b].
    + injection H as -> ->. rewrite bool_decide_true by done. exists nw. by rewrite I.
  - intros l1 l2 l3 j x y E. destruct l3 as [|z l3 _] using rev_ind.
    + replace (l1 ++ (j, x) :: l2 ++ [(j, y)]) with ((l1 ++ (j, x) :: l2) ++ [(j, y)]) in E by by rewrite <-app_assoc.
      apply app_inj_tail in E as [-> [= <- <-]].
      destruct (D i x) as (b & Hb & ?); [set_solver|]. assert (a = b) by congruence. lia.
    + apply (S l1 l2 l3 j).
      replace (l1 ++ (j, x) :: l2 ++ (j, y) :: l3 ++ [z]) with ((l1 ++ (j, x) :: l2 ++ (j, y) :: l3) ++ [z]) in E
        by by rewrite <-!app_assoc; simpl; rewrite <-!app_assoc.
      by apply app_inj_tail in E as [-> _].
Qed.

Lemma stamp_is_due stamping attempts nw t i :
  stamps_due stamping attempts nw -> stamping !! t = Some (Some i, true) ->
  exists a, attempts !! i = Some a /\ a + revive_cooldown params <= nw.
Proof. intros D H. destruct (D _ _ H) as (j & a & [= <-] & ? & ?). by exists a. Qed.

Lemma spaced_move c c' : move c c' ->
  stamps_due ((fun v => (v_lock v, v_stamp v)) <$> c_tasks c) (e_attempt <$> c_entries c) (c_now c) ->
  spaced (e_attempt <$> c_entries c) (c_now c) (c_dials c) ->
  spaced (e_attempt <$> c_entries c') (c_now c') (c_dials c').
Proof.
  destruct 1; simpl; intros D A; rewrite ?fmap_app; try done;
    rewrite ?(fmap_alter_same e_attempt (e_set_lock _)), ?(fmap_alter_same e_attempt (e_set_pending _)) by done;
    try done; try (by apply spaced_entry); try (by apply spaced_clock).
  destruct (stamp_is_due _ _ _ t i D) as (a & Ha & ?).
  - rewrite list_lookup_fmap, H. simpl. by rewrite H0, H1.
  - rewrite (fmap_alter_to _ _ (fun _ => nw)) by done. by eapply spaced_stamp.
Qed.

Lemma due_weaken stamping stamping' attempts nw :
  (forall t o, stamping' !! t = Some (o, true) -> stamping !! t = Some (o, true)) ->
  stamps_due stamping attempts nw -> stamps_due stamping' attempts nw.
Proof. intros H D t o E. by apply (D t), H. Qed.

Lemma due_snoc stamping attempts nw o :
  stamps_due stamping attempts nw -> stamps_due (stamping ++ [(o, false)]) attempts nw.
Proof. apply due_weaken. intros t o' H. by apply lookup_snoc_Some in H as [[_ H]|[_ ?]]. Qed.

Lemma due_clear t stamping attempts nw o :
  stamps_due stamping attempts nw -> stamps_due (<[t := (o, false)]> stamping) attempts nw.
Proof. apply due_weaken. intros t' o' H. by apply list_lookup_insert_Some in H as [(_ & ? & _)|[_ H]]. Qed.

Lemma due_attempts stamping attempts attempts' nw nw' :
  (forall t i a, stamping !! t = Some (Some i, true) -> attempts !! i = Some a -> attempts' !! i = Some a) ->
  nw <= nw' -> stamps_due stamping attempts nw -> stamps_due stamping attempts' nw'.
Proof. intros H N D t o E. destruct (D _ _ E) as (i & a & -> & Ha & ?). exists i, a. split; [done|]. split; [by eapply H|lia]. Qed.

Lemma due_check t i a stamping attempts nw :
  attempts !! i = Some a -> a + revive_cooldown params <= nw ->
  stamps_due stamping attempts nw -> stamps_due (<[t := (Some i, true)]> stamping) attempts nw.
Proof.
  intros I C D t' o H. apply list_lookup_insert_Some in H as [(_ & [= <-] & _)|[_ H]]; [by exists i, a|by eapply D].
Qed.

Lemma due_move c c' : move c c' ->
  locks_agree (v_lock <$> c_tasks c) (e_lock <$> c_entries c) ->
  spaced (e_attempt <$> c_entries c) (c_now c) (c_dials c) ->
  stamps_due ((fun v => (v_lock v, v_stamp v)) <$> c_tasks c) (e_attempt <$> c_entries c) (c_now c) ->
  stamps_due ((fun v => (v_lock v, v_stamp v)) <$> c_tasks c') (e_attempt <$> c_entries c') (c_now c').
Proof.
  destruct 1; simpl; intros L S D; rewrite ?fmap_app, ?list_fmap_insert; simpl;
    rewrite ?(fmap_alter_same e_attempt (e_set_lock _)), ?(fmap_alter_same e_attempt (e_set_pending _)) by done;
    try done; try (by apply due_snoc); try (by apply due_clear).
  - eapply due_attempts; [|done..]. intros t i a _ Ha. by apply lookup_app_l_Some.
  - by apply (due_attempts _ (e_attempt <$> en) _ nw); [|lia|].
  - apply (due_check _ _ (e_attempt e)); [by rewrite list_lookup_fmap, H1| |done].
    destruct (sp_attempt _ _ _ S i (e_attempt e)); [by rewrite list_lookup_fmap, H1|lia].
  - rewrite (fmap_alter_to _ _ (fun _ => nw)) by done. apply (due_attempts _ (e_attempt <$> en) _ nw); [|lia|by apply due_clear].
    intros t' j a Ht Ha. apply list_lookup_insert_Some in Ht as [(_ & ? & _)|[N Ht]]; [done|].
    rewrite list_lookup_alter_ne; [done|]. intros <-. apply N.
    assert (forall u w, tk !! u = Some w -> v_lock w = Some i -> (e_lock <$> en) !! i = Some (Some u)) as G.
    { intros u w U W. apply L. by rewrite list_lookup_fmap, U, <-W. }
    rewrite list_lookup_fmap in Ht. destruct (tk !! t') as [w|] eqn:W; [|done]. simpl in Ht.
    injection Ht as Hw _. pose proof (G _ _ W Hw). pose proof (G _ _ H H0). congruence.
  - rewrite list_insert_id; [done|]. by rewrite list_lookup_fmap, H.
Qed.

Theorem h2_inv_move c c' : move c c' -> inv c -> inv c'.
Proof.
  intros M [C L R T S D]. split.
  - by eapply clients_move.
  - by eapply locks_move.
  - by eapply revivals_move.
  - by eapply top_move.
  - by eapply spaced_move.
  - by eapply due_move.
Qed.

Lemma inv_new now0 : 0 <= now0 -> inv (core (pool_new now0)).
Proof.
  intros H. split; [split|intros t i|split|split|split|intros t o]; simpl; try done; try lia; try set_solver.
  - apply NoDup_nil_2.
  - intros l1 l2 l3 i a b E. by destruct l1.
Qed.

(** *** Every transition of the pool is a sequence of such moves *)

Lemma core_on_entry i f s :
  (forall e, view_entry (f e) = view_entry e) -> core (on_entry i f s) = core s.
Proof. intros H. unfold core. simpl. by rewrite (fmap_alter_same view_entry f) by done. Qed.

Lemma h2_goto_moves t x y s c :
  tasks s !! t = Some x -> view y = view x -> rtc move c (core s) -> rtc move c (core (goto t y s)).
Proof. intros T V M. unfold core. simpl. by erewrite insert_same. Qed.

Lemma task_view t x s : tasks s !! t = Some x -> c_tasks (core s) !! t = Some (view x).
Proof. intros T. simpl. by rewrite list_lookup_fmap, T. Qed.

(** A flag read as unset, of an entry that exists. *)
Lemma entry_exists i s : (i < length (entries s))%nat -> entries s !! i = Some (entry i s).
Proof. intros H. unfold entry. by destruct (lookup_lt_is_Some_2 _ _ H) as [e ->]. Qed.

Lemma clients_exist i s : inv (core s) -> i ∈ clients s -> (i < length (entries s))%nat.
Proof.
  intros I H. pose proof (i_valid _ (i_clients _ I) i H) as V. simpl in V. by rewrite length_fmap in V.
Qed.

Lemma bg_spawn_moves i s :
  (i < length (entries s))%nat -> revive_pending (entry i s) = false ->
  move (core s) (core (spawn (BgStart i) (on_entry i (set_pending true) s))).
Proof.
  intros L P. unfold core. simpl. rewrite fmap_app, (fmap_alter_to view_entry _ (e_set_pending true)) by done.
  apply (MBgSpawn _ (view_entry (entry i s))); [|done]. by rewrite list_lookup_fmap, entry_exists.
Qed.

Lemma spawn_revive_tasks i s t x : tasks s !! t = Some x -> tasks (spawn_revive i s) !! t = Some x.
Proof.
  intros T. unfold spawn_revive. repeat case_match; try done. simpl. by apply lookup_app_l_Some.
Qed.

Lemma spawn_revive_moves i s c :
  (i ∈ clients s -> (i < length (entries s))%nat) -> rtc move c (core s) -> rtc move c (core (spawn_revive i s)).
Proof.
  intros V M. unfold spawn_revive. destruct (shutdown s); [done|]. destruct (negb (dead _)); [done|].
  case_bool_decide as B; simpl; [|done]. destruct (revive_cooldown_remaining _ _ _); [done|].
  destruct (revive_pending (entry i s)) eqn:P; [done|]. eapply rtc_r; [done|]. apply bg_spawn_moves; auto.
Qed.

(** Marking an entry dead and reviving it, from wherever it was noticed. *)
Lemma kill_moves i s :
  inv (core s) -> rtc move (core s) (core (spawn_revive i (on_entry i (set_dead true) s))).
Proof.
  intros I. apply spawn_revive_moves; simpl; rewrite ?length_alter; [by apply clients_exist|].
  by rewrite core_on_entry.
Qed.

Lemma try_push_tasks i s : tasks (try_push i s).2 = tasks s.
Proof. unfold try_push. by repeat case_match. Qed.

Lemma grow_moves s : inv (core s) ->
  rtc move (core s) (core (try_push (new_entry s).1 (new_entry s).2).2).
Proof.
  intros I. assert (move (core s) (core (new_entry s).2)) as M.
  { unfold core. simpl. rewrite fmap_app. apply MEntry. }
  unfold try_push. simpl. destruct (shutdown s) eqn:Sh; [by apply rtc_once|].
  case_match eqn:Sz; simpl; [by apply rtc_once|]. eapply rtc_l; [done|]. apply rtc_once.
  apply Nat.leb_gt in Sz. unfold core. simpl. rewrite Sh. apply MPush; [done| |].
  - intros V%(clients_exist _ _ I). lia.
  - rewrite length_fmap, length_app. simpl. lia.
Qed.

Lemma top_up_ends_moves t x s c :
  tasks s !! t = Some x -> v_top (view x) = true -> rtc move c (core s) -> rtc move c (core (top_up_ends t s)).
Proof.
  intros T V M. eapply rtc_r; [done|]. unfold core. simpl. rewrite list_fmap_insert.
  pose proof (MTopEnd t (view x) (clients s) (view_entry <$> entries s) (view <$> tasks s) (shutdown s)
                (top_up_pending s) (now s) (dials s) (task_view _ _ _ T) V) as E.
  by destruct x.
Qed.

Lemma bg_ends_moves t x i s :
  tasks s !! t = Some x -> view x = {| v_bg := Some i; v_lock := None; v_stamp := false; v_top := false |} ->
  move (core s) (core (goto t Ended (on_entry i (set_pending false) s))).
Proof.
  intros T V. unfold core. simpl.
  rewrite list_fmap_insert, (fmap_alter_to view_entry _ (e_set_pending false)) by done.
  pose proof (task_view _ _ _ T) as W. rewrite V in W. by apply (MBgEnd t i _ _ _ _ _ _ _ _ W).
Qed.

Lemma release_moves t o i p s y :
  tasks s !! t = Some (Reviving o i p) -> p <> WaitLock ->
  view y = {| v_bg := match o with Background => Some i | _ => None end; v_lock := None; v_stamp := false; v_top := false |} ->
  move (core s) (core (goto t y (on_entry i (set_lock None) s))).
Proof.
  intros T P V. unfold core. simpl.
  rewrite list_fmap_insert, V, (fmap_alter_to view_entry _ (e_set_lock None)) by done.
  apply (MRelease t i _ _ _ _ _ _ _ _ (task_view _ _ _ T)). by destruct p.
Qed.

Lemma goto_goto t x y s : goto t y (goto t x s) = goto t y s.
Proof. unfold goto, with_tasks. simpl. by rewrite list_insert_insert_eq. Qed.

Lemma goto_on_entry t x i f s : goto t x (on_entry i f s) = on_entry i f (goto t x s).
Proof. done. Qed.

(** The guards of a reviving task that ends, whatever it goes on to. *)
Lemma bg_done_moves t i p s :
  tasks s !! t = Some (Reviving Background i p) -> p <> WaitLock ->
  rtc move (core s) (core (goto t Ended (on_entry i (set_pending false) (on_entry i (set_lock None) s)))).
Proof.
  intros T P. eapply rtc_l; [by apply (release_moves t Background i p s (BgStart i))|]. apply rtc_once.
  rewrite <-(goto_goto t (BgStart i) Ended), (goto_on_entry t (BgStart i) i (set_pending false)).
  apply bg_ends_moves with (BgStart i); [|done].
  simpl. apply list_lookup_insert_eq. by eapply lookup_lt_Some.
Qed.

Lemma revive_done_moves t o i p ok s :
  tasks s !! t = Some (Reviving o i p) -> p <> WaitLock -> rtc move (core s) (core (revive_done t o i ok s)).
Proof.
  intros T P. unfold revive_done. destruct o; [|by eapply bg_done_moves]. apply rtc_once.
  destruct ok; by eapply release_moves.
Qed.

Lemma acquire_moves t o i s s' :
  tasks s !! t = Some (Reviving o i WaitLock) -> acquire t o i s = Some s' -> move (core s) (core s').
Proof.
  unfold acquire. intros T H. destruct (entries s !! i) as [e|] eqn:Ei; [|done]. simpl in H.
  destruct (revive_lock e) eqn:L; [done|]. injection H as <-. unfold core. simpl.
  rewrite list_fmap_insert, (fmap_alter_to view_entry _ (e_set_lock (Some t))) by done.
  apply (MAcquire t i (view_entry e) (view (Reviving o i WaitLock))); [|done| |done..].
  - by rewrite list_lookup_fmap, Ei.
  - by rewrite list_lookup_fmap, T.
Qed.

Lemma recheck_moves t o i s :
  inv (core s) -> tasks s !! t = Some (Reviving o i Recheck) -> rtc move (core s) (core (recheck t o i s)).
Proof.
  intros I T. unfold recheck. case_match; [by eapply revive_done_moves|].
  destruct (revive_cooldown_remaining _ _ _) eqn:C; [by eapply revive_done_moves|]. apply rtc_once.
  assert (c_entries (core s) !! i = Some (view_entry (entry i s))) as Ei.
  { pose proof (i_locks _ I t i) as [L _]. simpl in *. rewrite !list_lookup_fmap, T in L. specialize (L eq_refl).
    unfold entry. destruct (entries s !! i) as [e|] eqn:E; [|done]. by rewrite list_lookup_fmap, E. }
  unfold core. simpl. rewrite list_fmap_insert. apply (MCheck t i _ _ _ _ _ _ _ _ _ (task_view _ _ _ T) eq_refl Ei).
  simpl. unfold revive_cooldown_remaining in C. repeat case_match; try done; lia.
Qed.

Lemma stamp_moves t o i s :
  tasks s !! t = Some (Reviving o i Stamp) -> move (core s) (core (stamp t o i s)).
Proof.
  intros T. unfold core. simpl. rewrite list_fmap_insert, (fmap_alter_to view_entry _ (e_set_attempt (now s))) by done.
  by apply (MStamp t i _ _ _ _ _ _ _ _ (task_view _ _ _ T)).
Qed.

Lemma h2_dialled_moves t o i ok s :
  tasks s !! t = Some (Reviving o i Dial) -> rtc move (core s) (core (dialled t o i ok s)).
Proof.
  intros T. unfold dialled. destruct ok; [|by eapply revive_done_moves].
  rewrite <-(core_on_entry i (revived (fresh_client s) (now s)) s) by done.
  by apply (revive_done_moves t o i Dial true (connected (on_entry i (revived (fresh_client s) (now s)) s))).
Qed.

Lemma sent_back_moves t r i c res s :
  inv (core s) -> tasks s !! t = Some (Sending r i c) -> rtc move (core s) (core (sent_back t r i c res s)).
Proof.
  intros I T. destruct res as [|err]; simpl; [|destruct (is_connection_level_error err); simpl].
  - eapply h2_goto_moves; [done..|]. by rewrite core_on_entry.
  - unfold next_attempt. set (s1 := if (c =? _)%nat then _ else s).
    assert (tasks s1 !! t = Some (Sending r i c)) as T1 by (subst s1; case_match; [by apply spawn_revive_tasks|done]).
    assert (rtc move (core s) (core s1)) by (subst s1; case_match; [by apply kill_moves|done]).
    destruct (left_attempts r) as [|[|n]]; by eapply h2_goto_moves.
  - by eapply h2_goto_moves.
Qed.

Lemma look_moves t i s x :
  inv (core s) -> tasks s !! t = Some x ->
  tasks (look i s).2 !! t = Some x /\ rtc move (core s) (core (look i s).2).
Proof.
  intros I T. unfold look. case_match; simpl; [done|]. split.
  - apply spawn_revive_tasks. by case_match.
  - case_match; [|by apply kill_moves]. apply spawn_revive_moves; [by apply clients_exist|done].
Qed.

Lemma scan_moves t r snap start k s s' :
  inv (core s) -> tasks s !! t = Some (Scanning r snap start k) -> scan_next t r snap start k s = Some s' ->
  rtc move (core s) (core s').
Proof.
  intros I T H. unfold scan_next in H. case_match.
  { case_match; [|done]. injection H as <-. by eapply h2_goto_moves. }
  destruct (snap !! _) as [i|]; [|done]. destruct (look_moves t i s _ I T) as [T1 M].
  destruct (look i s) as [[j|] s1]; injection H as <-; by eapply h2_goto_moves.
Qed.

Lemma top_spawn_moves s c : rtc move c (core s) -> rtc move c (core (spawn_top_up s)).
Proof.
  intros M. unfold spawn_top_up. repeat case_match; try done. eapply rtc_r; [done|].
  unfold core. simpl. rewrite fmap_app, H1. apply MTopSpawn.
Qed.

Lemma h2_spawn_moves x s c : view x = no_debt -> rtc move c (core s) -> rtc move c (core (spawn x s)).
Proof. intros V M. eapply rtc_r; [done|]. unfold core. simpl. rewrite fmap_app. simpl. rewrite V. apply MSpawn. Qed.

Lemma supervise_moves t snap k tick s :
  inv (core s) -> tasks s !! t = Some (Supervising snap k tick) -> rtc move (core s) (core (supervise t snap k tick s)).
Proof.
  intros I T. unfold supervise. destruct (snap !! k) as [i|]; [|by eapply h2_goto_moves].
  case_match; [by eapply h2_goto_moves|]. case_match.
  { eapply h2_goto_moves; [by apply spawn_revive_tasks|done|]. apply spawn_revive_moves; [by apply clients_exist|done]. }
  case_match; [eapply h2_goto_moves; [by apply spawn_revive_tasks|done|by apply kill_moves]|].
  repeat case_match; by eapply h2_goto_moves.
Qed.

Lemma pinged_moves t snap k tick status s :
  inv (core s) -> tasks s !! t = Some (Pinging snap k tick) -> rtc move (core s) (core (pinged t snap k tick status s)).
Proof.
  intros I T. unfold pinged. destruct (snap !! k) as [i|]; [|by eapply h2_goto_moves]. destruct (ping_alive status).
  - eapply h2_goto_moves; [done..|]. by rewrite core_on_entry.
  - eapply h2_goto_moves; [by apply spawn_revive_tasks|done|by apply kill_moves].
Qed.

Lemma drop_moves t x s s' :
  tasks s !! t = Some x -> drop_future t x s = Some s' -> rtc move (core s) (core s').
Proof.
  intros T H. destruct x as [| | |o i p| | | | | | | | | | |]; simpl in H; try done; try injection H as <-;
    try (by eapply h2_goto_moves); try (by eapply top_up_ends_moves); try (by eapply rtc_once, bg_ends_moves).
  destruct p; try done; injection H as <-; destruct o.
  - by eapply h2_goto_moves.
  - by eapply rtc_once, bg_ends_moves.
  - by eapply rtc_once, release_moves.
  - by eapply bg_done_moves.
Qed.

Lemma get_connection_moves t r s :
  tasks s !! t = Some (Getting r) -> rtc move (core s) (core (get_connection t r s)).
Proof. intros T. unfold get_connection. repeat case_match; by eapply h2_goto_moves. Qed.

Lemma rescan_moves t r start s :
  tasks s !! t = Some (Rescanning r start) -> rtc move (core s) (core (rescan t r start s)).
Proof. intros T. unfold rescan. case_match; by eapply h2_goto_moves. Qed.

Lemma grown_moves t r ok s :
  inv (core s) -> tasks s !! t = Some (Growing r) -> rtc move (core s) (core (grown t r ok s)).
Proof.
  intros I T. unfold grown. destruct ok; [|by eapply h2_goto_moves].
  pose proof (grow_moves s I) as M. destruct (new_entry s) as [i s1] eqn:E. simpl in M.
  eapply (h2_goto_moves _ (Growing r)); [|done|done]. rewrite try_push_tasks. by injection E as <- <-.
Qed.

Lemma top_up_connected_moves t ok s :
  inv (core s) -> tasks s !! t = Some TopUpConnecting -> rtc move (core s) (core (top_up_connected t ok s)).
Proof.
  intros I T. unfold top_up_connected. destruct ok; [|by eapply top_up_ends_moves].
  pose proof (grow_moves s I) as M. destruct (new_entry s) as [i s1] eqn:E. simpl in M.
  assert (tasks (try_push i s1).2 !! t = Some TopUpConnecting) as T2
    by (rewrite try_push_tasks; by injection E as <- <-).
  destruct (try_push i s1) as [[|] s2]; [by eapply h2_goto_moves|by eapply top_up_ends_moves].
Qed.

Lemma run_moves t s s' : inv (core s) -> exec (Run t) s = Some s' -> rtc move (core s) (core s').
Proof.
  simpl. intros I H. destruct (tasks s !! t) as [x|] eqn:T; [|done].
  destruct x as [| | |o i [| | |]| | | | |i| | | | | |]; try done; try (injection H as <-).
  - by apply get_connection_moves.
  - by eapply scan_moves.
  - by apply recheck_moves.
  - by apply rtc_once, stamp_moves.
  - by apply rescan_moves.
  - case_match; [by eapply rtc_once, bg_ends_moves|by eapply h2_goto_moves].
  - unfold top_up_head. case_match; [by eapply h2_goto_moves|by eapply top_up_ends_moves].
  - by apply supervise_moves.
Qed.

Theorem exec_moves a s s' : inv (core s) -> exec a s = Some s' -> rtc move (core s) (core s').
Proof.
  intros I. destruct a as [idem|t|t ok|t|t|t res|t alive|t|i| |c|d|]; try (by apply run_moves); simpl; intros H.
  - injection H as <-. by apply h2_spawn_moves.
  - destruct (tasks s !! t) as [[| | |o i [| | |]| | | | | | | | | | |]|] eqn:T; try done; injection H as <-.
    + by apply grown_moves.
    + by apply h2_dialled_moves.
    + by apply top_up_connected_moves.
  - destruct (tasks s !! t) as [[| | |o i [| | |]| | | | | | | | | | |]|] eqn:T; try done.
    by eapply rtc_once, acquire_moves.
  - destruct (tasks s !! t) as [[| | |[r st|] i [| | |]| | | | | | | | | | |]|] eqn:T; try done. injection H as <-.
    by eapply h2_goto_moves.
  - destruct (tasks s !! t) as [[]|] eqn:T; try done. injection H as <-. by apply sent_back_moves.
  - destruct (tasks s !! t) as [[]|] eqn:T; try done. injection H as <-. by apply pinged_moves.
  - destruct (tasks s !! t) as [x|] eqn:T; [|done]. by eapply drop_moves.
  - case_bool_decide; simpl in H; [|done]. destruct (revive_pending (entry i s)) eqn:P; [done|]. injection H as <-.
    apply rtc_once, bg_spawn_moves; [by apply clients_exist|done].
  - injection H as <-. unfold supervisor_tick. case_match; [done|]. apply h2_spawn_moves; [done|]. by apply top_spawn_moves.
  - by injection H as <-.
  - case_match; [|done]. injection H as <-. apply rtc_once. unfold core. simpl. apply MClock. lia.
  - injection H as <-. apply rtc_once. unfold core. simpl. apply MShutdown.
Qed.

Lemma inv_moves c c' : rtc move c c' -> inv c -> inv c'.
Proof. induction 1; [done|]. intros I. apply IHrtc. by eapply h2_inv_move. Qed.

Lemma h2_inv_run acts s s' : inv (core s) -> run acts s = Some s' -> inv (core s').
Proof.
  revert s. induction acts as [|a acts IH]; simpl; intros s I H; [by injection H as <-|].
  destruct (exec a s) as [s1|] eqn:E; [|done]. eapply IH; [|done]. by eapply inv_moves, I; eapply exec_moves.
Qed.

Lemma h2_run_inv now0 acts s : 0 <= now0 -> run acts (pool_new now0) = Some s -> inv (core s).
Proof. intros N. apply h2_inv_run. by apply inv_new. Qed.

(** ** What the invariant says of a run *)

Definition holds_lock (i : nat) (x : Task) : Prop := v_lock (view x) = Some i.
Definition revives (i : nat) (x : Task) : Prop := v_bg (view x) = Some i.
Definition tops_up (x : Task) : Prop := v_top (view x) = true.

(** The one task, by number, with a property. *)
Definition only_task (s : Pool) (P : Task -> Prop) (t : nat) : Prop :=
  forall t' x, tasks s !! t' = Some x -> P x -> t' = t.
Definition some_task (s : Pool) (P : Task -> Prop) : Prop := exists t x, tasks s !! t = Some x /\ P x.

Lemma task_has {A} (h : VTask -> A) (a : A) s t :
  (h <$> (view <$> tasks s)) !! t = Some a <-> exists x, tasks s !! t = Some x /\ h (view x) = a.
Proof.
  rewrite !list_lookup_fmap. destruct (tasks s !! t) as [x|]; simpl; split; naive_solver.
Qed.

Lemma entry_has {A} (h : VEntry -> A) (a : A) s i :
  (h <$> (view_entry <$> entries s)) !! i = Some a <-> exists e, entries s !! i = Some e /\ h (view_entry e) = a.
Proof.
  rewrite !list_lookup_fmap. destruct (entries s !! i) as [x|]; simpl; split; naive_solver.
Qed.

(** C29: The shared HTTP/2 pool, in every state it can reach under any
    interleaving of requests, background revivals, the top-up task, the
    supervisor and dropped futures: it holds at most [pool_size] connections
    and none twice; the lock of an entry is held by exactly the one task that
    is past its wait for it; an entry is flagged as being revived exactly while
    one background task, and never two, is there to revive it; and likewise for
    the top-up flag.  So no flag is leaked and no dial is doubled. *)
Theorem h2_pool_safe now0 acts s :
  0 <= now0 -> run acts (pool_new now0) = Some s ->
  (length (clients s) <= pool_size params)%nat /\ NoDup (clients s) /\
  (forall t x i, tasks s !! t = Some x -> holds_lock i x ->
     only_task s (holds_lock i) t /\ exists e, entries s !! i = Some e /\ revive_lock e = Some t) /\
  (forall t i e, entries s !! i = Some e -> revive_lock e = Some t ->
     exists x, tasks s !! t = Some x /\ holds_lock i x) /\
  (forall i e, entries s !! i = Some e -> revive_pending e = true <-> some_task s (revives i)) /\
  (forall t x i, tasks s !! t = Some x -> revives i x -> only_task s (revives i) t) /\
  (top_up_pending s = true <-> some_task s tops_up) /\
  (forall t x, tasks s !! t = Some x -> tops_up x -> only_task s tops_up t).
Proof.
  intros N H. destruct (h2_run_inv _ _ _ N H) as [C L [F O X] [TF TO TX] _ _].
  assert (forall t x i, tasks s !! t = Some x -> holds_lock i x ->
            exists e, entries s !! i = Some e /\ revive_lock e = Some t) as LE.
  { intros t x i T V. apply (entry_has e_lock), L, task_has. by exists x. }
  split_and!; try apply C; unfold only_task, some_task.
  - intros t x i T V. destruct (LE _ _ _ T V) as (e & Ee & Le). split; [|by exists e].
    intros t' x' T' V'. destruct (LE _ _ _ T' V') as (e' & Ee' & Le'). congruence.
  - intros t i e Ee Le. apply (task_has v_lock), L, entry_has. by exists e.
  - intros i e Ee. split.
    + intros P. destruct (X i) as [t Ht]; [apply entry_has; by exists e|]. apply task_has in Ht. by exists t.
    + intros (t & x & T & V). assert ((e_pending <$> c_entries (core s)) !! i = Some true) as P
        by (apply (F t), task_has; by exists x).
      apply entry_has in P as (e' & Ee' & P). simpl in P. congruence.
  - intros t x i T V t' x' T' V'. apply (O _ _ i); apply task_has; [by exists x'|by exists x].
  - split.
    + intros P. destruct (TX P) as [t Ht]. apply task_has in Ht. by exists t.
    + intros (t & x & T & V). apply (TF t), task_has. by exists x.
  - intros t x T V t' x' T' V'. apply TO; apply task_has; [by exists x'|by exists x].
Qed.

(** A dead upstream is not stormed.  In any interleaving, two redials of
    the same entry, by requests or in the background, are at least
    [revive_cooldown] apart. *)
Theorem dials_are_spaced now0 acts s l1 l2 l3 i a b :
  0 <= now0 -> run acts (pool_new now0) = Some s ->
  dials s = l1 ++ (i, a) :: l2 ++ (i, b) :: l3 -> a + revive_cooldown params <= b.
Proof. intros N H. destruct (h2_run_inv _ _ _ N H) as [_ _ _ _ S _]. apply (sp_spaced _ _ _ S). Qed.

(** ** How often a request is sent *)

Definition request_of (x : Task) : option Req :=
  match x with
  | Getting r | Growing r | Scanning r _ _ _ | Rescanning r _ | Reviving (Foreground r _) _ _ | Sending r _ _
  | Served r | Failed r | Panicked r => Some r
  | _ => None
  end.

(** Rounds done and rounds left make up the budget; while a send is under way
    its round is in both. *)
Definition task_ok (x : Task) : Prop :=
  match x with
  | Getting r | Growing r | Scanning r _ _ _ | Rescanning r _ | Reviving (Foreground r _) _ _ =>
      (sent r + left_attempts r <= max_attempts (idempotent r) /\ 1 <= left_attempts r)%nat
  | Sending r _ _ => (sent r + left_attempts r <= 1 + max_attempts (idempotent r) /\ 1 <= left_attempts r)%nat
  | Served r | Failed r | Panicked r => (sent r <= max_attempts (idempotent r))%nat
  | _ => True
  end.

Definition tasks_ok (s : Pool) : Prop := Forall task_ok (tasks s).

Lemma ok_goto t x s : tasks_ok s -> task_ok x -> tasks_ok (goto t x s).
Proof. intros F K. by apply Forall_insert. Qed.

Lemma ok_spawn x s : tasks_ok s -> task_ok x -> tasks_ok (spawn x s).
Proof. intros F K. apply Forall_app. split; [done|]. by constructor. Qed.

Lemma ok_spawn_revive i s : tasks_ok s -> tasks_ok (spawn_revive i s).
Proof. intros F. unfold spawn_revive. repeat case_match; try done. by apply ok_spawn. Qed.

Lemma ok_try_push i s : tasks_ok s -> tasks_ok (try_push i s).2.
Proof. unfold tasks_ok. by rewrite try_push_tasks. Qed.

Lemma ok_top_up s : tasks_ok s -> tasks_ok (spawn_top_up s).
Proof. intros F. unfold spawn_top_up. repeat case_match; try done. by apply ok_spawn. Qed.

Lemma ok_send t r i s :
  tasks_ok s -> (sent r + left_attempts r <= max_attempts (idempotent r) /\ 1 <= left_attempts r)%nat ->
  tasks_ok (send t r i s).
Proof. intros F K. apply ok_goto; [done|]. simpl. lia. Qed.

Lemma ok_look i s : tasks_ok s -> tasks_ok (look i s).2.
Proof.
  intros F. unfold look. case_match; [done|]. apply ok_spawn_revive. by case_match.
Qed.

Lemma ok_revive_done t o i ok s :
  tasks_ok s -> task_ok (Reviving o i Recheck) -> tasks_ok (revive_done t o i ok s).
Proof.
  intros F K. unfold revive_done. destruct o; [|by apply ok_goto]. destruct ok; [by apply ok_send|by apply ok_goto].
Qed.

Lemma ok_run t s s' : tasks_ok s -> exec (Run t) s = Some s' -> tasks_ok s'.
Proof.
  simpl. intros F H. destruct (tasks s !! t) as [x|] eqn:T; [|done].
  pose proof (Forall_lookup_1 _ _ _ _ F T) as K.
  destruct x as [r| |r snap start k|o i [| | |]|r start| | | | |i| | |snap k tick| |]; try done; simpl in K.
  - injection H as <-. unfold get_connection. repeat case_match; apply ok_goto; try done; simpl; lia.
  - unfold scan_next in H. case_match; [case_match; [|done]; injection H as <-; by apply ok_goto|].
    case_match; [|done]. pose proof (ok_look n s F). destruct (look n s) as [[j|] s1]; injection H as <-.
    + by apply ok_send.
    + by apply ok_goto.
  - injection H as <-. unfold recheck. repeat case_match; try (by apply ok_revive_done); by apply ok_goto.
  - injection H as <-. by apply ok_goto.
  - injection H as <-. unfold rescan. case_match; [by apply ok_send|]. apply ok_goto; [done|]. simpl. lia.
  - injection H as <-. case_match; by apply ok_goto.
  - injection H as <-. unfold top_up_head. case_match; by apply ok_goto.
  - injection H as <-. unfold supervise. repeat case_match; apply ok_goto; try done; by apply ok_spawn_revive.
Qed.

Lemma ok_connected t ok s s' : tasks_ok s -> exec (Connected t ok) s = Some s' -> tasks_ok s'.
Proof.
  simpl. intros F H. destruct (tasks s !! t) as [x|] eqn:T; [|done].
  pose proof (Forall_lookup_1 _ _ _ _ F T) as K.
  destruct x as [|r| |o i [| | |]| | | | | | | | | | |]; try done; injection H as <-; simpl in K.
  - unfold grown. destruct ok; [|apply ok_goto; [done|]; simpl; lia]. apply ok_send; [|done]. by apply ok_try_push.
  - unfold dialled. destruct ok; by apply ok_revive_done.
  - unfold top_up_connected. destruct ok; [|by apply ok_goto].
    pose proof (ok_try_push (new_entry s).1 (new_entry s).2 F) as P. destruct (new_entry s) as [i s1]. simpl in P.
    destruct (try_push i s1) as [[|] s2]; by apply ok_goto.
Qed.

Lemma ok_returned t r i c res s :
  tasks_ok s -> tasks s !! t = Some (Sending r i c) -> tasks_ok (sent_back t r i c res s).
Proof.
  intros F T. pose proof (Forall_lookup_1 _ _ _ _ F T) as K. simpl in K.
  destruct res as [|err]; simpl; [|destruct (is_connection_level_error err); simpl];
    try (apply ok_goto; [done|]; simpl; lia). unfold next_attempt.
  assert (tasks_ok (if (c =? client (entry i s))%nat then spawn_revive i (on_entry i (set_dead true) s) else s))
    by (case_match; [by apply ok_spawn_revive|done]).
  destruct (left_attempts r) as [|[|n]] eqn:Le; apply ok_goto; try done; simpl; lia.
Qed.

Lemma ok_drop t x s s' : tasks_ok s -> drop_future t x s = Some s' -> tasks_ok s'.
Proof.
  intros F H. unfold drop_future in H. repeat case_match; try done; injection H as <-; by apply ok_goto.
Qed.

Lemma ok_exec a s s' : tasks_ok s -> exec a s = Some s' -> tasks_ok s'.
Proof.
  intros F. destruct a as [idem|t|t ok|t|t|t res|t alive|t|i| |c|d|];
    [|by apply ok_run|by apply ok_connected|..]; simpl; intros H.
  - injection H as <-. apply ok_spawn; [done|]. simpl. destruct idem; simpl; lia.
  - unfold acquire in H. repeat case_match; try done; injection H as <-. apply ok_goto; [done|].
    by eapply (Forall_lookup_1 _ _ _ _ F) in H0.
  - repeat case_match; try done; injection H as <-. apply ok_goto; [done|].
    by eapply (Forall_lookup_1 _ _ _ _ F) in H0.
  - case_match eqn:T; try done. case_match; try done. injection H as <-. by apply ok_returned.
  - repeat case_match; try done; injection H as <-. unfold pinged.
    repeat case_match; apply ok_goto; try done. by apply ok_spawn_revive.
  - destruct (tasks s !! t); [by eapply ok_drop|done].
  - case_match; [|done]. injection H as <-. by apply ok_spawn.
  - injection H as <-. unfold supervisor_tick. case_match; [done|]. apply ok_spawn; [by apply ok_top_up|done].
  - by injection H as <-.
  - case_match; [|done]. by injection H as <-.
  - by injection H as <-.
Qed.

(** Whatever the connections do, a request goes out on at most two of them,
    and one whose method is not idempotent on at most one. *)
Theorem request_sent_at_most_twice now0 acts s t x r :
  run acts (pool_new now0) = Some s -> tasks s !! t = Some x -> request_of x = Some r ->
  (sent r <= if idempotent r then 2 else 1)%nat.
Proof.
  intros H T R. assert (tasks_ok s) as F.
  { revert H. assert (tasks_ok (pool_new now0)) as F by constructor. revert F. generalize (pool_new now0) as s0.
    induction acts as [|a acts IH]; simpl; intros s0 F H; [by injection H as <-|].
    destruct (exec a s0) as [s1|] eqn:E; [|done]. by eapply IH, H; eapply ok_exec. }
  pose proof (Forall_lookup_1 _ _ _ _ F T) as K. fold (max_attempts (idempotent r)).
  destruct x as [| | |[]| | | | | | | | | | |]; simpl in *; try done; injection R as ->; lia.
Qed.

(** ** A drained pool *)

Lemma drained_moves c c' : rtc move c c' -> c_shutdown c = true ->
  c_shutdown c' = true /\ c_clients c' = c_clients c.
Proof.
  induction 1 as [|c1 c2 c3 M _ IH]; [done|]. intros S.
  assert (c_shutdown c2 = true /\ c_clients c2 = c_clients c1) as [S2 <-] by by destruct M.
  by apply IH.
Qed.

(** Nothing is added to a pool once it is drained, whatever was under way. *)
Theorem drained_pool_never_grows now0 acts s acts' s' :
  0 <= now0 -> run acts (pool_new now0) = Some s -> shutdown s = true -> run acts' s = Some s' ->
  shutdown s' = true /\ clients s' = clients s.
Proof.
  intros N H S H'. pose proof (h2_run_inv _ _ _ N H) as I. clear H. revert s I S H'.
  induction acts' as [|a rest IH]; simpl; intros s I S H'; [by injection H' as <-|].
  destruct (exec a s) as [s1|] eqn:E; [|done]. pose proof (exec_moves _ _ _ I E) as M.
  destruct (drained_moves _ _ M S) as [S1 C1]. simpl in *. rewrite <-C1.
  apply IH; [by eapply inv_moves|done..].
Qed.

(** ** A request on a pool with a live connection *)

Definition usable (s : Pool) (i : nat) : bool := negb (dead (entry i s)) && is_alive s (client (entry i s)).

Lemma entry_on_entry i f s j :
  entry j (on_entry i f s) = if bool_decide (i = j /\ is_Some (entries s !! i)) then f (entry j s) else entry j s.
Proof.
  unfold entry. simpl. rewrite list_lookup_alter. case_decide as D.
  - subst j. destruct (entries s !! i) as [e|]; simpl.
    + by rewrite bool_decide_true by (split; [done|by exists e]).
    + rewrite bool_decide_false; [done|]. by intros [_ [e ?]].
  - rewrite bool_decide_false; [done|]. by intros [? _].
Qed.

Lemma usable_spawn_revive i s j : usable (spawn_revive i s) j = usable s j.
Proof.
  unfold spawn_revive. repeat case_match; try done. unfold usable.
  change (entry j (spawn ?x ?p)) with (entry j p). rewrite entry_on_entry. by destruct (bool_decide (i = j /\ _)).
Qed.

Lemma look_none i s j : (look i s).1 = None -> usable (look i s).2 j = usable s j.
Proof.
  unfold look. fold (usable s i). destruct (usable s i) eqn:U; [done|]. intros _. simpl.
  rewrite usable_spawn_revive. destruct (dead (entry i s)); [done|].
  unfold usable. rewrite entry_on_entry. case_bool_decide as D; [|done]. destruct D as [<- _]. done.
Qed.

Lemma look_some i s : usable s i = true -> look i s = (Some i, s).
Proof. intros U. unfold look. fold (usable s i). by rewrite U. Qed.

Definition sends_on_live (t : nat) (snap : list nat) (s : Pool) : Prop :=
  exists r i, tasks s !! t = Some (Sending r i (client (entry i s))) /\ i ∈ snap /\ usable s i = true.

Lemma goto_lookup t x y s : tasks s !! t = Some x -> tasks (goto t y s) !! t = Some y.
Proof. intros T. simpl. apply list_lookup_insert_eq. by eapply lookup_lt_Some. Qed.

Lemma run_one a acts s s1 : exec a s = Some s1 -> run (a :: acts) s = run acts s1.
Proof. intros E. simpl. by rewrite E. Qed.

Lemma scan_finds t r snap start i m : forall k s,
  tasks s !! t = Some (Scanning r snap start k) -> (k + m < length snap)%nat ->
  snap !! ((start + (k + m)) mod length snap)%nat = Some i -> usable s i = true ->
  exists n s', (n <= S m)%nat /\ run (replicate n (Run t)) s = Some s' /\ sends_on_live t snap s'.
Proof.
  induction m as [|m IH]; intros k s T L I U.
  all: assert (exec (Run t) s = scan_next t r snap start k s) as E by (simpl; by rewrite T).
  all: unfold scan_next in E; rewrite (proj2 (Nat.leb_gt _ _)) in E by lia.
  - rewrite Nat.add_0_r in I. rewrite I, (look_some _ _ U) in E. exists 1%nat, (send t r i s).
    split; [lia|]. split; [by apply (run_one (Run t) [])|]. eexists _, i. split; [by eapply goto_lookup|].
    split; [by eapply list_elem_of_lookup_2|exact U].
  - destruct (snap !! ((start + k) mod length snap)%nat) as [j|] eqn:J.
    2:{ apply lookup_ge_None in J. pose proof (Nat.mod_upper_bound (start + k) (length snap)). lia. }
    destruct (usable s j) eqn:Uj.
    + rewrite (look_some _ _ Uj) in E. exists 1%nat, (send t r j s).
      split; [lia|]. split; [by apply (run_one (Run t) [])|]. eexists _, j. split; [by eapply goto_lookup|].
      split; [by eapply list_elem_of_lookup_2|exact Uj].
    + assert ((look j s).1 = None) as N by (unfold look; fold (usable s j); by rewrite Uj).
      assert (tasks (look j s).2 !! t = Some (Scanning r snap start k)) as T1.
      { unfold look. fold (usable s j). rewrite Uj. simpl. apply spawn_revive_tasks. by destruct (dead (entry j s)). }
      pose proof (look_none j s i N) as Ui. destruct (look j s) as [o s1]. simpl in N, T1, Ui. subst o.
      destruct (IH (S k) (goto t (Scanning r snap start (S k)) s1)) as (n & s' & Ln & Rn & Sn).
      * by eapply goto_lookup.
      * lia.
      * by replace (S k + m)%nat with (k + S m)%nat by lia.
      * by rewrite <-U.
      * exists (S n), s'. split; [lia|]. split; [|done]. simpl replicate. by rewrite (run_one _ _ _ _ E).
Qed.

(** A request does not wait while the pool has live capacity.  On a full
    pool with a connection that is not dead and whose transport is up, the
    request comes to be sent on such a connection by its own steps alone, at
    most one for each entry and one more: it waits for no dial and no lock. *)
Theorem live_connection_is_used s t r i :
  tasks s !! t = Some (Getting r) -> (pool_size params <= length (clients s))%nat ->
  i ∈ clients s -> usable s i = true ->
  exists n s', (n <= S (length (clients s)))%nat /\ run (replicate n (Run t)) s = Some s' /\
    sends_on_live t (clients s) s'.
Proof.
  intros T L I U. apply list_elem_of_lookup in I as [p I]. pose proof (lookup_lt_Some _ _ _ I) as P.
  set (len := length (clients s)) in *.
  assert (exec (Run t) s = Some (get_connection t r s)) as E by (simpl; by rewrite T).
  unfold get_connection in E. rewrite (proj2 (Nat.ltb_ge _ _)), (proj2 (Nat.eqb_neq _ _)) in E by (unfold len in *; lia).
  fold len in E. set (start := Z.to_nat (next s mod Z.of_nat len)) in E.
  assert (start < len)%nat by (pose proof (Z.mod_pos_bound (next s) (Z.of_nat len)); unfold start; lia).
  set (m := (if start <=? p then p - start else p + len - start)%nat).
  assert (m < len /\ (start + m) mod len = p)%nat as [Lm Mp].
  { unfold m. destruct (start <=? p)%nat eqn:C.
    - apply Nat.leb_le in C. split; [lia|]. replace (start + (p - start))%nat with p by lia. by apply Nat.mod_small.
    - apply Nat.leb_gt in C. split; [lia|]. replace (start + (p + len - start))%nat with (p + 1 * len)%nat by lia.
      rewrite Nat.Div0.mod_add. by apply Nat.mod_small. }
  destruct (scan_finds t r (clients s) start i m 0
    (goto t (Scanning r (clients s) start 0) (with_next ((next s + 1) mod 2 ^ 64) s))) as (n & s' & Ln & Rn & Sn);
    [by apply (goto_lookup t (Getting r))|exact Lm|by simpl; fold len; rewrite Mp|exact U|].
  exists (S n), s'. split; [lia|]. split; [|done]. simpl replicate. by rewrite (run_one _ _ _ _ E).
Qed.

(** Asked for no connections at all, the pool panics on its first request. *)
Theorem empty_pool_panics s t r :
  tasks s !! t = Some (Getting r) -> pool_size params = 0%nat -> clients s = [] ->
  exec (Run t) s = Some (goto t (Panicked r) s).
Proof. intros T P C. simpl. rewrite T. unfold get_connection. by rewrite P, C. Qed.

End Params.

(** ** A concrete history

    One connection: it dies under the first request, its first redial fails,
    and the supervisor's next pass after the cooldown redials. *)

Definition small : PoolParams :=
  {| pool_size := 1; health_check_path := None; hot_window := 1000; revive_cooldown := 1000000 |}.

Definition ConnectionError : SendResult := SendErr (MyHttpClientError OtherClientError).

Definition death_and_redials : list Action :=
  [NewRequest true; Run 0; Connected 0 true; Returned 0 ConnectionError;
   Run 1; Acquire 1; Run 1; Run 1; Connected 1 false;
   Clock 2000000; Tick; Run 2; Run 3; Acquire 3; Run 3; Run 3].

(** The redial succeeds, and the request is sent a second time. *)
Definition second_send : list Action := death_and_redials ++ [Connected 3 true; Run 0; Run 0].

Definition start_time : Z := 5000000.
Definition after (acts : list Action) : Pool := default (pool_new 0) (run small acts (pool_new start_time)).

Lemma h2_pool_safe_witness :
  run small death_and_redials (pool_new start_time) = Some (after death_and_redials) /\
  clients (after death_and_redials) = [0%nat] /\
  only_task (after death_and_redials) (holds_lock 0) 3 /\ some_task (after death_and_redials) (revives 0).
Proof.
  assert (run small death_and_redials (pool_new start_time) = Some (after death_and_redials)) as R
    by (vm_compute; reflexivity).
  assert (0 <= start_time) as N by (vm_compute; discriminate).
  destruct (h2_pool_safe small start_time _ _ N R) as (_ & _ & L & _ & F & _).
  split; [exact R|]. split; [vm_compute; reflexivity|]. split.
  - exact (proj1 (L 3%nat (Reviving Background 0 Dial) 0%nat ltac:(vm_compute; reflexivity) eq_refl)).
  - exact (proj1 (F 0%nat (entry 0 (after death_and_redials)) ltac:(vm_compute; reflexivity))
             ltac:(vm_compute; reflexivity)).
Defined.

Lemma dials_are_spaced_witness :
  run small death_and_redials (pool_new start_time) = Some (after death_and_redials) /\
  dials (after death_and_redials) = [] ++ (0%nat, 5000000) :: [] ++ (0%nat, 7000000) :: [] /\
  5000000 + revive_cooldown small <= 7000000.
Proof.
  assert (run small death_and_redials (pool_new start_time) = Some (after death_and_redials)) as R
    by (vm_compute; reflexivity).
  assert (0 <= start_time) as N by (vm_compute; discriminate).
  assert (dials (after death_and_redials) = [] ++ (0%nat, 5000000) :: [] ++ (0%nat, 7000000) :: []) as D
    by (vm_compute; reflexivity).
  split; [exact R|]. split; [exact D|]. exact (dials_are_spaced small start_time _ _ _ _ _ _ _ _ N R D).
Defined.

Lemma request_sent_at_most_twice_witness :
  exists x r, tasks (after second_send) !! 0%nat = Some x /\ request_of x = Some r /\ sent r = 2%nat /\
    (sent r <= if idempotent r then 2 else 1)%nat.
Proof.
  assert (run small second_send (pool_new start_time) = Some (after second_send)) as R
    by (vm_compute; reflexivity).
  eexists _, _. split; [vm_compute; reflexivity|]. split; [reflexivity|]. split; [reflexivity|].
  exact (request_sent_at_most_twice small start_time _ _ 0 _ _ R ltac:(vm_compute; reflexivity) eq_refl).
Defined.

Lemma live_connection_is_used_witness :
  let s := after (death_and_redials ++ [Connected 3 true]) in
  exists n s', (n <= 2)%nat /\ run small (replicate n (Run 0)) s = Some s' /\ sends_on_live 0 [0%nat] s'.
Proof.
  apply (live_connection_is_used small (after (death_and_redials ++ [Connected 3 true])) 0
           {| idempotent := true; left_attempts := 1; sent := 1 |} 0).
  - vm_compute; reflexivity.
  - vm_compute; constructor.
  - vm_compute. left.
  - vm_compute; reflexivity.
Defined.

End H2Pool.
