(* ===== verification/HyperRequest.v ===== *)
(** * Requests of the HTTP/2 pipeline: [http_proxy_pass/http_request_builder.rs],
      [http_proxy_pass/http_response_builder.rs], the placeholders of
      [http_proxy_pass_inner.rs], and [error.rs]

    A request hyper has parsed is changed by the configured headers, given
    the client's address and country, and converted to what the upstream of
    its location speaks. *)

From Stdlib Require Import ZArith Lia Strings.Byte.
From stdpp Require Import base tactics list strings gmap.
From S2P Require Import Prelude RustStd IpBlocklist H1Rewrite OAuthServer GoogleAuth ProxyPassConfig H2Pool.

Local Open Scope Z_scope.

(** The [http] crate.  A header map is known by the values it has for a
    name; [hm_get] and [hm_remove] take a name as text, which the crate reads
    without regard to case, the others a [HeaderName]. *)
Class HttpCrate := {
  HeaderMap : Type;
  hm_new : HeaderMap;
  hm_iter : HeaderMap -> list (bytes * bytes);
  hm_get : bytes -> HeaderMap -> option bytes;
  hm_remove : bytes -> HeaderMap -> HeaderMap;
  hm_insert : bytes -> bytes -> HeaderMap -> HeaderMap;
  hm_append : bytes -> bytes -> HeaderMap -> HeaderMap;
  header_name : bytes -> option bytes;
  header_value_ok : bytes -> bool;
  to_str : bytes -> option bytes;
  Uri : Type;
  PathAndQuery : Type;
  uri_path : Uri -> bytes;
  uri_query : Uri -> option bytes;
  uri_path_and_query : Uri -> option bytes;
  uri_authority : Uri -> option bytes;
  uri_host : Uri -> option bytes;
  uri_port : Uri -> option bytes;
  parse_uri : bytes -> option Uri;
  parse_path_and_query : bytes -> option PathAndQuery;
  path_and_query_as_str : PathAndQuery -> bytes;
  from_parts_with : PathAndQuery -> Uri -> option Uri;
  hm_values (k : bytes) (m : HeaderMap) : list bytes :=
    omap (fun nv => if decide (fst nv = k) then Some (snd nv) else None) (hm_iter m);
  hm_iter_new : hm_iter hm_new = [];
  hm_iter_names : forall n v m, (n, v) ∈ hm_iter m -> header_name n = Some n;
  hm_get_spec : forall n m, hm_get n m = (k ← header_name n; head (hm_values k m));
  hm_remove_spec : forall n k m,
    hm_values k (hm_remove n m) = if decide (header_name n = Some k) then [] else hm_values k m;
  hm_insert_spec : forall n v k m, header_name n = Some n ->
    hm_values k (hm_insert n v m) = if decide (n = k) then [v] else hm_values k m;
  hm_append_spec : forall n v k m, header_name n = Some n ->
    hm_values k (hm_append n v m) = if decide (n = k) then hm_values k m ++ [v] else hm_values k m;
  header_name_token : forall n, n <> [] -> Forall (fun b => (97 <=? u8 b) && (u8 b <=? 122) || (u8 b =? 45) = true) n ->
    header_name n = Some n;
  header_name_idem : forall n k, header_name n = Some k -> header_name k = Some k;
  header_name_case : forall a b, Str.lower a = Str.lower b -> header_name a = header_name b;
  to_str_spec : forall v s, to_str v = Some s <-> s = v /\ Forall (fun b => 32 <= u8 b < 127 \/ u8 b = 9) v;
  header_value_visible : forall v, Forall (fun b => 32 <= u8 b < 127 \/ u8 b = 9) v -> header_value_ok v = true;
  from_parts_spec : forall p u u', from_parts_with p u = Some u' ->
    uri_path_and_query u' = Some (path_and_query_as_str p) /\ uri_authority u' = uri_authority u /\
    uri_host u' = uri_host u /\ uri_port u' = uri_port u
}.

#[global] Arguments hm_values : simpl never.

Module Hyper.

(** ** [ProxyPassError] *)

Inductive ProxyPassError :=
  | HttpClientError
  | HyperError
  | IoError
  | SshSessionError
  | WebSocketProtocolError
  | MyHttpClientError (e : H2Pool.ClientError)
  | NoLocationFound
  | ConnectionIsDisposed
  | Unauthorized
  | UserIsForbidden
  | IpRestricted (text : bytes)
  | Disconnected
  | Timeout
  | Disposed
  | GatewayError
  | NoWebSocketUpgrade
  | UpstreamUnavailable
  | NoHostHeader
  | DropConnection
  | ProxyToHeaderMissing
  | ProxyToHeaderInvalid
  | ProxyToHostNotAllowed.

Inductive Version := HTTP_09 | HTTP_10 | HTTP_11 | HTTP_2 | HTTP_3.

(** [ConnectionIp]: an address with its text, or a unix socket. *)
Record PeerAddr := { ip_addr : WhiteList.IpAddr; ip_text : bytes }.
Definition ConnectionIp : Type := option PeerAddr.

Section Requests.
Context `{HttpCrate}.

(** [http::request::Parts] with the two extensions the code looks at, and a
    request whose body is at hand. *)
Record Parts := {
  method : bytes;
  uri : Uri;
  version : Version;
  headers : HeaderMap;
  protocol : option bytes;
  on_upgrade : bool
}.

Definition set_uri (u : Uri) (p : Parts) : Parts :=
  {| method := method p; uri := u; version := version p; headers := headers p; protocol := protocol p;
     on_upgrade := on_upgrade p |}.
Definition set_headers (m : HeaderMap) (p : Parts) : Parts :=
  {| method := method p; uri := uri p; version := version p; headers := m; protocol := protocol p;
     on_upgrade := on_upgrade p |}.
Definition take_on_upgrade (p : Parts) : Parts :=
  {| method := method p; uri := uri p; version := version p; headers := headers p; protocol := protocol p;
     on_upgrade := false |}.

Record Request := { req_parts : Parts; req_body : bytes }.
Record Response := { status : Z; resp_headers : HeaderMap; resp_body : bytes }.

Inductive WebSocketUpgrade :=
  | UpgradeH1 (upgrade_response : Response)
  | UpgradeH2 (upgrade_response : Response).

Record TransformedRequest := {
  request : Request;
  orig_parts : Parts;
  web_socket_upgrade : option WebSocketUpgrade
}.

(** [GzEncoder] over the whole body, [hyper_tungstenite::upgrade], and the
    handshake key of [tungstenite]. *)
Class HyperLibs := {
  gzip : bytes -> option bytes;
  tungstenite_upgrade : Request -> option Response;
  generate_key : bytes
}.

(** [HttpProxyPassInner], with the identity that is stored at the time. *)
Record Inner := {
  identity : option Config.HttpProxyPassIdentity;
  endpoint_type : Config.ListenHttpEndpointType;
  connection_ip : ConnectionIp
}.

Definition client_is_http1 (v : Version) : bool := negb match v with HTTP_2 | HTTP_3 => true | _ => false end.

Definition is_h2_websocket_connect (p : Parts) : bool :=
  if decide (method p <> bs "CONNECT") then false
  else match protocol p with Some protocol => Str.eq_ignore_ascii_case protocol (bs "websocket") | None => false end.

(** [impl HttpRequestReader for Parts] *)
Definition parts_cookie (p : Parts) (cookie_name : bytes) : option bytes :=
  cookie_header ← hm_get (bs "cookie") (headers p);
  cookies ← to_str cookie_header;
  Google.cookie_of cookies cookie_name.

Definition parts_reader (p : Parts) : HttpRequestReader :=
  {| get_cookie n := Ok (parts_cookie p n); get_query_string := Ok (uri_query (uri p));
     GoogleAuth.get_host := Ok (uri_host (uri p)); get_path := Ok (uri_path (uri p)) |}.

Section Build.
Context `{RewriteLibs} `{RemoteEndpointLib} `{HyperLibs}.
Context (iter_add : gmap bytes bytes -> list (bytes * bytes)) (iter_remove : gset bytes -> list bytes).

(** ** [HttpProxyPassInner::populate_value] *)

Definition placeholder_value (i : Inner) (p : Parts) (placeholder : bytes) : bytes :=
  if decide (placeholder = bs "ENDPOINT_IP") then default [] (ip_text <$> connection_ip i)
  else if decide (placeholder = bs "PATH_AND_QUERY") then default [] (uri_path_and_query (uri p))
  else if decide (placeholder = bs "HOST_PORT") then default [] (uri_host (uri p))
  else if decide (placeholder = bs "CLIENT_CERT_CN") then default [] (Config.identity_as_str <$> identity i)
  else if decide (placeholder = bs "ENDPOINT_SCHEMA") then
    if Config.is_https (endpoint_type i) then bs "https" else bs "http"
  else default [] (env_var placeholder).

Definition token_value (i : Inner) (p : Parts) (t : ContentToken) : bytes :=
  match t with Text text => text | Placeholder placeholder => placeholder_value i p placeholder end.

Definition populate_value (i : Inner) (p : Parts) (value : bytes) : bytes :=
  if negb (Rewrite.has_placeholder value) then value else concat (map (token_value i p) (placeholders value)).

(** ** Changes to the headers of a request *)

Definition remove_headers (names : list bytes) (m : HeaderMap) : HeaderMap :=
  fold_left (fun m n => hm_remove n m) names m.

(** [headers.insert(HeaderName::from_bytes(n).unwrap(), v.parse().unwrap())] *)
Definition insert_header (n v : bytes) (m : HeaderMap) : outcome ProxyPassError HeaderMap :=
  k ← unwrap (header_name n);
  if header_value_ok v then Ok (hm_insert k v m) else Panic.

(** The loops of [modify_headers]; [skip_empty] is what the request's loop
    has and the response's has not. *)
Fixpoint insert_added (skip_empty : bool) (i : Inner) (p : Parts) (adds : list (bytes * bytes)) (m : HeaderMap) :
    outcome ProxyPassError HeaderMap :=
  match adds with
  | [] => Ok m
  | (header, value) :: adds =>
      let populated := populate_value i p value in
      if skip_empty && (bool_decide (value = []) || bool_decide (populated = [])) then insert_added skip_empty i p adds m
      else m ← insert_header header populated m; insert_added skip_empty i p adds m
  end.

Definition modify_headers (skip_empty : bool) (i : Inner) (p : Parts) (c : Rewrite.ModifyHeadersConfig) (m : HeaderMap) :
    outcome ProxyPassError HeaderMap :=
  insert_added skip_empty i p (iter_add (Rewrite.add_headers c)) (remove_headers (iter_remove (Rewrite.remove c)) m).

Definition apply_auto_x_forwarded_for (i : Inner) (m : HeaderMap) : outcome ProxyPassError HeaderMap :=
  match connection_ip i with
  | None => Ok m
  | Some ip =>
      let new_value :=
        match hm_get (bs "x-forwarded-for") m ≫= to_str with
        | Some s => s ++ bs "," ++ ip_text ip
        | None => ip_text ip
        end in
      if header_value_ok new_value then Ok (hm_insert (bs "x-forwarded-for") new_value m) else Panic
  end.

Definition apply_cf_ip_country (i : Inner) (inject_country : bool) (m : HeaderMap) : outcome ProxyPassError HeaderMap :=
  if negb inject_country then Ok m
  else
    match connection_ip i with
    | None => Ok m
    | Some ip =>
        match lookup_country (ip_text ip) with
        | None => Ok m
        | Some code => if header_value_ok code then Ok (hm_insert (bs "cf-ipcountry") code m) else Panic
        end
    end.

Definition process_headers (e : Config.HttpEndpointInfo) (i : Inner) (location : Config.ProxyPassLocationConfig)
    (p : Parts) : outcome ProxyPassError Parts :=
  m ← modify_headers true i p (Config.modify_request_headers location) (headers p);
  m ← modify_headers true i p (Rewrite.modify_request_headers (Config.heads e)) m;
  m ← apply_auto_x_forwarded_for i m;
  m ← apply_cf_ip_country i (Rewrite.inject_country (Config.heads e)) m;
  Ok (set_headers m p).

(** ** [into_request] *)

Definition apply_upstream_path (u : Uri) (upstream_path : bytes) : Uri :=
  match parse_path_and_query upstream_path with
  | None => u
  | Some path_and_query => default u (from_parts_with path_and_query u)
  end.

Definition rewrite_mcp_path (u : Uri) (location : Config.ProxyPassLocationConfig) : Uri :=
  match Config.mcp_path (Config.proxy_pass_to location) with
  | None => u
  | Some mcp_path => apply_upstream_path u mcp_path
  end.

(** [Request::builder().header(..)]: a name or value the crate refuses makes
    the builder fail when it is finished. *)
Definition builder_header (n v : bytes) (b : option HeaderMap) : option HeaderMap :=
  m ← b; k ← header_name n; if header_value_ok v then Some (hm_append k v m) else None.

Definition copy_headers (skip : bytes -> bool) (src : HeaderMap) (b : option HeaderMap) : option HeaderMap :=
  m ← b;
  Some (fold_left (fun m nv => if skip (fst nv) then m else hm_append (fst nv) (snd nv) m) (hm_iter src) m).

(** The headers a web socket handshake does not take over. *)
Definition handshake_headers : list bytes :=
  [bs "host"; bs "connection"; bs "upgrade"; bs "transfer-encoding"; bs "te"; bs "keep-alive"; bs "proxy-connection";
   bs "sec-websocket-version"; bs "sec-websocket-key"; bs "sec-websocket-accept"].

Definition is_handshake_header (n : bytes) : bool := bool_decide (n ∈ handshake_headers).

Definition ok_response : Response := {| status := 200; resp_headers := hm_new; resp_body := [] |}.

Definition h2_websocket_to_h2_websocket (p : Parts) : outcome ProxyPassError TransformedRequest :=
  if negb (on_upgrade p) then Err NoWebSocketUpgrade
  else
    let p := take_on_upgrade p in
    m ← unwrap (copy_headers is_handshake_header (headers p) (Some hm_new));
    Ok {| request := {| req_parts := {| method := bs "CONNECT"; uri := uri p; version := HTTP_2; headers := m;
                                        protocol := Some (bs "websocket"); on_upgrade := false |};
                        req_body := [] |};
          orig_parts := p; web_socket_upgrade := Some (UpgradeH2 ok_response) |}.

(** The authority of a uri as a host header. *)
Definition uri_host_header (u : Uri) : option bytes :=
  host ← uri_host u;
  Some (match uri_port u with Some port => host ++ bs ":" ++ port | None => host end).

Definition origin_form (u : Uri) : outcome ProxyPassError Uri :=
  unwrap (parse_uri (default (bs "/") (uri_path_and_query u))).

Definition h2_websocket_to_h1_websocket (p : Parts) : outcome ProxyPassError TransformedRequest :=
  if negb (on_upgrade p) then Err NoWebSocketUpgrade
  else
    let p := take_on_upgrade p in
    u ← origin_form (uri p);
    host_header ←
      match uri_host_header (uri p) with
      | Some host => Ok host
      | None =>
          match hm_get (bs "host") (headers p) with
          | Some host => unwrap (to_str host)
          | None => Err NoWebSocketUpgrade
          end
      end;
    let builder :=
      builder_header (bs "Sec-WebSocket-Key") generate_key
        (builder_header (bs "Sec-WebSocket-Version") (bs "13")
          (builder_header (bs "upgrade") (bs "websocket")
            (builder_header (bs "connection") (bs "Upgrade")
              (builder_header (bs "host") host_header (Some hm_new))))) in
    m ← unwrap (copy_headers is_handshake_header (headers p) builder);
    Ok {| request := {| req_parts := {| method := bs "GET"; uri := u; version := HTTP_11; headers := m;
                                        protocol := None; on_upgrade := false |};
                        req_body := [] |};
          orig_parts := p; web_socket_upgrade := Some (UpgradeH2 ok_response) |}.

Definition is_host (n : bytes) : bool := Str.eq_ignore_ascii_case n (bs "host").

Definition http2_to_http1 (p : Parts) (incoming : option bytes) (location : Config.ProxyPassLocationConfig) :
    outcome ProxyPassError TransformedRequest :=
  u ← origin_form (uri p);
  let u := rewrite_mcp_path u location in
  host_header ←
    match hm_get (bs "host") (headers p) with
    | Some host => unwrap (to_str host)
    | None => ok_or (uri_host_header (uri p)) NoHostHeader
    end;
  let builder := copy_headers is_host (headers p) (builder_header (bs "host") host_header (Some hm_new)) in
  body ← ok_or incoming HyperError;
  m ← unwrap builder;
  Ok {| request := {| req_parts := {| method := method p; uri := u; version := HTTP_11; headers := m; protocol := None;
                                      on_upgrade := false |};
                      req_body := body |};
        orig_parts := p; web_socket_upgrade := None |}.

Definition gzip_headers (compressed_data_len : Z) (m : HeaderMap) : outcome ProxyPassError HeaderMap :=
  let m := hm_remove (bs "content-type") (hm_remove (bs "content-encoding") m) in
  let m := hm_append (bs "content-type") (bs "application/octet-stream") (hm_append (bs "content-encoding") (bs "gzip") m) in
  let m := hm_remove (bs "content-length") m in
  let len := Str.uint_to_string compressed_data_len in
  if header_value_ok len then Ok (hm_append (bs "content-length") len m) else Panic.

Definition build_request (p : Parts) (incoming : option bytes) (location : Config.ProxyPassLocationConfig) :
    outcome ProxyPassError Request :=
  let p := set_uri (rewrite_mcp_path (uri p) location) p in
  body ← ok_or incoming HyperError;
  if Config.compress location && (2048 <=? Z.of_nat (length body)) then
    compressed_data ← ok_or (gzip body) IoError;
    m ← gzip_headers (Z.of_nat (length compressed_data)) (headers p);
    Ok {| req_parts := set_headers m p; req_body := compressed_data |}
  else Ok {| req_parts := p; req_body := body |}.

Definition into_request (p : Parts) (incoming : option bytes) (location : Config.ProxyPassLocationConfig) :
    outcome ProxyPassError TransformedRequest :=
  match Config.is_remote_content_http1 location, is_h2_websocket_connect p with
  | Some true, true => h2_websocket_to_h1_websocket p
  | Some false, true => h2_websocket_to_h2_websocket p
  | None, _ =>
      r ← build_request p incoming location;
      Ok {| request := r; orig_parts := req_parts r; web_socket_upgrade := None |}
  | Some dest_http1, false =>
      if negb (client_is_http1 (version p)) && dest_http1 then http2_to_http1 p incoming location
      else
        r ← build_request p incoming location;
        upgrade ←
          match hm_get (bs "sec-websocket-key") (headers (req_parts r)) with
          | Some _ => upgrade_response ← ok_or (tungstenite_upgrade r) WebSocketProtocolError; Ok (Some (UpgradeH1 upgrade_response))
          | None => Ok None
          end;
        Ok {| request := r; orig_parts := req_parts r; web_socket_upgrade := upgrade |}
  end.

(** ** [modify_resp_headers] *)

(** Headers that have no meaning in HTTP/2. *)
Definition connection_headers : list bytes :=
  [bs "transfer-encoding"; bs "connection"; bs "upgrade"; bs "keep-alive"; bs "proxy-connection"; bs "connection"].

Definition modify_resp_headers (e : Config.HttpEndpointInfo) (i : Inner) (p : Parts)
    (location : Config.ProxyPassLocationConfig) (m : HeaderMap) : outcome ProxyPassError HeaderMap :=
  let m :=
    match Config.is_remote_content_http1 location with
    | Some dest_http1 =>
        if dest_http1 && negb (client_is_http1 (version p)) then remove_headers connection_headers m else m
    | None => m
    end in
  m ← modify_headers false i p (Rewrite.modify_response_headers (Config.heads e)) m;
  modify_headers false i p (Config.modify_response_headers location) m.

End Build.
End Requests.
(** ** Header maps by the values of a name *)

Section Values.
Context `{HttpCrate}.

(** Names that are their own [HeaderName]. *)
Definition is_token (n : bytes) : bool :=
  negb (bool_decide (n = [])) && forallb (fun b => (97 <=? u8 b) && (u8 b <=? 122) || (u8 b =? 45)) n.

Lemma header_name_ok n : is_token n = true -> header_name n = Some n.
Proof.
  unfold is_token. intros [Hn Hf]%andb_true_iff. apply header_name_token.
  - by apply negb_true_iff, bool_decide_eq_false in Hn.
  - rewrite forallb_forall in Hf. apply Forall_forall. intros b Hb. apply Hf. by apply list_elem_of_In.
Qed.

Lemma get_values n m : is_token n = true -> hm_get n m = head (hm_values n m).
Proof. intros Hn. by rewrite hm_get_spec, header_name_ok. Qed.

Lemma values_new k : hm_values k hm_new = [].
Proof. unfold hm_values. by rewrite hm_iter_new. Qed.

Lemma values_remove_headers k names m :
  hm_values k (remove_headers names m) =
  if decide (Exists (fun n => header_name n = Some k) names) then [] else hm_values k m.
Proof.
  revert m. induction names as [|n names IH]; intros m; cbn.
  - rewrite decide_False; [done|]. intros Hx. by apply Exists_nil in Hx.
  - change (fold_left _ names ?x) with (remove_headers names x). rewrite IH, hm_remove_spec.
    destruct (decide (Exists _ names)) as [Hn|Hn].
    + rewrite decide_True; [done|]. by constructor 2.
    + case_decide as Hk.
      * rewrite decide_True; [done|]. by constructor 1.
      * rewrite decide_False; [done|]. by intros [?|?]%Exists_cons.
Qed.

Lemma values_copy k skip src b m :
  copy_headers skip src b = Some m ->
  exists m0, b = Some m0 /\ hm_values k m = hm_values k m0 ++ (if skip k then [] else hm_values k src).
Proof.
  unfold copy_headers. destruct b as [m0|]; cbn; [|done]. intros [= <-]. exists m0. split; [done|].
  unfold hm_values at 3. assert (forall n v, (n, v) ∈ hm_iter src -> header_name n = Some n) as Hnames by (intros n v; apply hm_iter_names).
  revert m0 Hnames. generalize (hm_iter src). intros l.
  induction l as [|[n v] l IH]; intros m0 Hnames; cbn [fold_left omap list_omap fst snd].
  - destruct (skip k); by rewrite app_nil_r.
  - rewrite IH by (intros n' v' Hin; apply (Hnames n' v'); by right). destruct (skip n) eqn:Hs.
    + case_decide as Hk; [|done]. subst n. by rewrite Hs.
    + rewrite hm_append_spec by (apply (Hnames n v); by left). case_decide as Hk; [|done]. subst n. rewrite Hs. by rewrite <-app_assoc.
Qed.

Lemma values_builder_header k n v b m :
  builder_header n v b = Some m ->
  exists m0 k0, b = Some m0 /\ header_name n = Some k0 /\ header_value_ok v = true /\
    hm_values k m = if decide (k0 = k) then hm_values k m0 ++ [v] else hm_values k m0.
Proof.
  unfold builder_header. destruct b as [m0|]; cbn; [|done]. destruct (header_name n) as [k0|] eqn:Hk0; cbn; [|done].
  destruct (header_value_ok v); [|done]. intros [= <-]. exists m0, k0. by rewrite hm_append_spec by (by eapply header_name_idem).
Qed.

End Values.

Section Facts.
Context `{HttpCrate} `{RewriteLibs} `{RemoteEndpointLib} `{!HyperLibs}.
Context (iter_add : gmap bytes bytes -> list (bytes * bytes)) (iter_remove : gset bytes -> list bytes).

(** The headers a configuration can add. *)
Definition adds_name (c : Rewrite.ModifyHeadersConfig) (k : bytes) : Prop :=
  Exists (fun a => header_name (fst a) = Some k) (iter_add (Rewrite.add_headers c)).

Definition removes_name (c : Rewrite.ModifyHeadersConfig) (k : bytes) : Prop :=
  Exists (fun n => header_name n = Some k) (iter_remove (Rewrite.remove c)).

Lemma values_insert_added k skip_empty i p adds m m' :
  insert_added skip_empty i p adds m = Ok m' -> ~ Exists (fun a => header_name (fst a) = Some k) adds ->
  hm_values k m' = hm_values k m.
Proof.
  revert m. induction adds as [|[n v] adds IH]; intros m; cbn; [by intros [= <-]|].
  intros Hi Hn. assert (~ Exists (fun a => header_name (fst a) = Some k) adds) as Hn' by (intros ?; apply Hn; by constructor 2).
  destruct (skip_empty && _); [by apply IH|]. unfold insert_header in Hi.
  destruct (header_name n) as [k0|] eqn:Hk0; cbn in Hi; [|done]. destruct (header_value_ok _); cbn in Hi; [|done].
  rewrite (IH _ Hi Hn'), hm_insert_spec, decide_False; [done| |by eapply header_name_idem].
  intros ->. apply Hn. by constructor 1.
Qed.

Lemma values_modify_headers k skip_empty i p c m m' :
  modify_headers iter_add iter_remove skip_empty i p c m = Ok m' -> ~ adds_name c k ->
  hm_values k m' = if decide (removes_name c k) then [] else hm_values k m.
Proof.
  unfold modify_headers. intros Hi Hn. rewrite (values_insert_added k _ _ _ _ _ _ Hi Hn). apply values_remove_headers.
Qed.

(** ** What the upstream is sent *)

(** The headers a conversion writes or leaves out itself. *)
Definition rewritten_headers : list bytes :=
  handshake_headers ++ [bs "content-type"; bs "content-encoding"; bs "content-length"].

Lemma values_gzip_headers k len m m' :
  gzip_headers len m = Ok m' -> k ∉ rewritten_headers -> hm_values k m' = hm_values k m.
Proof.
  unfold gzip_headers. destruct (header_value_ok _); [|done]. intros [= <-] Hk.
  rewrite !hm_append_spec, !hm_remove_spec, !hm_append_spec, !hm_remove_spec, !header_name_ok by (reflexivity || by apply header_name_ok).
  unfold rewritten_headers in Hk.
  rewrite !decide_False; [done|..]; intros Hx; simplify_eq; apply Hk; apply elem_of_app; right; set_solver.
Qed.

Lemma build_request_spec p incoming location r :
  build_request p incoming location = Ok r ->
  uri (req_parts r) = rewrite_mcp_path (uri p) location /\ method (req_parts r) = method p /\
  version (req_parts r) = version p /\
  (forall k, k ∉ rewritten_headers -> hm_values k (headers (req_parts r)) = hm_values k (headers p)) /\
  exists b, incoming = Some b /\
    if Config.compress location && (2048 <=? Z.of_nat (length b)) then gzip b = Some (req_body r)
    else req_body r = b /\ headers (req_parts r) = headers p.
Proof.
  unfold build_request. destruct incoming as [b|]; cbn [ok_or mbind outcome_bind]; [|done].
  destruct (Config.compress location && _) eqn:Hc.
  - destruct (gzip b) as [z|] eqn:Hz; cbn [ok_or mbind outcome_bind]; [|done].
    destruct (gzip_headers _ _) as [m| |] eqn:Hm; cbn [mbind outcome_bind]; [|done..].
    intros [= <-]. split_and!; try done; [intros k; by eapply values_gzip_headers|]. exists b. by rewrite Hc.
  - intros [= <-]. split_and!; try done. exists b. by rewrite Hc.
Qed.

Lemma handshake_is_rewritten k : k ∉ rewritten_headers -> is_handshake_header k = false /\ k <> bs "host" /\
  k <> bs "connection" /\ k <> bs "upgrade" /\ k <> bs "sec-websocket-version" /\ k <> bs "sec-websocket-key".
Proof.
  intros Hk. unfold rewritten_headers in Hk. rewrite elem_of_app in Hk. unfold is_handshake_header.
  rewrite bool_decide_eq_false. split; [naive_solver|].
  split_and!; intros ->; apply Hk; left; unfold handshake_headers; set_solver.
Qed.

Lemma values_builder_other k n k0 v b m :
  builder_header n v b = Some m -> header_name n = Some k0 -> k <> k0 ->
  exists m0, b = Some m0 /\ hm_values k m = hm_values k m0.
Proof.
  intros (m0 & k1 & -> & Hk1 & _ & Hv)%(values_builder_header k) Hk0 Hne. exists m0. split; [done|].
  rewrite Hv, decide_False; [done|]. congruence.
Qed.

Lemma names_are_lower k m : header_name k <> Some k -> hm_values k m = [].
Proof.
  intros Hk. unfold hm_values. assert (forall n v, (n, v) ∈ hm_iter m -> n <> k) as Hn.
  { intros n v Hin ->. by apply hm_iter_names in Hin. }
  induction (hm_iter m) as [|[n v] l IH]; [done|]. cbn. rewrite decide_False; [apply IH|].
  - intros n' v' Hin. apply (Hn n' v'). by right.
  - apply (Hn n v). by left.
Qed.

Lemma is_host_other k m : k <> bs "host" -> is_host k = true -> hm_values k m = [].
Proof.
  intros Hk Hh. apply names_are_lower. unfold is_host, Str.eq_ignore_ascii_case in Hh.
  apply bool_decide_eq_true in Hh. rewrite (header_name_case _ _ Hh), header_name_ok by reflexivity. congruence.
Qed.

Lemma h1_websocket_keeps p t k :
  h2_websocket_to_h1_websocket p = Ok t -> k ∉ rewritten_headers ->
  hm_values k (headers (req_parts (request t))) = hm_values k (headers p).
Proof.
  intros Ht Hk. destruct (handshake_is_rewritten k Hk) as (Hh & Hhost & Hc & Hu & Hv & Hkey).
  unfold h2_websocket_to_h1_websocket in Ht. destruct (negb (on_upgrade p)); [done|].
  destruct (origin_form _); cbn [mbind outcome_bind] in Ht; [|done..].
  destruct (match uri_host_header _ with Some host => Ok host | None => _ end) as [host| |];
    cbn [mbind outcome_bind] in Ht; [|done..].
  destruct (copy_headers _ _ _) as [m|] eqn:Hm; cbn [unwrap mbind outcome_bind] in Ht; [|done]. injection Ht as <-.
  cbn. apply (values_copy k) in Hm as (m1 & Hm & ->). rewrite Hh.
  apply (values_builder_other k _ (bs "sec-websocket-key")) in Hm as (m2 & Hm & ->);
    [|by rewrite (header_name_case _ (bs "sec-websocket-key")), header_name_ok|done].
  apply (values_builder_other k _ (bs "sec-websocket-version")) in Hm as (m3 & Hm & ->);
    [|by rewrite (header_name_case _ (bs "sec-websocket-version")), header_name_ok|done].
  do 3 (eapply values_builder_other in Hm as (? & Hm & ->); [|by apply header_name_ok|done]).
  injection Hm as <-. by rewrite values_new.
Qed.

Lemma h2_websocket_keeps p t k :
  h2_websocket_to_h2_websocket p = Ok t -> k ∉ rewritten_headers ->
  hm_values k (headers (req_parts (request t))) = hm_values k (headers p).
Proof.
  intros Ht Hk. destruct (handshake_is_rewritten k Hk) as (Hh & _).
  unfold h2_websocket_to_h2_websocket in Ht. destruct (negb (on_upgrade p)); [done|].
  destruct (copy_headers _ _ _) as [m|] eqn:Hm; cbn [unwrap mbind outcome_bind] in Ht; [|done]. injection Ht as <-.
  cbn. apply (values_copy k) in Hm as (m1 & [= <-] & ->). by rewrite Hh, values_new.
Qed.

(** The conversion of a request that came over HTTP/2 for an HTTP/1.1
    upstream. *)
Lemma http2_to_http1_spec p incoming location t :
  http2_to_http1 p incoming location = Ok t ->
  exists u host, origin_form (uri p) = Ok u /\
    uri (req_parts (request t)) = rewrite_mcp_path u location /\ method (req_parts (request t)) = method p /\
    version (req_parts (request t)) = HTTP_11 /\ incoming = Some (req_body (request t)) /\
    match hm_values (bs "host") (headers p) with
    | v :: _ => to_str v = Some host
    | [] => uri_host_header (uri p) = Some host
    end /\
    hm_values (bs "host") (headers (req_parts (request t))) = [host] /\
    forall k, k <> bs "host" -> hm_values k (headers (req_parts (request t))) = hm_values k (headers p).
Proof.
  unfold http2_to_http1. intros Ht. destruct (origin_form (uri p)) as [u| |]; cbn [mbind outcome_bind] in Ht; [|done..].
  rewrite get_values in Ht by reflexivity.
  destruct (match head _ with Some _ => _ | None => _ end) as [host| |] eqn:Hhost; cbn [mbind outcome_bind] in Ht; [|done..].
  destruct incoming as [body|]; cbn [ok_or mbind outcome_bind] in Ht; [|done].
  destruct (copy_headers _ _ _) as [m|] eqn:Hm; cbn [unwrap mbind outcome_bind] in Ht; [|done]. injection Ht as <-.
  assert (forall k, hm_values k m = (if decide (bs "host" = k) then [host] else []) ++
    (if is_host k then [] else hm_values k (headers p))) as Hv.
  { intros k. destruct (values_copy k _ _ _ _ Hm) as (m1 & Hm1 & ->).
    apply (values_builder_header k) in Hm1 as (m2 & k0 & [= <-] & Hk0 & _ & ->).
    rewrite header_name_ok in Hk0 by reflexivity. injection Hk0 as <-. rewrite values_new. by case_decide. }
  exists u, host. cbn. split_and!; [done..| |by rewrite Hv|].
  - destruct (hm_values (bs "host") (headers p)) as [|v vs]; cbn in Hhost.
    + by destruct (uri_host_header (uri p)); cbn in Hhost; [injection Hhost as <-|].
    + by destruct (to_str v); cbn in Hhost; [injection Hhost as <-|].
  - intros k Hk. rewrite Hv, decide_False by congruence. destruct (is_host k) eqn:Hh; [|done]. cbn.
    symmetry. by apply is_host_other.
Qed.

(** The three ways a request leaves [into_request]. *)
Lemma into_request_cases p incoming location t :
  into_request p incoming location = Ok t ->
  (is_h2_websocket_connect p = true /\
   (h2_websocket_to_h1_websocket p = Ok t \/ h2_websocket_to_h2_websocket p = Ok t)) \/
  http2_to_http1 p incoming location = Ok t \/
  build_request p incoming location = Ok (request t).
Proof.
  unfold into_request.
  assert (forall f : Request -> outcome ProxyPassError (option WebSocketUpgrade),
    (r ← build_request p incoming location; u ← f r;
     Ok {| request := r; orig_parts := req_parts r; web_socket_upgrade := u |}) = Ok t ->
    build_request p incoming location = Ok (request t)) as Hbuild.
  { intros f. destruct (build_request p incoming location) as [r| |]; cbn [mbind outcome_bind]; [|done..].
    destruct (f r); cbn [mbind outcome_bind]; [by intros [= <-]|done..]. }
  destruct (Config.is_remote_content_http1 location) as [[]|], (is_h2_websocket_connect p); intros Ht;
    [left; split; [done|by left]| |left; split; [done|by right]| |..].
  - destruct (negb (client_is_http1 (version p))); cbn [andb] in Ht; [by right; left|]. right; right. exact (Hbuild _ Ht).
  - rewrite andb_false_r in Ht. right; right. exact (Hbuild _ Ht).
  - right; right. by apply (Hbuild (fun _ => Ok None)).
  - right; right. by apply (Hbuild (fun _ => Ok None)).
Qed.

Lemma into_request_keeps p incoming location t k :
  into_request p incoming location = Ok t -> k ∉ rewritten_headers ->
  hm_values k (headers (req_parts (request t))) = hm_values k (headers p).
Proof.
  intros [[_ [Ht|Ht]]|[Ht|Ht]]%into_request_cases Hk.
  - by apply h1_websocket_keeps.
  - by apply h2_websocket_keeps.
  - apply http2_to_http1_spec in Ht as (? & ? & _ & _ & _ & _ & _ & _ & _ & Hr). apply Hr.
    by destruct (handshake_is_rewritten k Hk) as (_ & ? & _).
  - apply build_request_spec in Ht as (_ & _ & _ & Hr & _). by apply Hr.
Qed.

(** *** The headers the proxy adds *)

Definition touches (c : Rewrite.ModifyHeadersConfig) (k : bytes) : Prop := adds_name c k \/ removes_name c k.

Lemma values_insert_header k n v m m' :
  insert_header n v m = Ok m' -> header_name n <> Some k -> hm_values k m' = hm_values k m.
Proof.
  unfold insert_header. destruct (header_name n) as [k0|] eqn:Hk0; cbn; [|done]. destruct (header_value_ok v); [|done].
  intros [= <-] Hk. rewrite hm_insert_spec, decide_False; [done|congruence|by eapply header_name_idem].
Qed.

Lemma values_untouched k skip_empty i p c m m' :
  modify_headers iter_add iter_remove skip_empty i p c m = Ok m' -> ~ touches c k -> hm_values k m' = hm_values k m.
Proof.
  intros Hm Ht. unfold touches in Ht. rewrite (values_modify_headers k _ _ _ _ _ _ Hm) by tauto.
  rewrite decide_False; [done|tauto].
Qed.

Lemma process_headers_spec e i location p p' :
  process_headers iter_add iter_remove e i location p = Ok p' ->
  uri p' = uri p /\ method p' = method p /\ version p' = version p /\ protocol p' = protocol p /\
  exists m1 m2 m3,
    modify_headers iter_add iter_remove true i p (Config.modify_request_headers location) (headers p) = Ok m1 /\
    modify_headers iter_add iter_remove true i p (Rewrite.modify_request_headers (Config.heads e)) m1 = Ok m2 /\
    apply_auto_x_forwarded_for i m2 = Ok m3 /\
    apply_cf_ip_country i (Rewrite.inject_country (Config.heads e)) m3 = Ok (headers p').
Proof.
  unfold process_headers. intros Hp.
  destruct (modify_headers _ _ _ _ _ (Config.modify_request_headers location) _) as [m1| |]; cbn [mbind outcome_bind] in Hp; [|done..].
  destruct (modify_headers _ _ _ _ _ _ m1) as [m2| |] eqn:E2; cbn [mbind outcome_bind] in Hp; [|done..].
  destruct (apply_auto_x_forwarded_for i m2) as [m3| |] eqn:E3; cbn [mbind outcome_bind] in Hp; [|done..].
  destruct (apply_cf_ip_country i _ m3) as [m4| |] eqn:E4; cbn [mbind outcome_bind] in Hp; [|done..].
  injection Hp as <-. split_and!; try done. by exists m1, m2, m3.
Qed.

Lemma values_country k i inject m m' :
  apply_cf_ip_country i inject m = Ok m' -> k <> bs "cf-ipcountry" -> hm_values k m' = hm_values k m.
Proof.
  unfold apply_cf_ip_country. intros Hm Hk. destruct (negb inject); [by injection Hm as <-|].
  destruct (connection_ip i) as [ip|]; [|by injection Hm as <-].
  destruct (lookup_country _) as [code|]; [|by injection Hm as <-].
  destruct (header_value_ok code); [|done]. injection Hm as <-. rewrite hm_insert_spec, decide_False by (congruence || by apply header_name_ok). done.
Qed.

Lemma values_forwarded k i m m' :
  apply_auto_x_forwarded_for i m = Ok m' -> k <> bs "x-forwarded-for" -> hm_values k m' = hm_values k m.
Proof.
  unfold apply_auto_x_forwarded_for. intros Hm Hk. destruct (connection_ip i) as [ip|]; [|by injection Hm as <-].
  destruct (header_value_ok _); [|done]. injection Hm as <-. rewrite hm_insert_spec, decide_False by (congruence || by apply header_name_ok). done.
Qed.

(** The client's address reaches the upstream.  Whatever
    [X-Forwarded-For] lines a client on a TCP connection sends, and whatever
    the configuration does to them, the upstream gets exactly one, which ends
    in the address of the connection; unless the configuration touches the
    header, what stands in front of it is the first line the client sent. *)
Theorem client_address_comes_last e i location p p' ip :
  process_headers iter_add iter_remove e i location p = Ok p' -> connection_ip i = Some ip ->
  exists before, hm_values (bs "x-forwarded-for") (headers p') = [before ++ ip_text ip] /\
    (~ touches (Config.modify_request_headers location) (bs "x-forwarded-for") ->
     ~ touches (Rewrite.modify_request_headers (Config.heads e)) (bs "x-forwarded-for") ->
     before = match head (hm_values (bs "x-forwarded-for") (headers p)) ≫= to_str with
              | Some sent => sent ++ bs ","
              | None => []
              end).
Proof.
  intros (_ & _ & _ & _ & m1 & m2 & m3 & Hm1 & Hm2 & Hm3 & Hm4)%process_headers_spec Hip.
  rewrite (values_country _ _ _ _ _ Hm4) by done. unfold apply_auto_x_forwarded_for in Hm3. rewrite Hip in Hm3.
  destruct (header_value_ok _); [|done]. injection Hm3 as <-. rewrite hm_insert_spec, decide_True by (done || by apply header_name_ok).
  rewrite get_values by done.
  exists (match head (hm_values (bs "x-forwarded-for") m2) ≫= to_str with Some sent => sent ++ bs "," | None => [] end). split.
  - destruct (head _ ≫= to_str); [|done]. by rewrite <-app_assoc.
  - intros Hn1 Hn2. by rewrite (values_untouched _ _ _ _ _ _ _ Hm2 Hn2), (values_untouched _ _ _ _ _ _ _ Hm1 Hn1).
Qed.

(** The country of the client.  Where the endpoint injects it and the
    client's country is known, the upstream gets that and nothing the client
    wrote; where the country is not known, the client's own [CF-IPCountry]
    lines go through as they came, so they can be forged. *)
Theorem unknown_country_is_taken_from_the_client e i location p p' ip :
  process_headers iter_add iter_remove e i location p = Ok p' -> connection_ip i = Some ip ->
  Rewrite.inject_country (Config.heads e) = true ->
  match lookup_country (ip_text ip) with
  | Some code => hm_values (bs "cf-ipcountry") (headers p') = [code]
  | None =>
      ~ touches (Config.modify_request_headers location) (bs "cf-ipcountry") ->
      ~ touches (Rewrite.modify_request_headers (Config.heads e)) (bs "cf-ipcountry") ->
      hm_values (bs "cf-ipcountry") (headers p') = hm_values (bs "cf-ipcountry") (headers p)
  end.
Proof.
  intros (_ & _ & _ & _ & m1 & m2 & m3 & Hm1 & Hm2 & Hm3 & Hm4)%process_headers_spec Hip Hinj.
  unfold apply_cf_ip_country in Hm4. rewrite Hip, Hinj in Hm4. cbn [negb] in Hm4.
  destruct (lookup_country _) as [code|].
  - destruct (header_value_ok code); [|done]. injection Hm4 as <-. by rewrite hm_insert_spec, decide_True by (done || by apply header_name_ok).
  - injection Hm4 as <-. intros Hn1 Hn2. rewrite (values_forwarded _ _ _ _ Hm3) by done.
    by rewrite (values_untouched _ _ _ _ _ _ _ Hm2 Hn2), (values_untouched _ _ _ _ _ _ _ Hm1 Hn1).
Qed.

(** The access token stays in the proxy, over HTTP/2 too.  On an
    endpoint with an OAuth block no request leaves for an upstream with an
    [Authorization] header, whatever the client sends, whatever the location's
    configuration adds, and whichever conversion the request goes through,
    unless the endpoint's own configuration adds one. *)
Theorem h2_token_not_forwarded e i location p p' incoming t inj https id ka hs settings :
  (forall names n, n ∈ names -> n ∈ iter_remove names) ->
  Config.heads e = Rewrite.endpoint_new inj https (Some id) ka hs settings ->
  ~ adds_name (Rewrite.modify_request_headers (Config.heads e)) (bs "authorization") ->
  process_headers iter_add iter_remove e i location p = Ok p' ->
  into_request p' incoming location = Ok t ->
  hm_values (bs "authorization") (headers (req_parts (request t))) = [].
Proof.
  intros Hiter He Hadd (_ & _ & _ & _ & m1 & m2 & m3 & _ & Hm2 & Hm3 & Hm4)%process_headers_spec Ht.
  rewrite (into_request_keeps _ _ _ _ _ Ht).
  2: { unfold rewritten_headers, handshake_headers. by apply (bool_decide_eq_false _). }
  rewrite (values_country _ _ _ _ _ Hm4) by done. rewrite (values_forwarded _ _ _ _ Hm3) by done.
  rewrite (values_modify_headers _ _ _ _ _ _ _ Hm2 Hadd), decide_True; [done|].
  apply Exists_exists. exists (bs "authorization"). split; [|by apply header_name_ok].
  apply Hiter. rewrite He. unfold Rewrite.endpoint_new. destruct (Rewrite.new_request settings) as [req settings'].
  destruct (Rewrite.new_response settings') as [resp settings'']. cbn. set_solver.
Qed.

(** A request that came over HTTP/2 for an HTTP/1.1 upstream.  It keeps
    its method and its body, has exactly one [Host], the client's first or
    else the uri's authority, and every other header as it was. *)
Theorem converted_request e i location p p' incoming t :
  process_headers iter_add iter_remove e i location p = Ok p' ->
  client_is_http1 (version p) = false -> Config.is_remote_content_http1 location = Some true ->
  is_h2_websocket_connect p = false ->
  into_request p' incoming location = Ok t ->
  method (req_parts (request t)) = method p /\ incoming = Some (req_body (request t)) /\
  version (req_parts (request t)) = HTTP_11 /\
  (exists host, hm_values (bs "host") (headers (req_parts (request t))) = [host] /\
     match hm_values (bs "host") (headers p') with
     | v :: _ => host = v
     | [] => uri_host_header (uri p) = Some host
     end) /\
  forall k, k <> bs "host" -> hm_values k (headers (req_parts (request t))) = hm_values k (headers p').
Proof.
  intros (Hu & Hme & Hve & Hpr & _)%process_headers_spec Hv Hd Hws Ht. unfold into_request in Ht.
  assert (is_h2_websocket_connect p' = false) as Hws' by (revert Hws; unfold is_h2_websocket_connect; by rewrite Hme, Hpr).
  rewrite Hd, Hws', Hve, Hv in Ht. cbn [negb andb] in Ht.
  apply http2_to_http1_spec in Ht as (u & host & _ & _ & Hm & Hver & Hb & Hhost & Hval & Hrest).
  split_and!; try done; [by rewrite Hm, Hme|]. exists host. split; [done|].
  destruct (hm_values _ (headers p')); [by rewrite <-Hu|]. by apply to_str_spec in Hhost as [-> _].
Qed.

(** A response that came over HTTP/1.1 carries no header about that
    connection to an HTTP/2 client, unless one is configured. *)
Theorem connection_headers_removed e i p location m m' k :
  modify_resp_headers iter_add iter_remove e i p location m = Ok m' ->
  client_is_http1 (version p) = false -> Config.is_remote_content_http1 location = Some true ->
  k ∈ connection_headers ->
  ~ adds_name (Rewrite.modify_response_headers (Config.heads e)) k ->
  ~ adds_name (Config.modify_response_headers location) k ->
  hm_values k m' = [].
Proof.
  unfold modify_resp_headers. intros Hm Hv Hd Hk Ha1 Ha2. rewrite Hd, Hv in Hm. cbn [negb andb] in Hm.
  destruct (modify_headers _ _ _ _ _ _ (remove_headers _ _)) as [m1| |] eqn:Hm1; cbn [mbind outcome_bind] in Hm; [|done..].
  rewrite (values_modify_headers _ _ _ _ _ _ _ Hm Ha2). case_decide; [done|].
  rewrite (values_modify_headers _ _ _ _ _ _ _ Hm1 Ha1). case_decide; [done|].
  rewrite values_remove_headers, decide_True; [done|]. apply Exists_exists. exists k. split; [done|].
  apply header_name_ok. revert Hk. unfold connection_headers.
  repeat (intros [->|Hk]%elem_of_cons; [reflexivity|revert Hk]). by intros ?%elem_of_nil.
Qed.

(** An MCP location's path.  A request, whatever its path and query, goes to
    the path that is configured, if the crate accepts that path, with the
    authority it had; but a web socket over HTTP/2 keeps the client's path. *)
Theorem mcp_path_is_not_applied_to_web_sockets p incoming location t mcp pq u' :
  Config.mcp_path (Config.proxy_pass_to location) = Some mcp ->
  parse_path_and_query mcp = Some pq -> from_parts_with pq (uri p) = Some u' ->
  Config.is_remote_content_http1 location = Some false ->
  into_request p incoming location = Ok t ->
  if is_h2_websocket_connect p then uri (req_parts (request t)) = uri p
  else uri_path_and_query (uri (req_parts (request t))) = Some (path_and_query_as_str pq) /\
       uri_authority (uri (req_parts (request t))) = uri_authority (uri p).
Proof.
  intros Hmcp Hpq Hu Hd Ht. destruct (is_h2_websocket_connect p) eqn:Hws.
  - unfold into_request in Ht. rewrite Hd, Hws in Ht. unfold h2_websocket_to_h2_websocket in Ht.
    destruct (negb (on_upgrade p)); [done|]. destruct (copy_headers _ _ _); cbn in Ht; [|done]. by injection Ht as <-.
  - unfold into_request in Ht. rewrite Hd, Hws in Ht. rewrite andb_false_r in Ht.
    destruct (build_request p incoming location) as [r| |] eqn:Hr; cbn [mbind outcome_bind] in Ht; [|done..].
    assert (request t = r) as ->.
    { destruct (match hm_get _ _ with Some _ => _ | None => _ end); cbn [mbind outcome_bind] in Ht; [by injection Ht as <-|done..]. }
    apply build_request_spec in Hr as (-> & _). unfold rewrite_mcp_path, apply_upstream_path. rewrite Hmcp, Hpq, Hu. cbn.
    apply from_parts_spec in Hu. naive_solver.
Qed.

End Facts.

(** ** Witnesses: headers as a list of lines, a uri as host and path *)

Definition demo_tchar (b : byte) : bool := (97 <=? u8 b) && (u8 b <=? 122) || (u8 b =? 45) || (48 <=? u8 b) && (u8 b <=? 57).

Definition demo_name (n : bytes) : option bytes :=
  if negb (bool_decide (n = [])) && forallb demo_tchar (Str.lower n) then Some (Str.lower n) else None.

Definition demo_visible (v : bytes) : bool := forallb (fun b => (32 <=? u8 b) && (u8 b <? 127) || (u8 b =? 9)) v.

Lemma demo_visible_spec v : demo_visible v = true <-> Forall (fun b => 32 <= u8 b < 127 \/ u8 b = 9) v.
Proof.
  unfold demo_visible. rewrite forallb_forall, Forall_forall. setoid_rewrite <-list_elem_of_In.
  split; intros Hv b Hb; specialize (Hv b Hb); lia.
Qed.

Definition demo_iter (m : list (bytes * bytes)) : list (bytes * bytes) :=
  filter (fun nv => demo_name (fst nv) = Some (fst nv)) m.

Definition demo_remove (n : bytes) (m : list (bytes * bytes)) : list (bytes * bytes) :=
  match demo_name n with Some k => filter (fun nv => fst nv <> k) m | None => m end.

Definition demo_values (k : bytes) (m : list (bytes * bytes)) : list bytes :=
  omap (fun nv => if decide (fst nv = k) then Some (snd nv) else None) (demo_iter m).

Lemma lower_idem n : Str.lower (Str.lower n) = Str.lower n.
Proof. unfold Str.lower. rewrite map_map. apply map_ext. intros b. apply Str.to_lower_idem. Qed.

Lemma demo_name_idem n k : demo_name n = Some k -> demo_name k = Some k.
Proof.
  unfold demo_name. destruct (negb _ && _) eqn:Hc; [|done]. intros [= <-]. rewrite lower_idem.
  apply andb_true_iff in Hc as [Hn Hc]. rewrite Hc. by destruct n.
Qed.

Lemma demo_values_filter k k' m :
  demo_values k (filter (fun nv => fst nv <> k') m) =
  if decide (k' = k) then [] else demo_values k m.
Proof.
  unfold demo_values, demo_iter. induction m as [|[n v] m IH]; [by case_decide|].
  rewrite !(filter_cons _ (n, v) m). cbn [fst]. destruct (decide (n <> k')) as [Hn|Hn]; rewrite ?filter_cons; cbn [fst].
  - destruct (decide (demo_name n = Some n)) as [Hd|Hd]; [|exact IH]. cbn [omap list_omap fst snd]. rewrite IH.
    repeat case_decide; congruence.
  - destruct (decide (demo_name n = Some n)) as [Hd|Hd]; [|exact IH]. cbn [omap list_omap fst snd]. rewrite IH.
    repeat case_decide; try congruence. exfalso. apply Hn. congruence.
Qed.

Lemma demo_values_app k m n v :
  demo_name n = Some n -> demo_values k (m ++ [(n, v)]) = if decide (n = k) then demo_values k m ++ [v] else demo_values k m.
Proof.
  intros Hn. unfold demo_values, demo_iter. rewrite filter_app, omap_app. cbn. rewrite decide_True by done. cbn.
  case_decide; [done|]. by rewrite app_nil_r.
Qed.

Record DemoUri := { du_host : option bytes; du_path_and_query : option bytes }.

Definition demo_path (u : DemoUri) : bytes :=
  let pq := default (bs "/") (du_path_and_query u) in
  match Str.find Google.QUESTION pq with Some i => take i pq | None => pq end.

Program Definition demo_http : HttpCrate :=
  {| HeaderMap := list (bytes * bytes); hm_new := []; hm_iter := demo_iter;
            hm_get n m := k ← demo_name n; head (demo_values k m);
            hm_remove := demo_remove; hm_insert n v m := demo_remove n m ++ [(n, v)]; hm_append n v m := m ++ [(n, v)];
            header_name := demo_name; header_value_ok := demo_visible;
            to_str v := if demo_visible v then Some v else None;
            Uri := DemoUri; PathAndQuery := bytes; uri_path := demo_path; uri_query _ := None;
            uri_path_and_query := du_path_and_query; uri_authority := du_host; uri_host := du_host; uri_port _ := None;
            parse_uri s := Some {| du_host := None; du_path_and_query := Some s |};
            parse_path_and_query s := if Str.starts_with (bs "/") s then Some s else None;
            path_and_query_as_str s := s;
            from_parts_with s u := Some {| du_host := du_host u; du_path_and_query := Some s |} |}.
Next Obligation.
  try done.
Qed.
Next Obligation.
  intros n v m [Hn _]%list_elem_of_filter. done.
Qed.
Next Obligation.
  try done.
Qed.
Next Obligation.
  intros n k m. change (demo_values k (demo_remove n m) = if decide (demo_name n = Some k) then [] else demo_values k m).
  unfold demo_remove. destruct (demo_name n) as [k'|]; [|by rewrite decide_False].
  rewrite demo_values_filter. repeat case_decide; congruence.
Qed.
Next Obligation.
  intros n v k m Hn. change (demo_values k (demo_remove n m ++ [(n, v)]) = if decide (n = k) then [v] else demo_values k m).
  rewrite demo_values_app by done. unfold demo_remove. rewrite Hn, demo_values_filter.
  by case_decide.
Qed.
Next Obligation.
  intros n v k m Hn. by apply demo_values_app.
Qed.
Next Obligation.
  intros n Hne Hf. unfold demo_name. assert (Str.lower n = n) as Hl.
  { unfold Str.lower. rewrite <-(map_id n) at 2. apply map_ext_in. intros b Hb. rewrite Forall_forall in Hf.
    specialize (Hf b (proj2 (list_elem_of_In _ _) Hb)). unfold Str.to_lower.
    destruct ((65 <=? u8 b) && (u8 b <=? 90)) eqn:He; [lia|done]. }
  rewrite Hl, bool_decide_eq_false_2 by done. cbn.
  assert (forallb demo_tchar n = true) as ->; [|done]. apply forallb_forall. intros b Hb.
  rewrite Forall_forall in Hf. specialize (Hf b (proj2 (list_elem_of_In _ _) Hb)). unfold demo_tchar. by rewrite Hf.
Qed.
Next Obligation.
  exact demo_name_idem.
Qed.
Next Obligation.
  intros a b Hab. unfold demo_name. rewrite Hab. destruct a, b; try done.
Qed.
Next Obligation.
  intros v s. rewrite <-demo_visible_spec. destruct (demo_visible v); naive_solver.
Qed.
Next Obligation.
  intros v Hv. by apply demo_visible_spec.
Qed.
Next Obligation.
  intros p u u' [= <-]. done.
Qed.
#[local] Existing Instance demo_http.

Definition demo_hyper_libs : HyperLibs :=
  {| gzip := fun b => Some (take 3 b); tungstenite_upgrade := fun _ => Some ok_response; generate_key := bs "a2V5" |}.

#[local] Existing Instance demo_hyper_libs.
#[local] Existing Instance Rewrite.demo_libs.
#[local] Existing Instance Config.text_endpoints.

(** An HTTP/2 request to an endpoint with an OAuth block, for an HTTP/1.1
    upstream. *)
Definition demo_parts : Parts :=
  {| method := bs "POST"; uri := {| du_host := Some (bs "a.b"); du_path_and_query := Some (bs "/x") |}; version := HTTP_2;
     headers := [(bs "authorization", bs "Bearer t"); (bs "x-forwarded-for", bs "1.1.1.1"); (bs "accept", bs "a")];
     protocol := None; on_upgrade := false |}.

Definition demo_peer : PeerAddr :=
  {| ip_addr := WhiteList.V4 Byte.x0a Byte.x00 Byte.x00 Byte.x07; ip_text := bs "10.0.0.7" |}.

Definition demo_inner : Inner :=
  {| identity := None; endpoint_type := Config.LHttps2; connection_ip := Some demo_peer |}.

Definition demo_place : Config.ProxyPassLocationConfig :=
  Config.location_new (bs "/") None None (Config.Http1 (Config.demo_model (bs "h"))) None false None (bs "a.b:443")
    (fun _ => None) 1.

Definition demo_oauth_endpoint : Config.HttpEndpointInfo :=
  {| Config.host_endpoint := Config.demo_host; Config.debug := false; Config.listen_endpoint_type := Config.LHttps2;
     Config.g_auth := None; Config.ssl_certificate_id := None; Config.client_certificate_id := None;
     Config.locations := [demo_place]; Config.allowed_user_list_id := None; Config.whitelisted_ip_list_id := None;
     Config.track_metrics_by_all_domains := false; Config.mcp_settings := {| Config.mcp_read_timeout := 180; Config.mcp_write_timeout := 30; Config.mcp_buffer_size := 512 |};
     Config.timeouts := (180, 30); Config.heads := Rewrite.demo_endpoint |}.

Definition demo_processed : Parts :=
  set_headers [(bs "accept", bs "a"); (bs "x-proxy", bs "1"); (bs "x-forwarded-for", bs "1.1.1.1,10.0.0.7");
               (bs "cf-ipcountry", bs "DE")] demo_parts.

Definition demo_converted : TransformedRequest :=
  {| request := {| req_parts := {| method := bs "POST"; uri := {| du_host := None; du_path_and_query := Some (bs "/x") |};
                                   version := HTTP_11;
                                   headers := [(bs "host", bs "a.b"); (bs "accept", bs "a"); (bs "x-proxy", bs "1");
                                               (bs "x-forwarded-for", bs "1.1.1.1,10.0.0.7"); (bs "cf-ipcountry", bs "DE")];
                                   protocol := None; on_upgrade := false |};
                   req_body := bs "body" |};
     orig_parts := demo_processed; web_socket_upgrade := None |}.

Lemma demo_process : process_headers map_to_list elements demo_oauth_endpoint demo_inner demo_place demo_parts = Ok demo_processed.
Proof. reflexivity. Qed.

Lemma demo_convert : into_request demo_processed (Some (bs "body")) demo_place = Ok demo_converted.
Proof. reflexivity. Qed.

Lemma client_address_comes_last_witness :
  exists before, hm_values (bs "x-forwarded-for") (headers demo_processed) = [before ++ bs "10.0.0.7"].
Proof.
  destruct (client_address_comes_last map_to_list elements demo_oauth_endpoint demo_inner demo_place demo_parts
    demo_processed demo_peer demo_process eq_refl) as (before & Hb & _).
  exists before. exact Hb.
Defined.

Lemma h2_token_not_forwarded_witness :
  hm_values (bs "authorization") (headers (req_parts (request demo_converted))) = [].
Proof.
  refine (h2_token_not_forwarded map_to_list elements demo_oauth_endpoint demo_inner demo_place demo_parts demo_processed
    (Some (bs "body")) demo_converted true true (bs "mcp") true false Rewrite.demo_settings _ eq_refl _ demo_process demo_convert).
  - intros names n. apply elem_of_elements.
  - intros Hx. apply Exists_exists in Hx as (x & Hin & Hx).
    assert (x = (bs "X-Proxy", bs "1")) as ->.
    { apply (list_elem_of_singleton x). exact Hin. }
    vm_compute in Hx. discriminate Hx.
Defined.

Lemma converted_request_witness :
  exists host, hm_values (bs "host") (headers (req_parts (request demo_converted))) = [host].
Proof.
  destruct (converted_request map_to_list elements demo_oauth_endpoint demo_inner demo_place demo_parts demo_processed
    (Some (bs "body")) demo_converted demo_process eq_refl eq_refl eq_refl demo_convert) as (_ & _ & _ & (host & Hh & _) & _).
  exists host. exact Hh.
Defined.

End Hyper.
