(* ===== verification/ContentSource.v ===== *)
(** * Upstreams and their pools: [configurations/proxy_pass_location_config.rs],
      [http_proxy_pass/content_source/], [upstream_h1_pool/pool_registry.rs],
      [upstream_h2_pool/pool_registry.rs],
      [scripts/find_location_id_by_id_string.rs] and
      [timers/gc_pools_timer.rs]

    Every location has a content source, and most of these take their
    connections from a pool, which is made by the first request and found by
    the number of the location.  When the configuration is loaded again, a
    location adopts the number of a live pool whose identity text is its own;
    a timer drains the pools no location has any more. *)

From Stdlib Require Import ZArith Lia Strings.Byte.
From stdpp Require Import base tactics list strings gmap sorting.
From S2P Require Import Prelude RustStd IpBlocklist H1Headers H1Rewrite H1Reader ProxyPassConfig LocalContent.

Local Open Scope Z_scope.

Module ContentSource.

(** ** [consts.rs] *)

Definition DEFAULT_READ_TIMEOUT : Z := Duration.from_secs (60 * 3).
Definition DEFAULT_MCP_READ_TIMEOUT : Z := Duration.from_secs (60 * 60).
Definition DEFAULT_HTTP_CONNECT_TIMEOUT : Z := Duration.from_secs 5.
Definition DEFAULT_POOL_SIZE : Z := 5.
Definition DEFAULT_POOL_HOT_WINDOW : Z := Duration.from_secs 3.
Definition DEFAULT_POOL_PING_TIMEOUT : Z := Duration.from_secs 1.
Definition DEFAULT_POOL_REVIVE_COOLDOWN : Z := Duration.from_micros 500000.
Definition DEFAULT_POOL_DEAD_POOL_WAIT_BUDGET : Z := Duration.from_micros 500000.
Definition DEFAULT_H2_KEEP_ALIVE_INTERVAL : Z := Duration.from_secs 10.
Definition DEFAULT_H2_KEEP_ALIVE_TIMEOUT : Z := Duration.from_secs 2.
Definition DEFAULT_MAX_DISPOSABLES_PER_POOL : Z := 50.

(** ** Pools *)

Record PoolDesc := { pd_location_id : Z; pd_name : bytes; pd_authority : bytes; pd_id_string : bytes }.

Record H1PoolParams := {
  h1_pool_size : Z;
  h1_health_check_path : option bytes;
  h1_connect_timeout : Z;
  h1_ping_timeout : Z;
  h1_hot_window : Z;
  read_stream_timeout : Z;
  max_disposables : Z
}.

Record H2PoolParams := {
  h2_pool_size : Z;
  h2_health_check_path : option bytes;
  h2_connect_timeout : Z;
  h2_ping_timeout : Z;
  h2_hot_window : Z;
  revive_cooldown : Z;
  dead_pool_wait_budget : Z;
  keep_alive_interval : Z;
  keep_alive_timeout : Z
}.

(** The registries. *)
Inductive Family := H1Tcp | H1Tls | H1Uds | H2Tcp | H2Tls | H2Uds.
#[global] Instance family_eq_dec : EqDecision Family.
Proof. solve_decision. Defined.

Section Sources.
Context `{RemoteEndpointLib} `{FileLibs}.
Context (default_h2_livness_url : option bytes) (get_ssh_session : SshCredentials -> bool).

(** What a factory makes: [HttpConnector], [HttpTlsConnector],
    [UnixSocketHttpConnector]. *)
Inductive Connector :=
  | HttpConnector (remote_endpoint : RemoteEndpointOwned) (debug : bool)
  | HttpTlsConnector (remote_endpoint : RemoteEndpointOwned) (domain_name : option bytes) (debug : bool)
  | UnixSocketHttpConnector (remote_endpoint : RemoteEndpointOwned) (debug : bool).

(** A pool source: description, parameters and factory. *)
Definition Pooled (P : Type) : Type := PoolDesc * P * Connector.

Definition pool_name (prefix host : bytes) (port location_id : Z) : bytes :=
  prefix ++ host ++ bs ":" ++ Str.uint_to_string port ++ bs "#" ++ Str.int_to_string location_id.
Definition h1_tcp_pool_name := pool_name (bs "h1://").
Definition h1_tls_pool_name := pool_name (bs "h1s://").
Definition h2_tcp_pool_name := pool_name (bs "h2://").
Definition h2_tls_pool_name := pool_name (bs "h2s://").

Definition uds_pool_name (prefix socket_path : bytes) (location_id : Z) : bytes :=
  prefix ++ socket_path ++ bs "#" ++ Str.int_to_string location_id.
Definition h1_uds_pool_name := uds_pool_name (bs "uds-h1://").
Definition h2_uds_pool_name := uds_pool_name (bs "uds-h2://").

Definition h1_pool_params (connect_timeout : Z) (pool_tuning : Config.PoolTuning) (is_mcp : bool) : H1PoolParams :=
  {| h1_pool_size := Config.pool_size pool_tuning; h1_health_check_path := default_h2_livness_url;
     h1_connect_timeout := connect_timeout; h1_ping_timeout := Config.ping_timeout pool_tuning;
     h1_hot_window := Config.hot_window pool_tuning;
     read_stream_timeout := if is_mcp then DEFAULT_MCP_READ_TIMEOUT else DEFAULT_READ_TIMEOUT;
     max_disposables := DEFAULT_MAX_DISPOSABLES_PER_POOL |}.

Definition h2_pool_params (connect_timeout : Z) (pool_tuning : Config.PoolTuning) : H2PoolParams :=
  {| h2_pool_size := Config.pool_size pool_tuning; h2_health_check_path := default_h2_livness_url;
     h2_connect_timeout := connect_timeout; h2_ping_timeout := Config.ping_timeout pool_tuning;
     h2_hot_window := Config.hot_window pool_tuning; revive_cooldown := DEFAULT_POOL_REVIVE_COOLDOWN;
     dead_pool_wait_budget := DEFAULT_POOL_DEAD_POOL_WAIT_BUDGET;
     keep_alive_interval := DEFAULT_H2_KEEP_ALIVE_INTERVAL; keep_alive_timeout := DEFAULT_H2_KEEP_ALIVE_TIMEOUT |}.

Definition host_and_port (host : bytes) (port : Z) : bytes := host ++ bs ":" ++ Str.uint_to_string port.

Definition make_tcp_h1_pool_factory (remote_host : RemoteEndpointOwned) (debug : bool) (connect_timeout : Z)
    (pool_tuning : Config.PoolTuning) (location_id : Z) (id_string : bytes) (is_mcp : bool) : Pooled H1PoolParams :=
  let port := default 80 (get_remote_port remote_host) in
  ({| pd_location_id := location_id; pd_name := h1_tcp_pool_name (get_host remote_host) port location_id;
      pd_authority := host_and_port (get_host remote_host) port; pd_id_string := id_string |},
   h1_pool_params connect_timeout pool_tuning is_mcp, HttpConnector remote_host debug).

Definition make_tls_h1_pool_factory (remote_host : RemoteEndpointOwned) (debug : bool) (domain_name : option bytes)
    (connect_timeout : Z) (pool_tuning : Config.PoolTuning) (location_id : Z) (id_string : bytes) (is_mcp : bool) :
    Pooled H1PoolParams :=
  let port := default 443 (get_remote_port remote_host) in
  ({| pd_location_id := location_id; pd_name := h1_tls_pool_name (get_host remote_host) port location_id;
      pd_authority := host_and_port (get_host remote_host) port; pd_id_string := id_string |},
   h1_pool_params connect_timeout pool_tuning is_mcp, HttpTlsConnector remote_host domain_name debug).

Definition make_uds_h1_pool_factory (remote_host : RemoteEndpointOwned) (debug : bool) (connect_timeout : Z)
    (pool_tuning : Config.PoolTuning) (location_id : Z) (id_string : bytes) (is_mcp : bool) : Pooled H1PoolParams :=
  ({| pd_location_id := location_id; pd_name := h1_uds_pool_name (get_host_port remote_host) location_id;
      pd_authority := bs "localhost"; pd_id_string := id_string |},
   h1_pool_params connect_timeout pool_tuning is_mcp, UnixSocketHttpConnector remote_host debug).

Definition make_tcp_h2_pool_factory (remote_host : RemoteEndpointOwned) (debug : bool) (connect_timeout : Z)
    (pool_tuning : Config.PoolTuning) (location_id : Z) (id_string : bytes) : Pooled H2PoolParams :=
  let port := default 80 (get_remote_port remote_host) in
  ({| pd_location_id := location_id; pd_name := h2_tcp_pool_name (get_host remote_host) port location_id;
      pd_authority := host_and_port (get_host remote_host) port; pd_id_string := id_string |},
   h2_pool_params connect_timeout pool_tuning, HttpConnector remote_host debug).

Definition make_tls_h2_pool_factory (remote_host : RemoteEndpointOwned) (debug : bool) (domain_name : option bytes)
    (connect_timeout : Z) (pool_tuning : Config.PoolTuning) (location_id : Z) (id_string : bytes) :
    Pooled H2PoolParams :=
  let port := default 443 (get_remote_port remote_host) in
  ({| pd_location_id := location_id; pd_name := h2_tls_pool_name (get_host remote_host) port location_id;
      pd_authority := host_and_port (get_host remote_host) port; pd_id_string := id_string |},
   h2_pool_params connect_timeout pool_tuning, HttpTlsConnector remote_host domain_name debug).

Definition make_uds_h2_pool_factory (remote_host : RemoteEndpointOwned) (debug : bool) (connect_timeout : Z)
    (pool_tuning : Config.PoolTuning) (location_id : Z) (id_string : bytes) : Pooled H2PoolParams :=
  ({| pd_location_id := location_id; pd_name := h2_uds_pool_name (get_host_port remote_host) location_id;
      pd_authority := bs "localhost"; pd_id_string := id_string |},
   h2_pool_params connect_timeout pool_tuning, UnixSocketHttpConnector remote_host debug).

(** ** [HttpProxyPassContentSource] *)

Inductive HttpProxyPassContentSource :=
  | UnixHttp1 (pool : Pooled H1PoolParams) (request_timeout : Z)
  | Http1 (pool : Pooled H1PoolParams) (request_timeout : Z) (is_mcp : bool)
  | Https1 (pool : Pooled H1PoolParams) (request_timeout : Z)
  | Http2 (pool : Pooled H2PoolParams) (request_timeout : Z)
  | UnixHttp2 (pool : Pooled H2PoolParams) (request_timeout : Z)
  | Https2 (pool : Pooled H2PoolParams) (request_timeout : Z)
  | Http1OverSsh (credentials : SshCredentials) (remote_resource_string : bytes) (debug : bool)
      (request_timeout connect_timeout : Z)
  | Http2OverSsh (credentials : SshCredentials) (remote_resource_string : bytes) (debug : bool)
      (request_timeout connect_timeout : Z)
  | LocalPath (model : Content.LocalPathContentSrc)
  | PathOverSsh (credentials : SshCredentials) (file_path : bytes) (default_file : option bytes) (execute_timeout : Z)
  | PathOverGateway (gateway_id : bytes) (path : RemoteEndpointOwned) (default_file : option bytes)
  | Static (config : Config.StaticContentConfig)
  | Drop
  | DynamicProxy (config : Config.DynamicProxyConfig) (debug : bool).

(** [create_data_source]: an upstream behind a gateway is [todo!] or a panic,
    like a scheme that is missing and an SSH session that cannot be had. *)
Definition create_data_source (l : Config.ProxyPassLocationConfig) (debug : bool) (timeout : Z) :
    outcome bytes HttpProxyPassContentSource :=
  let is_mcp := Config.is_mcp (Config.proxy_pass_to l) in
  let id := Config.location_id l in
  let id_string := Config.id_string l in
  let tcp_h1 h m := Http1 (make_tcp_h1_pool_factory h debug (Config.connect_timeout m) (Config.pool_tuning m) id id_string is_mcp)
                      (Config.request_timeout m) is_mcp in
  let tls_h1 h m := Https1 (make_tls_h1_pool_factory h debug (Config.domain_name l) (Config.connect_timeout m)
                              (Config.pool_tuning m) id id_string is_mcp) (Config.request_timeout m) in
  let uds_h1 h m := UnixHttp1 (make_uds_h1_pool_factory h debug (Config.connect_timeout m) (Config.pool_tuning m) id
                                 id_string is_mcp) (Config.request_timeout m) in
  let uds_h2 h m := UnixHttp2 (make_uds_h2_pool_factory h debug (Config.connect_timeout m) (Config.pool_tuning m) id
                                 id_string) (Config.request_timeout m) in
  match Config.proxy_pass_to l with
  | Config.Static config => Ok (Static config)
  | Config.Http1 m | Config.McpHttp1 m =>
      match Config.remote_host m with
      | Config.Gateway _ _ => Panic
      | Config.OverSsh credentials h =>
          if get_ssh_session credentials then
            Ok (Http1OverSsh credentials (endpoint_as_str h) debug (Config.request_timeout m) (Config.connect_timeout m))
          else Panic
      | Config.Direct h =>
          match get_scheme h with
          | None => Panic
          | Some Http | Some Ws => Ok (tcp_h1 h m)
          | Some Https | Some Wss => Ok (tls_h1 h m)
          | Some UnixSocket => Ok (uds_h1 h m)
          end
      end
  | Config.Http2 m | Config.McpHttp2 m =>
      match Config.remote_host m with
      | Config.Gateway _ _ => Panic
      | Config.OverSsh credentials h =>
          if get_ssh_session credentials then
            Ok (Http2OverSsh credentials (endpoint_as_str h) debug (Config.request_timeout m) (Config.connect_timeout m))
          else Panic
      | Config.Direct h =>
          match get_scheme h with
          | None => Panic
          | Some Http =>
              Ok (Http2 (make_tcp_h2_pool_factory h debug (Config.connect_timeout m) (Config.pool_tuning m) id id_string)
                    (Config.request_timeout m))
          | Some Https =>
              Ok (Https2 (make_tls_h2_pool_factory h debug (Config.domain_name l) (Config.connect_timeout m)
                            (Config.pool_tuning m) id id_string) (Config.request_timeout m))
          | Some Ws => Ok (tcp_h1 h m)
          | Some Wss => Ok (tls_h1 h m)
          | Some UnixSocket => Ok (uds_h2 h m)
          end
      end
  | Config.FilesPath model =>
      match Config.files_path model with
      | Config.Gateway id h => Ok (PathOverGateway id h (Config.default_file model))
      | Config.OverSsh credentials h =>
          if get_ssh_session credentials then
            Ok (PathOverSsh credentials (endpoint_as_str h) (Config.default_file model) timeout)
          else Panic
      | Config.Direct h => LocalPath <$> Content.local_path_src_new (endpoint_as_str h) (Config.default_file model)
      end
  | Config.UnixHttp1 m =>
      match Config.remote_host m with
      | Config.Gateway _ _ | Config.OverSsh _ _ => Panic
      | Config.Direct h => Ok (uds_h1 h m)
      end
  | Config.UnixHttp2 m =>
      match Config.remote_host m with
      | Config.Gateway _ _ | Config.OverSsh _ _ => Panic
      | Config.Direct h => Ok (uds_h2 h m)
      end
  | Config.Drop => Ok Drop
  | Config.DynamicProxy config => Ok (DynamicProxy config debug)
  end.

(** ** The registries *)

Record Pool (P : Type) := { desc : PoolDesc; params : P; factory : Connector; shutdown : bool }.
#[global] Arguments desc {P} _.
#[global] Arguments params {P} _.
#[global] Arguments factory {P} _.
#[global] Arguments shutdown {P} _.

(** [SortedVecOfArc]: the pools by location. *)
#[local] Abbreviation Registry P := (gmap Z (Pool P)).

Definition pool_new {P} (src : Pooled P) : Pool P :=
  let '(d, ps, f) := src in {| desc := d; params := ps; factory := f; shutdown := false |}.

(** [ensure_pool]; the second look under the lock finds what a racing call
    has put there. *)
Definition ensure_pool {P} (src : Pooled P) (reg : Registry P) : Registry P * Pool P :=
  let id := pd_location_id (fst (fst src)) in
  match reg !! id with
  | Some existing => (reg, existing)
  | None => let pool := pool_new src in (<[id := pool]> reg, pool)
  end.

Definition get {P} (location_id : Z) (reg : Registry P) : option (Pool P) := reg !! location_id.

(** [execute] of the pool sources: [get], or else [ensure_pool]. *)
Definition acquire {P} (src : Pooled P) (reg : Registry P) : Registry P * Pool P :=
  match get (pd_location_id (fst (fst src))) reg with Some p => (reg, p) | None => ensure_pool src reg end.

Definition by_id {P} (a b : Z * Pool P) : Prop := fst a <= fst b.
#[global] Instance by_id_dec {P} : RelDecision (@by_id P).
Proof. intros a b. unfold by_id. apply _. Defined.

Definition list_pools {P} (reg : Registry P) : list (Pool P) := map snd (merge_sort by_id (map_to_list reg)).

(** [drain_unused]: what stays, and the pools that are shut down. *)
Definition drain_unused {P} (active : gset Z) (reg : Registry P) : Registry P * list (Pool P) :=
  (filter (fun x => pd_location_id (desc (snd x)) ∈ active) reg,
   map (fun p => {| desc := desc p; params := params p; factory := factory p; shutdown := true |})
     (filter (fun p => pd_location_id (desc p) ∉ active) (list_pools reg))).

(** The registries of the application context. *)
Record Pools := {
  h1_tcp_pools : Registry H1PoolParams;
  h1_tls_pools : Registry H1PoolParams;
  h1_uds_pools : Registry H1PoolParams;
  h2_tcp_pools : Registry H2PoolParams;
  h2_tls_pools : Registry H2PoolParams;
  h2_uds_pools : Registry H2PoolParams
}.

Definition no_pools : Pools :=
  {| h1_tcp_pools := ∅; h1_tls_pools := ∅; h1_uds_pools := ∅; h2_tcp_pools := ∅; h2_tls_pools := ∅; h2_uds_pools := ∅ |}.

Inductive SomePool := PoolH1 (p : Pool H1PoolParams) | PoolH2 (p : Pool H2PoolParams).

Definition some_desc (p : SomePool) : PoolDesc := match p with PoolH1 p => desc p | PoolH2 p => desc p end.
Definition some_factory (p : SomePool) : Connector := match p with PoolH1 p => factory p | PoolH2 p => factory p end.

(** The pool a source takes its connections from. *)
Definition source_pool (src : HttpProxyPassContentSource) (ps : Pools) : Pools * option SomePool :=
  match src with
  | Http1 pool _ _ =>
      let '(r, p) := acquire pool (h1_tcp_pools ps) in
      ({| h1_tcp_pools := r; h1_tls_pools := h1_tls_pools ps; h1_uds_pools := h1_uds_pools ps;
          h2_tcp_pools := h2_tcp_pools ps; h2_tls_pools := h2_tls_pools ps; h2_uds_pools := h2_uds_pools ps |}, Some (PoolH1 p))
  | Https1 pool _ =>
      let '(r, p) := acquire pool (h1_tls_pools ps) in
      ({| h1_tcp_pools := h1_tcp_pools ps; h1_tls_pools := r; h1_uds_pools := h1_uds_pools ps;
          h2_tcp_pools := h2_tcp_pools ps; h2_tls_pools := h2_tls_pools ps; h2_uds_pools := h2_uds_pools ps |}, Some (PoolH1 p))
  | UnixHttp1 pool _ =>
      let '(r, p) := acquire pool (h1_uds_pools ps) in
      ({| h1_tcp_pools := h1_tcp_pools ps; h1_tls_pools := h1_tls_pools ps; h1_uds_pools := r;
          h2_tcp_pools := h2_tcp_pools ps; h2_tls_pools := h2_tls_pools ps; h2_uds_pools := h2_uds_pools ps |}, Some (PoolH1 p))
  | Http2 pool _ =>
      let '(r, p) := acquire pool (h2_tcp_pools ps) in
      ({| h1_tcp_pools := h1_tcp_pools ps; h1_tls_pools := h1_tls_pools ps; h1_uds_pools := h1_uds_pools ps;
          h2_tcp_pools := r; h2_tls_pools := h2_tls_pools ps; h2_uds_pools := h2_uds_pools ps |}, Some (PoolH2 p))
  | Https2 pool _ =>
      let '(r, p) := acquire pool (h2_tls_pools ps) in
      ({| h1_tcp_pools := h1_tcp_pools ps; h1_tls_pools := h1_tls_pools ps; h1_uds_pools := h1_uds_pools ps;
          h2_tcp_pools := h2_tcp_pools ps; h2_tls_pools := r; h2_uds_pools := h2_uds_pools ps |}, Some (PoolH2 p))
  | UnixHttp2 pool _ =>
      let '(r, p) := acquire pool (h2_uds_pools ps) in
      ({| h1_tcp_pools := h1_tcp_pools ps; h1_tls_pools := h1_tls_pools ps; h1_uds_pools := h1_uds_pools ps;
          h2_tcp_pools := h2_tcp_pools ps; h2_tls_pools := h2_tls_pools ps; h2_uds_pools := r |}, Some (PoolH2 p))
  | _ => (ps, None)
  end.

(** ** [find_location_id_by_id_string] *)

Definition find_in {P} (id_string : bytes) (reg : Registry P) : option Z :=
  pool ← List.find (fun p => bool_decide (pd_id_string (desc p) = id_string)) (list_pools reg);
  Some (pd_location_id (desc pool)).

Definition or_else {A} (o : option A) (other : option A) : option A := match o with Some x => Some x | None => other end.

Definition find_location_id_by_id_string (ps : Pools) (id_string : bytes) : option Z :=
  or_else (find_in id_string (h1_tcp_pools ps))
    (or_else (find_in id_string (h1_tls_pools ps))
      (or_else (find_in id_string (h1_uds_pools ps))
        (or_else (find_in id_string (h2_tcp_pools ps))
          (or_else (find_in id_string (h2_tls_pools ps)) (find_in id_string (h2_uds_pools ps)))))).

(** ** [GcPoolsTimer] *)

Record DesiredKeys := {
  d_h1_tcp : gset Z; d_h1_tls : gset Z; d_h1_uds : gset Z; d_h2_tcp : gset Z; d_h2_tls : gset Z; d_h2_uds : gset Z
}.

Definition no_keys : DesiredKeys :=
  {| d_h1_tcp := ∅; d_h1_tls := ∅; d_h1_uds := ∅; d_h2_tcp := ∅; d_h2_tls := ∅; d_h2_uds := ∅ |}.

Definition add_key (f : Family) (id : Z) (d : DesiredKeys) : DesiredKeys :=
  let ins g s := if decide (f = g) then {[id]} ∪ s else s in
  {| d_h1_tcp := ins H1Tcp (d_h1_tcp d); d_h1_tls := ins H1Tls (d_h1_tls d); d_h1_uds := ins H1Uds (d_h1_uds d);
     d_h2_tcp := ins H2Tcp (d_h2_tcp d); d_h2_tls := ins H2Tls (d_h2_tls d); d_h2_uds := ins H2Uds (d_h2_uds d) |}.

Definition absorb_location (out : DesiredKeys) (l : Config.ProxyPassLocationConfig) : DesiredKeys :=
  let location_id := Config.location_id l in
  let by_scheme (family : Scheme -> Family) (m : Config.ProxyPassToModel) :=
    match Config.remote_host m with
    | Config.Direct h =>
        match get_scheme h with Some scheme => add_key (family scheme) location_id out | None => out end
    | _ => out
    end in
  match Config.proxy_pass_to l with
  | Config.UnixHttp1 _ => add_key H1Uds location_id out
  | Config.UnixHttp2 _ => add_key H2Uds location_id out
  | Config.Http1 m | Config.McpHttp1 m =>
      by_scheme (fun s => match s with Http | Ws => H1Tcp | Https | Wss => H1Tls | UnixSocket => H1Uds end) m
  | Config.Http2 m | Config.McpHttp2 m =>
      by_scheme (fun s => match s with Http => H2Tcp | Https => H2Tls | Ws => H1Tcp | Wss => H1Tls | UnixSocket => H2Uds end) m
  | _ => out
  end.

Definition listen_locations (l : Config.ListenConfiguration) : list Config.ProxyPassLocationConfig :=
  match l with
  | Config.ListenHttp http | Config.ListenMcp http => concat (map Config.locations (Config.endpoints http))
  | Config.ListenTcpForward _ => []
  end.

Definition config_locations (cfg : Config.ListenMaps) : list Config.ProxyPassLocationConfig :=
  concat (map (fun x => listen_locations (snd x)) (map_to_list (Config.listen_tcp_endpoints cfg))) ++
  concat (map (fun x => listen_locations (snd x)) (map_to_list (Config.listen_unix_socket_endpoints cfg))).

Definition collect_desired_keys (cfg : Config.ListenMaps) : DesiredKeys :=
  fold_left absorb_location (config_locations cfg) no_keys.

Definition gc_tick (cfg : Config.ListenMaps) (ps : Pools) : Pools :=
  let desired := collect_desired_keys cfg in
  {| h1_tcp_pools := fst (drain_unused (d_h1_tcp desired) (h1_tcp_pools ps));
     h1_tls_pools := fst (drain_unused (d_h1_tls desired) (h1_tls_pools ps));
     h1_uds_pools := fst (drain_unused (d_h1_uds desired) (h1_uds_pools ps));
     h2_tcp_pools := fst (drain_unused (d_h2_tcp desired) (h2_tcp_pools ps));
     h2_tls_pools := fst (drain_unused (d_h2_tls desired) (h2_tls_pools ps));
     h2_uds_pools := fst (drain_unused (d_h2_uds desired) (h2_uds_pools ps)) |}.

(** ** Views of the registries *)

Definition keys (f : Family) (d : DesiredKeys) : gset Z :=
  match f with
  | H1Tcp => d_h1_tcp d | H1Tls => d_h1_tls d | H1Uds => d_h1_uds d
  | H2Tcp => d_h2_tcp d | H2Tls => d_h2_tls d | H2Uds => d_h2_uds d
  end.

Definition pool_at (f : Family) (id : Z) (ps : Pools) : option SomePool :=
  match f with
  | H1Tcp => PoolH1 <$> h1_tcp_pools ps !! id
  | H1Tls => PoolH1 <$> h1_tls_pools ps !! id
  | H1Uds => PoolH1 <$> h1_uds_pools ps !! id
  | H2Tcp => PoolH2 <$> h2_tcp_pools ps !! id
  | H2Tls => PoolH2 <$> h2_tls_pools ps !! id
  | H2Uds => PoolH2 <$> h2_uds_pools ps !! id
  end.

(** The pool a source asks for when there is none. *)
Definition wanted (src : HttpProxyPassContentSource) : option (Family * SomePool) :=
  match src with
  | Http1 pool _ _ => Some (H1Tcp, PoolH1 (pool_new pool))
  | Https1 pool _ => Some (H1Tls, PoolH1 (pool_new pool))
  | UnixHttp1 pool _ => Some (H1Uds, PoolH1 (pool_new pool))
  | Http2 pool _ => Some (H2Tcp, PoolH2 (pool_new pool))
  | Https2 pool _ => Some (H2Tls, PoolH2 (pool_new pool))
  | UnixHttp2 pool _ => Some (H2Uds, PoolH2 (pool_new pool))
  | _ => None
  end.

Lemma acquired_pool {P} (src : Pooled P) reg :
  let id := pd_location_id (fst (fst src)) in
  match reg !! id with
  | Some p => acquire src reg = (reg, p)
  | None => acquire src reg = (<[id := pool_new src]> reg, pool_new src)
  end.
Proof. unfold acquire, get, ensure_pool. by destruct (reg !! _) eqn:E; rewrite ?E. Qed.

(** A source uses the pool under its location's number, and makes it first if
    there is none; no other pool changes. *)
Lemma source_pool_spec src ps ps' r :
  source_pool src ps = (ps', r) ->
  match wanted src with
  | None => ps' = ps /\ r = None
  | Some (f, new) =>
      let id := pd_location_id (some_desc new) in
      let p := default new (pool_at f id ps) in
      r = Some p /\ forall g k, pool_at g k ps' = if decide (g = f /\ k = id) then Some p else pool_at g k ps
  end.
Proof.
  destruct src as [[[d ps0] fc] t|[[d ps0] fc] t m|[[d ps0] fc] t|[[d ps0] fc] t|[[d ps0] fc] t|[[d ps0] fc] t| | | | | | | |];
    cbn [source_pool wanted]; try (intros [= <- <-]; done).
  all: match goal with |- context [acquire ?x ?reg] => pose proof (acquired_pool x reg) as Ha end.
  all: cbn in Ha |- *; destruct (_ !! pd_location_id d) as [p|] eqn:Hp; rewrite Ha; intros [= <- <-]; cbn.
  all: split; [done|]; intros g k; case_decide as Hn; [destruct Hn as [-> ->]; cbn; by rewrite ?Hp, ?lookup_insert_eq|].
  all: try (destruct g; done).
  all: destruct g; cbn; try done; rewrite lookup_insert_ne; [done|]; intros Hk; by apply Hn.
Qed.

Lemma source_of_location l debug timeout src f p :
  create_data_source l debug timeout = Ok src -> wanted src = Some (f, p) ->
  pd_location_id (some_desc p) = Config.location_id l /\ pd_id_string (some_desc p) = Config.id_string l.
Proof.
  unfold create_data_source. intros Hc Hw.
  repeat (case_match; try done; simplify_eq; cbn in Hw; simplify_eq; try done).
  all: try (destruct (Content.local_path_src_new _ _); cbn in Hc; [injection Hc as <-|..]; done).
Qed.

(** ** What the timer spares *)

Lemma keys_add_key f g id d : keys g (add_key f id d) = if decide (f = g) then {[id]} ∪ keys g d else keys g d.
Proof. by destruct f, g. Qed.

(** The registry a location's pool is in, as the timer sees it. *)
Definition family_of (l : Config.ProxyPassLocationConfig) : option Family :=
  let by_scheme (family : Scheme -> Family) (m : Config.ProxyPassToModel) :=
    match Config.remote_host m with Config.Direct h => family <$> get_scheme h | _ => None end in
  match Config.proxy_pass_to l with
  | Config.UnixHttp1 _ => Some H1Uds
  | Config.UnixHttp2 _ => Some H2Uds
  | Config.Http1 m | Config.McpHttp1 m =>
      by_scheme (fun s => match s with Http | Ws => H1Tcp | Https | Wss => H1Tls | UnixSocket => H1Uds end) m
  | Config.Http2 m | Config.McpHttp2 m =>
      by_scheme (fun s => match s with Http => H2Tcp | Https => H2Tls | Ws => H1Tcp | Wss => H1Tls | UnixSocket => H2Uds end) m
  | _ => None
  end.

Lemma absorb_spec out l :
  absorb_location out l = match family_of l with Some f => add_key f (Config.location_id l) out | None => out end.
Proof. unfold absorb_location, family_of. repeat (case_match; simplify_eq; try done). Qed.

Lemma desired_keys_spec cfg f id :
  id ∈ keys f (collect_desired_keys cfg) <->
  exists l, l ∈ config_locations cfg /\ family_of l = Some f /\ Config.location_id l = id.
Proof.
  unfold collect_desired_keys. assert (keys f no_keys = ∅) as H0' by (by destruct f).
  enough (forall ls d, id ∈ keys f (fold_left absorb_location ls d) <->
    id ∈ keys f d \/ exists l, l ∈ ls /\ family_of l = Some f /\ Config.location_id l = id) as He.
  { rewrite He, H0'. set_solver. }
  induction ls as [|l ls IH]; intros d; cbn [fold_left]; [set_solver|]. rewrite IH, absorb_spec.
  destruct (family_of l) as [g|] eqn:Hg; [rewrite keys_add_key; case_decide as Hfg|]; set_solver.
Qed.

Lemma created_source_family l debug timeout src :
  create_data_source l debug timeout = Ok src -> fst <$> wanted src = family_of l.
Proof.
  unfold create_data_source, family_of. intros Hc.
  repeat (case_match; try done; simplify_eq; cbn; try done).
  all: try (destruct (Content.local_path_src_new _ _); cbn in Hc; [injection Hc as <-|..]; done).
Qed.

(** ** The pools over time *)

(** [location_new] with the settings it is given. *)
Record LocationSettings := {
  s_path : bytes;
  s_modify_headers : option Rewrite.ModifyHttpHeadersSettings;
  s_ip_white_list_id : option bytes;
  s_proxy_pass_to : Config.ProxyPassToConfig;
  s_domain_name : option bytes;
  s_compress : bool;
  s_auth_header : option bytes;
  s_listen_host : bytes
}.

Definition compile_with (x : LocationSettings) (known_id : bytes -> option Z) (next_id : Z) :
    Config.ProxyPassLocationConfig :=
  Config.location_new (s_path x) (s_modify_headers x) (s_ip_white_list_id x) (s_proxy_pass_to x) (s_domain_name x)
    (s_compress x) (s_auth_header x) (s_listen_host x) known_id next_id.

Definition settings_id_string (x : LocationSettings) : bytes :=
  Config.build_location_id_string (s_listen_host x) (s_path x) (s_proxy_pass_to x).

(** The application context's pools and id counter, and every location that
    was ever compiled: connections may hold on to old ones. *)
Record App := { pools : Pools; next_id : Z; known : list Config.ProxyPassLocationConfig }.

Inductive Event :=
  | Compile (x : LocationSettings)
  | Serve (i : nat) (debug : bool) (timeout : Z)
  | GcTick (cfg : Config.ListenMaps).

Definition run_event (a : App) (e : Event) : App :=
  match e with
  | Compile x =>
      let known_id := find_location_id_by_id_string (pools a) in
      {| pools := pools a;
         next_id := match known_id (settings_id_string x) with Some _ => next_id a | None => next_id a + 1 end;
         known := known a ++ [compile_with x known_id (next_id a)] |}
  | Serve i debug timeout =>
      match known a !! i with
      | Some l =>
          match create_data_source l debug timeout with
          | Ok src => {| pools := fst (source_pool src (pools a)); next_id := next_id a; known := known a |}
          | Err _ | Panic => a
          end
      | None => a
      end
  | GcTick cfg => {| pools := gc_tick cfg (pools a); next_id := next_id a; known := known a |}
  end.

Definition start (first_id : Z) : App := {| pools := no_pools; next_id := first_id; known := [] |}.

Record pools_inv (a : App) : Prop := {
  pi_fresh : forall l, l ∈ known a -> Config.location_id l < next_id a;
  pi_ids : forall l m, l ∈ known a -> m ∈ known a -> Config.location_id l = Config.location_id m ->
    Config.id_string l = Config.id_string m;
  pi_pools : forall f id p, pool_at f id (pools a) = Some p ->
    pd_location_id (some_desc p) = id /\
    exists l, l ∈ known a /\ Config.location_id l = id /\ Config.id_string l = pd_id_string (some_desc p)
}.

Lemma list_pools_elem {P} (reg : Registry P) p : p ∈ list_pools reg <-> exists id, reg !! id = Some p.
Proof.
  unfold list_pools. change (map snd) with (fmap (M:=list) (snd (A:=Z) (B:=Pool P))). rewrite list_elem_of_fmap. split.
  - intros ([id q] & -> & Hin). exists id. apply elem_of_map_to_list. by rewrite (merge_sort_Permutation by_id) in Hin.
  - intros [id Hid]. exists (id, p). split; [done|]. rewrite (merge_sort_Permutation by_id). by apply elem_of_map_to_list.
Qed.

Lemma find_in_Some {P} s (reg : Registry P) id :
  find_in s reg = Some id -> exists k p, reg !! k = Some p /\ pd_id_string (desc p) = s /\ pd_location_id (desc p) = id.
Proof.
  unfold find_in. destruct (List.find _ _) as [p|] eqn:Hf; cbn; [|done]. intros [= <-].
  apply find_some in Hf as [Hin Hs]. apply list_elem_of_In, list_pools_elem in Hin as [k Hk].
  apply bool_decide_eq_true in Hs. by exists k, p.
Qed.

Lemma find_in_None {P} s (reg : Registry P) k p :
  find_in s reg = None -> reg !! k = Some p -> pd_id_string (desc p) <> s.
Proof.
  unfold find_in. intros Hf Hk. destruct (List.find _ _) as [q|] eqn:Hq; [done|].
  assert (In p (list_pools reg)) as Hin by (apply list_elem_of_In, list_pools_elem; by exists k).
  by apply (find_none _ _ Hq), bool_decide_eq_false in Hin.
Qed.

Ltac in_registry f := match goal with H : find_in _ _ = Some _ |- _ =>
  apply find_in_Some in H as (?k & ?p & Hk & ? & ?); eexists f, _, _; cbn; rewrite Hk; by split_and! end.

Lemma find_id_Some ps s id :
  find_location_id_by_id_string ps s = Some id ->
  exists f k p, pool_at f k ps = Some p /\ pd_id_string (some_desc p) = s /\ pd_location_id (some_desc p) = id.
Proof.
  unfold find_location_id_by_id_string, or_else.
  destruct (find_in s (h1_tcp_pools ps)) eqn:?; [intros [= ->]; in_registry H1Tcp|].
  destruct (find_in s (h1_tls_pools ps)) eqn:?; [intros [= ->]; in_registry H1Tls|].
  destruct (find_in s (h1_uds_pools ps)) eqn:?; [intros [= ->]; in_registry H1Uds|].
  destruct (find_in s (h2_tcp_pools ps)) eqn:?; [intros [= ->]; in_registry H2Tcp|].
  destruct (find_in s (h2_tls_pools ps)) eqn:?; [intros [= ->]; in_registry H2Tls|].
  intros ?. in_registry H2Uds.
Qed.

Lemma find_id_None ps s f k p :
  find_location_id_by_id_string ps s = None -> pool_at f k ps = Some p -> pd_id_string (some_desc p) <> s.
Proof.
  unfold find_location_id_by_id_string, or_else. intros Hf.
  repeat match type of Hf with match ?x with _ => _ end = _ => destruct x eqn:?; [done|] end.
  destruct f; cbn; intros (q & Hq & ->)%fmap_Some; cbn; (eapply find_in_None; [|exact Hq]; done).
Qed.

Lemma gc_pool_at cfg ps f id :
  pool_at f id (gc_tick cfg ps) =
  p ← pool_at f id ps; if decide (pd_location_id (some_desc p) ∈ keys f (collect_desired_keys cfg)) then Some p else None.
Proof.
  destruct f; cbn; rewrite map_lookup_filter; destruct (_ !! id) as [q|]; cbn; try done; unfold guard; case_decide; done.
Qed.

Lemma start_inv first_id : pools_inv (start first_id).
Proof. split; cbn; [by intros ? ?%elem_of_nil|by intros ? ? ?%elem_of_nil|]. intros [] id p; cbn; by rewrite lookup_empty. Qed.

Lemma run_event_inv a e : pools_inv a -> pools_inv (run_event a e).
Proof.
  intros [Hf Hi Hp]. destruct e as [x|i debug timeout|cfg]; cbn [run_event].
  - set (known_id := find_location_id_by_id_string (pools a)).
    set (l := compile_with x known_id (next_id a)).
    assert (Config.id_string l = settings_id_string x) as Hs.
    { unfold l, compile_with, Config.location_new. by destruct (s_modify_headers x). }
    assert (Config.location_id l = default (next_id a) (known_id (settings_id_string x))) as Hid.
    { unfold l, compile_with, Config.location_new. by destruct (s_modify_headers x). }
    destruct (known_id (settings_id_string x)) as [id|] eqn:Hk; cbn in Hid.
    + apply find_id_Some in Hk as (f & k & p & Hpool & Hps & Hpid).
      destruct (Hp _ _ _ Hpool) as (Hpk & l0 & Hl0 & Hl0id & Hl0s).
      assert (Config.location_id l0 = Config.location_id l) as Heq by congruence.
      split; cbn.
      * intros m [Hm| ->%list_elem_of_singleton]%elem_of_app; [by apply Hf|]. rewrite <-Heq. by apply Hf.
      * intros m n [Hm| ->%list_elem_of_singleton]%elem_of_app [Hn| ->%list_elem_of_singleton]%elem_of_app Hmn; try done.
        -- by apply Hi.
        -- rewrite Hs, <-Hps, <-Hl0s. apply Hi; congruence.
        -- rewrite Hs, <-Hps, <-Hl0s. apply Hi; congruence.
      * intros g k' q Hq. destruct (Hp _ _ _ Hq) as (? & m & Hm & ?). split; [done|]. exists m. split; [set_solver|done].
    + split; cbn.
      * intros m [Hm| ->%list_elem_of_singleton]%elem_of_app; [specialize (Hf _ Hm); lia|lia].
      * intros m n [Hm| ->%list_elem_of_singleton]%elem_of_app [Hn| ->%list_elem_of_singleton]%elem_of_app Hmn; try done.
        -- by apply Hi.
        -- specialize (Hf _ Hm). lia.
        -- specialize (Hf _ Hn). lia.
      * intros g k' q Hq. destruct (Hp _ _ _ Hq) as (? & m & Hm & ?). split; [done|]. exists m. split; [set_solver|done].
  - destruct (known a !! i) as [l|] eqn:Hl; [|done]. destruct (create_data_source l debug timeout) as [src| |] eqn:Hc; [|done..].
    destruct (source_pool src (pools a)) as [ps' r] eqn:Hsp. apply source_pool_spec in Hsp. split; cbn; [done..|].
    destruct (wanted src) as [[f new]|] eqn:Hw; [|by destruct Hsp as [-> _]].
    destruct Hsp as [_ Hat]. intros g k q. rewrite Hat. case_decide as Hgk; [|apply Hp].
    intros [= <-]. destruct Hgk as [-> ->]. destruct (pool_at f _ (pools a)) as [old|] eqn:Hold; [by apply (Hp f)|]. cbn.
    split; [done|]. destruct (source_of_location _ _ _ _ _ _ Hc Hw) as [Hid Hs]. exists l.
    split; [by eapply list_elem_of_lookup_2|done].
  - split; cbn; [done..|]. intros f id p. rewrite gc_pool_at. destruct (pool_at f id (pools a)) as [q|] eqn:Hq; [|done].
    cbn. case_decide; [|done]. intros [= <-]. by apply (Hp f).
Qed.

Lemma reachable_pools first_id es : pools_inv (fold_left run_event es (start first_id)).
Proof.
  pose proof (start_inv first_id) as H'. revert H'. generalize (start first_id).
  induction es as [|e es IH]; intros a Ha; [done|]. cbn. by apply IH, run_event_inv.
Qed.

(** A request is never sent over a pool of another location.  Whatever
    configurations are loaded, in whatever order requests make and use pools
    and the timer drains them, the pool that serves a location, adopted from
    an earlier configuration or made for it, carries the location's own
    number and identity text; and two locations ever compiled have the same
    number only when their identity texts agree. *)
Theorem pool_belongs_to_its_location first_id es l debug timeout src ps' p :
  let a := fold_left run_event es (start first_id) in
  l ∈ known a -> create_data_source l debug timeout = Ok src -> source_pool src (pools a) = (ps', Some p) ->
  pd_location_id (some_desc p) = Config.location_id l /\ pd_id_string (some_desc p) = Config.id_string l /\
  forall m, m ∈ known a -> Config.location_id m = Config.location_id l -> Config.id_string m = Config.id_string l.
Proof.
  intros a Hl Hc Hsp. destruct (reachable_pools first_id es : pools_inv a) as [_ Hi Hp].
  apply source_pool_spec in Hsp. destruct (wanted src) as [[f new]|] eqn:Hw; [|by destruct Hsp].
  destruct Hsp as [[= ->] _]. destruct (source_of_location _ _ _ _ _ _ Hc Hw) as [Hid Hs].
  assert (forall m, m ∈ known a -> Config.location_id m = Config.location_id l -> Config.id_string m = Config.id_string l)
    as Hsame by (intros m Hm ?; by apply Hi).
  destruct (pool_at f _ (pools a)) as [old|] eqn:Hold; [|by split_and!].
  destruct (Hp _ _ _ Hold) as (Hk & m & Hm & Hmid & Hms). cbn. split_and!; [congruence| |done].
  rewrite <-Hms. apply Hsame; congruence.
Qed.

(** C35: the timer drains exactly the pools nothing uses.  In any reachable
    state, after a tick under any configuration a pool is still there exactly
    when it was and the configuration has a location with its number whose
    content source takes its connections from that registry; so no pool a
    configured location can use is ever drained. *)
Theorem gc_spares_exactly_what_is_used first_id es cfg f id p :
  let a := fold_left run_event es (start first_id) in
  pool_at f id (gc_tick cfg (pools a)) = Some p <->
  pool_at f id (pools a) = Some p /\
  exists l, l ∈ config_locations cfg /\ Config.location_id l = id /\
    match create_data_source l false DEFAULT_HTTP_CONNECT_TIMEOUT with
    | Ok src => fst <$> wanted src = Some f
    | _ => family_of l = Some f
    end.
Proof.
  intros a. rewrite gc_pool_at. destruct (reachable_pools first_id es : pools_inv a) as [_ _ Hp].
  assert ((exists l, l ∈ config_locations cfg /\ Config.location_id l = id /\
    match create_data_source l false DEFAULT_HTTP_CONNECT_TIMEOUT with
    | Ok src => fst <$> wanted src = Some f | _ => family_of l = Some f end) <->
    id ∈ keys f (collect_desired_keys cfg)) as ->.
  { rewrite desired_keys_spec. split; intros (l & Hl & H2 & H3); exists l; (split_and!; [done| |]); try done.
    - destruct (create_data_source l _ _) eqn:Hc; [|done..]. by rewrite <-(created_source_family _ _ _ _ Hc).
    - destruct (create_data_source l _ _) eqn:Hc; [|done..]. by rewrite (created_source_family _ _ _ _ Hc). }
  destruct (pool_at f id (pools a)) as [q|] eqn:Hq; cbn; [|naive_solver].
  destruct (Hp _ _ _ Hq) as [-> _]. case_decide; naive_solver.
Qed.

(** A changed setting does not reach a live pool.  Loading a location whose
    identity text is that of a live pool, with whatever other connection
    timeout, pool size, or server name for TLS, gives it the number of that
    pool, and its requests go over the pool as it was made. *)
Theorem reload_keeps_the_old_pool ps next x f id p src ps' r debug timeout :
  (forall g k q, pool_at g k ps = Some q -> pd_location_id (some_desc q) = k) ->
  pool_at f id ps = Some p -> pd_id_string (some_desc p) = settings_id_string x ->
  (forall g k q, pool_at g k ps = Some q -> pd_id_string (some_desc q) = settings_id_string x -> k = id) ->
  let l := compile_with x (find_location_id_by_id_string ps) next in
  create_data_source l debug timeout = Ok src -> fst <$> wanted src = Some f -> source_pool src ps = (ps', r) ->
  Config.location_id l = id /\ r = Some p.
Proof.
  intros Hok Hp Hs Huniq l Hc Hw Hsp.
  assert (Config.location_id l = default next (find_location_id_by_id_string ps (settings_id_string x))) as Hid.
  { unfold l, compile_with, Config.location_new. by destruct (s_modify_headers x). }
  destruct (find_location_id_by_id_string ps (settings_id_string x)) as [id'|] eqn:Hf.
  2: { exfalso. exact (find_id_None _ _ _ _ _ Hf Hp Hs). }
  apply find_id_Some in Hf as (g & k & q & Hq & Hqs & <-). cbn in Hid. rewrite (Hok _ _ _ Hq) in Hid.
  rewrite (Huniq _ _ _ Hq Hqs) in Hid. split; [done|].
  apply source_pool_spec in Hsp. destruct (wanted src) as [[f' new]|] eqn:Hw'; [|done]. injection Hw as ->.
  destruct (source_of_location _ _ _ _ _ _ Hc Hw') as [Hnew _]. destruct Hsp as [-> _]. by rewrite Hnew, Hid, Hp.
Qed.

End Sources.
(** ** Witnesses: a location that is loaded twice, a timeout changed *)

#[local] Existing Instance Config.text_endpoints.
#[local] Existing Instance Content.demo_files.

Definition demo_source (connect_timeout : Z) : LocationSettings :=
  {| s_path := bs "/"; s_modify_headers := None; s_ip_white_list_id := None;
     s_proxy_pass_to := Config.Http1 {| Config.remote_host := Config.Direct (bs "h"); Config.request_timeout := 15;
       Config.connect_timeout := connect_timeout;
       Config.pool_tuning := {| Config.pool_size := 5; Config.ping_timeout := 1; Config.hot_window := 3 |} |};
     s_domain_name := None; s_compress := false; s_auth_header := None; s_listen_host := bs "a.b:80" |}.

Definition demo_app : App :=
  fold_left (run_event None (fun _ => true)) [Compile (demo_source 5); Serve 0 false 0; Compile (demo_source 7)] (start 1).

Definition demo_reloaded : Config.ProxyPassLocationConfig :=
  compile_with (demo_source 7) (find_location_id_by_id_string (pools demo_app)) 2.

Definition demo_pool : Pool H1PoolParams :=
  pool_new (make_tcp_h1_pool_factory None (bs "h") false 5
    {| Config.pool_size := 5; Config.ping_timeout := 1; Config.hot_window := 3 |} 1 (Config.id_string demo_reloaded) false).

Lemma demo_reloaded_known : known demo_app !! 1%nat = Some demo_reloaded.
Proof. vm_compute. reflexivity. Qed.

(** The second load changes the connection timeout, and goes on using the
    pool with the first one's. *)
Lemma pool_belongs_to_its_location_witness :
  exists src ps', create_data_source None (fun _ => true) demo_reloaded false 0 = Ok src /\
    source_pool src (pools demo_app) = (ps', Some (PoolH1 demo_pool)) /\
    h1_connect_timeout (params demo_pool) = 5 /\
    pd_location_id (desc demo_pool) = Config.location_id demo_reloaded.
Proof.
  eexists _, _. split; [vm_compute; reflexivity|]. split; [vm_compute; reflexivity|]. split; [reflexivity|].
  eapply (pool_belongs_to_its_location None (fun _ => true) 1
    [Compile (demo_source 5); Serve 0 false 0; Compile (demo_source 7)] demo_reloaded false 0 _ _ (PoolH1 demo_pool)).
  - apply (list_elem_of_lookup_2 _ 1). exact demo_reloaded_known.
  - vm_compute. reflexivity.
  - vm_compute. reflexivity.
Defined.

End ContentSource.
