(* ===== verification/HyperProxy.v ===== *)
(** * The HTTP/2 server: [tcp_listener/http_request_handler/],
      [http_proxy_pass/http_proxy_pass.rs], [http_proxy_pass/handle_oauth.rs],
      [http_proxy_pass/handle_ga.rs] and the sources of
      [http_proxy_pass/content_source/] that have no pool

    Endpoints of the types [http2] and [https2] are served through hyper.  A
    connection keeps one proxy pass per host, made by the first request for
    it; the requests of the connection run side by side, and share what the
    proxy pass keeps, the identity the connection acts as. *)

From Stdlib Require Import ZArith Lia Strings.Byte.
From stdpp Require Import base tactics list strings gmap.
From S2P Require Import Prelude RustStd LoopBuffer BodyRelay H1Headers H1Rewrite H1Reader OAuthForm OAuthTokens OAuthServer.
From S2P Require Import IpBlocklist ProxyPassConfig GoogleAuth LocalContent H1Dispatch H2Pool HyperRequest ContentSource.

Local Open Scope Z_scope.

Module HyperProxy.
Import Hyper.

Definition MAX_OAUTH_BODY : Z := 64 * 1024.
Definition COLON : byte := Byte.x3a.

Section HyperProxy.
Context `{SliceOfU8Ext} `{H1Libs} `{RewriteLibs} `{RemoteEndpointLib} `{OAuthLibs} `{SerdeJson} `{GoogleLibs}
  `{DateTimeLib} `{FileLibs} `{HttpCrate} `{!HyperLibs}.
Context (iter_add : gmap bytes bytes -> list (bytes * bytes)) (iter_remove : gset bytes -> list bytes).
Context (order : gmap bytes AuthCodes.AuthCode -> list (bytes * AuthCodes.AuthCode)).
Context (APP_VERSION token_secret_key : bytes) (oc : bool).
Context (default_h2_livness_url : option bytes) (get_ssh_session : SshCredentials -> bool).
Context (starts_with_case_insensitive : bytes -> bytes -> bool).

(** ** Answers the proxy makes itself *)

(** A builder with a status; [body(..)] fails for a status outside three
    digits or a header the crate refuses. *)
Definition finish (status : Z) (m : option HeaderMap) (body : bytes) : option Response :=
  m ← m; if (100 <=? status) && (status <=? 999) then Some {| status := status; resp_headers := m; resp_body := body |} else None.

(** [into]: [RequestExecutorResult] as a response, with [unwrap]. *)
Definition executor_response (r : Content.RequestExecutorResult) : outcome ProxyPassError Response :=
  let builder :=
    match Content.rer_content_type r with
    | Some content_type => builder_header (bs "Content-Type") content_type (Some hm_new)
    | None => Some hm_new
    end in
  unwrap (finish (Content.rer_status_code r) builder (Content.rer_body r)).

(** [generate_tech_page]; [debug_err] is what [{:?}] prints of an error, when
    that is shown at all. *)
Definition tech_page (code : Z) (title : bytes) (second_line : option bytes) : Response :=
  {| status := code; resp_headers := hm_new; resp_body := ProxyErrors.generate_layout APP_VERSION code title second_line |}.

Definition generate_tech_page (err : ProxyPassError) (debug_err : option bytes) : Response :=
  match err with
  | Timeout => tech_page 504 (bs "Timeout") debug_err
  | NoLocationFound => tech_page 404 (bs "Not found") debug_err
  | Unauthorized => tech_page 401 (bs "Unauthorized request") debug_err
  | UserIsForbidden => tech_page 403 (bs "Access is forbidden") debug_err
  | IpRestricted ip => tech_page 401 (bs "Restricted by IP") (Some ip)
  | UpstreamUnavailable => tech_page 503 (bs "Upstream unavailable") debug_err
  | ProxyToHeaderMissing | ProxyToHeaderInvalid => tech_page 421 (bs "Missing or invalid proxy-to header") debug_err
  | ProxyToHostNotAllowed => tech_page 403 (bs "Upstream host not allowed") debug_err
  | MyHttpClientError e =>
      match e with
      | H2Pool.RequestTimeout => tech_page 504 (bs "Upstream timeout") debug_err
      | _ => tech_page 502 (bs "Bad gateway") debug_err
      end
  | _ => tech_page 500 (bs "Internal Server Error") debug_err
  end.

(** ** The OAuth gate: [handle_oauth.rs] *)

Definition header_of (p : Parts) (name : bytes) : option bytes :=
  v ← hm_get name (headers p); s ← to_str v; Some (Str.trim s).

Definition host_of (e : Config.HttpEndpointInfo) (p : Parts) : bytes :=
  match uri_authority (uri p) with
  | Some authority => authority
  | None => match header_of p (bs "host") with Some host => host | None => Config.endpoint_str e end
  end.

(** [build_error] is the text of the crate's error. *)
Definition to_hyper_response (build_error : bytes) (r : OAuth.OAuthHttpResponse) : Response :=
  let builder := builder_header (bs "content-type") (OAuth.resp_content_type r) (Some hm_new) in
  let builder := fold_left (fun b '(n, v) => builder_header n v b) (OAuth.headers r) builder in
  match finish (OAuth.status_code r) builder (OAuth.resp_body r) with
  | Some response => response
  | None =>
      {| status := 500; resp_headers := hm_append (bs "content-type") OAuth.CONTENT_TYPE_JSON hm_new;
         resp_body := OAuth.error_body OAuth.ERROR_SERVER_ERROR (bs "Can not build the oauth response. Err: " ++ build_error) |}
  end.

(** What all connections share. *)
Record Shared := { ip_blocklist : IpBlocklist.State; auth_codes : gmap bytes AuthCodes.AuthCode }.

Inductive OAuthGateH2Outcome := Proceed | Answered (r : Response).

Definition register_failure (env : Dispatch.AppConfiguration) (ip : ConnectionIp) (s : Shared) :
    outcome ProxyPassError Shared :=
  match ip with
  | None => Ok s
  | Some ip =>
      match IpBlocklist.register_failure (ip_addr ip) IpBlocklist.Hard (Dispatch.now_micros env) (ip_blocklist s) with
      | Ok (_, b) => Ok {| ip_blocklist := b; auth_codes := auth_codes s |}
      | Err x => match x with end
      | Panic => Panic
      end
  end.

Definition answered (env : Dispatch.AppConfiguration) (ip : ConnectionIp) (build_error : bytes)
    (response : OAuth.OAuthHttpResponse) (s : Shared) : Shared * outcome ProxyPassError OAuthGateH2Outcome :=
  match (if OAuth.register_ip_failure response then register_failure env ip s else Ok s) with
  | Ok s => (s, Ok (Answered (to_hyper_response build_error response)))
  | Err e => (s, Err e)
  | Panic => (s, Panic)
  end.

(** The resource the access token has to be for. *)
Definition resource_path (e : Config.HttpEndpointInfo) (path : bytes) : outcome bytes bytes :=
  location ← Config.find_location e path;
  Ok (match location with
      | Some location => Route.normalize_resource_path (Config.path location)
      | None => Route.normalize_resource_path path
      end).

Definition gate_base_url (e : Config.HttpEndpointInfo) (p : Parts) : bytes :=
  Route.build_base_url (Config.is_https_or_mcp (Config.listen_endpoint_type e)) (host_of e p).

Definition gate_check (env : Dispatch.AppConfiguration) (e : Config.HttpEndpointInfo) (p : Parts)
    (context : OAuth.OAuthContext) : outcome bytes OAuth.BearerGateResult :=
  resource_path ← resource_path e (uri_path (uri p));
  OAuth.check_bearer context (Dispatch.now_secs env)
    {| OAuth.bg_authorization := header_of p (bs "authorization");
       OAuth.bg_base_url := OAuth.base_url context (gate_base_url e p);
       OAuth.bg_resource_path := resource_path |}.

Definition run_oauth_gate_h2 (env : Dispatch.AppConfiguration) (e : Config.HttpEndpointInfo) (ip : ConnectionIp)
    (build_error : bytes) (p : Parts) (incoming : option bytes) (s : Shared) :
    Shared * outcome ProxyPassError OAuthGateH2Outcome :=
  match Config.oauth e with
  | None => (s, Ok Proceed)
  | Some oauth_id =>
      match Dispatch.oauth_credentials env !! oauth_id with
      | None =>
          answered env ip build_error
            (OAuth.oauth_error_response 503 OAuth.ERROR_SERVER_ERROR
               (bs "The oauth configuration for this endpoint is not loaded")) s
      | Some context =>
          match Route.route_oauth_path (uri_path (uri p)) with
          | Err _ | Panic => (s, Panic)
          | Ok None =>
              match gate_check env e p context with
              | Ok OAuth.Allowed => (s, Ok Proceed)
              | Ok (OAuth.Challenge response) => answered env ip build_error response s
              | Err _ | Panic => (s, Panic)
              end
          | Ok (Some route) =>
              match incoming with
              | Some body =>
                  if Z.of_nat (length body) <=? MAX_OAUTH_BODY then
                    let '(codes, response) :=
                      OAuth.handle_oauth_request order oc context (Dispatch.now_secs env) (Dispatch.random_code env)
                        {| OAuth.method := OAuth.method_parse (method p); OAuth.route := route;
                           OAuth.req_base_url := gate_base_url e p; OAuth.query := uri_query (uri p);
                           OAuth.body := body; OAuth.content_type := header_of p (bs "content-type");
                           OAuth.authorization := header_of p (bs "authorization");
                           OAuth.known_resource_paths := map Config.path (Config.locations e) |}
                        (auth_codes s) in
                    let s := {| ip_blocklist := ip_blocklist s; auth_codes := codes |} in
                    match response with
                    | Ok response => answered env ip build_error response s
                    | Err _ | Panic => (s, Panic)
                    end
                  else
                    answered env ip build_error (OAuth.oauth_error_response 413 OAuth.ERROR_INVALID_REQUEST
                      (bs "The request body is too large for an oauth endpoint")) s
              | None =>
                  answered env ip build_error (OAuth.oauth_error_response 413 OAuth.ERROR_INVALID_REQUEST
                    (bs "The request body is too large for an oauth endpoint")) s
              end
          end
      end
  end.

(** ** Google sign-in: [handle_ga.rs] *)

Inductive GoogleAuthResult :=
  | Passed (user : option bytes)
  | Content (r : Response)
  | DomainIsNotAuthorized.

Definition page_response (status : Z) (page : outcome bytes bytes) : outcome ProxyPassError GoogleAuthResult :=
  match page with
  | Ok body => Ok (Content {| status := status; resp_headers := hm_new; resp_body := body |})
  | Err _ | Panic => Panic
  end.

Definition handle_auth_with_g_auth (env : Dispatch.AppConfiguration) (e : Config.HttpEndpointInfo) (p : Parts) :
    outcome ProxyPassError GoogleAuthResult :=
  match Config.g_auth e with
  | None => Ok (Passed None)
  | Some settings =>
      let req := parts_reader p in
      match Google.handle_google_auth token_secret_key (Dispatch.now_micros env) (Dispatch.google_auth_credentials env) req
              settings (Config.debug e) with
      | Panic => Panic
      | Ok (Google.Passed email) => Ok (Passed (Some email))
      | Ok (Google.SetToken email) =>
          match Google.generate_authenticated_user req email with
          | Ok body =>
              let token := Google.generate token_secret_key (Dispatch.now_micros env) email in
              let cookie := Google.AUTHORIZED_COOKIE_NAME ++ bs "=" ++ token ++ bs "; SameSite=None; Secure;" in
              response ← unwrap (finish 200 (builder_header (bs "Set-Cookie") cookie (Some hm_new)) body);
              Ok (Content response)
          | Err _ | Panic => Panic
          end
      | Ok (Google.ShowLoginPage credentials) => page_response 200 (Google.generate_login_page req credentials)
      | Err Google.ShowLogoutPage =>
          page_response 200 (Google.generate_logout_page req (bs "You have successfully logged out!"))
      | Err Google.EmailDomainIsNotAuthorized => Ok DomainIsNotAuthorized
      | Err Google.ShowEmailDomainIsNotAuthorizedPage =>
          page_response 200 (Google.generate_logout_page req (bs "Unauthorized email domain"))
      | Err (Google.ShowUserAuthenticatedPage email) => page_response 200 (Google.generate_authenticated_user req email)
      | Err (Google.ShowError err) => page_response 400 (Ok err)
      end
  end.

(** ** Proxy passes *)

(** [HttpProxyPass] with its [HttpProxyPassInner]; [disposed] is an empty
    [inner]. *)
Record ProxyPass := {
  endpoint_info : Config.HttpEndpointInfo;
  pass_identity : option Config.HttpProxyPassIdentity;
  sources : list ContentSource.HttpProxyPassContentSource;
  disposed : bool
}.

Definition store_identity (who : option Config.HttpProxyPassIdentity) (x : ProxyPass) : ProxyPass :=
  {| endpoint_info := endpoint_info x; pass_identity := who; sources := sources x; disposed := disposed x |}.
Definition dispose_pass (x : ProxyPass) : ProxyPass :=
  {| endpoint_info := endpoint_info x; pass_identity := pass_identity x; sources := sources x; disposed := true |}.

(** A connection: what is known of it, its map from hosts to proxy passes,
    and the proxy passes, which requests hold on to. *)
Record ConnectionInfo := {
  conn_ip : ConnectionIp;
  listen_port_config : Config.HttpListenPortConfiguration;
  client_certificate : option (bytes * bytes);
  over_tls : bool
}.

Record Connection := {
  proxy_passes : gmap bytes nat;
  passes : list ProxyPass;
  shared : Shared
}.

Definition set_shared (s : Shared) (c : Connection) : Connection :=
  {| proxy_passes := proxy_passes c; passes := passes c; shared := s |}.
Definition on_pass (id : nat) (f : ProxyPass -> ProxyPass) (c : Connection) : Connection :=
  {| proxy_passes := proxy_passes c; passes := alter f id (passes c); shared := shared c |}.

Definition new_locations (e : Config.HttpEndpointInfo) : outcome bytes (list ContentSource.HttpProxyPassContentSource) :=
  (fix go locations :=
     match locations with
     | [] => Ok []
     | location :: locations =>
         source ← ContentSource.create_data_source default_h2_livness_url get_ssh_session location (Config.debug e)
                    ContentSource.DEFAULT_HTTP_CONNECT_TIMEOUT;
         rest ← go locations;
         Ok (source :: rest)
     end) (Config.locations e).

(** [HttpProxyPass::new] *)
Definition proxy_pass_new (e : Config.HttpEndpointInfo) (client_cert : option (bytes * bytes)) : outcome bytes ProxyPass :=
  sources ← new_locations e;
  Ok {| endpoint_info := e; pass_identity := '(cn, ca_id) ← client_cert; Some (Config.ClientCert cn ca_id);
        sources := sources; disposed := false |}.

(** *** [get_http_proxy_pass] of the two handlers *)

Definition request_host (p : Parts) : option bytes :=
  match uri_host (uri p) with
  | Some host => Some host
  | None =>
      v ← hm_get (bs "host") (headers p);
      s ← to_str v;
      let host := Str.trim (match Str.find COLON s with Some i => take i s | None => s end) in
      if decide (host = []) then None else Some host
  end.

Definition err_response (status : Z) (content : bytes) : Response :=
  {| status := status; resp_headers := hm_new; resp_body := content |}.

(** The address list of the endpoint; an unknown address passes. *)
Definition ip_is_allowed (env : Dispatch.AppConfiguration) (list_id : option bytes) (ip : ConnectionIp) :
    outcome bytes bool :=
  match list_id, ip with
  | Some id, Some ip =>
      match Config.is_white_listed (Dispatch.white_list_ip_list env) id (ip_addr ip) with
      | Ok b => Ok b
      | Err x => match x with end
      | Panic => Panic
      end
  | _, _ => Ok true
  end.

(** The checks of [https.rs] before a proxy pass is made; [http.rs] has
    none. *)
Definition admit_endpoint (env : Dispatch.AppConfiguration) (ci : ConnectionInfo) (e : Config.HttpEndpointInfo) :
    outcome bytes (option Response) :=
  if over_tls ci then
    if negb (Config.connection_satisfies_client_cert e (snd <$> client_certificate ci)) then
      Ok (Some (err_response 421 (ProxyErrors.generate_layout APP_VERSION 421 (bs "Misdirected Request")
        (Some (bs "A client certificate is required for this host")))))
    else
      allowed ← ip_is_allowed env (Config.whitelisted_ip_list_id e) (conn_ip ci);
      Ok (if allowed : bool then None
          else Some (err_response 401 (ProxyErrors.generate_layout APP_VERSION 401 (bs "Restricted by IP") None)))
  else Ok None.

(** The certificate a new proxy pass starts with. *)
Definition pass_certificate (ci : ConnectionInfo) (e : Config.HttpEndpointInfo) : option (bytes * bytes) :=
  if over_tls ci then
    '(cn, ca_id) ← client_certificate ci;
    if Config.client_cert_identity_applies e ca_id then Some (cn, ca_id) else None
  else None.

Inductive Found := Reject (r : Response) | Pass (id : nat).

(** The second look at the map before the insertion keeps what a request
    running at the same time has put there. *)
Definition publish (host_key : bytes) (x : ProxyPass) (c : Connection) : Connection * nat :=
  match proxy_passes c !! host_key with
  | Some existing => (c, existing)
  | None =>
      let id := length (passes c) in
      ({| proxy_passes := <[host_key := id]> (proxy_passes c); passes := passes c ++ [x]; shared := shared c |}, id)
  end.

Definition get_http_proxy_pass (env : Dispatch.AppConfiguration) (ci : ConnectionInfo) (p : Parts) (c : Connection) :
    outcome bytes (Connection * Found) :=
  match request_host p with
  | None => Ok (c, Reject (err_response 400 (bs "Unknown host")))
  | Some host =>
      let host_key := Str.lower host in
      match proxy_passes c !! host_key with
      | Some existing => Ok (c, Pass existing)
      | None =>
          found ← Config.get_http_endpoint_info (listen_port_config ci) (Some host);
          match found with
          | None =>
              Ok (c, Reject (err_response 400 (ProxyErrors.generate_layout APP_VERSION 400 (bs "No configuration found") None)))
          | Some e =>
              refused ← admit_endpoint env ci e;
              match refused with
              | Some r => Ok (c, Reject r)
              | None =>
                  x ← proxy_pass_new e (pass_certificate ci e);
                  let '(c, id) := publish host_key x c in Ok (c, Pass id)
              end
          end
      end
  end.

(** [dispose] *)
Definition dispose (c : Connection) : Connection :=
  {| proxy_passes := ∅;
     passes := imap (fun i x => if decide (i ∈ (map_to_list (proxy_passes c)).*2) then dispose_pass x else x) (passes c);
     shared := shared c |}.

(** ** Content *)

(** [HttpResponse]: the streams of an upgrade differ in whether they are over
    HTTP/2. *)
Inductive HttpResponse :=
  | SourceResponse (r : Response)
  | WebSocketUpgraded (over_h2 : bool) (r : Response).

(** [DynamicProxyContentSource::execute] up to the connection: the upstream,
    whether it is reached over TLS, and what is sent. *)
Definition dynamic_request (config : Config.DynamicProxyConfig) (req : Request) :
    outcome ProxyPassError (RemoteEndpointOwned * bool * Request) :=
  let p := req_parts req in
  proxy_to ← ok_or (hm_get (bs "proxy-to") (headers p)) ProxyToHeaderMissing;
  let m := hm_remove (bs "proxy-to") (headers p) in
  proxy_to ← ok_or (to_str proxy_to) ProxyToHeaderInvalid;
  endpoint ← map_err (fun _ => ProxyToHeaderInvalid) (endpoint_try_parse proxy_to);
  let allowed :=
    match Config.allowed_hosts config with
    | Some allowed => existsb (fun h => Str.eq_ignore_ascii_case h (ProxyPassConfig.get_host endpoint)) allowed
    | None => true
    end in
  if negb allowed then Err ProxyToHostNotAllowed
  else
    u ← ok_or (parse_uri (default (bs "/") (uri_path_and_query (uri p)))) ProxyToHeaderInvalid;
    let host_value := get_host_port endpoint in
    if negb (header_value_ok host_value) then Err ProxyToHeaderInvalid
    else
      let req := {| req_parts := set_headers (hm_insert (bs "host") host_value m) (set_uri u p); req_body := req_body req |} in
      match get_scheme endpoint with
      | Some Http | Some Ws => Ok (endpoint, false, req)
      | Some Https | Some Wss => Ok (endpoint, true, req)
      | _ => Err ProxyToHeaderInvalid
      end.

(** The exchange with an upstream: of a source that has a connection for it,
    and of a dynamic one. *)
Context (exchange : ContentSource.HttpProxyPassContentSource -> Request -> outcome ProxyPassError HttpResponse).
Context (dynamic_exchange : RemoteEndpointOwned -> bool -> Request -> outcome ProxyPassError HttpResponse).

(** [send_request] *)
Definition send_request (src : ContentSource.HttpProxyPassContentSource) (req : Request) :
    outcome ProxyPassError HttpResponse :=
  match src with
  | ContentSource.LocalPath model =>
      SourceResponse <$> executor_response (Content.file_request_executor (Content.execute_request model (uri_path (uri (req_parts req)))))
  | ContentSource.Static config => SourceResponse <$> executor_response (Content.static_execute_request config)
  | ContentSource.Drop => Err DropConnection
  | ContentSource.DynamicProxy config _ =>
      '(endpoint, tls, req) ← dynamic_request config req;
      dynamic_exchange endpoint tls req
  | other => exchange other req
  end.

(** ** [send_payload]

    The places where other requests of the connection can come between are
    behind the sign-in, which stores the identity, behind the look at the
    allowed users, which loads it, and behind the headers, which load it
    again. *)

(** An answer of the proxy's own, or the request goes on. *)
Inductive Step (A : Type) := Answer (r : Response) | GoOn (x : A).
#[global] Arguments Answer {A} r.
#[global] Arguments GoOn {A} x.

(** Up to and with the sign-in: the gate, and the identity that is stored. *)
Definition identify (env : Dispatch.AppConfiguration) (ci : ConnectionInfo) (build_error : bytes) (id : nat) (p : Parts)
    (incoming : option bytes) (c : Connection) : Connection * outcome ProxyPassError (Step unit) :=
  match passes c !! id with
  | None => (c, Panic)
  | Some x =>
      let '(s, gate) := run_oauth_gate_h2 env (endpoint_info x) (conn_ip ci) build_error p incoming (shared c) in
      let c := set_shared s c in
      match gate with
      | Panic => (c, Panic)
      | Err e => (c, Err e)
      | Ok (Answered r) => (c, Ok (Answer r))
      | Ok Proceed =>
          if disposed x then (c, Err Disposed)
          else
            match handle_auth_with_g_auth env (endpoint_info x) p with
            | Panic => (c, Panic)
            | Err e => (c, Err e)
            | Ok (Content r) => (c, Ok (Answer r))
            | Ok DomainIsNotAuthorized => (c, Err Unauthorized)
            | Ok (Passed None) => (c, Ok (GoOn tt))
            | Ok (Passed (Some email)) => (on_pass id (store_identity (Some (Config.GoogleUser email))) c, Ok (GoOn tt))
            end
      end
  end.

(** The allowed users. *)
Definition check_user (env : Dispatch.AppConfiguration) (id : nat) (c : Connection) : outcome ProxyPassError unit :=
  match passes c !! id with
  | None => Panic
  | Some x =>
      match Config.allowed_user_list_id (endpoint_info x) with
      | None => Ok tt
      | Some list_id =>
          match pass_identity x with
          | Some who =>
              if Config.is_allowed (Dispatch.allowed_users env) list_id (Config.identity_as_str who) then Ok tt
              else Err UserIsForbidden
          | None => Err UserIsForbidden
          end
      end
  end.

(** [find_location_index] and [find] *)
Definition find_location_index (locations : list Config.ProxyPassLocationConfig) (u : Uri) :
    outcome ProxyPassError nat :=
  match list_find (fun l => starts_with_case_insensitive (uri_path u) (Config.path l) = true) locations with
  | Some (index, _) => Ok index
  | None => Err NoLocationFound
  end.

Definition inner_of (ci : ConnectionInfo) (x : ProxyPass) : Inner :=
  {| identity := pass_identity x; endpoint_type := Config.listen_endpoint_type (endpoint_info x);
     connection_ip := conn_ip ci |}.

(** The text of a listener in the page about its address list. *)
Context (listen_host_text : Config.ListenHost -> bytes).

(** From the location to the request for the upstream. *)
Definition prepare (env : Dispatch.AppConfiguration) (ci : ConnectionInfo) (id : nat) (p : Parts) (incoming : option bytes)
    (c : Connection) : outcome ProxyPassError (nat * TransformedRequest) :=
  match passes c !! id with
  | None => Panic
  | Some x =>
      let e := endpoint_info x in
      index ← find_location_index (Config.locations e) (uri p);
      location ← unwrap (Config.locations e !! index);
      p ← process_headers iter_add iter_remove e (inner_of ci x) location p;
      t ← into_request p incoming location;
      match ip_is_allowed env (Config.ip_white_list_id location) (conn_ip ci) with
      | Ok true => Ok (index, t)
      | Ok false => Err (IpRestricted (listen_host_text (Config.listen_host (listen_port_config ci))))
      | Err _ | Panic => Panic
      end
  end.

(** [spawn_websocket_pump] and [spawn_h2_websocket_pump]: the response that
    starts the tunnel. *)
Definition upgraded_response (upgrade : option WebSocketUpgrade) (fallback_response : Response) : Response :=
  match upgrade with
  | None => fallback_response
  | Some (UpgradeH1 upgrade_response) | Some (UpgradeH2 upgrade_response) => upgrade_response
  end.

(** From the upstream's response on. *)
Definition respond (ci : ConnectionInfo) (id : nat) (index : nat) (t : TransformedRequest) (result : HttpResponse)
    (c : Connection) : outcome ProxyPassError Response :=
  let response :=
    match result with
    | SourceResponse response => response
    | WebSocketUpgraded _ response => upgraded_response (web_socket_upgrade t) response
    end in
  match passes c !! id with
  | None => Panic
  | Some x =>
      if disposed x then Err Disposed
      else
        location ← unwrap (Config.locations (endpoint_info x) !! index);
        m ← modify_resp_headers iter_add iter_remove (endpoint_info x) (inner_of ci x) (orig_parts t) location
              (resp_headers response);
        Ok {| status := status response; resp_headers := m; resp_body := resp_body response |}
  end.

(** A request that nothing comes between. *)
Definition send_payload (env : Dispatch.AppConfiguration) (ci : ConnectionInfo) (build_error : bytes) (id : nat) (p : Parts)
    (incoming : option bytes) (c : Connection) : Connection * outcome ProxyPassError Response :=
  let '(c, step) := identify env ci build_error id p incoming c in
  (c,
   step ← step;
   match step with
   | Answer r => Ok r
   | GoOn _ =>
       _ ← check_user env id c;
       '(index, t) ← prepare env ci id p incoming c;
       x ← unwrap (passes c !! id);
       src ← unwrap (sources x !! index);
       result ← send_request src (request t);
       respond ci id index t result c
   end).

(** [handle_requests]; [show] is the debug text of an error when it is to be
    shown. *)
Definition answer_error (show : ProxyPassError -> option bytes) (err : ProxyPassError) : Response :=
  match err with
  | DropConnection =>
      {| status := 403; resp_headers := hm_append (bs "connection") (bs "close") hm_new; resp_body := [] |}
  | err => generate_tech_page err (show err)
  end.

Definition handle_requests (env : Dispatch.AppConfiguration) (ci : ConnectionInfo) (build_error : bytes)
    (show : ProxyPassError -> option bytes) (id : nat) (p : Parts) (incoming : option bytes) (c : Connection) :
    Connection * outcome bytes Response :=
  let '(c, result) := send_payload env ci build_error id p incoming c in
  (c, match result with
      | Ok r => Ok r
      | Err err => Ok (answer_error show err)
      | Panic => Panic
      end).

(** [handle_request] of either handler. *)
Definition handle_request (env : Dispatch.AppConfiguration) (ci : ConnectionInfo) (build_error : bytes)
    (show : ProxyPassError -> option bytes) (p : Parts) (incoming : option bytes) (c : Connection) :
    Connection * outcome bytes Response :=
  match get_http_proxy_pass env ci p c with
  | Ok (c, Reject r) => (c, Ok r)
  | Ok (c, Pass id) => handle_requests env ci build_error show id p incoming c
  | Err e => (c, Err e)
  | Panic => (c, Panic)
  end.

(** ** The requests of a connection side by side *)

Inductive Phase :=
  | Identifying
  | CheckingUser
  | Preparing
  | Sending (index : nat) (t : TransformedRequest)
  | Finished (r : outcome ProxyPassError Response).

Record Task := { t_pass : nat; t_parts : Parts; t_incoming : option bytes; t_phase : Phase }.

Definition set_phase (ph : Phase) (t : Task) : Task :=
  {| t_pass := t_pass t; t_parts := t_parts t; t_incoming := t_incoming t; t_phase := ph |}.

Record Node := { conn : Connection; tasks : list Task }.

Inductive Action :=
  | Arrives (p : Parts) (incoming : option bytes)
  | Runs (i : nat)
  | Responds (i : nat) (result : outcome ProxyPassError HttpResponse)
  | Disposes.

Definition advance (env : Dispatch.AppConfiguration) (ci : ConnectionInfo) (build_error : bytes) (t : Task)
    (c : Connection) : Connection * Task :=
  match t_phase t with
  | Identifying =>
      let '(c, step) := identify env ci build_error (t_pass t) (t_parts t) (t_incoming t) c in
      (c, set_phase (match step with
                     | Ok (GoOn _) => CheckingUser
                     | Ok (Answer r) => Finished (Ok r)
                     | Err e => Finished (Err e)
                     | Panic => Finished Panic
                     end) t)
  | CheckingUser =>
      (c, set_phase (match check_user env (t_pass t) c with
                     | Ok _ => Preparing
                     | Err e => Finished (Err e)
                     | Panic => Finished Panic
                     end) t)
  | Preparing =>
      (c, set_phase (match prepare env ci (t_pass t) (t_parts t) (t_incoming t) c with
                     | Ok (index, r) => Sending index r
                     | Err e => Finished (Err e)
                     | Panic => Finished Panic
                     end) t)
  | Sending _ _ | Finished _ => (c, t)
  end.

Definition act (ci : ConnectionInfo) (build_error : bytes) (n : Node) (x : Dispatch.AppConfiguration * Action) : Node :=
  let '(env, a) := x in
  match a with
  | Arrives p incoming =>
      match get_http_proxy_pass env ci p (conn n) with
      | Ok (c, Pass id) =>
          {| conn := c; tasks := tasks n ++ [{| t_pass := id; t_parts := p; t_incoming := incoming; t_phase := Identifying |}] |}
      | Ok (c, Reject _) => {| conn := c; tasks := tasks n |}
      | Err _ | Panic => n
      end
  | Runs i =>
      match tasks n !! i with
      | Some t => let '(c, t) := advance env ci build_error t (conn n) in {| conn := c; tasks := <[i := t]> (tasks n) |}
      | None => n
      end
  | Responds i result =>
      match tasks n !! i with
      | Some t =>
          match t_phase t with
          | Sending index r =>
              {| conn := conn n;
                 tasks := <[i := set_phase (Finished (result ← result; respond ci (t_pass t) index r result (conn n))) t]> (tasks n) |}
          | _ => n
          end
      | None => n
      end
  | Disposes => {| conn := dispose (conn n); tasks := tasks n |}
  end.

Definition new_connection (s : Shared) : Node := {| conn := {| proxy_passes := ∅; passes := []; shared := s |}; tasks := [] |}.

End HyperProxy.
(** ** What reaches an upstream *)

Section Proofs.
Context `{SliceOfU8Ext} `{H1Libs} `{RewriteLibs} `{RemoteEndpointLib} `{OAuthLibs} `{SerdeJson} `{GoogleLibs}
  `{DateTimeLib} `{FileLibs} `{HttpCrate} `{!HyperLibs}.
Context (iter_add : gmap bytes bytes -> list (bytes * bytes)) (iter_remove : gset bytes -> list bytes).
Context (order : gmap bytes AuthCodes.AuthCode -> list (bytes * AuthCodes.AuthCode)).
Context (APP_VERSION token_secret_key : bytes) (oc : bool).
Context (default_h2_livness_url : option bytes) (get_ssh_session : SshCredentials -> bool).
Context (starts_with_case_insensitive : bytes -> bytes -> bool) (listen_host_text : Config.ListenHost -> bytes).
Context (ci : ConnectionInfo) (build_error : bytes).

#[local] Abbreviation signed_in := (handle_auth_with_g_auth token_secret_key).
#[local] Abbreviation identify := (identify order token_secret_key oc).
#[local] Abbreviation prepare := (prepare iter_add iter_remove starts_with_case_insensitive listen_host_text).
#[local] Abbreviation advance := (advance iter_add iter_remove order token_secret_key oc starts_with_case_insensitive
  listen_host_text).
#[local] Abbreviation act := (act iter_add iter_remove order APP_VERSION token_secret_key oc default_h2_livness_url get_ssh_session
  starts_with_case_insensitive listen_host_text ci build_error).

(** The checks a proxy pass is made behind. *)
Definition admitted (hist : list Dispatch.AppConfiguration) (e : Config.HttpEndpointInfo) : Prop :=
  over_tls ci = true ->
  Config.connection_satisfies_client_cert e (snd <$> client_certificate ci) = true /\
  exists env, env ∈ hist /\ ip_is_allowed env (Config.whitelisted_ip_list_id e) (conn_ip ci) = Ok true.

(** The OAuth gate lets a request through. *)
Definition gate_open (env : Dispatch.AppConfiguration) (e : Config.HttpEndpointInfo) (p : Parts) : Prop :=
  match Config.oauth e with
  | None => True
  | Some oauth_id =>
      exists context, Dispatch.oauth_credentials env !! oauth_id = Some context /\
        Route.route_oauth_path (uri_path (uri p)) = Ok None /\ gate_check env e p context = Ok OAuth.Allowed
  end.

(** The gate and the sign-in let a request through. *)
Definition gates_open (hist : list Dispatch.AppConfiguration) (e : Config.HttpEndpointInfo) (p : Parts) : Prop :=
  exists env, env ∈ hist /\ gate_open env e p /\
    exists user, signed_in env e p = Ok (Passed user) /\ (Config.g_auth e <> None -> user <> None).

(** Where an identity can come from: the certificate of the connection,
    where the endpoint asks for its authority, or the sign-in of a request to
    this proxy pass. *)
Definition originates (hist : list Dispatch.AppConfiguration) (requests : list (nat * Parts)) (id : nat)
    (e : Config.HttpEndpointInfo) (who : Config.HttpProxyPassIdentity) : Prop :=
  (exists cn ca_id, over_tls ci = true /\ client_certificate ci = Some (cn, ca_id) /\
     Config.client_certificate_id e = Some ca_id /\ who = Config.ClientCert cn ca_id) \/
  exists p env email, (id, p) ∈ requests /\ env ∈ hist /\ signed_in env e p = Ok (Passed (Some email)) /\
    who = Config.GoogleUser email.

(** The allowed users are met by an identity of the connection. *)
Definition user_checked (hist : list Dispatch.AppConfiguration) (requests : list (nat * Parts)) (id : nat)
    (e : Config.HttpEndpointInfo) : Prop :=
  forall list_id, Config.allowed_user_list_id e = Some list_id ->
    exists who env, originates hist requests id e who /\ env ∈ hist /\
      Config.is_allowed (Dispatch.allowed_users env) list_id (Config.identity_as_str who) = true.

(** The request for the upstream is made of what came, for the first
    location of its path, whose address list is met. *)
Definition prepared (hist : list Dispatch.AppConfiguration) (requests : list (nat * Parts)) (id : nat)
    (e : Config.HttpEndpointInfo) (p : Parts) (incoming : option bytes) (index : nat) (t : TransformedRequest) : Prop :=
  exists location who p' env, Config.locations e !! index = Some location /\
    find_location_index starts_with_case_insensitive (Config.locations e) (uri p) = Ok index /\
    (forall i, who = Some i -> originates hist requests id e i) /\
    process_headers iter_add iter_remove e
      {| identity := who; endpoint_type := Config.listen_endpoint_type e; connection_ip := conn_ip ci |} location p = Ok p' /\
    into_request p' incoming location = Ok t /\
    env ∈ hist /\ ip_is_allowed env (Config.ip_white_list_id location) (conn_ip ci) = Ok true.

Definition phase_ok (hist : list Dispatch.AppConfiguration) (requests : list (nat * Parts)) (e : Config.HttpEndpointInfo)
    (t : Task) : Prop :=
  match t_phase t with
  | Identifying | Finished _ => True
  | CheckingUser => gates_open hist e (t_parts t)
  | Preparing => gates_open hist e (t_parts t) /\ user_checked hist requests (t_pass t) e
  | Sending index r =>
      gates_open hist e (t_parts t) /\ user_checked hist requests (t_pass t) e /\
      prepared hist requests (t_pass t) e (t_parts t) (t_incoming t) index r
  end.

Definition pass_ok (hist : list Dispatch.AppConfiguration) (requests : list (nat * Parts)) (id : nat) (x : ProxyPass) : Prop :=
  admitted hist (endpoint_info x) /\
  forall who, pass_identity x = Some who -> originates hist requests id (endpoint_info x) who.

Definition requests_of (n : Node) : list (nat * Parts) := map (fun t => (t_pass t, t_parts t)) (tasks n).
#[local] Arguments requests_of : simpl never.

Record node_ok (hist : list Dispatch.AppConfiguration) (n : Node) : Prop := {
  no_passes : forall id x, passes (conn n) !! id = Some x -> pass_ok hist (requests_of n) id x;
  no_map : forall host id, proxy_passes (conn n) !! host = Some id -> (id < length (passes (conn n)))%nat;
  no_tasks : forall t, t ∈ tasks n ->
    exists x, passes (conn n) !! t_pass t = Some x /\ phase_ok hist (requests_of n) (endpoint_info x) t
}.

(** More history and more requests take nothing back. *)
Lemma originates_mono hist hist' rs rs' id e who :
  hist ⊆ hist' -> rs ⊆ rs' -> originates hist rs id e who -> originates hist' rs' id e who.
Proof. intros Hh Hr [?|(p & env & email & ? & ? & ?)]; [by left|]. right. exists p, env, email. auto. Qed.

Lemma pass_ok_mono hist hist' rs rs' id x :
  hist ⊆ hist' -> rs ⊆ rs' -> pass_ok hist rs id x -> pass_ok hist' rs' id x.
Proof.
  intros Hh Hr [Ha Hi]. split.
  - intros Ht. destruct (Ha Ht) as (? & env & ? & ?). split; [done|]. exists env. auto.
  - intros who Hw. eapply originates_mono; eauto.
Qed.

Lemma phase_ok_mono hist hist' rs rs' e t :
  hist ⊆ hist' -> rs ⊆ rs' -> phase_ok hist rs e t -> phase_ok hist' rs' e t.
Proof.
  intros Hh Hr. assert (forall p, gates_open hist e p -> gates_open hist' e p) as Hg.
  { intros p (env & ? & ?). exists env. auto. }
  assert (user_checked hist rs (t_pass t) e -> user_checked hist' rs' (t_pass t) e) as Hu.
  { intros Hu id Hid. destruct (Hu id Hid) as (who & env & ? & ? & ?). exists who, env.
    split; [by eapply originates_mono|auto]. }
  unfold phase_ok. destruct (t_phase t); [done|auto|naive_solver| |done].
  intros (? & ? & l & who & p' & env & ? & ? & Hw & ? & ? & ? & ?). split_and!; auto.
  exists l, who, p', env. split_and!; auto. intros i Hi. eapply originates_mono; eauto.
Qed.

Lemma answered_is_no_pass env ip r s s' : answered env ip build_error r s <> (s', Ok Proceed).
Proof. unfold answered. by destruct (if OAuth.register_ip_failure r then _ else _). Qed.

Lemma gate_spec env e ip p incoming s s' :
  run_oauth_gate_h2 order oc env e ip build_error p incoming s = (s', Ok Proceed) -> gate_open env e p.
Proof.
  unfold run_oauth_gate_h2, gate_open. destruct (Config.oauth e) as [id|]; [|done].
  destruct (Dispatch.oauth_credentials env !! id) as [context|]; [|by intros ?%answered_is_no_pass].
  destruct (Route.route_oauth_path (uri_path (uri p))) as [[route|]| |] eqn:Hroute; [| |done..].
  - destruct incoming as [body|]; [|by intros ?%answered_is_no_pass].
    destruct (Z.of_nat (length body) <=? MAX_OAUTH_BODY); [|by intros ?%answered_is_no_pass].
    destruct (OAuth.handle_oauth_request _ _ _ _ _ _ _) as [codes [r| |]]; [by intros ?%answered_is_no_pass|done..].
  - destruct (gate_check env e p context) as [[|r]| |] eqn:Hc; [|by intros ?%answered_is_no_pass|done..].
    intros _. by exists context.
Qed.

(** What a request that goes on behind the sign-in leaves. *)
Lemma identify_spec env id p incoming c c' r x :
  identify env ci build_error id p incoming c = (c', r) -> passes c !! id = Some x ->
  proxy_passes c' = proxy_passes c /\
  match r with
  | Ok (GoOn _) =>
      exists user, gate_open env (endpoint_info x) p /\ signed_in env (endpoint_info x) p = Ok (Passed user) /\
        passes c' = match user with
                    | Some email => alter (store_identity (Some (Config.GoogleUser email))) id (passes c)
                    | None => passes c
                    end
  | _ => passes c' = passes c
  end.
Proof.
  unfold identify. intros Hi Hx. rewrite Hx in Hi.
  destruct (run_oauth_gate_h2 _ _ _ _ _ _ _ _ _) as [s gate] eqn:Hg.
  destruct gate as [[|]|e|]; [|by simplify_eq..]. apply gate_spec in Hg.
  destruct (disposed x); [by simplify_eq|].
  destruct (signed_in env (endpoint_info x) p) as [[[email|]|resp|]|e|]; simplify_eq; split; try done.
  - by exists (Some email).
  - by exists None.
Qed.

Lemma sign_in_yields_user env e p user :
  signed_in env e p = Ok (Passed user) -> Config.g_auth e <> None -> user <> None.
Proof.
  unfold handle_auth_with_g_auth. destruct (Config.g_auth e) as [g|]; [|done].
  assert (forall st pg, page_response st pg <> Ok (Passed user)) as Hp by (intros st [| |]; done).
  destruct (Google.handle_google_auth _ _ _ _ _ _) as [[email|email|c]|[| | | |]|]; try (intros Hx; exfalso; exact (Hp _ _ Hx)); try done.
  - intros [= <-]. done.
  - destruct (Google.generate_authenticated_user _ _); [|done..]. by destruct (unwrap _).
Qed.

Lemma check_user_spec env id c x hist rs :
  check_user env id c = Ok tt -> passes c !! id = Some x -> env ∈ hist ->
  (forall who, pass_identity x = Some who -> originates hist rs id (endpoint_info x) who) ->
  user_checked hist rs id (endpoint_info x).
Proof.
  unfold check_user. intros Hc Hx He Ho list_id Hl. rewrite Hx, Hl in Hc.
  destruct (pass_identity x) as [who|]; [|done]. destruct (Config.is_allowed _ _ _) eqn:Ha; [|done].
  exists who, env. auto.
Qed.

Lemma prepare_spec env id p incoming c x hist rs index t :
  prepare env ci id p incoming c = Ok (index, t) -> passes c !! id = Some x -> env ∈ hist ->
  (forall who, pass_identity x = Some who -> originates hist rs id (endpoint_info x) who) ->
  prepared hist rs id (endpoint_info x) p incoming index t.
Proof.
  unfold prepare. intros Hp Hx He Ho. rewrite Hx in Hp.
  destruct (find_location_index _ _ _) as [i| |] eqn:Hi; cbn [mbind outcome_bind] in Hp; [|done..].
  destruct (Config.locations _ !! i) as [location|] eqn:Hl; cbn [unwrap mbind outcome_bind] in Hp; [|done].
  destruct (process_headers _ _ _ _ _ _) as [p'| |] eqn:Hh; cbn [mbind outcome_bind] in Hp; [|done..].
  destruct (into_request p' incoming location) as [r| |] eqn:Hr; cbn [mbind outcome_bind] in Hp; [|done..].
  destruct (ip_is_allowed env _ _) as [[]| |] eqn:Hip; [|done..]. injection Hp as -> ->.
  exists location, (pass_identity x), p', env. split_and!; done.
Qed.

Lemma find_pass_spec env p c c' id :
  get_http_proxy_pass APP_VERSION default_h2_livness_url get_ssh_session env ci p c = Ok (c', Pass id) ->
  shared c' = shared c /\
  (c' = c /\ (exists host, proxy_passes c !! host = Some id) \/
   exists host x, id = length (passes c) /\ passes c' = passes c ++ [x] /\ proxy_passes c' = <[host := id]> (proxy_passes c) /\
     admitted [env] (endpoint_info x) /\ pass_identity x =
       ('(cn, ca_id) ← pass_certificate ci (endpoint_info x); Some (Config.ClientCert cn ca_id))).
Proof.
  unfold get_http_proxy_pass. destruct (request_host p) as [host|]; [|done].
  destruct (proxy_passes c !! Str.lower host) as [existing|] eqn:Hm; [intros [= <- <-]; split; [done|]; left; by eauto|].
  destruct (Config.get_http_endpoint_info _ _) as [[e|]| |]; cbn [mbind outcome_bind]; [|done..].
  destruct (admit_endpoint APP_VERSION env ci e) as [[r|]| |] eqn:Ha; cbn [mbind outcome_bind]; [done| |done..].
  destruct (proxy_pass_new _ _ e _) as [x| |] eqn:Hx; cbn [mbind outcome_bind]; [|done..].
  unfold publish. rewrite Hm. intros [= <- <-]. split; [done|]. right. exists (Str.lower host), x.
  assert (endpoint_info x = e /\ pass_identity x =
    ('(cn, ca_id) ← pass_certificate ci e; Some (Config.ClientCert cn ca_id))) as [He Hid].
  { unfold proxy_pass_new in Hx. destruct (new_locations _ _ e); cbn in Hx; [|done..]. by injection Hx as <-. }
  split_and!; try done; [|by rewrite He]. rewrite He. intros Ht. unfold admit_endpoint in Ha. rewrite Ht in Ha.
  destruct (Config.connection_satisfies_client_cert e _); cbn [negb] in Ha; [|done]. split; [done|].
  exists env. split; [by left|]. destruct (ip_is_allowed env _ _) as [[]| |]; cbn in Ha; done.
Qed.

Lemma set_phase_requests ts i t ph :
  ts !! i = Some t ->
  map (fun t => (t_pass t, t_parts t)) (<[i := set_phase ph t]> ts) = map (fun t => (t_pass t, t_parts t)) ts.
Proof.
  intros Hi. change (map ?f) with (fmap (M:=list) f). rewrite list_fmap_insert. cbn.
  apply list_insert_id. by rewrite list_lookup_fmap, Hi.
Qed.

(** A step that leaves the passes' endpoints and the requests, and takes one
    task on. *)
Lemma request_step_ok hist n c i t ph x :
  node_ok hist n -> tasks n !! i = Some t -> passes (conn n) !! t_pass t = Some x ->
  proxy_passes c = proxy_passes (conn n) ->
  (passes c = passes (conn n) \/
   exists who, passes c = alter (store_identity (Some who)) (t_pass t) (passes (conn n)) /\
     originates hist (requests_of n) (t_pass t) (endpoint_info x) who) ->
  phase_ok hist (requests_of n) (endpoint_info x) (set_phase ph t) ->
  node_ok hist {| conn := c; tasks := <[i := set_phase ph t]> (tasks n) |}.
Proof.
  intros [Hps Hm Ht] Hi Hx Hmap Hpass Hph.
  assert (requests_of {| conn := c; tasks := <[i := set_phase ph t]> (tasks n) |} = requests_of n) as Hr
    by (by apply set_phase_requests).
  assert (forall id y, passes (conn n) !! id = Some y -> exists y', passes c !! id = Some y' /\ endpoint_info y' = endpoint_info y)
    as Hfwd.
  { intros id y Hy. destruct Hpass as [->|(who & -> & _)]; [by exists y|]. rewrite list_lookup_alter, ?Hy.
    case_decide as Hid; [subst id; rewrite Hy|]; cbn; by eexists. }
  split; cbn.
  - intros id y Hy. rewrite Hr. destruct Hpass as [Hc|(who & Hc & Ho)]; rewrite Hc in Hy; [by apply Hps|].
    rewrite list_lookup_alter in Hy. case_decide as Hid; [|by apply Hps]. subst id. rewrite Hx in Hy. injection Hy as <-.
    destruct (Hps _ _ Hx) as [Ha _]. split; [done|]. by intros who' [= <-].
  - intros host id. rewrite Hmap. destruct Hpass as [->|(who & -> & _)]; rewrite ?length_alter; apply Hm.
  - intros u Hu. rewrite Hr. assert (u = set_phase ph t \/ u ∈ tasks n) as [->|Hu'].
    { apply list_elem_of_lookup in Hu as [j Hj]. apply list_lookup_insert_Some in Hj as [(_ & <- & _)|[_ Hj]]; [by left|].
      right. by eapply list_elem_of_lookup_2. }
    + destruct (Hfwd _ _ Hx) as (y' & Hy' & He). exists y'. by rewrite He.
    + destruct (Ht _ Hu') as (y & Hy & Hok). destruct (Hfwd _ _ Hy) as (y' & Hy' & He). exists y'. by rewrite He.
Qed.

Lemma advance_ok hist n env i t c t' :
  env ∈ hist -> node_ok hist n -> tasks n !! i = Some t -> advance env ci build_error t (conn n) = (c, t') ->
  node_ok hist {| conn := c; tasks := <[i := t']> (tasks n) |}.
Proof.
  intros He Hn Hi Ha. assert (t ∈ tasks n) as Hin by (by eapply list_elem_of_lookup_2).
  destruct (no_tasks _ _ Hn _ Hin) as (x & Hx & Hok). destruct (no_passes _ _ Hn _ _ Hx) as [_ Hwho].
  unfold advance in Ha. unfold phase_ok in Hok. destruct (t_phase t) as [| | |index r|r] eqn:Hph.
  - destruct (identify _ _ _ _ _ _ _) as [c0 step] eqn:Hid. injection Ha as <- <-.
    destruct (identify_spec _ _ _ _ _ _ _ _ Hid Hx) as [Hmap Hspec].
    eapply request_step_ok; try done; destruct step as [[r|u]|e|]; try (by left); try done.
    + destruct Hspec as (user & Hg & Hs & Hp). destruct user as [email|]; [|by left]. right.
      exists (Config.GoogleUser email). split; [done|]. right. exists (t_parts t), env, email. split_and!; try done.
      unfold requests_of. apply list_elem_of_fmap. by exists t.
    + destruct Hspec as (user & Hg & Hs & Hp). exists env. split_and!; [done..|]. exists user. split; [done|].
      by eapply sign_in_yields_user.
  - destruct (check_user env (t_pass t) (conn n)) as [[]|e|] eqn:Hc; injection Ha as <- <-;
      (eapply request_step_ok; [done..|by left|]; try done).
    split; [done|]. by eapply check_user_spec.
  - destruct (prepare env ci (t_pass t) (t_parts t) (t_incoming t) (conn n)) as [[index r]|e|] eqn:Hp; injection Ha as <- <-;
      (eapply request_step_ok; [done..|by left|]; try done).
    destruct Hok as [Hg Hu]. split_and!; [done..|]. by eapply prepare_spec.
  - injection Ha as <- <-. rewrite list_insert_id by done. by destruct n.
  - injection Ha as <- <-. rewrite list_insert_id by done. by destruct n.
Qed.

Lemma arrival_ok hist n env p incoming c id :
  env ∈ hist -> node_ok hist n ->
  get_http_proxy_pass APP_VERSION default_h2_livness_url get_ssh_session env ci p (conn n) = Ok (c, Pass id) ->
  node_ok hist
    {| conn := c; tasks := tasks n ++ [{| t_pass := id; t_parts := p; t_incoming := incoming; t_phase := Identifying |}] |}.
Proof.
  intros He [Hps Hm Ht] Hf. apply find_pass_spec in Hf as [_ Hf].
  set (t := {| t_pass := id; t_parts := p; t_incoming := incoming; t_phase := Identifying |}).
  assert (requests_of {| conn := c; tasks := tasks n ++ [t] |} = requests_of n ++ [(id, p)]) as Hr
    by (unfold requests_of; cbn; by rewrite map_app).
  assert (requests_of n ⊆ requests_of n ++ [(id, p)]) as Hsub by set_solver.
  assert (exists x, passes c !! id = Some x) as [x Hx].
  { destruct Hf as [[-> [host Hh]]|(host & x & -> & -> & _)].
    - destruct (lookup_lt_is_Some_2 (passes (conn n)) id) as [x Hx]; [by eapply Hm|by exists x].
    - exists x. by rewrite lookup_app_r, Nat.sub_diag by lia. }
  assert (forall k y, passes (conn n) !! k = Some y -> passes c !! k = Some y) as Hfwd.
  { intros k y Hy. destruct Hf as [[-> _]|(host & x' & _ & -> & _)]; [done|]. by apply lookup_app_l_Some. }
  split; cbn.
  - intros k y Hy. rewrite Hr. apply (pass_ok_mono hist hist (requests_of n)); [done..|].
    destruct Hf as [[-> _]|(host & x' & -> & Hc & _ & Ha & Hid)]; [by apply Hps|]. rewrite Hc in Hy.
    apply lookup_snoc_Some in Hy as [[_ Hy]|[-> <-]]; [by apply Hps|]. split.
    + intros Htls. destruct (Ha Htls) as (? & env' & ->%list_elem_of_singleton & ?). split; [done|]. by exists env.
    + intros who Hwho. rewrite Hwho in Hid. left. unfold pass_certificate in Hid. destruct (over_tls ci); [|done].
      destruct (client_certificate ci) as [[cn ca]|]; cbn in Hid; [|done].
      destruct (Config.client_cert_identity_applies _ ca) eqn:Hca; cbn in Hid; [|done]. injection Hid as ->.
      exists cn, ca. split_and!; try done. unfold Config.client_cert_identity_applies in Hca.
      destruct (Config.client_certificate_id _); [|done]. by apply bool_decide_eq_true in Hca as ->.
  - intros host k. destruct Hf as [[-> _]|(host' & x' & -> & -> & -> & _)]; [apply Hm|]. rewrite length_app. cbn.
    intros [[_ <-]|[_ Hk]]%lookup_insert_Some; [lia|]. apply Hm in Hk. lia.
  - intros u [Hu| ->%list_elem_of_singleton]%elem_of_app.
    + destruct (Ht _ Hu) as (y & Hy & Hok). exists y. split; [by apply Hfwd|]. rewrite Hr. by eapply phase_ok_mono.
    + by exists x.
Qed.

Lemma dispose_ok hist n : node_ok hist n -> node_ok hist {| conn := dispose (conn n); tasks := tasks n |}.
Proof.
  intros [Hps Hm Ht]. change (requests_of {| conn := dispose (conn n); tasks := tasks n |}) with (requests_of n).
  assert (forall id y, passes (dispose (conn n)) !! id = Some y ->
    exists x, passes (conn n) !! id = Some x /\ endpoint_info y = endpoint_info x /\ pass_identity y = pass_identity x) as Hb.
  { intros id y. cbn. rewrite list_lookup_imap. destruct (passes (conn n) !! id) as [x|]; [|done]. cbn.
    intros [= <-]. exists x. by case_decide. }
  split.
  - intros id y Hy. destruct (Hb _ _ Hy) as (x & Hx & He & Hi). destruct (Hps _ _ Hx). split; rewrite He; [done|].
    by rewrite Hi.
  - intros host id. cbn. by rewrite lookup_empty.
  - intros t Hin. destruct (Ht _ Hin) as (x & Hx & Hok). cbn. rewrite list_lookup_imap, Hx. cbn. eexists. split; [done|].
    by case_decide.
Qed.

Lemma rejected_spec env p c c' r :
  get_http_proxy_pass APP_VERSION default_h2_livness_url get_ssh_session env ci p c = Ok (c', Reject r) -> c' = c.
Proof.
  unfold get_http_proxy_pass. destruct (request_host p) as [host|]; [|by intros [= <- _]].
  destruct (proxy_passes c !! _); [done|].
  destruct (Config.get_http_endpoint_info _ _) as [[e|]| |]; cbn [mbind outcome_bind]; [|by intros [= <- _]|done..].
  destruct (admit_endpoint APP_VERSION env ci e) as [[r'|]| |]; cbn [mbind outcome_bind]; [by intros [= <- _]| |done..].
  destruct (proxy_pass_new _ _ e _) as [x| |]; cbn [mbind outcome_bind]; [|done..]. by destruct (publish _ x _).
Qed.

Lemma act_ok hist n env a : env ∈ hist -> node_ok hist n -> node_ok hist (act n (env, a)).
Proof.
  intros He Hn. destruct a as [p incoming|i|i result|]; cbn [act].
  - destruct (get_http_proxy_pass _ _ _ _ _ _ _) as [[c [r|id]]| |] eqn:Hf; [|by eapply arrival_ok|done..].
    apply rejected_spec in Hf as ->. by destruct n.
  - destruct (tasks n !! i) as [t|] eqn:Hi; [|done]. destruct (advance env ci build_error t (conn n)) as [c t'] eqn:Ha.
    by eapply advance_ok.
  - destruct (tasks n !! i) as [t|] eqn:Hi; [|done]. destruct (t_phase t) as [| | |index r|r] eqn:Hph; [done..| |done].
    assert (t ∈ tasks n) as Hin by (by eapply list_elem_of_lookup_2). destruct (no_tasks _ _ Hn _ Hin) as (x & Hx & _).
    eapply request_step_ok; [done..|by left|done].
  - by apply dispose_ok.
Qed.

Lemma requests_ok hist n acts :
  node_ok hist n -> (forall x, x ∈ acts -> fst x ∈ hist) -> node_ok hist (fold_left act acts n).
Proof.
  revert n. induction acts as [|[env a] acts IH]; intros n Hn Hh; [done|]. cbn [fold_left]. apply IH.
  - apply act_ok; [|done]. apply (Hh (env, a)). by left.
  - intros y Hy. apply Hh. by right.
Qed.

(** C2: nothing leaves for an upstream unchecked over HTTP/2 either.  However
    the requests of a connection interleave, the configuration changes between
    their steps, and the connection is disposed, a request that is sent to an
    upstream belongs to an endpoint whose certificate authority and address
    list the connection met when it first asked for the host (over TLS), has
    passed the endpoint's OAuth gate and its sign-in itself, has found an
    allowed user in the proxy pass, who comes from the connection's own
    certificate or from a sign-in of a request of this connection to this
    proxy pass, and goes to the first location of its path, whose address
    list it meets, converted from what the client sent. *)
Theorem h2_nothing_passes_unchecked s acts t index r :
  let n := fold_left act acts (new_connection s) in
  let hist := map fst acts in
  t ∈ tasks n -> t_phase t = Sending index r ->
  exists x, passes (conn n) !! t_pass t = Some x /\
    admitted hist (endpoint_info x) /\ gates_open hist (endpoint_info x) (t_parts t) /\
    user_checked hist (requests_of n) (t_pass t) (endpoint_info x) /\
    prepared hist (requests_of n) (t_pass t) (endpoint_info x) (t_parts t) (t_incoming t) index r.
Proof.
  intros n hist Hin Hph. assert (node_ok hist n) as Hn.
  { apply requests_ok.
    - split; cbn; [done|intros host id; by rewrite lookup_empty|by intros ? ?%elem_of_nil].
    - intros x Hx. unfold hist. change (map fst) with (fmap (M:=list) (fst (A:=Dispatch.AppConfiguration) (B:=Action))).
      by apply list_elem_of_fmap_2. }
  destruct (no_tasks _ _ Hn _ Hin) as (x & Hx & Hok). unfold phase_ok in Hok. rewrite Hph in Hok.
  destruct Hok as (? & ? & ?). exists x. split_and!; try done. by destruct (no_passes _ _ Hn _ _ Hx).
Qed.

End Proofs.

(** ** The secret of a location *)

Section Secrets.
Context `{SliceOfU8Ext} `{H1Libs} `{RewriteLibs} `{RemoteEndpointLib} `{OAuthLibs} `{SerdeJson} `{GoogleLibs}
  `{DateTimeLib} `{FileLibs} `{HttpCrate} `{!HyperLibs}.
Context (iter_add : gmap bytes bytes -> list (bytes * bytes)) (iter_remove : gset bytes -> list bytes).
Context (order : gmap bytes AuthCodes.AuthCode -> list (bytes * AuthCodes.AuthCode)).
Context (APP_VERSION token_secret_key : bytes) (oc : bool).
Context (default_h2_livness_url : option bytes) (get_ssh_session : SshCredentials -> bool).
Context (starts_with_case_insensitive : bytes -> bytes -> bool).
Context (exchange : ContentSource.HttpProxyPassContentSource -> Request -> outcome ProxyPassError HttpResponse).
Context (dynamic_exchange : RemoteEndpointOwned -> bool -> Request -> outcome ProxyPassError HttpResponse).
Context (listen_host_text : Config.ListenHost -> bytes).

(** The configuration with every location's [auth_header] taken out. *)
Definition forget_secret (l : Config.ProxyPassLocationConfig) : Config.ProxyPassLocationConfig :=
  {| Config.path := Config.path l; Config.location_id := Config.location_id l; Config.id_string := Config.id_string l;
     Config.modify_request_headers := Config.modify_request_headers l;
     Config.modify_response_headers := Config.modify_response_headers l;
     Config.ip_white_list_id := Config.ip_white_list_id l; Config.domain_name := Config.domain_name l;
     Config.proxy_pass_to := Config.proxy_pass_to l; Config.compress := Config.compress l; Config.auth_header := None |}.

Definition forget_endpoint (e : Config.HttpEndpointInfo) : Config.HttpEndpointInfo :=
  {| Config.host_endpoint := Config.host_endpoint e; Config.debug := Config.debug e;
     Config.listen_endpoint_type := Config.listen_endpoint_type e; Config.g_auth := Config.g_auth e;
     Config.ssl_certificate_id := Config.ssl_certificate_id e; Config.client_certificate_id := Config.client_certificate_id e;
     Config.locations := map forget_secret (Config.locations e); Config.allowed_user_list_id := Config.allowed_user_list_id e;
     Config.whitelisted_ip_list_id := Config.whitelisted_ip_list_id e;
     Config.track_metrics_by_all_domains := Config.track_metrics_by_all_domains e; Config.mcp_settings := Config.mcp_settings e;
     Config.timeouts := Config.timeouts e;
     Config.heads := Config.heads e |}.

Definition forget_port (c : Config.HttpListenPortConfiguration) : Config.HttpListenPortConfiguration :=
  {| Config.endpoints := map forget_endpoint (Config.endpoints c); Config.port_endpoint_type := Config.port_endpoint_type c;
     Config.listen_host := Config.listen_host c |}.

Definition forget_info (ci : ConnectionInfo) : ConnectionInfo :=
  {| conn_ip := conn_ip ci; listen_port_config := forget_port (listen_port_config ci);
     client_certificate := client_certificate ci; over_tls := over_tls ci |}.

Definition forget_pass (x : ProxyPass) : ProxyPass :=
  {| endpoint_info := forget_endpoint (endpoint_info x); pass_identity := pass_identity x; sources := sources x;
     disposed := disposed x |}.

Definition forget_conn (c : Connection) : Connection :=
  {| proxy_passes := proxy_passes c; passes := map forget_pass (passes c); shared := shared c |}.

Lemma forget_pass_lookup c id : passes (forget_conn c) !! id = forget_pass <$> passes c !! id.
Proof. cbn. change (map ?f) with (fmap (M:=list) f). apply list_lookup_fmap. Qed.

Lemma find_location_forget ls path :
  Config.find_location_in (map forget_secret ls) path =
  match Config.find_location_in ls path with Ok l => Ok (option_map forget_secret l) | Err e => Err e | Panic => Panic end.
Proof.
  induction ls as [|l ls IH]; [done|]. cbn [map Config.find_location_in]. rewrite IH. cbn [Config.path forget_secret].
  case_decide; [done|]. destruct (Str.str_slice_to path _); cbn [mbind outcome_bind]; [|done..].
  by destruct (Str.eq_ignore_ascii_case _ _).
Qed.

Lemma gate_check_forget env e p context : gate_check env (forget_endpoint e) p context = gate_check env e p context.
Proof.
  unfold gate_check, resource_path, Config.find_location. cbn [Config.locations forget_endpoint].
  rewrite find_location_forget. by destruct (Config.find_location_in _ _) as [[l|]| |].
Qed.

Lemma run_oauth_gate_forget env e ip build_error p incoming s :
  run_oauth_gate_h2 order oc env (forget_endpoint e) ip build_error p incoming s =
  run_oauth_gate_h2 order oc env e ip build_error p incoming s.
Proof.
  unfold run_oauth_gate_h2. change (Config.oauth (forget_endpoint e)) with (Config.oauth e).
  destruct (Config.oauth e) as [id|]; [|done]. destruct (Dispatch.oauth_credentials env !! id) as [context|]; [|done].
  destruct (Route.route_oauth_path _) as [[route|]| |]; [|by rewrite gate_check_forget|done..].
  cbn [Config.locations forget_endpoint]. rewrite map_map. done.
Qed.

Lemma identify_forget env ci build_error id p incoming c :
  identify order token_secret_key oc env (forget_info ci) build_error id p incoming (forget_conn c) =
  let '(c', r) := identify order token_secret_key oc env ci build_error id p incoming c in (forget_conn c', r).
Proof.
  unfold identify. rewrite forget_pass_lookup. destruct (passes c !! id) as [x|]; [|done]. cbn [fmap option_fmap option_map].
  cbn [endpoint_info forget_pass conn_ip forget_info shared forget_conn disposed]. rewrite run_oauth_gate_forget.
  destruct (run_oauth_gate_h2 _ _ _ _ _ _ _ _ _) as [s [[|r]|e|]]; [|done..].
  destruct (disposed x); [done|]. change (handle_auth_with_g_auth token_secret_key env (forget_endpoint (endpoint_info x)) p)
    with (handle_auth_with_g_auth token_secret_key env (endpoint_info x) p).
  destruct (handle_auth_with_g_auth _ _ _ _) as [[[email|]|r|]|e|]; try done. f_equal.
  unfold on_pass, forget_conn. cbn. f_equal. change (map ?f) with (fmap (M:=list) f).
  apply list_eq. intros j. rewrite !list_lookup_fmap, !list_lookup_alter, !list_lookup_fmap. case_decide as Hj; [|done].
  subst j. by destruct (passes c !! id).
Qed.

Lemma check_user_forget env id c : check_user env id (forget_conn c) = check_user env id c.
Proof. unfold check_user. rewrite forget_pass_lookup. by destruct (passes c !! id). Qed.

Lemma find_index_forget ls u :
  find_location_index starts_with_case_insensitive (map forget_secret ls) u =
  find_location_index starts_with_case_insensitive ls u.
Proof.
  unfold find_location_index. change (map ?f) with (fmap (M:=list) f). rewrite list_find_fmap.
  change ((fun l => starts_with_case_insensitive (uri_path u) (Config.path l) = true) ∘ forget_secret)
    with (fun l => starts_with_case_insensitive (uri_path u) (Config.path l) = true).
  by destruct (list_find _ ls) as [[i l]|].
Qed.

Lemma prepare_forget env ci id p incoming c :
  prepare iter_add iter_remove starts_with_case_insensitive listen_host_text env (forget_info ci) id p incoming (forget_conn c) =
  prepare iter_add iter_remove starts_with_case_insensitive listen_host_text env ci id p incoming c.
Proof.
  unfold prepare. rewrite forget_pass_lookup. destruct (passes c !! id) as [x|]; [|done].
  cbn [fmap option_fmap option_map endpoint_info forget_pass Config.locations forget_endpoint].
  rewrite find_index_forget. destruct (find_location_index _ _ _) as [i| |]; cbn [mbind outcome_bind]; [|done..].
  change (map ?f) with (fmap (M:=list) f). rewrite list_lookup_fmap.
  by destruct (Config.locations (endpoint_info x) !! i) as [l|].
Qed.

Lemma respond_forget ci id index t result c :
  respond iter_add iter_remove (forget_info ci) id index t result (forget_conn c) =
  respond iter_add iter_remove ci id index t result c.
Proof.
  unfold respond. rewrite forget_pass_lookup. destruct (passes c !! id) as [x|]; [|done].
  cbn [fmap option_fmap option_map endpoint_info forget_pass disposed Config.locations forget_endpoint].
  destruct (disposed x); [done|]. change (map ?f) with (fmap (M:=list) f). rewrite list_lookup_fmap.
  by destruct (Config.locations (endpoint_info x) !! index) as [l|].
Qed.

(** Over HTTP/2 a location's secret protects nothing.  For every
    configuration, connection and request the answer, the request the
    upstream gets and what the connection keeps are what they would be had no
    location an [auth_header] at all. *)
Theorem location_secret_is_not_checked env ci build_error id p incoming c :
  send_payload iter_add iter_remove order token_secret_key oc starts_with_case_insensitive exchange dynamic_exchange
    listen_host_text env (forget_info ci) build_error id p incoming (forget_conn c) =
  let '(c', r) := send_payload iter_add iter_remove order token_secret_key oc starts_with_case_insensitive exchange
    dynamic_exchange listen_host_text env ci build_error id p incoming c in
  (forget_conn c', r).
Proof.
  unfold send_payload. rewrite identify_forget. destruct (identify _ _ _ _ _ _ _ _ _ _) as [c' step].
  f_equal. destruct step as [[r|u]|e|]; cbn [mbind outcome_bind]; [done| |done..].
  rewrite check_user_forget. destruct (check_user env id c'); cbn [mbind outcome_bind]; [|done..].
  rewrite prepare_forget. destruct (prepare _ _ _ _ _ _ _ _ _ _) as [[index t]| |]; cbn [mbind outcome_bind]; [|done..].
  rewrite forget_pass_lookup. destruct (passes c' !! id) as [x|]; cbn [fmap option_fmap option_map unwrap mbind outcome_bind]; [|done].
  change (sources (forget_pass x)) with (sources x).
  destruct (unwrap (sources x !! index)) as [src| |]; cbn [mbind outcome_bind]; [|done..].
  destruct (send_request _ _ _ _); cbn [mbind outcome_bind]; [|done..]. apply respond_forget.
Qed.

End Secrets.

(** ** Smaller properties *)

Section More.
Context `{SliceOfU8Ext} `{H1Libs} `{RewriteLibs} `{RemoteEndpointLib} `{OAuthLibs} `{SerdeJson} `{GoogleLibs}
  `{DateTimeLib} `{FileLibs} `{HttpCrate} `{!HyperLibs}.
Context (APP_VERSION token_secret_key : bytes) (default_h2_livness_url : option bytes) (get_ssh_session : SshCredentials -> bool).

(** The dynamic proxy goes only where it may.  With a list of allowed
    hosts, a request is sent only to an upstream whose host is on the list in
    any spelling, over TLS exactly for [https] and [wss], with that host as
    its only [Host] and without the header that named it. *)
Theorem dynamic_upstream_is_allowed config req endpoint tls sent :
  dynamic_request config req = Ok (endpoint, tls, sent) ->
  (forall allowed, Config.allowed_hosts config = Some allowed ->
     exists h, h ∈ allowed /\ Str.eq_ignore_ascii_case h (ProxyPassConfig.get_host endpoint) = true) /\
  (exists named, head (hm_values (bs "proxy-to") (headers (req_parts req))) = Some named /\
     endpoint_try_parse named = Ok endpoint) /\
  (tls = true <-> get_scheme endpoint = Some Https \/ get_scheme endpoint = Some Wss) /\
  hm_values (bs "host") (headers (req_parts sent)) = [get_host_port endpoint] /\
  hm_values (bs "proxy-to") (headers (req_parts sent)) = [] /\
  method (req_parts sent) = method (req_parts req) /\ req_body sent = req_body req.
Proof.
  unfold dynamic_request. rewrite get_values by reflexivity.
  destruct (head _) as [named|] eqn:Hn; cbn [ok_or mbind outcome_bind]; [|done].
  destruct (to_str named) as [text|] eqn:Ht; cbn [ok_or mbind outcome_bind]; [|done].
  apply to_str_spec in Ht as [-> _].
  destruct (endpoint_try_parse named) as [ep| |] eqn:Hp; cbn [map_err mbind outcome_bind]; [|done..].
  destruct (match Config.allowed_hosts config with Some _ => _ | None => _ end) eqn:Ha; cbn [negb]; [|done].
  destruct (parse_uri _) as [u|]; cbn [ok_or mbind outcome_bind]; [|done].
  destruct (header_value_ok _); cbn [negb]; [|done]. intros Hend.
  assert (endpoint = ep /\ (tls = true <-> get_scheme ep = Some Https \/ get_scheme ep = Some Wss) /\
    sent = {| req_parts := set_headers (hm_insert (bs "host") (get_host_port ep) (hm_remove (bs "proxy-to") (headers (req_parts req))))
                (set_uri u (req_parts req)); req_body := req_body req |}) as (-> & Htls & ->).
  { destruct (get_scheme ep) as [[| | | |]|]; simplify_eq; split_and!; try done; naive_solver. }
  split_and!; try done.
  - intros allowed Hl. rewrite Hl in Ha. apply existsb_exists in Ha as (h & Hin & Hh). exists h.
    split; [by apply list_elem_of_In|done].
  - by exists named.
  - cbn. by rewrite hm_insert_spec, decide_True by (done || by apply header_name_ok).
  - cbn. rewrite hm_insert_spec, decide_False by (done || by apply header_name_ok).
    by rewrite hm_remove_spec, header_name_ok, decide_True.
Qed.

(** The page of an error over HTTP/2 is a whole HTTP/1.1 response in a body:
    a status line and headers that are shown to the user. *)
Theorem tech_page_has_a_status_line err shown :
  Str.starts_with (bs "HTTP/1.1 ") (resp_body (generate_tech_page APP_VERSION err shown)) = true.
Proof. by destruct err as [| | | | |[| |]| | | | | | | | | | | | | | | |]. Qed.

(** Only the first cookie line of a request is read.  A client that spreads
    its cookies over several lines, as HTTP/2 lets it, is shown the sign-in
    page although it sends the cookie it was given, unless that happens to
    stand in the first line. *)
Theorem cookies_of_other_lines_are_not_read p p' first rest rest' name :
  hm_values (bs "cookie") (headers p) = first :: rest -> hm_values (bs "cookie") (headers p') = first :: rest' ->
  parts_cookie p name = parts_cookie p' name.
Proof. intros Hp Hp'. unfold parts_cookie. by rewrite !get_values, Hp, Hp'. Qed.

(** Without TLS no list of addresses is looked at: the endpoint's list, and
    whatever the configuration says, make no difference. *)
Theorem plain_http2_checks_no_address env env' ci p c :
  over_tls ci = false ->
  get_http_proxy_pass APP_VERSION default_h2_livness_url get_ssh_session env ci p c =
  get_http_proxy_pass APP_VERSION default_h2_livness_url get_ssh_session env' ci p c.
Proof.
  intros Ht. unfold get_http_proxy_pass. destruct (request_host p) as [host|]; [|done].
  destruct (proxy_passes c !! _); [done|].
  destruct (Config.get_http_endpoint_info _ _) as [[e|]| |]; cbn [mbind outcome_bind]; [|done..].
  unfold admit_endpoint. by rewrite Ht.
Qed.

(** A host that has a proxy pass on the connection is not checked again,
    whatever the configuration has become. *)
Theorem known_host_is_not_checked_again env ci p c host id :
  request_host p = Some host -> proxy_passes c !! Str.lower host = Some id ->
  get_http_proxy_pass APP_VERSION default_h2_livness_url get_ssh_session env ci p c = Ok (c, Pass id).
Proof. intros Hh Hm. unfold get_http_proxy_pass. by rewrite Hh, Hm. Qed.

End More.

(** ** Two users on one connection *)

#[local] Existing Instance reference_slice_ext.
#[local] Existing Instance H1.reference_h1_libs.
#[local] Existing Instance Config.text_endpoints.
#[local] Existing Instance ToyLibs.toy_libs.
#[local] Existing Instance Google.demo_google.
#[local] Existing Instance IpBlocklist.IpBlocklist.micros_lib.
#[local] Existing Instance Content.demo_files.
#[local] Existing Instance Hyper.demo_http.
#[local] Existing Instance Hyper.demo_hyper_libs.
#[local] Instance demo_json : SerdeJson := {| json_to_vec := fun _ => Some (bs "{}") |}.

(** The one placeholder the example has. *)
#[local] Instance demo_placeholders : RewriteLibs :=
  {| placeholders := fun v => if decide (v = bs "${CLIENT_CERT_CN}") then [Placeholder (bs "CLIENT_CERT_CN")] else [Text v];
     env_var := fun _ => None; lookup_country := fun _ => None |}.

Definition demo_prefix (path prefix : bytes) : bool := Str.starts_with (Str.lower prefix) (Str.lower path).

Definition demo_location : Config.ProxyPassLocationConfig :=
  Config.location_new (bs "/")
    (Some {| Rewrite.add_request := Some [(bs "x-user", bs "${CLIENT_CERT_CN}")]; Rewrite.add_response := None;
             Rewrite.remove_request := None; Rewrite.remove_response := None |})
    None (Config.Http1 (Config.demo_model (bs "h"))) None false None (bs "a.b:443") (fun _ => None) 1.

Definition demo_endpoint : Config.HttpEndpointInfo :=
  {| Config.host_endpoint := Config.demo_host; Config.debug := false; Config.listen_endpoint_type := Config.LHttps2;
     Config.g_auth := Some (bs "g"); Config.ssl_certificate_id := Some (bs "cert"); Config.client_certificate_id := None;
     Config.locations := [demo_location]; Config.allowed_user_list_id := Some (bs "staff");
     Config.whitelisted_ip_list_id := None; Config.track_metrics_by_all_domains := false; Config.mcp_settings := {| Config.mcp_read_timeout := 180; Config.mcp_write_timeout := 30; Config.mcp_buffer_size := 512 |};
     Config.timeouts := (180, 30);
     Config.heads := Rewrite.endpoint_new false true None true false
       {| Rewrite.global_modify_headers_settings := None; Rewrite.endpoint_modify_headers_settings := None |} |}.

Definition demo_env : Dispatch.AppConfiguration :=
  {| Dispatch.google_auth_credentials := Google.demo_creds; Dispatch.oauth_credentials := ∅;
     Dispatch.allowed_users := {[ bs "staff" := {[ bs "bob@a.b" ]} ]}; Dispatch.white_list_ip_list := ∅;
     Dispatch.now_secs := 0; Dispatch.now_micros := 0; Dispatch.random_code := [] |}.

Definition demo_info : ConnectionInfo :=
  {| conn_ip := Some {| ip_addr := WhiteList.V4 Byte.x0a Byte.x00 Byte.x00 Byte.x07; ip_text := bs "10.0.0.7" |};
     listen_port_config := Config.port_new demo_endpoint (Config.ListenTcp 443);
     client_certificate := None; over_tls := true |}.

(** A request with the cookie [email] was given. *)
Definition demo_request (email : bytes) : Parts :=
  {| method := bs "GET"; uri := {| du_host := Some (bs "a.b"); du_path_and_query := Some (bs "/") |}; version := HTTP_2;
     headers := [(bs "cookie", Google.AUTHORIZED_COOKIE_NAME ++ bs "=" ++ Google.generate [] (-86399999999) email)];
     protocol := None; on_upgrade := false |}.

Definition alice : bytes := bs "alice@a.b".
Definition bob : bytes := bs "bob@a.b".

Definition demo_act : Node -> Dispatch.AppConfiguration * Action -> Node :=
  act map_to_list elements map_to_list (bs "1") [] true None (fun _ => true) demo_prefix (fun _ => []) demo_info [].

Definition demo_start : Node := new_connection {| ip_blocklist := IpBlocklist.init; auth_codes := ∅ |}.

(** Alice's and Bob's requests arrive; Alice signs in, then Bob; then Alice's
    request goes on. *)
Definition demo_interleaving : list (Dispatch.AppConfiguration * Action) :=
  map (pair demo_env) [Arrives (demo_request alice) (Some []); Arrives (demo_request bob) (Some []);
                       Runs 0; Runs 1; Runs 0; Runs 0].

Definition demo_node : Node := fold_left demo_act demo_interleaving demo_start.

(** What the upstream is told of a request that is sent, and the error of one
    that is not. *)
Definition sent_as (i : nat) (n : Node) : option (list bytes) :=
  t ← tasks n !! i;
  match t_phase t with
  | Sending _ r => Some (hm_values (bs "x-user") (headers (req_parts (request r))))
  | _ => None
  end.

Definition refused_with (i : nat) (n : Node) : option ProxyPassError :=
  t ← tasks n !! i; match t_phase t with Finished (Err e) => Some e | _ => None end.

Definition signed_in_as (i : nat) (n : Node) : option bytes :=
  t ← tasks n !! i;
  match handle_auth_with_g_auth [] demo_env demo_endpoint (t_parts t) with Ok (Passed user) => user | _ => None end.

(** The identity of a connection is not that of its requests.  Of two
    people signed in on one HTTP/2 connection only Bob is on the list of
    allowed users; with his request between two steps of Alice's, her request
    is sent to the upstream, in his name, though alone it is refused. *)
Theorem identity_of_another_request :
  signed_in_as 0 demo_node = Some alice /\
  Config.is_allowed (Dispatch.allowed_users demo_env) (bs "staff") alice = false /\
  sent_as 0 demo_node = Some [bob] /\
  refused_with 0 (fold_left demo_act (map (pair demo_env) [Arrives (demo_request alice) (Some []); Runs 0; Runs 0]) demo_start)
    = Some UserIsForbidden.
Proof. split_and!; vm_compute; reflexivity. Qed.

Lemma demo_sent : sent_as 0 demo_node = Some [bob].
Proof. vm_compute. reflexivity. Qed.

Lemma sent_as_sending i n v :
  sent_as i n = Some v -> exists t index r, t ∈ tasks n /\ t_phase t = Sending index r.
Proof.
  unfold sent_as. destruct (tasks n !! i) as [t|] eqn:Ht; cbn [mbind option_bind]; [|done].
  destruct (t_phase t) as [| | |index r|] eqn:Hp; try done. exists t, index, r. split; [by eapply list_elem_of_lookup_2|done].
Qed.

Lemma h2_nothing_passes_unchecked_witness :
  exists t x, t ∈ tasks demo_node /\ passes (conn demo_node) !! t_pass t = Some x /\
    user_checked [] demo_info (map fst demo_interleaving) (requests_of demo_node) (t_pass t) (endpoint_info x).
Proof.
  destruct (sent_as_sending 0 demo_node _ demo_sent) as (t & index & r & Hin & Hp).
  destruct (h2_nothing_passes_unchecked map_to_list elements map_to_list (bs "1") [] true None (fun _ => true) demo_prefix
    (fun _ => []) demo_info [] {| ip_blocklist := IpBlocklist.init; auth_codes := ∅ |} demo_interleaving t index r Hin Hp)
    as (x & Hx & _ & _ & Hu & _).
  exists t, x. split; [exact Hin|]. split; [exact Hx|exact Hu].
Defined.

Definition demo_dynamic : Config.DynamicProxyConfig :=
  {| Config.dyn_request_timeout := 1; Config.dyn_connect_timeout := 1; Config.allowed_hosts := Some [bs "Up"] |}.

Definition demo_dynamic_request : Request :=
  {| req_parts := {| method := bs "GET"; uri := {| du_host := None; du_path_and_query := Some (bs "/y") |}; version := HTTP_11;
                     headers := [(bs "host", bs "a.b"); (bs "proxy-to", bs "up")]; protocol := None; on_upgrade := false |};
     req_body := [] |}.

Definition demo_dynamic_sent : Request :=
  {| req_parts := {| method := bs "GET"; uri := {| du_host := None; du_path_and_query := Some (bs "/y") |}; version := HTTP_11;
                     headers := [(bs "host", bs "up")]; protocol := None; on_upgrade := false |};
     req_body := [] |}.

Lemma dynamic_upstream_is_allowed_witness :
  exists h, h ∈ [bs "Up"] /\ Str.eq_ignore_ascii_case h (bs "up") = true.
Proof.
  assert (dynamic_request demo_dynamic demo_dynamic_request = Ok (bs "up", false, demo_dynamic_sent)) as Hd by reflexivity.
  destruct (dynamic_upstream_is_allowed demo_dynamic demo_dynamic_request _ _ _ Hd) as (Ha & _).
  exact (Ha [bs "Up"] eq_refl).
Defined.

End HyperProxy.
