(* ===== verification/Settings.v ===== *)
(** * Settings: [settings/*.rs], [settings_compiled/*.rs]

    The settings as they are written in the files, the variables that are
    substituted in them, the files they are gathered from, and the time-outs
    that are given on three levels.  YAML, the file system and the environment
    are outside. *)

From Stdlib Require Import ZArith Lia Strings.String Strings.Byte.
From stdpp Require Import base tactics list gmap sorting strings.
From S2P Require Import Prelude RustStd H1Headers H1Rewrite ProxyPassConfig OAuthTokens OAuthServer ContentSource.

Local Open Scope Z_scope.

Module Settings.

(** [Duration::from_millis] *)
Definition from_millis (ms : Z) : Z := Duration.from_micros (ms * 1000).

(** ** Time-outs: [timeouts_settings.rs] *)

Definition DEFAULT_HTTP_REQUEST_TIMEOUT : Z := Duration.from_secs 15.
Definition DEFAULT_WRITE_TIMEOUT : Z := Duration.from_secs 30.
Definition DEFAULT_MCP_BUFFER_SIZE : Z := 512 * 1024.

Record TimeoutsSettings := {
  set_connect_timeout : option Z;
  set_request_timeout : option Z;
  set_read_timeout : option Z;
  set_write_timeout : option Z;
  set_pool_size : option Z;
  set_pool_ping_timeout : option Z;
  set_pool_hot_window : option Z
}.

Definition timeouts_default : TimeoutsSettings :=
  {| set_connect_timeout := None; set_request_timeout := None; set_read_timeout := None; set_write_timeout := None;
     set_pool_size := None; set_pool_ping_timeout := None; set_pool_hot_window := None |}.

(** [a.or(b)] *)
Definition or {A} (a b : option A) : option A := match a with Some _ => a | None => b end.

Definition overriden_by (self higher : TimeoutsSettings) : TimeoutsSettings :=
  {| set_connect_timeout := or (set_connect_timeout higher) (set_connect_timeout self);
     set_request_timeout := or (set_request_timeout higher) (set_request_timeout self);
     set_read_timeout := or (set_read_timeout higher) (set_read_timeout self);
     set_write_timeout := or (set_write_timeout higher) (set_write_timeout self);
     set_pool_size := or (set_pool_size higher) (set_pool_size self);
     set_pool_ping_timeout := or (set_pool_ping_timeout higher) (set_pool_ping_timeout self);
     set_pool_hot_window := or (set_pool_hot_window higher) (set_pool_hot_window self) |}.

Record ResolvedTimeouts := {
  connect_timeout : Z;
  request_timeout : Z;
  read_timeout : Z;
  write_timeout : Z;
  pool_size : Z;
  pool_ping_timeout : Z;
  pool_hot_window : Z
}.

Definition ms_or (value : option Z) (default : Z) : Z :=
  match value with Some value => from_millis value | None => default end.

Definition resolve (t : TimeoutsSettings) : ResolvedTimeouts :=
  {| connect_timeout := ms_or (set_connect_timeout t) ContentSource.DEFAULT_HTTP_CONNECT_TIMEOUT;
     request_timeout := ms_or (set_request_timeout t) DEFAULT_HTTP_REQUEST_TIMEOUT;
     read_timeout := ms_or (set_read_timeout t) ContentSource.DEFAULT_READ_TIMEOUT;
     write_timeout := ms_or (set_write_timeout t) DEFAULT_WRITE_TIMEOUT;
     pool_size := default ContentSource.DEFAULT_POOL_SIZE (set_pool_size t);
     pool_ping_timeout := ms_or (set_pool_ping_timeout t) ContentSource.DEFAULT_POOL_PING_TIMEOUT;
     pool_hot_window := ms_or (set_pool_hot_window t) ContentSource.DEFAULT_POOL_HOT_WINDOW |}.

(** ** Buffer sizes: [buffer_size.rs] *)

(** [strip_suffix] *)
Definition strip_suffix (p l : bytes) : option bytes :=
  if Str.ends_with p l then Some (take (length l - length p) l) else None.

(** The [Display] of the [ParseIntError] of [usize]: digits are read from the
    left, and the first that is none, or that makes the number too large,
    decides. *)
Fixpoint int_error (l : bytes) (acc : Z) : bytes :=
  match l with
  | [] => []
  | b :: l =>
      if negb (Str.is_digit b) then bs "invalid digit found in string"
      else
        let acc := acc * 10 + (u8 b - 48) in
        if 2 ^ 64 - 1 <? acc then bs "number too large to fit in target type" else int_error l acc
  end.

Definition parse_int_error (l : bytes) : bytes :=
  match l with
  | [] => bs "cannot parse integer from empty string"
  | [_] => bs "invalid digit found in string"
  | b :: _ => int_error (if bool_decide (b = Byte.x2b) then tail l else l) 0
  end.

Definition parse_usize (value text : bytes) : outcome bytes Z :=
  ok_or (Str.parse_uint (2 ^ 64 - 1) text)
    (bs "Can not parse buffer size value: '" ++ value ++ bs "'. Error: " ++ parse_int_error text).

(** [oc]: whether the build checks for overflow. *)
Definition parse_buffer_size (oc : bool) (value : bytes) : outcome bytes Z :=
  match strip_suffix (bs "Kb") value with
  | Some kb => v ← parse_usize value (Str.trim kb); usize_op oc (v * 1024)
  | None =>
      match strip_suffix (bs "Mb") value with
      | Some mb => v ← parse_usize value (Str.trim mb); v ← usize_op oc (v * 1024); usize_op oc (v * 1024)
      | None => parse_usize value value
      end
  end.

(** ** The settings model *)

Record AddHttpHeadersSettings := {
  request_to_add : option (list (bytes * bytes));
  response_to_add : option (list (bytes * bytes))
}.
Record RemoveHttpHeadersSettings := {
  request_to_remove : option (list bytes);
  response_to_remove : option (list bytes)
}.
Record ModifyHttpHeadersSettings := {
  add : option AddHttpHeadersSettings;
  remove : option RemoveHttpHeadersSettings
}.

(** The same settings for [ModifyHeadersConfig], which looks through both
    options at once. *)
Definition modify_settings (m : ModifyHttpHeadersSettings) : Rewrite.ModifyHttpHeadersSettings :=
  {| Rewrite.add_request := add m ≫= request_to_add; Rewrite.add_response := add m ≫= response_to_add;
     Rewrite.remove_request := remove m ≫= request_to_remove;
     Rewrite.remove_response := remove m ≫= response_to_remove |}.

Record EndpointSettings := {
  endpoint_type : bytes;
  ssl_certificate : option bytes;
  client_certificate_ca : option bytes;
  google_auth : option bytes;
  oauth : option bytes;
  modify_http_headers : option ModifyHttpHeadersSettings;
  debug : option bool;
  inject_country : option bool;
  whitelisted_ip : option bytes;
  template_id : option bytes;
  allowed_users : option bytes;
  keep_alive : option bool;
  track_metrics_by_all_domains : option bool;
  hsts : option bool;
  mcp_buffer_size : option bytes;
  timeouts : TimeoutsSettings
}.

Definition get_debug (e : EndpointSettings) : bool := default false (debug e).
Definition get_inject_country (e : EndpointSettings) : bool := default false (inject_country e).

(** A size that can not be parsed is a panic. *)
Definition get_mcp_buffer_size (oc : bool) (e : EndpointSettings) : outcome bytes Z :=
  match mcp_buffer_size e with
  | Some buffer_size => match parse_buffer_size oc buffer_size with Ok n => Ok n | Err _ | Panic => Panic end
  | None => Ok DEFAULT_MCP_BUFFER_SIZE
  end.

Inductive EndpointTypeSettings := Http1 | Http2 | Https1 | Https2 | Tcp | Mcp.

Definition get_endpoint_type (e : EndpointSettings) : outcome bytes EndpointTypeSettings :=
  let t := endpoint_type e in
  if decide (t = bs "http") then Ok Http1
  else if decide (t = bs "http2") then Ok Http2
  else if decide (t = bs "https") then Ok Https1
  else if decide (t = bs "http1") then Ok Https1
  else if decide (t = bs "https2") then Ok Https2
  else if decide (t = bs "tcp") then Ok Tcp
  else if decide (t = bs "mcp") then Ok Mcp
  else Err (bs "Unknown endpoint type: '" ++ t ++ bs "'").

Record LocationSettings := {
  loc_path : option bytes;
  loc_proxy_pass_to : option bytes;
  location_type : option bytes;
  loc_domain_name : option bytes;
  loc_modify_http_headers : option ModifyHttpHeadersSettings;
  loc_default_file : option bytes;
  loc_status_code : option Z;
  loc_content_type : option bytes;
  loc_body : option bytes;
  loc_whitelisted_ip : option bytes;
  loc_compress : option bool;
  trace_payload : option bool;
  loc_auth_header : option bytes;
  loc_allowed_hosts : option (list bytes);
  loc_timeouts : TimeoutsSettings
}.

Inductive LocationType :=
  | LocHttp | LocHttp2 | LocHttps1 | LocHttps2 | LocFiles | LocStaticContent | LocUnixSocketHttp | LocUnixSocketHttp2
  | LocMcp | LocMcpH2 | LocDrop | LocDynamicProxy.

(** What names no other kind is a path of files. *)
Definition detect_from_location_settings (l : LocationSettings) : outcome bytes LocationType :=
  match loc_proxy_pass_to l with
  | None => Ok LocStaticContent
  | Some src =>
      if Str.eq_ignore_ascii_case src (bs "static") then Ok LocStaticContent
      else if Str.eq_ignore_ascii_case src (bs "drop") then Ok LocDrop
      else if Str.eq_ignore_ascii_case src (bs "dynamic") || Str.eq_ignore_ascii_case src (bs "dynamic_proxy")
      then Ok LocDynamicProxy
      else
        let splitted := Config.split_str (bs "->") src in
        left_part ← unwrap (splitted !! 0%nat);
        let left_part := default left_part (splitted !! 1%nat) in
        Ok (if Str.starts_with (bs "unix+http2") left_part then LocUnixSocketHttp2
            else if Str.starts_with (bs "unix+http") left_part then LocUnixSocketHttp
            else if Str.starts_with (bs "https") left_part then LocHttps1
            else if Str.starts_with (bs "http") left_part then LocHttp
            else LocFiles)
  end.

Definition location_types : list (bytes * LocationType) :=
  [(bs "unix+http", LocUnixSocketHttp); (bs "unix+http2", LocUnixSocketHttp2); (bs "http", LocHttp);
   (bs "http2", LocHttp2); (bs "https", LocHttps1); (bs "https1", LocHttps1); (bs "https2", LocHttps2);
   (bs "static", LocStaticContent); (bs "mcp", LocMcp); (bs "mcp-h2", LocMcpH2); (bs "drop", LocDrop);
   (bs "dynamic", LocDynamicProxy); (bs "dynamic_proxy", LocDynamicProxy)].

Definition get_location_type (l : LocationSettings) : outcome bytes (option LocationType) :=
  match location_type l with
  | None => Ok None
  | Some t =>
      match list_find (fun x => fst x = t) location_types with
      | Some (_, (_, r)) => Ok (Some r)
      | None => Err (bs "Unknown remote location type " ++ t)
      end
  end.

Definition get_compress (l : LocationSettings) : bool := default false (loc_compress l).

Record HostSettings := { endpoint : EndpointSettings; locations : list LocationSettings }.

Record EndpointTemplateSettings := {
  tpl_ssl_certificate : option bytes;
  tpl_client_certificate_ca : option bytes;
  tpl_google_auth : option bytes;
  tpl_oauth : option bytes;
  tpl_modify_http_headers : option ModifyHttpHeadersSettings;
  tpl_whitelisted_ip : option bytes
}.

Record GoogleAuthSettings := { g_client_id : bytes; g_client_secret : bytes; g_whitelisted_domains : bytes }.
Record SslCertificatesSettingsModel := { ssl_id : bytes; certificate : option bytes; private_key : option bytes }.
Record ClientCertificateCaSettings := { ca_id : bytes; ca : bytes; revocation_list : option bytes }.
Record SshConfigSettings := { password : option bytes; private_key_file : option bytes; passphrase : option bytes }.
Record GatewayServerSettings := {
  gs_port : Z;
  authorized_keys : list bytes;
  allowed_ip : option (list bytes);
  gs_debug : option bool
}.
Record GatewayClientSettings := {
  gc_remote_host : bytes;
  gc_ssh_credentials : bytes;
  gc_compress : option bool;
  gc_debug : option bool;
  allow_incoming_forward_connections : option bool;
  gc_connect_timeout : option Z;
  sync_ssl_certificates : option (list bytes)
}.
Record ConnectionsSettings := {
  buffer_size : option bytes;
  connect_to_remote_timeout : option Z;
  session_key : option bytes
}.
Record GlobalSettings := {
  connection_settings : option ConnectionsSettings;
  all_http_endpoints : option (option ModifyHttpHeadersSettings);
  show_error_description_on_error_page : option bool;
  http_control_port : option Z;
  default_h2_livness_url : option bytes;
  ip_blocklist_white_list : option (list bytes);
  pool_supervisor_interval : option Z;
  global_timeouts : TimeoutsSettings
}.

(** [SslCertificatesSettingsModel::get_sources]: both sources, or none. *)
Definition get_sources (c : SslCertificatesSettingsModel) : outcome bytes (option (bytes * bytes)) :=
  let given (o : option bytes) := s ← o; if decide (Str.trim s = []) then None else Some s in
  match given (certificate c), given (private_key c) with
  | None, None => Ok None
  | Some cert, Some private_key => Ok (Some (cert, private_key))
  | _, _ =>
      Err (bs "SSL certificate '" ++ ssl_id c ++
           bs "' must specify both 'certificate' and 'private_key', or neither (manual init via Swagger).")
  end.

Record SettingsModel := {
  sm_hosts : gmap bytes HostSettings;
  sm_include : option (list bytes);
  sm_dynamic_configurations_file : option bytes;
  sm_variables : option (gmap bytes bytes);
  sm_ssl_certificates : option (list SslCertificatesSettingsModel);
  sm_client_certificate_ca : option (list ClientCertificateCaSettings);
  sm_global_settings : option GlobalSettings;
  sm_g_auth : option (gmap bytes GoogleAuthSettings);
  sm_oauth : option (gmap bytes OAuth.OAuthSettings);
  sm_ssh : option (gmap bytes SshConfigSettings);
  sm_endpoint_templates : option (gmap bytes EndpointTemplateSettings);
  sm_allowed_users : option (gmap bytes (list bytes));
  sm_ip_white_lists : option (gmap bytes (list bytes));
  sm_gateway_server : option GatewayServerSettings;
  sm_gateway_clients : option (gmap bytes GatewayClientSettings)
}.

(** [SettingsCompiled] *)
Record SettingsCompiled := {
  ssh : gmap bytes SshConfigSettings;
  hosts : gmap bytes HostSettings;
  ssl_certificates : list SslCertificatesSettingsModel;
  client_certificate_cas : list ClientCertificateCaSettings;
  global_settings : option GlobalSettings;
  g_auth : gmap bytes GoogleAuthSettings;
  oauth_blocks : gmap bytes OAuth.OAuthSettings;
  endpoint_templates : gmap bytes EndpointTemplateSettings;
  users_lists : gmap bytes (list bytes);
  ip_white_lists : gmap bytes (list bytes);
  gateway_server : option GatewayServerSettings;
  gateway_clients : gmap bytes GatewayClientSettings
}.

Definition compiled_default : SettingsCompiled :=
  {| ssh := ∅; hosts := ∅; ssl_certificates := []; client_certificate_cas := []; global_settings := None; g_auth := ∅;
     oauth_blocks := ∅; endpoint_templates := ∅; users_lists := ∅; ip_white_lists := ∅; gateway_server := None;
     gateway_clients := ∅ |}.

(** ** Variables: [variables_compiled.rs] *)

Inductive VariableNameType := ReservedName | VariableName.

Definition is_ascii_uppercase (b : byte) : bool := (65 <=? u8 b) && (u8 b <=? 90).
Definition is_ascii_lowercase (b : byte) : bool := (97 <=? u8 b) && (u8 b <=? 122).

Fixpoint name_loop (src cs : bytes) (has_upper_case has_lower_case : bool) : outcome bytes VariableNameType :=
  match cs with
  | [] => Ok (if has_upper_case then ReservedName else VariableName)
  | c :: cs =>
      let has_lower_case := if is_ascii_uppercase c then has_lower_case else has_lower_case || is_ascii_lowercase c in
      let has_upper_case := has_upper_case || is_ascii_uppercase c in
      if has_upper_case && has_lower_case then
        Err (bs "Env variable " ++ src ++ bs " has to be ether UPPER_CASED or lower_cased")
      else name_loop src cs has_upper_case has_lower_case
  end.

Definition name_characteristics (src : bytes) : outcome bytes VariableNameType := name_loop src src false false.

Section Variables.
Context `{RewriteLibs}.

(** [VariablesCompiled] is the map [data]; [variables] are those of a file in
    the order the map of the file is walked through. *)
Definition merge (variables : list (bytes * bytes)) (data : gmap bytes bytes) : gmap bytes bytes :=
  fold_left (fun data '(key, value) => <[key := value]> data) variables data.

Definition token_text (data : gmap bytes bytes) (t : ContentToken) : outcome bytes bytes :=
  match t with
  | Text text => Ok text
  | Placeholder placeholder =>
      name_type ← name_characteristics placeholder;
      match name_type with
      | ReservedName => Ok (bs "${" ++ placeholder ++ bs "}")
      | VariableName =>
          match data !! placeholder with
          | Some value => Ok value
          | None =>
              match env_var placeholder with
              | Some value => Ok value
              | None => Err (bs "Variable " ++ placeholder ++ bs " not found")
              end
          end
      end
  end.

Fixpoint push_tokens (data : gmap bytes bytes) (ts : list ContentToken) (result : bytes) : outcome bytes bytes :=
  match ts with
  | [] => Ok result
  | t :: ts => text ← token_text data t; push_tokens data ts (result ++ text)
  end.

Definition apply_variables (data : gmap bytes bytes) (value : bytes) : outcome bytes bytes :=
  if negb (Rewrite.has_placeholder value) then Ok value else push_tokens data (placeholders value) [].

Definition apply_variables_opt (data : gmap bytes bytes) (value : option bytes) : outcome bytes (option bytes) :=
  match value with None => Ok None | Some value => Some <$> apply_variables data value end.

(** ** Substitution in the settings: [populate_*.rs] *)

(** A loop that pushes what it makes of each item, and returns the first
    error. *)
Fixpoint populate_vec {A B} (f : A -> outcome bytes B) (src : list A) : outcome bytes (list B) :=
  match src with
  | [] => Ok []
  | itm :: src => itm ← f itm; rest ← populate_vec f src; Ok (itm :: rest)
  end.

Definition populate_opt {A B} (f : A -> outcome bytes B) (src : option A) : outcome bytes (option B) :=
  match src with None => Ok None | Some itm => Some <$> f itm end.

(** A loop over a map that inserts what it makes of each entry. *)
Fixpoint populate_map {A B} (f : bytes * A -> outcome bytes (bytes * B)) (src : list (bytes * A)) (m : gmap bytes B) :
    outcome bytes (gmap bytes B) :=
  match src with
  | [] => Ok m
  | itm :: src => kv ← f itm; populate_map f src (<[kv.1 := kv.2]> m)
  end.

(** The order in which the map of a file is walked through. *)
Context (iter : forall A, gmap bytes A -> list (bytes * A)).

Definition take_map {A} (o : option (gmap bytes A)) : list (bytes * A) := match o with Some m => iter A m | None => [] end.

Section Populate.
Context (data : gmap bytes bytes).
#[local] Abbreviation ap := (apply_variables data).
#[local] Abbreviation apo := (apply_variables_opt data).

Definition populate_add_header (src : option (list (bytes * bytes))) : outcome bytes (option (list (bytes * bytes))) :=
  populate_opt (populate_vec (fun itm => name ← ap (fst itm); value ← ap (snd itm); Ok (name, value))) src.

Definition populate_vec_of_string (src : list bytes) : outcome bytes (list bytes) := populate_vec ap src.
Definition populate_vec_of_string_opt (src : option (list bytes)) : outcome bytes (option (list bytes)) :=
  populate_opt populate_vec_of_string src.

Definition populate_modify_http_headers_settings (modify_http_headers : option ModifyHttpHeadersSettings) :
    outcome bytes (option ModifyHttpHeadersSettings) :=
  match modify_http_headers with
  | None => Ok None
  | Some src =>
      match add src, remove src with
      | None, None => Ok None
      | src_add, src_remove =>
          a ← populate_opt (fun a => request ← populate_add_header (request_to_add a);
                                     response ← populate_add_header (response_to_add a);
                                     Ok {| request_to_add := request; response_to_add := response |}) src_add;
          r ← populate_opt (fun r => request ← populate_vec_of_string_opt (request_to_remove r);
                                     response ← populate_vec_of_string_opt (response_to_remove r);
                                     Ok {| request_to_remove := request; response_to_remove := response |}) src_remove;
          Ok (Some {| add := a; remove := r |})
      end
  end.

Definition compile_location (l : LocationSettings) : outcome bytes LocationSettings :=
  path ← apo (loc_path l);
  proxy_pass_to ← apo (loc_proxy_pass_to l);
  location_type ← apo (location_type l);
  domain_name ← apo (loc_domain_name l);
  modify_http_headers ← populate_modify_http_headers_settings (loc_modify_http_headers l);
  default_file ← apo (loc_default_file l);
  content_type ← apo (loc_content_type l);
  body ← apo (loc_body l);
  whitelisted_ip ← apo (loc_whitelisted_ip l);
  auth_header ← apo (loc_auth_header l);
  Ok {| loc_path := path; loc_proxy_pass_to := proxy_pass_to; location_type := location_type;
        loc_domain_name := domain_name; loc_modify_http_headers := modify_http_headers;
        loc_default_file := default_file; loc_status_code := loc_status_code l; loc_content_type := content_type;
        loc_body := body; loc_whitelisted_ip := whitelisted_ip; loc_compress := loc_compress l;
        trace_payload := trace_payload l; loc_auth_header := auth_header; loc_allowed_hosts := loc_allowed_hosts l;
        loc_timeouts := loc_timeouts l |}.

Definition compile_locations (l : list LocationSettings) : outcome bytes (list LocationSettings) :=
  populate_vec compile_location l.

Definition populate_host (host : bytes * HostSettings) : outcome bytes (bytes * HostSettings) :=
  host_id ← ap (fst host);
  locations ← compile_locations (locations (snd host));
  let e := endpoint (snd host) in
  endpoint_type ← ap (endpoint_type e);
  ssl_certificate ← apo (ssl_certificate e);
  client_certificate_ca ← apo (client_certificate_ca e);
  google_auth ← apo (google_auth e);
  oauth ← apo (oauth e);
  modify_http_headers ← populate_modify_http_headers_settings (modify_http_headers e);
  whitelisted_ip ← apo (whitelisted_ip e);
  template_id ← apo (template_id e);
  allowed_users ← apo (allowed_users e);
  mcp_buffer_size ← apo (mcp_buffer_size e);
  Ok (host_id,
      {| endpoint :=
           {| endpoint_type := endpoint_type; ssl_certificate := ssl_certificate;
              client_certificate_ca := client_certificate_ca; google_auth := google_auth; oauth := oauth;
              modify_http_headers := modify_http_headers; debug := debug e; inject_country := inject_country e;
              whitelisted_ip := whitelisted_ip; template_id := template_id; allowed_users := allowed_users;
              keep_alive := keep_alive e; track_metrics_by_all_domains := track_metrics_by_all_domains e;
              hsts := hsts e; mcp_buffer_size := mcp_buffer_size; timeouts := timeouts e |};
         locations := locations |}).

Definition populate_ssh_config (x : bytes * SshConfigSettings) : outcome bytes (bytes * SshConfigSettings) :=
  p ← apo (password (snd x)); k ← apo (private_key_file (snd x)); phrase ← apo (passphrase (snd x));
  Ok (fst x, {| password := p; private_key_file := k; passphrase := phrase |}).

Definition populate_ssl_certificate (x : SslCertificatesSettingsModel) : outcome bytes SslCertificatesSettingsModel :=
  id ← ap (ssl_id x); c ← apo (certificate x); k ← apo (private_key x);
  Ok {| ssl_id := id; certificate := c; private_key := k |}.

Definition populate_ca_certificate (x : ClientCertificateCaSettings) : outcome bytes ClientCertificateCaSettings :=
  id ← ap (ca_id x); c ← ap (ca x); r ← apo (revocation_list x);
  Ok {| ca_id := id; ca := c; revocation_list := r |}.

Definition populate_global (g : GlobalSettings) : outcome bytes GlobalSettings :=
  all_http_endpoints ← populate_opt populate_modify_http_headers_settings (all_http_endpoints g);
  Ok {| connection_settings := connection_settings g; all_http_endpoints := all_http_endpoints;
        show_error_description_on_error_page := show_error_description_on_error_page g;
        http_control_port := http_control_port g; default_h2_livness_url := default_h2_livness_url g;
        ip_blocklist_white_list := ip_blocklist_white_list g; pool_supervisor_interval := pool_supervisor_interval g;
        global_timeouts := global_timeouts g |}.

Definition populate_g_auth (x : bytes * GoogleAuthSettings) : outcome bytes (bytes * GoogleAuthSettings) :=
  key ← ap (fst x); i ← ap (g_client_id (snd x)); s ← ap (g_client_secret (snd x));
  d ← ap (g_whitelisted_domains (snd x));
  Ok (key, {| g_client_id := i; g_client_secret := s; g_whitelisted_domains := d |}).

Definition populate_oauth (x : bytes * OAuth.OAuthSettings) : outcome bytes (bytes * OAuth.OAuthSettings) :=
  key ← ap (fst x); i ← ap (OAuth.client_id (snd x)); s ← ap (OAuth.client_secret (snd x));
  p ← ap (OAuth.consent_password (snd x)); u ← apo (OAuth.set_public_url (snd x));
  k ← apo (OAuth.set_signing_key (snd x)); f ← apo (OAuth.set_signing_key_file (snd x));
  Ok (key, {| OAuth.client_id := i; OAuth.client_secret := s; OAuth.consent_password := p; OAuth.set_public_url := u;
              OAuth.set_signing_key := k; OAuth.set_signing_key_file := f;
              OAuth.set_access_token_ttl_sec := OAuth.set_access_token_ttl_sec (snd x);
              OAuth.set_refresh_token_ttl_sec := OAuth.set_refresh_token_ttl_sec (snd x) |}).

Definition populate_endpoint_template (x : bytes * EndpointTemplateSettings) :
    outcome bytes (bytes * EndpointTemplateSettings) :=
  let t := snd x in
  key ← ap (fst x); s ← apo (tpl_ssl_certificate t); c ← apo (tpl_client_certificate_ca t);
  g ← apo (tpl_google_auth t); o ← apo (tpl_oauth t);
  m ← populate_modify_http_headers_settings (tpl_modify_http_headers t); w ← apo (tpl_whitelisted_ip t);
  Ok (key, {| tpl_ssl_certificate := s; tpl_client_certificate_ca := c; tpl_google_auth := g; tpl_oauth := o;
              tpl_modify_http_headers := m; tpl_whitelisted_ip := w |}).

Definition populate_string_list (x : bytes * list bytes) : outcome bytes (bytes * list bytes) :=
  key ← ap (fst x); items ← populate_vec_of_string (snd x); Ok (key, items).

Definition populate_gateway_server (g : GatewayServerSettings) : outcome bytes GatewayServerSettings :=
  keys ← populate_vec_of_string (authorized_keys g);
  Ok {| gs_port := gs_port g; authorized_keys := keys; allowed_ip := allowed_ip g; gs_debug := gs_debug g |}.

Definition populate_gateway_client (x : bytes * GatewayClientSettings) : outcome bytes (bytes * GatewayClientSettings) :=
  let c := snd x in
  key ← ap (fst x); h ← ap (gc_remote_host c); s ← ap (gc_ssh_credentials c);
  Ok (key, {| gc_remote_host := h; gc_ssh_credentials := s; gc_compress := gc_compress c; gc_debug := gc_debug c;
              allow_incoming_forward_connections := allow_incoming_forward_connections c;
              gc_connect_timeout := gc_connect_timeout c; sync_ssl_certificates := sync_ssl_certificates c |}).

(** The calls of [populate] for one file, in their order. *)
Definition populate_file (m : SettingsModel) (self : SettingsCompiled) : outcome bytes SettingsCompiled :=
  hosts ← populate_map populate_host (iter _ (sm_hosts m)) (hosts self);
  ssh ← populate_map populate_ssh_config (take_map (sm_ssh m)) (ssh self);
  ssl ← populate_vec populate_ssl_certificate (default [] (sm_ssl_certificates m));
  cas ← populate_vec populate_ca_certificate (default [] (sm_client_certificate_ca m));
  global ← populate_opt populate_global (sm_global_settings m);
  g_auth ← populate_map populate_g_auth (take_map (sm_g_auth m)) (g_auth self);
  oauth ← populate_map populate_oauth (take_map (sm_oauth m)) (oauth_blocks self);
  templates ← populate_map populate_endpoint_template (take_map (sm_endpoint_templates m)) (endpoint_templates self);
  users ← populate_map populate_string_list (take_map (sm_allowed_users m)) (users_lists self);
  ips ← populate_map populate_string_list (take_map (sm_ip_white_lists m)) (ip_white_lists self);
  server ← populate_opt populate_gateway_server (sm_gateway_server m);
  clients ← populate_map populate_gateway_client (take_map (sm_gateway_clients m)) (gateway_clients self);
  Ok {| ssh := ssh; hosts := hosts; ssl_certificates := ssl_certificates self ++ ssl;
        client_certificate_cas := client_certificate_cas self ++ cas; global_settings := or global (global_settings self);
        g_auth := g_auth; oauth_blocks := oauth; endpoint_templates := templates; users_lists := users;
        ip_white_lists := ips; gateway_server := or server (gateway_server self); gateway_clients := clients |}.
End Populate.

Definition merge_files (files : list SettingsModel) : gmap bytes bytes :=
  fold_left (fun data m => merge (take_map (sm_variables m)) data) files ∅.

Fixpoint populate_files (data : gmap bytes bytes) (files : list SettingsModel) (self : SettingsCompiled) :
    outcome bytes SettingsCompiled :=
  match files with
  | [] => Ok self
  | m :: files => self ← populate_file data m self; populate_files data files self
  end.

(** [populate]: the main file, then what it includes; the variables of all of
    them are gathered first. *)
Definition populate (settings_model : SettingsModel) (include_settings : list SettingsModel) :
    outcome bytes SettingsCompiled :=
  let files := settings_model :: include_settings in
  populate_files (merge_files files) files compiled_default.

(** ** Reading the files *)

(** [file_utils::format_path], the file system, and [serde_yaml], whose errors
    are texts. *)
Context (format_path : bytes -> bytes) (read_file : bytes -> option bytes) (path_exists : bytes -> bool).
Context (yaml_from_slice : bytes -> outcome bytes SettingsModel).

(** [SettingsModel::load]; [load_async] differs in how it waits. *)
Definition load (file_name : option bytes) : outcome bytes SettingsModel :=
  file_name ←
    match file_name with
    | Some file_name => Ok (format_path file_name)
    | None => home ← unwrap (env_var (bs "HOME")); Ok (home ++ bs "/.my-reverse-proxy")
    end;
  match read_file file_name with
  | None => Err (bs "Can not read settings from file: " ++ file_name)
  | Some file_content =>
      map_err (fun err => bs "Invalid yaml format of file: " ++ file_name ++ bs ". Err: " ++ err)
        (yaml_from_slice file_content)
  end.

Definition dynamic_configurations_file_exists (file_name : bytes) : bool := path_exists (format_path file_name).

Definition load_includes (settings_model : SettingsModel) : outcome bytes (list SettingsModel) :=
  result ← populate_vec (fun include_file => load (Some include_file)) (default [] (sm_include settings_model));
  match sm_dynamic_configurations_file settings_model with
  | Some dynamic_file =>
      if dynamic_configurations_file_exists dynamic_file then
        settings ← load (Some dynamic_file); Ok (result ++ [settings])
      else Ok result
  | None => Ok result
  end.

(** [load_settings] and [load_settings_block] *)
Definition load_settings : outcome bytes SettingsCompiled :=
  settings_model ← load None;
  include_settings ← load_includes settings_model;
  populate settings_model include_settings.

End Variables.

(** ** [SettingsCompiled]'s own questions *)

Definition get_http_control_port (s : SettingsCompiled) : option Z := g ← global_settings s; http_control_port g.
Definition get_session_key (s : SettingsCompiled) : option bytes :=
  g ← global_settings s; c ← connection_settings g; session_key c.
Definition get_default_h2_livness_url (s : SettingsCompiled) : option bytes :=
  g ← global_settings s; default_h2_livness_url g.
Definition get_global_timeouts (s : SettingsCompiled) : TimeoutsSettings :=
  match global_settings s with Some g => global_timeouts g | None => timeouts_default end.
Definition get_pool_supervisor_interval (s : SettingsCompiled) : Z :=
  match g ← global_settings s; pool_supervisor_interval g with
  | Some value => from_millis value
  | None => Duration.from_secs 10
  end.
Definition get_show_error_description_on_error_page (s : SettingsCompiled) : bool :=
  default false (g ← global_settings s; show_error_description_on_error_page g).
Definition get_ip_blocklist_white_list (s : SettingsCompiled) : option (list bytes) :=
  g ← global_settings s; ip_blocklist_white_list g.

(** [get_connections_settings]: the buffer size and the time-out of TCP
    forwards. *)
Definition get_connections_settings (oc : bool) (s : SettingsCompiled) : outcome bytes (Z * Z) :=
  match g ← global_settings s; connection_settings g with
  | Some c =>
      buffer_size ←
        match buffer_size c with
        | Some value => match parse_buffer_size oc value with Ok n => Ok n | Err _ | Panic => Panic end
        | None => Ok (1024 * 512)
        end;
      Ok (buffer_size,
          match connect_to_remote_timeout c with Some t => from_millis t | None => Duration.from_secs 5 end)
  | None => Ok (1024 * 512, Duration.from_secs 5)
  end.

(** ** The levels of a time-out *)

Inductive TimeoutKey :=
  | ConnectTimeout | RequestTimeout | ReadTimeout | WriteTimeout | PoolSize | PoolPingTimeout | PoolHotWindow.

(** What a level says about a key, in the unit the program uses. *)
Definition set_at (k : TimeoutKey) (t : TimeoutsSettings) : option Z :=
  match k with
  | ConnectTimeout => from_millis <$> set_connect_timeout t
  | RequestTimeout => from_millis <$> set_request_timeout t
  | ReadTimeout => from_millis <$> set_read_timeout t
  | WriteTimeout => from_millis <$> set_write_timeout t
  | PoolSize => set_pool_size t
  | PoolPingTimeout => from_millis <$> set_pool_ping_timeout t
  | PoolHotWindow => from_millis <$> set_pool_hot_window t
  end.

Definition resolved_at (k : TimeoutKey) (r : ResolvedTimeouts) : Z :=
  match k with
  | ConnectTimeout => connect_timeout r
  | RequestTimeout => request_timeout r
  | ReadTimeout => read_timeout r
  | WriteTimeout => write_timeout r
  | PoolSize => pool_size r
  | PoolPingTimeout => pool_ping_timeout r
  | PoolHotWindow => pool_hot_window r
  end.

Definition hard_coded (k : TimeoutKey) : Z := resolved_at k (resolve timeouts_default).

(** The value of the last level that has one. *)
Fixpoint last_set (k : TimeoutKey) (levels : list TimeoutsSettings) : option Z :=
  match levels with [] => None | t :: levels => or (last_set k levels) (set_at k t) end.

Lemma set_at_overriden k a b : set_at k (overriden_by a b) = or (set_at k b) (set_at k a).
Proof. destruct k; simpl; try (by destruct b as [[] [] [] [] [] [] []]); reflexivity. Qed.

Lemma resolved_at_resolve k t : resolved_at k (resolve t) = default (hard_coded k) (set_at k t).
Proof. destruct t as [[] [] [] [] [] [] []], k; reflexivity. Qed.

Lemma or_assoc {A} (a b c : option A) : or (or a b) c = or a (or b c).
Proof. by destruct a. Qed.

Lemma set_at_levels k levels t : set_at k (fold_left overriden_by levels t) = or (last_set k levels) (set_at k t).
Proof.
  revert t; induction levels as [|l levels IH]; intros t; simpl; [done|].
  by rewrite IH, set_at_overriden, or_assoc.
Qed.

(** ** The names in placeholders *)

Definition has_upper (n : bytes) : bool := existsb is_ascii_uppercase n.
Definition has_lower (n : bytes) : bool := existsb is_ascii_lowercase n.

Lemma upper_is_not_lower c : is_ascii_uppercase c = true -> is_ascii_lowercase c = false.
Proof. unfold is_ascii_uppercase, is_ascii_lowercase. rewrite !andb_true_iff, andb_false_iff, !Z.leb_le, !Z.leb_gt. lia. Qed.

Lemma name_loop_spec src cs up low :
  up && low = false ->
  name_loop src cs up low =
  if (up || has_upper cs) && (low || has_lower cs)
  then Err (bs "Env variable " ++ src ++ bs " has to be ether UPPER_CASED or lower_cased")
  else Ok (if up || has_upper cs then ReservedName else VariableName).
Proof.
  revert up low; induction cs as [|c cs IH]; intros up low E; simpl.
  - by rewrite !orb_false_r, E.
  - assert ((if is_ascii_uppercase c then low else low || is_ascii_lowercase c) = low || is_ascii_lowercase c) as ->.
    { destruct (is_ascii_uppercase c) eqn:Eu; [|done]. by rewrite (upper_is_not_lower c Eu), orb_false_r. }
    destruct ((up || is_ascii_uppercase c) && (low || is_ascii_lowercase c)) eqn:E'.
    + apply andb_true_iff in E' as [E1 E2]. by rewrite !orb_assoc, E1, E2.
    + by rewrite IH, !orb_assoc.
Qed.

Lemma name_characteristics_spec src :
  name_characteristics src =
  if has_upper src && has_lower src
  then Err (bs "Env variable " ++ src ++ bs " has to be ether UPPER_CASED or lower_cased")
  else Ok (if has_upper src then ReservedName else VariableName).
Proof. unfold name_characteristics. by rewrite name_loop_spec. Qed.

(** ** Sizes *)

(** A size is a number and its unit. *)
Definition size_parts (value : bytes) : bytes * Z :=
  match strip_suffix (bs "Kb") value, strip_suffix (bs "Mb") value with
  | Some kb, _ => (Str.trim kb, 1024)
  | None, Some mb => (Str.trim mb, 1024 * 1024)
  | None, None => (value, 1)
  end.

Lemma digits_value_bound l acc v : 0 <= acc -> Str.digits_value l acc = Some v -> 0 <= v.
Proof.
  revert acc; induction l as [|b l IH]; intros acc A E; simpl in E; [by simplify_eq|].
  destruct (Str.is_digit b) eqn:D; [|done]. apply (IH _) in E; [done|].
  unfold Str.is_digit in D. apply andb_true_iff in D as [D%Z.leb_le _]. lia.
Qed.

Lemma parse_uint_bounds max l v : Str.parse_uint max l = Some v -> 0 <= v <= max.
Proof.
  unfold Str.parse_uint. intros E.
  destruct (match l with [] => [] | b :: rest => _ end) as [|b rest]; [done|].
  destruct (Str.digits_value (b :: rest) 0) as [w|] eqn:D; [|done]. cbn [mbind option_bind] in E.
  destruct (Z.leb_spec w max); [|done]. simplify_eq. split; [|done]. by eapply (digits_value_bound _ 0); [|exact D].
Qed.

Lemma usize_op_twice {E} oc v a b :
  0 <= v -> 0 < a -> 0 < b -> (r ← usize_op (E:=E) oc (v * a); usize_op oc (r * b)) = usize_op oc (v * (a * b)).
Proof.
  intros Hv Ha Hb. unfold usize_op.
  destruct (decide (0 <= v * a < 2 ^ 64)) as [F|F].
  - rewrite (bool_decide_eq_true_2 _ F). cbn [mbind outcome_bind]. by rewrite Z.mul_assoc.
  - rewrite (bool_decide_eq_false_2 _ F), (bool_decide_eq_false_2 (0 <= v * (a * b) < 2 ^ 64)) by nia.
    destruct oc; [done|]. cbn [mbind outcome_bind].
    rewrite Z.mul_assoc, <- (Z.mul_mod_idemp_l (v * a)) by lia.
    case_bool_decide as F'; [|done]. by rewrite (Z.mod_small _ _ F').
Qed.

(** A buffer size is a decimal number, times its unit.  A product that does
    not fit in 64 bits panics in a build with overflow checks; in one without
    them it is taken modulo 2^64, so a huge size becomes a small one, or
    none. *)
Theorem buffer_size_value oc value :
  let (text, unit) := size_parts value in
  match Str.parse_uint (2 ^ 64 - 1) text with
  | None => exists e, parse_buffer_size oc value = Err e
  | Some v =>
      parse_buffer_size oc value =
      if v * unit <? 2 ^ 64 then Ok (v * unit) else if oc then Panic else Ok ((v * unit) mod 2 ^ 64)
  end.
Proof.
  assert (U : forall v unit, 0 <= v -> 0 < unit -> usize_op (E:=bytes) oc (v * unit) =
    if v * unit <? 2 ^ 64 then Ok (v * unit) else if oc then Panic else Ok ((v * unit) mod 2 ^ 64)).
  { intros v unit Hv Hu. unfold usize_op. destruct (Z.ltb_spec (v * unit) (2 ^ 64)).
    - rewrite bool_decide_eq_true_2 by nia. done.
    - rewrite bool_decide_eq_false_2 by nia. done. }
  unfold size_parts, parse_buffer_size.
  destruct (strip_suffix (bs "Kb") value) as [kb|]; [|destruct (strip_suffix (bs "Mb") value) as [mb|]];
    unfold parse_usize; destruct (Str.parse_uint _ _) as [v|] eqn:E; simpl; eauto;
    destruct (parse_uint_bounds _ _ _ E) as [V0 V1].
  - by rewrite U.
  - rewrite (usize_op_twice oc v 1024 1024) by lia. by rewrite U.
  - rewrite Z.mul_1_r. destruct (Z.ltb_spec v (2 ^ 64)); [done|lia].
Qed.

(** ** What is substituted *)

Section Substitution.
Context `{RewriteLibs}.
Context (iter : forall A, gmap bytes A -> list (bytes * A)).

(** What stands for a token: a name in upper case stays for the requests to
    fill in, any other is a variable of the files or else of the
    environment. *)
Inductive token_ok (data : gmap bytes bytes) : ContentToken -> bytes -> Prop :=
  | text_ok t : token_ok data (Text t) t
  | upper_ok n : has_upper n = true -> has_lower n = false -> token_ok data (Placeholder n) (bs "${" ++ n ++ bs "}")
  | file_ok n v : has_upper n = false -> data !! n = Some v -> token_ok data (Placeholder n) v
  | env_ok n v :
      has_upper n = false -> data !! n = None -> env_var n = Some v -> token_ok data (Placeholder n) v.

Lemma token_text_ok data t r : token_text data t = Ok r <-> token_ok data t r.
Proof.
  destruct t as [t|n]; simpl.
  - split; [intros E; simplify_eq; constructor|inversion 1; congruence].
  - rewrite name_characteristics_spec. destruct (has_upper n) eqn:U, (has_lower n) eqn:L; simpl;
      [|split; [intros E; simplify_eq; by constructor|inversion 1; congruence]| |].
    { split; [done|inversion 1; congruence]. }
    all: destruct (data !! n) eqn:D; [split; [intros E; simplify_eq; by apply file_ok|inversion 1; congruence]|];
      destruct (env_var n) eqn:V; (split; [intros E; simplify_eq; by apply env_ok|inversion 1; congruence]).
Qed.

Lemma push_tokens_ok data ts acc r :
  push_tokens data ts acc = Ok r <-> exists texts, Forall2 (token_ok data) ts texts /\ r = acc ++ concat texts.
Proof.
  revert acc; induction ts as [|t ts IH]; intros acc; simpl.
  - split; [intros E; simplify_eq; exists []; by rewrite app_nil_r|].
    intros (texts & F & ->). inversion F; subst. by rewrite app_nil_r.
  - split.
    + destruct (token_text data t) as [x| |] eqn:E; simpl; try done. intros (texts & F & ->)%IH.
      exists (x :: texts). split; [by constructor; [apply token_text_ok|]|]. simpl. by rewrite app_assoc.
    + intros (texts & F & ->). inversion F as [|? x ? rest T F' ]; subst.
      apply token_text_ok in T as ->. simpl. apply IH. exists rest. split; [done|]. simpl. by rewrite app_assoc.
Qed.

(** The substitution returns, with a text or with an error. *)
Lemma push_tokens_returns data ts acc : push_tokens data ts acc <> Panic.
Proof.
  revert acc. induction ts as [|[t|n] ts IH]; intros acc; [done|apply IH|]. cbn [push_tokens token_text].
  rewrite name_characteristics_spec. destruct (has_upper n && has_lower n); [done|]. cbn [mbind outcome_bind].
  destruct (has_upper n); [apply IH|]. destruct (data !! n); [apply IH|]. destruct (env_var n); [apply IH|done].
Qed.


(** *** The variables of several files *)

(** The value a variable has in the last of the files that set it. *)
Fixpoint last_defined (k : bytes) (files : list SettingsModel) : option bytes :=
  match files with
  | [] => None
  | m :: files => or (last_defined k files) (vs ← sm_variables m; vs !! k)
  end.

Lemma merge_lookup l data k :
  NoDup l.*1 -> merge l data !! k = or (list_to_map (M:=gmap bytes bytes) l !! k) (data !! k).
Proof.
  revert data; induction l as [|[k' v] l IH]; intros data N; simpl; [by rewrite lookup_empty|].
  inversion N as [|? ? N1 N2]; subst. unfold merge in *. simpl. rewrite IH by done.
  destruct (decide (k = k')) as [->|Hk].
  - rewrite !lookup_insert_eq, (not_elem_of_list_to_map_1 l k') by done. done.
  - by rewrite !lookup_insert_ne by done.
Qed.

Lemma merge_iter m data k :
  iter bytes m ≡ₚ map_to_list m -> merge (iter bytes m) data !! k = or (m !! k) (data !! k).
Proof.
  intros P. assert (N : NoDup (iter bytes m).*1) by (rewrite P; apply NoDup_fst_map_to_list).
  rewrite merge_lookup by done. f_equal. rewrite (list_to_map_proper _ (map_to_list m)) by done.
  by rewrite list_to_map_to_list.
Qed.

(** A variable has the value of the last file that sets it, the included
    files coming after the main one, in whatever order the maps of the files
    are walked through. *)
Theorem last_file_wins files k :
  (forall A m, iter A m ≡ₚ map_to_list m) ->
  merge_files iter files !! k = last_defined k files.
Proof.
  intros P. unfold merge_files.
  enough (forall data, fold_left (fun data m => merge (take_map iter (sm_variables m)) data) files data !! k =
    or (last_defined k files) (data !! k)) as ->.
  { rewrite lookup_empty. by destruct (last_defined k files). }
  induction files as [|m files IH]; intros data; simpl; [done|].
  rewrite IH. destruct (sm_variables m) as [vs|]; simpl.
  - rewrite merge_iter by done. by rewrite or_assoc.
  - by destruct (last_defined k files).
Qed.

(** ** What the documentation says about the environment *)

(** Its examples write [${env:NAME}]: the name has letters of both cases. *)
Lemma mixed_name_fails data value n :
  Rewrite.has_placeholder value = true -> placeholders value = [Placeholder n] ->
  has_upper n = true -> has_lower n = true -> exists e, apply_variables data value = Err e.
Proof.
  intros P T U L. unfold apply_variables. rewrite P, T. simpl. rewrite name_characteristics_spec, U, L. simpl. eauto.
Qed.

End Substitution.

(** The example of the README, in an environment that has the variable. *)
Definition demo_variables : RewriteLibs :=
  {| placeholders := fun v =>
       if decide (v = bs "Bearer ${env:TOKEN}") then [Text (bs "Bearer "); Placeholder (bs "env:TOKEN")] else [Text v];
     env_var := fun name => if decide (name = bs "TOKEN") then Some (bs "secret") else None;
     lookup_country := fun _ => None |}.


Lemma last_file_wins_witness :
  merge_files (fun A m => map_to_list m)
    [{| sm_hosts := ∅; sm_include := None; sm_dynamic_configurations_file := None;
        sm_variables := Some {[bs "a" := bs "1"]}; sm_ssl_certificates := None; sm_client_certificate_ca := None;
        sm_global_settings := None; sm_g_auth := None; sm_oauth := None; sm_ssh := None; sm_endpoint_templates := None;
        sm_allowed_users := None; sm_ip_white_lists := None; sm_gateway_server := None; sm_gateway_clients := None |}]
    !! bs "a" = Some (bs "1").
Proof.
  refine (eq_trans (last_file_wins (fun A m => map_to_list m) _ _ _) _); [done|vm_compute; reflexivity].
Defined.

End Settings.
