(* ===== verification/SourceFiles.v ===== *)
(** * Files, upstreams and SSH: [scripts/load_file.rs], [scripts/ssh/*.rs],
      [configurations/ssh_configs.rs], [app/cert_pass_keys.rs] and the parser
      of [configurations/my_reverse_proxy_remote_endpoint.rs]

    A text of the settings names a local file, a URL, or either of them on the
    other side of an SSH connection.  What the machine and the network answer
    is the [World], which may be another one at every call. *)

From Stdlib Require Import ZArith Lia Strings.Byte.
From stdpp Require Import base tactics list gmap strings.
From S2P Require Import Prelude RustStd IpBlocklist ProxyPassConfig LocalContent SigningKey Settings.

Local Open Scope Z_scope.

(** [my_ssh], [rust_extensions::file_utils], and what [{:?}] prints of a string;
    an I/O error is its [Display] text, of which [io_debug] is the [Debug] text. *)
Class SourceLibs `{RemoteEndpointLib} := {
  over_ssh_try_parse : bytes -> option (option SshCredentials * bytes);
  get_remote_endpoint : bytes -> outcome bytes RemoteEndpointOwned;
  with_password : SshCredentials -> bytes -> SshCredentials;
  with_private_key : SshCredentials -> bytes -> option bytes -> SshCredentials;
  format_path : bytes -> bytes;
  debug_string : bytes -> bytes;
  io_debug : bytes -> bytes;
  file_not_found : bytes;
  stream_not_utf8 : bytes
}.

Module Sources.

(** [SshConfig]; [SshConfigList] and [CertPassKeys] are looked up by the
    printed credentials, the port 22 being left out or not. *)
Inductive SshConfig := SshPrivateKey (private_key : bytes) (pass_phrase : option bytes) | SshPassword (password : bytes).

Definition SshConfigList : Type := gmap bytes SshConfig.

Definition clear_and_init (data : list (bytes * SshConfig)) : SshConfigList :=
  fold_left (fun m x => <[fst x := snd x]> m) data ∅.

Definition without_22 (id : bytes) : option bytes := Settings.strip_suffix (bs ":22") id.

Record CertPassKeys := { master_pass_key : option bytes; pass_keys : gmap bytes bytes }.

Definition no_pass_keys : CertPassKeys := {| master_pass_key := None; pass_keys := ∅ |}.

Definition add_pass_key (key pass_key : bytes) (c : CertPassKeys) : CertPassKeys :=
  if decide (key = bs "*") then {| master_pass_key := Some pass_key; pass_keys := pass_keys c |}
  else {| master_pass_key := master_pass_key c; pass_keys := <[key := pass_key]> (pass_keys c) |}.

Section Sources.
Context `{RemoteEndpointLib} `{!SourceLibs} `{FileLibs}.

Record OverSshConnectionSettings := { ssh_credentials : option SshCredentials; remote_resource_string : bytes }.

Definition try_parse_source (src : bytes) : option OverSshConnectionSettings :=
  x ← over_ssh_try_parse src; Some {| ssh_credentials := fst x; remote_resource_string := snd x |}.

(** The disk with the errors its reads and writes meet, random bytes drawn so
    far and to come, HTTP requests, direct or through SSH, and downloads. *)
Record World := {
  disk : gmap bytes bytes;
  read_error : bytes -> option bytes;
  write_failure : bytes -> option SigningKey.WriteFailure;
  random : nat -> bytes;
  drawn : nat;
  http_get : option SshCredentials -> RemoteEndpointOwned -> bytes + bytes;
  ssh_download : SshCredentials -> bytes -> bytes + bytes
}.

(** What the application knows about SSH connections. *)
Record SshKnown := { ssh_config_list : SshConfigList; ssh_cert_pass_keys : CertPassKeys }.

Definition ssh_config_get (l : SshConfigList) (c : SshCredentials) : option SshConfig :=
  let id := ssh_to_string c in
  match l !! id with
  | Some result => Some result
  | None => id ← without_22 id; l !! id
  end.

Definition pass_key_get (k : CertPassKeys) (c : SshCredentials) : option bytes :=
  let id := ssh_to_string c in
  match pass_keys k !! id with
  | Some pass_key => Some pass_key
  | None =>
      match id ← without_22 id; pass_keys k !! id with
      | Some pass_key => Some pass_key
      | None => master_pass_key k
      end
  end.

(** [get_ssh_session]: the credentials a session is opened with. *)
Definition get_ssh_session (k : SshKnown) (c : SshCredentials) : SshCredentials :=
  match ssh_config_get (ssh_config_list k) c with
  | Some (SshPrivateKey private_key pass_phrase) =>
      let passphrase := match pass_phrase with None => pass_key_get (ssh_cert_pass_keys k) c | Some p => Some p end in
      with_private_key c private_key passphrase
  | Some (SshPassword password) => with_password c password
  | None => c
  end.

(** [tokio::fs::read] and [read_to_string] *)
Definition fs_read_file (w : World) (path : bytes) : bytes + bytes :=
  match read_error w path with
  | Some err => inl err
  | None => match disk w !! path with Some content => inr content | None => inl file_not_found end
  end.

Definition fs_read_to_string (w : World) (path : bytes) : bytes + bytes :=
  match fs_read_file w path with
  | inl err => inl err
  | inr content => if Utf8.valid content then inr content else inl stream_not_utf8
  end.

(** ** [load_file] *)

Definition ok_or_else {A} (x : bytes + A) (text : bytes -> bytes) : outcome bytes A :=
  match x with inr a => Ok a | inl e => Err (text e) end.

Definition load_from_http_or_https (k : SshKnown) (w : World) (endpoint : RemoteEndpointOwned)
    (credentials : option SshCredentials) : outcome bytes bytes :=
  match credentials with
  | Some c => ok_or_else (http_get w (Some (get_ssh_session k c)) endpoint) (fun err => err)
  | None => ok_or_else (http_get w None endpoint) (fun err => bs "Error loading file from HTTP. Error: " ++ err)
  end.

Definition loading_file_from_ssh (k : SshKnown) (w : World) (c : SshCredentials) (endpoint : RemoteEndpointOwned) :
    outcome bytes bytes :=
  ok_or_else (ssh_download w (get_ssh_session k c) (endpoint_as_str endpoint))
    (fun err => bs "Can not download file from remote resource " ++ ssh_to_string c ++ bs "->" ++
       endpoint_as_str endpoint ++ bs ". Error: " ++ err).

Definition load_file (k : SshKnown) (w : World) (content_source : OverSshConnectionSettings) : outcome bytes bytes :=
  endpoint ← get_remote_endpoint (remote_resource_string content_source);
  match get_scheme endpoint with
  | Some (Http | Https) => load_from_http_or_https k w endpoint (ssh_credentials content_source)
  | Some (Ws | Wss | UnixSocket) => Panic
  | None =>
      match ssh_credentials content_source with
      | Some c => loading_file_from_ssh k w c endpoint
      | None =>
          file_name ← Content.local_file_path_value (remote_resource_string content_source);
          ok_or_else (fs_read_file w file_name)
            (fun err => bs "Error reading file: " ++ debug_string file_name ++ bs ", error: " ++ io_debug err)
      end
  end.

(** ** Upstreams of the settings *)

(** [apply_ssh_config] *)
Definition apply_ssh_config (w : World) (c : SshCredentials) (s : Settings.SshConfigSettings) (resource : bytes) :
    outcome bytes OverSshConnectionSettings :=
  match Settings.password s with
  | Some password => Ok {| ssh_credentials := Some (with_password c password); remote_resource_string := resource |}
  | None =>
      match Settings.private_key_file s with
      | Some private_key_file =>
          let private_key_file := format_path private_key_file in
          file_content ←
            ok_or_else (fs_read_to_string w private_key_file)
              (fun err => bs "Can not load private key from [" ++ private_key_file ++ bs "]. Err: " ++ err);
          Ok {| ssh_credentials := Some (with_private_key c file_content (Settings.passphrase s));
                remote_resource_string := resource |}
      | None => Ok {| ssh_credentials := Some c; remote_resource_string := resource |}
      end
  end.

Definition enrich_with_private_key_or_password (w : World) (over_ssh_connection : OverSshConnectionSettings)
    (settings_model : Settings.SettingsCompiled) : outcome bytes OverSshConnectionSettings :=
  match ssh_credentials over_ssh_connection with
  | None => Ok over_ssh_connection
  | Some c =>
      let id := ssh_to_string c in
      let resource := remote_resource_string over_ssh_connection in
      match Settings.ssh settings_model !! id with
      | Some config => apply_ssh_config w c config resource
      | None =>
          match id ← without_22 id; Settings.ssh settings_model !! id with
          | Some config => apply_ssh_config w c config resource
          | None => Ok {| ssh_credentials := Some c; remote_resource_string := resource |}
          end
      end
  end.

(** [OverSshConnectionSettings::try_into] *)
Definition try_into (o : OverSshConnectionSettings) : outcome bytes Config.MyReverseProxyRemoteEndpoint :=
  remote_host ← endpoint_try_parse (remote_resource_string o);
  Ok (match ssh_credentials o with
      | Some c => Config.OverSsh c remote_host
      | None => Config.Direct remote_host
      end).

(** [MyReverseProxyRemoteEndpoint::try_parse] *)
Definition try_parse (w : World) (remote_host : bytes) (settings_model : Settings.SettingsCompiled) :
    outcome bytes Config.MyReverseProxyRemoteEndpoint :=
  if Str.starts_with Config.GATEWAY_PREFIX remote_host then Config.try_parse_gateway_source remote_host
  else
    match try_parse_source remote_host with
    | None => Err (bs "Invalid remote host " ++ remote_host)
    | Some over_ssh_connection =>
        o ← enrich_with_private_key_or_password w over_ssh_connection settings_model;
        try_into o
    end.

(** [update_ssh_config_list]: a configuration whose key can not be read is
    left out. *)
Definition ssh_config_of (k : SshKnown) (w : World) (settings : Settings.SshConfigSettings) :
    outcome bytes (option SshConfig) :=
  match Settings.password settings with
  | Some password => Ok (Some (SshPassword password))
  | None =>
      match Settings.private_key_file settings with
      | Some private_key_file =>
          match try_parse_source private_key_file with
          | None => Ok None
          | Some file_source =>
              match load_file k w file_source with
              | Panic => Panic
              | Err _ => Ok None
              | Ok private_key =>
                  Ok (if Utf8.valid private_key then Some (SshPrivateKey private_key (Settings.passphrase settings))
                      else None)
              end
          end
      | None => Ok None
      end
  end.

Fixpoint ssh_configs_of (k : SshKnown) (w : World) (l : list (bytes * Settings.SshConfigSettings)) :
    outcome bytes (list (bytes * SshConfig)) :=
  match l with
  | [] => Ok []
  | (config_id, settings) :: l =>
      c ← ssh_config_of k w settings;
      to_add ← ssh_configs_of k w l;
      Ok (match c with Some c => (config_id, c) :: to_add | None => to_add end)
  end.

Definition update_ssh_config_list (iter : forall A, gmap bytes A -> list (bytes * A)) (w : World)
    (settings_model : Settings.SettingsCompiled) (k : SshKnown) : outcome bytes SshKnown :=
  to_add ← ssh_configs_of k w (iter _ (Settings.ssh settings_model));
  Ok {| ssh_config_list := clear_and_init to_add; ssh_cert_pass_keys := ssh_cert_pass_keys k |}.

End Sources.

(** Sources that are paths, for examples. *)
#[local] Existing Instance Config.text_endpoints.

Definition demo_sources : SourceLibs :=
  {| over_ssh_try_parse := fun src => Some (None, src); get_remote_endpoint := fun src => Ok src;
     with_password := fun c _ => c; with_private_key := fun c _ _ => c; format_path := fun p => p;
     debug_string := fun s => s; io_debug := fun e => e; file_not_found := bs "not found";
     stream_not_utf8 := bs "not UTF-8" |}.

Definition demo_world : World :=
  {| disk := ∅; read_error := fun _ => None; write_failure := fun _ => None; random := fun n => replicate n Byte.x2a;
     drawn := 1; http_get := fun _ _ => inl (bs "refused"); ssh_download := fun _ _ => inl (bs "refused") |}.

Definition nothing_known : SshKnown := {| ssh_config_list := ∅; ssh_cert_pass_keys := no_pass_keys |}.

End Sources.
