(* ===== verification/Certificates.v ===== *)
(** * Certificates: [ssl/*.rs], [tcp_listener/https/client_certificate_ca.rs],
      [client_cert_verifier.rs], [scripts/init_ssl_cert_manually.rs],
      [ssl_endpoints.rs], [refresh_ssl_certs_from_sources.rs],
      [refresh_ca_from_sources.rs], [update_crl.rs] and the timers that renew
      them

    Server certificates and the authorities of client certificates are kept in
    one cache, by the names the endpoints use.  A server certificate comes from
    a source of the settings, from a gateway or from an upload. *)

From Stdlib Require Import ZArith Lia Strings.Byte.
From stdpp Require Import base tactics list gmap sorting strings.
From S2P Require Import Prelude RustStd IpBlocklist H1Rewrite ProxyPassConfig LocalContent SigningKey Settings SourceFiles.

Local Open Scope Z_scope.

(** What [x509_parser] finds in a certificate; a name that is not a text is
    [None], and so is an extension that is absent or malformed. *)
Record X509Certificate := {
  not_after : Z;
  common_names : list (option bytes);
  alternative_dns_names : option (list bytes);
  issuer_raw : bytes;
  subject_public_key : bytes;
  serial : Z
}.

(** [rustls_pemfile], [x509_parser], [rustls] and [my_tls]; errors are their
    [Debug] texts.  [full_days] are the whole days from a moment to another. *)
Class TlsLibs := {
  pem_certs : bytes -> list (bytes + bytes);
  PrivateKeyDer : Type;
  pem_private_key : bytes -> bytes + option PrivateKeyDer;
  SupportedKey : Type;
  any_supported_type : PrivateKeyDer -> bytes + SupportedKey;
  key_mismatch : list bytes -> SupportedKey -> bool;
  x509_from_der : bytes -> option X509Certificate;
  verify_signature : X509Certificate -> bytes -> bool;
  crl_read : bytes -> outcome bytes (list Z);
  full_days : Z -> Z -> Z
}.

Module Certificates.

Section Certificates.
Context `{TlsLibs} `{RemoteEndpointLib} `{!SourceLibs} `{FileLibs}.

(** ** Server certificates *)

(** [load_certs] *)
Fixpoint collect_certs (certs : list (bytes + bytes)) : outcome bytes (list bytes) :=
  match certs with
  | [] => Ok []
  | inl err :: _ => Err (bs "Error loading certificate: " ++ err)
  | inr cert :: certs => result ← collect_certs certs; Ok (cert :: result)
  end.

Definition load_certs (src : bytes) : outcome bytes (list bytes) :=
  result ← collect_certs (pem_certs src);
  if decide (result = []) then Err (bs "No certificate found in the provided PEM content") else Ok result.

Definition load_private_key (src : bytes) : outcome bytes PrivateKeyDer :=
  match pem_private_key src with
  | inl err => Err (bs "Error loading private key: " ++ err)
  | inr None => Err (bs "No private key found in file")
  | inr (Some key) => Ok key
  end.

(** [CertifiedKey] *)
Record SslCertificate := { cert : list bytes; key : SupportedKey }.

Definition calc_cert_key (private_key : PrivateKeyDer) (certificates : list bytes) : outcome bytes SslCertificate :=
  match any_supported_type private_key with
  | inl err => Err (bs "Unsupported private key: " ++ err)
  | inr key => Ok {| cert := certificates; key := key |}
  end.

(** [SslCertificate::new] *)
Definition ssl_certificate_new (private_key certificates_content : bytes) : outcome bytes SslCertificate :=
  private_key ← load_private_key private_key;
  certs ← load_certs certificates_content;
  cert_key ← calc_cert_key private_key certs;
  if key_mismatch (cert cert_key) (key cert_key) then Err (bs "The provided private key does not match the certificate")
  else Ok cert_key.

Record SslCertInfo := { cn : bytes; expires : Z }.

Definition join_cn (found_cn : option bytes) (name : option bytes) : option bytes :=
  match name with
  | Some name => Some (match found_cn with Some found_cn => found_cn ++ bs ";" ++ name | None => name end)
  | None => found_cn
  end.

Definition earliest (expires : option Z) (expires_from_cer : Z) : option Z :=
  match expires with
  | Some expires_value => Some (if expires_from_cer <? expires_value then expires_from_cer else expires_value)
  | None => Some expires_from_cer
  end.

(** [get_cert_info], which is computed once and kept.  The moment is in
    microseconds; the year of a certificate has four digits, so that the
    product is far from the bounds of [i64]. *)
Definition get_cert_info (c : SslCertificate) : SslCertInfo :=
  let parsed := omap x509_from_der (cert c) in
  {| cn := default (bs "Unknown") (fold_left (fun found x => fold_left join_cn (common_names x) found) parsed None);
     expires := default 0 (fold_left (fun found x => earliest found (not_after x)) parsed None) * 1000000 |}.

Definition push_unique_domain (result : list bytes) (name : bytes) : list bytes :=
  if existsb (fun itm => Str.eq_ignore_ascii_case itm name) result then result else result ++ [name].

(** [get_domains] *)
Definition get_domains (c : SslCertificate) : list bytes :=
  match leaf ← head (cert c); x509_from_der leaf with
  | None => []
  | Some x =>
      let result := fold_left push_unique_domain (default [] (alternative_dns_names x)) [] in
      fold_left push_unique_domain (omap id (common_names x)) result
  end.

Inductive SslCertificateOrigin :=
  | LocalSource (private_key_src cert_src : Sources.OverSshConnectionSettings)
  | GatewayPushed (gateway_id : bytes)
  | ManuallyProvided.

Definition origin_as_str (o : SslCertificateOrigin) : bytes :=
  match o with
  | LocalSource _ _ => bs "local_source"
  | GatewayPushed _ => bs "gateway_pushed"
  | ManuallyProvided => bs "manually_provided"
  end.

Record SslCertificateHolder := {
  ssl_cert : SslCertificate;
  origin : SslCertificateOrigin;
  cert_pem : bytes;
  private_key_pem : bytes
}.

(** ** Authorities of client certificates *)

Record ClientCertificateData := { data_cn : bytes; data_ca_id : bytes }.

Record ClientCertificateCa := {
  ca_content : bytes;
  names : list bytes;
  ca_file_source : Sources.OverSshConnectionSettings;
  crl_list : list Z;
  crl_file_source : option Sources.OverSshConnectionSettings
}.

Fixpoint issuers (certs : list bytes) : outcome bytes (list bytes) :=
  match certs with
  | [] => Ok []
  | ca :: certs => x ← unwrap (x509_from_der ca); names ← issuers certs; Ok (issuer_raw x :: names)
  end.

(** [ClientCertificateCa::new]: [certs.remove(0)] of no certificate panics. *)
Definition ca_new (certs : list bytes) (ca_file_source : Sources.OverSshConnectionSettings) (crl_list : list Z)
    (crl_file_source : option Sources.OverSshConnectionSettings) : outcome bytes ClientCertificateCa :=
  names ← issuers certs;
  ca_content ← unwrap (head certs);
  Ok {| ca_content := ca_content; names := names; ca_file_source := ca_file_source; crl_list := crl_list;
        crl_file_source := crl_file_source |}.

Fixpoint unwrap_certs (certs : list (bytes + bytes)) : outcome bytes (list bytes) :=
  match certs with
  | [] => Ok []
  | inl _ :: _ => Panic
  | inr cert :: certs => result ← unwrap_certs certs; Ok (cert :: result)
  end.

Definition ca_from_bytes (value : bytes) (file_source : Sources.OverSshConnectionSettings)
    (crl : option (list Z * Sources.OverSshConnectionSettings)) : outcome bytes ClientCertificateCa :=
  result ← unwrap_certs (pem_certs value);
  match crl with
  | Some crl => ca_new result file_source (fst crl) (Some (snd crl))
  | None => ca_new result file_source [] None
  end.

(** [verify_cert]: certificates that can not be parsed panic, as does a common
    name that is not a text. *)
Definition verify_cert (ca : ClientCertificateCa) (certificate_to_check ca_id : bytes) :
    outcome bytes (option ClientCertificateData) :=
  issuer ← unwrap (x509_from_der (ca_content ca));
  cert_to_check ← unwrap (x509_from_der certificate_to_check);
  cn ← match common_names cert_to_check with [] => Ok [] | name :: _ => unwrap name end;
  Ok (if verify_signature cert_to_check (subject_public_key issuer) then
        if existsb (fun crl_record => crl_record =? serial cert_to_check) (crl_list ca) then None
        else Some {| data_cn := cn; data_ca_id := ca_id |}
      else None).

(** [ClientCertificateCa::update_crl] *)
Definition ca_update_crl (crl : list Z) (ca : ClientCertificateCa) : ClientCertificateCa :=
  {| ca_content := ca_content ca; names := names ca; ca_file_source := ca_file_source ca; crl_list := crl;
     crl_file_source := crl_file_source ca |}.

(** ** The cache *)

Record CertificatesCache := {
  ssl_certs : gmap bytes SslCertificateHolder;
  client_ca : gmap bytes ClientCertificateCa
}.

Definition no_certificates : CertificatesCache := {| ssl_certs := ∅; client_ca := ∅ |}.

Definition add_or_update (cert_id : bytes) (ssl_cert : SslCertificate) (origin : SslCertificateOrigin)
    (cert_pem private_key_pem : bytes) (c : CertificatesCache) : CertificatesCache :=
  {| ssl_certs := <[cert_id := {| ssl_cert := ssl_cert; origin := origin; cert_pem := cert_pem;
                                 private_key_pem := private_key_pem |}]> (ssl_certs c);
     client_ca := client_ca c |}.

Definition insert_ca (cert_id : bytes) (value : ClientCertificateCa) (c : CertificatesCache) : CertificatesCache :=
  {| ssl_certs := ssl_certs c; client_ca := <[cert_id := value]> (client_ca c) |}.

Definition has_certificate (c : CertificatesCache) (cert_id : bytes) : bool := bool_decide (is_Some (ssl_certs c !! cert_id)).
Definition has_ca (c : CertificatesCache) (cert_id : bytes) : bool := bool_decide (is_Some (client_ca c !! cert_id)).

(** [ClientCertificatesCache::update_crl] and [get_list_of_crl] *)
Definition update_crl_of (id : bytes) (crl : list Z) (c : CertificatesCache) : CertificatesCache :=
  {| ssl_certs := ssl_certs c; client_ca := alter (ca_update_crl crl) id (client_ca c) |}.

Definition get_list_of_crl (iter : forall A, gmap bytes A -> list (bytes * A)) (c : CertificatesCache) :
    list (bytes * Sources.OverSshConnectionSettings) :=
  omap (fun x => source ← crl_file_source (snd x); Some (fst x, source)) (iter _ (client_ca c)).

(** ** Certificates of the settings *)

Definition SELF_SIGNED_CERT_NAME : bytes := bs "self_signed".

Definition parse_or (what src : bytes) : outcome bytes Sources.OverSshConnectionSettings :=
  ok_or (Sources.try_parse_source src) (bs "Invalid " ++ what ++ bs " file source " ++ src).

(** [refresh_ssl_certs_from_sources]: what is to be stored, if anything; the
    key is read before the certificate. *)
Definition ssl_cert_from_sources (k : Sources.SshKnown) (w : Sources.World) (settings_model : Settings.SettingsCompiled)
    (ssl_cert_id : bytes) : outcome bytes (option SslCertificateHolder) :=
  match list_find (fun c => Settings.ssl_id c = ssl_cert_id) (Settings.ssl_certificates settings_model) with
  | None => Err (bs "SSL certificate with id '" ++ ssl_cert_id ++ bs "' not found")
  | Some (_, ssl_certificate) =>
      sources ← Settings.get_sources ssl_certificate;
      match sources with
      | None => Ok None
      | Some (cert_source, private_key_source) =>
          private_key_src ← parse_or (bs "TLS Private Key") private_key_source;
          private_key ← Sources.load_file k w private_key_src;
          cert_src ← parse_or (bs "TLS Certificate Key") cert_source;
          certificate ← Sources.load_file k w cert_src;
          ssl_certificate ← ssl_certificate_new private_key certificate;
          Ok (Some {| ssl_cert := ssl_certificate; origin := LocalSource private_key_src cert_src;
                      cert_pem := certificate; private_key_pem := private_key |})
      end
  end.

Definition store (cert_id : bytes) (h : SslCertificateHolder) (c : CertificatesCache) : CertificatesCache :=
  add_or_update cert_id (ssl_cert h) (origin h) (cert_pem h) (private_key_pem h) c.

Definition refresh_ssl_certs_from_sources (k : Sources.SshKnown) (w : Sources.World)
    (settings_model : Settings.SettingsCompiled) (ssl_cert_id : bytes) (c : CertificatesCache) :
    outcome bytes CertificatesCache :=
  h ← ssl_cert_from_sources k w settings_model ssl_cert_id;
  Ok (match h with Some h => store ssl_cert_id h c | None => c end).

(** [refresh_ca_from_sources] *)
Definition refresh_ca_from_sources (k : Sources.SshKnown) (w : Sources.World)
    (settings_model : Settings.SettingsCompiled) (ca_id : bytes) (c : CertificatesCache) :
    outcome bytes CertificatesCache :=
  match list_find (fun x => Settings.ca_id x = ca_id) (Settings.client_certificate_cas settings_model) with
  | None => Err (bs "Client certificate with id '" ++ ca_id ++ bs "' is not found")
  | Some (_, client_certificate) =>
      ca_file_src ← parse_or (bs "Client Certificate") (Settings.ca client_certificate);
      ca ← Sources.load_file k w ca_file_src;
      crl ←
        match Settings.revocation_list client_certificate with
        | Some crl_file_path =>
            crl_file_src ← parse_or (bs "Client Certificate CRL") crl_file_path;
            crl ← Sources.load_file k w crl_file_src;
            crl ← crl_read crl;
            Ok (Some (crl, crl_file_src))
        | None => Ok None
        end;
      client_cert ← ca_from_bytes ca ca_file_src crl;
      Ok (insert_ca ca_id client_cert c)
  end.

(** ** The timers *)

(** [try_renew_cert], which ignores what fails. *)
Definition try_renew_cert (k : Sources.SshKnown) (w : Sources.World) (now : Z) (cert_id : bytes)
    (ssl_holder : SslCertificateHolder) (c : CertificatesCache) : outcome bytes CertificatesCache :=
  match origin ssl_holder with
  | GatewayPushed _ | ManuallyProvided => Ok c
  | LocalSource private_key_src cert_src =>
      if 7 <? full_days (expires (get_cert_info (ssl_cert ssl_holder))) now then Ok c
      else
        let renewed :=
          certificates_content ← Sources.load_file k w cert_src;
          private_key_content ← Sources.load_file k w private_key_src;
          ssl_cert ← ssl_certificate_new private_key_content certificates_content;
          Ok (add_or_update cert_id ssl_cert (LocalSource private_key_src cert_src) certificates_content
                private_key_content c) in
        match renewed with Ok c' => Ok c' | Err _ => Ok c | Panic => Panic end
  end.

Fixpoint renew_all (k : Sources.SshKnown) (w : Sources.World) (now : Z) (l : list (bytes * SslCertificateHolder))
    (c : CertificatesCache) : outcome bytes CertificatesCache :=
  match l with
  | [] => Ok c
  | (cert_id, ssl_cert) :: l => c ← try_renew_cert k w now cert_id ssl_cert c; renew_all k w now l c
  end.

(** [SslCertsRefreshTimer::tick], over the certificates in the order of their
    names. *)
Definition ssl_certs_refresh_tick (get_list : gmap bytes SslCertificateHolder -> list (bytes * SslCertificateHolder))
    (k : Sources.SshKnown) (w : Sources.World) (now : Z) (c : CertificatesCache) : outcome bytes CertificatesCache :=
  renew_all k w now (get_list (ssl_certs c)) c.

(** [scripts/update_crl.rs] and [CrlRefresherTimer::tick] *)
Definition update_crl (k : Sources.SshKnown) (w : Sources.World) (id : bytes)
    (file_source : Sources.OverSshConnectionSettings) (c : CertificatesCache) : outcome bytes CertificatesCache :=
  match crl ← Sources.load_file k w file_source; crl_read crl with
  | Ok crl => Ok (update_crl_of id crl c)
  | Err _ => Ok c
  | Panic => Panic
  end.

Fixpoint update_crls (k : Sources.SshKnown) (w : Sources.World) (l : list (bytes * Sources.OverSshConnectionSettings))
    (c : CertificatesCache) : outcome bytes CertificatesCache :=
  match l with
  | [] => Ok c
  | (id, crl_file_source) :: l => c ← update_crl k w id crl_file_source c; update_crls k w l c
  end.

Definition crl_refresher_tick (iter : forall A, gmap bytes A -> list (bytes * A)) (k : Sources.SshKnown)
    (w : Sources.World) (c : CertificatesCache) : outcome bytes CertificatesCache :=
  update_crls k w (get_list_of_crl iter c) c.

(** ** Endpoints and their certificates: [ssl_endpoints.rs] *)

Definition EXPIRING_SOON_DAYS : Z := 7.

Inductive SslCertStatus := Missing | Expired | ExpiringSoon | StatusOk.

Definition needs_attention (s : SslCertStatus) : bool := match s with Missing | Expired => true | _ => false end.

Record SslEndpointCertStatus := {
  endpoint_host : bytes;
  server_name : option bytes;
  cert_id : bytes;
  status : SslCertStatus;
  status_cn : option bytes;
  status_expires : option Z;
  days_to_expire : option Z
}.

Definition is_self_signed (cert_id : bytes) : bool := bool_decide (cert_id = SELF_SIGNED_CERT_NAME).

Definition collect_endpoints (listen : Config.ListenConfiguration) : list (bytes * option bytes * bytes) :=
  match listen with
  | Config.ListenHttp http | Config.ListenMcp http =>
      omap (fun e =>
        ssl_cert_id ← Config.ssl_certificate_id e;
        if is_self_signed ssl_cert_id then None
        else Some (Config.endpoint_str e, Config.get_server_name (Config.host_endpoint e), ssl_cert_id))
        (Config.endpoints http)
  | Config.ListenTcpForward _ => []
  end.

Definition status_of (c : CertificatesCache) (now : Z) (x : bytes * option bytes * bytes) : SslEndpointCertStatus :=
  let '(endpoint_host, server_name, cert_id) := x in
  match ssl_certs c !! cert_id with
  | None =>
      {| endpoint_host := endpoint_host; server_name := server_name; cert_id := cert_id; status := Missing;
         status_cn := None; status_expires := None; days_to_expire := None |}
  | Some holder =>
      let info := get_cert_info (ssl_cert holder) in
      let days := full_days (expires info) now in
      {| endpoint_host := endpoint_host; server_name := server_name; cert_id := cert_id;
         status := if expires info <=? now then Expired else if days <=? EXPIRING_SOON_DAYS then ExpiringSoon else StatusOk;
         status_cn := Some (cn info); status_expires := Some (expires info); days_to_expire := Some days |}
  end.

(** [get_ssl_endpoints_status]; [listened] are the ports and sockets in the
    order the maps are read. *)
Definition get_ssl_endpoints_status (listened : list Config.ListenConfiguration) (now : Z) (c : CertificatesCache) :
    list SslEndpointCertStatus :=
  map (status_of c now) (concat (map collect_endpoints listened)).

(** ** Uploads: [init_ssl_cert_manually.rs] *)

Definition DOT : byte := Byte.x2e.

Definition wildcard_match (pattern domain : bytes) : bool :=
  match Str.strip_prefix (bs "*.") pattern with
  | Some suffix =>
      if negb (Str.contains DOT suffix) then false
      else
        match Str.split_once DOT domain with
        | Some (_, rest) => Str.eq_ignore_ascii_case rest suffix
        | None => false
        end
  | None => Str.eq_ignore_ascii_case pattern domain
  end.

Definition cert_covers_domain (cert_domains : list bytes) (domain : bytes) : bool :=
  existsb (fun pattern => wildcard_match pattern domain) cert_domains.

(** [RequiredSni]: a domain and where it came from. *)
Definition push_required (source : bytes) (required : list (bytes * bytes)) (domain : bytes) : list (bytes * bytes) :=
  if existsb (fun req => Str.eq_ignore_ascii_case (fst req) domain) required then required
  else required ++ [(domain, source)].

Fixpoint join (sep : bytes) (l : list bytes) : bytes :=
  match l with [] => [] | [x] => x | x :: l => x ++ sep ++ join sep l end.

Definition existing_domains (c : CertificatesCache) (cert_id : bytes) : list bytes :=
  match ssl_certs c !! cert_id with Some holder => get_domains (ssl_cert holder) | None => [] end.

Definition required_snis (listened : list Config.ListenConfiguration) (now : Z) (c : CertificatesCache) (id : bytes) :
    list (bytes * bytes) :=
  let referencing := filter (fun s => cert_id s = id) (get_ssl_endpoints_status listened now c) in
  let required := fold_left (push_required (bs "endpoint server name")) (omap server_name referencing) [] in
  fold_left (push_required (bs "existing certificate")) (existing_domains c id) required.

Record InitSslCertResult := {
  init_cert_id : bytes;
  init_info : SslCertInfo;
  covered_domains : list bytes;
  validated_sni : list bytes
}.

Definition init_ssl_cert_manually (listened : list Config.ListenConfiguration) (now : Z)
    (cert_id cert_pem private_key_pem : bytes) (c : CertificatesCache) :
    outcome bytes (InitSslCertResult * CertificatesCache) :=
  let id := Str.trim cert_id in
  if decide (id = []) then Err (bs "cert_id must not be empty")
  else if is_self_signed id then
    Err (bs "'" ++ id ++ bs "' is the reserved self-signed certificate id and cannot be set manually")
  else
    ssl_cert ← ssl_certificate_new private_key_pem cert_pem;
    let referencing :=
      filter (fun s => Certificates.cert_id s = id) (get_ssl_endpoints_status listened now c) in
    if decide (referencing = []) then
      Err (bs "No https endpoint references ssl certificate id '" ++ id ++
           bs "'. Refusing to upload a certificate that protects no endpoint.")
    else
      let cert_domains := get_domains ssl_cert in
      if decide (cert_domains = []) then
        Err (bs "The uploaded certificate has no SAN DNS name or Common Name — refusing a certificate with no identifiable domain.")
      else
        let required := required_snis listened now c id in
        if decide (required = []) then
          Err (bs "Cannot verify the domain of certificate '" ++ id ++
               bs "': its referencing endpoint(s) have no configured server name and no certificate is currently loaded under this id to compare against. Configure a server name on the endpoint (or establish the certificate from a configured source first) before uploading.")
        else
          let covered (req : bytes * bytes) := cert_covers_domain cert_domains (fst req) in
          let uncovered :=
            map (fun req => fst req ++ bs " (required by " ++ snd req ++ bs ")")
              (filter (fun req => covered req = false) required) in
          if decide (uncovered <> []) then
            Err (bs "Uploaded certificate does not cover the required SNI(s): [" ++ join (bs ", ") uncovered ++
                 bs "]. The certificate is valid for: [" ++ join (bs ", ") cert_domains ++
                 bs "]. Refusing upload — the new certificate must serve the same domain(s) as the endpoint and the certificate it replaces.")
          else
            Ok ({| init_cert_id := id; init_info := get_cert_info ssl_cert; covered_domains := cert_domains;
                   validated_sni := map fst (filter (fun req => covered req = true) required) |},
                add_or_update id ssl_cert ManuallyProvided cert_pem private_key_pem c).

Record SslCertificateDetails := {
  details_id : bytes;
  details_info : SslCertInfo;
  details_origin : bytes;
  details_domains : list bytes
}.

Definition get_ssl_certificate_details (cert_id : bytes) (c : CertificatesCache) : option SslCertificateDetails :=
  let cert_id := Str.trim cert_id in
  holder ← ssl_certs c !! cert_id;
  Some {| details_id := cert_id; details_info := get_cert_info (ssl_cert holder);
          details_origin := origin_as_str (origin holder); details_domains := get_domains (ssl_cert holder) |}.

End Certificates.

(** ** Names and wildcards *)

Lemma to_lower_dot b : Str.to_lower b = DOT <-> b = DOT.
Proof. split; [destruct b; by vm_compute|by intros ->]. Qed.

Lemma find_dot_lower l : Str.find DOT (Str.lower l) = Str.find DOT l.
Proof.
  induction l as [|b l IH]; [done|]. cbn [Str.lower map Str.find]. fold (Str.lower l). rewrite IH.
  destruct (decide (b = DOT)) as [->|Hb]; [done|].
  by rewrite !decide_False by (rewrite ?to_lower_dot; done).
Qed.

Lemma split_dot_lower l :
  Str.split_once DOT (Str.lower l) = prod_map Str.lower Str.lower <$> Str.split_once DOT l.
Proof.
  unfold Str.split_once. rewrite find_dot_lower. destruct (Str.find DOT l) as [i|]; [|done]. cbn.
  unfold prod_map, Str.lower. cbn. by rewrite <-fmap_take, <-fmap_drop.
Qed.

(** A pattern sees names up to case. *)
Lemma wildcard_match_case p n n' : Str.lower n = Str.lower n' -> wildcard_match p n = wildcard_match p n'.
Proof.
  intros Hn. unfold wildcard_match. destruct (Str.strip_prefix _ p) as [suffix|].
  - destruct (negb _); [done|]. pose proof (split_dot_lower n) as H1. pose proof (split_dot_lower n') as H2.
    rewrite Hn, H2 in H1. destruct (Str.split_once DOT n) as [[a r]|], (Str.split_once DOT n') as [[a' r']|]; try done.
    injection H1 as _ Hr. unfold Str.eq_ignore_ascii_case. by rewrite Hr.
  - unfold Str.eq_ignore_ascii_case. by rewrite Hn.
Qed.

Lemma star_dot_lower p s :
  Str.strip_prefix (bs "*.") p = None -> Str.lower p <> Str.lower (bs "*." ++ s).
Proof.
  intros Hp Hl. destruct p as [|x [|y p]]; [done|done|]. injection Hl as Hx Hy _.
  assert (x = Byte.x2a) as -> by (destruct x; vm_compute in Hx; congruence).
  assert (y = Byte.x2e) as -> by (destruct y; vm_compute in Hy; congruence). done.
Qed.

(** What a covered pattern covers is covered. *)
Lemma wildcard_match_trans p d n : wildcard_match p d = true -> wildcard_match d n = true -> wildcard_match p n = true.
Proof.
  intros Hpd Hdn. unfold wildcard_match in Hdn. destruct (Str.strip_prefix (bs "*.") d) as [s|] eqn:Hd.
  - apply Str.strip_prefix_Some in Hd as ->.
    destruct (negb (Str.contains DOT s)); [done|].
    destruct (Str.split_once DOT n) as [[a r]|] eqn:Hn; [|done].
    unfold wildcard_match in Hpd |- *. destruct (Str.strip_prefix (bs "*.") p) as [s'|] eqn:Hp.
    + destruct (negb (Str.contains DOT s')); [done|]. rewrite Hn.
      change (bs "*." ++ s) with ([Byte.x2a] ++ DOT :: s) in Hpd.
      rewrite Str.split_once_app in Hpd by (intros Hin; apply list_elem_of_In in Hin; vm_compute in Hin; naive_solver).
      apply bool_decide_eq_true in Hpd, Hdn. apply bool_decide_eq_true. congruence.
    + apply bool_decide_eq_true in Hpd. by apply star_dot_lower in Hpd.
  - apply bool_decide_eq_true in Hdn. by rewrite <-(wildcard_match_case p d n).
Qed.

Lemma push_required_keeps source ds required req :
  req ∈ required -> req ∈ fold_left (push_required source) ds required.
Proof.
  revert required. induction ds as [|x ds IH]; [done|]. intros required Hreq. apply IH. unfold push_required.
  destruct (existsb _ _); set_solver.
Qed.

Lemma push_required_all source ds required d :
  d ∈ ds -> exists req, req ∈ fold_left (push_required source) ds required /\ Str.lower (fst req) = Str.lower d.
Proof.
  revert required. induction ds as [|x ds IH]; intros required Hd; [set_solver|].
  apply elem_of_cons in Hd as [->|Hd]; [|by apply IH]. cbn [fold_left].
  enough (exists req, req ∈ push_required source required x /\ Str.lower (fst req) = Str.lower x)
    as (req & Hreq & He) by (exists req; split; [by apply push_required_keeps|done]).
  unfold push_required. destruct (existsb _ _) eqn:Hx.
  - apply existsb_exists in Hx as (req & Hreq & He). apply list_elem_of_In in Hreq. apply bool_decide_eq_true in He.
    by exists req.
  - exists (x, source). set_solver.
Qed.

Section Proofs.
Context `{TlsLibs} `{RemoteEndpointLib} `{!SourceLibs} `{FileLibs}.

Definition covers (c : SslCertificate) (name : bytes) : bool := cert_covers_domain (get_domains c) name.

Lemma covers_case c n n' : Str.lower n = Str.lower n' -> covers c n = covers c n'.
Proof.
  intros Hn. unfold covers, cert_covers_domain. induction (get_domains c) as [|p ps IH]; [done|].
  cbn [existsb]. by rewrite IH, (wildcard_match_case p n n').
Qed.

Lemma covers_trans c c' :
  (forall d, d ∈ get_domains c -> covers c' d = true) -> forall name, covers c name = true -> covers c' name = true.
Proof.
  intros Hall name Hc. apply existsb_exists in Hc as (d & Hd & Hdn). apply list_elem_of_In in Hd.
  pose proof (Hall d Hd) as Hp. apply existsb_exists in Hp as (p & Hp & Hpd). apply existsb_exists.
  exists p. split; [done|]. by eapply wildcard_match_trans.
Qed.

(** What a successful upload has checked. *)
Lemma init_spec listened now cid pem key c r c' :
  init_ssl_cert_manually listened now cid pem key c = Ok (r, c') ->
  let id := Str.trim cid in
  exists cert, ssl_certificate_new key pem = Ok cert /\ c' = add_or_update id cert ManuallyProvided pem key c /\
    required_snis listened now c id <> [] /\
    (forall req, req ∈ required_snis listened now c id -> covers cert (fst req) = true).
Proof.
  unfold init_ssl_cert_manually. intros Hi. case_decide; [done|]. destruct (is_self_signed _); [done|].
  destruct (ssl_certificate_new key pem) as [cert| |]; [|done|done]. cbn [mbind outcome_bind] in Hi.
  repeat case_decide; try done. injection Hi as _ <-. exists cert. split_and!; [done..|].
  intros req Hreq. apply not_false_iff_true. intros Hf.
  match goal with Hu : map _ _ = [] |- _ => apply map_eq_nil in Hu; rename Hu into Hnone end.
  assert (req ∈ filter (fun req : bytes * bytes => cert_covers_domain (get_domains cert) req.1 = false)
    (required_snis listened now c (Str.trim cid))) as Hin by (by apply list_elem_of_filter).
  rewrite Hnone in Hin. by apply not_elem_of_nil in Hin.
Qed.

Lemma required_server_name listened now c id host sn :
  (host, Some sn, id) ∈ concat (map collect_endpoints listened) ->
  exists req, req ∈ required_snis listened now c id /\ Str.lower (fst req) = Str.lower sn.
Proof.
  intros Hin. unfold required_snis.
  destruct (push_required_all (bs "endpoint server name")
    (omap server_name (filter (fun s => cert_id s = id) (get_ssl_endpoints_status listened now c))) [] sn)
    as (req & Hreq & He).
  - apply list_elem_of_omap. exists (status_of c now (host, Some sn, id)). split.
    + apply list_elem_of_filter. split; [unfold status_of; by destruct (ssl_certs c !! id)|].
      unfold get_ssl_endpoints_status. by apply list_elem_of_fmap_2.
    + unfold status_of. by destruct (ssl_certs c !! id).
  - exists req. split; [by apply push_required_keeps|done].
Qed.

Lemma required_existing listened now c id old d :
  ssl_certs c !! id = Some old -> d ∈ get_domains (ssl_cert old) ->
  exists req, req ∈ required_snis listened now c id /\ Str.lower (fst req) = Str.lower d.
Proof. intros Ho Hd. apply push_required_all. unfold existing_domains. by rewrite Ho. Qed.

(** ** What happens to the cache while the proxy runs *)

Inductive cert_step : CertificatesCache -> CertificatesCache -> Prop :=
  | StepUpload listened now cid pem key c r c' :
      init_ssl_cert_manually listened now cid pem key c = Ok (r, c') -> cert_step c c'
  | StepRenew get_list k w now c c' :
      get_list (ssl_certs c) ≡ₚ map_to_list (ssl_certs c) ->
      ssl_certs_refresh_tick get_list k w now c = Ok c' -> cert_step c c'
  | StepCrl iter k w c c' : crl_refresher_tick iter k w c = Ok c' -> cert_step c c'.

Lemma renew_all_keeps k w now l c c' id h :
  (forall h', (id, h') ∈ l -> origin h' = ManuallyProvided) ->
  renew_all k w now l c = Ok c' -> ssl_certs c !! id = Some h -> ssl_certs c' !! id = Some h.
Proof.
  revert c. induction l as [|[id' h'] l IH]; intros c Hl Hr Hc; [by injection Hr as <-|].
  cbn [renew_all] in Hr. destruct (try_renew_cert k w now id' h' c) as [c1| |] eqn:Ht; [|done|done].
  cbn [mbind outcome_bind] in Hr. apply (IH c1); [|done|].
  { intros h'' Hin. apply Hl. set_solver. }
  unfold try_renew_cert in Ht. destruct (origin h') eqn:Ho; [|by injection Ht as <-..].
  destruct (7 <? _); [by injection Ht as <-|]. repeat case_match; simplify_eq; [|done].
  assert (id' <> id) as Hid by (intros ->; specialize (Hl h' ltac:(set_solver)); congruence).
  match goal with Hb : mbind _ _ = Ok _ |- _ => repeat (outcome_inv Hb) end.
  simplify_eq. cbn. by rewrite lookup_insert_ne.
Qed.

Lemma update_crls_keeps k w l c c' : update_crls k w l c = Ok c' -> ssl_certs c' = ssl_certs c.
Proof.
  revert c. induction l as [|[id src] l IH]; intros c Hu; [by injection Hu as <-|]. cbn [update_crls] in Hu.
  destruct (update_crl k w id src c) as [c1| |] eqn:Hu1; [|done|done]. cbn [mbind outcome_bind] in Hu.
  rewrite (IH c1) by done. unfold update_crl in Hu1. repeat case_match; by simplify_eq.
Qed.

Lemma cert_step_keeps c c' id h :
  cert_step c c' -> ssl_certs c !! id = Some h -> origin h = ManuallyProvided ->
  exists h', ssl_certs c' !! id = Some h' /\ origin h' = ManuallyProvided /\
    forall name, covers (ssl_cert h) name = true -> covers (ssl_cert h') name = true.
Proof.
  intros Hs Hc Ho. destruct Hs as [listened now cid pem key c r c' Hi|get_list k w now c c' Hp Ht|iter k w c c' Hu].
  - apply init_spec in Hi as (cert & _ & -> & _ & Hall). unfold add_or_update. cbn.
    destruct (decide (Str.trim cid = id)) as [<-|Hid]; [|rewrite lookup_insert_ne by done; by exists h].
    rewrite lookup_insert_eq. eexists. split_and!; [done|done|]. apply covers_trans. intros d Hd.
    destruct (required_existing listened now c _ _ _ Hc Hd) as (req & Hreq & He).
    rewrite <-(covers_case _ _ _ He). by apply Hall.
  - exists h. split_and!; [|done|done]. eapply renew_all_keeps; [|exact Ht|done].
    intros h' Hin. rewrite Hp in Hin. apply elem_of_map_to_list in Hin. by simplify_eq.
  - exists h. apply update_crls_keeps in Hu. by rewrite Hu.
Qed.

(** An uploaded certificate fits its place and stays in it.  After an
    upload that succeeds, whatever further uploads there are and however often
    the timers run, the certificate under that name is one that was uploaded;
    it covers the server name of every endpoint that referred to the name at
    the upload, and every name the certificate before it covered. *)
Theorem uploaded_certificate_keeps_its_names listened now cid pem key c r c1 c2 :
  init_ssl_cert_manually listened now cid pem key c = Ok (r, c1) -> rtc cert_step c1 c2 ->
  exists h, ssl_certs c2 !! Str.trim cid = Some h /\ origin h = ManuallyProvided /\
    (forall host sn, (host, Some sn, Str.trim cid) ∈ concat (map collect_endpoints listened) ->
       covers (ssl_cert h) sn = true) /\
    (forall old name, ssl_certs c !! Str.trim cid = Some old -> covers (ssl_cert old) name = true ->
       covers (ssl_cert h) name = true).
Proof.
  intros Hi Hrun.
  assert (forall h1, ssl_certs c1 !! Str.trim cid = Some h1 -> origin h1 = ManuallyProvided ->
    exists h, ssl_certs c2 !! Str.trim cid = Some h /\ origin h = ManuallyProvided /\
      forall name, covers (ssl_cert h1) name = true -> covers (ssl_cert h) name = true) as Hkeep.
  { clear Hi. induction Hrun as [c1|c1 c1' c2 Hs _ IH]; intros h1 Hh Ho; [by exists h1|].
    destruct (cert_step_keeps _ _ _ _ Hs Hh Ho) as (h' & Hh' & Ho' & Hk).
    destruct (IH h' Hh' Ho') as (h & Hh2 & Ho2 & Hk2). exists h. naive_solver. }
  apply init_spec in Hi as (cert & _ & -> & _ & Hall).
  destruct (Hkeep {| ssl_cert := cert; origin := ManuallyProvided; cert_pem := pem; private_key_pem := key |})
    as (h & Hh & Ho & Hk); [by apply lookup_insert_eq|done|].
  exists h. split_and!; [done..| |].
  - intros host sn Hin. apply Hk. cbn. destruct (required_server_name listened now c _ _ _ Hin) as (req & Hreq & He).
    rewrite <-(covers_case _ _ _ He). by apply Hall.
  - intros old name Hold Hn. apply Hk. cbn. revert name Hn. apply covers_trans. intros d Hd.
    destruct (required_existing listened now c _ _ _ Hold Hd) as (req & Hreq & He).
    rewrite <-(covers_case _ _ _ He). by apply Hall.
Qed.
End Proofs.

(** ** Witness: certificates that are the text of their only name *)

Definition demo_tls : TlsLibs :=
  {| pem_certs := fun pem => [inr pem]; PrivateKeyDer := bytes; pem_private_key := fun pem => inr (Some pem);
     SupportedKey := bytes; any_supported_type := inr; key_mismatch := fun _ _ => false;
     x509_from_der := fun der =>
       Some {| not_after := 0; common_names := [Some der]; alternative_dns_names := None; issuer_raw := bs "issuer";
               subject_public_key := der; serial := 7 |};
     verify_signature := fun _ _ => true; crl_read := fun _ => Ok []; full_days := fun a b => (a - b) / 86400000000 |}.

#[local] Existing Instance demo_tls.
#[local] Existing Instance Config.text_endpoints.
#[local] Existing Instance Sources.demo_sources.
#[local] Existing Instance Content.demo_files.

Definition demo_endpoint (t : Config.ListenHttpEndpointType) (ca : option bytes) : Config.HttpEndpointInfo :=
  {| Config.host_endpoint := {| Config.src := bs "api.a.b:443"; Config.port := Some 443; Config.host_index := Some 7%nat |};
     Config.debug := false; Config.listen_endpoint_type := t; Config.g_auth := Some (bs "staff");
     Config.ssl_certificate_id := Some (bs "main"); Config.client_certificate_id := ca;
     Config.locations := [Config.demo_location (bs "/") (bs "http://h:80")]; Config.allowed_user_list_id := Some (bs "few");
     Config.whitelisted_ip_list_id := None; Config.track_metrics_by_all_domains := false;
     Config.mcp_settings := {| Config.mcp_read_timeout := 180; Config.mcp_write_timeout := 30; Config.mcp_buffer_size := 512 |};
     Config.timeouts := (180, 30); Config.heads := Rewrite.demo_endpoint |}.

Definition demo_port (t : Config.ListenHttpEndpointType) (ca : option bytes) : Config.HttpListenPortConfiguration :=
  Config.port_new (demo_endpoint t ca) (Config.ListenTcp 443).

Definition demo_upload (pem : bytes) (c : CertificatesCache) : outcome bytes (InitSslCertResult * CertificatesCache) :=
  init_ssl_cert_manually [Config.ListenHttp (demo_port Config.LHttps1 None)] 0 (bs "main") pem (bs "key") c.

(** Two uploads, of [*.a.b] and of [api.a.b] after it, which is refused. *)
Lemma uploaded_certificate_keeps_its_names_witness :
  is_ok (x ← demo_upload (bs "*.a.b") no_certificates; demo_upload (bs "api.a.b") (snd x)) = false /\
  exists r c1 h, demo_upload (bs "*.a.b") no_certificates = Ok (r, c1) /\
    ssl_certs c1 !! bs "main" = Some h /\ covers (ssl_cert h) (bs "api.a.b") = true.
Proof.
  split; [vm_compute; reflexivity|].
  assert (is_ok (demo_upload (bs "*.a.b") no_certificates) = true) as Hok by (vm_compute; reflexivity).
  destruct (demo_upload (bs "*.a.b") no_certificates) as [[r c1]| |] eqn:Hu; [|discriminate Hok..].
  destruct (uploaded_certificate_keeps_its_names [Config.ListenHttp (demo_port Config.LHttps1 None)] 0 (bs "main")
    (bs "*.a.b") (bs "key") no_certificates _ _ _ Hu (rtc_refl _ _)) as (h & Hh & _ & Hn & _).
  exists r, c1, h. split; [reflexivity|]. split; [exact Hh|]. apply (Hn (bs "api.a.b:443")).
  apply list_elem_of_In. left. reflexivity.
Defined.

End Certificates.
