(* ===== verification/Listeners.v ===== *)
(** * Listeners: [tcp_listener/*.rs], [tcp_listener/https/*.rs],
      [tcp_listener/mcp/run_mcp_connection.rs]

    A connection is accepted, refused if its address is blocked, and handed to
    what its port is configured for; behind TLS the name the client asks for
    decides the endpoint, its certificate and what is asked of the client.  The
    accept loops and what stops them are a machine of their own. *)

From Stdlib Require Import ZArith Lia Strings.Byte.
From stdpp Require Import base tactics list gmap sorting strings.
From S2P Require Import Prelude RustStd IpBlocklist ProxyPassConfig LocalContent SigningKey Settings SourceFiles Certificates.

Local Open Scope Z_scope.

Module Listeners.
Import Certificates.

(** What [rustls] asks of the trait object [ClientCertVerifier], and what it
    has asked in a handshake. *)
Record ClientCertVerifier := {
  on_client_cert : bytes -> Z -> outcome bytes unit;
  on_signature : bytes -> bytes -> bytes -> outcome bytes unit
}.

Inductive VerifierCall :=
  | VerifyClientCert (end_entity : bytes) (now : Z)
  | VerifyTlsSignature (message cert dss : bytes).

(** [tokio_rustls]: what a peer's hello says (that it is no TLS at all, or the
    name of the server it wants, if it gives one), the certificate it sends,
    and a handshake with a certificate to show, the protocols and a verifier,
    which ends well or not and has called the verifier on its way.  What is
    relied on is what [rustls] documents for a verifier that makes client
    certificates mandatory, which is the default: no handshake succeeds unless
    the certificate the peer sent, and no other, was given to it and accepted. *)
Class Rustls `{TlsLibs} := {
  Peer : Type;
  client_hello : Peer -> bytes + option bytes;
  peer_certificate : Peer -> option bytes;
  into_stream : Peer -> SslCertificate -> list bytes -> option ClientCertVerifier ->
    list VerifierCall * outcome bytes unit;
  into_stream_verified : forall peer key alpn v calls,
    into_stream peer key alpn (Some v) = (calls, Ok tt) ->
    exists end_entity now, peer_certificate peer = Some end_entity /\
      VerifyClientCert end_entity now ∈ calls /\ on_client_cert v end_entity now = Ok tt /\
      forall other now', VerifyClientCert other now' ∈ calls -> other = end_entity
}.

Section Tls.
Context `{TlsLibs} `{!Rustls} `{RemoteEndpointLib} `{!SourceLibs} `{FileLibs} `{DateTimeLib}.

(** The certificate the proxy made for itself when it started. *)
Context (self_signed_cert : SslCertificate).

(** ** [tls_acceptor.rs] *)

Inductive CreateConfigError :=
  | CertificateUnavailable (endpoint_host message : bytes)
  | OtherConfigError (message : bytes).

(** [ServerConfig]: the key shown to the client, the authority its certificate
    is verified against with the name it goes by, and the protocols. *)
Record ServerConfig := {
  certified_key : SslCertificate;
  client_cert_verifier : option (ClientCertificateCa * bytes);
  alpn_protocols : list bytes
}.

Definition get_alpn_protocol (https2 : bool) : list bytes :=
  if https2 then [bs "h2"; bs "http/1.1"; bs "http/1.0"] else [bs "http/1.1"].

(** What a [Result] is when it can not panic. *)
Definition client_ca_of (c : CertificatesCache) (e : Config.HttpEndpointInfo) (endpoint_port : Z) :
    CreateConfigError + option (ClientCertificateCa * bytes) :=
  match Config.client_certificate_id e with
  | None => inr None
  | Some client_cert_ca_id =>
      match client_ca c !! client_cert_ca_id with
      | Some client_cert_ca => inr (Some (client_cert_ca, client_cert_ca_id))
      | None =>
          inl (CertificateUnavailable (Config.endpoint_str e)
            (bs "Client certificate ca [" ++ client_cert_ca_id ++ bs "] not found for endpoint: " ++
             Str.uint_to_string endpoint_port))
      end
  end.

Definition certified_key_of (c : CertificatesCache) (e : Config.HttpEndpointInfo) (ssl_cert_id : bytes) :
    CreateConfigError + SslCertificate :=
  if decide (ssl_cert_id = SELF_SIGNED_CERT_NAME) then inr self_signed_cert
  else
    match ssl_certs c !! ssl_cert_id with
    | Some ssl_cert_holder => inr (ssl_cert ssl_cert_holder)
    | None => inl (CertificateUnavailable (Config.endpoint_str e) (bs "No ssl certificate found with id: " ++ ssl_cert_id))
    end.

Definition create_config (c : CertificatesCache) (configuration : Config.HttpListenPortConfiguration)
    (server_name : bytes) (endpoint_port : Z) : CreateConfigError + (ServerConfig * Config.HttpEndpointInfo) :=
  match Config.get_ssl_certificate configuration server_name with
  | None => inl (OtherConfigError (bs "No ssl certificate found for server_name: " ++ server_name))
  | Some (ssl_cert_id, e) =>
      match certified_key_of c e ssl_cert_id with
      | inl err => inl err
      | inr key =>
          match client_ca_of c e endpoint_port with
          | inl err => inl err
          | inr verifier =>
              inr ({| certified_key := key; client_cert_verifier := verifier;
                      alpn_protocols :=
                        get_alpn_protocol (negb (Config.is_http1_or_mcp (Config.listen_endpoint_type e))) |}, e)
          end
      end
  end.

(** ** [client_cert_verifier.rs] *)

(** [verify_tls12_signature] and [verify_tls13_signature]: what the client
    signs to prove that the key of its certificate is its own. *)
Definition verify_tls_signature (message cert dss : bytes) : outcome bytes unit := Ok tt.

(** [verify_client_cert]: what the certificate says is put into the cell that
    the verifier shares with whoever started the handshake ([ClientCertCell]). *)
Definition verify_client_cert (verifier : ClientCertificateCa * bytes) (end_entity : bytes) (now : Z)
    (client_cert_cell : option ClientCertificateData) : option ClientCertificateData * outcome bytes unit :=
  match verify_cert (fst verifier) end_entity (snd verifier) with
  | Ok (Some client_certificate) => (Some client_certificate, Ok tt)
  | Ok None => (client_cert_cell, Err (bs "Client certificate is not valid"))
  | Err e => (client_cert_cell, Err e)
  | Panic => (client_cert_cell, Panic)
  end.

(** [MyClientCertVerifier] as the trait object that [rustls] is given. *)
Definition my_client_cert_verifier (verifier : ClientCertificateCa * bytes) : ClientCertVerifier :=
  {| on_client_cert := fun end_entity now => snd (verify_client_cert verifier end_entity now None);
     on_signature := verify_tls_signature |}.

(** What is in the cell after the calls of a handshake. *)
Definition client_cert_cell (verifier : ClientCertificateCa * bytes) (calls : list VerifierCall) :
    option ClientCertificateData :=
  fold_left (fun cell call =>
    match call with
    | VerifyClientCert end_entity now => fst (verify_client_cert verifier end_entity now cell)
    | VerifyTlsSignature _ _ _ => cell
    end) calls None.

(** ** [utils.rs] *)

Inductive TlsAcceptError :=
  | ClientCertRequired (endpoint_host message : bytes)
  | UnknownServerName (message : bytes)
  | MalformedTls (message : bytes)
  | OtherTls (endpoint_host : option bytes) (message : bytes)
  | CertificateNotAvailable (endpoint_host message : bytes).

Definition tls_endpoint_host (e : TlsAcceptError) : option bytes :=
  match e with
  | ClientCertRequired endpoint_host _ | CertificateNotAvailable endpoint_host _ => Some endpoint_host
  | OtherTls endpoint_host _ => endpoint_host
  | UnknownServerName _ | MalformedTls _ => None
  end.

Definition should_penalise_client (e : TlsAcceptError) : bool :=
  match e with CertificateNotAvailable _ _ => false | _ => true end.

Definition block_severity (e : TlsAcceptError) : IpBlocklist.FailureSeverity :=
  match e with MalformedTls _ => IpBlocklist.Hard | _ => IpBlocklist.Soft end.

Definition Accepted : Type := Config.HttpEndpointInfo * option ClientCertificateData.

(** [lazy_accept_tcp_stream_internal] without what catches its panics. *)
Definition lazy_handshake (c : CertificatesCache) (configuration : Config.HttpListenPortConfiguration)
    (endpoint_port : Z) (peer : Peer) : outcome TlsAcceptError Accepted :=
  match client_hello peer with
  | inl err => Err (MalformedTls (bs "failed to perform tls handshake: " ++ err))
  | inr None => Err (UnknownServerName (bs "no server name (SNI) in client hello"))
  | inr (Some server_name) =>
      found ← map_err (OtherTls None) (Config.get_http_endpoint_info configuration (Some server_name));
      match found with
      | None => Err (UnknownServerName (bs "server name '" ++ server_name ++ bs "' is not configured on this port"))
      | Some endpoint_info =>
          let endpoint_host := Config.endpoint_str endpoint_info in
          match create_config c configuration server_name endpoint_port with
          | inl (CertificateUnavailable endpoint_host message) =>
              Err (CertificateNotAvailable endpoint_host
                (bs "certificate for '" ++ server_name ++ bs "' is not available yet: " ++ message))
          | inl (OtherConfigError msg) =>
              Err (OtherTls (Some endpoint_host)
                (bs "Failed to create tls config for '" ++ server_name ++ bs "'. Err: " ++ msg))
          | inr (config, endpoint_info) =>
              let failed err := bs "failed to perform tls handshake for '" ++ server_name ++ bs "': " ++ err in
              let '(calls, tls_stream) :=
                into_stream peer (certified_key config) (alpn_protocols config)
                  (my_client_cert_verifier <$> client_cert_verifier config) in
              _ ← map_err (fun err =>
                    match client_cert_verifier config with
                    | Some _ =>
                        ClientCertRequired endpoint_host (failed err ++ bs " (endpoint requires a client certificate / mTLS)")
                    | None => OtherTls (Some endpoint_host) (failed err)
                    end) tls_stream;
              Ok (endpoint_info, verifier ← client_cert_verifier config; client_cert_cell verifier calls)
          end
      end
  end.

(** [lazy_accept_tcp_stream]; a panic becomes an error, and so does a
    handshake that is not done when [RESOLVE_TLS_TIMEOUT] has passed. *)
Definition lazy_accept_tcp_stream (c : CertificatesCache) (configuration : Config.HttpListenPortConfiguration)
    (endpoint_port : Z) (timed_out : bool) (peer : Peer) : TlsAcceptError + Accepted :=
  if timed_out then
    inl (OtherTls None (bs "Accepting TLS connection timeout for port: " ++ Str.uint_to_string endpoint_port))
  else
    match lazy_handshake c configuration endpoint_port peer with
    | Ok accepted => inr accepted
    | Err e => inl e
    | Panic => inl (OtherTls None (bs "tls handshake panicked"))
    end.

(** ** [https/handle_connection.rs] *)

Inductive Served :=
  | KickH1 (e : Config.HttpEndpointInfo) (client_certificate : option ClientCertificateData)
  | ServeHttps2 (e : Config.HttpEndpointInfo) (client_certificate : option ClientCertificateData)
  | RunMcp (e : Config.HttpEndpointInfo)
  | RejectedTls (e : TlsAcceptError)
  | NotWhiteListed (e : Config.HttpEndpointInfo).

(** The address of the client, unless it came over a unix socket, and the
    white lists and the block list. *)
Definition https_handle_connection (c : CertificatesCache) (white_lists : Config.WhiteListedIpListConfigurations)
    (configuration : Config.HttpListenPortConfiguration) (endpoint_port : Z) (ip : option WhiteList.IpAddr)
    (timed_out : bool) (peer : Peer) (now : Z) (blocked : IpBlocklist.State) :
    outcome Empty_set (Served * IpBlocklist.State) :=
  match lazy_accept_tcp_stream c configuration endpoint_port timed_out peer with
  | inl err =>
      match ip with
      | Some ip =>
          if should_penalise_client err then
            r ← IpBlocklist.register_failure ip (block_severity err) now blocked;
            Ok (RejectedTls err, snd r)
          else Ok (RejectedTls err, blocked)
      | None => Ok (RejectedTls err, blocked)
      end
  | inr (endpoint_info, client_certificate) =>
      let blocked := match ip with Some ip => IpBlocklist.register_success ip blocked | None => blocked end in
      is_whitelisted ←
        match Config.whitelisted_ip_list_id endpoint_info, ip with
        | Some ip_list_id, Some client_ip => Config.is_white_listed white_lists ip_list_id client_ip
        | _, _ => Ok true
        end;
      Ok (if (is_whitelisted : bool) then
            match Config.listen_endpoint_type endpoint_info with
            | Config.LHttp1 | Config.LHttps1 => KickH1 endpoint_info client_certificate
            | Config.LHttp2 | Config.LHttps2 => ServeHttps2 endpoint_info client_certificate
            | Config.LMcp => RunMcp endpoint_info
            end
          else NotWhiteListed endpoint_info, blocked)
  end.

(** ** [run_mcp_connection.rs]: where the bytes of the client are sent. *)

Inductive McpBridge := BridgeTo (remote_host : bytes) | ClosedMcp.

Definition run_mcp_connection (connects : bytes -> bool) (e : Config.HttpEndpointInfo) : outcome bytes McpBridge :=
  location ← unwrap (head (Config.locations e));
  let remote_host := Config.to_string (Config.proxy_pass_to location) in
  let bridge remote_host := Ok (if (connects remote_host : bool) then BridgeTo remote_host else ClosedMcp) in
  if Str.starts_with (bs "http://") remote_host then bridge (drop 7 remote_host)
  else if Str.starts_with (bs "https://") remote_host then Ok ClosedMcp
  else bridge remote_host.

(** ** [listen_tcp_server.rs], [listen_unix_server.rs] *)

Inductive Handler :=
  | HandleH1 (configuration : Config.HttpListenPortConfiguration)
  | HandleHttp2 (configuration : Config.HttpListenPortConfiguration)
  | HandleTls (configuration : Config.HttpListenPortConfiguration)
  | Forward (configuration : Config.TcpEndpointHostConfig)
  | NotConfigured
  | FromBlockedIp.

Definition handle_accepted_tcp (white_lists : Config.WhiteListedIpListConfigurations) (m : Config.ListenMaps)
    (listen_port : Z) (ip : WhiteList.IpAddr) : outcome Empty_set Handler :=
  match Config.listen_tcp_endpoints m !! listen_port with
  | None => Ok NotConfigured
  | Some listen_config =>
      allowed ←
        match Config.get_white_list_id listen_config with
        | Some white_list_id => Config.is_white_listed white_lists white_list_id ip
        | None => Ok true
        end;
      Ok (if negb allowed then NotConfigured
          else
            match listen_config with
            | Config.ListenHttp configuration =>
                match Config.port_endpoint_type configuration with
                | Config.LHttp1 => HandleH1 configuration
                | Config.LHttp2 => HandleHttp2 configuration
                | Config.LHttps1 | Config.LHttps2 | Config.LMcp => HandleTls configuration
                end
            | Config.ListenTcpForward configuration => Forward configuration
            | Config.ListenMcp configuration => HandleTls configuration
            end)
  end.

(** The body of the accept loop for one connection. *)
Definition accept_tcp (white_lists : Config.WhiteListedIpListConfigurations) (m : Config.ListenMaps) (listen_port : Z)
    (ip : WhiteList.IpAddr) (now : Z) (blocked : IpBlocklist.State) : outcome Empty_set Handler :=
  is_blocked ← IpBlocklist.is_blocked blocked ip now;
  if (is_blocked : bool) then Ok FromBlockedIp else handle_accepted_tcp white_lists m listen_port ip.

Definition accept_unix (m : Config.ListenMaps) (listen_host : bytes) : outcome Empty_set Handler :=
  match Config.listen_unix_socket_endpoints m !! listen_host with
  | None => Ok NotConfigured
  | Some (Config.ListenHttp configuration) =>
      match Config.port_endpoint_type configuration with
      | Config.LHttp1 => Ok (HandleH1 configuration)
      | Config.LHttp2 => Ok (HandleHttp2 configuration)
      | Config.LHttps1 | Config.LHttps2 | Config.LMcp => Panic
      end
  | Some (Config.ListenTcpForward configuration) =>
      match Config.tcp_remote_host configuration with
      | Config.OverSsh _ _ => Panic
      | Config.Gateway _ _ | Config.Direct _ => Ok (Forward configuration)
      end
  | Some (Config.ListenMcp _) => Panic
  end.

End Tls.
(** ** Accept loops: [listen_server_handler.rs], [app/active_listen_ports.rs],
    [scripts/sync_tcp_endpoints.rs], [scripts/sync_unix_endpoints.rs] *)

(** Where the task of an accept loop is: it has not bound its address yet, it
    accepts, it has left the loop, or it has panicked. *)
Inductive Loop := Starting | Running | Finished | Dead.

(** A loop with its [ListenServerHandler]. *)
Record ListenServer := { loop : Loop; shutting_down : bool; tcp_thread_stopped : bool }.

Definition server_new : ListenServer := {| loop := Starting; shutting_down := false; tcp_thread_stopped := false |}.

(** [Connection] with [true] is a connection whose handling panics. *)
Inductive LoopEvent := Bound | BindFails | AcceptError | Connection (panics : bool) | StopSeen | AppShutdown.

Definition leave_loop (s : ListenServer) : ListenServer :=
  {| loop := Finished; shutting_down := shutting_down s; tcp_thread_stopped := tcp_thread_stopped s || shutting_down s |}.

Definition at_loop (l : Loop) (s : ListenServer) : ListenServer :=
  {| loop := l; shutting_down := shutting_down s; tcp_thread_stopped := tcp_thread_stopped s |}.

(** One step of the accept loop; an event that can not happen changes
    nothing. *)
Definition loop_step (s : ListenServer) (e : LoopEvent) : ListenServer :=
  match loop s, e with
  | Starting, Bound => at_loop Running s
  | Starting, BindFails => at_loop Dead s
  | Running, Connection true => at_loop Dead s
  | Running, StopSeen => if shutting_down s then leave_loop s else s
  | Running, AppShutdown => leave_loop s
  | _, _ => s
  end.

Definition run_loop (s : ListenServer) (es : list LoopEvent) : ListenServer := fold_left loop_step es s.

(** [stop]: the flag is set, then the loop's answer is waited for; [es] is
    what happens to the loop meanwhile. *)
Definition stop (s : ListenServer) : ListenServer :=
  {| loop := loop s; shutting_down := true; tcp_thread_stopped := tcp_thread_stopped s |}.

Definition stop_returns (s : ListenServer) (es : list LoopEvent) : bool := tcp_thread_stopped (run_loop (stop s) es).

Section Sync.
Context {K : Type} `{Countable K} (iter_keys : gmap K ListenServer -> list K).

Definition kick_if_needed (m : gmap K ListenServer) (k : K) : gmap K ListenServer :=
  match m !! k with Some _ => m | None => <[k := server_new]> m end.

(** The servers are removed and stopped one after the other; [false] when one
    of them has not stopped. *)
Fixpoint stop_ports (es : K -> list LoopEvent) (l : list K) (m : gmap K ListenServer) : gmap K ListenServer * bool :=
  match l with
  | [] => (m, true)
  | k :: l =>
      match m !! k with
      | Some server_handler =>
          let m := delete k m in
          if stop_returns server_handler (es k) then stop_ports es l m else (m, false)
      | None => stop_ports es l m
      end
  end.

Definition sync_ports (es : K -> list LoopEvent) (to_be_listened : list K) (m : gmap K ListenServer) :
    gmap K ListenServer * bool :=
  let m := fold_left kick_if_needed to_be_listened m in
  stop_ports es (filter (fun k => k ∉ to_be_listened) (iter_keys m)) m.

End Sync.

(** [ActiveListenPorts] and whether its mutex is held by a call that is still
    waiting. *)
Record ActiveListenPorts := { tcp : gmap Z ListenServer; unix : gmap bytes ListenServer; locked : bool }.

Definition no_ports : ActiveListenPorts := {| tcp := ∅; unix := ∅; locked := false |}.

(** [sync_endpoints]: [false] when it does not return. *)
Definition sync_endpoints (iter_tcp : gmap Z ListenServer -> list Z) (iter_unix : gmap bytes ListenServer -> list bytes)
    (tcp_events : Z -> list LoopEvent) (unix_events : bytes -> list LoopEvent) (tcp_ports : list Z)
    (unix_hosts : list bytes) (a : ActiveListenPorts) : ActiveListenPorts * bool :=
  if locked a then (a, false)
  else
    let '(t, done) := sync_ports iter_tcp tcp_events tcp_ports (tcp a) in
    if (done : bool) then
      let '(u, done) := sync_ports iter_unix unix_events unix_hosts (unix a) in
      ({| tcp := t; unix := u; locked := negb done |}, done)
    else ({| tcp := t; unix := unix a; locked := true |}, false).

(** ** What a client certificate is good for *)

Section TlsProofs.
Context `{TlsLibs} `{!Rustls} `{RemoteEndpointLib} `{!SourceLibs} `{FileLibs} `{DateTimeLib}.
Context (self_signed_cert : SslCertificate).

(** [cert] carries a signature of [ca] that is not revoked, and says [data]. *)
Definition vouched (ca : ClientCertificateCa) (cert ca_id : bytes) (data : ClientCertificateData) : Prop :=
  exists issuer x, x509_from_der (ca_content ca) = Some issuer /\ x509_from_der cert = Some x /\
    verify_signature x (subject_public_key issuer) = true /\ serial x ∉ crl_list ca /\
    data_ca_id data = ca_id /\ data_cn data = default [] (head (common_names x) ≫= fun name => name).

Lemma verify_cert_vouched ca cert ca_id data :
  verify_cert ca cert ca_id = Ok (Some data) -> vouched ca cert ca_id data.
Proof.
  unfold verify_cert. destruct (x509_from_der (ca_content ca)) as [issuer|] eqn:Hi; [|done].
  destruct (x509_from_der cert) as [x|] eqn:Hx; [|done]. cbn [unwrap mbind outcome_bind].
  destruct (match common_names x with [] => _ | _ => _ end) as [cn| |] eqn:Hcn; [|done|done]. cbn [mbind outcome_bind].
  destruct (verify_signature _ _) eqn:Hs; [|done]. destruct (existsb _ _) eqn:He; [done|]. intros [= <-].
  exists issuer, x. split_and!; [done..| |done|].
  - intros Hin. assert (existsb (fun r => r =? serial x) (crl_list ca) = true) as Ht; [|congruence].
    apply existsb_exists. exists (serial x). split; [by apply list_elem_of_In|lia].
  - cbn. destruct (common_names x) as [|[name|] names]; cbn in *; by simplify_eq.
Qed.

(** The cell holds what the last accepted certificate says. *)
Lemma cell_vouched ca ca_id calls data :
  client_cert_cell (ca, ca_id) calls = Some data ->
  exists cert now, VerifyClientCert cert now ∈ calls /\ vouched ca cert ca_id data.
Proof.
  unfold client_cert_cell. induction calls as [|call calls IH] using rev_ind; [done|].
  rewrite fold_left_app. cbn [fold_left]. destruct call as [cert now|message cert dss].
  - unfold verify_client_cert at 1. cbn [fst snd].
    destruct (verify_cert ca cert ca_id) as [[d|]| |] eqn:Hv; cbn [fst]; [intros [= <-]|..].
    1: { exists cert, now. split; [apply elem_of_app; right; by left|by apply verify_cert_vouched]. }
    all: intros (c' & now' & Hin & Hc)%IH; exists c', now'; split; [apply elem_of_app; by left|done].
  - intros (c' & now' & Hin & Hc)%IH. exists c', now'. split; [apply elem_of_app; by left|done].
Qed.

Lemma cell_filled ca ca_id calls cert now :
  VerifyClientCert cert now ∈ calls -> on_client_cert (my_client_cert_verifier (ca, ca_id)) cert now = Ok tt ->
  is_Some (client_cert_cell (ca, ca_id) calls).
Proof.
  unfold client_cert_cell. intros Hin Hok. induction calls as [|call calls IH] using rev_ind; [by apply not_elem_of_nil in Hin|].
  rewrite fold_left_app. cbn [fold_left]. apply elem_of_app in Hin as [Hin|Hin%list_elem_of_singleton].
  - destruct call as [cert' now'|message cert' dss]; [|by apply IH]. unfold verify_client_cert at 1.
    destruct (verify_cert _ _ _) as [[d|]| |]; cbn [fst]; [by eexists|by apply IH..].
  - subst call. unfold my_client_cert_verifier, on_client_cert, verify_client_cert in Hok |- *. cbn [fst snd] in *.
    destruct (verify_cert ca cert ca_id) as [[d|]| |]; [by eexists|done..].
Qed.

(** A handshake that succeeded leaves in the cell what the certificate of the
    peer says. *)
Lemma handshake_identity peer key alpn ca ca_id calls :
  into_stream peer key alpn (Some (my_client_cert_verifier (ca, ca_id))) = (calls, Ok tt) ->
  exists cert data, peer_certificate peer = Some cert /\ client_cert_cell (ca, ca_id) calls = Some data /\
    vouched ca cert ca_id data.
Proof.
  intros (cert & now & Hpeer & Hin & Hok & Honly)%into_stream_verified.
  destruct (cell_filled _ _ _ _ _ Hin Hok) as [data Hdata].
  destruct (cell_vouched _ _ _ _ Hdata) as (cert' & now' & Hin' & Hv). rewrite (Honly _ _ Hin') in Hv. eauto 10.
Qed.

Lemma create_config_name c configuration server_name port config e :
  create_config self_signed_cert c configuration server_name port = inr (config, e) ->
  e ∈ Config.endpoints configuration /\ Config.is_my_endpoint e server_name = true /\
  is_Some (Config.ssl_certificate_id e).
Proof.
  unfold create_config. destruct (Config.get_ssl_certificate _ _) as [[id e']|] eqn:Hget; [|done].
  destruct (certified_key_of _ _ _ _); [done|]. destruct (client_ca_of _ _ _); [done|]. intros [= _ <-].
  unfold Config.get_ssl_certificate in Hget. induction (Config.endpoints configuration) as [|x l IH]; [done|].
  cbn in Hget. rewrite elem_of_cons. destruct (Config.is_my_endpoint x server_name) eqn:Hx; [|naive_solver].
  destruct (Config.ssl_certificate_id x) as [id'|] eqn:Hid; [|naive_solver]. injection Hget as <- <-. naive_solver.
Qed.

Lemma create_config_spec c configuration server_name port config e :
  create_config self_signed_cert c configuration server_name port = inr (config, e) ->
  client_cert_verifier config =
    (ca_id ← Config.client_certificate_id e; ca ← client_ca c !! ca_id; Some (ca, ca_id)) /\
  (client_cert_verifier config = None -> Config.client_certificate_id e = None).
Proof.
  unfold create_config. destruct (Config.get_ssl_certificate _ _) as [[ssl_cert_id e']|]; [|done].
  destruct (certified_key_of _ _ _ _); [done|]. unfold client_ca_of.
  destruct (Config.client_certificate_id e') as [ca_id|] eqn:Hca.
  - destruct (client_ca c !! ca_id) as [ca|] eqn:Hc; [|done]. intros [= <- <-]. cbn. rewrite Hca. cbn. by rewrite Hc.
  - intros [= <- <-]. cbn. by rewrite Hca.
Qed.

(** Who the peer is to an endpoint. *)
Definition identified (c : CertificatesCache) (e : Config.HttpEndpointInfo) (peer : Peer)
    (who : option ClientCertificateData) : Prop :=
  match Config.client_certificate_id e with
  | None => who = None
  | Some ca_id =>
      exists ca cert data, client_ca c !! ca_id = Some ca /\ peer_certificate peer = Some cert /\
        who = Some data /\ vouched ca cert ca_id data
  end.

(** The endpoint is the one whose certificate goes by the name the peer asked
    for. *)
Definition asked_for (configuration : Config.HttpListenPortConfiguration) (peer : Peer) (e : Config.HttpEndpointInfo) :
    Prop :=
  exists server_name, client_hello peer = inr (Some server_name) /\
    e ∈ Config.endpoints configuration /\ Config.is_my_endpoint e server_name = true /\
    is_Some (Config.ssl_certificate_id e).

Lemma lazy_accepted c configuration port timed_out peer e who :
  lazy_accept_tcp_stream self_signed_cert c configuration port timed_out peer = inr (e, who) ->
  timed_out = false /\ asked_for configuration peer e /\ identified c e peer who.
Proof.
  unfold lazy_accept_tcp_stream. destruct timed_out; [done|].
  destruct (lazy_handshake _ _ _ _ _) as [[e' who']| |] eqn:Hl; [|done..]. intros [= -> ->]. split; [done|].
  unfold lazy_handshake in Hl. destruct (client_hello peer) as [|[server_name|]] eqn:Hhello; [done| |done].
  destruct (Config.get_http_endpoint_info _ _) as [[found|]| |]; cbn in Hl; [|done..].
  destruct (create_config _ _ _ _ _) as [[]|[config e']] eqn:Hc; [done..|].
  destruct (into_stream _ _ _ _) as [calls tls_stream] eqn:Hs.
  destruct tls_stream as [[]| |]; cbn in Hl; [|done..]. injection Hl as -> <-.
  split; [exists server_name; split; [done|by eapply create_config_name]|].
  apply create_config_spec in Hc as [Hv Hn]. unfold identified.
  destruct (Config.client_certificate_id e) as [ca_id|]; [|by rewrite Hv].
  cbn in Hv. destruct (client_ca c !! ca_id) as [ca|] eqn:Hca; cbn in Hv; [|by specialize (Hn Hv)].
  rewrite Hv in Hs |- *. cbn in Hs. apply handshake_identity in Hs as (cert & data & Hcert & Hcell & Hvouch).
  exists ca, cert, data. split_and!; [done|done|exact Hcell|done].
Qed.

(** The address is on the list of the endpoint, unless it has no list or the
    peer no address. *)
Definition on_list (white_lists : Config.WhiteListedIpListConfigurations) (e : Config.HttpEndpointInfo)
    (ip : option WhiteList.IpAddr) (allowed : bool) : Prop :=
  match Config.whitelisted_ip_list_id e, ip with
  | Some id, Some ip => Config.is_white_listed white_lists id ip = (Ok allowed : outcome Empty_set bool)
  | _, _ => allowed = true
  end.

(** C7: nobody gets through an endpoint that requires client certificates
    without one its authority vouches for.  A connection to a TLS port is handed
    to an endpoint's pipeline only in time, only to the endpoint whose
    certificate goes by the name the client asked for, only to the pipeline of
    that endpoint's type, and only from an address on the endpoint's list, if it
    has one and the client has an address.  If the endpoint requires an
    authority, that authority is loaded, has signed the certificate the client
    sent and not revoked it, and the client goes by the certificate's common
    name and that authority; at every other endpoint it goes by no name.  Its
    failures are forgotten.  A handshake that fails is held against the client's
    address, with the weight of its error, except when the certificate is not
    there yet.  What [rustls] is relied on for is that no handshake succeeds
    without the verifier's consent to the certificate that was sent; that the
    client holds the key of that certificate is not part of this, because the
    verifier accepts any signature. *)
Theorem client_identity_is_vouched c white_lists configuration port ip timed_out peer now blocked served blocked' :
  https_handle_connection self_signed_cert c white_lists configuration port ip timed_out peer now blocked
    = Ok (served, blocked') ->
  let forgiven := match ip with Some ip => IpBlocklist.register_success ip blocked | None => blocked end in
  let passed e who allowed :=
    timed_out = false /\ asked_for configuration peer e /\ identified c e peer who /\ on_list white_lists e ip allowed /\
    blocked' = forgiven in
  match served with
  | KickH1 e who => passed e who true /\ Config.listen_endpoint_type e ∈ [Config.LHttp1; Config.LHttps1]
  | ServeHttps2 e who => passed e who true /\ Config.listen_endpoint_type e ∈ [Config.LHttp2; Config.LHttps2]
  | RunMcp e => (exists who, passed e who true) /\ Config.listen_endpoint_type e = Config.LMcp
  | NotWhiteListed e => exists who, passed e who false
  | RejectedTls err =>
      match ip, err with
      | None, _ | _, CertificateNotAvailable _ _ => blocked' = blocked
      | Some ip, MalformedTls _ =>
          exists newly, IpBlocklist.register_failure ip IpBlocklist.Hard now blocked = Ok (newly, blocked')
      | Some ip, _ =>
          exists newly, IpBlocklist.register_failure ip IpBlocklist.Soft now blocked = Ok (newly, blocked')
      end
  end.
Proof.
  unfold https_handle_connection.
  destruct (lazy_accept_tcp_stream _ _ _ _ _ _) as [err|[e who]] eqn:Ha.
  - destruct ip as [ip|]; [|intros [= <- <-]; done].
    destruct (should_penalise_client err) eqn:Hp; [|intros [= <- <-]; by destruct err].
    destruct (IpBlocklist.register_failure _ _ _ _) as [[newly b]| |] eqn:Hf; cbn; [|done..]. intros [= <- <-].
    destruct err; [by exists newly..|done].
  - apply lazy_accepted in Ha as (Ht & Hn & Hi).
    destruct (match Config.whitelisted_ip_list_id e with Some _ => _ | None => _ end) as [allowed| |] eqn:Hl; cbn; [|done..].
    assert (on_list white_lists e ip allowed) as Hon.
    { unfold on_list. destruct (Config.whitelisted_ip_list_id e), ip; [done|by injection Hl as <-..]. }
    intros [= <- <-]. destruct allowed; [destruct (Config.listen_endpoint_type e) eqn:Hty|]; try (by exists who);
      split; rewrite ?Hty; try done; try (by exists who); set_solver.
Qed.

End TlsProofs.

(** ** Listeners follow the configuration *)

Section SyncProofs.
Context {K : Type} `{Countable K} (iter_keys : gmap K ListenServer -> list K).
Context (iter_spec : forall m k, k ∈ iter_keys m <-> is_Some (m !! k)).

Lemma kick_lookup l (m : gmap K ListenServer) k s : m !! k = Some s -> fold_left kick_if_needed l m !! k = Some s.
Proof.
  revert m. induction l as [|x l IH]; [done|]. intros m Hm. apply IH. unfold kick_if_needed.
  destruct (m !! x) eqn:Hx; [done|]. rewrite lookup_insert_ne by congruence. done.
Qed.

Lemma kick_dom l (m : gmap K ListenServer) k :
  is_Some (fold_left kick_if_needed l m !! k) <-> k ∈ l \/ is_Some (m !! k).
Proof.
  revert m. induction l as [|x l IH]; intros m; [set_solver|]. cbn [fold_left]. rewrite IH. unfold kick_if_needed.
  destruct (m !! x) as [s|] eqn:Hx.
  - rewrite elem_of_cons. naive_solver.
  - rewrite lookup_insert_is_Some, elem_of_cons. destruct (decide (x = k)); naive_solver.
Qed.

Lemma stop_ports_returned es l (m m' : gmap K ListenServer) k :
  stop_ports es l m = (m', true) -> is_Some (m' !! k) <-> is_Some (m !! k) /\ k ∉ l.
Proof.
  revert m. induction l as [|x l IH]; intros m Hs; [injection Hs as <-; set_solver|]. cbn [stop_ports] in Hs.
  rewrite not_elem_of_cons. destruct (m !! x) as [s|] eqn:Hx.
  - destruct (stop_returns s (es x)); [|done]. rewrite (IH _ Hs), lookup_delete_is_Some. naive_solver.
  - rewrite (IH _ Hs). split; [|naive_solver]. intros [Hk Hl]. split_and!; [done| |done]. intros ->. by rewrite Hx in Hk; destruct Hk.
Qed.

Lemma stop_ports_stuck es l (m : gmap K ListenServer) k s :
  k ∈ l -> m !! k = Some s -> stop_returns s (es k) = false -> snd (stop_ports es l m) = false.
Proof.
  revert m. induction l as [|x l IH]; intros m Hk Hm Hs; [set_solver|]. cbn [stop_ports].
  destruct (decide (x = k)) as [->|Hx]; [by rewrite Hm, Hs|]. apply elem_of_cons in Hk as [->|Hk]; [done|].
  destruct (m !! x) as [s'|]; [|by apply IH]. destruct (stop_returns s' (es x)); [|done].
  apply IH; [done|by rewrite lookup_delete_ne|done].
Qed.

Lemma sync_returned es wanted m m' k :
  sync_ports iter_keys es wanted m = (m', true) -> is_Some (m' !! k) <-> k ∈ wanted.
Proof.
  unfold sync_ports. intros Hs. rewrite (stop_ports_returned _ _ _ _ k Hs), list_elem_of_filter, iter_spec.
  rewrite kick_dom. destruct (decide (k ∈ wanted)); naive_solver.
Qed.

Lemma sync_stuck es wanted m k s :
  m !! k = Some s -> k ∉ wanted -> stop_returns s (es k) = false -> snd (sync_ports iter_keys es wanted m) = false.
Proof.
  intros Hm Hk Hs. unfold sync_ports. eapply stop_ports_stuck; [|by apply kick_lookup|done].
  rewrite list_elem_of_filter, iter_spec. split; [done|]. exists s. by apply kick_lookup.
Qed.

End SyncProofs.

(** The task of the loop is gone and nobody has been told. *)
Definition gone (s : ListenServer) : Prop := (loop s = Dead \/ loop s = Finished) /\ tcp_thread_stopped s = false.

Lemma gone_never_stops s es : gone s -> stop_returns s es = false.
Proof.
  intros [Hl Ht]. unfold stop_returns, run_loop.
  assert (fold_left loop_step es (stop s) = stop s) as ->; [|done].
  induction es as [|e es IH]; [done|]. cbn [fold_left].
  assert (loop_step (stop s) e = stop s) as ->; [|done]. unfold loop_step. cbn. by destruct Hl as [-> | ->].
Qed.

(** A listener whose task died can never be taken down.  If the accept
    loop of a port is gone (its address could not be bound, or handling a
    connection panicked) and the port is no longer configured, then a call of
    [sync_endpoints] does not return, whatever happens, and it holds the mutex
    from then on, so that no later call returns either.  A call that does
    return leaves exactly the configured ports and sockets listened on. *)
Theorem dead_listener_blocks_every_reload iter_tcp iter_unix ev uev ports hosts a :
  (forall m k, k ∈ iter_tcp m <-> is_Some (m !! k)) -> (forall m k, k ∈ iter_unix m <-> is_Some (m !! k)) ->
  let '(a', returned) := sync_endpoints iter_tcp iter_unix ev uev ports hosts a in
  (returned = true ->
     (forall port, is_Some (tcp a' !! port) <-> port ∈ ports) /\ (forall host, is_Some (unix a' !! host) <-> host ∈ hosts)) /\
  (forall port s, locked a = false -> tcp a !! port = Some s -> gone s -> port ∉ ports ->
     returned = false /\
     forall ev uev ports hosts, sync_endpoints iter_tcp iter_unix ev uev ports hosts a' = (a', false)).
Proof.
  intros Ht Hu. unfold sync_endpoints at 1. destruct (locked a) eqn:Hl; [by split|].
  destruct (sync_ports iter_tcp ev ports (tcp a)) as [t done_] eqn:Hs. destruct done_.
  - destruct (sync_ports iter_unix uev hosts (unix a)) as [u done_] eqn:Hs'. split.
    + intros ->. cbn. split; intros k; by eapply sync_returned.
    + intros port s _ Hp Hg Hno. pose proof (sync_stuck iter_tcp Ht ev ports (tcp a) port s Hp Hno) as Hst.
      rewrite Hs in Hst. specialize (Hst (gone_never_stops _ _ Hg)). done.
  - split; [done|]. intros port s _ Hp Hg Hno. by split.
Qed.

(** ** Witnesses *)

#[local] Existing Instance demo_tls.
#[local] Existing Instance Config.text_endpoints.
#[local] Existing Instance Sources.demo_sources.
#[local] Existing Instance Content.demo_files.

Definition demo_certificate : SslCertificate := {| cert := [bs "api.a.b"]; key := bs "key" |}.

Definition demo_cache : CertificatesCache :=
  {| ssl_certs := {[ bs "main" := {| ssl_cert := demo_certificate; origin := ManuallyProvided; cert_pem := bs "api.a.b";
                                     private_key_pem := bs "key" |} ]};
     client_ca := {[ bs "staff" := {| ca_content := bs "root"; names := [bs "issuer"];
                                      ca_file_source := {| Sources.ssh_credentials := None; Sources.remote_resource_string := bs "ca.pem" |};
                                      crl_list := []; crl_file_source := None |} ]} |}.

(** A [rustls] to evaluate the model with: a peer is its hello, its certificate
    and the time; the handshake asks for the certificate if there is a verifier,
    and shows it to it with a signature. *)
Definition demo_handshake (peer : (bytes + option bytes) * option bytes) (key : SslCertificate) (alpn : list bytes)
    (verifier : option ClientCertVerifier) : list VerifierCall * outcome bytes unit :=
  match verifier, snd peer with
  | None, _ => ([], Ok tt)
  | Some _, None => ([], Err (bs "peer sent no certificates"))
  | Some v, Some end_entity =>
      match on_client_cert v end_entity 0 with
      | Ok _ => ([VerifyClientCert end_entity 0; VerifyTlsSignature (bs "transcript") end_entity (bs "dss")],
                 on_signature v (bs "transcript") end_entity (bs "dss"))
      | Err e => ([VerifyClientCert end_entity 0], Err e)
      | Panic => ([VerifyClientCert end_entity 0], Panic)
      end
  end.

Lemma demo_handshake_verified peer key alpn v calls :
  demo_handshake peer key alpn (Some v) = (calls, Ok tt) ->
  exists end_entity now, snd peer = Some end_entity /\ VerifyClientCert end_entity now ∈ calls /\
    on_client_cert v end_entity now = Ok tt /\
    forall other now', VerifyClientCert other now' ∈ calls -> other = end_entity.
Proof.
  unfold demo_handshake. destruct (snd peer) as [end_entity|]; [|done].
  destruct (on_client_cert v end_entity 0) as [[]| |] eqn:Hv; [|done..]. intros [= <- _].
  exists end_entity, 0. split_and!; [done|by left|done|].
  intros other now' [[= -> _]|[?|?%not_elem_of_nil]%elem_of_cons]%elem_of_cons; done.
Qed.

Definition demo_rustls : Rustls :=
  {| Peer := (bytes + option bytes) * option bytes; client_hello := fst; peer_certificate := snd;
     into_stream := demo_handshake; into_stream_verified := demo_handshake_verified |}.
#[local] Existing Instance demo_rustls.
#[local] Existing Instance IpBlocklist.micros_lib.

(** Bob, with his certificate, at an endpoint that wants one. *)
Definition demo_peer : Peer := (inr (Some (bs "api.a.b")), Some (bs "bob")).

Definition demo_served : outcome Empty_set (Served * IpBlocklist.State) :=
  https_handle_connection demo_certificate demo_cache ∅ (demo_port Config.LHttps1 (Some (bs "staff"))) 443 None false
    demo_peer 0 IpBlocklist.init.

Lemma client_identity_is_vouched_witness :
  exists e data, demo_served = Ok (KickH1 e (Some data), IpBlocklist.init) /\ data_cn data = bs "bob" /\
    identified demo_cache e demo_peer (Some data).
Proof.
  assert (match demo_served with Ok (KickH1 _ (Some data), _) => data_cn data | _ => [] end = bs "bob") as Hcn
    by (vm_compute; reflexivity).
  destruct demo_served as [[[e [data|]|e who|e|err|e] blocked]| |] eqn:Hd; try discriminate Hcn.
  pose proof (client_identity_is_vouched demo_certificate demo_cache ∅ (demo_port Config.LHttps1 (Some (bs "staff"))) 443
    None false demo_peer 0 IpBlocklist.init _ _ Hd) as H.
  destruct H as [(_ & _ & Hi & _ & Hb) _]. exists e, data. split; [|split; [exact Hcn|exact Hi]].
  cbn in Hb. rewrite Hb. reflexivity.
Defined.

(** A socket that is to speak TLS, and the first connection to it. *)
Definition demo_unix : Config.ListenMaps :=
  {| Config.listen_tcp_endpoints := ∅;
     Config.listen_unix_socket_endpoints := {[ bs "/run/p.sock" := Config.ListenHttp (demo_port Config.LHttps1 None) ]} |}.

Definition demo_dead : ListenServer := run_loop server_new [Bound; Connection true].

Definition demo_listening : ActiveListenPorts := {| tcp := {[ 80 := demo_dead ]}; unix := ∅; locked := false |}.

Definition keys_of {K} `{Countable K} (m : gmap K ListenServer) : list K := map fst (map_to_list m).

Lemma keys_of_spec {K} `{Countable K} (m : gmap K ListenServer) k : k ∈ keys_of m <-> is_Some (m !! k).
Proof.
  unfold keys_of. split.
  - intros ([k' s] & -> & Hin)%list_elem_of_fmap. apply elem_of_map_to_list in Hin. by exists s.
  - intros [s Hs]. apply list_elem_of_fmap. exists (k, s). split; [done|]. by apply elem_of_map_to_list.
Qed.

Lemma dead_listener_blocks_every_reload_witness :
  match accept_unix demo_unix (bs "/run/p.sock") with Panic => True | _ => False end /\
  snd (sync_endpoints keys_of keys_of (fun _ => [StopSeen]) (fun _ => []) [443] [] demo_listening) = false.
Proof.
  split; [vm_compute; exact I|].
  pose proof (dead_listener_blocks_every_reload keys_of keys_of (fun _ => [StopSeen]) (fun _ => []) [443] [] demo_listening
    keys_of_spec keys_of_spec) as Hd.
  destruct (sync_endpoints keys_of keys_of (fun _ => [StopSeen]) (fun _ => []) [443] [] demo_listening) as [a' returned].
  cbn. refine (proj1 (proj2 Hd 80 demo_dead _ _ _ _)); [reflexivity..| |].
  - split; [left|]; reflexivity.
  - apply not_elem_of_cons. split; [discriminate|apply not_elem_of_nil].
Defined.

End Listeners.
