(* ===== verification/Compile.v ===== *)
(** * From the settings to what is listened on: [scripts/*.rs], [flows/*.rs]

    How a host of the settings becomes an endpoint, with the lists, blocks and
    certificates it refers to, and the flows that put all hosts, a port or one
    host into the running configuration.  Every function works on the state of
    the application and may fail on the way, and a flow may wait for ever. *)

From Stdlib Require Import ZArith Lia Strings.Byte.
From stdpp Require Import base tactics list gmap sorting strings.
From S2P Require Import Prelude RustStd H1Headers H1Rewrite ProxyPassConfig OAuthTokens SigningKey OAuthServer IpBlocklist GoogleAuth LocalContent ContentSource Settings SourceFiles Certificates Listeners.

Local Open Scope Z_scope.

(** [serde_yaml] for the settings, whose errors are texts. *)
Class SettingsYaml := { yaml_from_slice : bytes -> outcome bytes Settings.SettingsModel }.

Module Compile.
Import Settings.

#[global] Instance OAuthSettings_eq_dec : EqDecision OAuth.OAuthSettings.
Proof. solve_decision. Defined.

Section State.
Context `{RemoteEndpointLib} `{TlsLibs}.

(** ** The state *)

(** [AppConfigurationInner]; an OAuth block is there with the codes that are
    waiting in it. *)
Record AppConfigurationInner := {
  listen : Config.ListenMaps;
  google_auth_credentials : gmap bytes Google.GoogleAuthCredentials;
  oauth_credentials : gmap bytes (OAuth.OAuthContext * gmap bytes AuthCodes.AuthCode);
  white_list_ip_list : Config.WhiteListedIpListConfigurations;
  error_configurations : gmap bytes bytes
}.

(** [AppContext], the part that is compiled into, with the world around. *)
Record App := {
  current_configuration : AppConfigurationInner;
  allowed_users_list : Config.AllowedUsersList;
  ssl_certificates_cache : Certificates.CertificatesCache;
  ssh_known : Sources.SshKnown;
  next_id : Z;
  pools : ContentSource.Pools;
  world : Sources.World;
  active_listen_ports : Listeners.ActiveListenPorts;
  applied_settings : option SettingsCompiled
}.

Definition set_configuration (c : AppConfigurationInner) (a : App) : App :=
  {| current_configuration := c; allowed_users_list := allowed_users_list a;
     ssl_certificates_cache := ssl_certificates_cache a; ssh_known := ssh_known a; next_id := next_id a;
     pools := pools a; world := world a; active_listen_ports := active_listen_ports a;
     applied_settings := applied_settings a |}.
Definition set_users (u : Config.AllowedUsersList) (a : App) : App :=
  {| current_configuration := current_configuration a; allowed_users_list := u;
     ssl_certificates_cache := ssl_certificates_cache a; ssh_known := ssh_known a; next_id := next_id a;
     pools := pools a; world := world a; active_listen_ports := active_listen_ports a;
     applied_settings := applied_settings a |}.
Definition set_certificates (c : Certificates.CertificatesCache) (a : App) : App :=
  {| current_configuration := current_configuration a; allowed_users_list := allowed_users_list a;
     ssl_certificates_cache := c; ssh_known := ssh_known a; next_id := next_id a; pools := pools a; world := world a;
     active_listen_ports := active_listen_ports a; applied_settings := applied_settings a |}.
Definition set_ssh (k : Sources.SshKnown) (a : App) : App :=
  {| current_configuration := current_configuration a; allowed_users_list := allowed_users_list a;
     ssl_certificates_cache := ssl_certificates_cache a; ssh_known := k; next_id := next_id a; pools := pools a;
     world := world a; active_listen_ports := active_listen_ports a; applied_settings := applied_settings a |}.
Definition set_next_id (id : Z) (a : App) : App :=
  {| current_configuration := current_configuration a; allowed_users_list := allowed_users_list a;
     ssl_certificates_cache := ssl_certificates_cache a; ssh_known := ssh_known a; next_id := id; pools := pools a;
     world := world a; active_listen_ports := active_listen_ports a; applied_settings := applied_settings a |}.
Definition set_pools (p : ContentSource.Pools) (a : App) : App :=
  {| current_configuration := current_configuration a; allowed_users_list := allowed_users_list a;
     ssl_certificates_cache := ssl_certificates_cache a; ssh_known := ssh_known a; next_id := next_id a; pools := p;
     world := world a; active_listen_ports := active_listen_ports a; applied_settings := applied_settings a |}.
Definition set_world (w : Sources.World) (a : App) : App :=
  {| current_configuration := current_configuration a; allowed_users_list := allowed_users_list a;
     ssl_certificates_cache := ssl_certificates_cache a; ssh_known := ssh_known a; next_id := next_id a;
     pools := pools a; world := w; active_listen_ports := active_listen_ports a;
     applied_settings := applied_settings a |}.
Definition set_active (p : Listeners.ActiveListenPorts) (a : App) : App :=
  {| current_configuration := current_configuration a; allowed_users_list := allowed_users_list a;
     ssl_certificates_cache := ssl_certificates_cache a; ssh_known := ssh_known a; next_id := next_id a;
     pools := pools a; world := world a; active_listen_ports := p; applied_settings := applied_settings a |}.
Definition set_applied (s : option SettingsCompiled) (a : App) : App :=
  {| current_configuration := current_configuration a; allowed_users_list := allowed_users_list a;
     ssl_certificates_cache := ssl_certificates_cache a; ssh_known := ssh_known a; next_id := next_id a;
     pools := pools a; world := world a; active_listen_ports := active_listen_ports a; applied_settings := s |}.

Definition set_google (g : gmap bytes Google.GoogleAuthCredentials) (c : AppConfigurationInner) : AppConfigurationInner :=
  {| listen := listen c; google_auth_credentials := g; oauth_credentials := oauth_credentials c;
     white_list_ip_list := white_list_ip_list c; error_configurations := error_configurations c |}.
Definition set_oauth (o : gmap bytes (OAuth.OAuthContext * gmap bytes AuthCodes.AuthCode)) (c : AppConfigurationInner) :
    AppConfigurationInner :=
  {| listen := listen c; google_auth_credentials := google_auth_credentials c; oauth_credentials := o;
     white_list_ip_list := white_list_ip_list c; error_configurations := error_configurations c |}.
Definition set_white_lists (w : Config.WhiteListedIpListConfigurations) (c : AppConfigurationInner) :
    AppConfigurationInner :=
  {| listen := listen c; google_auth_credentials := google_auth_credentials c; oauth_credentials := oauth_credentials c;
     white_list_ip_list := w; error_configurations := error_configurations c |}.
Definition set_listen (m : Config.ListenMaps) (e : gmap bytes bytes) (c : AppConfigurationInner) : AppConfigurationInner :=
  {| listen := m; google_auth_credentials := google_auth_credentials c; oauth_credentials := oauth_credentials c;
     white_list_ip_list := white_list_ip_list c; error_configurations := e |}.

(** ** Functions on the state that may fail, or never return *)

Inductive result (A : Type) : Type := Done (o : outcome bytes A) | Hangs.
Arguments Done {A} o.
Arguments Hangs {A}.

Definition M (A : Type) : Type := App -> App * result A.

#[global] Instance M_ret : MRet M := fun _ x a => (a, Done (Ok x)).
#[global] Instance M_bind : MBind M := fun _ _ k m a =>
  match m a with
  | (a, Done (Ok x)) => k x a
  | (a, Done (Err e)) => (a, Done (Err e))
  | (a, Done Panic) => (a, Done Panic)
  | (a, Hangs) => (a, Hangs)
  end.

Definition lift {A} (r : outcome bytes A) : M A := fun a => (a, Done r).
Definition gets {A} (f : App -> A) : M A := fun a => (a, Done (Ok (f a))).
(** A step that leaves the state alone when it fails. *)
Definition update (f : App -> outcome bytes App) : M unit := fun a =>
  match f a with Ok a' => (a', Done (Ok tt)) | Err e => (a, Done (Err e)) | Panic => (a, Done Panic) end.
(** [current_configuration.write(..)] *)
Definition write (f : AppConfigurationInner -> AppConfigurationInner) : M unit :=
  update (fun a => Ok (set_configuration (f (current_configuration a)) a)).
(** [match m.await { Ok(..) => .., Err(..) => .. }] *)
Definition catch {A} (m : M A) : M (bytes + A) := fun a =>
  match m a with
  | (a, Done (Ok x)) => (a, Done (Ok (inr x)))
  | (a, Done (Err e)) => (a, Done (Ok (inl e)))
  | (a, Done Panic) => (a, Done Panic)
  | (a, Hangs) => (a, Hangs)
  end.

End State.
Arguments Done {A} o.
Arguments Hangs {A}.

Section Compile.
Context `{RemoteEndpointLib} `{!SourceLibs} `{TlsLibs} `{FileLibs} `{OAuthLibs} `{KeyFileJson} `{GoogleLibs}.
Context (oc : bool).

(** ** What a host refers to *)

Definition get_endpoint_template (settings_model : SettingsCompiled) (host_settings : HostSettings) :
    outcome bytes (option EndpointTemplateSettings) :=
  match template_id (endpoint host_settings) with
  | None => Ok None
  | Some template_id =>
      match endpoint_templates settings_model !! template_id with
      | Some endpoint_template_settings => Ok (Some endpoint_template_settings)
      | None => Err (bs "Template with id '" ++ template_id ++ bs "' not found")
      end
  end.

Definition get_from_host_or_templates {R} (settings_model : SettingsCompiled) (host_settings : HostSettings)
    (get_from_host_settings : EndpointSettings -> option R) (get_from_templates : EndpointTemplateSettings -> option R) :
    outcome bytes (option R) :=
  match get_from_host_settings (endpoint host_settings) with
  | Some x => Ok (Some x)
  | None =>
      template ← get_endpoint_template settings_model host_settings;
      Ok (template ≫= get_from_templates)
  end.

(** [refresh_ip_list_from_settings] of [scripts/]; an address that can not be
    read panics. *)
Definition refresh_ip_list_from_settings (settings_model : SettingsCompiled) (white_list_ip_id : bytes) : M unit :=
  ip_list ← lift (ok_or (ip_white_lists settings_model !! white_list_ip_id)
    (bs "Ip list with id '" ++ white_list_ip_id ++ bs "' not found"));
  white_list_ip_list ← lift (map_err (fun e : Empty_set => match e with end) (WhiteList.new ip_list));
  write (fun c => set_white_lists (<[white_list_ip_id := white_list_ip_list]> (Compile.white_list_ip_list c)) c).

Definition get_endpoint_white_listed_ip (settings_model : SettingsCompiled) (host_settings : HostSettings) :
    M (option bytes) :=
  white_list_ip_id ← lift (get_from_host_or_templates settings_model host_settings whitelisted_ip tpl_whitelisted_ip);
  match white_list_ip_id with
  | None => mret None
  | Some white_list_ip_id =>
      _ ← refresh_ip_list_from_settings settings_model white_list_ip_id; mret (Some white_list_ip_id)
  end.

Definition refresh_users_list_from_settings (settings : SettingsCompiled) (users_list_id : bytes) : M unit :=
  user_list ← lift (ok_or (users_lists settings !! users_list_id)
    (bs "User list with id " ++ users_list_id ++ bs " is not found"));
  update (fun a => Ok (set_users (<[users_list_id := list_to_set user_list]> (allowed_users_list a)) a)).

Definition get_endpoint_users_list (settings : SettingsCompiled) (host_settings : HostSettings) : M (option bytes) :=
  match allowed_users (endpoint host_settings) with
  | None => mret None
  | Some allowed_users_list_id =>
      _ ← refresh_users_list_from_settings settings allowed_users_list_id; mret (Some allowed_users_list_id)
  end.

Definition get_global_modify_headers (settings_model : SettingsCompiled) : option ModifyHttpHeadersSettings :=
  g ← global_settings settings_model; all ← all_http_endpoints g; all.

Definition get_endpoint_modify_headers (settings_model : SettingsCompiled) (host_settings : HostSettings) :
    Rewrite.HttpEndpointModifyHeadersSettings :=
  {| Rewrite.global_modify_headers_settings := modify_settings <$> get_global_modify_headers settings_model;
     Rewrite.endpoint_modify_headers_settings := modify_settings <$> modify_http_headers (endpoint host_settings) |}.

(** ** Certificates *)

Definition refresh_ssl_certs_from_sources (settings_model : SettingsCompiled) (ssl_cert_id : bytes) : M unit :=
  update (fun a =>
    c ← Certificates.refresh_ssl_certs_from_sources (ssh_known a) (world a) settings_model ssl_cert_id
          (ssl_certificates_cache a);
    Ok (set_certificates c a)).

Definition refresh_ca_from_sources (settings_model : SettingsCompiled) (ca_id : bytes) : M unit :=
  update (fun a =>
    c ← Certificates.refresh_ca_from_sources (ssh_known a) (world a) settings_model ca_id (ssl_certificates_cache a);
    Ok (set_certificates c a)).

(** A certificate that can not be had does not fail its endpoint. *)
Definition make_sure_ssl_cert_exists (settings_model : SettingsCompiled) (host_settings : HostSettings) : M bytes :=
  ssl_id ← lift (get_from_host_or_templates settings_model host_settings ssl_certificate tpl_ssl_certificate);
  match ssl_id with
  | None => mret Certificates.SELF_SIGNED_CERT_NAME
  | Some ssl_cert_id =>
      if Certificates.is_self_signed ssl_cert_id then mret ssl_cert_id
      else
        ssl_cert_is_loaded ← gets (fun a => Certificates.has_certificate (ssl_certificates_cache a) ssl_cert_id);
        if (ssl_cert_is_loaded : bool) then mret ssl_cert_id
        else _ ← catch (refresh_ssl_certs_from_sources settings_model ssl_cert_id); mret ssl_cert_id
  end.

Definition make_sure_client_ca_exists (settings_model : SettingsCompiled) (host_settings : HostSettings) :
    M (option bytes) :=
  client_ca_id ← lift (get_from_host_or_templates settings_model host_settings client_certificate_ca
    tpl_client_certificate_ca);
  match client_ca_id with
  | None => mret None
  | Some client_ca_id =>
      client_ca_is_loaded ← gets (fun a => Certificates.has_ca (ssl_certificates_cache a) client_ca_id);
      if (client_ca_is_loaded : bool) then mret (Some client_ca_id)
      else _ ← refresh_ca_from_sources settings_model client_ca_id; mret (Some client_ca_id)
  end.

(** ** Sign-in blocks *)

Definition get_google_auth_credentials (settings_model : SettingsCompiled) (host_settings : HostSettings) :
    M (option bytes) :=
  google_auth_id ← lift (get_from_host_or_templates settings_model host_settings google_auth tpl_google_auth);
  match google_auth_id with
  | None => mret None
  | Some google_auth_id =>
      known ← gets (fun a => Google.has_credentials google_auth_id (google_auth_credentials (current_configuration a)));
      if (known : bool) then mret (Some google_auth_id)
      else
        match g_auth settings_model !! google_auth_id with
        | Some s =>
            _ ← write (fun c => set_google (Google.add_or_update google_auth_id
                  {| Google.cred_client_id := g_client_id s; Google.cred_client_secret := g_client_secret s;
                     Google.whitelisted_domains := g_whitelisted_domains s |} (google_auth_credentials c)) c);
            mret (Some google_auth_id)
        | None => lift (Err (bs "Google Auth Credentials " ++ google_auth_id ++ bs " not found"))
        end
  end.

(** [validate] *)
Definition validate (oauth_id : bytes) (s : OAuth.OAuthSettings) : outcome bytes unit :=
  match list_find (fun x => Str.trim (snd x) = [])
          [(bs "client_id", OAuth.client_id s); (bs "client_secret", OAuth.client_secret s);
           (bs "consent_password", OAuth.consent_password s)] with
  | Some (_, (field, _)) =>
      Err (bs "OAuth settings '" ++ oauth_id ++ bs "' have an empty '" ++ field ++
           bs "'. Claude sends the client id and secret on every token request and an empty one would match any client")
  | None => Ok tt
  end.

(** [resolve_signing_key]; the random bytes are counted as drawn even when
    none were needed. *)
Definition pinned_key (s : OAuth.OAuthSettings) : option bytes :=
  signing_key ← OAuth.set_signing_key s;
  let signing_key := Str.trim signing_key in
  if decide (signing_key = []) then None else Some signing_key.

Definition signing_key_path (oauth_id : bytes) (s : OAuth.OAuthSettings) : bytes :=
  format_path (default (SigningKey.default_signing_key_file oauth_id) (OAuth.set_signing_key_file s)).

Definition with_disk (d : gmap bytes bytes) (w : Sources.World) : Sources.World :=
  {| Sources.disk := d; Sources.read_error := Sources.read_error w; Sources.write_failure := Sources.write_failure w;
     Sources.random := Sources.random w; Sources.drawn := S (Sources.drawn w); Sources.http_get := Sources.http_get w;
     Sources.ssh_download := Sources.ssh_download w |}.

Definition load_or_create (path : bytes) : M bytes := fun a =>
  let w := world a in
  let '(d, key) := SigningKey.load_or_create (Sources.read_error w) (Sources.write_failure w path)
    (Sources.random w (Sources.drawn w)) path (Sources.disk w) in
  (set_world (with_disk d w) a, Done key).

Definition resolve_signing_key (oauth_id : bytes) (s : OAuth.OAuthSettings) : M bytes :=
  match pinned_key s with
  | Some signing_key => mret signing_key
  | None => load_or_create (signing_key_path oauth_id s)
  end.

(** [OAuthCredentialsList::is_up_to_date] *)
Definition is_up_to_date (oauth_id : bytes) (s : OAuth.OAuthSettings) (a : App) : bool :=
  match oauth_credentials (current_configuration a) !! oauth_id with
  | Some (context, _) => bool_decide (OAuth.settings context = s)
  | None => false
  end.

Definition get_oauth_credentials (settings_model : SettingsCompiled) (host_settings : HostSettings) : M (option bytes) :=
  oauth_id ← lift (get_from_host_or_templates settings_model host_settings oauth tpl_oauth);
  match oauth_id with
  | None => mret None
  | Some oauth_id =>
      oauth_settings ← lift (ok_or (oauth_blocks settings_model !! oauth_id)
        (bs "OAuth settings '" ++ oauth_id ++ bs "' are not found. Add an 'oauth:' block with that name"));
      _ ← lift (validate oauth_id oauth_settings);
      current ← gets (is_up_to_date oauth_id oauth_settings);
      if (current : bool) then mret (Some oauth_id)
      else
        signing_key ← resolve_signing_key oauth_id oauth_settings;
        _ ← write (fun c => set_oauth (<[oauth_id := (OAuth.context_new oauth_settings signing_key, ∅)]>
              (oauth_credentials c)) c);
        mret (Some oauth_id)
  end.

(** ** Locations: [compile_location_proxy_pass_to.rs] *)

Definition from_resolved (resolved : ResolvedTimeouts) : Config.PoolTuning :=
  {| Config.pool_size := pool_size resolved; Config.ping_timeout := pool_ping_timeout resolved;
     Config.hot_window := pool_hot_window resolved |}.

Definition try_parse (remote_host : bytes) (settings_model : SettingsCompiled) : M Config.MyReverseProxyRemoteEndpoint :=
  w ← gets world; lift (Sources.try_parse w remote_host settings_model).

Definition compile_model (location_settings : LocationSettings) (settings_model : SettingsCompiled)
    (resolved : ResolvedTimeouts) (location_type_name : bytes) : M Config.ProxyPassToModel :=
  proxy_pass_to ← lift (ok_or (loc_proxy_pass_to location_settings)
    (bs "proxy_pass_to is required for " ++ location_type_name ++ bs " location type"));
  remote_host ← try_parse proxy_pass_to settings_model;
  mret {| Config.remote_host := remote_host; Config.request_timeout := request_timeout resolved;
          Config.connect_timeout := connect_timeout resolved; Config.pool_tuning := from_resolved resolved |}.

(** [get_static_content_body]: a text that begins like HTML or JSON is the
    body, and so is one that names no source. *)
Definition get_fist_char (body : bytes) : option bytes :=
  head (filter (fun c => Utf8.is_whitespace c = false) (default [] (Utf8.chars body))).

Definition get_static_content_body (body : bytes) : M bytes :=
  match get_fist_char body with
  | None => mret body
  | Some c =>
      if decide (c = bs "<" \/ c = bs "{") then mret body
      else
        match Sources.try_parse_source body with
        | Some data_source => x ← gets (fun a => (ssh_known a, world a)); lift (Sources.load_file (fst x) (snd x) data_source)
        | None => mret body
        end
  end.

(** [ProxyPassLocationConfig::new] with the pools and the counter. *)
Definition location_new (path : bytes) (modify_headers : option Rewrite.ModifyHttpHeadersSettings)
    (ip_white_list_id : option bytes) (proxy_pass_to : Config.ProxyPassToConfig) (domain_name : option bytes)
    (compress : bool) (auth_header : option bytes) (listen_host : bytes) : M Config.ProxyPassLocationConfig := fun a =>
  let known_id := ContentSource.find_location_id_by_id_string (pools a) in
  let l := Config.location_new path modify_headers ip_white_list_id proxy_pass_to domain_name compress auth_header
             listen_host known_id (next_id a) in
  (match known_id (Config.id_string l) with Some _ => a | None => set_next_id (next_id a + 1) a end, Done (Ok l)).

Definition compile_location_proxy_pass_to (settings_model : SettingsCompiled) (location_settings : LocationSettings)
    (listen_host : bytes) (resolved : ResolvedTimeouts) : M Config.ProxyPassLocationConfig :=
  let path := default (bs "/") (loc_path location_settings) in
  location_type ← lift
    (t ← get_location_type location_settings;
     match t with Some t => Ok t | None => detect_from_location_settings location_settings end);
  let model := compile_model location_settings settings_model resolved in
  proxy_pass_to ←
    match location_type with
    | LocUnixSocketHttp => m ← model (bs "unix+http"); mret (Config.UnixHttp1 m)
    | LocUnixSocketHttp2 => m ← model (bs "unix+http2"); mret (Config.UnixHttp2 m)
    | LocHttp | LocHttps1 => m ← model (bs "http"); mret (Config.Http1 m)
    | LocMcp => m ← model (bs "mcp"); mret (Config.McpHttp1 m)
    | LocMcpH2 => m ← model (bs "mcp-h2"); mret (Config.McpHttp2 m)
    | LocHttp2 | LocHttps2 => m ← model (bs "http2"); mret (Config.Http2 m)
    | LocFiles =>
        proxy_pass_to ← lift (ok_or (loc_proxy_pass_to location_settings)
          (bs "proxy_pass_to is required for files location type"));
        files_path ← try_parse proxy_pass_to settings_model;
        mret (Config.FilesPath {| Config.files_path := files_path; Config.default_file := loc_default_file location_settings |})
    | LocStaticContent =>
        body ← get_static_content_body (default [] (loc_body location_settings));
        mret (Config.Static {| Config.status_code := default 200 (loc_status_code location_settings);
                               Config.content_type := loc_content_type location_settings; Config.static_body := body |})
    | LocDrop => mret Config.Drop
    | LocDynamicProxy =>
        mret (Config.DynamicProxy {| Config.dyn_request_timeout := request_timeout resolved;
                                     Config.dyn_connect_timeout := connect_timeout resolved;
                                     Config.allowed_hosts := loc_allowed_hosts location_settings |})
    end;
  location_new path (modify_settings <$> loc_modify_http_headers location_settings) (loc_whitelisted_ip location_settings)
    proxy_pass_to (loc_domain_name location_settings) (get_compress location_settings)
    (loc_auth_header location_settings) listen_host.

(** ** Endpoints: [compile_http_configuration.rs] *)

Definition type_as_str (t : Config.ListenHttpEndpointType) : bytes :=
  match t with
  | Config.LHttp1 => bs "http" | Config.LHttp2 => bs "http2" | Config.LHttps1 => bs "https"
  | Config.LHttps2 => bs "https2" | Config.LMcp => bs "mcp"
  end.

Definition mcp_oauth_error (host : bytes) : bytes :=
  bs "Endpoint '" ++ host ++
  bs "' is 'type: mcp', which is a raw TCP bridge with no HTTP layer, so 'oauth' can not be applied to it. Use 'type: https' on the endpoint with a location of 'type: mcp' instead".

Definition is_oauth_on_mcp (oauth : option bytes) (t : Config.ListenHttpEndpointType) : bool :=
  match oauth, t with Some _, Config.LMcp => true | _, _ => false end.

Definition mcp_h2_error (listen_host path : bytes) (t : Config.ListenHttpEndpointType) : bytes :=
  bs "Endpoint '" ++ listen_host ++ bs "' is 'type: " ++ type_as_str t ++ bs "' (http/1), but its location '" ++ path ++
  bs "' is 'type: mcp-h2', which requires an http/2 upstream. Use 'type: mcp' here, or move the location to an endpoint of 'type: http2' / 'type: https2'".

Definition is_mcp_http2 (p : Config.ProxyPassToConfig) : bool := match p with Config.McpHttp2 _ => true | _ => false end.

(** The loop over the locations. *)
Fixpoint compile_locations_of (settings_model : SettingsCompiled) (listen_host : bytes)
    (http_type : Config.ListenHttpEndpointType) (endpoint_timeouts : TimeoutsSettings) (l : list LocationSettings) :
    M (list Config.ProxyPassLocationConfig) :=
  match l with
  | [] => mret []
  | location_settings :: l =>
      let resolved := resolve (overriden_by endpoint_timeouts (loc_timeouts location_settings)) in
      location ← compile_location_proxy_pass_to settings_model location_settings listen_host resolved;
      if Config.is_http1_or_mcp http_type && is_mcp_http2 (Config.proxy_pass_to location) then
        lift (Err (mcp_h2_error listen_host (Config.path location) http_type))
      else locations ← compile_locations_of settings_model listen_host http_type endpoint_timeouts l;
           mret (location :: locations)
  end.

Definition compile_http_configuration (settings_model : SettingsCompiled)
    (host_endpoint : Config.EndpointHttpHostString) (host_settings : HostSettings)
    (http_type : Config.ListenHttpEndpointType) : M Config.HttpEndpointInfo :=
  let e := endpoint host_settings in
  endpoint_whitelisted_ip ← get_endpoint_white_listed_ip settings_model host_settings;
  allowed_user_list ← get_endpoint_users_list settings_model host_settings;
  let modify_endpoints_headers := get_endpoint_modify_headers settings_model host_settings in
  '(g_auth, ssl_cert_id, client_cert_ca) ←
    (if Config.is_https_or_mcp http_type then
       ssl_cert_id ← make_sure_ssl_cert_exists settings_model host_settings;
       client_cert_ca ← make_sure_client_ca_exists settings_model host_settings;
       g_auth ← get_google_auth_credentials settings_model host_settings;
       mret (g_auth, Some ssl_cert_id, client_cert_ca)
     else mret (None, None, None));
  oauth ← get_oauth_credentials settings_model host_settings;
  if is_oauth_on_mcp oauth http_type then
    lift (Err (mcp_oauth_error (Config.src host_endpoint)))
  else
    let endpoint_timeouts := overriden_by (get_global_timeouts settings_model) (timeouts e) in
    locations ← compile_locations_of settings_model (Config.src host_endpoint) http_type endpoint_timeouts
      (locations host_settings);
    let mcp_resolved :=
      match Settings.locations host_settings with
      | [] => resolve endpoint_timeouts
      | location_settings :: _ => resolve (overriden_by endpoint_timeouts (loc_timeouts location_settings))
      end in
    mcp_buffer_size ← lift (get_mcp_buffer_size oc e);
    let endpoint_resolved := resolve endpoint_timeouts in
    mret {| Config.host_endpoint := host_endpoint; Config.debug := get_debug e;
            Config.listen_endpoint_type := http_type; Config.g_auth := g_auth; Config.ssl_certificate_id := ssl_cert_id;
            Config.client_certificate_id := client_cert_ca; Config.locations := locations;
            Config.allowed_user_list_id := allowed_user_list; Config.whitelisted_ip_list_id := endpoint_whitelisted_ip;
            Config.track_metrics_by_all_domains := default false (track_metrics_by_all_domains e);
            Config.mcp_settings :=
              {| Config.mcp_read_timeout := read_timeout mcp_resolved; Config.mcp_write_timeout := write_timeout mcp_resolved;
                 Config.mcp_buffer_size := mcp_buffer_size |};
            Config.timeouts := (read_timeout endpoint_resolved, write_timeout endpoint_resolved);
            Config.heads :=
              Rewrite.endpoint_new (get_inject_country e) (Config.is_https http_type) oauth (default true (keep_alive e))
                (default false (hsts e)) modify_endpoints_headers |}.

(** ** TCP forwards: [tcp_endpoint_host_config.rs] *)

Definition tcp_endpoint_new (settings_model : SettingsCompiled) (host_endpoint : Config.EndpointHttpHostString)
    (host_settings : HostSettings) : M Config.TcpEndpointHostConfig :=
  remote_host ← lift
    (match locations host_settings with
     | [] => Err (bs "No location found for tcp host " ++ Config.src host_endpoint)
     | location_settings :: _ =>
         ok_or (loc_proxy_pass_to location_settings) (bs "proxy_pass_to is required for tcp location type")
     end);
  ip_white_list_id ← get_endpoint_white_listed_ip settings_model host_settings;
  remote_host ← try_parse remote_host settings_model;
  let resolved := resolve (overriden_by (get_global_timeouts settings_model) (timeouts (endpoint host_settings))) in
  mret {| Config.tcp_host_endpoint := host_endpoint; Config.tcp_remote_host := remote_host;
          Config.tcp_debug := get_debug (endpoint host_settings); Config.tcp_ip_white_list_id := ip_white_list_id;
          Config.tcp_timeouts := (read_timeout resolved, write_timeout resolved) |}.

(** ** A host: [compile_host_configuration.rs] *)

Definition http_type_of (t : EndpointTypeSettings) : option Config.ListenHttpEndpointType :=
  match t with
  | Http1 => Some Config.LHttp1 | Http2 => Some Config.LHttp2 | Https1 => Some Config.LHttps1
  | Https2 => Some Config.LHttps2 | Mcp => Some Config.LMcp | Tcp => None
  end.

Definition compile_host (settings_model : SettingsCompiled) (host_endpoint : Config.EndpointHttpHostString)
    (host_settings : HostSettings) : M Config.CompiledHost :=
  t ← lift (get_endpoint_type (endpoint host_settings));
  match http_type_of t with
  | Some http_type =>
      e ← compile_http_configuration settings_model host_endpoint host_settings http_type; mret (Config.HttpHost e)
  | None => c ← tcp_endpoint_new settings_model host_endpoint host_settings; mret (Config.TcpHost c)
  end.

Definition compile_host_configuration (settings_model : SettingsCompiled)
    (host_endpoint : Config.EndpointHttpHostString) (host_settings : HostSettings)
    (existing : option Config.ListenConfiguration) : M Config.ListenConfiguration :=
  h ← compile_host settings_model host_endpoint host_settings;
  lift (Config.compile_host_configuration h existing).

(** ** The running configuration *)

(** The order in which the maps are read, and what happens to a listener
    while it is being stopped. *)
Context (iter : forall A, gmap bytes A -> list (bytes * A)).
Context (iter_tcp : gmap Z Listeners.ListenServer -> list Z).
Context (tcp_events : Z -> list Listeners.LoopEvent) (unix_events : bytes -> list Listeners.LoopEvent).
Context (iter_ports : gmap Z Config.ListenConfiguration -> list Z).

Definition sync_endpoints : M unit := fun a =>
  let m := listen (current_configuration a) in
  let '(p, returned) :=
    Listeners.sync_endpoints iter_tcp (fun u => map fst (iter _ u)) tcp_events unix_events
      (iter_ports (Config.listen_tcp_endpoints m)) (map fst (iter _ (Config.listen_unix_socket_endpoints m)))
      (active_listen_ports a) in
  (set_active p a, if (returned : bool) then Done (Ok tt) else Hangs).

(** [update_host_configuration] *)
Definition error_key (e : Config.EndpointHttpHostString) : bytes := Config.src e.

Definition update_host_configuration (settings_model : SettingsCompiled) (host_endpoint : Config.EndpointHttpHostString)
    (host_settings : HostSettings) : M unit :=
  let port := Config.get_port host_endpoint in
  existing ← gets (fun a => Config.lookup_port port (listen (current_configuration a)));
  configuration ← compile_host_configuration settings_model host_endpoint host_settings existing;
  write (fun c => set_listen (Config.set_port port (Some configuration) (listen c))
    (delete (error_key host_endpoint) (error_configurations c)) c).

Definition delete_http_endpoint_if_exists (endpoint_id : bytes) : M unit :=
  host_endpoint ← lift (Config.host_string_new endpoint_id);
  write (fun c => set_listen (Config.delete_http_endpoint_if_exists host_endpoint (listen c)) (error_configurations c) c).

(** [load_everything_from_settings]: the hosts are compiled into maps of their
    own, which replace the running ones at once. *)
Definition Building : Type := Config.ListenMaps * gmap bytes bytes.

Definition nothing_built : Building :=
  ({| Config.listen_tcp_endpoints := ∅; Config.listen_unix_socket_endpoints := ∅ |}, ∅).

Fixpoint build_hosts (settings_model : SettingsCompiled) (l : list (bytes * HostSettings)) (b : Building) : M Building :=
  match l with
  | [] => mret b
  | (host_id, host_settings) :: l =>
      match Config.host_string_new host_id with
      | Panic => lift Panic
      | Err _ => build_hosts settings_model l b
      | Ok endpoint_host =>
          let port := Config.get_port endpoint_host in
          r ← catch (compile_host_configuration settings_model endpoint_host host_settings
                       (Config.lookup_port port (fst b)));
          build_hosts settings_model l
            match r with
            | inr configuration => (Config.set_port port (Some configuration) (fst b), snd b)
            | inl err => (fst b, <[error_key endpoint_host := err]> (snd b))
            end
      end
  end.

Definition update_ssh_config_list (settings_model : SettingsCompiled) : M unit :=
  update (fun a =>
    k ← Sources.update_ssh_config_list iter (world a) settings_model (ssh_known a); Ok (set_ssh k a)).

Definition load_everything_from_settings (settings_model : SettingsCompiled) : M unit :=
  _ ← update_ssh_config_list settings_model;
  built ← build_hosts settings_model (iter _ (hosts settings_model)) nothing_built;
  _ ← write (set_listen (fst built) (snd built));
  _ ← sync_endpoints;
  update (fun a => Ok (set_applied (Some settings_model) a)).

(** [reload_tcp_port_configurations] and [reload_unix_configurations]: the
    hosts the port has, compiled one after the other. *)
Fixpoint compile_port (settings_model : SettingsCompiled) (mine : Config.EndpointHttpHostString -> bool)
    (l : list (bytes * HostSettings)) (new_config : option Config.ListenConfiguration) :
    M (option Config.ListenConfiguration) :=
  match l with
  | [] => mret new_config
  | (host_id, host_settings) :: l =>
      endpoint_host ← lift (Config.host_string_new host_id);
      if mine endpoint_host then
        compiled ← compile_host_configuration settings_model endpoint_host host_settings new_config;
        compile_port settings_model mine l (Some compiled)
      else compile_port settings_model mine l new_config
  end.

Definition reload_port (settings_model : SettingsCompiled) (mine : Config.EndpointHttpHostString -> bool)
    (port : Config.EndpointPort) (key name : bytes) : M bytes :=
  new_config ← compile_port settings_model mine (iter _ (hosts settings_model)) None;
  _ ← write (fun c => set_listen (Config.set_port port new_config (listen c)) (delete key (error_configurations c)) c);
  _ ← sync_endpoints;
  mret (match new_config with Some _ => bs "Updated " | None => bs "Removed " end ++ name).

Definition reload_tcp_port_configurations (settings_model : SettingsCompiled) (port_to_refresh : Z) : M bytes :=
  let text := Str.uint_to_string port_to_refresh in
  reload_port settings_model
    (fun e => match Config.get_port e with Config.TcpPort port => port =? port_to_refresh | Config.UnixSocketPort _ => false end)
    (Config.TcpPort port_to_refresh) text (bs "TCP port " ++ text).

Definition reload_unix_configurations (settings_model : SettingsCompiled) (host_to_refresh : bytes) : M bytes :=
  reload_port settings_model
    (fun e => match Config.get_port e with
              | Config.TcpPort _ => false
              | Config.UnixSocketPort host => bool_decide (host = host_to_refresh)
              end)
    (Config.UnixSocketPort host_to_refresh) host_to_refresh (bs "Unix socket " ++ host_to_refresh).

(** [reload_endpoint_configuration] *)
Definition reload_endpoint_configuration (settings_model : SettingsCompiled) (host_id_to_refresh : bytes) : M bytes :=
  let done := bs "Host configuration " ++ host_id_to_refresh ++ bs " has been reloaded" in
  match list_find (fun x => compare_strings_case_insensitive (fst x) host_id_to_refresh = true) (iter _ (hosts settings_model)) with
  | Some (_, (host_id, host_settings)) =>
      host_endpoint ← lift (Config.host_string_new host_id);
      _ ← update_host_configuration settings_model host_endpoint host_settings;
      _ ← sync_endpoints;
      mret done
  | None =>
      r ← catch (delete_http_endpoint_if_exists host_id_to_refresh);
      match r with
      | inr _ => _ ← sync_endpoints; mret done
      | inl _ => lift (Err (bs "Host configuration " ++ host_id_to_refresh ++ bs " not found"))
      end
  end.

(** ** The flows: [flows/*.rs]

    Every one of them reads the settings first, from the disk as it is. *)
Context `{RewriteLibs} `{SettingsYaml}.

Definition load_settings : M SettingsCompiled := fun a =>
  let w := world a in
  let read_file path := match Sources.fs_read_file w path with inr content => Some content | inl _ => None end in
  (a, Done (Settings.load_settings iter format_path read_file (fun path => bool_decide (is_Some (Sources.disk w !! path)))
              yaml_from_slice)).

Inductive Flow :=
  | LoadEverythingFromSettings
  | ReloadTcpPort (port : Z)
  | ReloadUnix (host : bytes)
  | ReloadEndpoint (host_id : bytes)
  | RefreshIpList (id : bytes)
  | RefreshUsersList (id : bytes)
  | RefreshTlsCertificate (id : bytes)
  | RefreshCa (id : bytes).

Definition run_flow (f : Flow) : M unit :=
  settings_model ← load_settings;
  match f with
  | LoadEverythingFromSettings => load_everything_from_settings settings_model
  | ReloadTcpPort port => _ ← reload_tcp_port_configurations settings_model port; mret tt
  | ReloadUnix host => _ ← reload_unix_configurations settings_model host; mret tt
  | ReloadEndpoint host_id => _ ← reload_endpoint_configuration settings_model host_id; mret tt
  | RefreshIpList id => refresh_ip_list_from_settings settings_model id
  | RefreshUsersList id => refresh_users_list_from_settings settings_model id
  | RefreshTlsCertificate id => refresh_ssl_certs_from_sources settings_model id
  | RefreshCa id => refresh_ca_from_sources settings_model id
  end.

(** The application as it starts, before anything is loaded
    ([AppContext::new]). *)
Definition app_new (w : Sources.World) : App :=
  {| current_configuration :=
       {| listen := {| Config.listen_tcp_endpoints := ∅; Config.listen_unix_socket_endpoints := ∅ |};
          google_auth_credentials := ∅; oauth_credentials := ∅; white_list_ip_list := ∅; error_configurations := ∅ |};
     allowed_users_list := ∅; ssl_certificates_cache := Certificates.no_certificates;
     ssh_known := {| Sources.ssh_config_list := ∅; Sources.ssh_cert_pass_keys := Sources.no_pass_keys |}; next_id := 0;
     pools := ContentSource.no_pools; world := w; active_listen_ports := Listeners.no_ports; applied_settings := None |}.

End Compile.
End Compile.
