(* ===== verification/CompileSpec.v ===== *)
(** * What the flows promise about the running configuration

    What an endpoint of the running configuration refers to is loaded.  The proofs are in a small logic of triples over the
    functions of [Compile]: what a function that compiles may do to the state
    is [quiet]. *)

From Stdlib Require Import ZArith Lia Strings.Byte.
From stdpp Require Import base tactics list gmap sorting strings.
From S2P Require Import Prelude RustStd H1Headers H1Rewrite ProxyPassConfig OAuthTokens SigningKey OAuthServer IpBlocklist GoogleAuth LocalContent ContentSource Settings SourceFiles Certificates Listeners Compile.

Local Open Scope Z_scope.

Module CompileSpec.
Import Settings Compile.
#[local] Existing Instance Config.endpoint_port_eq_dec.

Section Quiet.
Context `{RemoteEndpointLib} `{TlsLibs}.

(** ** What compiling leaves alone

    The running endpoints, the errors and the listeners stay as they are; lists,
    blocks and authorities are never removed, and credentials of Google are
    never changed. *)
Record quiet (a a' : App) : Prop := {
  q_listen : listen (current_configuration a') = listen (current_configuration a);
  q_errors : error_configurations (current_configuration a') = error_configurations (current_configuration a);
  q_active : active_listen_ports a' = active_listen_ports a;
  q_applied : applied_settings a' = applied_settings a;
  q_white : dom (white_list_ip_list (current_configuration a)) ⊆ dom (white_list_ip_list (current_configuration a'));
  q_users : dom (allowed_users_list a) ⊆ dom (allowed_users_list a');
  q_oauth : dom (oauth_credentials (current_configuration a)) ⊆ dom (oauth_credentials (current_configuration a'));
  q_google : google_auth_credentials (current_configuration a) ⊆ google_auth_credentials (current_configuration a');
  q_ca : dom (Certificates.client_ca (ssl_certificates_cache a)) ⊆ dom (Certificates.client_ca (ssl_certificates_cache a'))
}.

#[export] Instance quiet_preorder : PreOrder quiet.
Proof.
  split.
  - intros a. by split.
  - intros a1 a2 a3 [] []. split; [congruence..| | | |by etrans|]; set_solver.
Qed.

(** [m], run where [P] holds, is quiet and comes back, and where it returns [x]
    leaves a state of [Q x]. *)
Definition returns {A} (Q : A -> App -> Prop) (x : App * result A) : Prop :=
  match x with (a, Done (Ok x)) => Q x a | (_, Done _) => True | (_, Hangs) => False end.

Definition triple {A} (P : App -> Prop) (m : M A) (Q : A -> App -> Prop) : Prop :=
  forall a, P a -> quiet a (fst (m a)) /\ returns Q (m a).

Definition lasting (P : App -> Prop) : Prop := forall a a', quiet a a' -> P a -> P a'.

Lemma triple_ret {A} (P : App -> Prop) (x : A) (Q : A -> App -> Prop) : (forall a, P a -> Q x a) -> triple P (mret x) Q.
Proof. intros Hq a Ha. split; [done|]. by apply Hq. Qed.

Lemma triple_bind {A B} (P : App -> Prop) (m : M A) (Q : A -> App -> Prop) (k : A -> M B) (R : B -> App -> Prop) :
  triple P m Q -> (forall x, triple (Q x) (k x) R) -> triple P (m ≫= k) R.
Proof.
  intros Hm Hk a Ha. destruct (Hm a Ha) as [Hq Hx]. unfold mbind, M_bind.
  destruct (m a) as [a1 [[x| |]|]]; cbn in *; try done.
  destruct (Hk x a1 Hx) as [Hq' Hr]. split; [by etrans|done].
Qed.

Lemma triple_lift {A} (P : App -> Prop) (r : outcome bytes A) (Q : A -> App -> Prop) :
  (forall a x, P a -> r = Ok x -> Q x a) -> triple P (lift r) Q.
Proof. intros Hq a Ha. split; [done|]. destruct r; [by apply Hq|done|done]. Qed.

Lemma triple_then {A B} (P : App -> Prop) (m : M B) (x : A) (Q : A -> App -> Prop) :
  triple P m (fun _ a => Q x a) -> triple P (_ ← m; mret x) Q.
Proof. intros Hm. eapply triple_bind; [exact Hm|]. intros y. by apply triple_ret. Qed.

Lemma triple_gets {A} (P : App -> Prop) (f : App -> A) (Q : A -> App -> Prop) :
  (forall a, P a -> Q (f a) a) -> triple P (gets f) Q.
Proof. intros Hq a Ha. split; [done|]. by apply Hq. Qed.

Lemma triple_update (P : App -> Prop) f (Q : unit -> App -> Prop) :
  (forall a a', P a -> f a = Ok a' -> quiet a a' /\ Q tt a') -> triple P (update f) Q.
Proof.
  intros Hf a Ha. unfold update. destruct (f a) as [a'| |] eqn:He; [|by split..]. by apply Hf.
Qed.

Lemma returns_impl {A} (Q Q' : A -> App -> Prop) x : (forall y a, a = fst x -> Q y a -> Q' y a) -> returns Q x -> returns Q' x.
Proof. destruct x as [a [[y| |]|]]; cbn; [|done..]. intros Hq. by apply Hq. Qed.

Lemma triple_conseq {A} (P P' : App -> Prop) (m : M A) (Q Q' : A -> App -> Prop) :
  triple P m Q -> (forall a, P' a -> P a) -> (forall x a, Q x a -> Q' x a) -> triple P' m Q'.
Proof.
  intros Hm Hp Hq a Ha. destruct (Hm a (Hp a Ha)) as [Hquiet Hx]. split; [done|].
  revert Hx. apply returns_impl. intros y a' _. apply Hq.
Qed.

Lemma triple_frame {A} (P F : App -> Prop) (m : M A) (Q : A -> App -> Prop) :
  lasting F -> triple P m Q -> triple (fun a => P a /\ F a) m (fun x a => Q x a /\ F a).
Proof.
  intros Hf Hm a [Ha Hfa]. destruct (Hm a Ha) as [Hq Hx]. split; [done|]. revert Hx. apply returns_impl.
  intros y a' -> Hy. split; [done|by eapply Hf].
Qed.

Lemma triple_catch {A} (P : App -> Prop) (m : M A) (Q : A -> App -> Prop) :
  triple P m Q -> triple P (catch m) (fun r a => match r with inr x => Q x a | inl _ => True end).
Proof.
  intros Hm a Ha. destruct (Hm a Ha) as [Hq Hx]. unfold catch. by destruct (m a) as [a1 [[x| |]|]].
Qed.

(** The rule for a step that needs nothing of the state: what is known and
    lasts stays known. *)
Lemma triple_step {A B} (P : App -> Prop) (m : M A) (Q : A -> App -> Prop) (k : A -> M B) (R : B -> App -> Prop) :
  lasting P -> triple (fun _ => True) m Q -> (forall x, triple (fun a => P a /\ Q x a) (k x) R) -> triple P (m ≫= k) R.
Proof.
  intros Hp Hm Hk. eapply triple_bind.
  - eapply triple_conseq; [apply (triple_frame (fun _ => True) P m Q); [done|exact Hm]|by split|intros x a Hx; exact Hx].
  - intros x. eapply triple_conseq; [apply Hk|tauto|done].
Qed.

Lemma triple_quiet {A} (m : M A) :
  (forall a, quiet a (fst (m a)) /\ snd (m a) <> Hangs) -> triple (fun _ => True) m (fun _ _ => True).
Proof. intros Hm a _. destruct (Hm a) as [Hq Hh]. split; [done|]. by destruct (m a) as [a' [[]|]]. Qed.

Lemma lasting_and P Q : lasting P -> lasting Q -> lasting (fun a => P a /\ Q a).
Proof. intros Hp Hq a a' Ha [HP HQ]. split; [by eapply Hp|by eapply Hq]. Qed.

Lemma lasting_pure (P : Prop) : lasting (fun _ => P).
Proof. by intros a a' _. Qed.

(** ** What an endpoint refers to *)

Definition opt_in (o : option bytes) (d : gset bytes) : Prop := forall id, o = Some id -> id ∈ d.

Lemma opt_in_subseteq o d d' : d ⊆ d' -> opt_in o d -> opt_in o d'.
Proof. intros Hd Ho id Hid. by apply Hd, Ho. Qed.

Lemma opt_in_none d : opt_in None d.
Proof. by intros id. Qed.

Definition white_in (o : option bytes) (a : App) : Prop := opt_in o (dom (white_list_ip_list (current_configuration a))).
Definition users_in (o : option bytes) (a : App) : Prop := opt_in o (dom (allowed_users_list a)).
Definition google_in (o : option bytes) (a : App) : Prop := opt_in o (dom (google_auth_credentials (current_configuration a))).
Definition oauth_in (o : option bytes) (a : App) : Prop := opt_in o (dom (oauth_credentials (current_configuration a))).
Definition ca_in (o : option bytes) (a : App) : Prop := opt_in o (dom (Certificates.client_ca (ssl_certificates_cache a))).

Lemma white_lasting o : lasting (white_in o).
Proof. intros a a' Hq. apply opt_in_subseteq, q_white, Hq. Qed.
Lemma users_lasting o : lasting (users_in o).
Proof. intros a a' Hq. apply opt_in_subseteq, q_users, Hq. Qed.
Lemma google_lasting o : lasting (google_in o).
Proof. intros a a' Hq. apply opt_in_subseteq. by apply subseteq_dom, q_google. Qed.
Lemma oauth_lasting o : lasting (oauth_in o).
Proof. intros a a' Hq. apply opt_in_subseteq, q_oauth, Hq. Qed.
Lemma ca_lasting o : lasting (ca_in o).
Proof. intros a a' Hq. apply opt_in_subseteq, q_ca, Hq. Qed.

End Quiet.

Create HintDb lastingdb.
#[export] Hint Resolve white_lasting users_lasting google_lasting oauth_lasting ca_lasting lasting_and lasting_pure : lastingdb.

(** Takes a chain of steps apart, with [tac] for the step it has come to. *)
Ltac quiet_insert := split; cbn; try reflexivity; apply dom_insert_subseteq.
Ltac seq lem :=
  eapply triple_step; [cbn beta; solve [auto 10 with lastingdb]|eapply lem|let x := fresh "x" in intros x; cbn beta].

Section References.
Context `{RemoteEndpointLib} `{!SourceLibs} `{TlsLibs} `{FileLibs} `{OAuthLibs} `{KeyFileJson} `{GoogleLibs}.
Context (oc : bool).

Abbreviation anything := (fun _ : App => True).

Lemma quiet_lift {A} (r : outcome bytes A) : triple anything (lift r) (fun x _ => r = Ok x).
Proof. by apply triple_lift. Qed.

Lemma ip_list_loads s id : triple anything (refresh_ip_list_from_settings s id) (fun _ => white_in (Some id)).
Proof.
  unfold refresh_ip_list_from_settings. seq @quiet_lift. seq @quiet_lift.
  apply triple_update. intros a a' _ [= <-]. split; [quiet_insert|].
  intros id' [= <-]. apply elem_of_dom, lookup_insert_is_Some. by left.
Qed.

Lemma white_loads s h : triple anything (get_endpoint_white_listed_ip s h) white_in.
Proof.
  unfold get_endpoint_white_listed_ip. seq @quiet_lift. destruct x as [id|].
  - seq ip_list_loads. apply triple_ret. by intros a [_ Ha].
  - apply triple_ret. intros a _. apply opt_in_none.
Qed.

Lemma users_list_loads s id : triple anything (refresh_users_list_from_settings s id) (fun _ => users_in (Some id)).
Proof.
  unfold refresh_users_list_from_settings. seq @quiet_lift.
  apply triple_update. intros a a' _ [= <-]. split; [quiet_insert|].
  intros id' [= <-]. apply elem_of_dom, lookup_insert_is_Some. by left.
Qed.

Lemma users_load s h : triple anything (get_endpoint_users_list s h) users_in.
Proof.
  unfold get_endpoint_users_list. destruct (allowed_users (endpoint h)) as [id|].
  - apply triple_then, users_list_loads.
  - apply triple_ret. intros a _. apply opt_in_none.
Qed.

Lemma quiet_certificates (a : App) c :
  dom (Certificates.client_ca (ssl_certificates_cache a)) ⊆ dom (Certificates.client_ca c) -> quiet a (set_certificates c a).
Proof. intros Hc. by split. Qed.

Lemma refresh_tls_quiet s id : triple anything (refresh_ssl_certs_from_sources s id) (fun _ => anything).
Proof.
  apply triple_update. intros a a' _ Hu.
  match type of Hu with mbind _ ?r = _ => destruct r as [c| |] eqn:Hc end; [|done|done]. injection Hu as <-.
  split; [|done]. apply quiet_certificates. unfold Certificates.refresh_ssl_certs_from_sources in Hc.
  repeat (outcome_inv Hc). simplify_eq. by destruct a0.
Qed.

Lemma refresh_ca_loads s id : triple anything (refresh_ca_from_sources s id) (fun _ => ca_in (Some id)).
Proof.
  apply triple_update. intros a a' _ Hu.
  match type of Hu with mbind _ ?r = _ => destruct r as [c| |] eqn:Hc end; [|done|done]. injection Hu as <-.
  unfold Certificates.refresh_ca_from_sources in Hc. destruct (list_find _ _) as [[? ca]|]; [|done].
  repeat (outcome_inv Hc). simplify_eq. split; [quiet_insert|].
  intros id' [= <-]. cbn. apply elem_of_dom, lookup_insert_is_Some. by left.
Qed.

Lemma ssl_cert_exists s h : triple anything (make_sure_ssl_cert_exists s h) (fun _ _ => True).
Proof.
  unfold make_sure_ssl_cert_exists. seq @quiet_lift. destruct x as [id|]; [|by apply triple_ret].
  destruct (Certificates.is_self_signed id); [by apply triple_ret|].
  eapply triple_bind; [by apply (triple_gets _ _ (fun _ => anything))|]. intros [|]; [by apply triple_ret|].
  apply triple_then. eapply triple_conseq; [apply triple_catch, refresh_tls_quiet|done|done].
Qed.

Lemma ca_loads s h : triple anything (make_sure_client_ca_exists s h) ca_in.
Proof.
  unfold make_sure_client_ca_exists. seq @quiet_lift. destruct x as [id|]; [|apply triple_ret; intros a _; apply opt_in_none].
  eapply triple_bind; [apply (triple_gets _ _ (fun (b : bool) a => b = true -> ca_in (Some id) a))|].
  { intros a _ Hb id' [= <-]. apply elem_of_dom. by apply bool_decide_eq_true in Hb. }
  intros [|]; [apply triple_ret; intros a Ha; by apply Ha|].
  apply triple_then. eapply triple_conseq; [apply refresh_ca_loads|done|done].
Qed.

Lemma google_loads s h : triple anything (get_google_auth_credentials s h) google_in.
Proof.
  unfold get_google_auth_credentials. seq @quiet_lift. destruct x as [id|]; [|apply triple_ret; intros a _; apply opt_in_none].
  eapply triple_bind; [apply (triple_gets _ _ (fun (b : bool) a =>
    if b then google_in (Some id) a else google_auth_credentials (current_configuration a) !! id = None))|].
  { intros a _. unfold Google.has_credentials, Google.GoogleAuthCredentialsList.
    destruct (google_auth_credentials (current_configuration a) !! id) eqn:Hg; [|done].
    intros id' [= <-]. apply elem_of_dom. by eexists. }
  intros [|]; [apply triple_ret; intros a Ha; by apply Ha|].
  destruct (g_auth s !! id) as [g|]; [|by apply triple_lift].
  apply triple_then.
  apply triple_update. intros a a' Hn [= <-]. split.
  - split; cbn; try reflexivity. by apply insert_subseteq.
  - intros id' [= <-]. cbn. apply elem_of_dom, lookup_insert_is_Some. by left.
Qed.

Lemma quiet_disk d a : quiet a (set_world (with_disk d (world a)) a).
Proof. split; reflexivity. Qed.

Lemma signing_key_quiet id b : triple anything (resolve_signing_key id b) (fun _ => anything).
Proof.
  unfold resolve_signing_key. destruct (pinned_key b); [by apply triple_ret|].
  apply triple_quiet. intros a. unfold load_or_create.
  destruct (SigningKey.load_or_create _ _ _ _ _) as [d key]. split; [apply quiet_disk|done].
Qed.

Lemma oauth_loads s h : triple anything (get_oauth_credentials s h) oauth_in.
Proof.
  unfold get_oauth_credentials. seq @quiet_lift. destruct x as [id|]; [|apply triple_ret; intros a _; apply opt_in_none].
  seq @quiet_lift. seq @quiet_lift.
  eapply triple_bind; [apply (triple_gets _ _ (fun (b : bool) a => b = true -> oauth_in (Some id) a))|].
  { intros a _ Hb id' [= <-]. apply elem_of_dom. unfold is_up_to_date in Hb.
    by destruct (oauth_credentials (current_configuration a) !! id) as [[]|]. }
  intros [|]; [apply triple_ret; intros a Ha; by apply Ha|].
  eapply triple_bind; [eapply triple_conseq; [apply signing_key_quiet|done|intros k a Ha; exact Ha]|]. intros signing_key.
  apply triple_then.
  apply triple_update. intros a a' _ [= <-]. split; [quiet_insert|].
  intros id' [= <-]. cbn. apply elem_of_dom, lookup_insert_is_Some. by left.
Qed.

(** ** Locations and endpoints *)

Lemma try_parse_quiet r s : triple anything (try_parse r s) (fun _ => anything).
Proof. apply triple_quiet. intros a. by split. Qed.

Lemma model_quiet l s r n : triple anything (compile_model l s r n) (fun _ => anything).
Proof.
  unfold compile_model. seq @quiet_lift. seq try_parse_quiet. by apply triple_ret.
Qed.

Lemma static_body_quiet b : triple anything (get_static_content_body b) (fun _ => anything).
Proof.
  apply triple_quiet. intros a. unfold get_static_content_body. destruct (get_fist_char b); [|by split].
  case_decide; [by split|]. by destruct (Sources.try_parse_source b).
Qed.

Lemma location_quiet s l host r : triple anything (compile_location_proxy_pass_to s l host r) (fun _ => anything).
Proof.
  unfold compile_location_proxy_pass_to. seq @quiet_lift.
  eapply triple_bind; [instantiate (1 := fun _ => anything)|].
  - destruct x; try (eapply triple_bind; [eapply triple_conseq; [apply model_quiet|done|intros m a Ha; exact Ha]|
      intros m; by apply triple_ret]); try by apply triple_ret.
    + seq @quiet_lift. seq try_parse_quiet. by apply triple_ret.
    + eapply triple_bind; [eapply triple_conseq; [apply static_body_quiet|done|intros m a Ha; exact Ha]|].
      intros m; by apply triple_ret.
  - intros p. apply triple_quiet. intros a. unfold location_new. cbn.
    by destruct (ContentSource.find_location_id_by_id_string _ _).
Qed.

Definition plain_http1 (t : Config.ListenHttpEndpointType) (ls : list Config.ProxyPassLocationConfig) : Prop :=
  Config.is_http1_or_mcp t = true -> Forall (fun l => is_mcp_http2 (Config.proxy_pass_to l) = false) ls.

Lemma locations_quiet s host t et l :
  triple anything (compile_locations_of s host t et l) (fun ls _ => plain_http1 t ls).
Proof.
  induction l as [|x l IH]; [apply triple_ret; intros a _ _; constructor|]. cbn [compile_locations_of].
  eapply triple_bind; [apply location_quiet|]. intros c.
  destruct (Config.is_http1_or_mcp t && is_mcp_http2 (Config.proxy_pass_to c)) eqn:Hb; [by apply triple_lift|].
  eapply triple_bind; [exact IH|]. intros ls. apply triple_ret. intros a Hls Ht. constructor; [|by apply Hls].
  by rewrite Ht in Hb.
Qed.

(** The kinds of endpoints: what only an endpoint behind TLS has, what an MCP
    bridge can not have, and what the HTTP/1 pipeline can not serve. *)
Definition kind_ok (e : Config.HttpEndpointInfo) : Prop :=
  (if Config.is_https_or_mcp (Config.listen_endpoint_type e) then is_Some (Config.ssl_certificate_id e)
   else Config.ssl_certificate_id e = None /\ Config.client_certificate_id e = None /\ Config.g_auth e = None) /\
  (Config.listen_endpoint_type e = Config.LMcp -> Config.oauth e = None) /\
  plain_http1 (Config.listen_endpoint_type e) (Config.locations e).

(** Everything the endpoint refers to is there. *)
Record refs_ok (e : Config.HttpEndpointInfo) (a : App) : Prop := {
  r_white : white_in (Config.whitelisted_ip_list_id e) a;
  r_users : users_in (Config.allowed_user_list_id e) a;
  r_google : google_in (Config.g_auth e) a;
  r_oauth : oauth_in (Config.oauth e) a;
  r_ca : ca_in (Config.client_certificate_id e) a;
  r_kind : kind_ok e
}.

Lemma refs_lasting e : lasting (refs_ok e).
Proof.
  intros a a' Hq []. split; [eapply white_lasting|eapply users_lasting|eapply google_lasting|eapply oauth_lasting
    |eapply ca_lasting|]; done.
Qed.

(** What the part of an endpoint that needs TLS has. *)
Definition tls_part (t : Config.ListenHttpEndpointType) (r : option bytes * option bytes * option bytes) : Prop :=
  if Config.is_https_or_mcp t then is_Some (snd (fst r)) else r = (None, None, None).

Lemma http_loads s h ep t :
  triple anything (compile_http_configuration oc s ep h t) (fun e a => refs_ok e a /\ Config.host_endpoint e = ep).
Proof.
  unfold compile_http_configuration. seq white_loads. seq users_load.
  eapply (triple_step _ _ (fun r a => (google_in (fst (fst r)) a /\ ca_in (snd r) a) /\ tls_part t r));
    [auto 10 with lastingdb| |].
  { unfold tls_part. destruct (Config.is_https_or_mcp t).
    - seq ssl_cert_exists. seq ca_loads. seq google_loads. apply triple_ret. intros a Ha. cbn. split; [tauto|by eexists].
    - apply triple_ret. intros a _. cbn. split; [|done]. split; apply opt_in_none. }
  intros [[g ssl] ca]. seq oauth_loads. destruct (is_oauth_on_mcp x1 t) eqn:Hm; [by apply triple_lift|].
  eapply triple_step; [cbn beta; auto 10 with lastingdb|apply locations_quiet|]. intros ls. cbn beta.
  seq @quiet_lift. apply triple_ret. intros a [[[[[[_ Hw] Hu] [[Hg Hca] Ht]] Ho] Hls] _]. cbn in Hg, Hca.
  assert (forall b c d f g', Rewrite.oauth (Rewrite.endpoint_new b c x1 d f g') = x1) as Hoauth.
  { intros. unfold Rewrite.endpoint_new. destruct (Rewrite.new_request _) as [? st]. by destruct (Rewrite.new_response st). }
  split; [|done].
  split; cbn [Config.whitelisted_ip_list_id Config.allowed_user_list_id Config.g_auth Config.client_certificate_id];
    [done..| |done|].
  - unfold Config.oauth. cbn [Config.heads]. by rewrite Hoauth.
  - unfold kind_ok, Config.oauth. cbn [Config.listen_endpoint_type Config.ssl_certificate_id Config.client_certificate_id
      Config.g_auth Config.locations Config.heads]. rewrite Hoauth. split_and!; [| |done].
    + unfold tls_part in Ht. destruct (Config.is_https_or_mcp t); [done|]. by simplify_eq.
    + intros ->. by destruct x1.
Qed.

Definition tcp_refs_ok (c : Config.TcpEndpointHostConfig) (a : App) : Prop := white_in (Config.tcp_ip_white_list_id c) a.

Lemma tcp_loads s ep h :
  triple anything (tcp_endpoint_new s ep h) (fun c a => tcp_refs_ok c a /\ Config.tcp_host_endpoint c = ep).
Proof.
  unfold tcp_endpoint_new. seq @quiet_lift. seq white_loads. seq try_parse_quiet.
  apply triple_ret. intros a Ha. unfold tcp_refs_ok. cbn. split; [tauto|done].
Qed.

Definition host_refs_ok (h : Config.CompiledHost) (a : App) : Prop :=
  match h with Config.HttpHost e => refs_ok e a | Config.TcpHost c => tcp_refs_ok c a end.

Lemma host_loads s ep h :
  triple anything (compile_host oc s ep h) (fun c a => host_refs_ok c a /\ Config.host_of c = ep).
Proof.
  unfold compile_host. seq @quiet_lift. destruct (http_type_of x) as [t|].
  - eapply triple_bind; [eapply triple_conseq; [apply http_loads|done|intros e a Ha; exact Ha]|].
    intros e. by apply triple_ret.
  - eapply triple_bind; [eapply triple_conseq; [apply tcp_loads|done|intros c a Ha; exact Ha]|].
    intros c. by apply triple_ret.
Qed.

(** ** Ports *)

Definition endpoints_of (l : Config.ListenConfiguration) : list Config.HttpEndpointInfo :=
  match l with
  | Config.ListenHttp c | Config.ListenMcp c => Config.endpoints c
  | Config.ListenTcpForward _ => []
  end.

Definition listen_refs_ok (l : Config.ListenConfiguration) (a : App) : Prop :=
  Forall (fun e => refs_ok e a) (endpoints_of l) /\
  match l with Config.ListenTcpForward c => tcp_refs_ok c a | _ => True end.

Definition opt_listen_ok (l : option Config.ListenConfiguration) (a : App) : Prop :=
  match l with Some l => listen_refs_ok l a | None => True end.

Definition maps_ok (m : Config.ListenMaps) (a : App) : Prop := forall port l, Config.lookup_port port m = Some l -> listen_refs_ok l a.

Lemma forall_refs_lasting es : lasting (fun a => Forall (fun e => refs_ok e a) es).
Proof. intros a a' Hq He. eapply Forall_impl; [exact He|]. intros e. by apply refs_lasting. Qed.

Lemma listen_lasting l : lasting (listen_refs_ok l).
Proof.
  intros a a' Hq [He Ht]. split; [by eapply forall_refs_lasting|]. destruct l; [done| |done]. by eapply white_lasting.
Qed.

Lemma opt_listen_lasting l : lasting (opt_listen_ok l).
Proof. destruct l; [apply listen_lasting|done]. Qed.

Lemma maps_lasting m : lasting (maps_ok m).
Proof. intros a a' Hq Hm port l Hl. eapply listen_lasting; [done|]. by eapply Hm. Qed.

Lemma inserted_endpoints e c x :
  x ∈ Config.endpoints (Config.insert_or_replace_configuration e c) -> x = e \/ x ∈ Config.endpoints c.
Proof.
  unfold Config.insert_or_replace_configuration. cbn. destruct (Config.position _ _) as [i|].
  - intros (j & Hj)%list_elem_of_lookup_1. destruct (decide (i = j)) as [->|Hi].
    + apply list_lookup_insert_Some in Hj. destruct Hj as [(_ & -> & _)|[? _]]; [by left|done].
    + rewrite list_lookup_insert_ne in Hj by done. right. by eapply list_elem_of_lookup_2.
  - rewrite elem_of_app, list_elem_of_singleton. tauto.
Qed.

Lemma compiled_endpoints h existing l x :
  Config.compile_host_configuration h existing = Ok l -> x ∈ endpoints_of l ->
  h = Config.HttpHost x \/ exists old, existing = Some old /\ x ∈ endpoints_of old.
Proof.
  destruct h as [e|c]; cbn; [|intros [= <-] Hx; by apply not_elem_of_nil in Hx].
  unfold Config.merge_http_into_existing. destruct existing as [[c|c|c]|]; cbn; [| done | |].
  3: { intros Hl Hx. assert (x ∈ [e]) as Hx' by (destruct (Config.listen_endpoint_type e); injection Hl as <-; exact Hx).
       apply list_elem_of_singleton in Hx' as ->. by left. }
  all: destruct (Config.check_endpoint_type c e) as [[]| |]; cbn; [|done|done]; intros Hl Hx;
    assert (x ∈ Config.endpoints (Config.insert_or_replace_configuration e c)) as Hx'
      by (destruct (Config.listen_endpoint_type e); injection Hl as <-; exact Hx);
    apply inserted_endpoints in Hx' as [->|Hx']; [by left|right; by eexists].
Qed.

Lemma compiled_listen_ok h existing l a :
  Config.compile_host_configuration h existing = Ok l -> host_refs_ok h a -> opt_listen_ok existing a -> listen_refs_ok l a.
Proof.
  intros Hl Hh He. split.
  - apply Forall_forall. intros x Hx. destruct (compiled_endpoints _ _ _ _ Hl Hx) as [->|(old & -> & Hold)]; [done|].
    destruct He as [He _]. rewrite Forall_forall in He. by apply He.
  - destruct h as [e|c]; cbn in Hl; [|by injection Hl as <-].
    destruct (Config.merge_http_into_existing existing e); cbn in Hl; [|done|done].
    by destruct (Config.listen_endpoint_type e); injection Hl as <-.
Qed.

Lemma configuration_loads s ep h existing :
  triple (opt_listen_ok existing) (compile_host_configuration oc s ep h existing) listen_refs_ok.
Proof.
  unfold compile_host_configuration. eapply triple_step; [apply opt_listen_lasting|apply host_loads|]. intros c. cbn beta.
  apply triple_lift. intros a l (He & Hc & _) Hl. by eapply compiled_listen_ok.
Qed.

Lemma set_port_lookup port port' l m :
  Config.lookup_port port' (Config.set_port port l m) = if decide (port = port') then l else Config.lookup_port port' m.
Proof.
  destruct port as [p|p], port' as [p'|p']; cbn; try (by rewrite decide_False by congruence).
  - destruct (decide (p = p')) as [->|Hp]; [by rewrite lookup_partial_alter_eq, decide_True|].
    rewrite lookup_partial_alter_ne, decide_False by congruence. done.
  - destruct (decide (p = p')) as [->|Hp]; [by rewrite lookup_partial_alter_eq, decide_True|].
    rewrite lookup_partial_alter_ne, decide_False by congruence. done.
Qed.

Lemma set_port_refs port l m a : maps_ok m a -> opt_listen_ok l a -> maps_ok (Config.set_port port l m) a.
Proof.
  intros Hm Hl port' x. rewrite set_port_lookup. case_decide; [intros ->; exact Hl|apply Hm].
Qed.

Lemma delete_refs ep m a : maps_ok m a -> maps_ok (Config.delete_http_endpoint_if_exists ep m) a.
Proof.
  intros Hm. unfold Config.delete_http_endpoint_if_exists.
  assert (forall c c', (exists l, Config.lookup_port (Config.get_port ep) m = Some l /\ endpoints_of l = Config.endpoints c) ->
    Config.delete_configuration ep c = Some c' -> listen_refs_ok (Config.ListenHttp c') a) as Hd.
  { intros c c' (l & Hl & He). unfold Config.delete_configuration. destruct (Config.position _ _) as [i|]; [|done].
    intros [= <-]. split; [|done]. cbn. apply Forall_delete. rewrite <-He. by apply (Hm _ _ Hl). }
  destruct (Config.lookup_port (Config.get_port ep) m) as [[c|c|c]|] eqn:Hp; [|by apply set_port_refs| |done].
  all: destruct (Config.delete_configuration ep c) as [c'|] eqn:Hc; [|done];
    case_decide; apply set_port_refs; try done; eapply Hd; [|done]; by eexists.
Qed.

Lemma build_hosts_loads s l b :
  triple (maps_ok (fst b)) (build_hosts oc s l b) (fun b' => maps_ok (fst b')).
Proof.
  revert b. induction l as [|[id h] l IH]; intros b; [by apply triple_ret|]. cbn [build_hosts].
  destruct (Config.host_string_new id) as [ep| |]; [|apply IH|by apply triple_lift].
  eapply triple_bind with (Q := fun r a => maps_ok (fst b) a /\ match r with inr l => listen_refs_ok l a | inl _ => True end).
  - eapply triple_conseq; [apply (triple_frame (opt_listen_ok (Config.lookup_port (Config.get_port ep) (fst b))) (maps_ok (fst b)));
      [apply maps_lasting|apply triple_catch, configuration_loads]| |].
    + intros a Ha. split; [|done]. destruct (Config.lookup_port _ _) eqn:Hl; [by eapply Ha|done].
    + intros r a [Hr Ha]. by destruct r.
  - intros r. eapply triple_conseq; [apply IH| |done]. intros a [Hm Hl]. destruct r as [err|c]; [done|].
    by apply set_port_refs.
Qed.

Lemma compile_port_loads s mine l c : triple (opt_listen_ok c) (compile_port oc s mine l c) opt_listen_ok.
Proof.
  revert c. induction l as [|[id h] l IH]; intros c; [by apply triple_ret|]. cbn [compile_port].
  eapply triple_step; [apply opt_listen_lasting|apply quiet_lift|]. intros ep. cbn beta.
  destruct (mine ep).
  - eapply triple_bind; [eapply triple_conseq; [apply configuration_loads|tauto|intros x a Hx; exact Hx]|].
    intros x. eapply triple_conseq; [apply IH|done|done].
  - eapply triple_conseq; [apply IH|tauto|done].
Qed.

(** ** The invariant *)

Definition inv (a : App) : Prop := maps_ok (listen (current_configuration a)) a.

Lemma quiet_inv a a' : quiet a a' -> inv a -> inv a'.
Proof. intros Hq Hi. unfold inv. rewrite (q_listen _ _ Hq). by eapply maps_lasting. Qed.

(** What happens between the flows: connections are served, certificates are
    uploaded or renewed, listeners live and die. *)
Definition meanwhile (a a' : App) : Prop := quiet a (set_active (active_listen_ports a) a').

Lemma meanwhile_inv a a' : meanwhile a a' -> inv a -> inv a'.
Proof. intros Hq Hi. pose proof (quiet_inv _ _ Hq Hi) as Hi'. intros port l Hl. destruct (Hi' port l Hl) as [He Ht]. split.
  - eapply Forall_impl; [exact He|]. intros e []. by split.
  - by destruct l.
Qed.

Definition keeps {A} (P : App -> Prop) (m : M A) (Q : A -> App -> Prop) : Prop :=
  forall a, inv a -> P a -> inv (fst (m a)) /\ forall x, snd (m a) = Done (Ok x) -> Q x (fst (m a)).

Lemma keeps_triple {A} P (m : M A) Q : triple P m Q -> keeps P m Q.
Proof.
  intros Hm a Hi Ha. destruct (Hm a Ha) as [Hq Hx]. split; [by eapply quiet_inv|].
  intros x Hd. destruct (m a) as [a' r]. cbn in *. by subst r.
Qed.

Lemma keeps_bind {A B} P (m : M A) Q (k : A -> M B) R :
  keeps P m Q -> (forall x, keeps (Q x) (k x) R) -> keeps P (m ≫= k) R.
Proof.
  intros Hm Hk a Hi Ha. destruct (Hm a Hi Ha) as [Hi' Hx]. unfold mbind, M_bind.
  destruct (m a) as [a1 [[x| |]|]]; cbn in *; try done. by apply Hk, Hx.
Qed.

Lemma keeps_conseq {A} (P P' : App -> Prop) (m : M A) Q :
  keeps P m Q -> (forall a, inv a -> P' a -> P a) -> keeps P' m (fun _ _ => True).
Proof. intros Hm Hp a Hi Ha. destruct (Hm a Hi (Hp a Hi Ha)) as [Hi' _]. by split. Qed.

(** Changes of the listen maps, the errors and the listeners do not touch what
    endpoints refer to. *)
Record same_references (a a' : App) : Prop := {
  same_white : white_list_ip_list (current_configuration a') = white_list_ip_list (current_configuration a);
  same_google : google_auth_credentials (current_configuration a') = google_auth_credentials (current_configuration a);
  same_oauth : oauth_credentials (current_configuration a') = oauth_credentials (current_configuration a);
  same_users : allowed_users_list a' = allowed_users_list a;
  same_certificates : ssl_certificates_cache a' = ssl_certificates_cache a
}.

Lemma same_references_ok m a a' : same_references a a' -> maps_ok m a -> maps_ok m a'.
Proof.
  intros [Hw Hg Ho Hu Hs] Hm port l Hl. destruct (Hm port l Hl) as [He Ht]. split.
  - eapply Forall_impl; [exact He|]. intros e []. split; unfold white_in, users_in, google_in, oauth_in, ca_in;
      rewrite ?Hw, ?Hg, ?Ho, ?Hu, ?Hs; done.
  - destruct l; [done| |done]. unfold tcp_refs_ok, white_in. by rewrite Hw.
Qed.

Lemma keeps_set_listen (P : App -> Prop) f e :
  (forall a, inv a -> P a -> maps_ok (f (listen (current_configuration a))) a) ->
  keeps P (write (fun c => set_listen (f (listen c)) (e (error_configurations c)) c)) (fun _ _ => True).
Proof.
  intros Hf a Hi Ha. split; [|done]. cbn. unfold inv. cbn. apply (same_references_ok _ a); [by split|by apply Hf].
Qed.

Section Flows.
Context (iter : forall A, gmap bytes A -> list (bytes * A)) (iter_tcp : gmap Z Listeners.ListenServer -> list Z).
Context (tcp_events : Z -> list Listeners.LoopEvent) (unix_events : bytes -> list Listeners.LoopEvent).
Context (iter_ports : gmap Z Config.ListenConfiguration -> list Z).

Abbreviation sync := (sync_endpoints iter iter_tcp tcp_events unix_events iter_ports).

Lemma keeps_sync (P : App -> Prop) : keeps P sync (fun _ _ => True).
Proof.
  intros a Hi _. split; [|done]. unfold sync_endpoints.
  destruct (Listeners.sync_endpoints _ _ _ _ _ _ _) as [p r]. cbn. unfold inv. cbn.
  apply (same_references_ok _ a); [by split|exact Hi].
Qed.

Lemma keeps_lift {A} (P : App -> Prop) (r : outcome bytes A) : keeps P (lift r) (fun _ _ => True).
Proof. intros a Hi _. by split. Qed.

Lemma keeps_load s : keeps anything (load_everything_from_settings oc iter iter_tcp tcp_events unix_events iter_ports s)
  (fun _ _ => True).
Proof.
  unfold load_everything_from_settings.
  eapply keeps_bind; [apply (keeps_triple _ _ (fun _ => anything)), triple_update|].
  { intros a a' _ Hu. match type of Hu with mbind _ ?r = _ => destruct r; [|done|done] end. injection Hu as <-.
    split; [split; reflexivity|done]. }
  intros []. eapply keeps_bind; [eapply keeps_triple, triple_conseq; [apply build_hosts_loads| |intros b a Hb; exact Hb]|].
  { intros a _ port l Hl. by destruct port. }
  intros b. eapply keeps_bind; [apply (keeps_set_listen _ (fun _ => fst b) (fun _ => snd b)); intros a _ Hb; exact Hb|].
  intros []. eapply keeps_bind; [apply keeps_sync|]. intros [] a Hi _. split; [|done]. cbn. unfold inv. cbn.
  apply (same_references_ok _ a); [by split|exact Hi].
Qed.

Lemma keeps_reload_port s mine port key name :
  keeps anything (reload_port oc iter iter_tcp tcp_events unix_events iter_ports s mine port key name) (fun _ _ => True).
Proof.
  unfold reload_port. eapply keeps_bind; [eapply keeps_triple, triple_conseq; [apply compile_port_loads|done|intros x a Hx; exact Hx]|].
  intros c. eapply keeps_bind; [apply (keeps_set_listen _ (Config.set_port port c) (delete key))|].
  { intros a Hi Hc. by apply set_port_refs. }
  intros []. eapply keeps_bind; [apply keeps_sync|]. intros [] a Hi _. by split.
Qed.

Lemma keeps_gets_port (P : App -> Prop) port :
  keeps P (gets (fun a => Config.lookup_port port (listen (current_configuration a)))) opt_listen_ok.
Proof.
  intros a Hi _. split; [exact Hi|]. intros x [= <-]. destruct (Config.lookup_port _ _) as [l|] eqn:Hl; [|done].
  by apply (Hi _ _ Hl).
Qed.

Lemma keeps_update_host s ep h : keeps anything (update_host_configuration oc s ep h) (fun _ _ => True).
Proof.
  unfold update_host_configuration. eapply keeps_bind; [apply keeps_gets_port|]. intros existing.
  eapply keeps_bind; [apply keeps_triple, configuration_loads|]. intros c.
  apply (keeps_set_listen _ (Config.set_port _ (Some c)) (delete _)). intros a Hi Hc. by apply set_port_refs.
Qed.

Lemma keeps_delete_host id : keeps anything (delete_http_endpoint_if_exists id) (fun _ _ => True).
Proof.
  unfold delete_http_endpoint_if_exists. eapply keeps_bind; [apply keeps_lift|]. intros ep.
  apply (keeps_set_listen _ (Config.delete_http_endpoint_if_exists ep) (fun e => e)). intros a Hi _. by apply delete_refs.
Qed.

Lemma keeps_catch {A} P (m : M A) Q : keeps P m Q -> keeps P (catch m) (fun _ _ => True).
Proof.
  intros Hm a Hi Ha. destruct (Hm a Hi Ha) as [Hi' _]. unfold catch.
  destruct (m a) as [a1 [[x| |]|]]; by split.
Qed.

Lemma keeps_reload_endpoint s id :
  keeps anything (reload_endpoint_configuration oc iter iter_tcp tcp_events unix_events iter_ports s id) (fun _ _ => True).
Proof.
  unfold reload_endpoint_configuration. destruct (list_find _ _) as [[? [host_id h]]|].
  - eapply keeps_bind; [apply keeps_lift|]. intros ep. eapply keeps_bind; [apply keeps_update_host|]. intros [].
    eapply keeps_bind; [apply keeps_sync|]. intros [] a Hi _. by split.
  - eapply keeps_bind; [eapply keeps_catch, keeps_delete_host|]. intros [err|]; [apply keeps_lift|].
    eapply keeps_bind; [apply keeps_sync|]. intros [] a Hi _. by split.
Qed.
Context `{RewriteLibs} `{SettingsYaml}.

Lemma keeps_flow f : keeps anything (run_flow oc iter iter_tcp tcp_events unix_events iter_ports f) (fun _ _ => True).
Proof.
  unfold run_flow. apply (keeps_bind _ _ (fun _ => anything)); [intros a Hi _; by split|]. intros s. destruct f.
  1: eapply keeps_conseq; [apply keeps_load|done].
  1-2: eapply keeps_bind; [eapply keeps_conseq; [apply keeps_reload_port|done]|intros x a Hi _; by split].
  - eapply keeps_bind; [eapply keeps_conseq; [apply keeps_reload_endpoint|done]|intros x a Hi _; by split].
  - eapply keeps_conseq; [apply keeps_triple, ip_list_loads|done].
  - eapply keeps_conseq; [apply keeps_triple, users_list_loads|done].
  - eapply keeps_conseq; [apply keeps_triple, refresh_tls_quiet|done].
  - eapply keeps_conseq; [apply keeps_triple, refresh_ca_loads|done].
Qed.

End Flows.

Section Reachable.
Context `{RewriteLibs} `{SettingsYaml}.

(** The application over time: a flow runs, to its end or until it fails or
    hangs, or something else happens that loads nothing out. *)
Inductive step : App -> App -> Prop :=
  | StepFlow iter iter_tcp tcp_events unix_events iter_ports f a :
      step a (fst (run_flow oc iter iter_tcp tcp_events unix_events iter_ports f a))
  | StepMeanwhile a a' : meanwhile a a' -> step a a'.

Lemma reachable_refs w a : rtc step (app_new w) a -> inv a.
Proof.
  assert (inv (app_new w)) as Hnew by (intros port l Hl; by destruct port).
  intros Hr. induction Hr as [a|a1 a2 a3 Hs _ IH]; [done|]. apply IH.
  destruct Hs as [iter iter_tcp ev uev iter_ports f a|a a' Hm]; [|by eapply meanwhile_inv].
  by apply keeps_flow.
Qed.

(** C4: an endpoint refers only to what was loaded, but for certificates.
    Whatever flows have run, and however they ended, every endpoint of every
    port that is listened on has its address list, its list of users, its
    sign-in blocks and the authority of its clients loaded, and a TCP forward
    its address list.  A server certificate is only named, by an endpoint
    exactly if it speaks TLS: none by that name may have been loaded, and then
    its connections are cut until one arrives.  The address lists that
    locations name are not covered.  An MCP bridge has no OAuth block, and where
    HTTP/1 is spoken no location has an HTTP/2 MCP upstream. *)
Theorem references_are_loaded w a port l :
  rtc step (app_new w) a -> Config.lookup_port port (listen (current_configuration a)) = Some l ->
  Forall (fun e => refs_ok e a) (endpoints_of l) /\
  match l with Config.ListenTcpForward c => white_in (Config.tcp_ip_white_list_id c) a | _ => True end.
Proof.
  intros Hr Hl. exact (reachable_refs w a Hr port l Hl).
Qed.
End Reachable.

End References.

(** ** A proxy of one host *)

#[local] Existing Instance Config.text_endpoints.
#[local] Existing Instance Sources.demo_sources.
#[local] Existing Instance Certificates.demo_tls.
#[local] Existing Instance Content.demo_files.
#[local] Existing Instance ToyLibs.toy_libs.
#[local] Existing Instance SigningKey.demo_json.
#[local] Existing Instance Google.demo_google.
#[local] Instance demo_env : RewriteLibs :=
  {| placeholders := fun v => [Text v]; env_var := fun name => if decide (name = bs "HOME") then Some (bs "/p") else None;
     lookup_country := fun _ => None |}.

Definition no_timeouts : TimeoutsSettings := timeouts_default.

Definition demo_host : HostSettings :=
  {| endpoint :=
       {| endpoint_type := bs "http"; Settings.ssl_certificate := None; client_certificate_ca := None; google_auth := None;
          oauth := None; modify_http_headers := None; Settings.debug := None; inject_country := None;
          whitelisted_ip := Some (bs "office"); template_id := None; allowed_users := None; keep_alive := None;
          track_metrics_by_all_domains := None; hsts := None; mcp_buffer_size := None; timeouts := no_timeouts |};
     locations :=
       [{| loc_path := None; loc_proxy_pass_to := Some (bs "static"); location_type := None; loc_domain_name := None;
           loc_modify_http_headers := None; loc_default_file := None; loc_status_code := Some 404; loc_content_type := None;
           loc_body := None; loc_whitelisted_ip := None; loc_compress := None; trace_payload := None;
           loc_auth_header := None; loc_allowed_hosts := None; loc_timeouts := no_timeouts |}] |}.

Definition demo_model : SettingsModel :=
  {| sm_hosts := {[ bs "a.b:8000" := demo_host ]}; sm_include := None; sm_dynamic_configurations_file := None;
     sm_variables := None; sm_ssl_certificates := None; sm_client_certificate_ca := None; sm_global_settings := None;
     sm_g_auth := None; sm_oauth := None; sm_ssh := None; sm_endpoint_templates := None; sm_allowed_users := None;
     sm_ip_white_lists := Some {[ bs "office" := [bs "10.0.0.1"] ]}; sm_gateway_server := None; sm_gateway_clients := None |}.

#[local] Instance demo_yaml : SettingsYaml := {| yaml_from_slice := fun _ => Ok demo_model |}.

Definition in_order {A : Type} (m : gmap bytes A) : list (bytes * A) := map_to_list m.

Definition demo_start : App := app_new
  {| Sources.disk := {[ bs "/p/.my-reverse-proxy" := bs "hosts" ]}; Sources.read_error := fun _ => None;
     Sources.write_failure := fun _ => None; Sources.random := fun n => replicate n Byte.x2a; Sources.drawn := 0;
     Sources.http_get := fun _ _ => inl (bs "refused"); Sources.ssh_download := fun _ _ => inl (bs "refused") |}.

Definition demo_run : App * result unit :=
  run_flow false (@in_order) (fun _ => []) (fun _ => []) (fun _ => []) (fun m => map fst (map_to_list m))
    LoadEverythingFromSettings demo_start.

Definition demo_port : Config.EndpointPort := Config.TcpPort 8000.

Lemma references_are_loaded_witness :
  exists l, Config.lookup_port demo_port (listen (current_configuration (fst demo_run))) = Some l /\
    Forall (fun e => refs_ok e (fst demo_run)) (endpoints_of l).
Proof.
  assert (bool_decide (is_Some (Config.lookup_port demo_port (listen (current_configuration (fst demo_run))))) = true) as Hok
    by (vm_compute; reflexivity).
  apply bool_decide_eq_true_1 in Hok as [l Hl]. exists l. split; [exact Hl|].
  refine (proj1 (references_are_loaded false _ (fst demo_run) demo_port l _ Hl)). apply rtc_once.
  exact (StepFlow false _ _ _ _ _ LoadEverythingFromSettings demo_start).
Defined.

(** A TLS endpoint is listened on without the certificate it names, and a
    location without the address list it names: no flow loads either here. *)
Definition demo_bare_host : HostSettings :=
  {| endpoint :=
       {| endpoint_type := bs "https"; Settings.ssl_certificate := Some (bs "lost"); client_certificate_ca := None;
          google_auth := None; oauth := None; modify_http_headers := None; Settings.debug := None;
          inject_country := None; whitelisted_ip := None; template_id := None; allowed_users := None; keep_alive := None;
          track_metrics_by_all_domains := None; hsts := None; mcp_buffer_size := None; timeouts := no_timeouts |};
     locations :=
       [{| loc_path := None; loc_proxy_pass_to := Some (bs "static"); location_type := None; loc_domain_name := None;
           loc_modify_http_headers := None; loc_default_file := None; loc_status_code := Some 404; loc_content_type := None;
           loc_body := None; loc_whitelisted_ip := Some (bs "office"); loc_compress := None; trace_payload := None;
           loc_auth_header := None; loc_allowed_hosts := None; loc_timeouts := no_timeouts |}] |}.

Definition demo_bare : SettingsCompiled :=
  {| ssh := ∅; hosts := {[ bs "a.b:8000" := demo_bare_host ]};
     ssl_certificates := []; client_certificate_cas := []; global_settings := None; g_auth := ∅; oauth_blocks := ∅;
     endpoint_templates := ∅; users_lists := ∅; ip_white_lists := {[ bs "office" := [bs "10.0.0.1"] ]};
     gateway_server := None; gateway_clients := ∅ |}.

Example certificates_and_location_lists_may_be_missing :
  let a := fst (load_everything_from_settings false (@in_order) (fun _ => []) (fun _ => []) (fun _ => [])
                  (fun m => map fst (map_to_list m)) demo_bare demo_start) in
  map (fun e => (Config.ssl_certificate_id e, map Config.ip_white_list_id (Config.locations e)))
    (match Config.lookup_port demo_port (listen (current_configuration a)) with Some l => endpoints_of l | None => [] end)
    = [(Some (bs "lost"), [Some (bs "office")])] /\
  Certificates.has_certificate (ssl_certificates_cache a) (bs "lost") = false /\
  white_list_ip_list (current_configuration a) !! bs "office" = None.
Proof. vm_compute. done. Qed.

End CompileSpec.
