(* ===== verification/ReloadSpec.v ===== *)
(** * What a reload promises about the hosts: [load_everything_from_settings]

    Every host of the settings is served or reported, and nothing of what was
    served before is left: the new configuration is made of endpoints and
    forwards compiled out of the settings, and it is the same whatever was
    listened on, and whatever errors were kept, before. *)

From Stdlib Require Import ZArith Lia Strings.Byte.
From stdpp Require Import base tactics list gmap sorting strings.
From S2P Require Import Prelude RustStd H1Headers H1Rewrite ProxyPassConfig OAuthTokens SigningKey OAuthServer IpBlocklist GoogleAuth LocalContent ContentSource Settings SourceFiles Certificates Listeners Compile CompileSpec.

Local Open Scope Z_scope.

Module ReloadSpec.
Import Settings Compile CompileSpec.
#[local] Existing Instance Config.endpoint_port_eq_dec.

Section Reload.
Context `{RemoteEndpointLib} `{!SourceLibs} `{TlsLibs} `{FileLibs} `{OAuthLibs} `{KeyFileJson} `{GoogleLibs}.
Context (oc : bool).

Abbreviation anything := (fun _ : App => True).

(** ** What is served and what went wrong is not read while compiling *)

(** The same application, but with other things listened on and other errors. *)
Definition with_served (l : Config.ListenMaps) (e : gmap bytes bytes) (a : App) : App :=
  set_configuration (set_listen l e (current_configuration a)) a.

(** [m] does the same whatever is served, and leaves that as it is. *)
Definition blind {A} (m : M A) : Prop :=
  forall l e a, m (with_served l e a) = (with_served l e (fst (m a)), snd (m a)).

Lemma blind_ret {A} (x : A) : blind (mret x).
Proof. done. Qed.

Lemma blind_lift {A} (r : outcome bytes A) : blind (lift r).
Proof. done. Qed.

Lemma blind_bind {A B} (m : M A) (k : A -> M B) : blind m -> (forall x, blind (k x)) -> blind (m ≫= k).
Proof.
  intros Hm Hk l e a. unfold mbind, M_bind. rewrite (Hm l e a).
  destruct (m a) as [a1 [[x|err|]|]]; cbn; [apply Hk|done..].
Qed.

Lemma blind_catch {A} (m : M A) : blind m -> blind (catch m).
Proof. intros Hm l e a. unfold catch. rewrite (Hm l e a). by destruct (m a) as [a1 [[x|err|]|]]. Qed.

Lemma blind_gets {A} (f : App -> A) : (forall l e a, f (with_served l e a) = f a) -> blind (gets f).
Proof. intros Hf l e a. unfold gets. by rewrite Hf. Qed.

Lemma blind_update f :
  (forall l e a, f (with_served l e a) = (a' ← f a; Ok (with_served l e a'))) -> blind (update f).
Proof. intros Hf l e a. unfold update. rewrite Hf. by destruct (f a). Qed.

Lemma blind_if {A} (b : bool) (m n : M A) : blind m -> blind n -> blind (if b then m else n).
Proof. by destruct b. Qed.

End Reload.

Create HintDb blinddb.
#[export] Hint Resolve blind_ret blind_lift blind_bind blind_catch blind_if : blinddb.

(** Goes through a function step by step. *)
Ltac blind_step :=
  match goal with
  | |- blind (_ ≫= _) => apply blind_bind; [|let x := fresh "x" in intros x]
  | |- blind (mret _) => apply blind_ret
  | |- blind (lift _) => apply blind_lift
  | |- blind (catch _) => apply blind_catch
  | |- blind (gets _) => apply blind_gets; reflexivity
  | |- blind (write _) => apply blind_update; reflexivity
  | |- blind (update _) => apply blind_update; intros ? ? ?; try reflexivity
  | |- blind (match ?x with _ => _ end) => destruct x
  | |- blind _ => solve [auto with blinddb]
  end.
Ltac blind_steps := repeat blind_step.

Section Reload2.
Context `{RemoteEndpointLib} `{!SourceLibs} `{TlsLibs} `{FileLibs} `{OAuthLibs} `{KeyFileJson} `{GoogleLibs}.
Context (oc : bool).

Lemma blind_white s h : blind (get_endpoint_white_listed_ip s h).
Proof. unfold get_endpoint_white_listed_ip, refresh_ip_list_from_settings. blind_steps. Qed.

Lemma blind_users s h : blind (get_endpoint_users_list s h).
Proof. unfold get_endpoint_users_list, refresh_users_list_from_settings. blind_steps. Qed.

Lemma blind_certificates (f : App -> outcome bytes Certificates.CertificatesCache) :
  (forall l e a, f (with_served l e a) = f a) -> blind (update (fun a => c ← f a; Ok (set_certificates c a))).
Proof. intros Hf. apply blind_update. intros l e a. rewrite Hf. by destruct (f a). Qed.

Lemma blind_ssl_cert s h : blind (make_sure_ssl_cert_exists s h).
Proof. unfold make_sure_ssl_cert_exists. blind_steps. by apply blind_certificates. Qed.

Lemma blind_ca s h : blind (make_sure_client_ca_exists s h).
Proof. unfold make_sure_client_ca_exists. blind_steps. by apply blind_certificates. Qed.

Lemma blind_google s h : blind (get_google_auth_credentials s h).
Proof. unfold get_google_auth_credentials. blind_steps. Qed.

Lemma blind_signing_key id b : blind (resolve_signing_key id b).
Proof.
  unfold resolve_signing_key. blind_steps. intros l e a. unfold load_or_create. cbn.
  by destruct (SigningKey.load_or_create _ _ _ _ _).
Qed.

Lemma blind_oauth s h : blind (get_oauth_credentials s h).
Proof. unfold get_oauth_credentials. blind_steps. apply blind_signing_key. Qed.

Lemma blind_try_parse r s : blind (try_parse r s).
Proof. unfold try_parse. blind_steps. Qed.

Lemma blind_model l s r n : blind (compile_model l s r n).
Proof. unfold compile_model. blind_steps. apply blind_try_parse. Qed.

Lemma blind_static_body b : blind (get_static_content_body b).
Proof. unfold get_static_content_body. blind_steps. Qed.

Lemma blind_location_new path mh w p d c ah lh : blind (location_new path mh w p d c ah lh).
Proof. intros l e a. unfold location_new. cbn. by destruct (ContentSource.find_location_id_by_id_string _ _). Qed.
End Reload2.

#[export] Hint Resolve blind_white blind_users blind_ssl_cert blind_ca blind_google blind_oauth blind_try_parse blind_model
  blind_static_body blind_location_new : blinddb.

Section Reload3.
Context `{RemoteEndpointLib} `{!SourceLibs} `{TlsLibs} `{FileLibs} `{OAuthLibs} `{KeyFileJson} `{GoogleLibs}.
Context (oc : bool).

Abbreviation anything := (fun _ : App => True).

Lemma blind_location s l host r : blind (compile_location_proxy_pass_to s l host r).
Proof. unfold compile_location_proxy_pass_to. blind_steps. Qed.

Lemma blind_locations s host t et l : blind (compile_locations_of s host t et l).
Proof.
  induction l as [|x l IH]; [done|]. cbn [compile_locations_of]. apply blind_bind; [apply blind_location|].
  intros c. apply blind_if; [done|]. apply blind_bind; [exact IH|done].
Qed.

Lemma blind_host s ep h : blind (compile_host oc s ep h).
Proof.
  unfold compile_host, compile_http_configuration, tcp_endpoint_new. blind_steps; apply blind_locations.
Qed.

Lemma blind_configuration s ep h existing : blind (compile_host_configuration oc s ep h existing).
Proof. apply blind_bind; [apply blind_host|done]. Qed.

Lemma blind_build s l b : blind (build_hosts oc s l b).
Proof.
  revert b. induction l as [|[id h] l IH]; intros b; [done|]. cbn [build_hosts].
  destruct (Config.host_string_new id); [|apply IH|done].
  apply blind_bind; [apply blind_catch, blind_configuration|intros r; apply IH].
Qed.

(** ** Every host is served or reported *)

Lemma host_string_src id ep : Config.host_string_new id = Ok ep -> Config.src ep = id.
Proof.
  unfold Config.host_string_new. destruct (_ || _); [by intros [= <-]|].
  destruct (match Str.find _ _ with Some _ => _ | None => _ end); cbn; [|done|done].
  destruct (Str.parse_uint _ _); [by intros [= <-]|done].
Qed.

(** What is served on a port. *)
Definition hosts_in (l : Config.ListenConfiguration) : list Config.CompiledHost :=
  match l with
  | Config.ListenHttp c | Config.ListenMcp c => map Config.HttpHost (Config.endpoints c)
  | Config.ListenTcpForward c => [Config.TcpHost c]
  end.

Lemma inserted_contains e c : e ∈ Config.endpoints (Config.insert_or_replace_configuration e c).
Proof.
  unfold Config.insert_or_replace_configuration. cbn. destruct (Config.position _ _) as [i|] eqn:Hp; [|set_solver].
  unfold Config.position in Hp. destruct (list_find _ _) as [[i' x]|] eqn:Hf; [|done]. injection Hp as ->.
  apply list_find_Some in Hf as (Hi & _ & _). eapply (list_elem_of_lookup_2 _ i).
  apply list_lookup_insert_eq. by eapply lookup_lt_Some.
Qed.

Lemma inserted_keeps e c x :
  x ∈ Config.endpoints c -> Config.endpoint_str x <> Config.endpoint_str e ->
  x ∈ Config.endpoints (Config.insert_or_replace_configuration e c).
Proof.
  intros (j & Hj)%list_elem_of_lookup_1 Hx. unfold Config.insert_or_replace_configuration. cbn.
  destruct (Config.position _ _) as [i|] eqn:Hp; [|apply elem_of_app; left; by eapply list_elem_of_lookup_2].
  unfold Config.position in Hp. destruct (list_find _ _) as [[i' y]|] eqn:Hf; [|done]. injection Hp as ->.
  apply list_find_Some in Hf as (Hi & Hy & _). apply (list_elem_of_lookup_2 _ j).
  rewrite list_lookup_insert_ne; [done|]. intros ->. by simplify_eq.
Qed.

Lemma compiled_serves h existing l :
  Config.compile_host_configuration h existing = Ok l ->
  match h with
  | Config.HttpHost e =>
      e ∈ endpoints_of l /\
      match existing with
      | Some (Config.ListenTcpForward _) => False
      | Some old => forall x, x ∈ endpoints_of old -> Config.endpoint_str x <> Config.endpoint_str e -> x ∈ endpoints_of l
      | None => True
      end
  | Config.TcpHost c => l = Config.ListenTcpForward c
  end.
Proof.
  destruct h as [e|c]; cbn; [|by intros [= <-]]. unfold Config.merge_http_into_existing.
  assert (forall c, endpoints_of (match Config.listen_endpoint_type e with
    Config.LMcp => Config.ListenMcp c | _ => Config.ListenHttp c end) = Config.endpoints c) as He
    by (intros c; by destruct (Config.listen_endpoint_type e)).
  destruct existing as [[c|c|c]|]; cbn; [|done| |intros [= <-]; rewrite He; split; [left|done]].
  all: destruct (Config.check_endpoint_type c e) as [[]| |]; cbn; [|done|done]; intros [= <-]; rewrite He;
    split; [apply inserted_contains|intros x; apply inserted_keeps].
Qed.

Lemma http_in e l : Config.HttpHost e ∈ hosts_in l <-> e ∈ endpoints_of l.
Proof.
  destruct l as [c|c|c]; cbn; [| |].
  all: try (rewrite list_elem_of_fmap; split; [by intros (x & [= ->] & ?)|by exists e]).
  rewrite list_elem_of_singleton. split; [done|by intros ?%not_elem_of_nil].
Qed.

Lemma compiled_hosts h existing l c :
  Config.compile_host_configuration h existing = Ok l -> c ∈ hosts_in l ->
  c = h \/ exists old, existing = Some old /\ c ∈ hosts_in old.
Proof.
  intros Hl Hc. destruct c as [x|f].
  - apply http_in in Hc. destruct (compiled_endpoints _ _ _ _ Hl Hc) as [->|(old & -> & Hold)]; [by left|right].
    exists old. split; [done|by apply http_in].
  - left. destruct l as [k|k|k]; cbn in Hc.
    1,3: apply list_elem_of_fmap in Hc as (? & ? & _); done.
    all: apply list_elem_of_singleton in Hc as [= ->]; destruct h as [e|c]; cbn in Hl; [|by injection Hl as ->];
      destruct (Config.merge_http_into_existing existing e); cbn in Hl; [|done..];
      by destruct (Config.listen_endpoint_type e).
Qed.

Section Built.
Context (s : SettingsCompiled) (a0 : App).

(** [c] is what [h] was compiled to, in a state the reload went through. *)
Definition compiled_from (h : HostSettings) (ep : Config.EndpointHttpHostString) (c : Config.CompiledHost) : Prop :=
  exists a1 a2, quiet a0 a1 /\ compile_host oc s ep h a1 = (a2, Done (Ok c)).

(** The host is served on its port, or a TCP forward has taken the port. *)
Definition served (h : HostSettings) (ep : Config.EndpointHttpHostString) (m : Config.ListenMaps) : Prop :=
  exists l, Config.lookup_port (Config.get_port ep) m = Some l /\
    ((exists c, c ∈ hosts_in l /\ compiled_from h ep c) \/ exists c, l = Config.ListenTcpForward c).

Lemma compiled_from_host h ep c : compiled_from h ep c -> Config.host_of c = ep.
Proof.
  intros (a1 & a2 & _ & Hc). destruct (host_loads oc s ep h a1 I) as [_ Hr]. rewrite Hc in Hr. apply Hr.
Qed.

Lemma configuration_host ep h existing :
  triple (quiet a0) (compile_host_configuration oc s ep h existing)
    (fun l _ => exists c, Config.compile_host_configuration c existing = Ok l /\ compiled_from h ep c).
Proof.
  intros a Ha. destruct (host_loads oc s ep h a I) as [Hq Hr].
  unfold compile_host_configuration, mbind, M_bind, lift.
  destruct (compile_host oc s ep h a) as [a1 [[c|err|]|]] eqn:Hc; cbn in *; [|done..].
  split; [done|]. destruct (Config.compile_host_configuration c existing) as [l| |] eqn:Hl; [|done..].
  exists c. split; [done|]. by exists a, a1.
Qed.

(** What has been built out of the hosts [done]. *)
Record built_ok (done : list (bytes * HostSettings)) (b : Building) : Prop := {
  b_served : forall id h ep, (id, h) ∈ done -> Config.host_string_new id = Ok ep ->
    is_Some (snd b !! id) \/ served h ep (fst b);
  b_known : forall port l c, Config.lookup_port port (fst b) = Some l -> c ∈ hosts_in l ->
    exists id h ep, (id, h) ∈ done /\ Config.host_string_new id = Ok ep /\ Config.get_port ep = port /\ compiled_from h ep c;
  b_errors : forall id, is_Some (snd b !! id) -> id ∈ map fst done
}.

Lemma known_mono port c done more :
  (exists id h ep, (id, h) ∈ done /\ Config.host_string_new id = Ok ep /\ Config.get_port ep = port /\ compiled_from h ep c) ->
  exists id h ep, (id, h) ∈ done ++ more /\ Config.host_string_new id = Ok ep /\ Config.get_port ep = port /\
    compiled_from h ep c.
Proof. intros (id & h & ep & Hin & Hr). exists id, h, ep. split; [apply elem_of_app; by left|done]. Qed.

Lemma built_error done id h ep err b :
  built_ok done b -> Config.host_string_new id = Ok ep ->
  built_ok (done ++ [(id, h)]) (fst b, <[error_key ep := err]> (snd b)).
Proof.
  intros [Hs Hk He] Hid. unfold error_key. rewrite (host_string_src _ _ Hid). split; cbn.
  - intros id' h' ep' [Hin|[= -> ->]%list_elem_of_singleton]%elem_of_app Hep; rewrite lookup_insert_is_Some'; [|tauto].
    destruct (Hs id' h' ep' Hin Hep); tauto.
  - intros port l c Hl Hc. eapply known_mono, Hk; done.
  - intros id' [->|Hid']%lookup_insert_is_Some'; rewrite map_app; apply elem_of_app; [right; by left|left; by apply He].
Qed.

Lemma built_skip done id h b :
  built_ok done b -> (forall ep, Config.host_string_new id <> Ok ep) -> built_ok (done ++ [(id, h)]) b.
Proof.
  intros [Hs Hk He] Hid. split.
  - intros id' h' ep [Hin|[= -> ->]%list_elem_of_singleton]%elem_of_app Hep; [by eapply Hs|by apply Hid in Hep].
  - intros port l c Hl Hc. eapply known_mono, Hk; done.
  - intros id' Hid'. rewrite map_app. apply elem_of_app. left. by apply He.
Qed.

(** A host of another name stays served. *)
Lemma served_stays h' ep' ep c l (b : Building) :
  served h' ep' (fst b) -> Config.src ep' <> Config.src ep -> Config.host_of c = ep ->
  Config.compile_host_configuration c (Config.lookup_port (Config.get_port ep) (fst b)) = Ok l ->
  served h' ep' (Config.set_port (Config.get_port ep) (Some l) (fst b)).
Proof.
  intros (old & Hold & Hserved) Hne Hc Hl. unfold served. rewrite set_port_lookup.
  case_decide as Hport; [|by exists old]. exists l. split; [done|].
  pose proof (compiled_serves _ _ _ Hl) as Hserves. rewrite Hport, Hold in Hserves.
  destruct c as [e|c]; [|right; by exists c]. left. destruct Hserves as [_ Hkeep].
  destruct Hserved as [(x & Hx & Hfrom)|(c & ->)]; [|done]. exists x. split; [|done].
  destruct x as [x|f]; [|destruct old; cbn in Hx; [by apply list_elem_of_fmap in Hx as (? & ? & _)|done
    |by apply list_elem_of_fmap in Hx as (? & ? & _)]].
  apply http_in. apply http_in in Hx. pose proof (compiled_from_host _ _ _ Hfrom) as Hof. cbn in Hof, Hc.
  assert (Config.endpoint_str x <> Config.endpoint_str e) by (unfold Config.endpoint_str; by rewrite Hof, Hc).
  destruct old; [by apply Hkeep|done|by apply Hkeep].
Qed.

Lemma built_host done id h ep c l b :
  built_ok done b -> id ∉ map fst done -> Config.host_string_new id = Ok ep -> compiled_from h ep c ->
  Config.compile_host_configuration c (Config.lookup_port (Config.get_port ep) (fst b)) = Ok l ->
  built_ok (done ++ [(id, h)]) (Config.set_port (Config.get_port ep) (Some l) (fst b), snd b).
Proof.
  intros [Hs Hk He] Hnew Hid Hfrom Hl. pose proof (compiled_from_host _ _ _ Hfrom) as Hc. split; cbn.
  - intros id' h' ep' [Hin|[= -> ->]%list_elem_of_singleton]%elem_of_app Hep.
    + destruct (Hs id' h' ep' Hin Hep) as [|Hserved]; [by left|right]. eapply served_stays; [done| |done|done].
      rewrite (host_string_src _ _ Hep), (host_string_src _ _ Hid). intros ->. apply Hnew.
      apply list_elem_of_fmap. by exists (id, h').
    + assert (ep' = ep) as -> by congruence. right. unfold served. rewrite set_port_lookup, decide_True by done.
      exists l. split; [done|]. pose proof (compiled_serves _ _ _ Hl) as Hserves.
      destruct c as [e|c]; [left|right; by exists c]. exists (Config.HttpHost e). split; [apply http_in; tauto|done].
  - intros port l' x. rewrite set_port_lookup. case_decide as Hport; [|intros Hl' Hx; by eapply known_mono, Hk].
    intros [= <-] Hx. destruct (compiled_hosts _ _ _ _ Hl Hx) as [->|(old & Hold & Hx')].
    + exists id, h, ep. split_and!; [apply elem_of_app; right; by left|done|done|done].
    + apply known_mono. eapply Hk; [by rewrite <-Hport|done].
  - intros id' Hid'. rewrite map_app. apply elem_of_app. left. by apply He.
Qed.

Lemma nothing_built_ok : built_ok [] nothing_built.
Proof.
  split; [by intros id h ep Hin%not_elem_of_nil|intros [port|port] l x Hl; by destruct port|by intros id [x Hx]].
Qed.

Lemma build_hosts_built l done b :
  NoDup (map fst (done ++ l)) -> built_ok done b ->
  triple (quiet a0) (build_hosts oc s l b) (fun b' _ => built_ok (done ++ l) b').
Proof.
  revert done b. induction l as [|[id h] l IH]; intros done b Hnd Hb.
  { apply triple_ret. intros a _. by rewrite app_nil_r. }
  cbn [build_hosts]. assert (done ++ (id, h) :: l = (done ++ [(id, h)]) ++ l) as Heq by (by rewrite <-app_assoc).
  assert (id ∉ map fst done) as Hnew.
  { rewrite map_app in Hnd. apply NoDup_app in Hnd as (_ & Hd & _). intros Hin. apply (Hd _ Hin). by left. }
  rewrite Heq. rewrite Heq in Hnd. destruct (Config.host_string_new id) as [ep|err|] eqn:Hid.
  - eapply triple_bind with (Q := fun r a => match r with
      | inr l => exists c, Config.compile_host_configuration c (Config.lookup_port (Config.get_port ep) (fst b)) = Ok l /\
                   compiled_from h ep c
      | inl _ => True end /\ quiet a0 a).
    { intros a Ha. destruct (triple_catch _ _ _ (configuration_host ep h (Config.lookup_port (Config.get_port ep) (fst b))) a Ha) as [Hq Hr]. split; [exact Hq|].
      revert Hr. apply returns_impl. intros y a' -> Hy. split; [exact Hy|by etrans]. }
    intros [err|c] a [Hr Ha]; cbn beta in Hr.
    + apply IH; [done|by apply built_error|done].
    + destruct Hr as (h' & Hl & Hh). apply IH; [done|by eapply built_host|done].
  - apply IH; [done|]. apply built_skip; [done|]. congruence.
  - by apply triple_lift.
Qed.

End Built.

Section Served.
Context (iter : forall A, gmap bytes A -> list (bytes * A)) (iter_tcp : gmap Z Listeners.ListenServer -> list Z).
Context (tcp_events : Z -> list Listeners.LoopEvent) (unix_events : bytes -> list Listeners.LoopEvent).
Context (iter_ports : gmap Z Config.ListenConfiguration -> list Z).
Context (iter_perm : forall A (m : gmap bytes A), iter A m ≡ₚ map_to_list m).

Lemma iter_keys_nodup {A} (m : gmap bytes A) : NoDup (map fst (iter A m)).
Proof. rewrite iter_perm. apply NoDup_fst_map_to_list. Qed.

Lemma iter_keys_elem {A} (m : gmap bytes A) k : k ∈ map fst (iter A m) <-> is_Some (m !! k).
Proof.
  rewrite iter_perm. split.
  - intros ([k' x] & -> & Hin)%list_elem_of_fmap. apply elem_of_map_to_list in Hin. by eexists.
  - intros [x Hx]. apply list_elem_of_fmap. exists (k, x). split; [done|]. by apply elem_of_map_to_list.
Qed.

(** The end of a reload, once everything is built. *)
Definition replace_with (s : SettingsCompiled) (b : Building) : M unit :=
  _ ← write (set_listen (fst b) (snd b));
  _ ← sync_endpoints iter iter_tcp tcp_events unix_events iter_ports;
  update (fun a => Ok (set_applied (Some s) a)).

Lemma replace_served s b a :
  let x := replace_with s b a in
  listen (current_configuration (fst x)) = fst b /\ error_configurations (current_configuration (fst x)) = snd b /\
  (snd x = Done (Ok tt) \/ snd x = Hangs) /\ forall l e, replace_with s b (with_served l e a) = x.
Proof.
  cbv zeta. unfold replace_with, mbind, M_bind, write, update, sync_endpoints. cbn -[Listeners.sync_endpoints].
  destruct (Listeners.sync_endpoints _ _ _ _ _ _ _) as [p [|]]; cbn; split_and!; auto.
Qed.

Lemma iter_elem {A} (m : gmap bytes A) k x : (k, x) ∈ iter A m <-> m !! k = Some x.
Proof. rewrite iter_perm. apply elem_of_map_to_list. Qed.

(** The promises about what is served and what is reported. *)
Definition reloaded (s : SettingsCompiled) (a a' : App) : Prop :=
  (forall id h ep, hosts s !! id = Some h -> Config.host_string_new id = Ok ep ->
     is_Some (error_configurations (current_configuration a') !! id) \/
     served s a h ep (listen (current_configuration a'))) /\
  (forall port l c, Config.lookup_port port (listen (current_configuration a')) = Some l -> c ∈ hosts_in l ->
     exists id h ep, hosts s !! id = Some h /\ Config.host_string_new id = Ok ep /\ Config.get_port ep = port /\
       Config.host_of c = ep /\ compiled_from s a h ep c) /\
  (forall id, is_Some (error_configurations (current_configuration a') !! id) -> is_Some (hosts s !! id)).

Lemma reloaded_built s a b a' :
  built_ok s a (iter _ (hosts s)) b -> listen (current_configuration a') = fst b ->
  error_configurations (current_configuration a') = snd b -> reloaded s a a'.
Proof.
  intros [Hs Hk He] Hl Herr. unfold reloaded. rewrite Hl, Herr. split_and!.
  - intros id h ep Hid Hep. eapply Hs; [by apply iter_elem|done].
  - intros port l c Hport Hc. destruct (Hk port l c Hport Hc) as (id & h & ep & Hin & Hep & Hp & Hfrom).
    exists id, h, ep. split_and!; [by apply iter_elem|done|done|by eapply compiled_from_host|done].
  - intros id Hid. by apply iter_keys_elem, He.
Qed.

Lemma blind_ssh s : blind (update_ssh_config_list iter s).
Proof.
  apply blind_update. intros l e a. change (world (with_served l e a)) with (world a).
  change (ssh_known (with_served l e a)) with (ssh_known a).
  destruct (Sources.update_ssh_config_list iter (world a) s (ssh_known a)); reflexivity.
Qed.

(** The reload builds, from a state that differs from the first only in what
    was loaded, and then replaces what is served and what is reported. *)
Lemma build_then_replace s a :
  let load := load_everything_from_settings oc iter iter_tcp tcp_events unix_events iter_ports s in
  let '(a', r) := load a in
  match r with
  | Done (Ok _) | Hangs =>
      exists b, built_ok s a (iter _ (hosts s)) b /\ listen (current_configuration a') = fst b /\
        error_configurations (current_configuration a') = snd b /\ forall l e, load (with_served l e a) = (a', r)
  | Done _ =>
      listen (current_configuration a') = listen (current_configuration a) /\
      error_configurations (current_configuration a') = error_configurations (current_configuration a) /\
      active_listen_ports a' = active_listen_ports a
  end.
Proof.
  cbv zeta. set (load := load_everything_from_settings _ _ _ _ _ _ s).
  assert (forall x, load x = (_ ← update_ssh_config_list iter s; b ← build_hosts oc s (iter _ (hosts s)) nothing_built;
    replace_with s b) x) as Hload by reflexivity. rewrite Hload.
  assert (quiet a (fst (update_ssh_config_list iter s a))) as Hq1.
  { unfold update_ssh_config_list, update. destruct (Sources.update_ssh_config_list iter (world a) s (ssh_known a)); done. }
  pose proof (blind_ssh s) as Hb1. unfold mbind at 1, M_bind at 1.
  destruct (update_ssh_config_list iter s a) as [a1 [[[]|err|]|]] eqn:Hssh; cbn [fst] in Hq1;
    [|by destruct Hq1; split_and!..|].
  2:{ unfold update_ssh_config_list, update in Hssh. by destruct (mbind _ _) in Hssh. }
  assert (NoDup (map fst ([] ++ iter _ (hosts s)))) as Hnd by apply iter_keys_nodup.
  pose proof (build_hosts_built s a (iter _ (hosts s)) [] nothing_built Hnd (nothing_built_ok s a) a1 Hq1) as [Hq2 Hbuilt].
  pose proof (blind_build s (iter _ (hosts s)) nothing_built) as Hb2. unfold mbind at 1, M_bind at 1.
  destruct (build_hosts oc s (iter _ (hosts s)) nothing_built a1) as [a2 [[b|err|]|]] eqn:Hbuild; cbn [fst] in Hq2;
    [|by destruct Hq1, Hq2; split_and!; congruence..|done].
  assert (forall l e, load (with_served l e a) = replace_with s b (with_served l e a2)) as Hsame.
  { intros l e. rewrite Hload. unfold mbind at 1, M_bind at 1. rewrite (Hb1 l e a), Hssh. cbn [fst snd].
    unfold mbind at 1, M_bind at 1. by rewrite (Hb2 l e a1), Hbuild. }
  pose proof (replace_served s b a2) as Hr. destruct (replace_with s b a2) as [a' r] eqn:Hrep. cbn [fst snd] in Hr.
  destruct Hr as (Hl & He & Hret & Hblind).
  destruct r as [[[]|err|]|]; [|by destruct Hret..|]; exists b; split_and!; try done; intros l e; by rewrite Hsame, Hblind.
Qed.

(** C5: a reload replaces everything, and loses no host silently.  When
    [load_everything_from_settings] has got as far as starting and stopping
    listeners, every host of the settings whose name can be read is served on
    its port by what its settings compile to, or its error is kept under its
    name, or a TCP forward has taken the port.  Whatever is served, endpoints
    and TCP forwards alike, was compiled in this reload from a host of the
    settings, is on that host's port, and no error is kept for any other host.
    Nothing of what was served before is left: with anything else listened on
    and other errors kept before, the reload ends in the same state.  When it
    fails or panics before, nothing that was served has changed. *)
Theorem every_host_is_served_or_reported s a :
  let load := load_everything_from_settings oc iter iter_tcp tcp_events unix_events iter_ports s in
  let '(a', r) := load a in
  match r with
  | Done (Ok _) | Hangs =>
      (forall id h ep, hosts s !! id = Some h -> Config.host_string_new id = Ok ep ->
         is_Some (error_configurations (current_configuration a') !! id) \/
         served s a h ep (listen (current_configuration a'))) /\
      (forall port l c, Config.lookup_port port (listen (current_configuration a')) = Some l -> c ∈ hosts_in l ->
         exists id h ep, hosts s !! id = Some h /\ Config.host_string_new id = Ok ep /\ Config.get_port ep = port /\
           Config.host_of c = ep /\ compiled_from s a h ep c) /\
      (forall id, is_Some (error_configurations (current_configuration a') !! id) -> is_Some (hosts s !! id)) /\
      (forall l e, load (with_served l e a) = (a', r))
  | Done _ =>
      listen (current_configuration a') = listen (current_configuration a) /\
      error_configurations (current_configuration a') = error_configurations (current_configuration a) /\
      active_listen_ports a' = active_listen_ports a
  end.
Proof.
  cbv zeta. pose proof (build_then_replace s a) as Hb. cbv zeta in Hb.
  destruct (load_everything_from_settings _ _ _ _ _ _ s a) as [a' r].
  assert (forall b a2, built_ok s a (iter _ (hosts s)) b ->
    listen (current_configuration a2) = fst b -> error_configurations (current_configuration a2) = snd b ->
    reloaded s a a2) as Hok by apply reloaded_built.
  destruct r as [[[]|err|]|]; [|exact Hb|exact Hb|].
  all: destruct Hb as (b & Hbuilt & Hl & He & Hsame);
    destruct (Hok b a' Hbuilt Hl He) as (Hs & Hk & Herr); split_and!; [exact Hs|exact Hk|exact Herr|exact Hsame].
Qed.
End Served.
End Reload3.

(** ** Two hosts, one of which does not compile *)

#[local] Existing Instance Config.text_endpoints.
#[local] Existing Instance Sources.demo_sources.
#[local] Existing Instance Certificates.demo_tls.
#[local] Existing Instance Content.demo_files.
#[local] Existing Instance ToyLibs.toy_libs.
#[local] Existing Instance SigningKey.demo_json.
#[local] Existing Instance Google.demo_google.

(** The same host, and one with a location of a kind there is not. *)
Definition demo_compiled : SettingsCompiled :=
  {| ssh := ∅;
     hosts := {[ bs "a.b:8000" := demo_host;
                 bs "c.d:8000" := {| endpoint := endpoint demo_host;
                                     locations := map (fun l => {| loc_path := None; loc_proxy_pass_to := Some (bs "gateway:x");
                                       location_type := Some (bs "none"); loc_domain_name := None;
                                       loc_modify_http_headers := None; loc_default_file := None; loc_status_code := None;
                                       loc_content_type := None; loc_body := None; loc_whitelisted_ip := None;
                                       loc_compress := None; trace_payload := None; loc_auth_header := None;
                                       loc_allowed_hosts := None; loc_timeouts := no_timeouts |}) (locations demo_host) |} ]};
     ssl_certificates := []; client_certificate_cas := []; global_settings := None; g_auth := ∅; oauth_blocks := ∅;
     endpoint_templates := ∅; users_lists := ∅; ip_white_lists := {[ bs "office" := [bs "10.0.0.1"] ]};
     gateway_server := None; gateway_clients := ∅ |}.

Definition demo_load : App * result unit :=
  load_everything_from_settings false (@in_order) (fun _ => []) (fun _ => []) (fun _ => []) (fun m => map fst (map_to_list m))
    demo_compiled demo_start.

Definition demo_error (id : bytes) : option bytes := error_configurations (current_configuration (fst demo_load)) !! id.

Lemma every_host_is_served_or_reported_witness :
  exists ep, Config.host_string_new (bs "a.b:8000") = Ok ep /\
    served false demo_compiled demo_start demo_host ep (listen (current_configuration (fst demo_load))) /\
    is_Some (demo_error (bs "c.d:8000")).
Proof.
  assert (bool_decide (demo_error (bs "a.b:8000") = None /\ is_Some (demo_error (bs "c.d:8000"))) = true) as Herr
    by (vm_compute; reflexivity).
  assert (is_ok (Config.host_string_new (bs "a.b:8000")) = true) as Hep by (vm_compute; reflexivity).
  assert (match snd demo_load with Done (Ok _) => true | _ => false end = true) as Hok by (vm_compute; reflexivity).
  assert (hosts demo_compiled !! bs "a.b:8000" = Some demo_host) as Hh by (vm_compute; reflexivity).
  apply bool_decide_eq_true_1 in Herr as [Herr Herr'].
  destruct (Config.host_string_new (bs "a.b:8000")) as [ep| |] eqn:He; [|discriminate Hep..].
  exists ep. split; [reflexivity|]. split; [|exact Herr'].
  pose proof (every_host_is_served_or_reported false (@in_order) (fun _ => []) (fun _ => []) (fun _ => [])
    (fun m => map fst (map_to_list m)) (fun _ _ => reflexivity _) demo_compiled demo_start) as H.
  cbv zeta in H. unfold demo_error, demo_load in *.
  destruct (load_everything_from_settings _ _ _ _ _ _ _ _) as [a [[x|err|]|]]; [|discriminate Hok..].
  destruct H as [H _]. destruct (H _ _ ep Hh He) as [[x' Hx]|Hs]; [|exact Hs].
  cbn [fst] in Herr. rewrite Hx in Herr. discriminate Herr.
Defined.

End ReloadSpec.
