(* ===== verification/IpCountry.v ===== *)
(** * The country of an address

    [ip_db/mod.rs]: an IPv4 address is looked up by binary search in a sorted
    table of ranges, an IPv6 address in the data base of a library.  The
    generated table itself ([ip_db/ipv4_data.rs]) is the argument [IPV4_RANGES]
    of the definitions; [table_ok] is what is required of it. *)

From Stdlib Require Import ZArith Lia Sorted Strings.String Strings.Byte.
From stdpp Require Import base tactics list gmap strings.
From S2P Require Import Prelude RustStd IpBlocklist.

Local Open Scope Z_scope.

(** The IPv6 data base ([ip2location]) and the table of country codes
    ([rust_common]). *)
Class CountryLibs := {
  LocationDB : Type;
  ip_lookup : LocationDB -> bytes -> option (option bytes);  (** [.ok()], then the short name of [record.country] *)
  CountryCode : Type;
  country_parse : bytes -> option CountryCode;
  as_iso3_str : CountryCode -> bytes
}.

Module IpDb.
Import WhiteList.

(** A row of the table: first and last address, ISO-2 code. *)
Record Range := { start : Z; end_ : Z; code : bytes }.

(** [slice::partition_point]: the loop of [binary_search_by] halves the part
    of the slice that is still in question; [size] is its length and [base]
    its first index.  Every round makes [size] smaller, so the length of the
    slice is enough fuel. *)
Fixpoint partition_loop {A} (pred : A -> bool) (l : list A) (fuel base size : nat) :
    outcome Empty_set nat :=
  match fuel with
  | O => Ok base
  | S fuel =>
      if decide (1 < size)%nat then
        let half := (size / 2)%nat in
        let mid := (base + half)%nat in
        x ← index l mid;
        partition_loop pred l fuel (if pred x then mid else base) (size - half)%nat
      else Ok base
  end.

Definition partition_point {A} (pred : A -> bool) (l : list A) : outcome Empty_set nat :=
  if decide (length l = 0%nat) then Ok 0%nat
  else
    base ← partition_loop pred l (length l) 0%nat (length l);
    x ← index l base;
    Ok (if pred x then S base else base).

(** [u32::from(Ipv4Addr)] *)
Definition u32_from (a b c d : byte) : Z :=
  u8 a * 2 ^ 24 + u8 b * 2 ^ 16 + u8 c * 2 ^ 8 + u8 d.

Definition lookup_country_v4 (IPV4_RANGES : list Range) (key : Z) : outcome Empty_set (option bytes) :=
  idx ← partition_point (fun r => start r <=? key) IPV4_RANGES;
  if decide (idx = 0%nat) then Ok None
  else
    r ← index IPV4_RANGES (idx - 1)%nat;
    Ok (if (start r <=? key) && (key <=? end_ r) then Some (code r) else None).

Definition is_ascii_uppercase (b : byte) : bool := (65 <=? u8 b) && (u8 b <=? 90).

(** ** The lookups of the program *)

Section Lookup.
Context `{!CountryLibs} (IPV4_RANGES : list Range) (IPV6_DB : option LocationDB).

Definition lookup_country_v6 (ip : bytes) : option bytes :=
  db ← IPV6_DB;
  country ← ip_lookup db ip;
  short_name ← country;
  match short_name with
  | [b0; b1] => if negb (is_ascii_uppercase b0) || negb (is_ascii_uppercase b1) then None else Some [b0; b1]
  | _ => None
  end.

Definition lookup_country (ip : IpAddr) : outcome Empty_set (option bytes) :=
  match ip with
  | V4 a b c d => lookup_country_v4 IPV4_RANGES (u32_from a b c d)
  | V6 octets => Ok (lookup_country_v6 octets)
  end.

Definition lookup_country_iso3 (ip : IpAddr) : outcome Empty_set (option bytes) :=
  code2 ← lookup_country ip;
  Ok (code2 ← code2; iso2 ← Utf8.from_utf8 code2; country ← country_parse iso2; Some (as_iso3_str country)).

(** [ConnectionIp::get_ip_country_log], with the printer of addresses as an
    argument. *)
Definition get_ip_country_log (ip_to_string : IpAddr -> bytes) (ip : option IpAddr) :
    outcome Empty_set (option bytes * option bytes) :=
  match ip with
  | Some ip => country ← lookup_country_iso3 ip; Ok (Some (ip_to_string ip), country)
  | None => Ok (None, None)
  end.

End Lookup.

(** ** The table *)

(** The row of an address, by reading the table from its first row. *)
Definition covers (key : Z) (r : Range) : bool := (start r <=? key) && (key <=? end_ r).

Definition scan (IPV4_RANGES : list Range) (key : Z) : option bytes :=
  code <$> head (filter (fun r => covers key r = true) IPV4_RANGES).

Definition row_ok (r : Range) : Prop :=
  start r <= end_ r /\ exists b0 b1, code r = [b0; b1] /\ is_ascii_uppercase b0 = true /\ is_ascii_uppercase b1 = true.

Record table_ok (l : list Range) : Prop := {
  rows_ok : Forall row_ok l;
  rows_sorted : StronglySorted (fun r s => end_ r < start s) l
}.

(** ** Binary search *)

Section Partition.
Context {A : Type} (pred : A -> bool) (l : list A).

(** The slice is partitioned: where the predicate holds, it holds before. *)
Definition partitioned : Prop :=
  forall i j x y, (i <= j)%nat -> l !! i = Some x -> l !! j = Some y -> pred y = true -> pred x = true.

(** Everything before [base] satisfies the predicate, nothing from
    [base + size] on does. *)
Definition bracket (base size : nat) : Prop :=
  (1 <= size)%nat /\ (base + size <= length l)%nat /\
  (forall i x, (i < base)%nat -> l !! i = Some x -> pred x = true) /\
  (forall i x, (base + size <= i)%nat -> l !! i = Some x -> pred x = false).

Lemma partition_loop_spec fuel base size :
  partitioned -> bracket base size -> (size <= S fuel)%nat ->
  exists b, partition_loop pred l fuel base size = Ok b /\ bracket b 1.
Proof.
  intros Hp. revert base size. induction fuel as [|fuel IH]; intros base size (H1 & H2 & Hlo & Hhi) Hf; cbn [partition_loop].
  - assert (size = 1%nat) as -> by lia. by exists base.
  - case_decide as Hsz; [|assert (size = 1%nat) as -> by lia; by exists base].
    pose proof (Nat.div_lt size 2 ltac:(lia) ltac:(lia)) as Hd.
    pose proof (Nat.div_str_pos size 2 ltac:(lia)) as Hd0.
    pose proof (Nat.Div0.mul_div_le size 2) as Hd1.
    destruct (lookup_lt_is_Some_2 l (base + size / 2)%nat ltac:(lia)) as [x Hx].
    unfold index, unwrap. rewrite Hx. cbn [mbind outcome_bind].
    destruct (pred x) eqn:E; apply IH; try lia; repeat split; try lia.
    + intros i y Hi Hy. apply (Hp i (base + size / 2)%nat y x); [lia|done..].
    + intros i y Hi Hy. apply (Hhi i y); [lia|done].
    + done.
    + intros i y Hi Hy. destruct (pred y) eqn:Ey; [|done].
      by rewrite (Hp (base + size / 2)%nat i x y ltac:(lia) Hx Hy Ey) in E.
Qed.

(** [partition_point] returns the number of elements that satisfy the
    predicate. *)
Lemma partition_point_spec :
  partitioned ->
  exists n, partition_point pred l = Ok n /\ (n <= length l)%nat /\
    (forall i x, l !! i = Some x -> pred x = true <-> (i < n)%nat).
Proof.
  intros Hp. unfold partition_point. case_decide as H0.
  { exists 0%nat. split_and!; [done|lia|]. intros i x Hx. apply lookup_lt_Some in Hx. lia. }
  destruct (partition_loop_spec (length l) 0 (length l) Hp) as (b & -> & H1 & H2 & Hlo & Hhi); [|lia|].
  { repeat split; [lia|lia|intros; lia|]. intros i x ? Hx. apply lookup_lt_Some in Hx. lia. }
  cbn [mbind outcome_bind]. destruct (lookup_lt_is_Some_2 l b ltac:(lia)) as [x Hx].
  unfold index, unwrap. rewrite Hx. cbn [mbind outcome_bind].
  eexists. split; [done|]. split; [destruct (pred x); lia|]. intros i y Hy. split.
  - intros Ht. destruct (decide (i <= b)%nat); [|by rewrite (Hhi i y ltac:(lia) Hy) in Ht].
    destruct (decide (i = b)) as [->|]; [|destruct (pred x); lia]. simplify_eq. rewrite Ht. lia.
  - intros Hi. destruct (pred x) eqn:Ex; [|by apply (Hlo i)].
    destruct (decide (i = b)) as [->|]; [by simplify_eq|]. apply (Hlo i); [lia|done].
Qed.

End Partition.

(** ** Lookup in a table *)

Lemma table_nth l i j r s :
  table_ok l -> (i < j)%nat -> l !! i = Some r -> l !! j = Some s -> start r <= end_ r < start s.
Proof.
  intros [Hr Hs] Hij Hi Hj. split; [by apply (Forall_lookup_1 _ _ _ _ Hr Hi)|].
  revert i j Hij Hi Hj. clear Hr. induction Hs as [|x l Hs IH Hx]; intros i j Hij Hi Hj; [done|].
  destruct j as [|j]; [lia|]. destruct i as [|i]; simpl in *; [|apply (IH i j); [lia|done..]].
  simplify_eq. by apply (Forall_lookup_1 _ _ _ _ Hx Hj).
Qed.

Lemma table_partitioned l key : table_ok l -> partitioned (fun r => start r <=? key) l.
Proof.
  intros Ht i j x y Hij Hx Hy Hp. rewrite Z.leb_le in *.
  destruct (decide (i = j)) as [->|]; [by simplify_eq|].
  pose proof (table_nth l i j x y Ht ltac:(lia) Hx Hy). lia.
Qed.

Lemma filter_all_out {A} (P : A -> Prop) `{!forall x, Decision (P x)} (l : list A) :
  Forall (fun x => ~ P x) l -> filter P l = [].
Proof. induction 1 as [|x l Hx _ IH]; [done|]. by rewrite filter_cons_False. Qed.

Lemma head_filter_unique {A} (P : A -> Prop) `{!forall x, Decision (P x)} (l : list A) i x :
  l !! i = Some x -> P x -> (forall j y, (j < i)%nat -> l !! j = Some y -> ~ P y) ->
  head (filter P l) = Some x.
Proof.
  revert i. induction l as [|y l IH]; intros i Hi Hx Hb; [done|].
  destruct i as [|i]; simpl in Hi.
  - simplify_eq. by rewrite filter_cons_True.
  - rewrite filter_cons_False by (apply (Hb 0%nat); [lia|done]).
    apply (IH i); [done..|]. intros j z Hj Hz. apply (Hb (S j)); [lia|done].
Qed.

Lemma lookup_v4_scan l key : table_ok l -> lookup_country_v4 l key = Ok (scan l key).
Proof.
  intros Ht. unfold lookup_country_v4.
  destruct (partition_point_spec _ l (table_partitioned l key Ht)) as (n & -> & Hle & Hn).
  assert (Hstart : forall i r, l !! i = Some r -> start r <= key <-> (i < n)%nat)
    by (intros i r Hr; rewrite <- Z.leb_le; by apply Hn).
  clear Hn. cbn [mbind outcome_bind]. unfold scan.
  assert (Hnone : (forall r, l !! (n - 1)%nat = Some r -> (0 < n)%nat -> end_ r < key) ->
      filter (fun r => covers key r = true) l = []).
  { intros Hend. apply filter_all_out, Forall_forall. intros r [i Hi]%list_elem_of_lookup.
    unfold covers. rewrite andb_true_iff, !Z.leb_le. intros [Hs He].
    apply (Hstart _ _ Hi) in Hs.
    destruct (lookup_lt_is_Some_2 l (n - 1)%nat ltac:(lia)) as [s Hsk].
    specialize (Hend _ Hsk ltac:(lia)).
    destruct (decide (i = n - 1)%nat) as [->|]; [simplify_eq; lia|].
    pose proof (table_nth l i (n - 1) r s Ht ltac:(lia) Hi Hsk).
    assert (start s <= key) by (apply (Hstart _ _ Hsk); lia). lia. }
  case_decide as H0.
  { subst n. by rewrite Hnone by (intros; lia). }
  destruct (lookup_lt_is_Some_2 l (n - 1)%nat ltac:(lia)) as [r Hr].
  unfold index, unwrap. rewrite Hr. cbn [mbind outcome_bind].
  assert (Hsr : start r <= key) by (apply (Hstart _ _ Hr); lia).
  rewrite (proj2 (Z.leb_le _ _) Hsr). simpl. destruct (key <=? end_ r) eqn:He.
  - rewrite (head_filter_unique _ l (n - 1) r); [done|done| |].
    + unfold covers. by rewrite He, (proj2 (Z.leb_le _ _) Hsr).
    + intros j y Hj Hy. pose proof (table_nth l j (n - 1) y r Ht ltac:(lia) Hy Hr).
      unfold covers. rewrite andb_true_iff, !Z.leb_le. lia.
  - rewrite Hnone; [done|]. intros r' Hr' _. simplify_eq. lia.
Qed.

Lemma scan_code l key c :
  table_ok l -> scan l key = Some c ->
  exists b0 b1, c = [b0; b1] /\ is_ascii_uppercase b0 = true /\ is_ascii_uppercase b1 = true.
Proof.
  intros [Hr _]. unfold scan. destruct (head _) as [r|] eqn:E; [|done]. intros [= <-].
  assert (r ∈ filter (fun r => covers key r = true) l) as [_ Hin]%list_elem_of_filter
    by (destruct (filter _ l); simpl in *; [done|simplify_eq; left]).
  rewrite Forall_forall in Hr. exact (proj2 (Hr r Hin)).
Qed.

(** C39: With a table whose rows are sorted, disjoint and named by two
    upper-case letters, the country of every address is found and is the one
    that reading the table row by row would give: the lookup never indexes
    outside of the table, and what it returns is always two upper-case letters
    (so the [unwrap] of its use in a header can not fail), also for an IPv6
    address whatever the library's data base answers. *)
Theorem country_is_the_row_of_the_address `{!CountryLibs} (IPV4_RANGES : list Range)
    (IPV6_DB : option LocationDB) (ip : IpAddr) (Htable : table_ok IPV4_RANGES) :
  exists c, lookup_country IPV4_RANGES IPV6_DB ip = Ok c /\
    (forall a b c4 d, ip = V4 a b c4 d -> c = scan IPV4_RANGES (u32_from a b c4 d)) /\
    (forall code2, c = Some code2 ->
       Utf8.from_utf8 code2 = Some code2 /\
       exists b0 b1, code2 = [b0; b1] /\ is_ascii_uppercase b0 = true /\ is_ascii_uppercase b1 = true).
Proof.
  assert (Hutf : forall c, (exists b0 b1, c = [b0; b1] /\ is_ascii_uppercase b0 = true /\ is_ascii_uppercase b1 = true) ->
    Utf8.from_utf8 c = Some c).
  { intros c (b0 & b1 & -> & H0 & H1). apply Utf8.from_utf8_Some. split; [|done].
    apply Utf8.valid_ascii. unfold is_ascii_uppercase in *. repeat constructor; lia. }
  destruct ip as [a b c d|o]; cbn [lookup_country].
  - rewrite (lookup_v4_scan _ _ Htable). eexists. split; [done|]. split; [by intros ???? [= <- <- <- <-]|].
    intros code2 Hc. pose proof (scan_code _ _ _ Htable Hc). auto.
  - eexists. split; [done|]. split; [done|]. intros code2 Hc.
    assert (exists b0 b1, code2 = [b0; b1] /\ is_ascii_uppercase b0 = true /\ is_ascii_uppercase b1 = true); [|auto].
    unfold lookup_country_v6 in Hc. destruct IPV6_DB as [db|]; [|done]. simpl in Hc.
    destruct (ip_lookup db o) as [[sn|]|]; [|done..]. simpl in Hc.
    destruct sn as [|b0 [|b1 [|]]]; try done. destruct (is_ascii_uppercase b0) eqn:E0, (is_ascii_uppercase b1) eqn:E1;
      simpl in Hc; simplify_eq. eauto.
Qed.

(** ** A concrete table: the first rows of the generated one *)

#[local] Instance sample_country_libs : CountryLibs := {|
  LocationDB := unit; ip_lookup := fun _ o => Some (Some (bs "us"));
  CountryCode := bytes; country_parse := Some; as_iso3_str := fun c => c ++ bs "X"
|}.

Definition sample_table : list Range :=
  [ {| start := 0x01000000; end_ := 0x010000ff; code := bs "AU" |};
    {| start := 0x01000100; end_ := 0x010001ff; code := bs "CN" |};
    {| start := 0x08080800; end_ := 0x080808ff; code := bs "US" |} ].

Definition eight : byte := Byte.x08.

Lemma sample_table_ok : table_ok sample_table.
Proof.
  split.
  - repeat constructor; simpl; try lia; do 2 eexists; repeat split; vm_compute; reflexivity.
  - repeat constructor; simpl; lia.
Qed.

Lemma country_is_the_row_of_the_address_witness :
  table_ok sample_table /\
  lookup_country sample_table None (V4 eight eight eight eight) = Ok (Some (bs "US")) /\
  lookup_country sample_table None (V4 Byte.x00 Byte.x00 Byte.x00 Byte.x00) = Ok None /\
  exists c, lookup_country sample_table None (V4 eight eight eight eight) = Ok c /\
    c = scan sample_table (u32_from eight eight eight eight).
Proof.
  split; [exact sample_table_ok|]. split; [vm_compute; reflexivity|]. split; [vm_compute; reflexivity|].
  destruct (country_is_the_row_of_the_address sample_table None (V4 eight eight eight eight) sample_table_ok)
    as (c & Hc & Hscan & _).
  exists c. split; [exact Hc|]. exact (Hscan _ _ _ _ eq_refl).
Defined.

End IpDb.
