(* ===== verification/ProxyLogs.v ===== *)
(** * The in-memory logs

    [app/proxy_logs.rs] and [app/debug_flags.rs]: ring buffers of the last
    messages per listening port, per endpoint and per location, what is written
    to them and under which flags; and how they are read, by the admin server
    ([http_server/controllers/logs]) and by the MCP tool
    [mcp/get_proxy_logs_tool_call.rs]. *)

From Stdlib Require Import ZArith Lia Sorted Strings.String Strings.Byte.
From stdpp Require Import base tactics list gmap strings sorting.
From S2P Require Import Prelude RustStd IpBlocklist IpCountry.

Local Open Scope Z_scope.

Module Logs.

Definition MAX_LOG_MESSAGES : nat := 100.

Record ProxyLogEntry := { moment : Z; ip : option bytes; message : bytes }.

(** [ProxyLogScope] *)
Record ProxyLogScope := { endpoint : bytes; location_id : Z; scope_ip : option bytes }.

Record ProxyLogs := {
  by_port : gmap bytes (list ProxyLogEntry);
  by_endpoint : gmap bytes (list ProxyLogEntry);
  by_location : gmap Z (list ProxyLogEntry)
}.

Definition no_logs : ProxyLogs := {| by_port := ∅; by_endpoint := ∅; by_location := ∅ |}.

(** ** [DebugFlags] *)

Record DebugFlags := { endpoints : gset bytes; locations : gset Z }.

Definition no_flags : DebugFlags := {| endpoints := ∅; locations := ∅ |}.

Definition is_endpoint_debug (endpoint : bytes) (f : DebugFlags) : bool :=
  if decide (endpoints f = ∅) then false else bool_decide (endpoint ∈ endpoints f).

Definition is_location_debug (location_id : Z) (f : DebugFlags) : bool :=
  if decide (locations f = ∅) then false else bool_decide (location_id ∈ locations f).

Definition set_endpoint (endpoint : bytes) (enabled : bool) (f : DebugFlags) : DebugFlags :=
  {| endpoints := if enabled then {[endpoint]} ∪ endpoints f else endpoints f ∖ {[endpoint]};
     locations := locations f |}.

Definition set_location (location_id : Z) (enabled : bool) (f : DebugFlags) : DebugFlags :=
  {| endpoints := endpoints f;
     locations := if enabled then {[location_id]} ∪ locations f else locations f ∖ {[location_id]} |}.

(** ** Writing

    [ProxyLogEntry::new] reads the clock, so an operation that makes two
    entries reads it twice; [now] is what it reads. *)

Definition push (now : Z) (ip : option bytes) (message : bytes) (buf : list ProxyLogEntry) : list ProxyLogEntry :=
  (if decide (length buf = MAX_LOG_MESSAGES) then tail buf else buf) ++
  [{| moment := now; ip := ip; message := message |}].

(** [push_into] and [push_into_location]: a key that is missing starts with an
    empty buffer. *)
Definition push_into `{Countable K} (now : Z) (key : K) (ip : option bytes) (message : bytes)
    (map : gmap K (list ProxyLogEntry)) : gmap K (list ProxyLogEntry) :=
  match map !! key with
  | Some buf => <[key := push now ip message buf]> map
  | None => <[key := push now ip message []]> map
  end.

Definition write_port (now : Z) (listen_id : bytes) (ip : option bytes) (message : bytes) (l : ProxyLogs) : ProxyLogs :=
  {| by_port := push_into now listen_id ip message (by_port l);
     by_endpoint := by_endpoint l; by_location := by_location l |}.

Definition write_location (now : Z) (location_id : Z) (ip : option bytes) (message : bytes) (l : ProxyLogs) : ProxyLogs :=
  {| by_port := by_port l; by_endpoint := by_endpoint l;
     by_location := push_into now location_id ip message (by_location l) |}.

Definition write (now : Z * Z) (endpoint : bytes) (location_id : option Z) (ip : option bytes) (message : bytes)
    (l : ProxyLogs) : ProxyLogs :=
  let l1 := {| by_port := by_port l; by_endpoint := push_into now.1 endpoint ip message (by_endpoint l);
               by_location := by_location l |} in
  match location_id with
  | Some location_id => write_location now.2 location_id ip message l1
  | None => l1
  end.

Definition returned_5xx_message (status : Z) (failure : bytes) : bytes :=
  bs "Returned " ++ Str.uint_to_string status ++ bs " to client: upstream failure: " ++ failure.

Definition write_returned_5xx (now : Z * Z) (endpoint : bytes) (location_id : option Z) (ip : option bytes)
    (status : Z) (failure : bytes) : ProxyLogs -> ProxyLogs :=
  write now endpoint location_id ip (returned_5xx_message status failure).

Definition scope_write_always (now : Z * Z) (s : ProxyLogScope) (message : bytes) : ProxyLogs -> ProxyLogs :=
  write now (endpoint s) (Some (location_id s)) (scope_ip s) message.

Definition scope_write (now : Z * Z) (f : DebugFlags) (s : ProxyLogScope) (message : bytes) (l : ProxyLogs) : ProxyLogs :=
  if negb (is_location_debug (location_id s) f) then l else scope_write_always now s message l.

(** ** Reading *)

Definition get_snapshot `{Countable K} (map : gmap K (list ProxyLogEntry)) (key : K) : list ProxyLogEntry :=
  match map !! key with Some buf => buf | None => [] end.

Definition get_by_port (listen_id : bytes) (l : ProxyLogs) := get_snapshot (by_port l) listen_id.
Definition get_by_endpoint (endpoint : bytes) (l : ProxyLogs) := get_snapshot (by_endpoint l) endpoint.
Definition get_by_location (location_id : Z) (l : ProxyLogs) := get_snapshot (by_location l) location_id.

(** *** The admin server *)

Record ProxyLogLineHttpModel := {
  line_moment : Z; line_ip : option bytes; country : option bytes; line_message : bytes
}.

Section Admin.
Context `{!CountryLibs} (IPV4_RANGES : list IpDb.Range) (IPV6_DB : option LocationDB)
  (parse_ip : bytes -> option WhiteList.IpAddr).

(** [Into<ProxyLogLineHttpModel> for ProxyLogEntry] *)
Definition line_of (entry : ProxyLogEntry) : outcome Empty_set ProxyLogLineHttpModel :=
  country ← match ip entry ≫= parse_ip with
            | Some ip => IpDb.lookup_country_iso3 IPV4_RANGES IPV6_DB ip
            | None => Ok None
            end;
  Ok {| line_moment := moment entry; line_ip := ip entry; country := country; line_message := message entry |}.

Fixpoint lines_of (entries : list ProxyLogEntry) : outcome Empty_set (list ProxyLogLineHttpModel) :=
  match entries with
  | [] => Ok []
  | e :: es => l ← line_of e; ls ← lines_of es; Ok (l :: ls)
  end.

(** [ProxyLogsHttpModel::from_entries] *)
Definition from_entries (entries : list ProxyLogEntry) : outcome Empty_set (list ProxyLogLineHttpModel) :=
  lines_of (rev entries).

End Admin.

(** *** The MCP tool [get_proxy_logs] *)

Record GetProxyLogsInputData := {
  in_port : option bytes; in_endpoint : option bytes; in_location_id : option Z
}.

#[global] Instance GetProxyLogsInputData_eq_dec : EqDecision GetProxyLogsInputData.
Proof. solve_decision. Defined.

Record ProxyLogEntryModel := { m_scope : bytes; m_moment : bytes; m_ip : bytes; m_message : bytes }.

(** [slice::sort_by] with the order of the tool, [b.0.cmp(&a.0)]: stable, the
    larger moment first. *)
Fixpoint insert_desc {A} (x : Z * A) (l : list (Z * A)) : list (Z * A) :=
  match l with
  | [] => [x]
  | y :: l' => if y.1 <=? x.1 then x :: l else y :: insert_desc x l'
  end.

Definition sort_by_moment {A} (l : list (Z * A)) : list (Z * A) := foldr insert_desc [] l.

Section Tool.
Context (to_rfc3339 : Z -> bytes).

Definition absorb (out : list (Z * ProxyLogEntryModel)) (entries : list ProxyLogEntry) (scope : bytes) :
    list (Z * ProxyLogEntryModel) :=
  out ++ map (fun e => (moment e, {| m_scope := scope; m_moment := to_rfc3339 (moment e);
                                     m_ip := default [] (ip e); m_message := message e |})) entries.

Definition get_proxy_logs (model : GetProxyLogsInputData) (l : ProxyLogs) :
    outcome bytes (list ProxyLogEntryModel) :=
  if bool_decide (in_port model = None) && bool_decide (in_endpoint model = None)
     && bool_decide (in_location_id model = None)
  then Err (bs "Provide at least one of: port, endpoint, location_id")
  else
    let raw := [] in
    let raw := match in_port model with
      | Some port => absorb raw (get_by_port port l) (bs "port:" ++ port) | None => raw end in
    let raw := match in_endpoint model with
      | Some e => absorb raw (get_by_endpoint e l) (bs "endpoint:" ++ e) | None => raw end in
    let raw := match in_location_id model with
      | Some i => absorb raw (get_by_location i l) (bs "location:" ++ Str.int_to_string i) | None => raw end in
    Ok (map snd (sort_by_moment raw)).

End Tool.

(** ** What the proxy does with its logs, as a run of operations, each with the
    readings of the clock it makes *)

Inductive Op :=
  | Port (listen_id : bytes) (ip : option bytes) (message : bytes)
  | Endpoint (endpoint : bytes) (location_id : option Z) (ip : option bytes) (message : bytes)
  | Returned5xx (endpoint : bytes) (location_id : option Z) (ip : option bytes) (status : Z) (failure : bytes)
  | Location (location_id : Z) (ip : option bytes) (message : bytes)
  | Scoped (s : ProxyLogScope) (message : bytes)
  | ScopedAlways (s : ProxyLogScope) (message : bytes)
  | DebugEndpoint (endpoint : bytes) (enabled : bool)
  | DebugLocation (location_id : Z) (enabled : bool).

Definition exec (now : Z * Z) (o : Op) (s : DebugFlags * ProxyLogs) : DebugFlags * ProxyLogs :=
  let '(f, l) := s in
  match o with
  | Port i ip m => (f, write_port now.1 i ip m l)
  | Endpoint e i ip m => (f, write now e i ip m l)
  | Returned5xx e i ip st m => (f, write_returned_5xx now e i ip st m l)
  | Location i ip m => (f, write_location now.1 i ip m l)
  | Scoped sc m => (f, scope_write now f sc m l)
  | ScopedAlways sc m => (f, scope_write_always now sc m l)
  | DebugEndpoint e b => (set_endpoint e b f, l)
  | DebugLocation i b => (set_location i b f, l)
  end.

Fixpoint run (ops : list (Z * Z * Op)) (s : DebugFlags * ProxyLogs) : DebugFlags * ProxyLogs :=
  match ops with [] => s | (now, o) :: ops => run ops (exec now o s) end.

(** ** The reference: unbounded journals

    The journal of a port, an endpoint or a location is every message an
    operation addressed to it, in order; a location is in debug mode when the
    last switch of that location turned it on. *)

Inductive Scope := InPort (i : bytes) | InEndpoint (e : bytes) | InLocation (i : Z).

Definition addressed (debug : Z -> bool) (sc : Scope) (o : Op) : option (option bytes * bytes) :=
  let at_endpoint e i ip m :=
    match sc with
    | InPort _ => None
    | InEndpoint e' => if decide (e = e') then Some (ip, m) else None
    | InLocation i' => if decide (i = Some i') then Some (ip, m) else None
    end in
  match o with
  | Port i ip m => match sc with InPort i' => if decide (i = i') then Some (ip, m) else None | _ => None end
  | Endpoint e i ip m => at_endpoint e i ip m
  | Returned5xx e i ip st m => at_endpoint e i ip (returned_5xx_message st m)
  | Location i ip m => match sc with InLocation i' => if decide (i = i') then Some (ip, m) else None | _ => None end
  | Scoped s m =>
      if debug (location_id s) then at_endpoint (endpoint s) (Some (location_id s)) (scope_ip s) m else None
  | ScopedAlways s m => at_endpoint (endpoint s) (Some (location_id s)) (scope_ip s) m
  | DebugEndpoint _ _ | DebugLocation _ _ => None
  end.

Definition switched (debug : Z -> bool) (o : Op) : Z -> bool :=
  match o with DebugLocation i b => fun j => if decide (j = i) then b else debug j | _ => debug end.

(** The reading of the clock an entry carries: an entry at a location is made
    behind the one at the endpoint, if there is one. *)
Definition reading (sc : Scope) (o : Op) (now : Z * Z) : Z :=
  match sc, o with
  | InLocation _, Location _ _ _ => now.1
  | InLocation _, _ => now.2
  | _, _ => now.1
  end.

Fixpoint journal (debug : Z -> bool) (sc : Scope) (ops : list (Z * Z * Op)) : list ProxyLogEntry :=
  match ops with
  | [] => []
  | (now, o) :: ops =>
      match addressed debug sc o with
      | Some (ip, m) => [{| moment := reading sc o now; ip := ip; message := m |}]
      | None => []
      end ++ journal (switched debug o) sc ops
  end.

Definition last_messages (l : list ProxyLogEntry) : list ProxyLogEntry := drop (length l - MAX_LOG_MESSAGES) l.

Definition get (sc : Scope) (l : ProxyLogs) : list ProxyLogEntry :=
  match sc with
  | InPort i => get_by_port i l
  | InEndpoint e => get_by_endpoint e l
  | InLocation i => get_by_location i l
  end.

(** ** Ring buffers *)

Lemma length_last_messages l : length (last_messages l) = Nat.min (length l) MAX_LOG_MESSAGES.
Proof. unfold last_messages. rewrite length_drop. lia. Qed.

Lemma tail_of_drop {A} n (l : list A) : tail (drop n l) = drop (S n) l.
Proof. revert l. induction n as [|n IH]; intros [|x l]; try done. apply (IH l). Qed.

Lemma push_last now ip m j :
  push now ip m (last_messages j) = last_messages (j ++ [{| moment := now; ip := ip; message := m |}]).
Proof.
  assert (1 <= MAX_LOG_MESSAGES)%nat by (unfold MAX_LOG_MESSAGES; lia).
  unfold push. rewrite length_last_messages. unfold last_messages. rewrite length_app. cbn [length].
  destruct (decide (MAX_LOG_MESSAGES <= length j)%nat) as [Hl|Hl].
  - rewrite decide_True by lia. rewrite drop_app_le by lia. f_equal.
    rewrite tail_of_drop. f_equal. lia.
  - rewrite decide_False by lia. rewrite !(proj2 (Nat.sub_0_le _ _)) by lia. done.
Qed.

Lemma snapshot_push `{Countable K} now (k k' : K) ip m map :
  get_snapshot (push_into now k ip m map) k' =
    if decide (k = k') then push now ip m (get_snapshot map k') else get_snapshot map k'.
Proof.
  assert (push_into now k ip m map = <[k := push now ip m (get_snapshot map k)]> map) as ->
    by (unfold push_into, get_snapshot; by destruct (map !! k)).
  unfold get_snapshot. case_decide as Hk; [subst; by rewrite lookup_insert_eq|by rewrite lookup_insert_ne].
Qed.

Lemma location_debug_switch i b j f :
  is_location_debug j (set_location i b f) = if decide (j = i) then b else is_location_debug j f.
Proof.
  assert (Hd : forall f, is_location_debug j f = bool_decide (j ∈ locations f)).
  { intros g. unfold is_location_debug. case_decide as He; [|done]. rewrite He. by rewrite bool_decide_eq_false_2 by set_solver. }
  rewrite !Hd. unfold set_location. cbn [locations].
  case_decide; destruct b; (apply bool_decide_ext || apply bool_decide_eq_true_2 || apply bool_decide_eq_false_2); set_solver.
Qed.

Lemma exec_debug now o f l j :
  is_location_debug j (exec now o (f, l)).1 = switched (fun i => is_location_debug i f) o j.
Proof. destruct o; try done. cbn [exec fst switched]. apply location_debug_switch. Qed.

Lemma get_write now e i ip m sc l :
  get sc (write now e i ip m l) =
    match sc with
    | InPort _ => get sc l
    | InEndpoint e' => if decide (e = e') then push now.1 ip m (get sc l) else get sc l
    | InLocation i' => if decide (i = Some i') then push now.2 ip m (get sc l) else get sc l
    end.
Proof.
  unfold write, write_location, get, get_by_port, get_by_endpoint, get_by_location.
  destruct sc, i; cbn [by_port by_endpoint by_location]; rewrite ?snapshot_push; try done.
  repeat case_decide; naive_solver.
Qed.

Lemma exec_get now o f l sc :
  get sc (exec now o (f, l)).2 =
    match addressed (fun i => is_location_debug i f) sc o with
    | Some (ip, m) => push (reading sc o now) ip m (get sc l)
    | None => get sc l
    end.
Proof.
  destruct o; cbn [exec snd addressed]; unfold write_returned_5xx, scope_write, scope_write_always;
    try (rewrite get_write; destruct sc; repeat case_decide; done); try done.
  - unfold write_port, get, get_by_port, get_by_endpoint, get_by_location; destruct sc;
      cbn [by_port by_endpoint by_location]; rewrite ?snapshot_push; repeat case_decide; done.
  - unfold write_location, get, get_by_port, get_by_endpoint, get_by_location; destruct sc;
      cbn [by_port by_endpoint by_location]; rewrite ?snapshot_push; repeat case_decide; done.
  - destruct (is_location_debug _ _); cbn [negb]; [|done].
    rewrite get_write; destruct sc; repeat case_decide; done.
Qed.

Lemma addressed_ext d d' sc o : (forall i, d i = d' i) -> addressed d sc o = addressed d' sc o.
Proof. intros Hd. destruct o; try done. cbn [addressed]. by rewrite Hd. Qed.

Lemma run_get sc ops d f l j :
  (forall i, d i = is_location_debug i f) -> get sc l = last_messages j ->
  get sc (run ops (f, l)).2 = last_messages (j ++ journal d sc ops).
Proof.
  revert d f l j. induction ops as [|[now o] ops IH]; intros d f l j Hd Hj; cbn [run journal].
  { by rewrite app_nil_r. }
  pose proof (exec_get now o f l sc) as Hg. pose proof (fun i => exec_debug now o f l i) as He.
  destruct (exec now o (f, l)) as [f' l'] eqn:E. cbn [fst snd] in *.
  rewrite (assoc_L (++)). apply IH.
  - intros i. rewrite He. destruct o; cbn [switched]; try apply Hd. by case_decide.
  - rewrite Hg, (addressed_ext _ _ sc o (fun i => eq_sym (Hd i))).
    destruct (addressed d sc o) as [[ip m]|]; [by rewrite Hj, push_last|by rewrite app_nil_r].
Qed.

(** ** Sorting by moment *)

Lemma insert_desc_perm {A} (x : Z * A) l : insert_desc x l ≡ₚ x :: l.
Proof.
  induction l as [|y l IH]; cbn [insert_desc]; [done|].
  destruct (y.1 <=? x.1); [done|]. rewrite IH. apply Permutation_swap.
Qed.

Lemma sort_perm {A} (l : list (Z * A)) : sort_by_moment l ≡ₚ l.
Proof. induction l as [|x l IH]; cbn; [done|]. by rewrite insert_desc_perm, IH. Qed.

Lemma insert_desc_sorted {A} (x : Z * A) l :
  StronglySorted (fun a b => b.1 <= a.1) l -> StronglySorted (fun a b => b.1 <= a.1) (insert_desc x l).
Proof.
  induction 1 as [|y l Hs IH Hy]; cbn [insert_desc]; [by repeat constructor|].
  destruct (Z.leb_spec y.1 x.1).
  - repeat constructor; [done..|]. eapply Forall_impl; [exact Hy|]. intros z. cbn. lia.
  - constructor; [done|]. rewrite insert_desc_perm. constructor; [lia|done].
Qed.

Lemma sort_sorted {A} (l : list (Z * A)) : StronglySorted (fun a b => b.1 <= a.1) (sort_by_moment l).
Proof. induction l; cbn; [constructor|by apply insert_desc_sorted]. Qed.

Lemma insert_desc_stable {A} (x : Z * A) l t :
  filter (fun y => y.1 = t) (insert_desc x l) = filter (fun y => y.1 = t) (x :: l).
Proof.
  induction l as [|y l IH]; cbn [insert_desc]; [done|].
  destruct (Z.leb_spec y.1 x.1); [done|]. rewrite !filter_cons, IH, filter_cons.
  repeat case_decide; done || lia.
Qed.

Lemma sort_stable {A} (l : list (Z * A)) t :
  filter (fun y => y.1 = t) (sort_by_moment l) = filter (fun y => y.1 = t) l.
Proof.
  induction l as [|x l IH]; [done|]. change (sort_by_moment (x :: l)) with (insert_desc x (sort_by_moment l)).
  by rewrite insert_desc_stable, !filter_cons, IH.
Qed.

(** ** The theorems *)

(** C38: Whatever the proxy writes and whichever debug flags are switched in
    between, each log holds exactly the last hundred messages addressed to its
    port, endpoint or location, in order and with the time each was made: a traced message of a location only
    while that location was in debug mode, a failure and every page with a
    status 5xx always. *)
Theorem logs_are_the_last_hundred (ops : list (Z * Z * Op)) (sc : Scope) :
  get sc (run ops (no_flags, no_logs)).2 = last_messages (journal (fun _ => false) sc ops) /\
  (length (get sc (run ops (no_flags, no_logs)).2) <= MAX_LOG_MESSAGES)%nat.
Proof.
  assert (get sc (run ops (no_flags, no_logs)).2 = last_messages (journal (fun _ => false) sc ops)) as ->.
  { rewrite (run_get sc ops (fun _ => false) no_flags no_logs []); [done|done|by destruct sc]. }
  split; [done|]. rewrite length_last_messages. lia.
Qed.

(** What the tool reads before it sorts. *)
Definition requested (to_rfc3339 : Z -> bytes) (model : GetProxyLogsInputData) (l : ProxyLogs) :
    list (Z * ProxyLogEntryModel) :=
  let part {K} (o : option K) (sc : K -> Scope) (label : K -> bytes) :=
    match o with Some k => absorb to_rfc3339 [] (get (sc k) l) (label k) | None => [] end in
  part (in_port model) InPort (fun p => bs "port:" ++ p) ++
  part (in_endpoint model) InEndpoint (fun e => bs "endpoint:" ++ e) ++
  part (in_location_id model) InLocation (fun i => bs "location:" ++ Str.int_to_string i).

(** The answer of the tool: the entries of the requested logs, sorted by
    moment with the newest first; entries of one moment stay in the order they
    were written, which is oldest first. *)
Lemma tool_answer to_rfc3339 model l :
  get_proxy_logs to_rfc3339 model l =
    if bool_decide (model = {| in_port := None; in_endpoint := None; in_location_id := None |})
    then Err (bs "Provide at least one of: port, endpoint, location_id")
    else Ok (map snd (sort_by_moment (requested to_rfc3339 model l))).
Proof.
  unfold get_proxy_logs, requested, absorb. destruct model as [[p|] [e|] [i|]];
    cbn [in_port in_endpoint in_location_id get]; rewrite ?app_nil_l, ?app_nil_r, <- ?(assoc_L (++)); reflexivity.
Qed.

Lemma tool_order to_rfc3339 model l :
  let sorted := sort_by_moment (requested to_rfc3339 model l) in
  sorted ≡ₚ requested to_rfc3339 model l /\
  StronglySorted (fun a b => b.1 <= a.1) sorted /\
  forall t, filter (fun y => y.1 = t) sorted = filter (fun y => y.1 = t) (requested to_rfc3339 model l).
Proof. split; [apply sort_perm|]. split; [apply sort_sorted|]. intros t. apply sort_stable. Qed.

(** Messages of one microsecond come out oldest first, although the tool
    promises the newest first. *)
Definition same_moment : list (Z * Z * Op) :=
  [ (7, 8, Port (bs "443") None (bs "first")); (7, 9, Port (bs "443") None (bs "second")) ].

Lemma same_moment_order :
  get_proxy_logs (fun _ => []) {| in_port := Some (bs "443"); in_endpoint := None; in_location_id := None |}
    (run same_moment (no_flags, no_logs)).2 =
  Ok [ {| m_scope := bs "port:443"; m_moment := []; m_ip := []; m_message := bs "first" |};
       {| m_scope := bs "port:443"; m_moment := []; m_ip := []; m_message := bs "second" |} ].
Proof. vm_compute. reflexivity. Qed.

End Logs.
