(* ===== verification/Metrics.v ===== *)
(** * Counters

    What the proxy counts: traffic per domain ([app/traffic_accumulator.rs],
    published by [timers/traffic_timer.rs]), requests per second
    ([app/rps_accumulator.rs], [timers/endpoint_rps_timer.rs]), the history of a
    gateway connection ([metrics/]), and live connections ([app/metrics.rs],
    the guard [ConnGauge] of [h1_proxy_server/pipeline/reader.rs], the hyper
    paths, [app/spawn.rs]).  A gauge of Prometheus is a map from label to
    value. *)

From Stdlib Require Import ZArith Lia Strings.String Strings.Byte.
From stdpp Require Import base tactics list gmap strings.
From S2P Require Import Prelude.

Local Open Scope Z_scope.

Definition u64_max : Z := 2 ^ 64 - 1.

(** [u64::saturating_add] *)
Definition saturating_add (a b : Z) : Z := Z.min u64_max (a + b).

(** ** Traffic *)

Module Traffic.

Record TrafficStats := {
  c2s_events : Z; c2s_bytes : Z; s2c_events : Z; s2c_bytes : Z;
  ws_c2s_events : Z; ws_c2s_bytes : Z; ws_s2c_events : Z; ws_s2c_bytes : Z
}.

(** [TrafficStats::default()] *)
Definition no_traffic : TrafficStats :=
  {| c2s_events := 0; c2s_bytes := 0; s2c_events := 0; s2c_bytes := 0;
     ws_c2s_events := 0; ws_c2s_bytes := 0; ws_s2c_events := 0; ws_s2c_bytes := 0 |}.

(** [TrafficAccumulator] *)
Abbreviation TrafficAccumulator := (gmap bytes TrafficStats).

Definition set_c2s (events bytes : Z) (s : TrafficStats) : TrafficStats :=
  {| c2s_events := events; c2s_bytes := bytes; s2c_events := s2c_events s; s2c_bytes := s2c_bytes s;
     ws_c2s_events := ws_c2s_events s; ws_c2s_bytes := ws_c2s_bytes s;
     ws_s2c_events := ws_s2c_events s; ws_s2c_bytes := ws_s2c_bytes s |}.
Definition set_s2c (events bytes : Z) (s : TrafficStats) : TrafficStats :=
  {| c2s_events := c2s_events s; c2s_bytes := c2s_bytes s; s2c_events := events; s2c_bytes := bytes;
     ws_c2s_events := ws_c2s_events s; ws_c2s_bytes := ws_c2s_bytes s;
     ws_s2c_events := ws_s2c_events s; ws_s2c_bytes := ws_s2c_bytes s |}.
Definition set_ws_c2s (events bytes : Z) (s : TrafficStats) : TrafficStats :=
  {| c2s_events := c2s_events s; c2s_bytes := c2s_bytes s; s2c_events := s2c_events s; s2c_bytes := s2c_bytes s;
     ws_c2s_events := events; ws_c2s_bytes := bytes;
     ws_s2c_events := ws_s2c_events s; ws_s2c_bytes := ws_s2c_bytes s |}.
Definition set_ws_s2c (events bytes : Z) (s : TrafficStats) : TrafficStats :=
  {| c2s_events := c2s_events s; c2s_bytes := c2s_bytes s; s2c_events := s2c_events s; s2c_bytes := s2c_bytes s;
     ws_c2s_events := ws_c2s_events s; ws_c2s_bytes := ws_c2s_bytes s;
     ws_s2c_events := events; ws_s2c_bytes := bytes |}.

Definition record_c2s (domain : bytes) (n : Z) (m : TrafficAccumulator) : TrafficAccumulator :=
  match m !! domain with
  | Some e => <[domain := set_c2s (saturating_add (c2s_events e) 1) (saturating_add (c2s_bytes e) n) e]> m
  | None => <[domain := set_c2s 1 n no_traffic]> m
  end.

Definition record_s2c (domain : bytes) (n : Z) (m : TrafficAccumulator) : TrafficAccumulator :=
  match m !! domain with
  | Some e => <[domain := set_s2c (saturating_add (s2c_events e) 1) (saturating_add (s2c_bytes e) n) e]> m
  | None => <[domain := set_s2c 1 n no_traffic]> m
  end.

Definition record_ws_c2s (domain : bytes) (n : Z) (m : TrafficAccumulator) : TrafficAccumulator :=
  match m !! domain with
  | Some e => <[domain := set_ws_c2s (saturating_add (ws_c2s_events e) 1) (saturating_add (ws_c2s_bytes e) n) e]> m
  | None => <[domain := set_ws_c2s 1 n no_traffic]> m
  end.

Definition record_ws_s2c (domain : bytes) (n : Z) (m : TrafficAccumulator) : TrafficAccumulator :=
  match m !! domain with
  | Some e => <[domain := set_ws_s2c (saturating_add (ws_s2c_events e) 1) (saturating_add (ws_s2c_bytes e) n) e]> m
  | None => <[domain := set_ws_s2c 1 n no_traffic]> m
  end.

(** The keys stay in the map, with everything at zero.  The snapshot is the
    map itself: the timer treats its entries independently of each other. *)
Definition snapshot_and_reset (m : TrafficAccumulator) : TrafficAccumulator * TrafficAccumulator :=
  (m, (fun _ => no_traffic) <$> m).

(** [Prometheus::set_traffic] for every domain of a snapshot, with the casts of
    [TrafficTimer::tick] to [i64]; the eight gauges of a domain are one
    record. *)
Definition cast (s : TrafficStats) : TrafficStats :=
  {| c2s_events := as_i64 (c2s_events s); c2s_bytes := as_i64 (c2s_bytes s);
     s2c_events := as_i64 (s2c_events s); s2c_bytes := as_i64 (s2c_bytes s);
     ws_c2s_events := as_i64 (ws_c2s_events s); ws_c2s_bytes := as_i64 (ws_c2s_bytes s);
     ws_s2c_events := as_i64 (ws_s2c_events s); ws_s2c_bytes := as_i64 (ws_s2c_bytes s) |}.

Definition set_traffic (snapshot gauges : TrafficAccumulator) : TrafficAccumulator :=
  (cast <$> snapshot) ∪ gauges.

Definition traffic_tick (m gauges : TrafficAccumulator) : TrafficAccumulator * TrafficAccumulator :=
  let '(snapshot, m) := snapshot_and_reset m in (m, set_traffic snapshot gauges).

(** ** A run: transfers are recorded, the timer ticks *)

Inductive Kind := C2s | S2c | WsC2s | WsS2c.

#[global] Instance Kind_eq_dec : EqDecision Kind.
Proof. solve_decision. Defined.

Inductive Event := Transfer (k : Kind) (domain : bytes) (n : Z) | Tick.

Definition record (k : Kind) : bytes -> Z -> TrafficAccumulator -> TrafficAccumulator :=
  match k with C2s => record_c2s | S2c => record_s2c | WsC2s => record_ws_c2s | WsS2c => record_ws_s2c end.

Definition exec (e : Event) (s : TrafficAccumulator * TrafficAccumulator) :=
  match e with
  | Transfer k d n => (record k d n s.1, s.2)
  | Tick => traffic_tick s.1 s.2
  end.

Definition run (evs : list Event) (s : TrafficAccumulator * TrafficAccumulator) :=
  foldl (fun s e => exec e s) s evs.

(** The two counters of a kind. *)
Definition counters (k : Kind) (s : TrafficStats) : Z * Z :=
  match k with
  | C2s => (c2s_events s, c2s_bytes s)
  | S2c => (s2c_events s, s2c_bytes s)
  | WsC2s => (ws_c2s_events s, ws_c2s_bytes s)
  | WsS2c => (ws_s2c_events s, ws_s2c_bytes s)
  end.

(** ** The reference: what was transferred since the last tick *)

Definition window (evs : list Event) : list Event :=
  foldl (fun w e => match e with Tick => [] | _ => w ++ [e] end) [] evs.

Definition sizes (k : Kind) (d : bytes) (evs : list Event) : list Z :=
  omap (fun e => match e with
                 | Transfer k' d' n => if decide (k' = k /\ d' = d) then Some n else None
                 | Tick => None
                 end) evs.

Definition total (l : list Z) : Z := foldr Z.add 0 l.

Definition seen (d : bytes) (evs : list Event) : bool :=
  existsb (fun e => match e with Transfer _ d' _ => bool_decide (d' = d) | Tick => false end) evs.

Definition sized (e : Event) : Prop := match e with Transfer _ _ n => in_u64 n | Tick => True end.

(** The counters of a domain after the transfers of a window. *)
Definition expected (k : Kind) (d : bytes) (w : list Event) : Z * Z :=
  (Z.min u64_max (Z.of_nat (length (sizes k d w))), Z.min u64_max (total (sizes k d w))).

Lemma record_lookup k d n m d' :
  record k d n m !! d' =
    if decide (d = d') then
      Some (match m !! d with
            | Some e =>
                let '(events, bytes) := counters k e in
                let set := match k with C2s => set_c2s | S2c => set_s2c | WsC2s => set_ws_c2s | WsS2c => set_ws_s2c end in
                set (saturating_add events 1) (saturating_add bytes n) e
            | None =>
                let set := match k with C2s => set_c2s | S2c => set_s2c | WsC2s => set_ws_c2s | WsS2c => set_ws_s2c end in
                set 1 n no_traffic
            end)
    else m !! d'.
Proof.
  destruct k; cbn [record counters];
    unfold record_c2s, record_s2c, record_ws_c2s, record_ws_s2c; destruct (m !! d);
    (case_decide; [subst; apply lookup_insert_eq|by apply lookup_insert_ne]).
Qed.

Lemma sizes_app k d l1 l2 : sizes k d (l1 ++ l2) = sizes k d l1 ++ sizes k d l2.
Proof. apply omap_app. Qed.

Lemma total_app l1 l2 : total (l1 ++ l2) = total l1 + total l2.
Proof. unfold total. induction l1 as [|x l1 IH]; cbn [app foldr]; lia. Qed.

Lemma window_snoc evs e : window (evs ++ [e]) = match e with Tick => [] | _ => window evs ++ [e] end.
Proof. unfold window. by rewrite foldl_app. Qed.

Lemma window_sized evs : Forall sized evs -> Forall sized (window evs).
Proof.
  induction evs as [|e evs IH] using rev_ind; [done|]. rewrite window_snoc, Forall_app, Forall_singleton.
  intros [H1 H2]. destruct e; [|constructor]. rewrite Forall_app, Forall_singleton. auto.
Qed.

Lemma sizes_nonneg k d l : Forall sized l -> 0 <= total (sizes k d l).
Proof.
  induction 1 as [|e l He _ IH]; [done|]. change (e :: l) with ([e] ++ l). rewrite sizes_app, total_app.
  destruct e; cbn; [|lia]. case_decide; cbn; [|lia]. unfold sized, in_u64 in He. lia.
Qed.

Lemma seen_snoc d evs e :
  seen d (evs ++ [e]) =
    seen d evs || match e with Transfer _ d' _ => bool_decide (d' = d) | Tick => false end.
Proof. unfold seen. rewrite existsb_app. cbn [existsb]. by rewrite orb_false_r. Qed.

Lemma unseen_sizes k d evs : seen d evs = false -> sizes k d (window evs) = [].
Proof.
  induction evs as [|e evs IH] using rev_ind; [done|].
  rewrite seen_snoc, orb_false_iff, window_snoc. intros [H1 H2]. destruct e as [k0 d0 n|]; [|done].
  rewrite sizes_app, (IH H1). apply bool_decide_eq_false in H2. cbn. by rewrite decide_False by naive_solver.
Qed.

Lemma run_key evs g d : is_Some ((run evs (∅, g)).1 !! d) <-> seen d evs = true.
Proof.
  induction evs as [|e evs IH] using rev_ind; [split; [by intros []|done]|].
  unfold run in *. rewrite foldl_app, seen_snoc. cbn [foldl]. destruct e as [k d0 n|]; cbn [exec fst].
  - rewrite record_lookup, orb_true_iff, bool_decide_eq_true. case_decide; [subst; split; eauto|].
    rewrite IH. naive_solver.
  - unfold traffic_tick, snapshot_and_reset. cbn [fst]. by rewrite orb_false_r, lookup_fmap, fmap_is_Some.
Qed.

(** The accumulator after any run. *)
Lemma run_counters evs g d s k :
  Forall sized evs -> (run evs (∅, g)).1 !! d = Some s -> counters k s = expected k d (window evs).
Proof.
  revert s. induction evs as [|e evs IH] using rev_ind; [done|]. intros s.
  rewrite Forall_app, Forall_singleton. intros [Hs He]. specialize (fun s => IH s Hs).
  pose proof (run_key evs g d) as Hseen.
  unfold run in *. rewrite foldl_app. cbn [foldl]. destruct (foldl _ (∅, g) evs) as [m g'] eqn:E.
  cbn [fst] in *. rewrite window_snoc. destruct e as [k0 d0 n|]; cbn [exec fst].
  - rewrite record_lookup. unfold expected. pose proof (sizes_nonneg k d _ (window_sized _ Hs)) as Hn.
    rewrite sizes_app, total_app, length_app.
    assert (sizes k d [Transfer k0 d0 n] = if decide (k0 = k /\ d0 = d) then [n] else []) as ->
      by (cbn; by case_decide).
    case_decide as Hd; [|by intros ->%IH; rewrite decide_False, Z.add_0_r, Nat.add_0_r by naive_solver].
    subst d0. intros [= <-]. destruct (m !! d) as [e|] eqn:Em.
    + pose proof (IH e eq_refl) as Hce. unfold expected, saturating_add, u64_max, sized, in_u64 in *.
      destruct (decide (k0 = k)) as [->|Hne].
      * rewrite decide_True by done. cbn [total foldr length].
        destruct k; cbn in *; injection Hce as Hc1 Hc2; f_equal; lia.
      * rewrite decide_False by naive_solver. cbn [total foldr length].
        rewrite Z.add_0_r, Nat.add_0_r, <- Hce. destruct k0, k; try done; reflexivity.
    + rewrite unseen_sizes by (destruct (seen d evs); [by destruct (proj2 Hseen eq_refl)|done]).
      unfold u64_max, sized, in_u64 in *. destruct (decide (k0 = k)) as [->|Hne].
      * rewrite decide_True by done. cbn [total foldr length app]. destruct k; cbn; f_equal; lia.
      * rewrite decide_False by naive_solver. destruct k0, k; try done; reflexivity.
  - unfold traffic_tick, snapshot_and_reset. cbn [fst]. rewrite lookup_fmap. intros Hm.
    destruct (m !! d); [|done]. injection Hm as <-. unfold expected. by destruct k.
Qed.

Lemma counters_cast k s : counters k (cast s) = (as_i64 (counters k s).1, as_i64 (counters k s).2).
Proof. by destruct k. Qed.

Lemma sizes_length k d evs : (length (sizes k d (window evs)) <= length evs)%nat.
Proof.
  assert (forall l, length (sizes k d l) <= length l)%nat as Hs.
  { induction l as [|[] l IH]; cbn; [lia|case_decide; cbn; unfold sizes in *; lia|unfold sizes in *; lia]. }
  specialize (Hs (window evs)). enough (length (window evs) <= length evs)%nat by lia. clear.
  induction evs as [|e evs IH] using rev_ind; [done|]. rewrite window_snoc, length_app.
  destruct e; [rewrite length_app|]; cbn; lia.
Qed.

Lemma run_gauge_key evs d : seen d evs = false -> (run evs (∅, ∅)).2 !! d = None.
Proof.
  induction evs as [|e evs IH] using rev_ind; [done|].
  rewrite seen_snoc, orb_false_iff. intros [Es _]. specialize (IH Es). pose proof (run_key evs ∅ d) as Hk.
  unfold run in *. rewrite foldl_app. destruct e as [k d0 n|]; [done|].
  cbn [foldl exec]. unfold traffic_tick, snapshot_and_reset, set_traffic. cbn [snd].
  rewrite lookup_union, lookup_fmap, IH.
  destruct (_.1 !! d) eqn:Em; [|done].
  by rewrite (proj1 Hk (mk_is_Some _ _ eq_refl)) in Es.
Qed.

(** C37: After every tick the gauges of a domain show what was transferred for it
    since the tick before: the number of transfers and of bytes in each of the
    four directions, exactly as long as they fit [i64], and zero for a domain
    that was idle; a domain has gauges from its first transfer on and never
    before. *)
Theorem traffic_is_reported_exactly (evs : list Event) (d : bytes) (k : Kind)
    (Hsized : Forall sized evs) (Hfits : total (sizes k d (window evs)) < 2 ^ 63)
    (Hcount : Z.of_nat (length evs) < 2 ^ 63) :
  counters k <$> (run (evs ++ [Tick]) (∅, ∅)).2 !! d =
    if seen d evs
    then Some (Z.of_nat (length (sizes k d (window evs))), total (sizes k d (window evs)))
    else None.
Proof.
  assert (Hgauge : forall evs, (run (evs ++ [Tick]) (∅, ∅)).2 = (cast <$> (run evs (∅, ∅)).1) ∪ (run evs (∅, ∅)).2)
    by (intros l; unfold run; by rewrite foldl_app).
  pose proof (run_key evs ∅ d) as Hseen.
  pose proof (sizes_length k d evs) as Hlen.
  rewrite Hgauge, lookup_union, lookup_fmap. destruct ((run evs (∅, ∅)).1 !! d) as [s|] eqn:Em.
  - rewrite (proj1 Hseen (mk_is_Some _ _ eq_refl)). cbn [fmap option_fmap option_map].
    rewrite union_Some_l. cbn [fmap option_fmap option_map].
    rewrite counters_cast, (run_counters evs ∅ d s k Hsized Em). unfold expected. cbn [fst snd].
    pose proof (sizes_nonneg k d _ (window_sized _ Hsized)).
    rewrite !Z.min_r by (unfold u64_max; lia).
    assert (Hid : forall z, 0 <= z < 2 ^ 63 -> as_i64 z = z).
    { intros z Hz. rewrite <- (as_i64_small z) at 2 by (unfold in_i64; lia). by rewrite Z.mod_small by lia. }
    by rewrite !Hid by lia.
  - destruct (seen d evs) eqn:Es; [by destruct (proj2 Hseen eq_refl)|]. cbn [fmap option_fmap option_map].
    rewrite (left_id None union).
    by rewrite run_gauge_key.
Qed.

Lemma traffic_is_reported_exactly_witness :
  let evs := [Transfer C2s (bs "a") 10; Tick; Transfer C2s (bs "a") 7; Transfer WsS2c (bs "b") 3;
              Transfer C2s (bs "a") 5] in
  Forall sized evs /\
  counters C2s <$> (run (evs ++ [Tick]) (∅, ∅)).2 !! bs "a" = Some (2, 12) /\
  counters C2s <$> (run (evs ++ [Tick; Tick]) (∅, ∅)).2 !! bs "a" = Some (0, 0).
Proof.
  cbv zeta. split; [repeat constructor; vm_compute; done|]. split; [|vm_compute; reflexivity].
  refine (eq_trans (traffic_is_reported_exactly _ (bs "a") C2s _ _ _) _);
    [repeat constructor; vm_compute; done|vm_compute; reflexivity|vm_compute; reflexivity|vm_compute; reflexivity].
Defined.

End Traffic.

(** ** Requests per second *)

Module Rps.

(** [RpsAccumulator]; [overflow_checks] says whether [*v += 1] is checked. *)
Definition inc_domain (overflow_checks : bool) (domain : bytes) (m : gmap bytes Z) :
    outcome Empty_set (gmap bytes Z) :=
  match m !! domain with
  | Some v => v ← usize_op overflow_checks (v + 1); Ok (<[domain := v]> m)
  | None => Ok (<[domain := 1]> m)
  end.

Definition rps_snapshot_and_reset (m : gmap bytes Z) : gmap bytes Z * gmap bytes Z := (m, (fun _ => 0) <$> m).

(** [EndpointRpsTimer::tick], with [Prometheus::set_domain_rps]. *)
Definition rps_tick (m gauges : gmap bytes Z) : gmap bytes Z * gmap bytes Z :=
  let '(snapshot, m) := rps_snapshot_and_reset m in (m, (as_i64 <$> snapshot) ∪ gauges).

Fixpoint count_requests (overflow_checks : bool) (domains : list bytes) (m : gmap bytes Z) :
    outcome Empty_set (gmap bytes Z) :=
  match domains with
  | [] => Ok m
  | d :: domains => m ← inc_domain overflow_checks d m; count_requests overflow_checks domains m
  end.

(** Counting never overflows before [2 ^ 64] requests, and counts every
    request of a domain once. *)
Lemma count_exact oc domains m :
  (forall d, 0 <= default 0 (m !! d) /\ default 0 (m !! d) + Z.of_nat (length domains) < 2 ^ 64) ->
  exists m', count_requests oc domains m = Ok m' /\
    forall d, default 0 (m' !! d) = default 0 (m !! d) + Z.of_nat (length (filter (fun x => x = d) domains)).
Proof.
  revert m. induction domains as [|x l IH]; intros m Hm; cbn [count_requests].
  { exists m. split; [done|]. intros d. cbn. lia. }
  assert (inc_domain oc x m = Ok (<[x := default 0 (m !! x) + 1]> m)) as ->.
  { unfold inc_domain. specialize (Hm x). destruct (m !! x) as [v|]; [|done]. cbn [default from_option id length] in *.
    by rewrite usize_op_fits by lia. }
  cbn [mbind outcome_bind].
  assert (Hl : forall d, default 0 (<[x := default 0 (m !! x) + 1]> m !! d) =
                 default 0 (m !! d) + if decide (x = d) then 1 else 0).
  { intros d. case_decide as Hd; [subst; by rewrite lookup_insert_eq|]. rewrite lookup_insert_ne by done. lia. }
  destruct (IH (<[x := default 0 (m !! x) + 1]> m)) as (m' & -> & Hm').
  { intros d. rewrite Hl. specialize (Hm d). cbn [length] in Hm. case_decide; lia. }
  exists m'. split; [done|]. intros d. rewrite Hm', Hl, filter_cons. case_decide; cbn [length]; lia.
Qed.

End Rps.

(** ** The history of a gateway connection *)

Module History.

Definition MAX_METRICS_SIZE : nat := 120.

(** [HistoryMetrics::add] *)
Definition add (value : Z) (data : list Z) : list Z :=
  (if decide (length data = MAX_METRICS_SIZE) then tail data else data) ++ [value].

(** [PerSecondAccumulator]: an atomic that wraps around. *)
Definition accumulate (value acc : Z) : Z := (acc + value) mod 2 ^ 64.

(** [one_second_timer_tick] over the two accumulators and their histories. *)
Record ConnectionMetrics := {
  in_acc : Z; out_acc : Z; in_per_second : list Z; out_per_second : list Z
}.

Definition one_second_timer_tick (c : ConnectionMetrics) : ConnectionMetrics :=
  {| in_acc := 0; out_acc := 0;
     in_per_second := add (in_acc c) (in_per_second c);
     out_per_second := add (out_acc c) (out_per_second c) |}.

Lemma history_bounded v data :
  (length data <= MAX_METRICS_SIZE)%nat -> (length (add v data) <= MAX_METRICS_SIZE)%nat.
Proof.
  unfold add. rewrite length_app. cbn [length]. case_decide as H; [|lia].
  destruct data; cbn [tail length] in *; [unfold MAX_METRICS_SIZE in *|]; lia.
Qed.

End History.

(** ** Live connections *)

Module Live.

(** [MetricsValues]; the [isize] is not bounded here, it counts connections. *)
Section MetricsValues.
Context `{Countable K}.

Definition inc (key : K) (data : gmap K Z) : gmap K Z :=
  match data !! key with Some value => <[key := value + 1]> data | None => <[key := 1]> data end.

Definition dec (key : K) (data : gmap K Z) : gmap K Z :=
  match data !! key with Some value => <[key := value - 1]> data | None => <[key := -1]> data end.

Definition get (key : K) (data : gmap K Z) : Z :=
  match data !! key with Some value => value | None => 0 end.

Definition inc_opt (key : option K) (data : gmap K Z) : gmap K Z :=
  match key with Some key => inc key data | None => data end.

Definition dec_opt (key : option K) (data : gmap K Z) : gmap K Z :=
  match key with Some key => dec key data | None => data end.

End MetricsValues.

(** A served connection, by the code that counts it:
    [serve_reverse_proxy_pipelined] with its guard [ConnGauge] and the endpoint
    slot of the guard; [tcp_listener/https/handle_connection.rs] with its h2
    branch; [tcp_listener/http2.rs]. *)
Inductive Conn :=
  | H1 (listen_addr : bytes) (port : option Z) (slot : option bytes)
  | TlsH2 (endpoint_name : bytes) (endpoint_port : Z) (endpoint_host : bytes)
  | PlainH2 (listening_addr : bytes) (port : option Z).

Definition port_of (c : Conn) : option Z :=
  match c with H1 _ p _ => p | TlsH2 _ p _ => Some p | PlainH2 _ p => p end.
Definition endpoint_of (c : Conn) : option bytes :=
  match c with H1 _ _ e => e | TlsH2 _ _ e => Some e | PlainH2 _ _ => None end.
Definition http1_of (c : Conn) : option bytes := match c with H1 a _ _ => Some a | _ => None end.
Definition http2_of (c : Conn) : option bytes :=
  match c with H1 _ _ _ => None | TlsH2 a _ _ => Some a | PlainH2 a _ => Some a end.

(** [Metrics] and the two server gauges of Prometheus, whose children start
    at zero like a key of [MetricsValues]. *)
Record Metrics := {
  connection_by_port : gmap Z Z;
  connection_by_endpoint : gmap bytes Z;
  http1_server_connections : gmap bytes Z;
  http2_server_connections : gmap bytes Z
}.

(** The system: the metrics, the connections that are served, and those whose
    task was dropped before it returned and that had no guard. *)
Record System := { metrics : Metrics; live : list Conn; lost : list Conn }.

Definition start : System :=
  {| metrics := {| connection_by_port := ∅; connection_by_endpoint := ∅;
                   http1_server_connections := ∅; http2_server_connections := ∅ |};
     live := []; lost := [] |}.

(** What opening a connection adds.  The h1 entry opens with an empty slot and
    fills it when the endpoint is known. *)
Definition opened (c : Conn) (m : Metrics) : Metrics :=
  {| connection_by_port := inc_opt (port_of c) (connection_by_port m);
     connection_by_endpoint := inc_opt (endpoint_of c) (connection_by_endpoint m);
     http1_server_connections := inc_opt (http1_of c) (http1_server_connections m);
     http2_server_connections := inc_opt (http2_of c) (http2_server_connections m) |}.

(** What its regular end takes away: [Drop for ConnGauge], and the statements
    behind [serve_connection] on the hyper paths. *)
Definition closed (c : Conn) (m : Metrics) : Metrics :=
  {| connection_by_port := dec_opt (port_of c) (connection_by_port m);
     connection_by_endpoint := dec_opt (endpoint_of c) (connection_by_endpoint m);
     http1_server_connections := dec_opt (http1_of c) (http1_server_connections m);
     http2_server_connections := dec_opt (http2_of c) (http2_server_connections m) |}.

(** [ConnGauge::attribute_to_endpoint]: only the first endpoint counts. *)
Definition attribute_to_endpoint (host : bytes) (c : Conn) (m : Metrics) : Conn * Metrics :=
  match c with
  | H1 a p None =>
      (H1 a p (Some host),
       {| connection_by_port := connection_by_port m;
          connection_by_endpoint := inc host (connection_by_endpoint m);
          http1_server_connections := http1_server_connections m;
          http2_server_connections := http2_server_connections m |})
  | _ => (c, m)
  end.

Inductive Event :=
  | Open (c : Conn)                       (** a connection is accepted and served *)
  | Attribute (i : nat) (host : bytes)    (** a request of connection [i] found its endpoint *)
  | Finish (i : nat)                      (** the function that serves connection [i] returns *)
  | Dropped (i : nat).                    (** its task is aborted or panics *)

Definition exec (e : Event) (s : System) : System :=
  match e with
  | Open c => {| metrics := opened c (metrics s); live := c :: live s; lost := lost s |}
  | Attribute i host =>
      match live s !! i with
      | Some c =>
          let '(c, m) := attribute_to_endpoint host c (metrics s) in
          {| metrics := m; live := <[i := c]> (live s); lost := lost s |}
      | None => s
      end
  | Finish i =>
      match live s !! i with
      | Some c => {| metrics := closed c (metrics s); live := delete i (live s); lost := lost s |}
      | None => s
      end
  | Dropped i =>
      match live s !! i with
      | Some (H1 _ _ _ as c) => {| metrics := closed c (metrics s); live := delete i (live s); lost := lost s |}
      | Some c => {| metrics := metrics s; live := delete i (live s); lost := c :: lost s |}
      | None => s
      end
  end.

Definition run (evs : list Event) (s : System) : System := foldl (fun s e => exec e s) s evs.

(** ** Counting *)

Section Count.
Context `{Countable K}.

Lemma get_inc_opt o (k : K) m : get k (inc_opt o m) = get k m + if decide (o = Some k) then 1 else 0.
Proof.
  destruct o as [k0|]; cbn [inc_opt]; [|rewrite decide_False by done; lia]. unfold inc, get.
  destruct (decide (k0 = k)) as [->|Hne]; [rewrite decide_True by done|rewrite decide_False by congruence].
  - destruct (m !! k); rewrite lookup_insert_eq; lia.
  - destruct (m !! k0); rewrite lookup_insert_ne by done; lia.
Qed.

Lemma get_dec_opt o (k : K) m : get k (dec_opt o m) = get k m - if decide (o = Some k) then 1 else 0.
Proof.
  destruct o as [k0|]; cbn [dec_opt]; [|rewrite decide_False by done; lia]. unfold dec, get.
  destruct (decide (k0 = k)) as [->|Hne]; [rewrite decide_True by done|rewrite decide_False by congruence].
  - destruct (m !! k); rewrite lookup_insert_eq; lia.
  - destruct (m !! k0); rewrite lookup_insert_ne by done; lia.
Qed.

(** The connections of a list that count for a key. *)
Definition count (f : Conn -> option K) (k : K) (l : list Conn) : Z :=
  Z.of_nat (length (filter (fun c => f c = Some k) l)).

Lemma count_cons f k c l : count f k (c :: l) = (if decide (f c = Some k) then 1 else 0) + count f k l.
Proof. unfold count. rewrite filter_cons. case_decide; cbn [length]; lia. Qed.

Lemma count_perm f k l1 l2 : l1 ≡ₚ l2 -> count f k l1 = count f k l2.
Proof. intros Hp. unfold count. by rewrite Hp. Qed.

Lemma live_count_delete f k i c l :
  l !! i = Some c -> count f k l = (if decide (f c = Some k) then 1 else 0) + count f k (delete i l).
Proof. intros Hi. rewrite <- count_cons. apply count_perm, (delete_Permutation _ _ _ Hi). Qed.

Lemma live_count_insert f k i c c' l :
  l !! i = Some c ->
  count f k (<[i := c']> l) = count f k l - (if decide (f c = Some k) then 1 else 0) +
                              (if decide (f c' = Some k) then 1 else 0).
Proof.
  intros Hi. assert (Hi' : <[i := c']> l !! i = Some c') by (apply list_lookup_insert_eq; by eapply lookup_lt_Some).
  rewrite (live_count_delete f k i c l Hi), (live_count_delete f k i c' _ Hi').
  assert (delete i (<[i := c']> l) = delete i l) as ->; [|lia].
  clear. revert i. induction l as [|x l IH]; intros [|i]; try done. cbn. f_equal. apply IH.
Qed.

End Count.

(** Every gauge shows the connections that are served, and those that were
    lost without their guard. *)
Record accounted (s : System) : Prop := {
  acc_port : forall p, get p (connection_by_port (metrics s)) = count port_of p (live s) + count port_of p (lost s);
  acc_endpoint : forall e,
    get e (connection_by_endpoint (metrics s)) = count endpoint_of e (live s) + count endpoint_of e (lost s);
  acc_http1 : forall a,
    get a (http1_server_connections (metrics s)) = count http1_of a (live s) + count http1_of a (lost s);
  acc_http2 : forall a,
    get a (http2_server_connections (metrics s)) = count http2_of a (live s) + count http2_of a (lost s)
}.

Ltac accounting H :=
  destruct H as [Hp He H1 H2]; split; intros x; cbn [metrics live lost opened closed connection_by_port
    connection_by_endpoint http1_server_connections http2_server_connections];
  rewrite ?get_inc_opt, ?get_dec_opt, ?count_cons, ?Hp, ?He, ?H1, ?H2.

Lemma exec_accounted e s : accounted s -> accounted (exec e s).
Proof.
  intros H. destruct e as [c|i host|i|i]; cbn [exec].
  - accounting H; lia.
  - destruct (live s !! i) as [c|] eqn:E; [|done].
    destruct c as [a p [h|]|a p h|a p]; cbn [attribute_to_endpoint];
      try (rewrite (list_insert_id _ _ _ E); by destruct s).
    change (inc host (connection_by_endpoint (metrics s)))
      with (inc_opt (Some host) (connection_by_endpoint (metrics s))).
    accounting H; rewrite (live_count_insert _ _ _ _ _ _ E); cbn [port_of endpoint_of http1_of http2_of]; try lia.
    rewrite (decide_False (P := None = Some x)) by done. lia.
  - destruct (live s !! i) as [c|] eqn:E; [|done].
    accounting H; rewrite (live_count_delete _ _ _ _ _ E); lia.
  - destruct (live s !! i) as [c|] eqn:E; [|done].
    destruct c; accounting H; rewrite (live_count_delete _ _ _ _ _ E); lia.
Qed.

Lemma run_accounted evs s : accounted s -> accounted (run evs s).
Proof. revert s. induction evs as [|e evs IH]; intros s H; [done|]. apply IH, exec_accounted, H. Qed.

Lemma run_lost_h2 evs c : c ∈ lost (run evs start) -> http1_of c = None.
Proof.
  induction evs as [|e evs IH] using rev_ind; [by intros ?%not_elem_of_nil|].
  unfold run in *. rewrite foldl_app. cbn [foldl]. set (s := foldl _ _ _) in *.
  destruct e as [c'|i h|i|i]; cbn [exec]; [done| | |]; destruct (live s !! i) as [c'|]; try done.
  - by destruct (attribute_to_endpoint h c' (metrics s)).
  - destruct c'; cbn [lost]; [done|rewrite elem_of_cons; intros [->|?]; [done|by apply IH]..].
Qed.

(** At any moment the count of a port, of an endpoint and of either server
    gauge is the number of connections that are being served there, plus the
    HTTP/2 connections whose task ended without returning: an HTTP/1
    connection is counted once however many endpoints its requests name, and
    leaves the counts however it ends. *)
Theorem counts_are_the_live_connections (evs : list Event) :
  let s := run evs start in
  accounted s /\ (forall a, get a (http1_server_connections (metrics s)) = count http1_of a (live s)) /\
  ((forall i, Dropped i ∉ evs) -> lost s = []).
Proof.
  cbv zeta. assert (accounted (run evs start)) as Ha by (apply run_accounted; by split).
  split; [done|]. split.
  - intros a. rewrite (acc_http1 _ Ha).
    assert (filter (fun c => http1_of c = Some a) (lost (run evs start)) = []) as Hn.
    { apply elem_of_nil_inv. intros c [H1 H2]%list_elem_of_filter. by rewrite (run_lost_h2 _ _ H2) in H1. }
    unfold count. rewrite Hn. cbn [length]. lia.
  - induction evs as [|e evs IH] using rev_ind; [done|]. intros Hno.
    unfold run in *. rewrite foldl_app in *. cbn [foldl] in *. set (s := foldl _ _ _) in *.
    assert (lost s = []) as Hs. { apply IH; [apply run_accounted; by split|]. intros i Hi. apply (Hno i). set_solver. }
    destruct e as [c|i h|i|i]; cbn [exec]; [done|..]; try (destruct (live s !! i) as [c|]; [|done]); try done.
    + by destruct (attribute_to_endpoint h c (metrics s)).
    + by destruct (Hno i); set_solver.
Qed.

(** Two connections on a port: the h1 one names two endpoints and is aborted,
    the h2 one is dropped before it returns and stays in the counts. *)
Definition demo_events : list Event :=
  [Open (H1 (bs "443") (Some 443) None); Attribute 0 (bs "a"); Attribute 0 (bs "b");
   Open (TlsH2 (bs "https://443") 443 (bs "a")); Dropped 1; Dropped 0].

Lemma counts_are_the_live_connections_witness :
  let s := run demo_events start in
  live s = [] /\ get 443 (connection_by_port (metrics s)) = 1 /\ get (bs "443") (http1_server_connections (metrics s)) = 0 /\
  lost (run (take 4 demo_events) start) = [].
Proof.
  cbv zeta. split; [vm_compute; reflexivity|].
  destruct (counts_are_the_live_connections demo_events) as (Ha & Hh1 & _).
  destruct (counts_are_the_live_connections (take 4 demo_events)) as (_ & _ & Hl).
  split; [rewrite (acc_port _ Ha); vm_compute; reflexivity|].
  split; [rewrite Hh1; vm_compute; reflexivity|].
  apply Hl. intros i Hi. cbn in Hi. rewrite !elem_of_cons in Hi. destruct Hi as [Hi|[Hi|[Hi|[Hi|Hi]]]]; try discriminate Hi.
  by apply not_elem_of_nil in Hi.
Defined.

End Live.
