(* ===== verification/StreamCopy.v ===== *)
(** * Copying streams

    Writing with a deadline ([network_stream/split/write_part.rs]), the copy
    loop of the tunnels ([tcp_utils/copy_streams.rs]), the forwarding of a raw
    TCP port ([tcp_listener/tcp_port_forward/forwards.rs]), and the pumps of an
    MCP endpoint ([tcp_listener/mcp/run_mcp_connection.rs]). *)

From Stdlib Require Import ZArith Lia Strings.String Strings.Byte.
From stdpp Require Import base tactics list gmap strings.
From S2P Require Import Prelude RustStd LoopBuffer ProxyLogs Metrics.

Local Open Scope Z_scope.

Module Copy.
Import ReadPart.

(** ** [NetworkStreamWritePart] *)

(** How a write ends: the socket takes everything and is flushed; it takes
    [n] bytes and never completes; it takes [n] bytes and fails; it takes
    everything and the flush fails. *)
Inductive WriteVerdict :=
  | Written
  | Stalled (n : nat)
  | Broken (n : nat) (e : bytes)
  | FlushBroken (e : bytes).

(** A write half: what the peer was sent, whether it was shut down, and how the
    writes to come end; a write beyond them succeeds. *)
Record Writer := { sent : bytes; shut : bool; verdicts : list WriteVerdict }.

Definition shutdown_socket (w : Writer) : Writer :=
  {| sent := sent w; shut := true; verdicts := verdicts w |}.

Definition next_verdict (w : Writer) : WriteVerdict := default Written (head (verdicts w)).

Definition deliver (b : bytes) (w : Writer) : Writer :=
  {| sent := sent w ++ b; shut := shut w; verdicts := tail (verdicts w) |}.

(** [write_all_with_timeout].  On a time-out the future of [shutdown_socket] is
    made and dropped without being polled, so the socket stays as it is. *)
Definition write_all_with_timeout (buffer : bytes) (timeout : Z) (w : Writer) :
    Writer * outcome NetworkError unit :=
  match next_verdict w with
  | Written => (deliver buffer w, Ok tt)
  | Stalled n => (deliver (take n buffer) w, Err (Timeout timeout))
  | Broken n e => (shutdown_socket (deliver (take n buffer) w), Err (IoError e))
  | FlushBroken e => (deliver buffer w, Err (IoError e))
  end.

(** ** [copy_streams] *)

Inductive WsDirection := ClientToServer | ServerToClient.

Record WsTrafficRecorder := { domain : bytes; direction : WsDirection }.

(** [WsTrafficRecorder::record] *)
Definition record (r : WsTrafficRecorder) (n : Z) (t : Traffic.TrafficAccumulator) : Traffic.TrafficAccumulator :=
  match direction r with
  | ClientToServer => Traffic.record_ws_c2s (domain r) n t
  | ServerToClient => Traffic.record_ws_s2c (domain r) n t
  end.

(** What one copy works on: its two halves and its buffer, and the shared
    state it writes to. *)
Record Pump := {
  reader : source;
  writer : Writer;
  loop_buffer : LoopBuffer.t;
  traffic : Traffic.TrafficAccumulator;
  logs : Logs.ProxyLogs;
  stderr : list bytes
}.

Section CopyStreams.
(** The clock, and the debug text of an error. *)
Context (now : Z * Z) (debug_err : NetworkError -> bytes).
Context (recorder : option WsTrafficRecorder) (log_scope : option Logs.ProxyLogScope).
Context (read_timeout write_timeout : Z).

Definition direction_label : bytes :=
  match recorder with
  | Some r => match direction r with ClientToServer => bs "c2s" | ServerToClient => bs "s2c" end
  | None => bs "?"
  end.

Definition log (message : bytes) (p : Pump) : Pump :=
  match log_scope with
  | Some scope =>
      {| reader := reader p; writer := writer p; loop_buffer := loop_buffer p; traffic := traffic p;
         logs := Logs.scope_write_always now scope message (logs p); stderr := stderr p |}
  | None =>
      {| reader := reader p; writer := writer p; loop_buffer := loop_buffer p; traffic := traffic p;
         logs := logs p; stderr := stderr p ++ [message] |}
  end.

Definition set_writer (w : Writer) (p : Pump) : Pump :=
  {| reader := reader p; writer := w; loop_buffer := loop_buffer p; traffic := traffic p;
     logs := logs p; stderr := stderr p |}.

(** The block that empties the buffer; [false] when the loop ends. *)
Definition write_buffered (p : Pump) : outcome Empty_set (Pump * bool) :=
  buf ← LoopBuffer.get_data (loop_buffer p);
  if decide (0 < length buf)%nat then
    let len := length buf in
    match write_all_with_timeout buf write_timeout (writer p) with
    | (w, Ok _) =>
        Ok ({| reader := reader p; writer := w;
               loop_buffer := LoopBuffer.commit_read len (loop_buffer p);
               traffic := match recorder with
                          | Some rec => record rec (Z.of_nat len) (traffic p)
                          | None => traffic p
                          end;
               logs := logs p; stderr := stderr p |}, true)
    | (w, Err err) =>
        Ok (log (bs "ws-pump " ++ direction_label ++ bs " write " ++ Str.uint_to_string (Z.of_nat len) ++
                 bs " bytes failed: " ++ debug_err err) (set_writer w p), false)
    | (_, Panic) => Panic
    end
  else Ok (p, true).

(** The read; [false] when the loop ends. *)
Definition read_next (p : Pump) : outcome Empty_set (Pump * bool) :=
  let '(b, room) := LoopBuffer.get_mut (loop_buffer p) in
  room ← unwrap room;
  let '(s, read_result) := read_with_timeout room read_timeout (reader p) in
  let p := {| reader := s; writer := writer p; loop_buffer := b; traffic := traffic p;
              logs := logs p; stderr := stderr p |} in
  match read_result with
  | Ok chunk =>
      if decide (length chunk = 0%nat) then Ok (set_writer (shutdown_socket (writer p)) p, false)
      else
        Ok ({| reader := s; writer := writer p;
               loop_buffer := LoopBuffer.advance (length chunk) (LoopBuffer.store chunk b);
               traffic := traffic p; logs := logs p; stderr := stderr p |}, true)
  | Err err =>
      let p := log (bs "ws-pump " ++ direction_label ++ bs " read failed: " ++ debug_err err) p in
      Ok (set_writer (shutdown_socket (writer p)) p, false)
  | Panic => Panic
  end.

(** [None] when the fuel is used up: every round takes a segment or a part of
    one off the reader. *)
Fixpoint copy_loop (fuel : nat) (p : Pump) : option (outcome Empty_set Pump) :=
  match fuel with
  | O => None
  | S fuel =>
      match write_buffered p with
      | Ok (p, true) =>
          match read_next p with
          | Ok (p, true) => copy_loop fuel p
          | Ok (p, false) => Some (Ok p)
          | Err e => Some (Err e)
          | Panic => Some Panic
          end
      | Ok (p, false) => Some (Ok p)
      | Err e => Some (Err e)
      | Panic => Some Panic
      end
  end.

Definition copy_streams (p : Pump) : option (outcome Empty_set Pump) := copy_loop (S (size (reader p))) p.

(** *** One round *)

Definition pump_ok (p : Pump) : Prop :=
  LoopBuffer.inv (loop_buffer p) /\ (0 < length (LoopBuffer.data (loop_buffer p)))%nat.

(** What is still to be copied. *)
Definition to_copy (p : Pump) : bytes := LoopBuffer.queue (loop_buffer p) ++ pending (reader p).

(** [ws] were written whole, one after the other, each as one payload of at
    most a buffer, and were counted for the domain. *)
Definition counted (ws : list bytes) (t : Traffic.TrafficAccumulator) : Traffic.TrafficAccumulator :=
  foldl (fun t w => match recorder with Some rec => record rec (Z.of_nat (length w)) t | None => t end) t ws.

Definition healthy (w : Writer) : Prop := Forall (fun v => v = Written) (verdicts w).

Lemma log_fields m p :
  reader (log m p) = reader p /\ writer (log m p) = writer p /\ loop_buffer (log m p) = loop_buffer p /\
  traffic (log m p) = traffic p.
Proof. unfold log. by destruct log_scope. Qed.

Lemma healthy_next w : healthy w -> next_verdict w = Written /\ forall b, healthy (deliver b w).
Proof.
  unfold healthy, next_verdict. intros H. destruct (verdicts w) as [|v vs] eqn:E; cbn.
  - split; [done|]. intros b. cbn. by rewrite E.
  - inversion H; subst. split; [done|]. intros b. cbn. by rewrite E.
Qed.

Lemma write_spec buf t w :
  exists w' r, write_all_with_timeout buf t w = (w', r) /\ (healthy w -> r = Ok tt /\ healthy w') /\
    match r with
    | Ok _ => sent w' = sent w ++ buf /\ shut w' = shut w
    | Err _ => exists part, part `prefix_of` buf /\ sent w' = sent w ++ part
    | Panic => False
    end.
Proof.
  unfold write_all_with_timeout. destruct (next_verdict w) as [|n|n e|e] eqn:Ev; do 2 eexists; (split; [done|]);
    (split; [intros [Hn Hh]%healthy_next; rewrite Hn in Ev; try done; auto|]); [done|..]; cbn [sent shutdown_socket deliver].
  - exists (take n buf). split; [apply prefix_take|done].
  - exists (take n buf). split; [apply prefix_take|done].
  - by exists buf.
Qed.

Lemma write_buffered_spec p :
  pump_ok p ->
  exists p' go, write_buffered p = Ok (p', go) /\ reader p' = reader p /\ pump_ok p' /\
    (healthy (writer p) -> go = true /\ healthy (writer p')) /\
    if go : bool then
      LoopBuffer.queue (loop_buffer p') = [] /\ shut (writer p') = shut (writer p) /\
      sent (writer p') = sent (writer p) ++ LoopBuffer.queue (loop_buffer p) /\
      exists ws, concat ws = LoopBuffer.queue (loop_buffer p) /\ [] ∉ ws /\ traffic p' = counted ws (traffic p)
    else
      traffic p' = traffic p /\
      exists part, part `prefix_of` LoopBuffer.queue (loop_buffer p) /\ sent (writer p') = sent (writer p) ++ part.
Proof.
  intros [Hi Hc]. unfold write_buffered. rewrite LoopBuffer.get_data_queue by done. cbn [mbind outcome_bind].
  set (q := LoopBuffer.queue (loop_buffer p)). case_decide as Hq.
  2: { assert (q = []) as Hq0 by (destruct q; [done|cbn in Hq; lia]). exists p, true. split_and!; try done.
       - rewrite Hq0. by rewrite app_nil_r.
       - exists []. rewrite Hq0. split_and!; [done|by apply not_elem_of_nil|done]. }
  destruct (LoopBuffer.commit_queue (length q) _ Hi (le_n _)) as (Ci & Cq & Cl).
  destruct (write_spec q write_timeout (writer p)) as (w' & r & -> & Hh & Hr). destruct r as [[]|e|]; [..|done].
  - destruct Hr as [Hs Hsh]. eexists _, true. split; [done|]. cbn [reader writer loop_buffer traffic]. split; [done|].
    split; [split; cbn [loop_buffer]; [done|by rewrite Cl]|]. split; [intros Hw; split; [done|by apply Hh]|].
    rewrite Cq, drop_all. split_and!; try done. exists [q]. cbn. rewrite app_nil_r. split_and!; try done.
    rewrite list_elem_of_singleton. intros Hnil. rewrite <- Hnil in Hq. cbn in Hq. lia.
  - cbv zeta. match goal with |- context [log ?m ?x] => exists (log m x), false; destruct (log_fields m x) as (E1 & E2 & E3 & E4) end.
    unfold pump_ok. rewrite E1, E2, E3, E4. cbn [reader writer loop_buffer traffic set_writer].
    split_and!; try done. intros Hw. by destruct (Hh Hw).
Qed.

Lemma read_next_spec p :
  pump_ok p -> LoopBuffer.queue (loop_buffer p) = [] ->
  exists p' go, read_next p = Ok (p', go) /\ pump_ok p' /\ traffic p' = traffic p /\
    sent (writer p') = sent (writer p) /\ verdicts (writer p') = verdicts (writer p) /\ to_copy p' = to_copy p /\
    if go : bool then (size (reader p') < size (reader p))%nat /\ shut (writer p') = shut (writer p)
    else to_copy p = [] /\ shut (writer p') = true.
Proof.
  intros [Hi Hc] Hq. unfold read_next.
  destruct (LoopBuffer.get_mut_spec _ Hi) as (Gi & Gq & Gl & Gr).
  destruct (LoopBuffer.get_mut (loop_buffer p)) as [b room]. cbn [fst snd] in *.
  destruct room as [n|]; [|rewrite Hq in Gr; cbn in Gr; lia]. destruct Gr as [Hn Hn0]. cbn [unwrap mbind outcome_bind].
  unfold to_copy. rewrite Hq in *. cbn [app].
  destruct (read_with_timeout n read_timeout (reader p)) as [s r] eqn:Er. destruct r as [chunk|e|].
  - destruct (read_with_timeout_Ok _ _ _ _ _ Er) as ([H0 H1] & Hp & Hsz).
    rewrite decide_False by lia. eexists _, true. split; [done|]. cbn [reader writer loop_buffer traffic].
    destruct (LoopBuffer.store_advance_queue chunk b Gi ltac:(lia)) as (Si & Sq & Sl).
    unfold pump_ok. cbn [loop_buffer]. rewrite Sl, Sq, Gq, Hp. split_and!; try done; lia.
  - destruct (read_with_timeout_Err _ _ _ _ _ Hn0 Er) as [Hp ->].
    cbv zeta. match goal with |- context [log ?m ?x] => eexists _, false; split; [done|]; destruct (log_fields m x) as (E1 & E2 & E3 & E4) end.
    unfold pump_ok, set_writer. cbn [reader writer loop_buffer traffic]. rewrite E1, E2, E3, E4.
    cbn [reader writer loop_buffer traffic shutdown_socket sent shut verdicts].
    rewrite Gq, Gl, Hp. by split_and!.
  - by apply read_with_timeout_no_panic in Er.
Qed.

(** *** The loop *)

Lemma copy_loop_spec fuel p :
  pump_ok p -> (size (reader p) < fuel)%nat ->
  exists p' ws part, copy_loop fuel p = Some (Ok p') /\
    sent (writer p') = sent (writer p) ++ concat ws ++ part /\ concat ws ++ part `prefix_of` to_copy p /\
    [] ∉ ws /\ traffic p' = counted ws (traffic p) /\
    (healthy (writer p) -> concat ws = to_copy p /\ part = [] /\ shut (writer p') = true).
Proof.
  revert p. induction fuel as [|fuel IH]; intros p Hp Hf; [lia|]. cbn [copy_loop].
  destruct (write_buffered_spec p Hp) as (p1 & go & -> & Hr & Hp1 & Hh & Hgo). destruct go.
  2: { destruct Hgo as (Ht & part & Hpre & Hs). exists p1, [], part. split_and!; try done.
       - etrans; [exact Hpre|]. by eexists.
       - by apply not_elem_of_nil.
       - intros Hw. by destruct (Hh Hw). }
  destruct Hgo as (Hq & Hsh & Hs & ws & Hws & Hne & Ht).
  assert (to_copy p = concat ws ++ to_copy p1) as Htc by (unfold to_copy; by rewrite Hq, Hws, Hr).
  destruct (read_next_spec p1 Hp1 Hq) as (p2 & go & -> & Hp2 & Ht2 & Hs2 & Hv2 & Htc2 & Hgo). destruct go.
  - destruct Hgo as [Hsz Hsh2]. rewrite Hr in Hsz. destruct (IH p2 Hp2 ltac:(lia)) as
      (p' & ws' & part & -> & Hs' & Hpre & Hne' & Ht' & Hh').
    exists p', (ws ++ ws'), part. split; [done|]. rewrite Htc, <- Htc2, concat_app, <- !(assoc_L (++)).
    split; [by rewrite Hs', Hs2, Hs, Hws, <- (assoc_L (++))|]. split; [by apply prefix_app|].
    split; [rewrite elem_of_app; tauto|]. split; [by rewrite Ht', Ht2, Ht; unfold counted; rewrite foldl_app|].
    intros Hw. destruct Hh' as (E1 & E2 & E3); [unfold healthy; rewrite Hv2; by apply Hh|].
    by rewrite E1.
  - destruct Hgo as [Hend Hsh2]. exists p2, ws, []. rewrite Htc, Hend, !app_nil_r. split_and!; try done.
    + by rewrite Hs2, Hs, Hws.
    + by rewrite Ht2, Ht.
Qed.

End CopyStreams.

(** ** A forwarded TCP connection *)

(** One end of a connection: what can be read from it and what is written to
    it. *)
Definition Stream : Type := source * Writer.

Definition new_pump (uninit : bytes) (reader : source) (writer : Writer) : Pump :=
  {| reader := reader; writer := writer; loop_buffer := LoopBuffer.new uninit;
     traffic := ∅; logs := Logs.no_logs; stderr := [] |}.

(** [handle_port_forward]: two copies with a buffer each.  They share nothing
    but the standard error stream. *)
Definition handle_port_forward (debug_err : NetworkError -> bytes) (read_timeout write_timeout : Z)
    (uninit1 uninit2 : bytes) (server remote : Stream) :
    option (outcome Empty_set Pump) * option (outcome Empty_set Pump) :=
  let copy := copy_streams (0, 0) debug_err None None read_timeout write_timeout in
  (copy (new_pump uninit1 server.1 remote.2), copy (new_pump uninit2 remote.1 server.2)).

(** How the connection to the remote host is made: [tcp.rs] under a time-out,
    [tcp_over_gateway.rs] through a gateway that may be missing,
    [tcp_over_ssh.rs] through a session to a host that needs a port. *)
Inductive RemoteKind :=
  | DirectTcp
  | OverGateway (gateway_found : bool)
  | OverSsh (remote_port : option Z).

Definition dialled (kind : RemoteKind) (connect : outcome NetworkError Stream) : option Stream :=
  match kind with
  | OverGateway false | OverSsh None => None
  | _ => match connect with Ok s => Some s | _ => None end
  end.

(** The three [handle_connection]: without a remote connection the accepted
    one is shut down. *)
Definition handle_tcp_connection (debug_err : NetworkError -> bytes) (read_timeout write_timeout : Z)
    (uninit1 uninit2 : bytes) (kind : RemoteKind) (connect : outcome NetworkError Stream) (accepted : Stream) :
    Writer + option (outcome Empty_set Pump) * option (outcome Empty_set Pump) :=
  match dialled kind connect with
  | None => inl (shutdown_socket accepted.2)
  | Some remote => inr (handle_port_forward debug_err read_timeout write_timeout uninit1 uninit2 accepted remote)
  end.

(** C16: A copy of a stream always ends, without a panic, and its peer has
    received a prefix of what was buffered and of what arrived, in order: the
    payloads written whole, each counted once for the domain of the tunnel, and
    at most a part of the one whose write failed.  When no write fails the peer
    has received everything and its socket is shut down. *)
Theorem copied_stream_arrives (now : Z * Z) (debug_err : NetworkError -> bytes) (recorder : option WsTrafficRecorder)
    (log_scope : option Logs.ProxyLogScope) (read_timeout write_timeout : Z) (p : Pump) (Hp : pump_ok p) :
  exists p' ws part,
    copy_streams now debug_err recorder log_scope read_timeout write_timeout p = Some (Ok p') /\
    sent (writer p') = sent (writer p) ++ concat ws ++ part /\ concat ws ++ part `prefix_of` to_copy p /\
    traffic p' = counted recorder ws (traffic p) /\
    (healthy (writer p) -> concat ws = to_copy p /\ part = [] /\ shut (writer p') = true).
Proof.
  destruct (copy_loop_spec now debug_err recorder log_scope read_timeout write_timeout
              (S (size (reader p))) p Hp (le_n _)) as (p' & ws & part & ? & ? & ? & _ & ? & ?).
  by exists p', ws, part.
Qed.

Definition demo_pump : Pump :=
  {| reader := [Data (bs "abc"); Data (bs "de"); Eof]; writer := {| sent := []; shut := false; verdicts := [] |};
     loop_buffer := LoopBuffer.advance 2 (LoopBuffer.store (bs "xy") (LoopBuffer.new (replicate 8 Byte.x00)));
     traffic := ∅; logs := Logs.no_logs; stderr := [] |}.

Lemma copied_stream_arrives_witness :
  pump_ok demo_pump /\ to_copy demo_pump = bs "xyabcde" /\
  exists p', copy_streams (0, 0) (fun _ => []) (Some {| domain := bs "d"; direction := ClientToServer |}) None 1 1 demo_pump
               = Some (Ok p') /\ sent (writer p') = bs "xyabcde" /\ shut (writer p') = true.
Proof.
  assert (pump_ok demo_pump) as Hp by (vm_compute; lia).
  split; [exact Hp|]. split; [reflexivity|].
  destruct (copied_stream_arrives (0, 0) (fun _ => []) (Some {| domain := bs "d"; direction := ClientToServer |}) None 1 1
              demo_pump Hp) as (p' & ws & part & Hr & Hs & _ & _ & Hh).
  destruct (Hh (Forall_nil_2 _)) as (Hw & -> & Hshut). exists p'. split; [exact Hr|]. split; [|exact Hshut].
  rewrite Hs, Hw. reflexivity.
Defined.

(** A write that times out leaves the socket open, although the code means to
    shut it down: the future of the shut-down is never polled. *)
Lemma timeout_leaves_socket_open buf timeout n e w :
  shut w = false ->
  shut (write_all_with_timeout buf timeout
          {| sent := sent w; shut := shut w; verdicts := [Stalled n] |}).1 = false /\
  shut (write_all_with_timeout buf timeout
          {| sent := sent w; shut := shut w; verdicts := [Broken n e] |}).1 = true.
Proof. done. Qed.

(** ** The pumps of an MCP connection *)

(** [link_tcp_streams], a state per await. *)
Inductive Phase := Reading | Writing (chunk : bytes) | Ended.

Record Link := { l_reader : source; l_writer : Writer; phase : Phase; forwarded : Z }.

Section Mcp.
Context (buffer_size : nat) (read_timeout write_timeout : Z).

Definition link_step (l : Link) : Link :=
  match phase l with
  | Reading =>
      match read_with_timeout buffer_size read_timeout (l_reader l) with
      | (s, Ok chunk) =>
          {| l_reader := s; l_writer := l_writer l;
             phase := if decide (length chunk = 0%nat) then Ended else Writing chunk; forwarded := forwarded l |}
      | (s, _) =>
          {| l_reader := s; l_writer := shutdown_socket (l_writer l); phase := Ended; forwarded := forwarded l |}
      end
  | Writing chunk =>
      match write_all_with_timeout chunk write_timeout (l_writer l) with
      | (w, Ok _) =>
          {| l_reader := l_reader l; l_writer := w; phase := Reading;
             forwarded := forwarded l + Z.of_nat (length chunk) |}
      | (w, _) =>
          {| l_reader := l_reader l; l_writer := shutdown_socket w; phase := Ended; forwarded := forwarded l |}
      end
  | Ended => l
  end.

(** An aborted task stops at its await; a write in flight may have sent [n]
    bytes. *)
Definition abort (n : nat) (l : Link) : Link :=
  {| l_reader := l_reader l;
     l_writer := match phase l with Writing chunk => deliver (take n chunk) (l_writer l) | _ => l_writer l end;
     phase := Ended; forwarded := forwarded l |}.

(** [run_mcp_connection] once it is connected: the two pumps, and the
    [select!] that aborts the other one when the first has finished. *)
Record Session := { to_server : Link; from_server : Link }.

Inductive Event := StepTo | StepFrom | Select (n : nat).

Definition is_ended (l : Link) : bool := match phase l with Ended => true | _ => false end.

Definition exec (e : Event) (s : Session) : Session :=
  match e with
  | StepTo => {| to_server := link_step (to_server s); from_server := from_server s |}
  | StepFrom => {| to_server := to_server s; from_server := link_step (from_server s) |}
  | Select n =>
      if is_ended (to_server s)
      then {| to_server := to_server s;
              from_server := if is_ended (from_server s) then from_server s else abort n (from_server s) |}
      else if is_ended (from_server s)
      then {| to_server := abort n (to_server s); from_server := from_server s |}
      else s
  end.

Definition run (evs : list Event) (s : Session) : Session := foldl (fun s e => exec e s) s evs.

Definition in_flight (l : Link) : bytes := match phase l with Writing chunk => chunk | _ => [] end.

(** [l] is [l0] after some bytes were passed on. *)
Record passed (l0 l : Link) : Prop := {
  passed_sent : exists x, sent (l_writer l) = sent (l_writer l0) ++ x /\
    match phase l with
    | Ended => x `prefix_of` pending (l_reader l0)
    | _ => x ++ in_flight l ++ pending (l_reader l) = pending (l_reader l0) /\
           forwarded l = forwarded l0 + Z.of_nat (length x)
    end;
  passed_size : (size (l_reader l) <= size (l_reader l0))%nat
}.

Lemma passed_step l0 l : phase l0 = Reading -> passed l0 l -> passed l0 (link_step l).
Proof.
  intros H0 [(x & Hx & Hph) Hsz]. unfold link_step. destruct (phase l) as [|chunk|] eqn:Ep.
  - destruct (read_with_timeout _ _ _) as [s r] eqn:Er. destruct Hph as [Hp Hf]. unfold in_flight in Hp. rewrite Ep in Hp.
    assert (Hend : x `prefix_of` pending (l_reader l0)) by (rewrite <- Hp; by eexists).
    destruct r as [chunk|e|].
    + destruct (read_with_timeout_Ok _ _ _ _ _ Er) as ([Hc _] & Hpe & Hs). rewrite decide_False by lia.
      split; cbn [l_reader l_writer phase forwarded]; [|lia].
      exists x. unfold in_flight. cbn [phase]. rewrite <- Hp, Hpe. by split_and!.
    + split; cbn [l_reader l_writer phase forwarded]; [by exists x|].
      clear -Er Hsz. unfold read_with_timeout in Er. destruct (read_from_socket _ _) as [s' r] eqn:E. injection Er as <- _.
      destruct (l_reader l) as [|[[|b seg]| |e'] t]; cbn [read_from_socket] in E; try (injection E as <- _; done).
      injection E as <- _. cbn [size] in *. case_decide; cbn [size]; rewrite ?length_drop; cbn [length] in *; lia.
    + by apply read_with_timeout_no_panic in Er.
  - destruct Hph as [Hp Hf]. unfold in_flight in Hp. rewrite Ep in Hp.
    destruct (write_spec chunk write_timeout (l_writer l)) as (w & r & -> & _ & Hr). destruct r as [[]|e|]; [..|done].
    + destruct Hr as [Hs _]. split; cbn [l_reader l_writer phase forwarded]; [|done].
      exists (x ++ chunk). unfold in_flight. cbn [phase]. rewrite Hs, Hx, <- Hp, length_app. cbn [app].
      rewrite <- !(assoc_L (++)). split_and!; [done|done|lia].
    + destruct Hr as (part & Hpre & Hs). split; cbn [l_reader l_writer phase forwarded]; [|done].
      exists (x ++ part). cbn [shutdown_socket sent]. rewrite Hs, Hx, (assoc_L (++)). split; [done|].
      rewrite <- Hp. apply prefix_app. by apply prefix_app_r.
  - split; [|done]. exists x. by rewrite Ep.
Qed.

Lemma passed_abort l0 l n : passed l0 l -> passed l0 (abort n l).
Proof.
  intros [(x & Hx & Hph) Hsz]. split; [|done]. unfold abort. cbn [l_writer phase].
  destruct (phase l) as [|chunk|] eqn:Ep.
  - exists x. split; [done|]. destruct Hph as [<- _]. by eexists.
  - exists (x ++ take n chunk). cbn [deliver sent]. rewrite Hx, (assoc_L (++)). split; [done|].
    destruct Hph as [<- _]. unfold in_flight. rewrite Ep. apply prefix_app, prefix_app_r, prefix_take.
  - by exists x.
Qed.

Lemma passed_refl l : phase l = Reading -> passed l l.
Proof.
  intros Hp. split; [|done]. exists []. rewrite Hp. unfold in_flight. rewrite Hp, app_nil_r. split; [done|].
  split; [done|cbn; lia].
Qed.

(** Whatever the order in which the two pumps of an MCP connection run and
    whenever the first of them to finish has the other aborted, each side has
    received a prefix of what the other side sent, in order and without gaps,
    and as long as a pump runs its count of forwarded bytes is exact; once one
    pump has finished, the next turn of the supervisor leaves neither running,
    and no later step changes the session. *)
Theorem mcp_pumps_are_transparent (evs : list Event) (s : Session) (n : nat)
    (Hto : phase (to_server s) = Reading) (Hfrom : phase (from_server s) = Reading) :
  let s' := run evs s in
  passed (to_server s) (to_server s') /\ passed (from_server s) (from_server s') /\
  (is_ended (to_server s') || is_ended (from_server s') = true ->
   forall later, let e := exec (Select n) s' in
     is_ended (to_server e) && is_ended (from_server e) = true /\ run later e = e).
Proof.
  cbv zeta. assert (passed (to_server s) (to_server (run evs s)) /\ passed (from_server s) (from_server (run evs s))) as [Hp1 Hp2].
  { induction evs as [|e evs IH] using rev_ind; [split; by apply passed_refl|].
    unfold run in *. rewrite foldl_app. cbn [foldl]. destruct IH as [I1 I2].
    destruct e; cbn [exec to_server from_server]; [split; [by apply passed_step|done]|split; [done|by apply passed_step]|].
    destruct (is_ended (to_server _)) eqn:E1; [destruct (is_ended (from_server _)) eqn:E2|
      destruct (is_ended (from_server _)) eqn:E2]; cbn [to_server from_server]; split; try done; by apply passed_abort. }
  split; [done|]. split; [done|]. intros Hend later.
  assert (is_ended (to_server (exec (Select n) (run evs s))) && is_ended (from_server (exec (Select n) (run evs s))) = true) as Hb.
  { cbn [exec]. destruct (is_ended (to_server (run evs s))) eqn:E1, (is_ended (from_server (run evs s))) eqn:E2;
      cbn [to_server from_server]; rewrite ?E1, ?E2; try done. }
  split; [done|]. set (e := exec _ _) in *. clearbody e. induction later as [|ev later IH]; [done|].
  unfold run in *. cbn [foldl]. assert (exec ev e = e) as ->; [|done].
  apply andb_true_iff in Hb as [B1 B2]. destruct ev; cbn [exec]; rewrite ?B1, ?B2; destruct e as [a b]; cbn in *; [..|done];
    unfold link_step, is_ended in *; [destruct (phase a)|destruct (phase b)]; done.
Qed.

(** Without failing writes, a pump that finishes by itself has passed on
    everything that arrived. *)
Lemma link_complete l :
  phase l = Reading -> (0 < buffer_size)%nat -> healthy (l_writer l) ->
  exists k, let l' := Nat.iter k link_step l in
    phase l' = Ended /\ sent (l_writer l') = sent (l_writer l) ++ pending (l_reader l) /\ shut (l_writer l') = true.
Proof.
  intros Hp Hb Hh. remember (size (l_reader l)) as m eqn:Hm. revert l Hp Hh Hm.
  induction m as [m IH] using lt_wf_ind. intros l Hp Hh Hm.
  destruct (read_with_timeout buffer_size read_timeout (l_reader l)) as [s r] eqn:Er. destruct r as [chunk|e|].
  - destruct (read_with_timeout_Ok _ _ _ _ _ Er) as ([Hc _] & Hpe & Hs).
    destruct (write_spec chunk write_timeout (l_writer l)) as (w & r & Hw & Hhw & Hr).
    destruct (Hhw Hh) as [-> Hh']. destruct Hr as [Hsent _].
    assert (Nat.iter 2 link_step l =
      {| l_reader := s; l_writer := w; phase := Reading; forwarded := forwarded l + Z.of_nat (length chunk) |}) as H2.
    { change (Nat.iter 2 link_step l) with (link_step (link_step l)). unfold link_step at 2.
      rewrite Hp, Er, decide_False by lia. unfold link_step. cbn [phase l_writer]. by rewrite Hw. }
    destruct (IH (size s) ltac:(lia) (Nat.iter 2 link_step l)) as (k & K1 & K2 & K3); rewrite ?H2; try done.
    exists (k + 2)%nat. rewrite Nat.iter_add. cbn zeta. split; [done|]. split; [|done].
    rewrite K2, H2. cbn [l_writer l_reader]. by rewrite Hsent, Hpe, (assoc_L (++)).
  - exists 1%nat. change (Nat.iter 1 link_step l) with (link_step l). unfold link_step. rewrite Hp, Er. cbn [phase l_writer shutdown_socket sent shut].
    destruct (read_with_timeout_Err _ _ _ _ _ Hb Er) as [-> _]. by rewrite app_nil_r.
  - by apply read_with_timeout_no_panic in Er.
Qed.

End Mcp.

Definition demo_link (s : source) : Link :=
  {| l_reader := s; l_writer := {| sent := []; shut := false; verdicts := [] |}; phase := Reading; forwarded := 0 |}.

Definition demo_session : Session :=
  {| to_server := demo_link [Data (bs "ping"); Eof]; from_server := demo_link [Data (bs "pong"); Data (bs "more")] |}.

Lemma mcp_pumps_are_transparent_witness :
  let s' := run 16 1 1 [StepTo; StepFrom; StepTo; StepTo] demo_session in
  phase (to_server demo_session) = Reading /\ phase (from_server demo_session) = Reading /\
  sent (l_writer (to_server s')) = bs "ping" /\ is_ended (to_server s') = true /\
  is_ended (from_server (exec 16 1 1 (Select 2) s')) = true /\
  sent (l_writer (from_server (exec 16 1 1 (Select 2) s'))) = bs "po".
Proof.
  cbv zeta. split; [reflexivity|]. split; [reflexivity|]. split; [vm_compute; reflexivity|].
  destruct (mcp_pumps_are_transparent 16 1 1 [StepTo; StepFrom; StepTo; StepTo] demo_session 2 eq_refl eq_refl)
    as (_ & _ & Hend).
  destruct (Hend eq_refl []) as [Hb _]. apply andb_true_iff in Hb as [_ Hb].
  split; [vm_compute; reflexivity|]. split; [exact Hb|vm_compute; reflexivity].
Defined.

End Copy.
