(* ===== verification/WsTunnel.v ===== *)
(** * The tunnel behind an upgrade

    [h1_proxy_server/pipeline/ws_tunnel.rs]: the request head goes to a fresh
    upstream connection, its answer to the client, and then the four halves are
    wired into two copies ([StreamCopy]) that run until either side ends. *)

From Stdlib Require Import ZArith Lia Strings.String Strings.Byte.
From stdpp Require Import base tactics list strings gmap.
From S2P Require Import Prelude RustStd LoopBuffer BodyRelay H1Headers H1Rewrite H1Reader ProxyPassConfig H1Upstream ProxyLogs Metrics StreamCopy H1Worker.

Local Open Scope Z_scope.

Module Tunnel.
Import H1 ProxyErrors Reader Upstream Copy.

(** A write half of the client as the sink of a body relay, and a write half of
    an upstream as the writer of a copy. *)
Definition verdict_error (timeout : Z) (v : WriteVerdict) : option NetworkError :=
  match v with
  | Written => None
  | Stalled _ => Some (Timeout timeout)
  | Broken _ e | FlushBroken e => Some (IoError e)
  end.

Definition sink_of (timeout : Z) (w : Writer) : BodyRelay.Sink :=
  {| BodyRelay.writes := []; BodyRelay.verdicts := map (verdict_error timeout) (verdicts w) |}.

Definition after_body (s : BodyRelay.Sink) (w : Writer) : Writer :=
  {| sent := sent w ++ concat (BodyRelay.writes s); shut := shut w;
     verdicts := drop (length (verdicts w) - length (BodyRelay.verdicts s)) (verdicts w) |}.

Definition verdict_of (v : option NetworkError) : WriteVerdict :=
  match v with
  | None => Written
  | Some (Timeout _) => Stalled 0
  | Some (IoError e) => Broken 0 e
  | Some _ => Broken 0 []
  end.

Definition writer_of (s : BodyRelay.Sink) : Writer :=
  {| sent := concat (BodyRelay.writes s); shut := false; verdicts := map verdict_of (BodyRelay.verdicts s) |}.

(** How the task ends: with the client closed, as two copies about to run, or
    in a panic. *)
Inductive TunnelEnd :=
  | Closed (client : Writer)
  | Linked (server_to_client client_to_server : Pump)
  | Crashed.

Section Run.
Context `{SliceOfU8Ext} `{H1Libs} `{RewriteLibs} `{RemoteEndpointLib}.
Context (iter_add : gmap bytes bytes -> list (bytes * bytes)).
Context (uninit : bytes) (oc : bool).

(** [UpgradeContext]: what the request reader hands over with an upgrade
    ([H1Dispatch.ReaderStep], with the parts of a request the worker uses),
    the host of the endpoint as a string and the location. *)
Record UpgradeContext := {
  up_request : Worker.UpstreamRequest;
  up_write_timeout : Z;
  up_domain : bytes;
  up_location_id : Z
}.

Definition up_proxy_pass_to (ctx : UpgradeContext) := Worker.req_proxy_pass_to (up_request ctx).
Definition up_end_point_info (ctx : UpgradeContext) := Worker.req_end_point_info (up_request ctx).
Definition up_connection_info (ctx : UpgradeContext) := Worker.req_connection_info (up_request ctx).
Definition up_head (ctx : UpgradeContext) := Worker.req_head (up_request ctx).

(** [run_ws_tunnel] up to the two copies; [fuel] bounds the chunks of a refused
    upgrade's body, [id] is the number of the connection. *)
Definition run_ws_tunnel (fuel : nat) (id : Z) (ctx : UpgradeContext) (dials : Dials)
    (client_read : ReadPart.source) (client_leftover : LoopBuffer.t) (client_write : Writer)
    (traffic : Traffic.TrafficAccumulator) (logs : Logs.ProxyLogs) : option TunnelEnd :=
  let timeouts := Config.timeouts (up_end_point_info ctx) in
  match snd (connect_owned id (up_proxy_pass_to ctx) dials) with
  | Err _ => Some (Closed (shutdown_socket client_write))
  | Panic => Some Crashed
  | Ok c =>
      let '(c, ok) := send_head_bytes (up_head ctx) c in
      if negb ok then Some (Closed (shutdown_socket client_write))
      else
      match read_headers (reader_new uninit (response_read c) timeouts) with
      | (_, None) => None
      | (_, Some Panic) => Some Crashed
      | (_, Some (Err _)) => Some (Closed (shutdown_socket client_write))
      | (r, Some (Ok h)) =>
          match Rewrite.compile_headers iter_add h
                  (Rewrite.ResponseHead (Config.heads (up_end_point_info ctx)))
                  (up_connection_info ctx) None None None (core r) with
          | Err _ => Some (Closed (shutdown_socket client_write))
          | Panic => Some Crashed
          | Ok (core', response_is_upgrade) =>
              let r := set_core core' r in
              match write_all_with_timeout (Rewrite.builder core') (up_write_timeout ctx) client_write with
              | (w, Ok _) =>
                  if negb response_is_upgrade then
                    match transfer_body fuel oc (content_length h) r (sink_of (snd timeouts) w) with
                    | (_, _, None) => None
                    | (_, _, Some Panic) => Some Crashed
                    | (_, sink, Some _) => Some (Closed (shutdown_socket (after_body sink w)))
                    end
                  else
                    Some (Linked
                      {| reader := read_part r; writer := w; loop_buffer := buffer r;
                         traffic := traffic; logs := logs; stderr := [] |}
                      {| reader := client_read; writer := writer_of (write_half c); loop_buffer := client_leftover;
                         traffic := traffic; logs := logs; stderr := [] |})
              | (w, Err _) => Some (Closed (shutdown_socket w))
              | (_, Panic) => Some Crashed
              end
          end
      end
  end.

(** The two copies, with the recorders and the log scope of the tunnel. *)
Definition recorder_of (ctx : UpgradeContext) (d : WsDirection) : option WsTrafficRecorder :=
  Some {| domain := up_domain ctx; direction := d |}.

Definition log_scope_of (ctx : UpgradeContext) : option Logs.ProxyLogScope :=
  Some {| Logs.endpoint := up_domain ctx; Logs.location_id := up_location_id ctx;
          Logs.scope_ip := Rewrite.connection_ip (up_connection_info ctx) |}.

Definition pump_tunnel (now : Z * Z) (debug_err : NetworkError -> bytes) (ctx : UpgradeContext) (d : WsDirection)
    (p : Pump) : option (outcome Empty_set Pump) :=
  copy_streams now debug_err (recorder_of ctx d) (log_scope_of ctx)
    (fst (Config.timeouts (up_end_point_info ctx))) (snd (Config.timeouts (up_end_point_info ctx))) p.

(** ** An upgrade that is confirmed *)

Context (Huninit : (0 < length uninit)%nat).

Lemma writer_of_healthy s : Forall (fun v => v = None) (BodyRelay.verdicts s) -> healthy (writer_of s).
Proof. unfold healthy, writer_of. cbn. induction 1 as [|v vs -> _ IH]; constructor; done. Qed.

Lemma head_sent ctx c c' ok :
  disconnected c = false -> Forall (fun v => v = None) (BodyRelay.verdicts (write_half c)) ->
  BodyRelay.writes (write_half c) = [] ->
  send_head_bytes (up_head ctx) c = (c', ok) ->
  ok = true /\ response_read c' = response_read c /\ healthy (writer_of (write_half c')) /\
  sent (writer_of (write_half c')) = up_head ctx.
Proof.
  intros Hd Hv Hw. unfold send_head_bytes. rewrite Hd. unfold upstream_write, BodyRelay.write_http_payload.
  destruct (BodyRelay.verdicts (write_half c)) as [|[e|] vs] eqn:E; [..|by inversion Hv|]; intros [= <- <-];
    (split_and!; [done|done| |cbn; rewrite Hw; apply app_nil_r]); apply writer_of_healthy; cbn.
  - constructor.
  - by inversion Hv.
Qed.

(** The upstream's side of an upgrade: it takes the head and answers with [h],
    which is rewritten to [k] and names a web socket. *)
Record confirms (ctx : UpgradeContext) (c : OwnedUpstream) (r : H1Reader) (h : Http1Headers)
    (k : Rewrite.H1Reader) : Prop := {
  cf_live : disconnected c = false;
  cf_takes : Forall (fun v => v = None) (BodyRelay.verdicts (write_half c));
  cf_fresh : BodyRelay.writes (write_half c) = [];
  cf_head : read_headers (reader_new uninit (response_read c) (Config.timeouts (up_end_point_info ctx))) = (r, Some (Ok h));
  cf_upgrade : Rewrite.compile_headers iter_add h (Rewrite.ResponseHead (Config.heads (up_end_point_info ctx)))
                 (up_connection_info ctx) None None None (core r) = Ok (k, true)
}.

Lemma behind_upgrade ctx c r h k :
  confirms ctx c r h k ->
  ok_reader (set_core k r) /\ arriving (set_core k r) = drop (head_end h) (ReadPart.pending (response_read c)).
Proof.
  intros Hc. pose proof (cf_head _ _ _ _ _ Hc) as Hh.
  destruct (read_headers_spec (S (ReadPart.size (response_read c)))
    (reader_new uninit (response_read c) (Config.timeouts (up_end_point_info ctx)))) as (r' & res & Hr & Hon & Hres);
    [cbn; lia|by apply reader_new_ok|].
  unfold read_headers in Hh. cbn [read_part reader_new] in Hh. rewrite Hh in Hr. injection Hr as <- <-.
  destruct (behind_head r h k (ro_ok _ _ Hon) Hres (compile_headers_buffer _ _ _ _ _ _ _ _ _ _ (cf_upgrade _ _ _ _ _ Hc)))
    as (Hok & _ & _ & Harr).
  split; [done|]. rewrite Harr, (ro_arriving _ _ Hon). done.
Qed.

(** C19: an upgrade the upstream agrees to becomes a transparent tunnel as
    long as no write fails on either side.  Agreeing is a response whose
    Upgrade value begins with websocket, in any case; the status is not looked
    at, so a 426 refusal that names websocket opens the tunnel as well.  The
    client receives the rewritten response head and then, byte for byte,
    everything the upstream sent behind its head; the upstream receives the
    request head and then everything the client sent behind its request,
    including what the proxy had already read; both copies end, both sockets
    are shut down, and nothing is lost between the head and the copy. *)
Theorem tunnel_is_transparent (fuel : nat) (id : Z) (now : Z * Z) (debug_err : NetworkError -> bytes) (ctx : UpgradeContext)
    (dials : Dials) (client_read : ReadPart.source) (client_leftover : LoopBuffer.t) (client_write : Writer)
    (t : Traffic.TrafficAccumulator) (l : Logs.ProxyLogs) (c : OwnedUpstream) (r : H1Reader) (h : Http1Headers)
    (k : Rewrite.H1Reader)
    (Hconnect : snd (connect_owned id (up_proxy_pass_to ctx) dials) = Ok c)
    (Hconfirms : confirms ctx c r h k) (Hclient : healthy client_write)
    (Hleftover : LoopBuffer.inv client_leftover /\ (0 < length (LoopBuffer.data client_leftover))%nat) :
  exists s2c c2s s2c' c2s',
    run_ws_tunnel fuel id ctx dials client_read client_leftover client_write t l = Some (Linked s2c c2s) /\
    pump_tunnel now debug_err ctx ServerToClient s2c = Some (Ok s2c') /\
    pump_tunnel now debug_err ctx ClientToServer c2s = Some (Ok c2s') /\
    sent (writer s2c') = sent client_write ++ Rewrite.builder k ++ drop (head_end h) (ReadPart.pending (response_read c)) /\
    sent (writer c2s') = up_head ctx ++ LoopBuffer.queue client_leftover ++ ReadPart.pending client_read /\
    shut (writer s2c') = true /\ shut (writer c2s') = true.
Proof.
  destruct (behind_upgrade _ _ _ _ _ Hconfirms) as [Hok Harr]. destruct Hconfirms as [Hd Hv Hw Hh Hup].
  destruct (send_head_bytes (up_head ctx) c) as [c' ok] eqn:Hs.
  destruct (head_sent _ _ _ _ Hd Hv Hw Hs) as (-> & Hrr & Hch & Hsent).
  destruct (write_spec (Rewrite.builder k) (up_write_timeout ctx) client_write) as (w & res & Hwr & Hhw & Hres).
  destruct (Hhw Hclient) as [-> Hhealthy]. destruct Hres as [Hws _].
  unfold run_ws_tunnel. rewrite Hconnect, Hs. cbn [negb]. rewrite Hrr, Hh, Hup, Hwr. cbn [negb].
  set (s2c := {| reader := _ |}). set (c2s := {| reader := client_read |}).
  destruct (copy_loop_spec now debug_err (recorder_of ctx ServerToClient) (log_scope_of ctx)
    (fst (Config.timeouts (up_end_point_info ctx))) (snd (Config.timeouts (up_end_point_info ctx)))
    (S (ReadPart.size (reader s2c))) s2c Hok (le_n _)) as (s2c' & ws & part & R1 & S1 & _ & _ & _ & D1).
  destruct (copy_loop_spec now debug_err (recorder_of ctx ClientToServer) (log_scope_of ctx)
    (fst (Config.timeouts (up_end_point_info ctx))) (snd (Config.timeouts (up_end_point_info ctx)))
    (S (ReadPart.size (reader c2s))) c2s Hleftover (le_n _)) as (c2s' & ws2 & part2 & R2 & S2 & _ & _ & _ & D2).
  destruct (D1 Hhealthy) as (E1 & -> & F1). destruct (D2 Hch) as (E2 & -> & F2).
  exists s2c, c2s, s2c', c2s'. split_and!; try done.
  - rewrite S1, E1, app_nil_r. cbn [writer s2c]. rewrite Hws, <- (assoc_L (++)). do 2 f_equal.
    rewrite <- Harr. reflexivity.
  - rewrite S2, E2, app_nil_r. cbn [writer c2s]. rewrite Hsent. reflexivity.
Qed.

(** Without a confirmed upgrade the client's bytes stay with the proxy: only
    a response whose Upgrade header names a web socket links the two sides. *)
Lemma linked_only_on_upgrade fuel id ctx dials client_read leftover cw t l s2c c2s :
  run_ws_tunnel fuel id ctx dials client_read leftover cw t l = Some (Linked s2c c2s) ->
  exists c r h k, read_headers (reader_new uninit (response_read c) (Config.timeouts (up_end_point_info ctx))) = (r, Some (Ok h)) /\
    Rewrite.compile_headers iter_add h (Rewrite.ResponseHead (Config.heads (up_end_point_info ctx)))
      (up_connection_info ctx) None None None (core r) = Ok (k, true).
Proof.
  unfold run_ws_tunnel. destruct (snd (connect_owned _ _ _)) as [c|e|]; [|done..].
  destruct (send_head_bytes _ _) as [c' []]; cbn [negb]; [|done].
  destruct (read_headers _) as [r [[h|e|]|]] eqn:Hr; [|done..].
  destruct (Rewrite.compile_headers _ _ _ _ _ _ _ _) as [[k ws]|e|] eqn:Hc; [|done..].
  destruct (write_all_with_timeout _ _ _) as [w [[]|e|]]; [|done..].
  destruct ws; cbn [negb]; [intros _; by exists c', r, h, k|].
  by destruct (transfer_body _ _ _ _ _) as [[? ?] [[]|]].
Qed.

End Run.
(** ** A tunnel that is confirmed, and one that is not *)

#[local] Existing Instance reference_slice_ext.
#[local] Existing Instance H1.reference_h1_libs.
#[local] Existing Instance Rewrite.demo_libs.
#[local] Existing Instance Config.text_endpoints.

Definition demo_ctx : UpgradeContext :=
  {| up_request := Worker.demo_request; up_write_timeout := 1; up_domain := bs "site"; up_location_id := 1 |}.

(** An upstream that answers an upgrade with [status] and the lines [ls], in
    two segments, and sends [rest] behind it. *)
Definition demo_answer (status : bytes) (ls : list Line) (rest : bytes) : OwnedUpstream :=
  {| connection_id := 0; write_half := {| BodyRelay.writes := []; BodyRelay.verdicts := [] |};
     response_read := [ReadPart.Data (take 9 (head status ls)); ReadPart.Data (drop 9 (head status ls) ++ rest); ReadPart.Eof];
     disconnected := false |}.

Definition demo_dials_of (c : OwnedUpstream) : Dials := [Ok ([], response_read c)].

Definition demo_read (c : OwnedUpstream) :=
  read_headers (reader_new (replicate 200 Byte.x00) (response_read c) (Config.timeouts (up_end_point_info demo_ctx))).

Definition demo_parsed_head (c : OwnedUpstream) : Http1Headers :=
  match snd (demo_read c) with Some (Ok h) => h | _ => start_state [] end.

Definition demo_compiled_head (c : OwnedUpstream) : Rewrite.H1Reader :=
  match Rewrite.compile_headers map_to_list (demo_parsed_head c)
          (Rewrite.ResponseHead (Config.heads (up_end_point_info demo_ctx)))
          (up_connection_info demo_ctx) None None None (core (fst (demo_read c))) with
  | Ok (k, _) => k
  | _ => core (fst (demo_read c))
  end.

Definition demo_client : Writer := {| sent := []; shut := false; verdicts := [] |}.

Definition demo_tunnel (c : OwnedUpstream) (leftover : bytes) : option TunnelEnd :=
  run_ws_tunnel map_to_list (replicate 200 Byte.x00) false 5 0 demo_ctx (demo_dials_of c)
    [ReadPart.Data (bs "frame")]
    (LoopBuffer.advance (length leftover) (LoopBuffer.store leftover (LoopBuffer.new (replicate 20 Byte.x00))))
    demo_client ∅ Logs.no_logs.

Definition switching : OwnedUpstream :=
  demo_answer (bs "HTTP/1.1 101 Switching Protocols") [Rewrite.own_line (bs "Upgrade") (bs "websocket")] (bs "hello").

Lemma switching_confirms :
  confirms map_to_list (replicate 200 Byte.x00) demo_ctx switching (fst (demo_read switching))
    (demo_parsed_head switching) (demo_compiled_head switching).
Proof.
  split; [reflexivity|constructor|reflexivity|vm_compute; reflexivity|vm_compute; reflexivity].
Qed.

Lemma tunnel_is_transparent_witness :
  exists s2c c2s s2c' c2s',
    demo_tunnel switching (bs "early") = Some (Linked s2c c2s) /\
    pump_tunnel (0, 0) (fun _ => []) demo_ctx ServerToClient s2c = Some (Ok s2c') /\
    pump_tunnel (0, 0) (fun _ => []) demo_ctx ClientToServer c2s = Some (Ok c2s') /\
    sent (writer s2c') = Rewrite.builder (demo_compiled_head switching) ++ bs "hello" /\
    sent (writer c2s') = Rewrite.demo_head ++ bs "earlyframe".
Proof.
  destruct (tunnel_is_transparent map_to_list (replicate 200 Byte.x00) false ltac:(vm_compute; lia) 5 0 (0, 0) (fun _ => []) demo_ctx
    (demo_dials_of switching) [ReadPart.Data (bs "frame")]
    (LoopBuffer.advance 5 (LoopBuffer.store (bs "early") (LoopBuffer.new (replicate 20 Byte.x00))))
    demo_client ∅ Logs.no_logs switching _ _ _ eq_refl switching_confirms (Forall_nil_2 _) ltac:(vm_compute; lia))
    as (s2c & c2s & s2c' & c2s' & H1 & H2 & H3 & H4 & H5 & _).
  exists s2c, c2s, s2c', c2s'. split; [exact H1|]. split; [exact H2|]. split; [exact H3|].
  split; [rewrite H4; vm_compute; reflexivity|rewrite H5; vm_compute; reflexivity].
Defined.

(** A refusal that names the protocol it would require, as a status 426 must,
    is taken for a confirmation: the status is not looked at, and the bytes
    the client sends next reach the upstream as they are. *)
Definition upgrade_required : OwnedUpstream :=
  demo_answer (bs "HTTP/1.1 426 Upgrade Required")
    [Rewrite.own_line (bs "Upgrade") (bs "websocket"); Rewrite.own_line (bs "Content-Length") (bs "2")] (bs "no").

Lemma refusal_426_is_linked :
  match demo_tunnel upgrade_required (bs "GET /admin") with
  | Some (Linked _ c2s) =>
      match pump_tunnel (0, 0) (fun _ => []) demo_ctx ClientToServer c2s with
      | Some (Ok p) => bool_decide (sent (writer p) = Rewrite.demo_head ++ bs "GET /adminframe")
      | _ => false
      end
  | _ => false
  end = true.
Proof. vm_compute. reflexivity. Qed.

End Tunnel.
