(* ===== verification/PoolGauges.v ===== *)
(** * The gauges of the upstream pools: [publish_alive_gauge] of
      [upstream_h1_pool/h1_pool.rs] and [upstream_h2_pool/h2_pool.rs],
      [ensure_pool] and [drain_unused] of their registries, and their setters
      in [app/prometheus.rs]

    A pool reports how many connections it is meant to have and how many are
    alive, under a label that is its name.  The registry sets the first when
    it makes the pool and clears both when it drains it, under its lock; the
    supervisor and the revivals of the pool set the second without a lock, and
    may do so while the pool is drained.  A transition here is one access to a
    flag or a gauge, in any interleaving. *)

From Stdlib Require Import ZArith Lia.
From stdpp Require Import base tactics list gmap.
From S2P Require Import Prelude.

Local Open Scope Z_scope.

Module PoolGauges.

(** ** One label *)

(** A pool of this name.  A name ends with the number of the location, so the
    registry holds one of them at a time; drained ones live on in the tasks
    that still hold them. *)
Record Pool := { pool_size : Z; alive_count : Z; shutdown : bool }.

Definition shut (p : Pool) : Pool :=
  {| pool_size := pool_size p; alive_count := alive_count p; shutdown := true |}.
Definition with_alive (n : Z) (p : Pool) : Pool :=
  {| pool_size := pool_size p; alive_count := n; shutdown := shutdown p |}.

(** Where a call of [publish_alive_gauge] is.  [Written n] is the second read
    made before the write of [n] is seen by others, which the relaxed ordering
    of both allows. *)
Inductive Pc :=
  | Begin
  | Counting
  | Setting (n : Z)
  | Rechecking
  | ResettingSize
  | ResettingAlive
  | Written (n : Z).

Record Publisher := { of_pool : nat; at_ : Pc }.

(** Who holds [write_lock], and what it has left to do. *)
Inductive Holder :=
  | Nobody
  | SettingSize (i : nat)        (* [ensure_pool]: the pool is stored *)
  | DrainSize                    (* [drain_unused]: the pool is shut down *)
  | DrainAlive
  | DrainStore.

Record State := {
  pools : list Pool;
  registered : option nat;
  write_lock : Holder;
  publishers : gmap nat Publisher;
  size_gauge : Z;
  alive_gauge : Z
}.

Definition start : State :=
  {| pools := []; registered := None; write_lock := Nobody; publishers := ∅; size_gauge := 0; alive_gauge := 0 |}.

Definition set_pools (l : list Pool) (s : State) : State :=
  {| pools := l; registered := registered s; write_lock := write_lock s; publishers := publishers s;
     size_gauge := size_gauge s; alive_gauge := alive_gauge s |}.
Definition set_registered (r : option nat) (s : State) : State :=
  {| pools := pools s; registered := r; write_lock := write_lock s; publishers := publishers s;
     size_gauge := size_gauge s; alive_gauge := alive_gauge s |}.
Definition set_lock (h : Holder) (s : State) : State :=
  {| pools := pools s; registered := registered s; write_lock := h; publishers := publishers s;
     size_gauge := size_gauge s; alive_gauge := alive_gauge s |}.
Definition set_publishers (p : gmap nat Publisher) (s : State) : State :=
  {| pools := pools s; registered := registered s; write_lock := write_lock s; publishers := p;
     size_gauge := size_gauge s; alive_gauge := alive_gauge s |}.
(** [set_h1_pool_size] and [set_h1_pool_alive], as for h2. *)
Definition set_pool_size (n : Z) (s : State) : State :=
  {| pools := pools s; registered := registered s; write_lock := write_lock s; publishers := publishers s;
     size_gauge := n; alive_gauge := alive_gauge s |}.
Definition set_pool_alive (n : Z) (s : State) : State :=
  {| pools := pools s; registered := registered s; write_lock := write_lock s; publishers := publishers s;
     size_gauge := size_gauge s; alive_gauge := n |}.

Definition goto (t : nat) (p : Publisher) (pc : Pc) (s : State) : State :=
  set_publishers (<[t := {| of_pool := of_pool p; at_ := pc |}]> (publishers s)) s.
Definition finish (t : nat) (s : State) : State := set_publishers (delete t (publishers s)) s.

Definition is_shut (s : State) (i : nat) : bool := match pools s !! i with Some p => shutdown p | None => true end.
Definition alive (s : State) (i : nat) : Z := match pools s !! i with Some p => alive_count p | None => 0 end.

Inductive Action :=
  | EnsurePool (size : Z)        (* a request finds no pool of this name *)
  | DrainUnused                  (* the timer finds that no location uses it *)
  | LockStep                     (* the holder of the lock goes on *)
  | Publish (t i : nat)          (* a supervisor or a revival calls publish_alive_gauge *)
  | PublishStep (t : nat)
  | ReadEarly (t : nat)          (* the second read overtakes the write *)
  | Connections (i : nat) (n : Z).  (* connections come and go *)

(** [ensure_pool], with its early return. *)
Definition ensure_pool (size : Z) (s : State) : State :=
  match write_lock s, registered s with
  | Nobody, None =>
      let i := length (pools s) in
      set_lock (SettingSize i)
        (set_registered (Some i)
           (set_pools (pools s ++ [{| pool_size := size; alive_count := 0; shutdown := false |}]) s))
  | _, _ => s
  end.

(** [drain_unused], for a pool whose location is not in use. *)
Definition drain_unused (s : State) : State :=
  match write_lock s, registered s with
  | Nobody, Some i => set_lock DrainSize (set_pools (alter shut i (pools s)) s)
  | _, _ => s
  end.

(** The rest of either, [reset_h1_pool] being two writes. *)
Definition lock_step (s : State) : State :=
  match write_lock s with
  | Nobody => s
  | SettingSize i =>
      set_lock Nobody (set_pool_size (match pools s !! i with Some p => pool_size p | None => 0 end) s)
  | DrainSize => set_lock DrainAlive (set_pool_size 0 s)
  | DrainAlive => set_lock DrainStore (set_pool_alive 0 s)
  | DrainStore => set_lock Nobody (set_registered None s)
  end.

(** [publish_alive_gauge] *)
Definition publish_step (t : nat) (p : Publisher) (s : State) : State :=
  match at_ p with
  | Begin => if is_shut s (of_pool p) then finish t s else goto t p Counting s
  | Counting => goto t p (Setting (alive s (of_pool p))) s
  | Setting n => goto t p Rechecking (set_pool_alive n s)
  | Rechecking => if is_shut s (of_pool p) then goto t p ResettingSize s else finish t s
  | ResettingSize => goto t p ResettingAlive (set_pool_size 0 s)
  | ResettingAlive => finish t (set_pool_alive 0 s)
  | Written n => finish t (set_pool_alive n s)
  end.

(** The other order of the write and the second read; when the read finds the
    flag set, the write has to come before the two writes that follow. *)
Definition read_early (t : nat) (p : Publisher) (s : State) : State :=
  match at_ p with
  | Setting n => if is_shut s (of_pool p) then s else goto t p (Written n) s
  | _ => s
  end.

Definition exec (relaxed : bool) (a : Action) (s : State) : State :=
  match a with
  | EnsurePool size => ensure_pool size s
  | DrainUnused => drain_unused s
  | LockStep => lock_step s
  | Publish t i =>
      match publishers s !! t, pools s !! i with
      | None, Some _ => set_publishers (<[t := {| of_pool := i; at_ := Begin |}]> (publishers s)) s
      | _, _ => s
      end
  | PublishStep t => match publishers s !! t with Some p => publish_step t p s | None => s end
  | ReadEarly t =>
      match publishers s !! t with Some p => if relaxed then read_early t p s else s | None => s end
  | Connections i n => set_pools (alter (with_alive n) i (pools s)) s
  end.

Definition run (relaxed : bool) (l : list Action) (s : State) : State := fold_left (fun s a => exec relaxed a s) l s.

(** Nobody is in the middle of a call. *)
Definition quiet (s : State) : Prop := write_lock s = Nobody /\ publishers s = ∅.

(** ** The invariant *)

Definition draining (h : Holder) : bool := match h with DrainSize | DrainAlive | DrainStore => true | _ => false end.

(** Somebody will still clear the alive gauge. *)
Definition will_reset (s : State) : Prop :=
  write_lock s = DrainSize \/ write_lock s = DrainAlive \/
  exists t p, publishers s !! t = Some p /\
    (at_ p = Rechecking \/ at_ p = ResettingSize \/ at_ p = ResettingAlive).

Definition all_shut (s : State) : Prop := forall i, is_shut s i = true.

Record inv (s : State) : Prop := {
  inv_live : forall i, is_shut s i = false -> registered s = Some i /\ draining (write_lock s) = false;
  inv_free : registered s = None -> write_lock s = Nobody;
  inv_setting : forall i, write_lock s = SettingSize i -> is_shut s i = false;
  inv_alive : all_shut s -> alive_gauge s = 0 \/ will_reset s;
  inv_size : all_shut s -> size_gauge s = 0 \/ write_lock s = DrainSize;
  inv_publisher : forall t p, publishers s !! t = Some p -> (of_pool p < length (pools s))%nat /\
    (forall n, at_ p <> Written n) /\
    (at_ p = ResettingSize \/ at_ p = ResettingAlive -> is_shut s (of_pool p) = true);
  inv_first : forall p, pools s = [p] -> shutdown p = false -> write_lock s = Nobody -> size_gauge s = pool_size p
}.

Lemma gauges_start_inv : inv start.
Proof. split; cbn; try done; auto. Qed.

(** A publisher moves, and neither the pools nor the lock. *)
Lemma goto_will_reset t p pc s :
  publishers s !! t = Some p ->
  pc = Rechecking \/ pc = ResettingSize \/ pc = ResettingAlive -> will_reset (goto t p pc s).
Proof. intros _ Hpc. right. right. exists t, {| of_pool := of_pool p; at_ := pc |}. split; [apply lookup_insert_eq|done]. Qed.

Lemma others_will_reset t p s s' :
  publishers s !! t = Some p -> ~ (at_ p = Rechecking \/ at_ p = ResettingSize \/ at_ p = ResettingAlive) ->
  write_lock s' = write_lock s -> (forall u, u <> t -> publishers s' !! u = publishers s !! u) ->
  will_reset s -> will_reset s'.
Proof.
  intros Ht Hpc Hl Hu [Hr|[Hr|(u & q & Hq & Hat)]]; [left; congruence|right; left; congruence|right; right].
  exists u, q. rewrite Hu; [done|]. intros ->. by simplify_eq.
Qed.

Lemma is_shut_alter f l s i j :
  (forall p, shutdown p = true -> shutdown (f p) = true) -> is_shut s j = true ->
  pools s = l -> is_shut (set_pools (alter f i l) s) j = true.
Proof.
  unfold is_shut. cbn. intros Hf Hj <-. destruct (decide (i = j)) as [->|Hne].
  - rewrite list_lookup_alter_eq. destruct (pools s !! j); cbn; auto.
  - by rewrite list_lookup_alter_ne.
Qed.

Lemma is_shut_connections i n s j : is_shut (set_pools (alter (with_alive n) i (pools s)) s) j = is_shut s j.
Proof.
  unfold is_shut. cbn. destruct (decide (i = j)) as [->|Hne]; [|by rewrite list_lookup_alter_ne].
  rewrite list_lookup_alter_eq. by destruct (pools s !! j).
Qed.

Lemma ensure_pool_inv size s : inv s -> inv (ensure_pool size s).
Proof.
  intros Hinv. pose proof Hinv as [Hl Hf Hs Ha Hz Hp H1]. unfold ensure_pool.
  destruct (write_lock s) eqn:Hw; try exact Hinv. destruct (registered s) as [i|] eqn:Hr; [exact Hinv|].
  assert (forall i, is_shut s i = true) as Hall.
  { intros i. destruct (is_shut s i) eqn:E; [done|]. by apply Hl in E as [? _]. }
  assert (forall l h r i, is_shut (set_lock h (set_registered r (set_pools l s))) i = is_shut (set_pools l s) i) as Hsame
    by done.
  assert (forall i, is_shut (set_pools (pools s ++ [{| pool_size := size; alive_count := 0; shutdown := false |}]) s) i =
            negb (bool_decide (i = length (pools s)))) as Hnew.
  { intros i. unfold is_shut. cbn. destruct (decide (i < length (pools s))%nat).
    - rewrite lookup_app_l by done. rewrite bool_decide_false by lia. specialize (Hall i). unfold is_shut in Hall.
      by destruct (pools s !! i).
    - rewrite lookup_app_r by lia. destruct (decide (i = length (pools s))) as [->|].
      + by rewrite Nat.sub_diag, bool_decide_true.
      + rewrite bool_decide_false by done. by rewrite lookup_ge_None_2 by (cbn; lia). }
  assert (~ forall i, negb (bool_decide (i = length (pools s))) = true) as Hsome.
  { intros Hn. specialize (Hn (length (pools s))). by rewrite bool_decide_true in Hn. }
  split; try done.
  - intros i Hi. rewrite Hsame, Hnew in Hi. apply negb_false_iff, bool_decide_eq_true in Hi as ->. done.
  - intros i [= <-]. rewrite Hsame, Hnew. by rewrite bool_decide_true.
  - intros Hn. exfalso. apply Hsome. intros i. rewrite <-Hnew. apply Hn.
  - intros Hn. exfalso. apply Hsome. intros i. rewrite <-Hnew. apply Hn.
  - intros t p Ht. destruct (Hp _ _ Ht) as (? & ? & Hx). split_and!; [cbn; rewrite length_app; cbn; lia|done|].
    intros Hat. rewrite Hsame, Hnew, bool_decide_false by lia. done.
Qed.

Lemma drain_unused_inv s : inv s -> inv (drain_unused s).
Proof.
  intros Hinv. pose proof Hinv as [Hl Hf Hs Ha Hz Hp H1]. unfold drain_unused.
  destruct (write_lock s) eqn:Hw; try exact Hinv. destruct (registered s) as [i|] eqn:Hr; [|exact Hinv].
  assert (forall j, is_shut (set_lock DrainSize (set_pools (alter shut i (pools s)) s)) j = true) as Hall.
  { intros j. change (is_shut (set_pools (alter shut i (pools s)) s) j = true).
    destruct (decide (i = j)) as [<-|Hne].
    - unfold is_shut. cbn. rewrite list_lookup_alter_eq. by destruct (pools s !! i).
    - apply is_shut_alter; [done| |done]. destruct (is_shut s j) eqn:E; [done|]. apply Hl in E as [E _]. congruence. }
  split; cbn; try done.
  - intros j Hj. by rewrite Hall in Hj.
  - congruence.
  - intros _. right. by left.
  - intros _. by right.
  - intros t p Ht. destruct (Hp _ _ Ht) as (? & ? & Hx). split_and!; [by rewrite length_alter|done|]. intros _. apply Hall.
Qed.

Lemma lock_step_inv s : inv s -> inv (lock_step s).
Proof.
  intros Hinv. pose proof Hinv as [Hl Hf Hs Ha Hz Hp H1]. unfold lock_step.
  destruct (write_lock s) eqn:Hw; [exact Hinv|..];
    (split; cbn; [intros j Hj; change (is_shut s j = false) in Hj; destruct (Hl _ Hj) as [? Hd]; by try rewrite Hw in Hd| | | | | |]);
    try done; try (by intros t p Ht; apply (Hp _ _ Ht)).
  - intros Hall. exfalso. specialize (Hs _ eq_refl). specialize (Hall i). change (is_shut s i = true) in Hall. congruence.
  - intros Hall. exfalso. specialize (Hs _ eq_refl). specialize (Hall i). change (is_shut s i = true) in Hall. congruence.
  - intros p Hps Hsh _. specialize (Hs _ eq_refl). unfold is_shut in Hs. rewrite Hps in Hs |- *. by destruct i as [|[]].
  - intros Hr. specialize (Hf Hr). congruence.
  - intros _. right. right. by left.
  - intros _. by left.
  - intros Hr. specialize (Hf Hr). congruence.
  - intros _. by left.
  - intros Hall. destruct (Hz Hall) as [|]; [by left|congruence].
  - intros Hall. destruct (Ha Hall) as [|[|[|Hpub]]]; [by left|congruence..|]. right. right. by right.
  - intros Hall. destruct (Hz Hall) as [|]; [by left|congruence].
  - intros p Hps Hsh _. assert (is_shut s 0 = false) as H0 by (unfold is_shut; by rewrite Hps).
    destruct (Hl _ H0) as [_ Hd]. by rewrite ?Hw in Hd.
Qed.

Lemma lookup_goto t p pc s u : publishers (goto t p pc s) !! u =
  if decide (u = t) then Some {| of_pool := of_pool p; at_ := pc |} else publishers s !! u.
Proof. cbn. case_decide as E; [subst; apply lookup_insert_eq|by rewrite lookup_insert_ne]. Qed.

Lemma lookup_finish t s u : publishers (finish t s) !! u = if decide (u = t) then None else publishers s !! u.
Proof. cbn. case_decide as E; [subst; apply lookup_delete_eq|by rewrite lookup_delete_ne]. Qed.

(** What one step of a publisher has to show: it changes neither the pools nor
    the lock, it does not leave a gauge set that nobody will clear, and it is
    in order where it has come to. *)
Lemma publisher_inv t p s s' :
  inv s -> publishers s !! t = Some p ->
  pools s' = pools s -> registered s' = registered s -> write_lock s' = write_lock s ->
  (forall u, u <> t -> publishers s' !! u = publishers s !! u) ->
  (forall q, publishers s' !! t = Some q -> of_pool q = of_pool p /\ (forall n, at_ q <> Written n) /\
    (at_ q = ResettingSize \/ at_ q = ResettingAlive -> is_shut s (of_pool p) = true)) ->
  (all_shut s -> (alive_gauge s = 0 \/ will_reset s) -> alive_gauge s' = 0 \/ will_reset s') ->
  (size_gauge s' = size_gauge s \/ size_gauge s' = 0 /\ is_shut s (of_pool p) = true) -> inv s'.
Proof.
  intros [Hl Hf Hs Ha Hz Hp H1] Ht Epools Ereg Elock Eothers Hown Halive Hsize.
  assert (forall i, is_shut s' i = is_shut s i) as Esh by (intros i; unfold is_shut; by rewrite Epools).
  split; rewrite ?Epools, ?Ereg, ?Elock; try done.
  - intros i. rewrite Esh. apply Hl.
  - intros i. rewrite Esh. apply Hs.
  - intros Hall. assert (all_shut s) as Hall' by (intros i; by rewrite <-Esh). by apply Halive, Ha.
  - intros Hall. assert (all_shut s) as Hall' by (intros i; by rewrite <-Esh).
    destruct Hsize as [->|[-> _]]; [by apply Hz|by left].
  - intros u q Hq. destruct (decide (u = t)) as [->|Hne].
    + destruct (Hown _ Hq) as (-> & ? & ?). rewrite Esh. destruct (Hp _ _ Ht) as (? & _). by split_and!.
    + rewrite Eothers in Hq by done. rewrite Esh. by apply (Hp u).
  - intros q Hq Hsh Hw. destruct Hsize as [->|[_ Hsh']]; [by apply H1|]. exfalso.
    destruct (Hp _ _ Ht) as (Hin & _). unfold is_shut in Hsh'. rewrite Hq in Hsh', Hin.
    destruct (of_pool p) as [|[]]; cbn in *; lia || congruence.
Qed.

Ltac publisher_moved := cbn; intros ? ?; (rewrite lookup_insert_ne || rewrite lookup_delete_ne); done.

Lemma publish_step_inv t p s : inv s -> publishers s !! t = Some p -> inv (publish_step t p s).
Proof.
  intros Hinv Ht. pose proof Hinv as [_ _ _ _ _ Hp _]. destruct (Hp _ _ Ht) as (Hin & Hno & Hres).
  destruct p as [i pc]. unfold publish_step. cbn in *.
  destruct pc; [destruct (is_shut s i) eqn:Hsh| | |destruct (is_shut s i) eqn:Hsh| | |by destruct (Hno n)];
    (eapply (publisher_inv t _ s); [done|exact Ht|done|done|done|try publisher_moved| | |]); cbn.
  all: try (by left); try (by right; split; [done|apply Hres; auto]).
  all: try (intros q Hq; rewrite ?lookup_insert_eq, ?lookup_delete_eq in Hq; simplify_eq; cbn;
    split_and!; try done; intros [?|?]; simplify_eq; auto; fail).
  all: try (intros _ [?|Hr]; [by left|right]; eapply others_will_reset; [exact Ht|cbn; by intros [?|[?|?]]|done|publisher_moved|exact Hr]).
  all: try (intros _ _; right; right; right; eexists t, _; cbn; rewrite lookup_insert_eq; split; [done|cbn; auto]).
  all: try (intros _ _; by left).
  intros Hall _. exfalso. specialize (Hall i). congruence.
Qed.

Lemma exec_inv a s : inv s -> inv (exec false a s).
Proof.
  intros Hinv. destruct a as [size| | |t i|t|t|i n]; cbn [exec].
  - by apply ensure_pool_inv.
  - by apply drain_unused_inv.
  - by apply lock_step_inv.
  - destruct (publishers s !! t) as [p|] eqn:Ht; [exact Hinv|]. destruct (pools s !! i) as [q|] eqn:Hi; [|exact Hinv].
    pose proof Hinv as [Hl Hf Hs Ha Hz Hp H1]. split; cbn; try done.
    + intros Hall. destruct (Ha Hall) as [|[|[|(u & x & Hx & Hat)]]]; [by left|by right; left|by right; right; left|].
      right. right. right. exists u, x. cbn. rewrite lookup_insert_ne; [done|]. intros ->. congruence.
    + intros u x. destruct (decide (u = t)) as [->|]; [rewrite lookup_insert_eq|rewrite lookup_insert_ne by done; apply Hp].
      intros [= <-]. cbn. split_and!; [by eapply lookup_lt_Some|done|]. by intros [|].
  - destruct (publishers s !! t) as [p|] eqn:Ht; [by apply publish_step_inv|exact Hinv].
  - by destruct (publishers s !! t).
  - pose proof Hinv as [Hl Hf Hs Ha Hz Hp H1].
    assert (all_shut (set_pools (alter (with_alive n) i (pools s)) s) -> all_shut s) as Hall.
    { intros Hall j. specialize (Hall j). by rewrite is_shut_connections in Hall. }
    split; try done.
    + intros j. rewrite is_shut_connections. apply Hl.
    + intros j. rewrite is_shut_connections. apply Hs.
    + intros H'. apply Ha, Hall, H'.
    + intros H'. apply Hz, Hall, H'.
    + intros u x Hx. rewrite is_shut_connections. cbn. rewrite length_alter. by apply (Hp u).
    + cbn. intros q Hq Hsh Hw. destruct (pools s) as [|q' [|]] eqn:E; destruct i as [|i]; cbn in Hq; try done;
        injection Hq as <-; cbn in Hsh |- *.
      all: try by apply (H1 q').
      match goal with H : alter _ _ _ = [] |- _ => by destruct i end.
Qed.

Lemma gauges_run_inv l s : inv s -> inv (run false l s).
Proof. revert s. induction l as [|a l IH]; intros s Hs; [done|]. cbn. by apply IH, exec_inv. Qed.

(** ** The theorem *)

(** Whatever the order in which pools of one name are made, report and are
    drained, when no call is in progress: without a pool in the registry both
    gauges of the label are zero, although a report may have been written after
    the pool was drained; and while the first pool of the name is there the
    size gauge shows its size.  This is with reads and writes in the order of
    the program. *)
Theorem drained_pool_has_no_gauge (l : list Action) :
  let s := run false l start in quiet s ->
  (registered s = None -> size_gauge s = 0 /\ alive_gauge s = 0) /\
  (forall i p, registered s = Some i -> pools s = [p] -> shutdown p = false -> size_gauge s = pool_size p).
Proof.
  cbn. intros [Hlock Hpub]. destruct (gauges_run_inv l start gauges_start_inv) as [Hl Hf Hs Ha Hz Hp H1]. split.
  - intros Hr. assert (all_shut (run false l start)) as Hall.
    { intros i. destruct (is_shut _ i) eqn:E; [done|]. apply Hl in E as [E _]. congruence. }
    split; [destruct (Hz Hall); congruence|].
    destruct (Ha Hall) as [|[|[|(t & p & Ht & _)]]]; [done|congruence..|]. by rewrite Hpub, lookup_empty in Ht.
  - intros i p _ Hps Hsh. by apply H1.
Qed.

(** A report that runs into the drain: it writes after the reset and undoes it. *)
Definition late_report : list Action :=
  [EnsurePool 5; LockStep; Connections 0 3; Publish 0 0; PublishStep 0; PublishStep 0; DrainUnused; LockStep;
   LockStep; LockStep; PublishStep 0; PublishStep 0; PublishStep 0; PublishStep 0].

Lemma drained_pool_has_no_gauge_witness :
  alive_gauge (run false (take 11 late_report) start) = 3 /\
  size_gauge (run false late_report start) = 0 /\ alive_gauge (run false late_report start) = 0.
Proof.
  split; [vm_compute; reflexivity|].
  apply (drained_pool_has_no_gauge late_report); [split; vm_compute; reflexivity|vm_compute; reflexivity].
Defined.

(** The accesses are relaxed, so the second read of the flag may be done before
    the write of the gauge reaches the other threads: then the gauge of a
    drained pool stays as it was. *)
Definition overtaken_report : list Action :=
  [EnsurePool 5; LockStep; Connections 0 3; Publish 0 0; PublishStep 0; PublishStep 0; ReadEarly 0; DrainUnused;
   LockStep; LockStep; LockStep; PublishStep 0].

Lemma relaxed_order_leaves_a_gauge :
  let s := run true overtaken_report start in quiet s /\ registered s = None /\ alive_gauge s = 3.
Proof. unfold quiet. cbv zeta. split_and!; vm_compute; reflexivity. Qed.

(** A pool that is made again under the name of a drained one, for a connection
    that still uses the old configuration, loses its size to a late report of
    its predecessor, and nothing sets it again. *)
Definition made_again : list Action :=
  take 10 late_report ++ [EnsurePool 5; LockStep; PublishStep 0; PublishStep 0; PublishStep 0; PublishStep 0].

Lemma late_report_clears_the_next_pool :
  let s := run false made_again start in quiet s /\ registered s = Some 1%nat /\ size_gauge s = 0 /\
  pool_size <$> pools s !! 1%nat = Some 5.
Proof. unfold quiet. cbv zeta. split_and!; vm_compute; reflexivity. Qed.

End PoolGauges.
