(* ===== verification/AdminState.v ===== *)
(** * What the proxy says about itself

    The state the administration server and the MCP tools report:
    [mcp/get_proxy_state_snapshot_tool_call.rs], [mcp/lookup_pool_tool_call.rs],
    [http_server/controllers/configuration/contracts/*.rs],
    [upstream_status.rs], and the addresses of the endpoints' names,
    [app/resolved_domain_ips.rs] with [timers/resolve_domains_ip_timer.rs].
    The JSON around the answers and the HTTP server are libraries. *)

From Stdlib Require Import ZArith Lia Strings.String Strings.Byte.
From stdpp Require Import base tactics list gmap strings sorting.
From S2P Require Import Prelude RustStd IpBlocklist H1Headers H1Rewrite ProxyPassConfig LocalContent ContentSource H1Pool H2Pool SourceFiles Certificates Listeners GatewayNode Compile ProxyLogs Metrics.

Local Open Scope Z_scope.

(** ** [upstream_status.rs] *)

Module Upstream.

Inductive UpstreamStatus := Unknown | Ok | Error.

Definition from_u8 (v : Z) : UpstreamStatus := if v =? 1 then Ok else if v =? 2 then Error else Unknown.
Definition as_u8 (s : UpstreamStatus) : Z := match s with Unknown => 0 | Ok => 1 | Error => 2 end.

Lemma from_as_u8 s : from_u8 (as_u8 s) = s.
Proof. by destruct s. Qed.

End Upstream.

(** The date-time library: printing, and the whole seconds between two
    moments, none when the second is not behind the first. *)
Class ReportLibs := { to_rfc3339 : Z -> bytes; positive_secs_since : Z -> Z -> Z }.

(** ** Names and addresses *)

Module DomainIps.

(** [ResolvedDomainIps] *)
Abbreviation ResolvedDomainIps := (gmap bytes (list WhiteList.IpAddr)).

Section DomainIps.
Context (ip_to_string : WhiteList.IpAddr -> bytes) (is_ip_literal : bytes -> bool).

Definition push_ip (result : bytes) (ip : WhiteList.IpAddr) : bytes :=
  (if decide (result = []) then result else result ++ bs ", ") ++ ip_to_string ip.

Definition get_display (domain : bytes) (data : ResolvedDomainIps) : option bytes :=
  ips ← data !! domain;
  if decide (ips = []) then None else Some (fold_left push_ip ips []).

(** [resolvable_domain] *)
Definition resolvable_domain (server_name : option bytes) : option bytes :=
  name ← server_name;
  if decide (name = []) then None else if decide (name = bs "*") then None
  else if is_ip_literal name then None else Some name.

Definition push_resolvable_domain (domains : gset bytes) (server_name : option bytes) : gset bytes :=
  match resolvable_domain server_name with Some domain => {[domain]} ∪ domains | None => domains end.

Section Collect.
Context `{RemoteEndpointLib}.

Definition collect_from_listen (domains : gset bytes) (listen : Config.ListenConfiguration) : gset bytes :=
  match listen with
  | Config.ListenHttp config | Config.ListenMcp config =>
      fold_left push_resolvable_domain
        (map (fun e => Config.get_server_name (Config.host_endpoint e)) (Config.endpoints config)) domains
  | Config.ListenTcpForward config =>
      push_resolvable_domain domains (Config.get_server_name (Config.tcp_host_endpoint config))
  end.

(** [collect_endpoint_domains]; the order of the maps does not matter to a
    set. *)
Definition collect_endpoint_domains (cfg : Config.ListenMaps) : gset bytes :=
  fold_left collect_from_listen
    (map snd (map_to_list (Config.listen_tcp_endpoints cfg)) ++
     map snd (map_to_list (Config.listen_unix_socket_endpoints cfg))) ∅.

(** [resolve_domain]: what [lookup_host] answers, without repetitions. *)
Definition push_new_ip (ips : list WhiteList.IpAddr) (ip : WhiteList.IpAddr) : list WhiteList.IpAddr :=
  if bool_decide (ip ∈ ips) then ips else ips ++ [ip].

Definition resolve_domain (addresses : option (list WhiteList.IpAddr)) : option (list WhiteList.IpAddr) :=
  addresses ← addresses;
  let ips := fold_left push_new_ip addresses [] in
  if decide (ips = []) then None else Some ips.

Definition resolve_one (lookup_host : bytes -> option (list WhiteList.IpAddr)) (previous : ResolvedDomainIps)
    (result : ResolvedDomainIps) (domain : bytes) : ResolvedDomainIps :=
  match resolve_domain (lookup_host domain) with
  | Some ips => <[domain := ips]> result
  | None => match previous !! domain with Some prev => <[domain := prev]> result | None => result end
  end.

Definition resolve_endpoint_domains (lookup_host : bytes -> option (list WhiteList.IpAddr)) (cfg : Config.ListenMaps)
    (previous : ResolvedDomainIps) : ResolvedDomainIps :=
  fold_left (resolve_one lookup_host previous) (elements (collect_endpoint_domains cfg)) ∅.

(** ** After a tick *)

Lemma push_new_ip_spec ips ip : NoDup ips -> NoDup (push_new_ip ips ip) /\ forall x, x ∈ push_new_ip ips ip <-> x ∈ ips \/ x = ip.
Proof.
  intros Hn. unfold push_new_ip. case_bool_decide as Hin; [naive_solver|]. split.
  - apply NoDup_app. split_and!; [done| |apply NoDup_singleton]. intros x Hx ->%list_elem_of_singleton. done.
  - intros x. by rewrite elem_of_app, list_elem_of_singleton.
Qed.

(** A resolution keeps every address that was found, once. *)
Lemma resolve_domain_spec addresses :
  match resolve_domain (Some addresses) with
  | Some ips => NoDup ips /\ ips <> [] /\ forall x, x ∈ ips <-> x ∈ addresses
  | None => addresses = []
  end.
Proof.
  assert (forall l acc, NoDup acc -> NoDup (fold_left push_new_ip l acc) /\
    forall x, x ∈ fold_left push_new_ip l acc <-> x ∈ acc \/ x ∈ l) as Hf.
  { induction l as [|ip l IH]; intros acc Ha; cbn; [set_solver|].
    destruct (push_new_ip_spec acc ip Ha) as [Hn Hs]. destruct (IH _ Hn) as [Hn' Hs']. split; [done|].
    intros x. rewrite Hs', Hs, elem_of_cons. naive_solver. }
  unfold resolve_domain. cbn. destruct (Hf addresses [] NoDup_nil_2) as [Hn Hs]. case_decide as E.
  - destruct addresses as [|a l]; [done|]. exfalso. assert (a ∈ fold_left push_new_ip (a :: l) []) as Hin by (apply Hs; set_solver).
    rewrite E in Hin. by apply elem_of_nil in Hin.
  - split_and!; [done|done|]. intros x. rewrite Hs. set_solver.
Qed.

(** After a tick the names of the configured endpoints have the addresses that
    were found now, or else the ones they had; all other names are gone. *)
Lemma domain_ips_after_tick lookup_host cfg previous d :
  resolve_endpoint_domains lookup_host cfg previous !! d =
    if decide (d ∈ collect_endpoint_domains cfg) then
      match resolve_domain (lookup_host d) with Some ips => Some ips | None => previous !! d end
    else None.
Proof.
  unfold resolve_endpoint_domains.
  assert (forall l acc, NoDup l -> (forall x, x ∈ l -> acc !! x = None) ->
    fold_left (resolve_one lookup_host previous) l acc !! d =
      if decide (d ∈ l) then match resolve_domain (lookup_host d) with Some ips => Some ips | None => previous !! d end
      else acc !! d) as Hf.
  { induction l as [|x l IH]; intros acc Hn Hacc; cbn [fold_left].
    - rewrite decide_False; [done|apply not_elem_of_nil].
    - apply NoDup_cons in Hn as [Hx Hn].
      assert (forall y, y <> x -> resolve_one lookup_host previous acc x !! y = acc !! y) as Hne.
      { intros y Hy. unfold resolve_one. repeat case_match; by rewrite ?lookup_insert_ne. }
      rewrite IH; [|done|intros y Hy; rewrite Hne; [apply Hacc; set_solver|set_solver]].
      destruct (decide (d = x)) as [->|Hdx].
      + rewrite (decide_False (P := x ∈ l)), decide_True by set_solver. unfold resolve_one.
        destruct (resolve_domain _); [by rewrite lookup_insert_eq|].
        destruct (previous !! x); [by rewrite lookup_insert_eq|]. apply Hacc. set_solver.
      + rewrite (Hne d Hdx). destruct (decide (d ∈ l)); [rewrite decide_True by set_solver|rewrite decide_False by set_solver]; done. }
  rewrite Hf; [|apply NoDup_elements|intros; apply lookup_empty]. rewrite lookup_empty.
  destruct (decide (d ∈ collect_endpoint_domains cfg)) as [Hd|Hd];
    [rewrite decide_True by (by apply elem_of_elements)|rewrite decide_False by (by rewrite elem_of_elements)]; done.
Qed.

End Collect.
End DomainIps.
End DomainIps.

(** ** Pools and locations *)

Module StateSnapshot.
Import ContentSource.

Record EntrySnapshot := {
  index : Z;
  entry_dead : bool;
  entry_last_success : bytes;
  idle_secs : Z;
  entry_rented : option bool
}.

Record PoolSnapshot := {
  registry : bytes;
  ps_location_id : Z;
  ps_pool_name : bytes;
  ps_id_string : bytes;
  ps_alive_count : Z;
  ps_total_count : Z;
  ps_last_status : bytes;
  ps_live_disposables : option Z;
  ps_shutdown : bool;
  ps_entries : list EntrySnapshot;
  has_matching_location : bool
}.

Record LocationSnapshot := {
  ls_listen : bytes;
  ls_endpoint_host : bytes;
  ls_path : bytes;
  ls_location_id : Z;
  ls_id_string : bytes;
  ls_proxy_pass_to_type : bytes;
  ls_proxy_pass_to : bytes;
  has_pool : bool
}.

Record GetProxyStateSnapshotResponse := {
  captured_at : bytes;
  snapshot_pools : list PoolSnapshot;
  snapshot_locations : list LocationSnapshot;
  orphan_pool_location_ids : list Z;
  naked_location_ids : list Z;
  live_disposables_global : Z;
  max_disposables_global : Z
}.

Section Snapshot.
Context `{RemoteEndpointLib} `{ReportLibs}.

(** The connections of the pools: the machines of the other files, with the
    time of the last success of each entry of an h1 pool and the outcome of the
    last attempt, which those leave out. *)
Record H1State := { h1 : H1Pool.Pool; h1_last_success : nat -> Z; h1_last_status : Upstream.UpstreamStatus }.
Record H2State := { h2 : H2Pool.Pool; h2_last_status : Upstream.UpstreamStatus }.

Record Connections := {
  h1_state : Family -> Z -> H1State;
  h2_state : Family -> Z -> H2State;
  DISPOSABLE_COUNTER : Z
}.

Definition h2_clients (p : H2Pool.Pool) : list H2Pool.H2Entry := omap (fun i => H2Pool.entries p !! i) (H2Pool.clients p).

(** [alive_count] and [total_count] *)
Definition h1_alive_count (p : H1Pool.Pool) : Z :=
  Z.of_nat (length (filter (fun e => negb (H1Pool.dead e)) (H1Pool.entries p))).
Definition h1_total_count (p : H1Pool.Pool) : Z := Z.of_nat (length (H1Pool.entries p)).
Definition h2_alive_count (p : H2Pool.Pool) : Z :=
  Z.of_nat (length (filter (fun e => negb (H2Pool.dead e)) (h2_clients p))).
Definition h2_total_count (p : H2Pool.Pool) : Z := Z.of_nat (length (h2_clients p)).

Definition upstream_status_str (s : Upstream.UpstreamStatus) : bytes :=
  match s with Upstream.Ok => bs "ok" | Upstream.Error => bs "error" | Upstream.Unknown => bs "unknown" end.

Definition entry_idle_secs (last now : Z) : Z := positive_secs_since now last.

Definition build_h1_pool_snapshot (desc : PoolDesc) (pool : H1State) (registry : bytes) (now : Z) : PoolSnapshot :=
  {| registry := registry; ps_location_id := pd_location_id desc; ps_pool_name := pd_name desc;
     ps_id_string := pd_id_string desc; ps_alive_count := h1_alive_count (h1 pool);
     ps_total_count := h1_total_count (h1 pool); ps_last_status := upstream_status_str (h1_last_status pool);
     ps_live_disposables := Some (H1Pool.live_disposables (h1 pool)); ps_shutdown := H1Pool.shutdown (h1 pool);
     ps_entries := imap (fun i e =>
       let last := h1_last_success pool i in
       {| index := Z.of_nat i; entry_dead := H1Pool.dead e; entry_last_success := to_rfc3339 last;
          idle_secs := entry_idle_secs last now; entry_rented := Some (H1Pool.rented e) |}) (H1Pool.entries (h1 pool));
     has_matching_location := false |}.

Definition build_h2_pool_snapshot (desc : PoolDesc) (pool : H2State) (registry : bytes) (now : Z) : PoolSnapshot :=
  {| registry := registry; ps_location_id := pd_location_id desc; ps_pool_name := pd_name desc;
     ps_id_string := pd_id_string desc; ps_alive_count := h2_alive_count (h2 pool);
     ps_total_count := h2_total_count (h2 pool); ps_last_status := upstream_status_str (h2_last_status pool);
     ps_live_disposables := None; ps_shutdown := H2Pool.shutdown (h2 pool);
     ps_entries := imap (fun i e =>
       let last := H2Pool.last_success e in
       {| index := Z.of_nat i; entry_dead := H2Pool.dead e; entry_last_success := to_rfc3339 last;
          idle_secs := entry_idle_secs last now; entry_rented := None |}) (h2_clients (h2 pool));
     has_matching_location := false |}.

(** [snapshot_h1_pools] and [snapshot_h2_pools], which [filter_h1] and
    [filter_h2] of [lookup_pool] restrict to some of the pools. *)
Definition snapshot_h1_pools {P} (keep : Z -> bytes -> bool) (c : Connections) (f : Family) (reg : gmap Z (Pool P))
    (registry : bytes) (now : Z) : list PoolSnapshot :=
  map (fun p => build_h1_pool_snapshot (desc p) (h1_state c f (pd_location_id (desc p))) registry now)
    (filter (fun p => keep (pd_location_id (desc p)) (pd_id_string (desc p)) = true) (list_pools reg)).

Definition snapshot_h2_pools {P} (keep : Z -> bytes -> bool) (c : Connections) (f : Family) (reg : gmap Z (Pool P))
    (registry : bytes) (now : Z) : list PoolSnapshot :=
  map (fun p => build_h2_pool_snapshot (desc p) (h2_state c f (pd_location_id (desc p))) registry now)
    (filter (fun p => keep (pd_location_id (desc p)) (pd_id_string (desc p)) = true) (list_pools reg)).

(** The six registries, one after the other. *)
Definition all_pools (keep : Z -> bytes -> bool) (c : Connections) (ps : Pools) (now : Z) : list PoolSnapshot :=
  snapshot_h1_pools keep c H1Tcp (h1_tcp_pools ps) (bs "h1_tcp") now ++
  snapshot_h1_pools keep c H1Tls (h1_tls_pools ps) (bs "h1_tls") now ++
  snapshot_h1_pools keep c H1Uds (h1_uds_pools ps) (bs "h1_uds") now ++
  snapshot_h2_pools keep c H2Tcp (h2_tcp_pools ps) (bs "h2_tcp") now ++
  snapshot_h2_pools keep c H2Tls (h2_tls_pools ps) (bs "h2_tls") now ++
  snapshot_h2_pools keep c H2Uds (h2_uds_pools ps) (bs "h2_uds") now.

Definition location_snapshot (listen_label endpoint_host : bytes) (l : Config.ProxyPassLocationConfig) : LocationSnapshot :=
  {| ls_listen := listen_label; ls_endpoint_host := endpoint_host; ls_path := Config.path l;
     ls_location_id := Config.location_id l; ls_id_string := Config.id_string l;
     ls_proxy_pass_to_type := Config.get_type_as_str (Config.proxy_pass_to l);
     ls_proxy_pass_to := Config.to_string (Config.proxy_pass_to l); has_pool := false |}.

Definition absorb_listen (listen : Config.ListenConfiguration) (listen_label : bytes) : list LocationSnapshot :=
  match listen with
  | Config.ListenHttp http | Config.ListenMcp http =>
      concat (map (fun e => map (location_snapshot listen_label (Config.endpoint_str e)) (Config.locations e))
                (Config.endpoints http))
  | Config.ListenTcpForward _ => []
  end.

(** The maps in the order they are walked through. *)
Definition collect_locations (cfg : Config.ListenMaps) : list LocationSnapshot :=
  concat (map (fun x => absorb_listen (snd x) (bs "tcp:" ++ Str.uint_to_string (fst x)))
            (map_to_list (Config.listen_tcp_endpoints cfg))) ++
  concat (map (fun x => absorb_listen (snd x) (bs "unix:" ++ fst x))
            (map_to_list (Config.listen_unix_socket_endpoints cfg))).

Definition set_matching (b : bool) (p : PoolSnapshot) : PoolSnapshot :=
  {| registry := registry p; ps_location_id := ps_location_id p; ps_pool_name := ps_pool_name p;
     ps_id_string := ps_id_string p; ps_alive_count := ps_alive_count p; ps_total_count := ps_total_count p;
     ps_last_status := ps_last_status p; ps_live_disposables := ps_live_disposables p; ps_shutdown := ps_shutdown p;
     ps_entries := ps_entries p; has_matching_location := b |}.

Definition set_has_pool (b : bool) (l : LocationSnapshot) : LocationSnapshot :=
  {| ls_listen := ls_listen l; ls_endpoint_host := ls_endpoint_host l; ls_path := ls_path l;
     ls_location_id := ls_location_id l; ls_id_string := ls_id_string l;
     ls_proxy_pass_to_type := ls_proxy_pass_to_type l; ls_proxy_pass_to := ls_proxy_pass_to l; has_pool := b |}.

Definition build_proxy_state_snapshot (cfg : Config.ListenMaps) (ps : Pools) (c : Connections) (now : Z) :
    GetProxyStateSnapshotResponse :=
  let pools := all_pools (fun _ _ => true) c ps now in
  let locations := collect_locations cfg in
  let location_id_set : gset Z := list_to_set (map ls_location_id locations) in
  let pool_id_set : gset Z := list_to_set (map ps_location_id pools) in
  let pools := map (fun p => set_matching (bool_decide (ps_location_id p ∈ location_id_set)) p) pools in
  let locations := map (fun l => set_has_pool (bool_decide (ls_location_id l ∈ pool_id_set)) l) locations in
  {| captured_at := to_rfc3339 now; snapshot_pools := pools; snapshot_locations := locations;
     orphan_pool_location_ids := map ps_location_id (filter (fun p => negb (has_matching_location p)) pools);
     naked_location_ids := map ls_location_id (filter (fun l => negb (has_pool l)) locations);
     live_disposables_global := DISPOSABLE_COUNTER c; max_disposables_global := H1Pool.MAX_DISPOSABLE |}.

(** ** [lookup_pool] *)

Record LookupPoolInputData := { in_location_id : option Z; in_id_string : option bytes }.

Definition id_match (model : LookupPoolInputData) (loc_id : Z) (id_str : bytes) : bool :=
  bool_decide (in_location_id model = Some loc_id) || bool_decide (in_id_string model = Some id_str).

Definition lookup_pool (model : LookupPoolInputData) (ps : Pools) (c : Connections) (now : Z) :
    outcome bytes (bytes * list PoolSnapshot) :=
  match in_location_id model, in_id_string model with
  | None, None => Err (bs "Either location_id or id_string must be provided")
  | _, _ => Ok (to_rfc3339 now, all_pools (id_match model) c ps now)
  end.

(** ** What the snapshot tells *)

Context `{FileLibs} (default_h2_livness_url : option bytes) (get_ssh_session : SshCredentials -> bool).

Definition family_name (f : Family) : bytes :=
  match f with
  | H1Tcp => bs "h1_tcp" | H1Tls => bs "h1_tls" | H1Uds => bs "h1_uds"
  | H2Tcp => bs "h2_tcp" | H2Tls => bs "h2_tls" | H2Uds => bs "h2_uds"
  end.

(** The report of a pool of a registry. *)
Definition report (c : Connections) (f : Family) (d : PoolDesc) (now : Z) : PoolSnapshot :=
  match f with
  | H1Tcp | H1Tls | H1Uds => build_h1_pool_snapshot d (h1_state c f (pd_location_id d)) (family_name f) now
  | H2Tcp | H2Tls | H2Uds => build_h2_pool_snapshot d (h2_state c f (pd_location_id d)) (family_name f) now
  end.

Lemma report_id c f d now : ps_location_id (report c f d now) = pd_location_id d.
Proof. by destruct f. Qed.

Lemma h1_pools_elem {P} keep c f (reg : gmap Z (Pool P)) name now x :
  x ∈ snapshot_h1_pools keep c f reg name now <->
  exists id p, reg !! id = Some p /\ keep (pd_location_id (desc p)) (pd_id_string (desc p)) = true /\
    x = build_h1_pool_snapshot (desc p) (h1_state c f (pd_location_id (desc p))) name now.
Proof.
  unfold snapshot_h1_pools. rewrite list_elem_of_fmap. setoid_rewrite list_elem_of_filter.
  setoid_rewrite list_pools_elem. naive_solver.
Qed.

Lemma h2_pools_elem {P} keep c f (reg : gmap Z (Pool P)) name now x :
  x ∈ snapshot_h2_pools keep c f reg name now <->
  exists id p, reg !! id = Some p /\ keep (pd_location_id (desc p)) (pd_id_string (desc p)) = true /\
    x = build_h2_pool_snapshot (desc p) (h2_state c f (pd_location_id (desc p))) name now.
Proof.
  unfold snapshot_h2_pools. rewrite list_elem_of_fmap. setoid_rewrite list_elem_of_filter.
  setoid_rewrite list_pools_elem. naive_solver.
Qed.

(** The reports are those of the pools of the six registries. *)
Lemma all_pools_elem keep c ps now x :
  x ∈ all_pools keep c ps now <->
  exists f id p, pool_at f id ps = Some p /\
    keep (pd_location_id (some_desc p)) (pd_id_string (some_desc p)) = true /\ x = report c f (some_desc p) now.
Proof.
  unfold all_pools. rewrite !elem_of_app, !h1_pools_elem, !h2_pools_elem. split.
  - intros Hx. repeat destruct Hx as [Hx|Hx]; destruct Hx as (id & p & Hp & Hk & ->).
    + exists H1Tcp, id, (PoolH1 p). cbn. by rewrite Hp.
    + exists H1Tls, id, (PoolH1 p). cbn. by rewrite Hp.
    + exists H1Uds, id, (PoolH1 p). cbn. by rewrite Hp.
    + exists H2Tcp, id, (PoolH2 p). cbn. by rewrite Hp.
    + exists H2Tls, id, (PoolH2 p). cbn. by rewrite Hp.
    + exists H2Uds, id, (PoolH2 p). cbn. by rewrite Hp.
  - intros (f & id & p & Hp & Hk & ->). destruct f; cbn in Hp; apply fmap_Some in Hp as (q & Hq & ->); cbn in Hk.
    + left. by exists id, q.
    + right. left. by exists id, q.
    + do 2 right. left. by exists id, q.
    + do 3 right. left. by exists id, q.
    + do 4 right. left. by exists id, q.
    + do 5 right. by exists id, q.
Qed.

Lemma absorb_listen_ids listen label :
  map ls_location_id (absorb_listen listen label) = map Config.location_id (listen_locations listen).
Proof.
  destruct listen as [http|c|http]; [|done|]; cbn.
  all: rewrite !concat_map, !map_map; f_equal; apply map_ext; intros e; rewrite map_map; by apply map_ext.
Qed.

Lemma collect_locations_ids cfg :
  map ls_location_id (collect_locations cfg) = map Config.location_id (config_locations cfg).
Proof.
  unfold collect_locations, config_locations. rewrite !map_app, !concat_map, !map_map.
  f_equal; f_equal; apply map_ext; intros x; apply absorb_listen_ids.
Qed.

(** Marking the items of a list by a set, and keeping those that are not in
    it. *)
Lemma unmarked_ids {A} (g : A -> Z) (mark : bool -> A -> A) (flag : A -> bool) (X : gset Z) (l : list A) id :
  (forall b x, g (mark b x) = g x) -> (forall b x, flag (mark b x) = b) ->
  id ∈ map g (filter (fun x => negb (flag x)) (map (fun x => mark (bool_decide (g x ∈ X)) x) l)) <->
  id ∈ map g l /\ id ∉ X.
Proof.
  intros Hg Hf. induction l as [|x l IH]; [cbn; set_solver|]. cbn [map]. rewrite filter_cons, Hf.
  case_bool_decide as Hx; cbn [negb].
  - destruct (decide (Is_true false)) as [[]|_]. rewrite IH, elem_of_cons. split; [naive_solver|]. intros [[->|]]; naive_solver.
  - destruct (decide (Is_true true)) as [_|Hn]; [|by destruct Hn]. cbn [map]. rewrite !elem_of_cons, IH, Hg.
    split; [|naive_solver]. intros [->|]; naive_solver.
Qed.

Lemma reported_ids cfg ps c now id :
  let r := build_proxy_state_snapshot cfg ps c now in
  (id ∈ orphan_pool_location_ids r <->
   (exists f k p, pool_at f k ps = Some p /\ pd_location_id (some_desc p) = id) /\
   forall l, l ∈ config_locations cfg -> Config.location_id l <> id) /\
  (id ∈ naked_location_ids r <->
   (exists l, l ∈ config_locations cfg /\ Config.location_id l = id) /\
   forall f k p, pool_at f k ps = Some p -> pd_location_id (some_desc p) <> id).
Proof.
  assert (forall id, id ∈ map ls_location_id (collect_locations cfg) <->
    exists l, l ∈ config_locations cfg /\ Config.location_id l = id) as Hl.
  { intros i. rewrite collect_locations_ids, list_elem_of_fmap. naive_solver. }
  assert (forall id, id ∈ map ps_location_id (all_pools (fun _ _ => true) c ps now) <->
    exists f k p, pool_at f k ps = Some p /\ pd_location_id (some_desc p) = id) as Hp.
  { intros i. rewrite list_elem_of_fmap. setoid_rewrite all_pools_elem. split.
    - intros (x & -> & f & k & p & Hk & _ & ->). exists f, k, p. by rewrite report_id.
    - intros (f & k & p & Hk & <-). exists (report c f (some_desc p) now). rewrite report_id. split; [done|].
      by exists f, k, p. }
  unfold build_proxy_state_snapshot. cbn [orphan_pool_location_ids naked_location_ids]. split.
  - rewrite (unmarked_ids ps_location_id set_matching has_matching_location), Hp, elem_of_list_to_set, Hl by done.
    naive_solver.
  - rewrite (unmarked_ids ls_location_id set_has_pool has_pool), Hl, elem_of_list_to_set, Hp by done. naive_solver.
Qed.

(** The connections a pool has, one by one: whether it is dead, when it last
    succeeded, and whether it is rented, which only h1 connections know. *)
Definition pool_entries (c : Connections) (f : Family) (id : Z) : list (bool * Z * option bool) :=
  match f with
  | H1Tcp | H1Tls | H1Uds =>
      imap (fun i e => (H1Pool.dead e, h1_last_success (h1_state c f id) i, Some (H1Pool.rented e)))
        (H1Pool.entries (h1 (h1_state c f id)))
  | H2Tcp | H2Tls | H2Uds =>
      map (fun e => (H2Pool.dead e, H2Pool.last_success e, None)) (h2_clients (h2 (h2_state c f id)))
  end.

Definition pool_shutdown (c : Connections) (f : Family) (id : Z) : bool :=
  match f with
  | H1Tcp | H1Tls | H1Uds => H1Pool.shutdown (h1 (h1_state c f id))
  | H2Tcp | H2Tls | H2Uds => H2Pool.shutdown (h2 (h2_state c f id))
  end.

(** A report tells of the pool [p], which is at [id] in the registry [f], what
    there is to tell. *)
Record describes (c : Connections) (now : Z) (f : Family) (id : Z) (p : SomePool) (x : PoolSnapshot) : Prop := {
  ds_registry : registry x = family_name f;
  ds_id : ps_location_id x = id;
  ds_name : ps_pool_name x = pd_name (some_desc p);
  ds_text : ps_id_string x = pd_id_string (some_desc p);
  ds_shutdown : ps_shutdown x = pool_shutdown c f id;
  ds_entries : length (ps_entries x) = length (pool_entries c f id) /\
    forall i dead last rented, pool_entries c f id !! i = Some (dead, last, rented) ->
      ps_entries x !! i = Some {| index := Z.of_nat i; entry_dead := dead; entry_last_success := to_rfc3339 last;
                                  idle_secs := positive_secs_since now last; entry_rented := rented |};
  ds_total : ps_total_count x = Z.of_nat (length (pool_entries c f id));
  ds_alive : ps_alive_count x = Z.of_nat (length (filter (fun e => e.1.1 = false) (pool_entries c f id)))
}.

Lemma alive_imap {A B} (g : nat -> A -> B) (dead : A -> bool) (dead' : B -> bool) l :
  (forall i x, dead' (g i x) = dead x) ->
  length (filter (fun y => dead' y = false) (imap g l)) = length (filter (fun x => negb (dead x)) l).
Proof.
  revert g. induction l as [|x l IH]; intros g Hg; [done|].
  rewrite imap_cons, !filter_cons, Hg. specialize (IH (g ∘ S) (fun i => Hg (S i))).
  destruct (dead x); cbn [negb]; repeat case_decide; cbn [length]; try done; congruence.
Qed.

Lemma report_describes c now f id p :
  pd_location_id (some_desc p) = id -> describes c now f id p (report c f (some_desc p) now).
Proof.
  intros Hid.
  assert (forall (A : Type) (g : nat -> A -> EntrySnapshot) (h : nat -> A -> bool * Z * option bool) l,
    (forall i x, g i x = {| index := Z.of_nat i; entry_dead := (h i x).1.1; entry_last_success := to_rfc3339 (h i x).1.2;
                            idle_secs := positive_secs_since now (h i x).1.2; entry_rented := (h i x).2 |}) ->
    length (imap g l) = length (imap h l) /\
    forall i dead last rented, imap h l !! i = Some (dead, last, rented) ->
      imap g l !! i = Some {| index := Z.of_nat i; entry_dead := dead; entry_last_success := to_rfc3339 last;
                              idle_secs := positive_secs_since now last; entry_rented := rented |}) as Hent.
  { intros A g h l Hg. rewrite !length_imap. split; [done|]. intros i dead last rented.
    rewrite !list_lookup_imap, !fmap_Some. intros (x & Hx & E). exists x. by rewrite Hg, <-E. }
  assert (forall l, map (fun e => (H2Pool.dead e, H2Pool.last_success e, @None bool)) l =
                    imap (fun _ e => (H2Pool.dead e, H2Pool.last_success e, None)) l) as Hmap.
  { induction l as [|e l IH]; [done|]. rewrite imap_cons. cbn [map]. f_equal. exact IH. }
  destruct f; (split; unfold pool_entries, pool_shutdown; cbn;
    [done|exact Hid|done|done|by rewrite Hid|rewrite Hid, ?Hmap; by apply Hent
    |rewrite Hid, ?Hmap, length_imap; done
    |rewrite Hid, ?Hmap; unfold h1_alive_count, h2_alive_count; f_equal; symmetry;
     by apply (alive_imap _ _ (fun e => e.1.1))]).
Qed.

(** No registry lists a pool twice. *)
Lemma list_pools_ids {P} (reg : gmap Z (Pool P)) :
  (forall id p, reg !! id = Some p -> pd_location_id (desc p) = id) ->
  NoDup (map (fun p => pd_location_id (desc p)) (list_pools reg)).
Proof.
  intros Hkey. unfold list_pools. rewrite map_map.
  rewrite (map_ext_in _ fst).
  - change (NoDup (fst <$> merge_sort by_id (map_to_list reg))).
    rewrite (merge_sort_Permutation by_id). apply NoDup_fst_map_to_list.
  - intros [k p] Hin%list_elem_of_In. rewrite merge_sort_Permutation in Hin. cbn.
    apply elem_of_map_to_list in Hin. by apply Hkey.
Qed.

Lemma NoDup_map_filter {A B} (g : A -> B) (Q : A -> Prop) `{!forall x, Decision (Q x)} l :
  NoDup (map g l) -> NoDup (map g (filter Q l)).
Proof.
  induction l as [|x l IH]; [done|]. cbn [map]. intros [Hx Hl]%NoDup_cons. rewrite filter_cons.
  case_decide; [|by apply IH]. cbn [map]. apply NoDup_cons. split; [|by apply IH].
  intros (y & Hy & Hin)%list_elem_of_fmap. apply Hx. rewrite Hy. apply list_elem_of_fmap. exists y.
  split; [done|]. by apply list_elem_of_filter in Hin as [_ Hin].
Qed.

(** One registry of the report, and several behind each other. *)
Definition place (x : PoolSnapshot) : bytes * Z := (registry x, ps_location_id x).

Lemma one_registry {P} (build : Pool P -> PoolSnapshot) name keep (reg : gmap Z (Pool P)) :
  (forall p, place (build p) = (name, pd_location_id (desc p))) ->
  (forall id p, reg !! id = Some p -> pd_location_id (desc p) = id) ->
  let l := map build (filter (fun p => keep (pd_location_id (desc p)) (pd_id_string (desc p)) = true) (list_pools reg)) in
  NoDup (map place l) /\ Forall (fun x => registry x = name) l.
Proof.
  intros Hb Hkey l. unfold l. rewrite map_map, (map_ext _ _ Hb). split.
  - rewrite <-(map_map (fun p => pd_location_id (desc p)) (fun i => (name, i))).
    apply (NoDup_fmap_2 (fun i => (name, i))). by apply NoDup_map_filter, list_pools_ids.
  - apply Forall_map. apply Forall_forall. intros p _. specialize (Hb p). by injection Hb.
Qed.

Lemma registries_apart name names (l l' : list PoolSnapshot) :
  name ∉ names -> NoDup (map place l) /\ Forall (fun x => registry x = name) l ->
  NoDup (map place l') /\ Forall (fun x => registry x ∈ names) l' ->
  NoDup (map place (l ++ l')) /\ Forall (fun x => registry x ∈ name :: names) (l ++ l').
Proof.
  intros Hn [Hd Hf] [Hd' Hf']. split.
  - rewrite map_app. apply NoDup_app. split_and!; [done| |done].
    intros k (x & -> & Hx)%list_elem_of_fmap (y & He & Hy)%list_elem_of_fmap.
    rewrite Forall_forall in Hf, Hf'. specialize (Hf x Hx). specialize (Hf' y Hy). injection He as He _.
    apply Hn. by rewrite <-Hf, He.
  - apply Forall_app. split; (eapply Forall_impl; [eassumption|]); cbn; intros x Hx; rewrite elem_of_cons; auto.
Qed.

Lemma all_pools_once keep c ps now :
  (forall f id p, pool_at f id ps = Some p -> pd_location_id (some_desc p) = id) ->
  NoDup (map place (all_pools keep c ps now)).
Proof.
  intros Hkey.
  assert (forall f id p, PoolH1 <$> p = pool_at f id ps -> forall q, p = Some q -> pd_location_id (desc q) = id) as H1k.
  { intros f id p Hp q ->. symmetry in Hp. by apply Hkey in Hp. }
  assert (forall f id p, PoolH2 <$> p = pool_at f id ps -> forall q, p = Some q -> pd_location_id (desc q) = id) as H2k.
  { intros f id p Hp q ->. symmetry in Hp. by apply Hkey in Hp. }
  assert (NoDup (map place (all_pools keep c ps now)) /\
    Forall (fun x => registry x ∈ [bs "h1_tcp"; bs "h1_tls"; bs "h1_uds"; bs "h2_tcp"; bs "h2_tls"; bs "h2_uds"])
      (all_pools keep c ps now)) as [? _]; [|done].
  unfold all_pools. rewrite <-(app_nil_r (snapshot_h2_pools _ _ H2Uds _ _ _)).
  repeat apply registries_apart; try (intros Hin%list_elem_of_In; vm_compute in Hin; naive_solver).
  - apply one_registry; [done|]. intros id. by eapply (H1k H1Tcp).
  - apply one_registry; [done|]. intros id. by eapply (H1k H1Tls).
  - apply one_registry; [done|]. intros id. by eapply (H1k H1Uds).
  - apply one_registry; [done|]. intros id. by eapply (H2k H2Tcp).
  - apply one_registry; [done|]. intros id. by eapply (H2k H2Tls).
  - apply one_registry; [done|]. intros id. by eapply (H2k H2Uds).
  - split; constructor.
Qed.

(** C36: The snapshot of the pools is exact.  Whatever configurations were
    loaded, requests served and pools drained before: every pool of the six
    registries is reported, every report is that of one of these pools, with
    its registry, number and name, each of its connections as it is at its
    place, and the numbers of its connections and of those alive, and no pool
    is reported twice; the orphans are exactly the pools whose number no
    configured location has, and the next tick of the timer under that
    configuration leaves none of them; the naked locations are exactly the
    configured ones whose number no registry knows. *)
Theorem snapshot_is_exact (first_id : Z) (es : list Event) (cfg : Config.ListenMaps) (c : Connections) (now id : Z) :
  let a := fold_left (run_event default_h2_livness_url get_ssh_session) es (start first_id) in
  let r := build_proxy_state_snapshot cfg (pools a) c now in
  (forall f p, pool_at f id (pools a) = Some p ->
    exists x, x ∈ snapshot_pools r /\ describes c now f id p x) /\
  (forall x, x ∈ snapshot_pools r ->
    exists f k p, pool_at f k (pools a) = Some p /\ describes c now f k p x) /\
  NoDup (map (fun x => (registry x, ps_location_id x)) (snapshot_pools r)) /\
  (id ∈ orphan_pool_location_ids r <->
   (exists f p, pool_at f id (pools a) = Some p) /\
   forall l, l ∈ config_locations cfg -> Config.location_id l <> id) /\
  (id ∈ orphan_pool_location_ids r -> forall f, pool_at f id (gc_tick cfg (pools a)) = None) /\
  (id ∈ naked_location_ids r <->
   (exists l, l ∈ config_locations cfg /\ Config.location_id l = id) /\ forall f, pool_at f id (pools a) = None).
Proof.
  intros a r. pose proof (reachable_pools default_h2_livness_url get_ssh_session first_id es) as [_ _ Hinv].
  fold a in Hinv. destruct (reported_ids cfg (pools a) c now id) as [Horphan Hnaked]. fold r in Horphan, Hnaked.
  assert (forall f k p, pool_at f k (pools a) = Some p -> pd_location_id (some_desc p) = k) as Hkey.
  { intros f k p Hp. by apply Hinv in Hp as [? _]. }
  assert (id ∈ orphan_pool_location_ids r <->
   (exists f p, pool_at f id (pools a) = Some p) /\ forall l, l ∈ config_locations cfg -> Config.location_id l <> id) as Ho.
  { rewrite Horphan. split; (intros [Hex Hno]; split; [|done]).
    - destruct Hex as (f & k & p & Hp & <-). exists f, p. by rewrite (Hkey _ _ _ Hp).
    - destruct Hex as (f & p & Hp). exists f, id, p. split; [done|]. by eapply Hkey. }
  assert (forall f k p b, pool_at f k (pools a) = Some p ->
    describes c now f k p (set_matching b (report c f (some_desc p) now))) as Hdesc.
  { intros f k p b Hp. by destruct (report_describes c now f k p (Hkey _ _ _ Hp)); split. }
  split; [|split; [|split; [|split; [exact Ho|split]]]].
  - intros f p Hp. eexists. split; [|by apply Hdesc].
    apply list_elem_of_fmap. exists (report c f (some_desc p) now). split; [done|].
    apply all_pools_elem. by exists f, id, p.
  - intros x (y & -> & Hy)%list_elem_of_fmap. apply all_pools_elem in Hy as (f & k & p & Hp & _ & ->).
    exists f, k, p. split; [done|]. by apply Hdesc.
  - unfold r, build_proxy_state_snapshot. cbn [snapshot_pools]. rewrite map_map. apply (all_pools_once _ _ _ _ Hkey).
  - intros [_ Hno]%Ho f. rewrite gc_pool_at. destruct (pool_at f id (pools a)) as [p|] eqn:Hp; [|done]. cbn.
    case_decide as Hd; [|done]. apply desired_keys_spec in Hd as (l & Hl & _ & Hid). rewrite (Hkey _ _ _ Hp) in Hid.
    by apply Hno in Hl.
  - rewrite Hnaked. split; (intros [Hex Hno]; split; [done|]).
    + intros f. destruct (pool_at f id (pools a)) as [p|] eqn:Hp; [|done]. exfalso. by apply (Hno f id p), (Hkey f).
    + intros f k p Hp Hid. rewrite (Hkey _ _ _ Hp) in Hid. subst k. by rewrite Hno in Hp.
Qed.

(** A look-up answers with the pools that have the number or the text, and
    refuses only a question with neither. *)
Lemma lookup_pool_exact model ps c now x :
  match lookup_pool model ps c now with
  | Ok (_, matches) => x ∈ matches <->
      exists f id p, pool_at f id ps = Some p /\ x = report c f (some_desc p) now /\
        (in_location_id model = Some (pd_location_id (some_desc p)) \/ in_id_string model = Some (pd_id_string (some_desc p)))
  | Err _ => in_location_id model = None /\ in_id_string model = None
  | Panic => False
  end.
Proof.
  unfold lookup_pool. destruct (in_location_id model) as [i|] eqn:Hi, (in_id_string model) as [t|] eqn:Ht; try done.
  all: rewrite all_pools_elem; unfold id_match; rewrite Hi, Ht; setoid_rewrite orb_true_iff;
    setoid_rewrite bool_decide_eq_true; naive_solver.
Qed.

End Snapshot.
End StateSnapshot.

(** ** [GET /api/configuration/Current] *)

Module CurrentConfiguration.
Import ContentSource StateSnapshot.

Record HttpProxyPassLocationModel := {
  lm_path : bytes;
  lm_to : bytes;
  lm_type : bytes;
  lm_remote_kind : option bytes;
  lm_location_id : Z;
  lm_id_string : bytes;
  lm_debug : bool;
  pool_alive : option Z;
  pool_total : option Z;
  lm_last_status : option Z
}.

Record HttpEndpointInfoModel := {
  em_host : bytes;
  em_type : bytes;
  em_locations : list HttpProxyPassLocationModel;
  em_debug : bool;
  em_inbound_connections : Z;
  resolved_ip : option bytes;
  em_ip_list : option bytes;
  em_allowed_user_list_id : option bytes;
  ssl_cert_id : option bytes;
  ssl_cert_missing : bool;
  client_cert_id : option bytes;
  em_g_auth : option bytes
}.

Record PortConfigurationHttpModel := {
  pm_port : Z;
  unix_socket : option bytes;
  pm_type : bytes;
  pm_endpoints : list HttpEndpointInfoModel;
  pm_inbound_connections : Z
}.

Record SslCertificateInfoModel := { si_id : bytes; expires_at : bytes; days_left : Z }.

Record GatewayConnection := {
  gc_name : bytes;
  gc_forward_connections : Z;
  proxy_connections : Z;
  forward_routes : gmap bytes Z;
  proxy_routes : gmap bytes Z;
  ping_time : bytes;
  is_incoming_forward_connection_allowed : bool;
  in_history : list Z;
  out_history : list Z;
  timestamp : bytes
}.

Record CurrentConfigurationHttpModel := {
  ports : list PortConfigurationHttpModel;
  users : gmap bytes (list bytes);
  ip_lists : gmap bytes (list bytes);
  errors : gmap bytes bytes;
  remote_connections : gmap bytes Z;
  ssl_certs : list SslCertificateInfoModel;
  gateway_server : option (list GatewayConnection);
  gateway_clients : list (bytes * list GatewayConnection)
}.

Section Model.
Context `{RemoteEndpointLib} `{ReportLibs} `{TlsLibs} `{!Listeners.Rustls}.
Context (duration_debug : Z -> bytes) (ip_to_string : WhiteList.IpAddr -> bytes).

(** What the report is made from, beside the configuration. *)
Record Sight := {
  pools : Pools;
  connections : Connections;
  debug_flags : Logs.DebugFlags;
  metrics : Live.Metrics;
  resolved_domain_ips : gmap bytes (list WhiteList.IpAddr)
}.

(** [lookup_pool_state]: the first registry that knows the number. *)
Definition h1_pool_state (c : Connections) (f : Family) (location_id : Z) : Z * Z * Upstream.UpstreamStatus :=
  let p := h1_state c f location_id in (h1_alive_count (h1 p), h1_total_count (h1 p), h1_last_status p).
Definition h2_pool_state (c : Connections) (f : Family) (location_id : Z) : Z * Z * Upstream.UpstreamStatus :=
  let p := h2_state c f location_id in (h2_alive_count (h2 p), h2_total_count (h2 p), h2_last_status p).

Definition lookup_pool_state (ps : Pools) (c : Connections) (location_id : Z) : option (Z * Z * Upstream.UpstreamStatus) :=
  match get location_id (h1_tcp_pools ps) with
  | Some _ => Some (h1_pool_state c H1Tcp location_id)
  | None =>
  match get location_id (h1_tls_pools ps) with
  | Some _ => Some (h1_pool_state c H1Tls location_id)
  | None =>
  match get location_id (h1_uds_pools ps) with
  | Some _ => Some (h1_pool_state c H1Uds location_id)
  | None =>
  match get location_id (h2_tcp_pools ps) with
  | Some _ => Some (h2_pool_state c H2Tcp location_id)
  | None =>
  match get location_id (h2_tls_pools ps) with
  | Some _ => Some (h2_pool_state c H2Tls location_id)
  | None =>
  match get location_id (h2_uds_pools ps) with
  | Some _ => Some (h2_pool_state c H2Uds location_id)
  | None => None
  end end end end end end.

Definition location_model (s : Sight) (src : Config.ProxyPassLocationConfig) : HttpProxyPassLocationModel :=
  let state := lookup_pool_state (pools s) (connections s) (Config.location_id src) in
  {| lm_path := Config.path src; lm_to := Config.to_string (Config.proxy_pass_to src);
     lm_type := Config.get_type_as_str (Config.proxy_pass_to src);
     lm_remote_kind := Config.remote_endpoint_kind (Config.proxy_pass_to src);
     lm_location_id := Config.location_id src; lm_id_string := Config.id_string src;
     lm_debug := Logs.is_location_debug (Config.location_id src) (debug_flags s);
     pool_alive := (fun x => x.1.1) <$> state; pool_total := (fun x => x.1.2) <$> state;
     lm_last_status := (fun x => Upstream.as_u8 x.2) <$> state |}.

Definition get_display (domain : option bytes) (s : Sight) : option bytes :=
  domain ← domain; DomainIps.get_display ip_to_string domain (resolved_domain_ips s).

Definition from_http_endpoint (s : Sight) (endpoint : Config.HttpEndpointInfo) : HttpEndpointInfoModel :=
  let host_key := Config.endpoint_str endpoint in
  {| em_host := host_key; em_type := Compile.type_as_str (Config.listen_endpoint_type endpoint);
     em_debug := Logs.is_endpoint_debug host_key (debug_flags s);
     resolved_ip := get_display (Config.get_server_name (Config.host_endpoint endpoint)) s;
     em_allowed_user_list_id := Config.allowed_user_list_id endpoint; em_ip_list := Config.whitelisted_ip_list_id endpoint;
     ssl_cert_id := Config.ssl_certificate_id endpoint; ssl_cert_missing := false;
     client_cert_id := Config.client_certificate_id endpoint; em_g_auth := Config.g_auth endpoint;
     em_inbound_connections := Live.get host_key (Live.connection_by_endpoint (metrics s));
     em_locations := map (location_model s) (Config.locations endpoint) |}.

Definition from_tcp_config (s : Sight) (config : Config.TcpEndpointHostConfig) : HttpEndpointInfoModel :=
  {| em_host := Config.src (Config.tcp_host_endpoint config); em_type := bs "tcp"; em_debug := Config.tcp_debug config;
     resolved_ip := get_display (Config.get_server_name (Config.tcp_host_endpoint config)) s;
     em_ip_list := Config.tcp_ip_white_list_id config; em_inbound_connections := 0;
     em_locations :=
       [{| lm_path := []; lm_to := Config.remote_to_string (Config.tcp_remote_host config); lm_type := bs "tcp";
           lm_remote_kind := Some (Config.kind_as_str (Config.tcp_remote_host config)); lm_location_id := 0;
           lm_id_string := []; lm_debug := false; pool_alive := None; pool_total := None; lm_last_status := None |}];
     em_allowed_user_list_id := None; ssl_cert_id := None; ssl_cert_missing := false; client_cert_id := None;
     em_g_auth := None |}.

Definition build_type_and_endpoints (s : Sight) (listen_config : Config.ListenConfiguration) :
    bytes * list HttpEndpointInfoModel :=
  match listen_config with
  | Config.ListenHttp config | Config.ListenMcp config =>
      (Compile.type_as_str (Config.port_endpoint_type config), map (from_http_endpoint s) (Config.endpoints config))
  | Config.ListenTcpForward config => (bs "tcp", [from_tcp_config s config])
  end.

(** [PortConfigurationHttpModel::new] and [new_unix] *)
Definition port_model (s : Sight) (port : Z) (listen_config : Config.ListenConfiguration) : PortConfigurationHttpModel :=
  {| pm_port := port; unix_socket := None; pm_type := fst (build_type_and_endpoints s listen_config);
     pm_endpoints := snd (build_type_and_endpoints s listen_config);
     pm_inbound_connections := Live.get port (Live.connection_by_port (metrics s)) |}.

Definition unix_model (s : Sight) (path : bytes) (listen_config : Config.ListenConfiguration) : PortConfigurationHttpModel :=
  {| pm_port := 0; unix_socket := Some path; pm_type := fst (build_type_and_endpoints s listen_config);
     pm_endpoints := snd (build_type_and_endpoints s listen_config); pm_inbound_connections := 0 |}.

(** [collect_ssl_certs]; the quotient is that of [i64], towards zero. *)
Definition collect_ssl_certs (get_list : list (bytes * Certificates.SslCertificateHolder)) (seconds_since : Z -> Z -> Z) (now : Z) :
    list SslCertificateInfoModel :=
  map (fun x =>
    let expires := Certificates.expires (Certificates.get_cert_info (Certificates.ssl_cert (snd x))) in
    {| si_id := fst x; expires_at := to_rfc3339 expires; days_left := Z.quot (seconds_since expires now) 86400 |}) get_list.

(** The second pass over the endpoints. *)
Definition flag_missing (loaded_cert_ids : gset bytes) (e : HttpEndpointInfoModel) : HttpEndpointInfoModel :=
  match ssl_cert_id e with
  | Some cert_id =>
      if negb (bool_decide (cert_id = Certificates.SELF_SIGNED_CERT_NAME)) && bool_decide (cert_id ∉ loaded_cert_ids) then
        {| em_host := em_host e; em_type := em_type e; em_locations := em_locations e; em_debug := em_debug e;
           em_inbound_connections := em_inbound_connections e; resolved_ip := resolved_ip e; em_ip_list := em_ip_list e;
           em_allowed_user_list_id := em_allowed_user_list_id e; ssl_cert_id := ssl_cert_id e; ssl_cert_missing := true;
           client_cert_id := client_cert_id e; em_g_auth := em_g_auth e |}
      else e
  | None => e
  end.

Definition flag_port (loaded_cert_ids : gset bytes) (p : PortConfigurationHttpModel) : PortConfigurationHttpModel :=
  {| pm_port := pm_port p; unix_socket := unix_socket p; pm_type := pm_type p;
     pm_endpoints := map (flag_missing loaded_cert_ids) (pm_endpoints p);
     pm_inbound_connections := pm_inbound_connections p |}.

Definition by_port (a b : PortConfigurationHttpModel) : Prop := pm_port a <= pm_port b.
#[global] Instance by_port_dec : RelDecision by_port.
Proof. intros a b. unfold by_port. apply _. Defined.

(** [GatewayConnection::new] *)
Definition by_route {A} (route : A -> bytes) (m : gmap Z A) : gmap bytes Z :=
  map_fold (fun _ x result => <[route x := default 0 (result !! route x) + 1]> result) ∅ m.

Definition gateway_connection (node : Node.Node) (m : History.ConnectionMetrics) : GatewayConnection :=
  {| gc_name := Node.gateway_id (Node.session node);
     gc_forward_connections := Z.of_nat (size (Node.forward_connections node));
     proxy_connections := Z.of_nat (size (Node.forward_proxy_handlers node));
     forward_routes := by_route (fun f => default [] (Node.remote_endpoint <$> Node.forwards node !! f)) (Node.forward_connections node);
     proxy_routes := by_route Node.handler_remote_host (Node.forward_proxy_handlers node);
     ping_time := duration_debug (Node.last_ping_duration node);
     is_incoming_forward_connection_allowed := Node.allow_incoming_forward_connection (Node.session node);
     in_history := History.in_per_second m; out_history := History.out_per_second m;
     timestamp := to_rfc3339 (Node.connection_timestamp (Node.session node)) |}.

(** [snapshot] of a registry, inserted under the names of its pools. *)
Definition insert_ready {P} (alive : Z -> Z) (reg : gmap Z (Pool P)) (m : gmap bytes Z) : gmap bytes Z :=
  fold_left (fun m p => <[pd_name (desc p) := alive (pd_location_id (desc p))]> m) (list_pools reg) m.

Definition h1_ready (c : Connections) (f : Family) (id : Z) : Z := h1_alive_count (h1 (h1_state c f id)).
Definition h2_ready (c : Connections) (f : Family) (id : Z) : Z := h2_alive_count (h2 (h2_state c f id)).

Definition collect_remote_connections (ps : Pools) (c : Connections) (over_ssh : gmap bytes Z) : gmap bytes Z :=
  insert_ready (h2_ready c H2Uds) (h2_uds_pools ps)
    (insert_ready (h2_ready c H2Tls) (h2_tls_pools ps)
      (insert_ready (h2_ready c H2Tcp) (h2_tcp_pools ps)
        (insert_ready (h1_ready c H1Uds) (h1_uds_pools ps)
          (insert_ready (h1_ready c H1Tls) (h1_tls_pools ps)
            (insert_ready (h1_ready c H1Tcp) (h1_tcp_pools ps) over_ssh))))).

(** [CurrentConfigurationHttpModel::new]: [over_ssh] is what the two client
    pools over SSH have filled in, [certs] the list of the cache, the gateways
    those of the application. *)
Definition new (s : Sight) (configuration : Compile.AppConfigurationInner) (allowed_users_list : Config.AllowedUsersList)
    (certs : list (bytes * Certificates.SslCertificateHolder)) (seconds_since : Z -> Z -> Z) (now : Z) (over_ssh : gmap bytes Z)
    (server : option (list (Node.Node * History.ConnectionMetrics)))
    (clients : list (bytes * list (Node.Node * History.ConnectionMetrics))) : CurrentConfigurationHttpModel :=
  let listen := Compile.listen configuration in
  let ports :=
    map (fun x => port_model s (fst x) (snd x)) (map_to_list (Config.listen_tcp_endpoints listen)) ++
    map (fun x => unix_model s (fst x) (snd x)) (map_to_list (Config.listen_unix_socket_endpoints listen)) in
  let ssl_certs := collect_ssl_certs certs seconds_since now in
  let gateway (l : list (Node.Node * History.ConnectionMetrics)) := map (fun x => gateway_connection x.1 x.2) l in
  {| ports := map (flag_port (list_to_set (map si_id ssl_certs))) (merge_sort by_port ports);
     users := (fun list => elements list) <$> allowed_users_list;
     ip_lists := WhiteList.to_list_of_string <$> Compile.white_list_ip_list configuration;
     errors := Compile.error_configurations configuration;
     remote_connections := collect_remote_connections (pools s) (connections s) over_ssh;
     ssl_certs := ssl_certs; gateway_server := gateway <$> server;
     gateway_clients := map (fun x => (fst x, gateway (snd x))) clients |}.

(** ** Endpoints without a certificate *)

(** How an endpoint is reported. *)
Definition reported (s : Sight) (loaded : gset bytes) (e : Config.HttpEndpointInfo) : HttpEndpointInfoModel :=
  flag_missing loaded (from_http_endpoint s e).

Lemma flag_missing_spec s loaded e :
  ssl_cert_missing (reported s loaded e) = true <->
  exists id, Config.ssl_certificate_id e = Some id /\ id <> Certificates.SELF_SIGNED_CERT_NAME /\ id ∉ loaded.
Proof.
  unfold reported, flag_missing. cbn. destruct (Config.ssl_certificate_id e) as [id|]; cbn; [|naive_solver].
  destruct (decide (id = Certificates.SELF_SIGNED_CERT_NAME)) as [->|Hs].
  - rewrite bool_decide_true by done. cbn. naive_solver.
  - rewrite bool_decide_false by done. cbn. case_bool_decide; cbn; naive_solver.
Qed.

(** The certificate that is served for a name is that of the endpoint that is
    found for it. *)
Lemma served_certificate (c : Config.HttpListenPortConfiguration) (server_name : bytes) e id :
  Config.get_http_endpoint_info c (Some server_name) = Ok (Some e) -> Config.ssl_certificate_id e = Some id ->
  Config.get_ssl_certificate c server_name = Some (id, e).
Proof.
  unfold Config.get_http_endpoint_info, Config.get_ssl_certificate. intros [= Hf] Hid. revert Hf.
  induction (Config.endpoints c) as [|x l IH]; [done|]. cbn. destruct (Config.is_my_endpoint x server_name) eqn:Hx.
  - rewrite decide_True by done. cbn. intros [= ->]. by rewrite Hid.
  - rewrite decide_False by done. destruct (list_find _ l) as [[i y]|]; [|done]. cbn. intros [= ->]. by apply IH.
Qed.

Lemma loaded_ids certs seconds_since now :
  map si_id (collect_ssl_certs certs seconds_since now) = map fst certs.
Proof. unfold collect_ssl_certs. rewrite map_map. by apply map_ext. Qed.

Lemma loaded_spec (cache : gmap bytes Certificates.SslCertificateHolder) certs id :
  (certs ≡ₚ map_to_list cache) -> (id ∈ (list_to_set (map fst certs) : gset bytes) <-> is_Some (cache !! id)).
Proof.
  intros Hp. rewrite elem_of_list_to_set, list_elem_of_fmap. split.
  - intros ([k h] & -> & Hin). rewrite Hp in Hin. apply elem_of_map_to_list in Hin. by exists h.
  - intros [h Hh]. exists (id, h). split; [done|]. rewrite Hp. by apply elem_of_map_to_list.
Qed.

(** What the configuration page says about certificates is what TLS
    connections meet.  Every endpoint of a port is reported; when it is flagged
    as missing its certificate, each client that names it is cut off because
    the certificate is not available; when it is not flagged, the endpoint has
    a key to show. *)
Theorem missing_certificates_are_flagged (self_signed_cert : Certificates.SslCertificate) (s : Sight)
    (configuration : Compile.AppConfigurationInner) (users : Config.AllowedUsersList) (cache : Certificates.CertificatesCache)
    (certs : list (bytes * Certificates.SslCertificateHolder)) (seconds_since : Z -> Z -> Z) (now : Z) (over_ssh : gmap bytes Z)
    (server : option (list (Node.Node * History.ConnectionMetrics)))
    (clients : list (bytes * list (Node.Node * History.ConnectionMetrics)))
    (port : Z) (c : Config.HttpListenPortConfiguration) (server_name : bytes) (e : Config.HttpEndpointInfo)
    (Hcerts : certs ≡ₚ map_to_list (Certificates.ssl_certs cache))
    (Hport : Config.listen_tcp_endpoints (Compile.listen configuration) !! port ∈
               [Some (Config.ListenHttp c); Some (Config.ListenMcp c)])
    (Hname : Config.get_http_endpoint_info c (Some server_name) = Ok (Some e)) :
  exists p m, p ∈ ports (new s configuration users certs seconds_since now over_ssh server clients) /\
    pm_port p = port /\ unix_socket p = None /\ m ∈ pm_endpoints p /\ em_host m = Config.endpoint_str e /\
    (ssl_cert_missing m = true -> forall peer, Listeners.client_hello peer = inr (Some server_name) ->
       exists message, Listeners.lazy_accept_tcp_stream self_signed_cert cache c port false peer =
         inl (Listeners.CertificateNotAvailable (Config.endpoint_str e) message)) /\
    (ssl_cert_missing m = false -> forall id, Config.ssl_certificate_id e = Some id ->
       exists key, Listeners.certified_key_of self_signed_cert cache e id = inr key).
Proof.
  set (loaded := list_to_set (map si_id (collect_ssl_certs certs seconds_since now)) : gset bytes).
  assert (forall id, id ∈ loaded <-> is_Some (Certificates.ssl_certs cache !! id)) as Hloaded.
  { intros id. unfold loaded. rewrite loaded_ids. by apply loaded_spec. }
  assert (e ∈ Config.endpoints c) as He.
  { cbn in Hname. injection Hname as Hname. destruct (list_find _ _) as [[i x]|] eqn:Hf; [|done]. cbn in Hname.
    injection Hname as ->. apply list_find_Some in Hf as (Hi & _). by eapply list_elem_of_lookup_2. }
  assert (exists l, Config.listen_tcp_endpoints (Compile.listen configuration) !! port = Some l /\
            snd (build_type_and_endpoints s l) = map (from_http_endpoint s) (Config.endpoints c)) as (l & Hl & Hmodels).
  { apply elem_of_cons in Hport as [->| ->%list_elem_of_singleton]; eauto. }
  exists (flag_port loaded (port_model s port l)), (reported s loaded e). split_and!; [|done|done| | | |].
  - unfold new. cbn [ports]. apply list_elem_of_fmap. exists (port_model s port l). split; [done|].
    rewrite merge_sort_Permutation. apply elem_of_app. left. apply list_elem_of_fmap. exists (port, l).
    split; [done|by apply elem_of_map_to_list].
  - cbn. rewrite Hmodels, map_map. apply list_elem_of_fmap. by exists e.
  - unfold reported, flag_missing. cbn. by repeat case_match.
  - intros (id & Hid & Hs & Hnot)%flag_missing_spec peer Hhello. unfold Listeners.lazy_accept_tcp_stream, Listeners.lazy_handshake. rewrite Hhello, Hname. cbn. unfold Listeners.create_config.
    rewrite (served_certificate _ _ _ _ Hname Hid). unfold Listeners.certified_key_of. rewrite decide_False by done.
    rewrite Hloaded in Hnot. destruct (Certificates.ssl_certs cache !! id); [by destruct Hnot|]. eauto.
  - intros Hm id Hid. unfold Listeners.certified_key_of. case_decide as Hs; [eauto|].
    destruct (Certificates.ssl_certs cache !! id) eqn:Hc; [eauto|]. exfalso.
    assert (ssl_cert_missing (reported s loaded e) = true) as Ht; [|congruence].
    apply flag_missing_spec. exists id. split_and!; [done|done|]. rewrite Hloaded, Hc. by intros [].
Qed.

End Model.

(** ** One entry per pool *)

Section Entries.
Context `{RemoteEndpointLib} `{FileLibs} (default_h2_livness_url : option bytes) (get_ssh_session : SshCredentials -> bool).

Definition name_prefix (f : Family) : bytes :=
  match f with
  | H1Tcp => bs "h1://" | H1Tls => bs "h1s://" | H1Uds => bs "uds-h1://"
  | H2Tcp => bs "h2://" | H2Tls => bs "h2s://" | H2Uds => bs "uds-h2://"
  end.

Definition HASH : byte := Byte.x23.

(** The names of the pools of a registry. *)
Definition named (f : Family) (id : Z) (name : bytes) : Prop :=
  exists x, name = name_prefix f ++ x ++ HASH :: Str.int_to_string id.

Lemma wanted_is_named l debug timeout src f p :
  create_data_source default_h2_livness_url get_ssh_session l debug timeout = Ok src -> wanted src = Some (f, p) ->
  named f (pd_location_id (some_desc p)) (pd_name (some_desc p)).
Proof.
  assert (forall f host port id, named f id (pool_name (name_prefix f) host port id)) as Ht.
  { intros g host port id. exists (host ++ bs ":" ++ Str.uint_to_string port). unfold pool_name. by rewrite <-!app_assoc. }
  assert (forall f path id, named f id (uds_pool_name (name_prefix f) path id)) as Hu by (intros g path id; by exists path).
  unfold create_data_source. intros Hc Hw.
  repeat (case_match; try done; simplify_eq; cbn in Hw; simplify_eq; try done).
  all: try (destruct (Content.local_path_src_new _ _); cbn in Hc; [injection Hc as <-|..]; done).
  all: cbn; first [apply (Ht H1Tcp)|apply (Ht H1Tls)|apply (Ht H2Tcp)|apply (Ht H2Tls)|apply (Hu H1Uds)|apply (Hu H2Uds)].
Qed.

Lemma pools_are_named first_id es f id p :
  pool_at f id (ContentSource.pools (fold_left (run_event default_h2_livness_url get_ssh_session) es (start first_id))) = Some p ->
  named f id (pd_name (some_desc p)).
Proof.
  assert (forall a, (forall f id p, pool_at f id (ContentSource.pools a) = Some p -> named f id (pd_name (some_desc p))) ->
    forall f id p, pool_at f id (ContentSource.pools (fold_left (run_event default_h2_livness_url get_ssh_session) es a)) = Some p ->
      named f id (pd_name (some_desc p))) as Hrun.
  2: { apply Hrun. intros [] i q; cbn; by rewrite lookup_empty. }
  clear f id p. induction es as [|e es IH]; intros a Ha; [exact Ha|]. cbn [fold_left]. apply IH.
  destruct e as [x|i debug timeout|cfg]; cbn [run_event]; [exact Ha| |].
  - destruct (known a !! i) as [l|]; [|exact Ha].
    destruct (create_data_source _ _ l debug timeout) as [src| |] eqn:Hc; [|exact Ha..].
    destruct (source_pool src (ContentSource.pools a)) as [ps' r] eqn:Hsp. apply source_pool_spec in Hsp. cbn.
    destruct (wanted src) as [[g new]|] eqn:Hw; [|destruct Hsp as [-> _]; exact Ha].
    destruct Hsp as [_ Hat]. intros f k q. rewrite Hat. case_decide as Hgk; [|apply Ha].
    destruct Hgk as [-> ->]. intros [= <-]. destruct (pool_at g _ _) as [old|] eqn:Hold; cbn; [by apply Ha|].
    by eapply wanted_is_named.
  - cbn. intros f k q. rewrite gc_pool_at. destruct (pool_at f k _) as [old|] eqn:Hold; [|done]. cbn.
    case_decide; [|done]. intros [= <-]. by apply (Ha f).
Qed.

Lemma prefix_decides f g x y : name_prefix f ++ x = name_prefix g ++ y -> f = g.
Proof. destruct f, g; cbn; intros H'; try done; discriminate H'. Qed.

Lemma named_inj f g i j name :
  0 <= i < 2 ^ 63 -> 0 <= j < 2 ^ 63 -> named f i name -> named g j name -> f = g /\ i = j.
Proof.
  intros Hi Hj (x & ->) (y & Hy). assert (f = g) as <- by (by eapply prefix_decides). split; [done|].
  apply app_inv_head in Hy.
  assert (forall n, 0 <= n < 2 ^ 63 -> HASH ∉ Str.int_to_string n /\ Str.parse_uint (2 ^ 63) (Str.int_to_string n) = Some n) as Hn.
  { intros n Hn. unfold Str.int_to_string. rewrite (proj2 (Z.ltb_ge n 0)) by lia.
    split; [by apply uint_to_string_no|]. apply parse_uint_to_string; lia. }
  destruct (Hn i Hi) as [Hi1 Hi2], (Hn j Hj) as [Hj1 Hj2].
  apply (f_equal (Str.rsplit_once HASH)) in Hy. rewrite !Str.rsplit_once_app in Hy by done. congruence.
Qed.

Definition insert_pools {P} (alive : Z -> Z) (l : list (Pool P)) (m : gmap bytes Z) : gmap bytes Z :=
  fold_left (fun m p => <[pd_name (desc p) := alive (pd_location_id (desc p))]> m) l m.

Lemma insert_pools_other {P} alive (l : list (Pool P)) m name :
  (forall p, p ∈ l -> pd_name (desc p) <> name) -> insert_pools alive l m !! name = m !! name.
Proof.
  revert m. induction l as [|p l IH]; intros m Hne; [done|].
  change (insert_pools alive (p :: l) m !! name) with
    (insert_pools alive l (<[pd_name (desc p) := alive (pd_location_id (desc p))]> m) !! name).
  rewrite IH by (intros; apply Hne; set_solver).
  apply lookup_insert_ne, Hne. set_solver.
Qed.

Lemma insert_pools_here {P} alive (l : list (Pool P)) m name id :
  (exists p, p ∈ l /\ pd_name (desc p) = name) ->
  (forall p, p ∈ l -> pd_name (desc p) = name -> pd_location_id (desc p) = id) ->
  insert_pools alive l m !! name = Some (alive id).
Proof.
  revert m. induction l as [|q l IH]; intros m (p & Hp & Hn) Hl; [by apply elem_of_nil in Hp|].
  change (insert_pools alive (q :: l) m !! name) with
    (insert_pools alive l (<[pd_name (desc q) := alive (pd_location_id (desc q))]> m) !! name).
  destruct (decide (Exists (fun p => pd_name (desc p) = name) l)) as [Hex|Hex].
  - apply IH; [apply Exists_exists in Hex as (x & Hx & ?); by exists x|]. intros; apply Hl; [set_solver|done].
  - assert (p = q) as -> by (apply elem_of_cons in Hp as [|Hp]; [done|]; exfalso; apply Hex, Exists_exists; by exists p).
    rewrite insert_pools_other by (intros x Hx E; apply Hex, Exists_exists; by exists x).
    by rewrite Hn, lookup_insert_eq, (Hl q) by (done || set_solver).
Qed.

(** What the snapshot of one registry does to the entry of a name. *)
Lemma insert_ready_spec {P} alive (reg : gmap Z (Pool P)) m name :
  ((forall id p, reg !! id = Some p -> pd_name (desc p) <> name) -> insert_ready alive reg m !! name = m !! name) /\
  (forall id p, reg !! id = Some p -> pd_name (desc p) = name ->
   (forall j q, reg !! j = Some q -> pd_name (desc q) = name -> pd_location_id (desc q) = id) ->
   insert_ready alive reg m !! name = Some (alive id)).
Proof.
  unfold insert_ready. split.
  - intros Hne. apply insert_pools_other. intros p [id Hp]%list_pools_elem. by apply (Hne id).
  - intros id p Hp Hn Hu. apply insert_pools_here.
    + exists p. split; [apply list_pools_elem; by exists id|done].
    + intros q [j Hq]%list_pools_elem. by apply (Hu j).
Qed.

(** The live connections of a pool. *)
Definition ready (c : Connections) (f : Family) (id : Z) : Z :=
  match f with H1Tcp | H1Tls | H1Uds => h1_ready c f id | H2Tcp | H2Tls | H2Uds => h2_ready c f id end.

(** The table of upstream connections has an entry of its own for every
    pool.  Whatever configurations were loaded, requests served and pools
    drained before: no two pools of the six registries have the same name, and
    under its name each one is listed with the number of its live
    connections, whatever the client pools over SSH have put there. *)
Theorem every_pool_has_its_entry (first_id : Z) (es : list Event) (c : Connections) (over_ssh : gmap bytes Z)
    (f : Family) (id : Z) (p : SomePool) :
  let ps := ContentSource.pools (fold_left (run_event default_h2_livness_url get_ssh_session) es (start first_id)) in
  (forall g j q, pool_at g j ps = Some q -> 0 <= j < 2 ^ 63) -> pool_at f id ps = Some p ->
  (forall g j q, pool_at g j ps = Some q -> pd_name (some_desc q) = pd_name (some_desc p) -> g = f /\ j = id) /\
  collect_remote_connections ps c over_ssh !! pd_name (some_desc p) = Some (ready c f id).
Proof.
  intros ps Hrange Hp. assert (forall g j q, pool_at g j ps = Some q -> named g j (pd_name (some_desc q))) as Hnamed
    by (intros; by eapply pools_are_named).
  assert (forall g j q, pool_at g j ps = Some q -> pd_name (some_desc q) = pd_name (some_desc p) -> g = f /\ j = id) as Huniq.
  { intros g j q Hq E. pose proof (Hnamed _ _ _ Hq) as Hnq. rewrite E in Hnq.
    eapply (named_inj g f j id); [by eapply Hrange|by eapply Hrange|exact Hnq|by apply Hnamed]. }
  split; [exact Huniq|].
  pose proof (reachable_pools default_h2_livness_url get_ssh_session first_id es) as [_ _ Hinv]. fold ps in Hinv.
  assert (forall g j q, pool_at g j ps = Some q -> pd_location_id (some_desc q) = j) as Hkey.
  { intros g j q Hq. by apply Hinv in Hq as [? _]. }
  assert (forall P (reg : gmap Z (Pool P)) (mk : Pool P -> SomePool) g, (forall x, some_desc (mk x) = desc x) ->
    (forall j, pool_at g j ps = mk <$> reg !! j) -> forall alive m,
    insert_ready alive reg m !! pd_name (some_desc p) = if decide (g = f) then Some (alive id) else m !! pd_name (some_desc p)) as Hreg.
  { intros P reg mk g Hmk Hat alive m. destruct (insert_ready_spec alive reg m (pd_name (some_desc p))) as [Hother Hhere].
    assert (forall j q, reg !! j = Some q -> pool_at g j ps = Some (mk q)) as Hin by (intros j q Hq; by rewrite Hat, Hq).
    case_decide as Hgf; [subst g|].
    - rewrite Hat in Hp. apply fmap_Some in Hp as (q & Hq & ->). rewrite Hmk in *. eapply Hhere; [exact Hq|done|].
      intros j r Hr E. destruct (Huniq f j (mk r)) as [_ ->]; [by apply Hin|by rewrite Hmk|]. rewrite <-Hmk. by apply (Hkey f), Hin.
    - apply Hother. intros j q Hq E. apply Hgf, (Huniq g j (mk q)); [by apply Hin|by rewrite Hmk]. }
  unfold collect_remote_connections.
  rewrite (Hreg _ _ PoolH2 H2Uds), (Hreg _ _ PoolH2 H2Tls), (Hreg _ _ PoolH2 H2Tcp), (Hreg _ _ PoolH1 H1Uds),
    (Hreg _ _ PoolH1 H1Tls), (Hreg _ _ PoolH1 H1Tcp) by done.
  by destruct f.
Qed.

End Entries.

(** ** Witnesses *)

#[local] Existing Instance Config.text_endpoints.
#[local] Existing Instance Content.demo_files.
#[local] Existing Instance Certificates.demo_tls.
#[local] Existing Instance Listeners.demo_rustls.
#[local] Existing Instance Sources.demo_sources.

#[local] Instance demo_report : ReportLibs :=
  {| to_rfc3339 := Str.int_to_string; positive_secs_since := fun now last => Z.max 0 ((now - last) / 1000000) |}.

Definition demo_connections : Connections :=
  {| h1_state := fun _ _ =>
       {| h1 := {| H1Pool.entries := [H1Pool.entry_new 0; H1Pool.set_dead true (H1Pool.entry_new 1)]; H1Pool.next := 0;
                   H1Pool.shutdown := false; H1Pool.live_disposables := 0; H1Pool.DISPOSABLE_COUNTER := 0;
                   H1Pool.fresh_client := 2; H1Pool.tasks := ∅; H1Pool.leaked_rents := []; H1Pool.leaked_slots := 0 |};
          h1_last_success := fun _ => 0; h1_last_status := Upstream.Ok |};
     h2_state := fun _ _ =>
       {| h2 := {| H2Pool.clients := []; H2Pool.entries := []; H2Pool.next := 0; H2Pool.shutdown := false;
                   H2Pool.top_up_pending := false; H2Pool.fresh_client := 0; H2Pool.lost := []; H2Pool.now := 0;
                   H2Pool.tasks := []; H2Pool.dials := [] |}; h2_last_status := Upstream.Unknown |};
     DISPOSABLE_COUNTER := 0 |}.

Definition demo_events : list Event := [ContentSource.Compile (demo_source 5); Serve 0 false 0; ContentSource.Compile (demo_source 7)].

Lemma every_pool_has_its_entry_witness :
  let ps := ContentSource.pools (fold_left (run_event None (fun _ => true)) demo_events (start 1)) in
  collect_remote_connections ps demo_connections ∅ !! bs "h1://h:80#1" = Some 1.
Proof.
  intros ps.
  assert (ps = {| h1_tcp_pools := {[ 1 := demo_pool ]}; h1_tls_pools := ∅; h1_uds_pools := ∅; h2_tcp_pools := ∅;
                  h2_tls_pools := ∅; h2_uds_pools := ∅ |}) as Hps by (vm_compute; reflexivity).
  refine (proj2 (every_pool_has_its_entry None (fun _ => true) 1 demo_events demo_connections ∅ H1Tcp 1 (PoolH1 demo_pool) _ _)).
  - fold ps. rewrite Hps. intros [] j q; cbn; rewrite ?lookup_empty; try discriminate.
    destruct (decide (j = 1)) as [->|Hj]; [lia|]. rewrite lookup_singleton_ne by congruence. discriminate.
  - fold ps. rewrite Hps. vm_compute. reflexivity.
Defined.

Definition demo_configuration : Compile.AppConfigurationInner :=
  {| Compile.listen := {| Config.listen_tcp_endpoints := {[ 443 := Config.ListenHttp (Certificates.demo_port Config.LHttps1 None) ]};
                          Config.listen_unix_socket_endpoints := ∅ |};
     Compile.google_auth_credentials := ∅; Compile.oauth_credentials := ∅; Compile.white_list_ip_list := ∅;
     Compile.error_configurations := ∅ |}.

Definition demo_sight : Sight :=
  {| pools := no_pools; connections := demo_connections; debug_flags := Logs.no_flags; metrics := Live.metrics Live.start;
     resolved_domain_ips := ∅ |}.

(** Nothing is loaded: the endpoint of the example is flagged, and its clients
    are cut off. *)
Lemma missing_certificates_are_flagged_witness (cut := Listeners.lazy_accept_tcp_stream Listeners.demo_certificate
    Certificates.no_certificates (Certificates.demo_port Config.LHttps1 None) 443) :
  exists p m, p ∈ ports (new (fun _ => []) (fun _ => []) demo_sight demo_configuration ∅ [] (fun a b => (a - b) / 1000000) 0 ∅ None []) /\
    pm_port p = 443 /\ m ∈ pm_endpoints p /\ em_host m = bs "api.a.b:443" /\
    (ssl_cert_missing m = true -> exists message,
       cut false Listeners.demo_peer =
         inl (Listeners.CertificateNotAvailable (bs "api.a.b:443") message)).
Proof.
  destruct (missing_certificates_are_flagged (fun _ => []) (fun _ => []) Listeners.demo_certificate
    demo_sight demo_configuration ∅ Certificates.no_certificates [] (fun a b => (a - b) / 1000000) 0 ∅ None [] 443
    (Certificates.demo_port Config.LHttps1 None) (bs "api.a.b") (Certificates.demo_endpoint Config.LHttps1 None))
    as (p & m & Hp & Hport & _ & Hm & Hhost & Hcut & _).
  - assert (map_to_list (Certificates.ssl_certs Certificates.no_certificates) = []) as -> by apply map_to_list_empty.
    apply Permutation_refl.
  - apply list_elem_of_In. left. reflexivity.
  - vm_compute. reflexivity.
  - exists p, m. split; [exact Hp|]. split; [exact Hport|]. split; [exact Hm|]. split; [exact Hhost|].
    intros Hmissing. apply (Hcut Hmissing); reflexivity.
Defined.

End CurrentConfiguration.
