(* ===== verification/AdminSettings.v ===== *)
(** * Settings over MCP

    The tools with which the settings are looked at, replaced and applied:
    [mcp/get_settings_tool_call.rs], [mcp/get_applied_settings_tool_call.rs],
    [mcp/get_dynamic_settings_tool_call.rs],
    [mcp/set_dynamic_settings_tool_call.rs], [mcp/reload_settings_tool_call.rs],
    [mcp/get_ssl_endpoints_status_tool_call.rs],
    [mcp/get_ssl_certificate_tool_call.rs],
    [mcp/init_ssl_certificate_tool_call.rs], as functions on the state of the
    application of [Compile]. *)

From Stdlib Require Import ZArith Lia Strings.String Strings.Byte.
From stdpp Require Import base tactics list gmap strings sorting.
From S2P Require Import Prelude RustStd H1Headers H1Rewrite ProxyPassConfig OAuthTokens SigningKey OAuthServer GoogleAuth LocalContent Settings SourceFiles Certificates Listeners Compile CompileSpec AdminState.

Local Open Scope Z_scope.

Module AdminSettings.
Import Settings.

(** ** The order of texts: [Ord for String] *)

Fixpoint bytes_leb (a b : bytes) : bool :=
  match a, b with
  | [], _ => true
  | _ :: _, [] => false
  | x :: a, y :: b => (u8 x <? u8 y) || (u8 x =? u8 y) && bytes_leb a b
  end.

Definition bytes_le (a b : bytes) : Prop := bytes_leb a b = true.
#[global] Instance bytes_le_dec : RelDecision bytes_le.
Proof. intros a b. unfold bytes_le. apply _. Defined.

#[global] Instance bytes_le_trans : Transitive bytes_le.
Proof.
  intros a b c. unfold bytes_le. revert b c. induction a as [|x a IH]; intros b c; [done|].
  destruct b as [|y b]; [done|]. destruct c as [|z c]; [done|]. cbn.
  rewrite !orb_true_iff, !andb_true_iff, !Z.ltb_lt, !Z.eqb_eq. intros [?|[? Hab]] [?|[? Hbc]]; try (left; lia).
  right. split; [lia|]. by eapply IH.
Qed.

#[global] Instance bytes_le_total : Total bytes_le.
Proof.
  intros a. unfold bytes_le. induction a as [|x a IH]; intros b; [by left|]. destruct b as [|y b]; [by right|]. cbn.
  rewrite !orb_true_iff, !andb_true_iff, !Z.ltb_lt, !Z.eqb_eq. destruct (Z.lt_trichotomy (u8 x) (u8 y)) as [|[E|]].
  - by left; left.
  - destruct (IH b); [left; right|right; right]; (split; [by rewrite E|done]).
  - by right; left.
Qed.

#[global] Instance bytes_le_anti : AntiSymm (=) bytes_le.
Proof.
  intros a. unfold bytes_le. induction a as [|x a IH]; intros [|y b]; try done. cbn.
  rewrite !orb_true_iff, !andb_true_iff, !Z.ltb_lt, !Z.eqb_eq. intros [?|[E Hab]] [?|[E2 Hba]]; try lia.
  f_equal; [by apply u8_inj|by apply IH].
Qed.

(** [out.sort()], and [sort_by] on the names, which keeps the order of items
    with one name. *)
Definition sorted_keys (keys : list bytes) : list bytes := merge_sort bytes_le keys.

Definition by_name {A} (name : A -> bytes) (a b : A) : Prop := bytes_le (name a) (name b).
#[global] Instance by_name_dec {A} (name : A -> bytes) : RelDecision (by_name name).
Proof. intros a b. unfold by_name. apply _. Defined.

(** ** The answers *)

Record ConfigurationErrorEntry := { err_host_id : bytes; err_text : bytes }.

Record LocationSettingsSummary := {
  sum_path : bytes;
  sum_proxy_pass_to : bytes;
  sum_location_type : bytes;
  sum_loc_whitelisted_ip : bytes
}.

Record HostSettingsSummary := {
  host_id : bytes;
  sum_endpoint_type : bytes;
  sum_debug : bool;
  sum_ssl_certificate : bytes;
  sum_client_certificate_ca : bytes;
  sum_google_auth : bytes;
  sum_template_id : bytes;
  sum_allowed_users : bytes;
  sum_whitelisted_ip : bytes;
  sum_hsts : bool;
  sum_locations : list LocationSettingsSummary
}.

Record GlobalSettingsSummary := {
  sum_http_control_port : Z;
  sum_default_h2_livness_url : bytes;
  sum_show_error_description : bool
}.

Record GatewayServerSummary := { sum_port : Z; sum_gateway_debug : bool; authorized_keys_count : Z }.

Record GetSettingsResponse := {
  settings_file : bytes;
  global : GlobalSettingsSummary;
  sum_hosts : list HostSettingsSummary;
  ssh_ids : list bytes;
  ssl_certificate_ids : list bytes;
  client_certificate_ca_ids : list bytes;
  g_auth_ids : list bytes;
  endpoint_template_ids : list bytes;
  allowed_users_list_ids : list bytes;
  ip_white_list_ids : list bytes;
  sum_gateway_server : option GatewayServerSummary;
  gateway_client_ids : list bytes;
  current_configuration_errors : list ConfigurationErrorEntry
}.

Definition or_empty (o : option bytes) : bytes := default [] o.

Definition location_summary (loc : LocationSettings) : LocationSettingsSummary :=
  {| sum_path := or_empty (loc_path loc); sum_proxy_pass_to := or_empty (loc_proxy_pass_to loc);
     sum_location_type := or_empty (location_type loc); sum_loc_whitelisted_ip := or_empty (loc_whitelisted_ip loc) |}.

Definition host_summary (x : bytes * HostSettings) : HostSettingsSummary :=
  let e := endpoint (snd x) in
  {| host_id := fst x; sum_endpoint_type := endpoint_type e; sum_debug := default false (debug e);
     sum_ssl_certificate := or_empty (ssl_certificate e); sum_client_certificate_ca := or_empty (client_certificate_ca e);
     sum_google_auth := or_empty (google_auth e); sum_template_id := or_empty (template_id e);
     sum_allowed_users := or_empty (allowed_users e); sum_whitelisted_ip := or_empty (whitelisted_ip e);
     sum_hsts := default false (hsts e); sum_locations := map location_summary (locations (snd x)) |}.

(** [build_settings_summary]; [iter] is the order the maps are walked in. *)
Definition build_settings_summary (iter : forall A, gmap bytes A -> list (bytes * A)) (settings : SettingsCompiled)
    (settings_file : bytes) (current_configuration_errors : list ConfigurationErrorEntry) : GetSettingsResponse :=
  let keys {A} (m : gmap bytes A) := sorted_keys (map fst (iter A m)) in
  {| settings_file := settings_file;
     global := {| sum_http_control_port := default (-1) (get_http_control_port settings);
                  sum_default_h2_livness_url := or_empty (get_default_h2_livness_url settings);
                  sum_show_error_description := get_show_error_description_on_error_page settings |};
     sum_hosts := merge_sort (by_name host_id) (map host_summary (iter _ (hosts settings)));
     ssh_ids := keys (ssh settings);
     ssl_certificate_ids := map ssl_id (ssl_certificates settings);
     client_certificate_ca_ids := map ca_id (client_certificate_cas settings);
     g_auth_ids := keys (g_auth settings);
     endpoint_template_ids := keys (endpoint_templates settings);
     allowed_users_list_ids := keys (users_lists settings);
     ip_white_list_ids := keys (ip_white_lists settings);
     sum_gateway_server :=
       (fun g => {| sum_port := gs_port g; sum_gateway_debug := default false (gs_debug g);
                    authorized_keys_count := Z.of_nat (length (authorized_keys g)) |}) <$> gateway_server settings;
     gateway_client_ids := keys (gateway_clients settings);
     current_configuration_errors := current_configuration_errors |}.
(** ** The tools *)

Section Tools.
Context `{RemoteEndpointLib} `{!SourceLibs} `{TlsLibs} `{FileLibs} `{OAuthLibs} `{KeyFileJson} `{GoogleLibs}.
Context `{RewriteLibs} `{SettingsYaml} `{ReportLibs}.
Context (oc : bool) (iter : forall A, gmap bytes A -> list (bytes * A)).
Context (iter_tcp : gmap Z Listeners.ListenServer -> list Z).
Context (tcp_events : Z -> list Listeners.LoopEvent) (unix_events : bytes -> list Listeners.LoopEvent).
Context (iter_ports : gmap Z Config.ListenConfiguration -> list Z).
#[local] Abbreviation M := Compile.M.
#[local] Abbreviation App := Compile.App.
#[local] Abbreviation Done := Compile.Done.
#[local] Abbreviation Hangs := Compile.Hangs.

Definition disk_of (a : App) : gmap bytes bytes := Sources.disk (Compile.world a).
Definition set_disk (d : gmap bytes bytes) (a : App) : App :=
  let w := Compile.world a in
  Compile.set_world
    {| Sources.disk := d; Sources.read_error := Sources.read_error w; Sources.write_failure := Sources.write_failure w;
       Sources.random := Sources.random w; Sources.drawn := Sources.drawn w; Sources.http_get := Sources.http_get w;
       Sources.ssh_download := Sources.ssh_download w |} a.

Definition read_settings (a : App) (path : bytes) : option bytes :=
  match Sources.fs_read_file (Compile.world a) path with inr content => Some content | inl _ => None end.

(** The main file and the files it includes, as [load_settings] reads them. *)
Definition load_main (a : App) : outcome bytes SettingsModel :=
  Settings.load format_path (read_settings a) yaml_from_slice None.
Definition load_files (a : App) : outcome bytes (list SettingsModel) :=
  settings_model ← load_main a;
  include_settings ← Settings.load_includes format_path (read_settings a)
    (fun path => bool_decide (is_Some (disk_of a !! path))) yaml_from_slice settings_model;
  Ok (settings_model :: include_settings).

(** [resolve_dynamic_configurations_file_path] *)
Definition dynamic_path (a : App) : outcome bytes bytes :=
  settings_model ← load_main a;
  dynamic_file ← ok_or (sm_dynamic_configurations_file settings_model)
    (bs "dynamic_configurations_file is not configured in the main settings");
  Ok (format_path dynamic_file).

Definition resolve_dynamic_configurations_file_path : M bytes := fun a => (a, Done (dynamic_path a)).

(** [get_dynamic_settings]: the path, whether the file is there, its text. *)
Definition get_dynamic_settings : M (bytes * bool * bytes) :=
  path ← resolve_dynamic_configurations_file_path;
  Compile.gets (fun a =>
    match Sources.fs_read_file (Compile.world a) path with
    | inr content => (path, true, Utf8.from_utf8_lossy content)
    | inl _ => (path, false, [])
    end).

(** [tokio::fs::write] replaces the content in place: it may fail before it has
    opened the file, or in the middle. *)
Definition fs_write (path content : bytes) : M unit := fun a =>
  let failed err := Done (Err (bs "Failed to write dynamic settings file " ++ path ++ bs ": " ++ err)) in
  match Sources.write_failure (Compile.world a) path with
  | Some (SigningKey.FolderFails err) => (a, failed err)
  | Some (SigningKey.WriteFails n err) => (set_disk (<[path := take n content]> (disk_of a)) a, failed err)
  | Some (SigningKey.RenameFails _) | None => (set_disk (<[path := content]> (disk_of a)) a, Done (Ok tt))
  end.

(** [set_dynamic_settings]: the path and the number of bytes. *)
Definition set_dynamic_settings (content : bytes) : M (bytes * Z) :=
  path ← resolve_dynamic_configurations_file_path;
  _ ← Compile.lift (map_err (fun err => bs "Invalid settings YAML, nothing written. Err: " ++ err) (yaml_from_slice content));
  let bytes_written := Z.of_nat (length content) in
  _ ← fs_write path content;
  mret (path, bytes_written).

(** [reload_settings] *)
Record ReloadSettingsResponse := { ok : bool; error : bytes; hosts_loaded : Z; reload_errors : list ConfigurationErrorEntry }.

Definition count_hosts (listen : Config.ListenConfiguration) : Z :=
  match listen with
  | Config.ListenHttp http | Config.ListenMcp http => Z.of_nat (length (Config.endpoints http))
  | Config.ListenTcpForward _ => 1
  end.

Definition sum_hosts_of (l : list Config.ListenConfiguration) : Z := fold_right Z.add 0 (map count_hosts l).

(** The errors are a [BTreeMap], which is walked in the order of its keys. *)
Definition error_entries (errors : gmap bytes bytes) : list ConfigurationErrorEntry :=
  map (fun x => {| err_host_id := fst x; err_text := snd x |}) (merge_sort (by_name fst) (map_to_list errors)).

Definition load_current_configuration_errors (a : App) : list ConfigurationErrorEntry :=
  error_entries (Compile.error_configurations (Compile.current_configuration a)).

Definition reload_settings : M ReloadSettingsResponse :=
  r ← Compile.catch (Compile.run_flow oc iter iter_tcp tcp_events unix_events iter_ports Compile.LoadEverythingFromSettings);
  Compile.gets (fun a =>
    let listen := Compile.listen (Compile.current_configuration a) in
    {| ok := match r with inr _ => true | inl _ => false end;
       error := match r with inr _ => [] | inl err => err end;
       hosts_loaded := sum_hosts_of (map snd (map_to_list (Config.listen_tcp_endpoints listen))) +
                       sum_hosts_of (map snd (map_to_list (Config.listen_unix_socket_endpoints listen)));
       reload_errors := load_current_configuration_errors a |}).

(** [get_settings] and [get_applied_settings] *)
Definition resolve_settings_file_path : bytes :=
  match env_var (bs "HOME") with
  | Some home => home ++ bs "/.my-reverse-proxy"
  | None => bs ".my-reverse-proxy"
  end.

Definition get_settings : M GetSettingsResponse :=
  settings ← Compile.load_settings iter;
  Compile.gets (fun a => build_settings_summary iter settings resolve_settings_file_path (load_current_configuration_errors a)).

Definition get_applied_settings : M GetSettingsResponse :=
  applied ← (fun a => (a, Done (ok_or (Compile.applied_settings a) (bs "No settings have been applied yet"))));
  Compile.gets (fun a => build_settings_summary iter applied resolve_settings_file_path (load_current_configuration_errors a)).

(** ** Certificates *)

Record SslEndpointStatusEntry := {
  st_endpoint_host : bytes;
  st_server_name : bytes;
  st_cert_id : bytes;
  st_status : bytes;
  needs_new_certificate : bool;
  st_cn : bytes;
  st_expires : bytes;
  st_days_to_expire : Z
}.

(** [SslCertStatus::as_str] *)
Definition status_as_str (s : Certificates.SslCertStatus) : bytes :=
  match s with
  | Certificates.Missing => bs "missing" | Certificates.Expired => bs "expired"
  | Certificates.ExpiringSoon => bs "expiring_soon" | Certificates.StatusOk => bs "ok"
  end.

Definition status_entry (s : Certificates.SslEndpointCertStatus) : SslEndpointStatusEntry :=
  {| st_endpoint_host := Certificates.endpoint_host s; st_server_name := or_empty (Certificates.server_name s);
     st_cert_id := Certificates.cert_id s; st_status := status_as_str (Certificates.status s);
     needs_new_certificate := Certificates.needs_attention (Certificates.status s);
     st_cn := or_empty (Certificates.status_cn s); st_expires := default [] (to_rfc3339 <$> Certificates.status_expires s);
     st_days_to_expire := default 0 (Certificates.days_to_expire s) |}.

(** [get_ssl_endpoints_status]: the entries, how many, and how many need a new
    certificate. *)
Definition get_ssl_endpoints_status (now : Z) (a : App) : list SslEndpointStatusEntry * Z * Z :=
  let listen := Compile.listen (Compile.current_configuration a) in
  let statuses := Certificates.get_ssl_endpoints_status
    (map snd (map_to_list (Config.listen_tcp_endpoints listen)) ++
     map snd (map_to_list (Config.listen_unix_socket_endpoints listen))) now (Compile.ssl_certificates_cache a) in
  let endpoints := map status_entry statuses in
  (endpoints, Z.of_nat (length endpoints),
   fold_left (fun n s => if Certificates.needs_attention (Certificates.status s) then n + 1 else n) statuses 0).

Record GetSslCertificateResponse := {
  found : bool;
  res_cert_id : bytes;
  res_cn : bytes;
  res_expires : bytes;
  res_origin : bytes;
  res_domains : list bytes
}.

Definition get_ssl_certificate (cert_id : bytes) (a : App) : GetSslCertificateResponse :=
  match Certificates.get_ssl_certificate_details cert_id (Compile.ssl_certificates_cache a) with
  | Some details =>
      {| found := true; res_cert_id := Certificates.details_id details;
         res_cn := Certificates.cn (Certificates.details_info details);
         res_expires := to_rfc3339 (Certificates.expires (Certificates.details_info details));
         res_origin := Certificates.details_origin details; res_domains := Certificates.details_domains details |}
  | None =>
      {| found := false; res_cert_id := Str.trim cert_id; res_cn := []; res_expires := []; res_origin := []; res_domains := [] |}
  end.

Record InitSslCertificateResponse := {
  init_cert_id : bytes;
  init_cn : bytes;
  init_expires : bytes;
  init_covered_domains : list bytes;
  init_validated_sni : list bytes
}.

Definition init_ssl_certificate (now : Z) (cert_id certificate private_key : bytes) : M InitSslCertificateResponse := fun a =>
  let listen := Compile.listen (Compile.current_configuration a) in
  let listened := map snd (map_to_list (Config.listen_tcp_endpoints listen)) ++
                  map snd (map_to_list (Config.listen_unix_socket_endpoints listen)) in
  match Certificates.init_ssl_cert_manually listened now cert_id certificate private_key (Compile.ssl_certificates_cache a) with
  | Ok (result, cache) =>
      (Compile.set_certificates cache a,
       Done (Ok {| init_cert_id := Certificates.init_cert_id result; init_cn := Certificates.cn (Certificates.init_info result);
                   init_expires := to_rfc3339 (Certificates.expires (Certificates.init_info result));
                   init_covered_domains := Certificates.covered_domains result;
                   init_validated_sni := Certificates.validated_sni result |}))
  | Err err => (a, Done (Err err))
  | Panic => (a, Done Panic)
  end.

(** [init_ssl_certificate_from_pem_action.rs]: the same upload with base64 of
    the texts. *)
Definition without_whitespace (value : bytes) : bytes :=
  match Utf8.chars value with
  | Some cs => concat (filter (fun c => Utf8.is_whitespace c = false) cs)
  | None => value
  end.

Definition decode_base64_pem (value field : bytes) : outcome bytes bytes :=
  let value := without_whitespace value in
  if decide (value = []) then Err (bs "'" ++ field ++ bs "' must not be empty")
  else
    map_err (fun err =>
      let hint := if decide (Byte.x5c ∈ value) then bs " - send the base64 as a single line, without line breaks" else [] in
      bs "'" ++ field ++ bs "' is not a valid base64 of the PEM text: " ++ err ++ hint) (STANDARD_decode value).

Definition init_ssl_certificate_from_pem (now : Z) (cert_id cert private_key : bytes) : M InitSslCertificateResponse :=
  cert_pem ← Compile.lift (decode_base64_pem cert (bs "cert"));
  private_key_pem ← Compile.lift (decode_base64_pem private_key (bs "private_key"));
  init_ssl_certificate now (Str.trim cert_id) cert_pem private_key_pem.

(** Where lines are broken makes no difference. *)
Lemma line_breaks_are_ignored (lines : list bytes) (field : bytes) :
  Forall (Forall (fun b => Str.is_graphic b = true)) lines ->
  decode_base64_pem (concat (map (fun l => l ++ [Byte.x0d; Byte.x0a]) lines)) field = decode_base64_pem (concat lines) field.
Proof.
  intros Hl. unfold decode_base64_pem.
  assert (forall l, Forall (fun b => Str.is_graphic b = true) l ->
    filter (fun c => Utf8.is_whitespace c = false) (map (fun b => [b]) l) = map (fun b => [b]) l) as Hkeep.
  { intros l. induction 1 as [|b l Hb _ IH]; [done|]. cbn [map]. rewrite filter_cons, decide_True by (by apply Str.graphic_not_ws).
    by rewrite IH. }
  assert (exists cs1 cs2, Utf8.chars (concat (map (fun l => l ++ [Byte.x0d; Byte.x0a]) lines)) = Some cs1 /\
    Utf8.chars (concat lines) = Some cs2 /\
    filter (fun c => Utf8.is_whitespace c = false) cs1 = filter (fun c => Utf8.is_whitespace c = false) cs2)
    as (cs1 & cs2 & Hc1 & Hc2 & E).
  { induction Hl as [|l lines Hg _ (cs1 & cs2 & Hc1 & Hc2 & E)]; [by exists [], []|]. cbn [map concat].
    exists (map (fun b => [b]) l ++ [[Byte.x0d]; [Byte.x0a]] ++ cs1), (map (fun b => [b]) l ++ cs2). split_and!.
    - rewrite <-app_assoc. rewrite (Utf8.chars_app _ _ _ (Str.graphic_chars _ Hg)).
      by rewrite (Utf8.chars_app [Byte.x0d; Byte.x0a] _ [[Byte.x0d]; [Byte.x0a]] eq_refl), Hc1.
    - by rewrite (Utf8.chars_app _ _ _ (Str.graphic_chars _ Hg)), Hc2.
    - by rewrite !filter_app, E, Hkeep. }
  unfold without_whitespace. by rewrite Hc1, Hc2, E.
Qed.

(** ** Reading after a write *)

Definition main_path : option bytes := (fun home => home ++ bs "/.my-reverse-proxy") <$> env_var (bs "HOME").

Lemma read_after_write a path content q :
  read_settings (set_disk (<[path := content]> (disk_of a)) a) q =
    match Sources.read_error (Compile.world a) q with
    | Some _ => None
    | None => if decide (q = path) then Some content else disk_of a !! q
    end.
Proof.
  unfold read_settings, Sources.fs_read_file, set_disk. cbn. destruct (Sources.read_error _ q); [done|].
  case_decide as E; [subst; by rewrite lookup_insert_eq|]. rewrite lookup_insert_ne by congruence.
  fold (disk_of a). by destruct (disk_of a !! q).
Qed.

Lemma read_settings_eq a q :
  read_settings a q = match Sources.read_error (Compile.world a) q with Some _ => None | None => disk_of a !! q end.
Proof. unfold read_settings, Sources.fs_read_file, disk_of. destruct (Sources.read_error _ q); [done|]. by destruct (_ !! q). Qed.

(** A file that could be read can be read after the write, and what the write
    left is what is read from its path. *)
Lemma load_after_write a path content m file x :
  yaml_from_slice content = Ok m ->
  Settings.load format_path (read_settings a) yaml_from_slice (Some file) = Ok x ->
  exists y, Settings.load format_path (read_settings (set_disk (<[path := content]> (disk_of a)) a)) yaml_from_slice (Some file) = Ok y.
Proof.
  intros Hm. unfold Settings.load. cbn. rewrite read_after_write, read_settings_eq.
  destruct (Sources.read_error _ _); [done|]. case_decide as E; [|eauto]. intros _. rewrite Hm. cbn. eauto.
Qed.

Lemma load_main_after_write a path content :
  main_path <> Some path -> load_main (set_disk (<[path := content]> (disk_of a)) a) = load_main a.
Proof.
  unfold load_main, main_path, Settings.load. destruct (env_var (bs "HOME")) as [home|]; cbn; [|done]. intros Hne.
  rewrite read_after_write, read_settings_eq. destruct (Sources.read_error _ _); [done|]. case_decide; [|done]. congruence.
Qed.

Lemma populate_vec_grows {A B} (f g : A -> outcome bytes B) l r :
  (forall x y, f x = Ok y -> exists z, g x = Ok z) -> Settings.populate_vec f l = Ok r ->
  exists r', Settings.populate_vec g l = Ok r'.
Proof.
  intros Hfg. revert r. induction l as [|x l IH]; intros r; cbn; [eauto|].
  destruct (f x) as [y| |] eqn:Hx; cbn; [|done..]. destruct (Settings.populate_vec f l) as [ys| |]; cbn; [|done..]. intros _.
  destruct (Hfg _ _ Hx) as [z ->]. cbn. destruct (IH ys eq_refl) as [r' ->]. cbn. eauto.
Qed.

(** After the write the settings can be read if they could be before, and the
    last of their files is what was written. *)
Lemma files_after_write a path content m :
  main_path <> Some path -> Sources.read_error (Compile.world a) path = None -> dynamic_path a = Ok path ->
  yaml_from_slice content = Ok m ->
  is_ok (load_files a) = true ->
  exists files, load_files (set_disk (<[path := content]> (disk_of a)) a) = Ok files /\ last files = Some m.
Proof.
  intros Hmain Herr Hpath Hm. unfold load_files. rewrite (load_main_after_write a path content Hmain).
  unfold dynamic_path in Hpath. destruct (load_main a) as [sm| |]; cbn [mbind outcome_bind] in Hpath |- *; [|done..].
  destruct (sm_dynamic_configurations_file sm) as [dynamic_file|] eqn:Hdyn; [|done]. cbn in Hpath. injection Hpath as <-.
  unfold Settings.load_includes. rewrite Hdyn.
  destruct (Settings.populate_vec _ (default [] (sm_include sm))) as [inc| |] eqn:Hinc; cbn [mbind outcome_bind]; [|done..].
  destruct (populate_vec_grows _ (fun f => Settings.load format_path
    (read_settings (set_disk (<[format_path dynamic_file := content]> (disk_of a)) a)) yaml_from_slice (Some f)) _ _
    (fun x y => load_after_write a _ content m x y Hm) Hinc) as [inc' Hinc'].
  assert (Settings.load format_path (read_settings (set_disk (<[format_path dynamic_file := content]> (disk_of a)) a))
            yaml_from_slice (Some dynamic_file) = Ok m) as Hload.
  { unfold Settings.load. cbn. rewrite read_after_write, Herr, decide_True by done. by rewrite Hm. }
  rewrite Hinc'. cbn [mbind outcome_bind]. unfold Settings.dynamic_configurations_file_exists.
  rewrite (bool_decide_true (is_Some (disk_of (set_disk _ a) !! _))) by (cbn; rewrite lookup_insert_eq; eauto).
  rewrite Hload. cbn. intros _. eexists. split; [done|]. by rewrite app_comm_cons, last_snoc.
Qed.

(** What is compiled are these files, the main one first. *)
Lemma load_settings_files a :
  Compile.load_settings iter a =
    (a, Done (files ← load_files a;
              match files with
              | main :: includes => Settings.populate iter main includes
              | [] => Panic
              end)).
Proof.
  unfold Compile.load_settings, Settings.load_settings, load_files, load_main, read_settings, disk_of.
  destruct (Settings.load _ _ _ None); cbn [mbind outcome_bind]; [|done..].
  by destruct (Settings.load_includes _ _ _ _ _).
Qed.

Lemma dynamic_path_after_write a path content :
  main_path <> Some path -> dynamic_path (set_disk (<[path := content]> (disk_of a)) a) = dynamic_path a.
Proof. intros Hmain. unfold dynamic_path. by rewrite load_main_after_write. Qed.

(** C6: What [set_dynamic_settings] does to the settings.  Nothing but the
    disk is ever changed.  A success has put the content, which parses, into
    the configured file and nowhere else: reading it back gives the same text,
    and when the settings could be read before, the next reload reads them too
    and takes the new content as the last of its files.  On an error the disk
    is as before, unless the content did parse and the write itself stopped in
    the middle, which leaves the first bytes of it; the tool never waits for
    ever. *)
Theorem dynamic_settings_are_what_was_set (a a' : App) (content : bytes) (r : Compile.result (bytes * Z))
    (Hrun : set_dynamic_settings content a = (a', r)) :
  a' = set_disk (disk_of a') a /\
  match r with
  | Compile.Done (Ok (path, n)) =>
      n = Z.of_nat (length content) /\ dynamic_path a = Ok path /\ disk_of a' = <[path := content]> (disk_of a) /\
      exists m, yaml_from_slice content = Ok m /\
        (main_path <> Some path -> Sources.read_error (Compile.world a) path = None ->
          (Utf8.valid content = true -> get_dynamic_settings a' = (a', Done (Ok (path, true, content)))) /\
          (is_ok (load_files a) = true -> exists files, load_files a' = Ok files /\ last files = Some m))
  | Compile.Done (Err e) =>
      disk_of a' = disk_of a \/
      exists path n err, is_ok (yaml_from_slice content) = true /\
        Sources.write_failure (Compile.world a) path = Some (SigningKey.WriteFails n err) /\
        disk_of a' = <[path := take n content]> (disk_of a)
  | Compile.Done Panic => a' = a
  | Compile.Hangs => False
  end.
Proof.
  assert (forall d, a = set_disk d a <-> d = disk_of a) as Hsame.
  { intros d. split; [intros E; by apply (f_equal disk_of) in E|]. intros ->. destruct a as [? ? ? ? ? ? [] ? ?]. reflexivity. }
  unfold set_dynamic_settings, resolve_dynamic_configurations_file_path in Hrun.
  unfold mbind at 1, Compile.M_bind at 1 in Hrun. destruct (dynamic_path a) as [path|e|] eqn:Hpath.
  2-3: injection Hrun as <- <-; split; [by apply Hsame|auto].
  unfold mbind at 1, Compile.M_bind at 1, Compile.lift in Hrun.
  destruct (yaml_from_slice content) as [m|e|] eqn:Hm; cbn in Hrun.
  2-3: injection Hrun as <- <-; split; [by apply Hsame|auto].
  unfold mbind, Compile.M_bind, fs_write in Hrun.
  assert (forall d, set_disk d a = set_disk (disk_of (set_disk d a)) a) as Hset by done.
  assert (Hrun' : (a', r) = (set_disk (<[path := content]> (disk_of a)) a, Done (Ok (path, Z.of_nat (length content)))) \/
    (exists e, (a', r) = (a, Done (Err e))) \/
    exists n err e, Sources.write_failure (Compile.world a) path = Some (SigningKey.WriteFails n err) /\
      (a', r) = (set_disk (<[path := take n content]> (disk_of a)) a, Done (Err e))).
  { destruct (Sources.write_failure _ path) as [[err|n err|err]|] eqn:Hf; rewrite <-Hrun; [right; left; eexists; reflexivity| |left; reflexivity..].
    right. right. exists n, err. eexists. split; reflexivity. }
  destruct Hrun' as [[= -> ->]|[[e [= -> ->]]|(n & err & e & Hf & [= -> ->])]].
  - split; [done|]. split_and!; [done|done|done|]. exists m. split; [done|]. intros Hmain Herr. split.
    + intros Hv. unfold get_dynamic_settings, resolve_dynamic_configurations_file_path, mbind, Compile.M_bind.
      rewrite dynamic_path_after_write, Hpath by done. unfold Compile.gets, Sources.fs_read_file. cbn.
      by rewrite Herr, lookup_insert_eq, Utf8.lossy_valid.
    + by apply files_after_write.
  - split; [by apply Hsame|by left].
  - split; [done|]. right. by exists path, n, err.
Qed.

(** ** Reload, and what is shown before and after *)

(** The compilation of the hosts keeps every error in its map. *)
Lemma build_hosts_no_error s l b a a' e :
  Compile.build_hosts oc s l b a <> (a', Done (Err e)).
Proof.
  revert b a. induction l as [|[id host] l IH]; intros b a; cbn [Compile.build_hosts]; [done|].
  destruct (Config.host_string_new id) as [endpoint_host|err|]; [|apply IH|done].
  unfold mbind, Compile.M_bind, Compile.catch. destruct (Compile.compile_host_configuration _ _ _ _ _ _) as [a1 [[c|err|]|]];
    [apply IH|apply IH|done|done].
Qed.

Lemma load_everything_cases s a :
  match Compile.load_everything_from_settings oc iter iter_tcp tcp_events unix_events iter_ports s a with
  | (a', Compile.Done (Ok _)) => Compile.applied_settings a' = Some s
  | (a', Compile.Done (Err _)) => a' = a
  | _ => True
  end.
Proof.
  unfold Compile.load_everything_from_settings. unfold mbind at 1, Compile.M_bind at 1.
  unfold Compile.update_ssh_config_list, Compile.update at 1. destruct (Sources.update_ssh_config_list _ _ _ _); cbn [mbind outcome_bind]; [|done..].
  unfold mbind at 1, Compile.M_bind at 1. destruct (Compile.build_hosts _ _ _ _ _) as [a1 [[built|err|]|]] eqn:Hb;
    [|by apply build_hosts_no_error in Hb|done..].
  unfold mbind, Compile.M_bind, Compile.write, Compile.update. destruct (Compile.sync_endpoints _ _ _ _ _ _) as [a2 [[?|?|]|]] eqn:Hs; try done.
  unfold Compile.sync_endpoints in Hs. destruct (Listeners.sync_endpoints _ _ _ _ _ _ _) as [? []]; discriminate Hs.
Qed.

(** [reload_settings] applies what [get_settings] shows.  The tool itself
    never fails: it answers with the number of hosts and the errors of the
    configuration that is running then.  When it says it failed, nothing at
    all has changed; when it says it succeeded, [get_applied_settings] shows
    from then on exactly what [get_settings] showed before, next to the new
    errors. *)
Theorem reload_applies_what_is_shown (a a' : App) (r : Compile.result ReloadSettingsResponse)
    (Hrun : reload_settings a = (a', r)) :
  match r with
  | Compile.Done (Ok answer) =>
      reload_errors answer = load_current_configuration_errors a' /\
      (ok answer = false -> a' = a) /\
      (ok answer = true -> error answer = [] /\ exists shown applied,
         get_settings a = (a, Done (Ok shown)) /\ get_applied_settings a' = (a', Done (Ok applied)) /\
         settings_file applied = settings_file shown /\ global applied = global shown /\ sum_hosts applied = sum_hosts shown /\
         ssl_certificate_ids applied = ssl_certificate_ids shown /\ g_auth_ids applied = g_auth_ids shown /\
         sum_gateway_server applied = sum_gateway_server shown /\
         current_configuration_errors applied = reload_errors answer)
  | Compile.Done (Err _) => False
  | Compile.Done Panic | Compile.Hangs => True
  end.
Proof.
  unfold reload_settings in Hrun. unfold mbind at 1, Compile.M_bind at 1, Compile.catch in Hrun.
  unfold Compile.run_flow in Hrun. unfold mbind at 1, Compile.M_bind at 1 in Hrun. rewrite load_settings_files in Hrun.
  assert (Hload : Compile.load_settings iter a = Compile.load_settings iter a) by done. rewrite load_settings_files in Hload at 1.
  destruct (files ← load_files a; _) as [s|err|] eqn:Hs in Hrun, Hload.
  2: { unfold Compile.gets in Hrun. injection Hrun as <- <-. cbn. by split_and!. }
  2: { by injection Hrun as <- <-. }
  pose proof (load_everything_cases s a) as Hcases.
  destruct (Compile.load_everything_from_settings _ _ _ _ _ _ s a) as [a1 [[u|err|]|]]; cbn in Hrun;
    injection Hrun as <- <-; [| |done..].
  - cbn. split; [done|]. split; [done|]. intros _. split; [done|]. eexists _, _. split.
    { unfold get_settings, mbind, Compile.M_bind. by rewrite <-Hload. }
    unfold get_applied_settings, mbind, Compile.M_bind. rewrite Hcases. cbn. by split_and!.
  - subst a1. by split_and!.
Qed.

(** ** The answer does not depend on the order of the maps *)

Lemma sorted_keys_permutation l l' : l ≡ₚ l' -> sorted_keys l = sorted_keys l'.
Proof.
  intros Hp. apply (Sorted_unique bytes_le); [apply Sorted_merge_sort, _..|].
  unfold sorted_keys. by rewrite !merge_sort_Permutation.
Qed.

Lemma sorted_by_name_permutation {A} (name : A -> bytes) (l l' : list A) :
  NoDup (map name l) -> l ≡ₚ l' -> merge_sort (by_name name) l = merge_sort (by_name name) l'.
Proof.
  intros Hn Hp. assert (Transitive (by_name name)) by (intros x y z; unfold by_name; apply bytes_le_trans).
  assert (Total (by_name name)) by (intros x y; unfold by_name; apply bytes_le_total).
  apply (Sorted_unique_strong (by_name name)); [|apply Sorted_merge_sort, _..|by rewrite !merge_sort_Permutation].
  intros x y Hx Hy Hxy Hyx. rewrite merge_sort_Permutation in Hx, Hy. rewrite <-Hp in Hy.
  assert (name x = name y) as E by (by apply (anti_symm bytes_le)).
  apply list_elem_of_lookup in Hx as [i Hi]. apply list_elem_of_lookup in Hy as [j Hj].
  assert (i = j) as ->; [|congruence]. apply (NoDup_lookup (map name l) i j (name x)); [done|by rewrite list_lookup_fmap, Hi|].
  by rewrite list_lookup_fmap, Hj, E.
Qed.

(** Two walks through the maps give the same answer, so a difference between
    two answers is one of the settings. *)
Lemma summary_is_canonical (iter1 iter2 : forall A, gmap bytes A -> list (bytes * A)) s file errors :
  (forall A m, iter1 A m ≡ₚ map_to_list m) -> (forall A m, iter2 A m ≡ₚ map_to_list m) ->
  build_settings_summary iter1 s file errors = build_settings_summary iter2 s file errors.
Proof.
  intros H1' H2'. assert (forall A (m : gmap bytes A), iter1 A m ≡ₚ iter2 A m) as Hp by (intros; by rewrite H1', H2').
  assert (forall A (m : gmap bytes A), sorted_keys (map fst (iter1 A m)) = sorted_keys (map fst (iter2 A m))) as Hk.
  { intros A m. apply sorted_keys_permutation. by rewrite Hp. }
  unfold build_settings_summary. rewrite !Hk. f_equal. apply sorted_by_name_permutation; [|by rewrite Hp].
  rewrite map_map. cbn. rewrite H1'. apply NoDup_fst_map_to_list.
Qed.

End Tools.

(** ** Witnesses: a dynamic file next to the main one *)

#[local] Existing Instance Config.text_endpoints.
#[local] Existing Instance Sources.demo_sources.
#[local] Existing Instance Certificates.demo_tls.
#[local] Existing Instance Content.demo_files.
#[local] Existing Instance ToyLibs.toy_libs.
#[local] Existing Instance SigningKey.demo_json.
#[local] Existing Instance Google.demo_google.
#[local] Existing Instance CompileSpec.demo_env.

Definition demo_model (h : gmap bytes HostSettings) : SettingsModel :=
  {| sm_hosts := h; sm_include := None; sm_dynamic_configurations_file := Some (bs "/p/dynamic");
     sm_variables := None; sm_ssl_certificates := None; sm_client_certificate_ca := None; sm_global_settings := None;
     sm_g_auth := None; sm_oauth := None; sm_ssh := None; sm_endpoint_templates := None; sm_allowed_users := None;
     sm_ip_white_lists := Some {[ bs "office" := [bs "10.0.0.1"] ]}; sm_gateway_server := None; sm_gateway_clients := None |}.

(** A syntax of two documents. *)
#[local] Instance demo_yaml : SettingsYaml :=
  {| yaml_from_slice := fun content =>
       if decide (content = bs "none") then Ok (demo_model ∅)
       else if decide (content = bs "one") then Ok (demo_model {[ bs "a.b:8000" := CompileSpec.demo_host ]})
       else Err (bs "no document") |}.

Definition demo_start : Compile.App := Compile.app_new
  {| Sources.disk := {[ bs "/p/.my-reverse-proxy" := bs "none" ]}; Sources.read_error := fun _ => None;
     Sources.write_failure := fun _ => None; Sources.random := fun n => replicate n Byte.x2a; Sources.drawn := 0;
     Sources.http_get := fun _ _ => inl (bs "refused"); Sources.ssh_download := fun _ _ => inl (bs "refused") |}.

Lemma dynamic_settings_are_what_was_set_witness :
  exists m, yaml_from_slice (bs "one") = Ok m /\
    get_dynamic_settings (fst (set_dynamic_settings (bs "one") demo_start)) =
      (fst (set_dynamic_settings (bs "one") demo_start), Compile.Done (Ok (bs "/p/dynamic", true, bs "one"))).
Proof.
  destruct (set_dynamic_settings (bs "one") demo_start) as [a' r] eqn:Hrun.
  assert (r = Compile.Done (Ok (bs "/p/dynamic", 3))) as ->.
  { change r with (snd (a', r)). rewrite <-Hrun. vm_compute. reflexivity. }
  destruct (dynamic_settings_are_what_was_set demo_start a' (bs "one") _ Hrun) as (_ & _ & _ & _ & m & Hm & Hread).
  exists m. split; [exact Hm|]. apply Hread.
  - vm_compute. discriminate.
  - reflexivity.
  - vm_compute. reflexivity.
Defined.

Definition demo_reload (a : Compile.App) : Compile.App * Compile.result ReloadSettingsResponse :=
  reload_settings false (@CompileSpec.in_order) (fun _ => []) (fun _ => []) (fun _ => []) (fun m => map fst (map_to_list m)) a.

Definition answer_of {A} (x : Compile.App * Compile.result A) : option A :=
  match snd x with Compile.Done (Ok answer) => Some answer | _ => None end.

(** The new content is loaded with the next reload, one host more. *)
Lemma reload_applies_what_is_shown_witness :
  let a := fst (set_dynamic_settings (bs "one") demo_start) in
  option_map hosts_loaded (answer_of (demo_reload demo_start)) = Some 0 /\
  option_map hosts_loaded (answer_of (demo_reload a)) = Some 1 /\
  exists shown applied, get_settings (@CompileSpec.in_order) a = (a, Compile.Done (Ok shown)) /\
    get_applied_settings (@CompileSpec.in_order) (fst (demo_reload a)) = (fst (demo_reload a), Compile.Done (Ok applied)) /\
    sum_hosts applied = sum_hosts shown.
Proof.
  cbv zeta. split; [vm_compute; reflexivity|]. split; [vm_compute; reflexivity|].
  assert (option_map ok (answer_of (demo_reload (fst (set_dynamic_settings (bs "one") demo_start)))) = Some true) as Hok
    by (vm_compute; reflexivity).
  destruct (demo_reload (fst (set_dynamic_settings (bs "one") demo_start))) as [a' r] eqn:Hrun.
  pose proof (reload_applies_what_is_shown false (@CompileSpec.in_order) _ _ _ _ _ a' r Hrun) as Hspec.
  destruct r as [[answer|err|]|]; [|discriminate Hok..]. injection Hok as Hok.
  destruct Hspec as (_ & _ & Hyes). destruct (Hyes Hok) as (_ & shown & applied & Hs & Ha & _ & _ & Hh & _).
  exists shown, applied. split; [exact Hs|]. split; [exact Ha|exact Hh].
Defined.

End AdminSettings.
