(* ===== verification/AppServices.v ===== *)
(** * Small services of the application

    The SSH sessions that connections share ([app/ssh_sessions_pool.rs]), the
    key of the sign-in cookies ([app/app_ctx.rs]) and the certificates a
    gateway client asks for ([timers/gateway_sync_certs_timer.rs]). *)

From Stdlib Require Import ZArith Lia Strings.String Strings.Byte.
From stdpp Require Import base tactics list gmap strings.
From S2P Require Import Prelude RustStd ProxyPassConfig SourceFiles Certificates.

Local Open Scope Z_scope.

(** ** [SshSessionsPool] *)

Module SshSessions.

(** [SshSessionUsage]; a session is named by the number of its creation. *)
Record SshSessionUsage := { instance : nat; usage : Z }.

(** The pool, and the handlers that are alive: the printed credentials of the
    session and the session itself. *)
Record State := { data : gmap bytes SshSessionUsage; handlers : gmap nat (bytes * nat); created : nat }.

Definition start : State := {| data := ∅; handlers := ∅; created := 0 |}.

(** [get], with the handler it returns kept as [h]. *)
Definition get (h : nat) (credentials : bytes) (s : State) : State :=
  match data s !! credentials with
  | Some result =>
      {| data := <[credentials := {| instance := instance result; usage := usage result + 1 |}]> (data s);
         handlers := <[h := (credentials, instance result)]> (handlers s); created := created s |}
  | None =>
      {| data := <[credentials := {| instance := created s; usage := 1 |}]> (data s);
         handlers := <[h := (credentials, created s)]> (handlers s); created := S (created s) |}
  end.

Definition connection_is_dropped (credentials : bytes) (data : gmap bytes SshSessionUsage) : gmap bytes SshSessionUsage :=
  match data !! credentials with
  | Some item =>
      let item := {| instance := instance item; usage := usage item - 1 |} in
      if usage item =? 0 then delete credentials data else <[credentials := item]> data
  | None => data
  end.

(** [Drop for SshSessionHandler] *)
Definition drop_handler (h : nat) (s : State) : State :=
  match handlers s !! h with
  | Some (credentials, _) =>
      {| data := connection_is_dropped credentials (data s); handlers := delete h (handlers s); created := created s |}
  | None => s
  end.

Inductive Event := Get (h : nat) (credentials : bytes) | Drop (h : nat).

(** Handlers have names of their own: a [Get] under a name in use is not an
    event. *)
Definition exec (e : Event) (s : State) : State :=
  match e with
  | Get h credentials => match handlers s !! h with None => get h credentials s | Some _ => s end
  | Drop h => drop_handler h s
  end.

Definition run (l : list Event) (s : State) : State := fold_left (fun s e => exec e s) l s.

(** The handlers of some credentials. *)
Definition handlers_of (credentials : bytes) (s : State) : gmap nat (bytes * nat) :=
  filter (fun x => fst (snd x) = credentials) (handlers s).

Record inv (s : State) : Prop := {
  inv_count : forall c, usage <$> data s !! c =
    (let n := Z.of_nat (size (handlers_of c s)) in if n =? 0 then None else Some n);
  inv_instance : forall c u, data s !! c = Some u -> (instance u < created s)%nat /\
    forall h i, handlers s !! h = Some (c, i) -> i = instance u;
  inv_distinct : forall c1 c2 u1 u2, data s !! c1 = Some u1 -> data s !! c2 = Some u2 -> instance u1 = instance u2 -> c1 = c2
}.

Lemma sessions_start_inv : inv start.
Proof. split; cbn; done. Qed.

Lemma size_get h c c' i s :
  handlers s !! h = None ->
  size (filter (fun x : nat * (bytes * nat) => fst (snd x) = c) (<[h := (c', i)]> (handlers s))) =
    (if decide (c = c') then S (size (handlers_of c s)) else size (handlers_of c s)).
Proof.
  intros Hh. unfold handlers_of. case_decide as E.
  - subst c'. rewrite map_filter_insert_True by done. rewrite map_size_insert_None; [done|].
    apply map_lookup_filter_None. by left.
  - rewrite map_filter_insert_False by (cbn; congruence). by rewrite delete_id.
Qed.

Lemma size_drop h c c' i s :
  handlers s !! h = Some (c', i) ->
  size (filter (fun x : nat * (bytes * nat) => fst (snd x) = c) (delete h (handlers s))) =
    (if decide (c = c') then pred (size (handlers_of c s)) else size (handlers_of c s)).
Proof.
  intros Hh. unfold handlers_of. rewrite map_filter_delete. case_decide as E.
  - subst c'. rewrite map_size_delete_Some; [done|]. exists (c, i). by apply map_lookup_filter_Some.
  - rewrite delete_id; [done|]. apply map_lookup_filter_None. right. intros x Hx. simplify_eq. cbn. congruence.
Qed.

Lemma count_pos h c i s : handlers s !! h = Some (c, i) -> (0 < size (handlers_of c s))%nat.
Proof.
  intros Hh. assert (handlers_of c s !! h = Some (c, i)) as Hf by (by apply map_lookup_filter_Some).
  destruct (size (handlers_of c s)) eqn:E; [|lia]. apply map_size_empty_inv in E. rewrite E in Hf. by rewrite lookup_empty in Hf.
Qed.

(** The count of the handlers of [c] decides whether there is an entry. *)
Lemma entry_count s c :
  inv s -> match data s !! c with
           | Some u => usage u = Z.of_nat (size (handlers_of c s)) /\ (0 < size (handlers_of c s))%nat
           | None => size (handlers_of c s) = 0%nat
           end.
Proof.
  intros [Hc _ _]. specialize (Hc c). cbn in Hc. destruct (Z.eqb_spec (Z.of_nat (size (handlers_of c s))) 0) as [E|E];
    destruct (data s !! c); cbn in Hc; simplify_eq; try done; lia.
Qed.

Lemma get_inv h c s : inv s -> handlers s !! h = None -> inv (get h c s).
Proof.
  intros Hinv Hh. pose proof (entry_count s c Hinv) as Hec. destruct Hinv as [Hc Hi Hd]. unfold get.
  destruct (data s !! c) as [u|] eqn:Hu; split; cbn.
  - intros c0. unfold handlers_of. cbn. rewrite size_get by done. case_decide as E; [subst c0|].
    + rewrite lookup_insert_eq. cbn. destruct Hec as [-> ?]. rewrite (proj2 (Z.eqb_neq _ 0)) by lia. f_equal. lia.
    + rewrite lookup_insert_ne by congruence. apply Hc.
  - intros c0 u0. destruct (decide (c0 = c)) as [->|Hne]; [rewrite lookup_insert_eq; intros [= <-]|rewrite lookup_insert_ne by congruence];
      [destruct (Hi _ _ Hu) as [Hlt Hall]|intros Hu0; destruct (Hi _ _ Hu0) as [Hlt Hall]]; (split; [done|]); intros h0 i;
      (destruct (decide (h0 = h)) as [->|]; [rewrite lookup_insert_eq|rewrite lookup_insert_ne by congruence; apply Hall]);
      intros [= <-]; done.
  - intros c1 c2 u1 u2 H1 H2 E.
    assert (forall c0 u0, <[c := {| instance := instance u; usage := usage u + 1 |}]> (data s) !! c0 = Some u0 ->
      exists v, data s !! c0 = Some v /\ instance v = instance u0) as Hold.
    { intros c0 u0 [[-> <-]|[_ ?]]%lookup_insert_Some; eauto. }
    destruct (Hold _ _ H1) as (v1 & Hv1 & E1), (Hold _ _ H2) as (v2 & Hv2 & E2). eapply Hd; [exact Hv1|exact Hv2|congruence].
  - intros c0. unfold handlers_of. cbn. rewrite size_get by done. case_decide as E; [subst c0|].
    + rewrite lookup_insert_eq, Hec. done.
    + rewrite lookup_insert_ne by congruence. apply Hc.
  - intros c0 u0. destruct (decide (c0 = c)) as [->|Hne]; [rewrite lookup_insert_eq; intros [= <-]|rewrite lookup_insert_ne by congruence]; cbn.
    + split; [lia|]. intros h0 i. destruct (decide (h0 = h)) as [->|]; [rewrite lookup_insert_eq; by intros [= <-]|].
      rewrite lookup_insert_ne by congruence. intros Hold%count_pos. lia.
    + intros Hu0. destruct (Hi _ _ Hu0) as [Hlt Hall]. split; [lia|]. intros h0 i.
      destruct (decide (h0 = h)) as [->|]; [rewrite lookup_insert_eq; by intros [= <-]|]. rewrite lookup_insert_ne by congruence. apply Hall.
  - intros c1 c2 u1 u2 [[<- <-]|[Hn1 H1]]%lookup_insert_Some [[<- <-]|[Hn2 H2]]%lookup_insert_Some E; cbn in E; try done.
    + destruct (Hi _ _ H2). lia.
    + destruct (Hi _ _ H1). lia.
    + by eapply Hd.
Qed.

Lemma dropped_entry c data c0 u0 :
  connection_is_dropped c data !! c0 = Some u0 -> exists v, data !! c0 = Some v /\ instance v = instance u0.
Proof.
  unfold connection_is_dropped. destruct (data !! c) as [item|] eqn:Hitem; [|eauto]. case_match.
  - intros [_ ?]%lookup_delete_Some. eauto.
  - intros [[-> <-]|[_ ?]]%lookup_insert_Some; eauto.
Qed.

Lemma drop_handler_inv h s : inv s -> inv (drop_handler h s).
Proof.
  intros Hinv. unfold drop_handler. destruct (handlers s !! h) as [[c i]|] eqn:Hh; [|exact Hinv].
  pose proof (entry_count s c Hinv) as Hec. pose proof (count_pos _ _ _ _ Hh) as Hpos. destruct Hinv as [Hc Hi Hd]. split; cbn.
  - intros c0. unfold handlers_of. cbn. rewrite (size_drop h c0 c i) by done. unfold connection_is_dropped.
    destruct (data s !! c) as [u|] eqn:Hu; [|lia]. destruct Hec as [Huse _]. cbn. rewrite Huse. case_decide as E; [subst c0|].
    + destruct (Z.eqb_spec (Z.of_nat (size (handlers_of c s)) - 1) 0) as [E|E].
      * rewrite lookup_delete_eq. rewrite (proj2 (Z.eqb_eq _ 0)) by lia. done.
      * rewrite lookup_insert_eq. cbn. rewrite (proj2 (Z.eqb_neq _ 0)) by lia. f_equal. lia.
    + etrans; [|apply (Hc c0)]. f_equal. case_match; [apply lookup_delete_ne|apply lookup_insert_ne]; congruence.
  - intros c0 u0 (v & Hv & <-)%dropped_entry. destruct (Hi _ _ Hv) as [Hlt Hall]. split; [done|].
    intros h0 j [_ Hj]%lookup_delete_Some. by eapply Hall.
  - intros c1 c2 u1 u2 (v1 & Hv1 & E1)%dropped_entry (v2 & Hv2 & E2)%dropped_entry E. eapply Hd; [exact Hv1|exact Hv2|congruence].
Qed.

Lemma sessions_run_inv l s : inv s -> inv (run l s).
Proof.
  revert s. induction l as [|e l IH]; intros s Hs; [done|]. cbn. apply IH. destruct e as [h c|h]; cbn.
  - destruct (handlers s !! h) eqn:Hh; [done|by apply get_inv].
  - by apply drop_handler_inv.
Qed.

(** SSH sessions are shared exactly by those who are alive.  Whatever
    connections come and go: there is a session for some printed credentials
    exactly as long as a handler for them is alive, its count of users is the
    number of those handlers, all of them use this one session, and no session
    serves two credentials. *)
Theorem sessions_are_shared_by_the_living (l : list Event) (credentials : bytes) :
  let s := run l start in
  match data s !! credentials with
  | Some u =>
      usage u = Z.of_nat (size (handlers_of credentials s)) /\ 0 < usage u /\
      (forall h i, handlers s !! h = Some (credentials, i) -> i = instance u) /\
      (forall h other, handlers s !! h = Some (other, instance u) -> other = credentials)
  | None => forall h i, handlers s !! h <> Some (credentials, i)
  end.
Proof.
  cbn. pose proof (sessions_run_inv l start sessions_start_inv) as Hinv. pose proof (entry_count _ credentials Hinv) as Hec.
  destruct (data (run l start) !! credentials) as [u|] eqn:Hu.
  - destruct Hec as [Huse Hpos]. split_and!; [done|lia|by apply (inv_instance _ Hinv)|]. intros h other Hh.
    pose proof (entry_count _ other Hinv) as Ho. pose proof (count_pos _ _ _ _ Hh) as Hp.
    destruct (data (run l start) !! other) as [v|] eqn:Hv; [|lia].
    apply (inv_distinct _ Hinv other credentials v u Hv Hu). symmetry. by apply (inv_instance _ Hinv _ _ Hv) in Hh.
  - intros h i Hh%count_pos. lia.
Qed.

End SshSessions.

(** ** The key of the cookies *)

Module TokenKey.

Definition KEY_SIZE : nat := 48.

(** The loop of [get_token_secret_key_from_settings]: [missing] bytes are left
    to push, [key] is what is left to pop; popping from an empty session key
    panics. *)
Fixpoint fill (missing : nat) (session_key key : bytes) : outcome bytes bytes :=
  match missing with
  | O => Ok []
  | S missing =>
      let key := if decide (key = []) then session_key else key in
      b ← unwrap (last key);
      result ← fill missing session_key (take (pred (length key)) key);
      Ok (b :: result)
  end.

Definition get_token_secret_key_from_settings (session_key : bytes) : outcome bytes bytes := fill KEY_SIZE session_key [].

Lemma fill_spec missing session_key n :
  session_key <> [] -> (n <= length session_key)%nat ->
  exists result, fill missing session_key (take n session_key) = Ok result /\ length result = missing /\
    forall i, (i < missing)%nat ->
      result !! i = session_key !! (length session_key - 1 - (i + (length session_key - n)) mod length session_key)%nat.
Proof.
  intros Hne. revert n. assert (0 < length session_key)%nat as Hl by (destruct session_key; cbn; [done|lia]).
  assert (forall k, (0 < k <= length session_key)%nat -> exists b, session_key !! (k - 1)%nat = Some b /\
    last (take k session_key) = Some b /\ take (pred (length (take k session_key))) (take k session_key) = take (k - 1) session_key) as Hpop.
  { intros k Hk. destruct (lookup_lt_is_Some_2 session_key (k - 1)) as [b Hb]; [lia|]. exists b. split; [done|].
    rewrite length_take_le by lia. split; [|rewrite take_take; f_equal; lia].
    rewrite last_lookup, length_take_le, lookup_take_lt by lia. by replace (pred k) with (k - 1)%nat by lia. }
  induction missing as [|m IH]; intros n Hn; cbn [fill]; [exists []; repeat split; lia|].
  assert (exists k, (0 < k <= length session_key)%nat /\ (k = n \/ n = 0%nat /\ k = length session_key) /\
    (if decide (take n session_key = []) then session_key else take n session_key) = take k session_key) as (k & Hk & Hkn & ->).
  { destruct (decide (n = 0%nat)) as [->|Hn0].
    - exists (length session_key). rewrite decide_True by done. split_and!; [lia|lia|by right|by rewrite firstn_all].
    - exists n. rewrite decide_False by (intros E; apply (f_equal length) in E; rewrite length_take_le in E by lia; cbn in E; lia).
      split_and!; [lia|lia|by left|done]. }
  destruct (Hpop k Hk) as (b & Hb & -> & ->). destruct (IH (k - 1)%nat) as (r & Hr & Hlen & Hall); [lia|]. cbn.
  rewrite Hr. cbn. exists (b :: r). split; [done|]. split; [cbn; lia|]. intros [|i] Hi; cbn.
  - rewrite <-Hb. f_equal. destruct Hkn as [->|[-> ->]].
    + rewrite Nat.mod_small by lia. lia.
    + rewrite Nat.sub_0_r, Nat.Div0.mod_same. lia.
  - rewrite Hall by lia. do 2 f_equal. destruct Hkn as [->|[-> ->]]; [f_equal; lia|].
    replace (S (i + (length session_key - 0)))%nat with (i + 1 + 1 * length session_key)%nat by lia.
    rewrite Nat.Div0.mod_add. f_equal. lia.
Qed.

(** The key is made from the end of the text backwards, which is begun again
    when it runs out; only an empty text panics.  What is before the last 48
    bytes does not count. *)
Lemma token_key_spec session_key :
  match get_token_secret_key_from_settings session_key with
  | Ok key => length key = KEY_SIZE /\ forall i, (i < KEY_SIZE)%nat ->
      key !! i = session_key !! (length session_key - 1 - i mod length session_key)%nat
  | Err _ => False
  | Panic => session_key = []
  end.
Proof.
  destruct (decide (session_key = [])) as [->|Hne]; [done|]. unfold get_token_secret_key_from_settings.
  assert (0 < length session_key)%nat as Hl by (destruct session_key; cbn; [done|lia]).
  destruct (fill_spec KEY_SIZE session_key 0 Hne) as (r & Hr & Hlen & Hall); [lia|]. change (take 0 session_key) with (@nil Byte.byte) in Hr. rewrite Hr.
  split; [done|]. intros i Hi. rewrite Hall by done. do 2 f_equal.
  rewrite Nat.sub_0_r. replace (i + length session_key)%nat with (i + 1 * length session_key)%nat by lia. apply Nat.Div0.mod_add.
Qed.

End TokenKey.

(** ** [GatewaySyncCertsTimer] *)

Module CertSync.
Import Certificates.

Section CertSync.
Context `{RemoteEndpointLib} `{TlsLibs}.

(** Whether a certificate of the list is asked for. *)
Definition is_needed (c : CertificatesCache) (now : Z) (id : bytes) : bool :=
  match ssl_certs c !! id with
  | None => true
  | Some h =>
      match origin h with
      | GatewayPushed _ => full_days (expires (get_cert_info (ssl_cert h))) now <=? 1
      | _ => false
      end
  end.

(** What one gateway client asks every one of its connections for. *)
Definition sync_request (c : CertificatesCache) (now : Z) (sync_ids : list bytes) (connections : nat) : list (list bytes) :=
  if decide (sync_ids = []) then []
  else if decide (connections = 0%nat) then []
  else
    let need := filter (fun id => is_needed c now id = true) sync_ids in
    if decide (need = []) then [] else replicate connections need.

(** The tick over all clients, each with its list and its connections. *)
Definition tick (c : CertificatesCache) (now : Z) (clients : list (list bytes * nat)) : list (list (list bytes)) :=
  map (fun x => sync_request c now (fst x) (snd x)) clients.

(** Every request has at least one name, all from the list of the client, and
    never asks for a certificate of another origin than a gateway. *)
Lemma requests_are_needed c now sync_ids connections ids :
  ids ∈ sync_request c now sync_ids connections ->
  ids <> [] /\ forall id, id ∈ ids <-> id ∈ sync_ids /\
    (ssl_certs c !! id = None \/
     exists h g, ssl_certs c !! id = Some h /\ origin h = GatewayPushed g /\
       full_days (expires (get_cert_info (ssl_cert h))) now <= 1).
Proof.
  unfold sync_request. do 2 (case_decide; [intros Hin; by apply not_elem_of_nil in Hin|]).
  case_decide as Hneed; [intros Hin; by apply not_elem_of_nil in Hin|]. intros [-> _]%elem_of_replicate. split; [done|].
  intros id. rewrite list_elem_of_filter. unfold is_needed. destruct (ssl_certs c !! id) as [h|].
  - split.
    + intros [E Hin]. split; [done|]. right. exists h. destruct (origin h) as [|g|] eqn:Ho; try discriminate E.
      exists g. by rewrite <-Z.leb_le.
    + intros [Hin [?|(h0 & g & [= <-] & Ho & Hd)]]; [done|]. rewrite Ho. split; [by apply Z.leb_le|done].
  - naive_solver.
Qed.

End CertSync.
End CertSync.
