(* ===== verification/GatewayKeys.v ===== *)
(** * Keys of the gateway: [settings/gateway_client_settings.rs],
      [settings/gateway_server_settings.rs] and the generator of key pairs,
      [bin/gateway_keygen.rs]

    A gateway client signs its handshake with the key of an entry of the [ssh]
    section; a server accepts the keys of the files it lists.  Both are read
    once, at start-up, where an error is fatal.  The generator writes a pair of
    files that the two ends then read. *)

From Stdlib Require Import ZArith Lia Strings.String Strings.Byte.
From stdpp Require Import base tactics list gmap strings.
From S2P Require Import Prelude RustStd OAuthForm OAuthTokens Settings Handshake.

Local Open Scope Z_scope.

Definition LF : byte := Byte.x0a.

(** The key files: the crates [ssh_key] and [ed25519_dalek].  A private key is
    parsed up to its end, a public key is one line of an algorithm, the key and
    a comment, which is the rest of the line. *)
Class SshKeyLib `{HandshakeCrypto} := {
  PrivateKey : Type;
  PublicKey : Type;
  private_from_openssh : bytes -> outcome bytes PrivateKey;
  is_encrypted : PrivateKey -> bool;
  decrypt : PrivateKey -> bytes -> outcome bytes PrivateKey;
  private_ed25519 : PrivateKey -> option bytes;
  signing_key_from_bytes : bytes -> SigningKey;
  public_from_openssh : bytes -> outcome bytes PublicKey;
  public_ed25519 : PublicKey -> option bytes;
  ed25519_to_openssh : bytes -> bytes -> bytes;
  ed25519_public_to_openssh : bytes -> bytes -> bytes;
  openssh_private_spec : forall seed comment, exists text key,
    ed25519_to_openssh seed comment = (text ++ bs "-----") ++ [LF] /\
    private_from_openssh (text ++ bs "-----") = Ok key /\ is_encrypted key = false /\ private_ed25519 key = Some seed;
  openssh_public_spec : forall key comment rest, LF ∉ comment -> LF ∉ rest -> exists public,
    public_from_openssh (Str.trim (ed25519_public_to_openssh key comment ++ bs " " ++ rest ++ [LF])) = Ok public /\
    public_ed25519 public = Some key;
  openssh_public_utf8 : forall key comment,
    Utf8.valid comment = true -> Utf8.valid (ed25519_public_to_openssh key comment) = true
}.

Module GatewayKeys.

(** [trim_ascii_end] *)
Definition is_ascii_whitespace (b : byte) : bool :=
  bool_decide (b ∈ [Byte.x09; Byte.x0a; Byte.x0c; Byte.x0d; Byte.x20]).
Definition trim_ascii_end (l : bytes) : bytes := rev (Str.drop_while is_ascii_whitespace (rev l)).

Section Keys.
Context `{SshKeyLib}.

(** ** Reading *)

Section Load.

(** [file_utils::format_path] and [std::fs::read], whose errors are texts. *)
Context (format_path : bytes -> bytes) (fs_read : bytes -> bytes + bytes) (stream_not_utf8 : bytes).

Definition fs_read_to_string (path : bytes) : bytes + bytes :=
  match fs_read path with
  | inl err => inl err
  | inr content => if Utf8.valid content then inr content else inl stream_not_utf8
  end.

Definition ok_or_else {A} (x : bytes + A) (text : bytes -> bytes) : outcome bytes A :=
  match x with inr a => Ok a | inl err => Err (text err) end.

Definition load_signing_key (s : Settings.GatewayClientSettings) (client_id : bytes)
    (ssh_registry : gmap bytes Settings.SshConfigSettings) : outcome bytes SigningKey :=
  let client := bs "Gateway client '" ++ client_id ++ bs "': " in
  ssh_entry ← ok_or (ssh_registry !! Settings.gc_ssh_credentials s)
    (client ++ bs "ssh_credentials '" ++ Settings.gc_ssh_credentials s ++ bs "' not found in 'ssh:' registry");
  key_path ← ok_or (Settings.private_key_file ssh_entry)
    (client ++ bs "ssh entry '" ++ Settings.gc_ssh_credentials s ++
     bs "' has no private_key_file — gateway requires a private key, password-only entries are not supported");
  let resolved := format_path key_path in
  raw ← ok_or_else (fs_read resolved)
    (fun err => client ++ bs "cannot read private_key_file '" ++ resolved ++ bs "': " ++ err);
  private ← map_err (fun err => client ++ bs "cannot parse OpenSSH private key '" ++ resolved ++ bs "': " ++ err)
    (private_from_openssh (trim_ascii_end raw));
  unlocked ←
    (if is_encrypted private then
       phrase ← ok_or (Settings.passphrase ssh_entry)
         (client ++ bs "private key '" ++ resolved ++ bs "' is encrypted but ssh entry has no passphrase");
       map_err (fun err => client ++ bs "failed to decrypt private key '" ++ resolved ++ bs "' with passphrase: " ++ err)
         (decrypt private phrase)
     else Ok private);
  keypair ← ok_or (private_ed25519 unlocked) (client ++ bs "private key '" ++ resolved ++ bs "' is not Ed25519");
  Ok (signing_key_from_bytes keypair).

(** One round of [load_authorized_keys]. *)
Definition load_authorized_key (path : bytes) : outcome bytes VerifyingKey :=
  let resolved := format_path path in
  content ← ok_or_else (fs_read_to_string resolved)
    (fun err => bs "Gateway server: cannot read pubkey file '" ++ resolved ++ bs "': " ++ err);
  pub_key ← map_err (fun err => bs "Gateway server: cannot parse pubkey '" ++ resolved ++ bs "': " ++ err)
    (public_from_openssh (Str.trim content));
  ed25519 ← ok_or (public_ed25519 pub_key) (bs "Gateway server: pubkey '" ++ resolved ++ bs "' is not Ed25519");
  map_err (fun err => bs "Gateway server: invalid Ed25519 pubkey in '" ++ resolved ++ bs "': " ++ err)
    (vk_from_bytes ed25519).

Fixpoint load_keys (paths : list bytes) (keys : list VerifyingKey) : outcome bytes (list VerifyingKey) :=
  match paths with
  | [] => Ok keys
  | path :: paths => verifying ← load_authorized_key path; load_keys paths (keys ++ [verifying])
  end.

Definition load_authorized_keys (s : Settings.GatewayServerSettings) : outcome bytes (list VerifyingKey) :=
  if decide (Settings.authorized_keys s = []) then
    Err (bs "Gateway server: 'authorized_keys' must contain at least one path")
  else load_keys (Settings.authorized_keys s) [].

(** The gateways that [AppContext::new] makes: the port of the server with the
    keys it accepts, and the key of each client; an error panics. *)
Record Gateways := {
  server : option (Z * list VerifyingKey);
  clients : gmap bytes SigningKey
}.

Definition must {A} (x : outcome bytes A) : outcome Empty_set A :=
  match x with Ok a => Ok a | Err _ | Panic => Panic end.

Fixpoint load_clients (registry : gmap bytes Settings.SshConfigSettings)
    (l : list (bytes * Settings.GatewayClientSettings)) (m : gmap bytes SigningKey) : outcome Empty_set (gmap bytes SigningKey) :=
  match l with
  | [] => Ok m
  | (id, client_settings) :: l =>
      signing_key ← must (load_signing_key client_settings id registry);
      load_clients registry l (<[id := signing_key]> m)
  end.

Definition start_gateways (iter : list (bytes * Settings.GatewayClientSettings)) (s : Settings.SettingsCompiled) :
    outcome Empty_set Gateways :=
  server ←
    match Settings.gateway_server s with
    | Some gateway_server_settings =>
        authorized_keys ← must (load_authorized_keys gateway_server_settings);
        Ok (Some (Settings.gs_port gateway_server_settings, authorized_keys))
    | None => Ok None
    end;
  gateway_clients ← load_clients (Settings.ssh s) iter ∅;
  Ok {| server := server; clients := gateway_clients |}.

End Load.

(** ** The generator *)

(** Files with their permissions. *)
Record Files := { content : gmap bytes bytes; mode : gmap bytes Z }.

(** [std::fs::write]: a new file gets the default permissions, an old one keeps
    its own; it can fail to open the file, or stop in the middle. *)
Inductive WriteFailure := CannotOpen | StopsAfter (n : nat).

Definition put (default_mode : Z) (path text : bytes) (s : Files) : Files :=
  {| content := <[path := text]> (content s);
     mode := match mode s !! path with Some _ => mode s | None => <[path := default_mode]> (mode s) end |}.

Definition fs_write (default_mode : Z) (failure : option WriteFailure) (path text : bytes) (s : Files) :
    Files * outcome Empty_set unit :=
  match failure with
  | None => (put default_mode path text s, Ok tt)
  | Some CannotOpen => (s, Panic)
  | Some (StopsAfter n) => (put default_mode path (take n text) s, Panic)
  end.

Definition set_permissions (failure : bool) (path : bytes) (m : Z) (s : Files) : Files * outcome Empty_set unit :=
  if failure then (s, Panic) else ({| content := content s; mode := <[path := m]> (mode s) |}, Ok tt).

(** [Path::file_name], then [to_str]. *)
Fixpoint split_slash (l cur : bytes) : list bytes :=
  match l with
  | [] => [cur]
  | b :: l => if decide (b = Byte.x2f) then cur :: split_slash l [] else split_slash l (cur ++ [b])
  end.

Definition file_name (path : bytes) : option bytes :=
  n ← last (filter (fun c => c <> [] /\ c <> bs ".") (split_slash path []));
  if decide (n = bs "..") then None else Utf8.from_utf8 n.

Definition comment_of (out_path : bytes) : bytes := bs "gateway-" ++ default (bs "identity") (file_name out_path).

(** What fails of the system while the program runs. *)
Record Failures := { write_private : option WriteFailure; chmod : bool; write_public : option WriteFailure }.

Definition then_ (x : Files * outcome Empty_set unit) (k : Files -> Files * outcome Empty_set unit) :
    Files * outcome Empty_set unit :=
  match x with (s, Ok _) => k s | (s, r) => (s, r) end.

(** [main] of [gateway_keygen], the random [seed] drawn and the path given. *)
Definition keygen (default_mode : Z) (f : Failures) (seed out_path : bytes) (s : Files) : Files * outcome Empty_set unit :=
  let signing := signing_key_from_bytes seed in
  let public_bytes := vk_to_bytes (verifying_key signing) in
  let comment := comment_of out_path in
  let private_pem := ed25519_to_openssh seed comment in
  let public_openssh := ed25519_public_to_openssh public_bytes comment in
  let public_path := out_path ++ bs ".pub" in
  then_ (fs_write default_mode (write_private f) out_path private_pem s) (fun s =>
  then_ (set_permissions (chmod f) out_path 384 s) (fun s =>
  let public_line := public_openssh ++ bs " " ++ comment ++ [LF] in
  fs_write default_mode (write_public f) public_path public_line s)).

(** What a later [std::fs::read] finds. *)
Definition read_of (not_found : bytes) (s : Files) (path : bytes) : bytes + bytes :=
  match content s !! path with Some c => inr c | None => inl not_found end.

(** ** Lemmas *)

Lemma trim_ascii_end_pem text : trim_ascii_end ((text ++ bs "-----") ++ [LF]) = text ++ bs "-----".
Proof.
  unfold trim_ascii_end. rewrite !rev_app_distr. change (rev [LF]) with [LF].
  change (rev (bs "-----")) with (bs "-----"). cbn [app Str.drop_while].
  change (rev (bs "-----" ++ rev text) = text ++ bs "-----"). by rewrite rev_app_distr, rev_involutive.
Qed.

Lemma split_slash_bytes l cur c b : c ∈ split_slash l cur -> b ∈ c -> b ∈ l \/ b ∈ cur.
Proof.
  revert cur. induction l as [|x l IH]; intros cur; cbn.
  - intros ->%list_elem_of_singleton. by right.
  - case_decide.
    + intros [->|Hc]%elem_of_cons Hb; [by right|]. destruct (IH _ Hc Hb) as [?|[]%not_elem_of_nil]. left. by right.
    + intros Hc Hb. destruct (IH _ Hc Hb) as [?|[?|?%list_elem_of_singleton]%elem_of_app]; [left; by right|by right|].
      left. subst. by left.
Qed.

Lemma file_name_spec path n : file_name path = Some n -> Utf8.valid n = true /\ forall b, b ∈ n -> b ∈ path.
Proof.
  unfold file_name. destruct (last _) as [c|] eqn:Hc; [|done]. cbn. case_decide; [done|].
  intros [Hv ->]%Utf8.from_utf8_Some. split; [done|]. intros b Hb.
  apply last_Some_elem_of, list_elem_of_filter in Hc. destruct Hc as [_ Hc].
  destruct (split_slash_bytes _ _ _ _ Hc Hb) as [?|[]%not_elem_of_nil]. done.
Qed.

Lemma comment_spec out_path :
  LF ∉ out_path -> Utf8.valid (comment_of out_path) = true /\ LF ∉ comment_of out_path.
Proof.
  intros Hlf. unfold comment_of. assert (LF ∉ bs "gateway-") as Hp by (vm_compute; set_solver).
  destruct (file_name out_path) as [n|] eqn:Hn; cbn [default]; [|split; [done|vm_compute; set_solver]].
  apply file_name_spec in Hn as [Hv Hsub]. split.
  - by rewrite Utf8.valid_app.
  - intros [?|?%Hsub]%elem_of_app; done.
Qed.

Lemma fs_write_ok d f path text s s' r : fs_write d f path text s = (s', Ok r) -> s' = put d path text s.
Proof. by destruct f as [[]|]; intros [= <-]. Qed.

(** What a run that ends well has written. *)
Lemma keygen_files d f seed out_path s s' :
  keygen d f seed out_path s = (s', Ok tt) ->
  mode s' !! out_path = Some 384 /\
  content s' !! out_path = Some (ed25519_to_openssh seed (comment_of out_path)) /\
  content s' !! (out_path ++ bs ".pub") =
    Some (ed25519_public_to_openssh (vk_to_bytes (verifying_key (signing_key_from_bytes seed))) (comment_of out_path) ++
          bs " " ++ comment_of out_path ++ [LF]).
Proof.
  assert (out_path <> out_path ++ bs ".pub") as Hne by (intros E; apply (f_equal length) in E; rewrite length_app in E; change (length (bs ".pub")) with 4%nat in E; lia).
  unfold keygen. destruct (fs_write _ _ out_path _ _) as [s1 [[]| |]] eqn:H1; cbn [then_]; [|done|done].
  destruct (set_permissions _ _ _ _) as [s2 [[]| |]] eqn:H2; cbn [then_]; [|done|done]. intros H3.
  apply fs_write_ok in H1, H3. unfold set_permissions in H2. destruct (chmod f); [done|]. injection H2 as <-. subst s1 s'. cbn.
  split_and!.
  - destruct (_ !! (out_path ++ bs ".pub")); rewrite ?lookup_insert_ne by done; by rewrite lookup_insert_eq.
  - rewrite lookup_insert_ne by done. by rewrite lookup_insert_eq.
  - by rewrite lookup_insert_eq.
Qed.

Section LoadLemmas.
Context (format_path : bytes -> bytes) (fs_read : bytes -> bytes + bytes) (stream_not_utf8 : bytes).
#[local] Abbreviation load_authorized_key := (load_authorized_key format_path fs_read stream_not_utf8).
#[local] Abbreviation load_keys := (load_keys format_path fs_read stream_not_utf8).
#[local] Abbreviation load_authorized_keys := (load_authorized_keys format_path fs_read stream_not_utf8).
#[local] Abbreviation load_signing_key := (load_signing_key format_path fs_read).
#[local] Abbreviation load_clients := (load_clients format_path fs_read).

Lemma load_keys_ok paths acc keys :
  load_keys paths acc = Ok keys <->
  exists ks, keys = acc ++ ks /\ Forall2 (fun path key => load_authorized_key path = Ok key) paths ks.
Proof.
  revert acc. induction paths as [|path paths IH]; intros acc; cbn.
  - split.
    + intros [= <-]. exists []. by rewrite app_nil_r.
    + intros (ks & -> & ->%Forall2_nil_inv_l). by rewrite app_nil_r.
  - destruct (load_authorized_key path) as [k| |] eqn:Hk; cbn.
    + rewrite IH. setoid_rewrite <-app_assoc. split.
      * intros (ks & -> & Hks). exists (k :: ks). by repeat constructor.
      * intros (ks & -> & (k' & ks' & Hk' & Hks & ->)%Forall2_cons_inv_l). simpl in Hk'. rewrite Hk in Hk'. injection Hk' as <-. by exists ks'.
    + split; [done|]. intros (ks & _ & (k' & ks' & Hk' & _)%Forall2_cons_inv_l). simpl in Hk'. congruence.
    + split; [done|]. intros (ks & _ & (k' & ks' & Hk' & _)%Forall2_cons_inv_l). simpl in Hk'. congruence.
Qed.

Lemma load_authorized_keys_ok g keys :
  load_authorized_keys g = Ok keys <->
  Settings.authorized_keys g <> [] /\
  Forall2 (fun path key => load_authorized_key path = Ok key) (Settings.authorized_keys g) keys.
Proof.
  unfold Keys.load_authorized_keys. case_decide as E; [naive_solver|]. rewrite load_keys_ok. naive_solver.
Qed.

Lemma load_clients_spec registry l m :
  NoDup l.*1 -> (forall id, id ∈ l.*1 -> m !! id = None) ->
  match load_clients registry l m with
  | Ok m' =>
      (forall id c, (id, c) ∈ l -> exists key, load_signing_key c id registry = Ok key /\ m' !! id = Some key) /\
      (forall id, id ∉ l.*1 -> m' !! id = m !! id)
  | Err _ => False
  | Panic => exists id c, (id, c) ∈ l /\ is_ok (load_signing_key c id registry) = false
  end.
Proof.
  revert m. induction l as [|[id c] l IH]; intros m Hnd Hm; cbn.
  - split; [|done]. by intros id c ?%not_elem_of_nil.
  - apply NoDup_cons in Hnd as [Hid Hnd]. cbn in Hm.
    destruct (load_signing_key c id registry) as [key| |] eqn:Hk; cbn;
      [|exists id, c; rewrite Hk; split; [by left|done]..].
    specialize (IH (<[id := key]> m) Hnd). destruct (load_clients registry l (<[id := key]> m)) as [m'| |].
    + destruct IH as [IHl IHr].
      { intros id' Hid'. rewrite lookup_insert_ne by (intros ->; done). apply Hm. by right. }
      split.
      * intros id' c' [[= -> ->]|Hin]%elem_of_cons; [|by apply IHl]. exists key. split; [done|].
        by rewrite IHr, lookup_insert_eq.
      * intros id' [Hne Hni]%not_elem_of_cons. rewrite IHr by done. by rewrite lookup_insert_ne.
    + apply IH. intros id' Hid'. rewrite lookup_insert_ne by (intros ->; done). apply Hm. by right.
    + destruct IH as (id' & c' & Hin & Hno).
      { intros id' Hid'. rewrite lookup_insert_ne by (intros ->; done). apply Hm. by right. }
      exists id', c'. split; [by right|done].
Qed.

End LoadLemmas.

(** ** What the files are good for *)

(** The pair of files that a run has written, read back. *)
Lemma private_read_back format_path not_found s seed comment c id registry entry path :
  content s !! format_path path = Some (ed25519_to_openssh seed comment) ->
  registry !! Settings.gc_ssh_credentials c = Some entry -> Settings.private_key_file entry = Some path ->
  load_signing_key format_path (read_of not_found s) c id registry = Ok (signing_key_from_bytes seed).
Proof.
  intros Hs Hentry Hpath. unfold load_signing_key. rewrite Hentry. cbn. rewrite Hpath. cbn. unfold read_of. rewrite Hs. cbn.
  destruct (openssh_private_spec seed comment) as (text & key & -> & Hparse & Henc & Hkey).
  rewrite trim_ascii_end_pem, Hparse. cbn. rewrite Henc. cbn. by rewrite Hkey.
Qed.

Lemma public_read_back format_path not_found not_utf8 s vk comment path :
  content s !! format_path path =
    Some (ed25519_public_to_openssh (vk_to_bytes vk) comment ++ bs " " ++ comment ++ [LF]) ->
  Utf8.valid comment = true -> LF ∉ comment ->
  load_authorized_key format_path (read_of not_found s) not_utf8 path = Ok vk.
Proof.
  intros Hs Hv Hlf. unfold load_authorized_key, fs_read_to_string, read_of. rewrite Hs.
  assert (Utf8.valid (ed25519_public_to_openssh (vk_to_bytes vk) comment ++ bs " " ++ comment ++ [LF]) = true) as ->.
  { by rewrite Utf8.valid_app, (Utf8.valid_app (bs " ")), Utf8.valid_app by (done || by apply openssh_public_utf8). }
  destruct (openssh_public_spec (vk_to_bytes vk) comment comment Hlf Hlf) as (public & Hparse & Hkey).
  unfold ok_or_else. cbn [mbind outcome_bind]. rewrite Hparse. cbn. rewrite Hkey. cbn. by rewrite vk_from_to_bytes.
Qed.

(** A pair of keys that [gateway_keygen] wrote joins two gateways.  When the
    program ends without a panic, nobody but the owner may read the private
    file; every client whose SSH entry names it signs with the generated key;
    every server that lists the public file and starts accepts this key, and
    a server that lists nothing else does start. *)
Theorem generated_keys_join_gateways (format_path : bytes -> bytes) (not_found not_utf8 : bytes) (default_mode : Z)
    (f : Failures) (seed out_path : bytes) (s s' : Files)
    (Hrun : keygen default_mode f seed out_path s = (s', Ok tt)) (Hline : LF ∉ out_path) :
  let sk := signing_key_from_bytes seed in
  let load_authorized_keys := load_authorized_keys format_path (read_of not_found s') not_utf8 in
  mode s' !! out_path = Some 384 /\
  (forall c id registry entry path,
     registry !! Settings.gc_ssh_credentials c = Some entry -> Settings.private_key_file entry = Some path ->
     format_path path = out_path -> load_signing_key format_path (read_of not_found s') c id registry = Ok sk) /\
  (forall g keys path, load_authorized_keys g = Ok keys -> path ∈ Settings.authorized_keys g ->
     format_path path = out_path ++ bs ".pub" -> verifying_key sk ∈ keys) /\
  (forall g, Settings.authorized_keys g <> [] ->
     Forall (fun path => format_path path = out_path ++ bs ".pub") (Settings.authorized_keys g) ->
     load_authorized_keys g = Ok (replicate (length (Settings.authorized_keys g)) (verifying_key sk))).
Proof.
  cbn zeta. apply keygen_files in Hrun as (Hmode & Hpriv & Hpub). destruct (comment_spec _ Hline) as [Hv Hlf].
  assert (forall path, format_path path = out_path ++ bs ".pub" ->
    load_authorized_key format_path (read_of not_found s') not_utf8 path = Ok (verifying_key (signing_key_from_bytes seed))) as Hkey.
  { intros path Hp. eapply public_read_back; [rewrite Hp; exact Hpub|done|done]. }
  split_and!; [done| | |].
  - intros c id registry entry path Hentry Hpath Hp. eapply private_read_back; [rewrite Hp; exact Hpriv|done|done].
  - intros g keys path [_ Hall]%load_authorized_keys_ok [i Hi]%list_elem_of_lookup Hp.
    destruct (Forall2_lookup_l _ _ _ _ _ Hall Hi) as (key & Hk & Hload). rewrite (Hkey _ Hp) in Hload. injection Hload as ->.
    by eapply list_elem_of_lookup_2.
  - intros g Hne Hall. apply load_authorized_keys_ok. split; [done|]. clear Hne. induction Hall; constructor; auto.
Qed.

(** A proxy starts with all keys of its gateways or not at all.  When
    [AppContext::new] gets past the gateways, the server has exactly one key
    per listed file, in their order and at least one, and every configured
    client has the key of its SSH entry; otherwise it panics, and then the keys
    of the server or of some client can not be loaded. *)
Theorem gateways_start_with_all_keys (format_path : bytes -> bytes) (fs_read : bytes -> bytes + bytes) (not_utf8 : bytes)
    (iter : list (bytes * Settings.GatewayClientSettings)) (s : Settings.SettingsCompiled)
    (Hiter : iter ≡ₚ map_to_list (Settings.gateway_clients s)) :
  match start_gateways format_path fs_read not_utf8 iter s with
  | Ok g =>
      match Settings.gateway_server s with
      | Some settings => exists keys, server g = Some (Settings.gs_port settings, keys) /\ keys <> [] /\
          Forall2 (fun path key => load_authorized_key format_path fs_read not_utf8 path = Ok key)
            (Settings.authorized_keys settings) keys
      | None => server g = None
      end /\
      forall id, match Settings.gateway_clients s !! id with
                 | Some c => exists key, load_signing_key format_path fs_read c id (Settings.ssh s) = Ok key /\
                                         clients g !! id = Some key
                 | None => clients g !! id = None
                 end
  | Err _ => False
  | Panic =>
      (exists settings, Settings.gateway_server s = Some settings /\
         is_ok (load_authorized_keys format_path fs_read not_utf8 settings) = false) \/
      exists id c, Settings.gateway_clients s !! id = Some c /\
        is_ok (load_signing_key format_path fs_read c id (Settings.ssh s)) = false
  end.
Proof.
  assert (NoDup iter.*1) as Hnd by (rewrite Hiter; apply NoDup_fst_map_to_list).
  assert (forall id c, (id, c) ∈ iter <-> Settings.gateway_clients s !! id = Some c) as Hin
    by (intros id c; rewrite Hiter; apply elem_of_map_to_list).
  pose proof (load_clients_spec format_path fs_read (Settings.ssh s) iter ∅ Hnd (fun id _ => lookup_empty id)) as Hcl.
  unfold start_gateways. destruct (Settings.gateway_server s) as [settings|].
  - destruct (load_authorized_keys _ _ _ settings) as [keys| |] eqn:Hload; cbn;
      [|left; exists settings; by rewrite Hload..].
    apply load_authorized_keys_ok in Hload as [Hne Hall].
    destruct (load_clients _ _ _ iter ∅) as [m| |]; cbn; [|done|right; naive_solver].
    split; [exists keys; split_and!; [done| |done]; intros ->; by apply Forall2_nil_inv_r in Hall|].
    intros id. destruct (Settings.gateway_clients s !! id) as [c|] eqn:Hc; [by apply Hcl, Hin|].
    rewrite (proj2 Hcl); [done|]. intros [[? c] [-> Hx%Hin]]%list_elem_of_fmap. cbn in *. congruence.
  - cbn. destruct (load_clients _ _ _ iter ∅) as [m| |]; cbn; [|done|right; naive_solver].
    split; [done|]. intros id. destruct (Settings.gateway_clients s !! id) as [c|] eqn:Hc; [by apply Hcl, Hin|].
    rewrite (proj2 Hcl); [done|]. intros [[? c] [-> Hx%Hin]]%list_elem_of_fmap. cbn in *. congruence.
Qed.

End Keys.

(** ** Witnesses: keys written as digits *)

Module Demo.
Import Handshake.

Lemma drop_ws_app u c v :
  Utf8.is_whitespace c = false -> Str.drop_ws (u ++ c :: v) = Str.drop_ws u ++ c :: v.
Proof. intros Hc. induction u as [|d u IH]; cbn; [by rewrite Hc|]. by case_match. Qed.

(** Trimming keeps a beginning of visible characters. *)
Lemma trim_keeps a b l :
  Forall (fun b => Str.is_graphic b = true) (a ++ [b]) -> exists r, Str.trim ((a ++ [b]) ++ l) = (a ++ [b]) ++ r.
Proof.
  intros Hg. unfold Str.trim. destruct (Utf8.chars ((a ++ [b]) ++ l)) as [cs|] eqn:E; [|by exists l].
  rewrite (Utf8.chars_app _ _ _ (Str.graphic_chars _ Hg)) in E. destruct (Utf8.chars l) as [cl|]; [|done].
  injection E as <-. exists (concat (rev (Str.drop_ws (rev cl)))).
  assert (Utf8.is_whitespace [b] = false) as Hb by (apply Str.graphic_not_ws; by apply Forall_app in Hg as [_ [? _]%Forall_cons]).
  assert (Str.drop_ws (map (fun b => [b]) (a ++ [b]) ++ cl) = map (fun b => [b]) (a ++ [b]) ++ cl) as ->.
  { destruct a as [|x a]; cbn [map app Str.drop_ws]; [by rewrite Hb|]. cbn [app] in Hg. apply Forall_cons in Hg as [Hx _]. by rewrite Str.graphic_not_ws. }
  rewrite map_app. cbn [map]. rewrite rev_app_distr, rev_app_distr. cbn [rev app].
  rewrite drop_ws_app by done. rewrite rev_app_distr. cbn [rev]. rewrite rev_involutive, concat_app. f_equal.
  rewrite concat_app. cbn. f_equal. clear. induction a as [|x a IH]; [done|]. cbn. by f_equal.
Qed.

Lemma hex_graphic m : Forall (fun b => Str.is_graphic b = true) (ToyLibs.hex m ++ [Byte.x2e]).
Proof.
  apply Forall_app. split; [|by repeat constructor]. unfold ToyLibs.hex. induction m as [|b m IH]; [apply Forall_nil_2|].
  cbn. assert (Str.is_graphic (Form.hex_digit (u8 b / 16)) = true /\ Str.is_graphic (Form.hex_digit (u8 b mod 16)) = true)
    as [G1 G2] by (destruct b; vm_compute; done). by repeat constructor.
Qed.

Fixpoint until_dot (l : bytes) : bytes :=
  match l with [] => [] | b :: l => if decide (b = Byte.x2e) then [] else b :: until_dot l end.

Lemma until_dot_spec a l : Byte.x2e ∉ a -> until_dot ((a ++ [Byte.x2e]) ++ l) = a.
Proof.
  induction a as [|b a IH]; intros Ha; [done|]. apply not_elem_of_cons in Ha as [Hb Ha]. cbn.
  rewrite decide_False by congruence. by rewrite IH.
Qed.

Definition line (key comment : bytes) : bytes := (ToyLibs.hex key ++ [Byte.x2e]) ++ comment.

Program Definition toy_keys : @SshKeyLib toy_crypto := {|
  PrivateKey := bytes; PublicKey := bytes;
  private_from_openssh := fun text => Ok (take (length text - 5) text);
  is_encrypted := fun _ => false; decrypt := fun _ _ => Err [];
  private_ed25519 := fun key => Some key;
  signing_key_from_bytes := fun seed => bool_decide (seed = bs "seed");
  public_from_openssh := fun text => ToyLibs.unhex (until_dot text);
  public_ed25519 := fun key => Some key;
  ed25519_to_openssh := fun seed _ => (seed ++ bs "-----") ++ [LF];
  ed25519_public_to_openssh := line
|}.
Next Obligation.
  intros seed comment. exists seed, seed. split_and!; [done| |done|done].
  rewrite length_app, Nat.add_sub. by rewrite take_app_length.
Qed.
Next Obligation.
  intros key comment rest _ _. exists key. split; [|done]. unfold line. rewrite <-app_assoc.
  destruct (trim_keeps (ToyLibs.hex key) Byte.x2e (comment ++ bs " " ++ rest ++ [LF]) (hex_graphic key)) as [r ->].
  rewrite until_dot_spec by apply ToyLibs.hex_no_dot. apply ToyLibs.unhex_hex.
Qed.
Next Obligation.
  intros key comment Hc. unfold line. rewrite Utf8.valid_app; [done|]. apply Utf8.valid_ascii.
  eapply Forall_impl; [apply hex_graphic|]. intros b Hb. unfold Str.is_graphic in Hb. lia.
Qed.

#[local] Existing Instance toy_keys.

Definition no_failures : Failures := {| write_private := None; chmod := false; write_public := None |}.
Definition nothing : Files := {| content := ∅; mode := ∅ |}.
Definition written : Files := fst (keygen (H0 := toy_keys) 420 no_failures (bs "seed") (bs "keys/me") nothing).

Definition demo_client : Settings.GatewayClientSettings :=
  {| Settings.gc_remote_host := bs "h:1"; Settings.gc_ssh_credentials := bs "me"; Settings.gc_compress := None;
     Settings.gc_debug := None; Settings.allow_incoming_forward_connections := None; Settings.gc_connect_timeout := None;
     Settings.sync_ssl_certificates := None |}.
Definition demo_server : Settings.GatewayServerSettings :=
  {| Settings.gs_port := 7000; Settings.authorized_keys := [bs "keys/me.pub"]; Settings.allowed_ip := None;
     Settings.gs_debug := None |}.
Definition demo_entry : Settings.SshConfigSettings :=
  {| Settings.password := None; Settings.private_key_file := Some (bs "keys/me"); Settings.passphrase := None |}.

Lemma generated_keys_join_gateways_witness :
  load_authorized_keys (H0 := toy_keys) (fun p => p) (read_of (bs "not found") written) (bs "utf-8") demo_server = Ok [true] /\
  load_signing_key (H0 := toy_keys) (fun p => p) (read_of (bs "not found") written) demo_client (bs "gw")
    {[ bs "me" := demo_entry ]} = Ok true.
Proof.
  destruct (generated_keys_join_gateways (H0 := toy_keys) (fun p => p) (bs "not found") (bs "utf-8") 420 no_failures
    (bs "seed") (bs "keys/me") nothing written) as (_ & Hclient & _ & Hserver); [reflexivity|by vm_compute; set_solver|].
  split.
  - rewrite Hserver; [reflexivity|done|by repeat constructor].
  - by apply (Hclient demo_client (bs "gw") _ demo_entry (bs "keys/me")).
Defined.

Definition demo_settings : Settings.SettingsCompiled :=
  {| Settings.ssh := {[ bs "me" := demo_entry ]}; Settings.hosts := ∅; Settings.ssl_certificates := [];
     Settings.client_certificate_cas := []; Settings.global_settings := None; Settings.g_auth := ∅;
     Settings.oauth_blocks := ∅; Settings.endpoint_templates := ∅; Settings.users_lists := ∅; Settings.ip_white_lists := ∅;
     Settings.gateway_server := Some demo_server; Settings.gateway_clients := {[ bs "gw" := demo_client ]} |}.

Lemma gateways_start_with_all_keys_witness :
  exists g, start_gateways (H0 := toy_keys) (fun p => p) (read_of (bs "not found") written) (bs "utf-8")
              [(bs "gw", demo_client)] demo_settings = Ok g /\
    exists keys, server g = Some (7000, keys) /\ keys <> [].
Proof.
  assert (is_ok (start_gateways (H0 := toy_keys) (fun p => p) (read_of (bs "not found") written) (bs "utf-8")
    [(bs "gw", demo_client)] demo_settings) = true) as Hok by (vm_compute; reflexivity).
  pose proof (gateways_start_with_all_keys (H0 := toy_keys) (fun p => p) (read_of (bs "not found") written) (bs "utf-8")
    [(bs "gw", demo_client)] demo_settings) as H.
  destruct (start_gateways _ _ _ _ _) as [g| |]; [|discriminate Hok..]. exists g. split; [reflexivity|].
  destruct H as [(keys & Hs & Hne & _) _]; [cbn [Settings.gateway_clients demo_settings]; by rewrite map_to_list_singleton|].
  exists keys. split; [exact Hs|exact Hne].
Defined.

End Demo.

End GatewayKeys.
