(* ===== verification/ClientPools.v ===== *)
(** * Clients over SSH: [http_client_pool/*.rs], [http2_client_pool/*.rs],
      [timers/gc_connections_timer.rs] and their use in
      [content_source/http1_over_ssh.rs] and [http2_over_ssh.rs]

    A location that is reached through SSH takes an HTTP client from a pool for
    the time of one request.  The item that holds it gives it back when it is
    dropped, unless the request failed or the connection was upgraded; clients
    that nobody took for three minutes are closed by a timer. *)

From Stdlib Require Import ZArith Lia Sorting.Sorted Strings.String.
From stdpp Require Import base tactics list gmap strings.
From S2P Require Import Prelude IpBlocklist.

Local Open Scope Z_scope.

(** [duration_since(..).get_full_minutes()] of the date-time library. *)
Class MinutesLib := {
  full_minutes_since : Z -> Z -> Z;
  full_minutes_spec : forall now start,
    clock now -> clock start -> start <= now -> full_minutes_since now start = (now - start) / 60000000
}.

Module ClientPools.

(** The HTTP/1 and the HTTP/2 pool have the same code, but for upgrades. *)
Inductive Kind := Http1 | Http2.

(** [HttpClientPoolItem] and [Http2ClientPoolItem]; a client is named by the
    number of its creation.  [running] is a request whose future is alive. *)
Record Item := { my_http_client : option nat; end_point : bytes; disposed : bool; running : bool }.

(** The pool, the items that are alive, and what every client was made for. *)
Record State := {
  items : gmap bytes (list (Z * nat));
  held : gmap nat Item;
  made_for : list bytes
}.

Definition start : State := {| items := ∅; held := ∅; made_for := [] |}.

Definition set_items (m : gmap bytes (list (Z * nat))) (s : State) : State :=
  {| items := m; held := held s; made_for := made_for s |}.
Definition set_held (m : gmap nat Item) (s : State) : State :=
  {| items := items s; held := m; made_for := made_for s |}.

Section Pools.
Context `{MinutesLib}.

(** [get_or_create]: the last client of the list, or a new one. *)
Definition new_client (remote_endpoint : bytes) (s : State) : State * nat :=
  ({| items := items s; held := held s; made_for := made_for s ++ [remote_endpoint] |}, length (made_for s)).

Definition get_or_create (remote_endpoint : bytes) (s : State) : State * nat :=
  match items s !! remote_endpoint with
  | Some pool =>
      match last pool with
      | None => new_client remote_endpoint s
      | Some (_, c) => (set_items (<[remote_endpoint := take (pred (length pool)) pool]> (items s)) s, c)
      end
  | None => new_client remote_endpoint s
  end.

(** [get] *)
Definition get (h : nat) (remote_endpoint : bytes) (s : State) : State :=
  let '(s, c) := get_or_create remote_endpoint s in
  set_held (<[h := {| my_http_client := Some c; end_point := remote_endpoint; disposed := false; running := false |}]> (held s)) s.

Definition return_back (now : Z) (remote_endpoint : bytes) (c : nat) (m : gmap bytes (list (Z * nat))) :
    gmap bytes (list (Z * nat)) :=
  match m !! remote_endpoint with
  | Some pool => <[remote_endpoint := pool ++ [(now, c)]]> m
  | None => <[remote_endpoint := [(now, c)]]> m
  end.

(** The loop of [gc] over one list. *)
Fixpoint gc_list (now : Z) (v : list (Z * nat)) : list (Z * nat) :=
  match v with
  | [] => []
  | (first, c) :: v' => if 2 <? full_minutes_since now first then gc_list now v' else v
  end.

Definition gc (now : Z) (m : gmap bytes (list (Z * nat))) : gmap bytes (list (Z * nat)) := gc_list now <$> m.

Definition fill_connections_amount (m : gmap bytes (list (Z * nat))) (dest : gmap bytes Z) : gmap bytes Z :=
  map_fold (fun key value dest => if (0 <? length value)%nat then <[key := Z.of_nat (length value)]> dest else dest) dest m.

(** [do_request] begins and ends; its future may be dropped in between. *)
Definition begin_request (i : Item) : Item :=
  {| my_http_client := my_http_client i; end_point := end_point i; disposed := disposed i; running := true |}.
Definition end_request (ok : bool) (i : Item) : Item :=
  {| my_http_client := my_http_client i; end_point := end_point i; disposed := disposed i || negb ok; running := false |}.

Definition upgraded_to_websocket (i : Item) : Item :=
  {| my_http_client := None; end_point := end_point i; disposed := disposed i; running := running i |}.

(** [Drop] of an item. *)
Definition drop_item (now : Z) (h : nat) (s : State) : State :=
  match held s !! h with
  | None => s
  | Some i =>
      let s := set_held (delete h (held s)) s in
      if disposed i then s
      else match my_http_client i with
           | Some c => set_items (return_back now (end_point i) c (items s)) s
           | None => s
           end
  end.

Inductive Event :=
  | Get (h : nat) (remote_endpoint : bytes)
  | Begin (h : nat)
  | End_ (h : nat) (ok : bool)
  | Upgraded (h : nat)
  | Drop (h : nat) (now : Z)
  | Gc (now : Z).

(** Items have names of their own: a [Get] under a name in use is not an event,
    nor is an upgrade of an HTTP/2 client. *)
Definition exec (k : Kind) (e : Event) (s : State) : State :=
  match e with
  | Get h remote_endpoint => match held s !! h with None => get h remote_endpoint s | Some _ => s end
  | Begin h => set_held (alter begin_request h (held s)) s
  | End_ h ok => set_held (alter (end_request ok) h (held s)) s
  | Upgraded h => match k with Http1 => set_held (alter upgraded_to_websocket h (held s)) s | Http2 => s end
  | Drop h now => drop_item now h s
  | Gc now => set_items (gc now (items s)) s
  end.

Definition run (k : Kind) (l : list Event) (s : State) : State := fold_left (fun s e => exec k e s) l s.

(** ** Custody *)

Definition pooled (s : State) (e : bytes) (c : nat) : Prop := exists l t, items s !! e = Some l /\ (t, c) ∈ l.
Definition holds (s : State) (h c : nat) : Prop := exists i, held s !! h = Some i /\ my_http_client i = Some c.

Record inv (s : State) : Prop := {
  inv_once : forall e l, items s !! e = Some l -> NoDup l.*2;
  inv_pooled : forall e c, pooled s e c -> made_for s !! c = Some e;
  inv_held : forall h i c, held s !! h = Some i -> my_http_client i = Some c ->
    made_for s !! c = Some (end_point i) /\ ~ pooled s (end_point i) c;
  inv_alone : forall h1 h2 c, holds s h1 c -> holds s h2 c -> h1 = h2
}.

(** The client is neither in the pool nor in an item, and will not be. *)
Definition gone (s : State) (c : nat) : Prop :=
  (c < length (made_for s))%nat /\ (forall e, ~ pooled s e c) /\ forall h, ~ holds s h c.

(** What only takes clients away. *)
Record less (s' s : State) : Prop := {
  less_made : made_for s' = made_for s;
  less_items : forall e l', items s' !! e = Some l' -> exists l, items s !! e = Some l /\ sublist l' l;
  less_held : forall h i', held s' !! h = Some i' ->
    exists i, held s !! h = Some i /\ end_point i' = end_point i /\
      (my_http_client i' = None \/ my_http_client i' = my_http_client i)
}.

Lemma less_pooled s' s e c : less s' s -> pooled s' e c -> pooled s e c.
Proof.
  intros Hl (l' & t & Hl' & Hin). destruct (less_items _ _ Hl _ _ Hl') as (l & Hs & Hsub). exists l, t.
  split; [done|]. by eapply elem_of_sublist.
Qed.

Lemma less_holds s' s h c : less s' s -> holds s' h c -> holds s h c.
Proof.
  intros Hl (i' & Hi' & Hc). destruct (less_held _ _ Hl _ _ Hi') as (i & Hi & _ & [E|E]); [congruence|].
  exists i. split; [done|congruence].
Qed.

Lemma less_inv s' s : less s' s -> inv s -> inv s'.
Proof.
  intros Hl [Ho Hp Hh Ha]. split.
  - intros e l' (l & Hs & Hsub)%(less_items _ _ Hl). eapply sublist_NoDup; [by eapply Ho|]. by apply fmap_sublist.
  - intros e c Hc. rewrite (less_made _ _ Hl). apply Hp. by eapply less_pooled.
  - intros h i' c Hi' Hc. destruct (less_held _ _ Hl _ _ Hi') as (i & Hi & He & [E|E]); [congruence|].
    rewrite (less_made _ _ Hl), He. destruct (Hh h i c Hi) as [? Hnot]; [congruence|]. split; [done|].
    intros Hpool. apply Hnot. by eapply less_pooled.
  - intros h1 h2 c H1 H2. eapply Ha; by eapply less_holds.
Qed.

Lemma less_gone s' s c : less s' s -> gone s c -> gone s' c.
Proof.
  intros Hl (Hlt & Hp & Hh). split_and!; [by rewrite (less_made _ _ Hl)| |].
  - intros e Hc. by eapply Hp, less_pooled.
  - intros h Hc. by eapply Hh, less_holds.
Qed.

Lemma less_alter f h s :
  (forall i, end_point (f i) = end_point i /\ (my_http_client (f i) = None \/ my_http_client (f i) = my_http_client i)) ->
  less (set_held (alter f h (held s)) s) s.
Proof.
  intros Hf. split; cbn; [done|eauto|]. intros h' i' Hi'. destruct (decide (h = h')) as [<-|Hne].
  - rewrite lookup_alter_eq in Hi'. apply fmap_Some in Hi' as (i & Hi & ->). exists i. split; [done|]. apply Hf.
  - rewrite lookup_alter_ne in Hi' by done. eauto.
Qed.

Lemma less_delete h s : less (set_held (delete h (held s)) s) s.
Proof. split; cbn; [done|eauto|]. intros h' i' [_ ?]%lookup_delete_Some. eauto. Qed.

Lemma gc_list_suffix now v : gc_list now v `suffix_of` v.
Proof. induction v as [|[t c] v IH]; cbn; [done|]. case_match; [by apply suffix_cons_r|done]. Qed.

Lemma less_gc now s : less (set_items (gc now (items s)) s) s.
Proof.
  split; cbn; [done| |eauto]. intros e l' Hl. unfold gc in Hl. rewrite lookup_fmap in Hl.
  apply fmap_Some in Hl as (l & Hl & ->). exists l. split; [done|].
  destruct (gc_list_suffix now l) as [k E]. rewrite E at 2. by apply sublist_inserts_l.
Qed.

(** A client that is nowhere goes into the pool or into an item. *)
Lemma give_pooled now e c s e' c' :
  pooled (set_items (return_back now e c (items s)) s) e' c' <-> pooled s e' c' \/ (e' = e /\ c' = c).
Proof.
  unfold pooled, return_back. cbn. destruct (items s !! e) as [pool|] eqn:Hp.
  - destruct (decide (e' = e)) as [->|Hne].
    + rewrite lookup_insert_eq, Hp. split.
      * intros (l & t & [= <-] & [Hin|Hin%list_elem_of_singleton]%elem_of_app); [left; by exists pool, t|right; by simplify_eq].
      * intros [(l & t & [= <-] & Hin)|[_ ->]]; eexists _, _; (split; [done|]); apply elem_of_app;
          [left; exact Hin|right; by apply list_elem_of_singleton].
    + rewrite lookup_insert_ne by done. naive_solver.
  - destruct (decide (e' = e)) as [->|Hne].
    + rewrite lookup_insert_eq, Hp. split.
      * intros (l & t & [= <-] & Hin%list_elem_of_singleton). right. naive_solver.
      * intros [(l & t & ? & _)|[_ ->]]; [done|]. eexists _, _. split; [done|]. by apply list_elem_of_singleton.
    + rewrite lookup_insert_ne by done. naive_solver.
Qed.

Lemma give_inv now e c s :
  inv s -> (forall h, ~ holds s h c) -> ~ pooled s e c -> made_for s !! c = Some e ->
  inv (set_items (return_back now e c (items s)) s).
Proof.
  intros [Ho Hp Hh Ha] Hnh Hnp Hm. split; [| |intros h i c' Hi Hc; cbn|exact Ha].
  - cbn. intros e' l. unfold return_back. destruct (items s !! e) as [pool|] eqn:Hpool.
    + intros [[<- <-]|[_ Hl]]%lookup_insert_Some; [|by eapply Ho]. rewrite fmap_app. apply NoDup_app.
      split_and!; [by eapply Ho| |apply NoDup_singleton]. intros c' [[t c''] [-> Hin]]%list_elem_of_fmap Hc%list_elem_of_singleton.
      cbn in Hc. subst c''. apply Hnp. by exists pool, t.
    + intros [[<- <-]|[_ Hl]]%lookup_insert_Some; [apply NoDup_singleton|by eapply Ho].
  - intros e' c' [?|[-> ->]]%give_pooled; [by apply Hp|done].
  - destruct (Hh _ _ _ Hi Hc) as [Hmade Hno]. split; [done|]. intros [?|[_ ->]]%give_pooled; [done|].
    apply (Hnh h). by exists i.
Qed.

Lemma take_inv h e c s :
  inv s -> (forall h, ~ holds s h c) -> ~ pooled s e c -> made_for s !! c = Some e -> held s !! h = None ->
  inv (set_held (<[h := {| my_http_client := Some c; end_point := e; disposed := false; running := false |}]> (held s)) s).
Proof.
  intros [Ho Hp Hh Ha] Hnh Hnp Hm Hfree. split; [exact Ho|exact Hp| |].
  - cbn. intros h' i c' [[<- <-]|[_ Hi]]%lookup_insert_Some; [|by eapply Hh]. intros [= <-]. done.
  - assert (forall h' c', holds (set_held (<[h := {| my_http_client := Some c; end_point := e; disposed := false;
      running := false |}]> (held s)) s) h' c' -> (h' = h /\ c' = c) \/ holds s h' c') as Hcases.
    { intros h' c' (i & Hi & Hc). cbn in Hi. apply lookup_insert_Some in Hi as [[<- <-]|[_ Hi]];
        [left; by injection Hc|right; by exists i]. }
    intros h1 h2 c' [[-> ->]|H1]%Hcases [[-> E]|H2]%Hcases; [done| | |by eapply Ha].
    + by destruct (Hnh h2).
    + subst. by destruct (Hnh h1).
Qed.

Lemma new_inv e s :
  inv s -> let '(s', c) := new_client e s in
  inv s' /\ (forall h, ~ holds s' h c) /\ (forall e', ~ pooled s' e' c) /\ made_for s' !! c = Some e.
Proof.
  intros [Ho Hp Hh Ha]. cbn. assert (forall c x, made_for s !! c = Some x -> (made_for s ++ [e]) !! c = Some x) as Hold
    by (intros c x Hc; by apply lookup_app_l_Some).
  split_and!.
  - split; [exact Ho| | |exact Ha]; cbn.
    + intros e' c Hc. by apply Hold, Hp.
    + intros h i c Hi Hc. destruct (Hh h i c Hi Hc). eauto.
  - intros h (i & Hi & Hc). destruct (Hh h i _ Hi Hc) as [Hm%lookup_lt_Some _]. lia.
  - intros e' Hc%Hp%lookup_lt_Some. lia.
  - by rewrite list_lookup_middle.
Qed.

Lemma pop_spec e pool t c s :
  inv s -> items s !! e = Some pool -> last pool = Some (t, c) ->
  let s' := set_items (<[e := take (pred (length pool)) pool]> (items s)) s in
  less s' s /\ (forall e', ~ pooled s' e' c) /\ (forall h, ~ holds s' h c) /\ made_for s' !! c = Some e.
Proof.
  intros [Ho Hp Hh Ha] Hpool [l ->]%last_Some. cbn.
  rewrite length_app. cbn. rewrite Nat.add_1_r. cbn. rewrite take_app_length.
  assert (pooled s e c) as Hc by (exists (l ++ [(t, c)]), t; split; [done|]; apply elem_of_app; right; by left).
  split_and!.
  - split; cbn; [done| |eauto]. intros e' l' [[<- <-]|[_ Hl]]%lookup_insert_Some; [|eauto].
    exists (l ++ [(t, c)]). split; [done|]. by apply sublist_inserts_r.
  - intros e' (l' & t' & Hl' & Hin). cbn in Hl'. apply lookup_insert_Some in Hl' as [[<- <-]|[Hne Hl]].
    + specialize (Ho _ _ Hpool). rewrite fmap_app in Ho. apply NoDup_app in Ho as (_ & Hno & _).
      apply (Hno c); [by apply (list_elem_of_fmap_2 snd _ (t', c))|by left].
    + assert (pooled s e' c) as Hc'%Hp by (by exists l', t'). apply Hp in Hc. congruence.
  - intros h (i & Hi & Hic). destruct (Hh h i c Hi Hic) as [Hm Hno]. apply Hp in Hc as Hm'.
    rewrite Hm in Hm'. injection Hm' as <-. done.
  - by apply Hp.
Qed.

Lemma get_or_create_spec e s :
  inv s -> let '(s', c) := get_or_create e s in
  inv s' /\ held s' = held s /\ (forall h, ~ holds s' h c) /\ (forall e', ~ pooled s' e' c) /\ made_for s' !! c = Some e /\
  forall c', gone s c' -> gone s' c' /\ c' <> c.
Proof.
  intros Hinv. unfold get_or_create.
  assert (let '(s', c) := new_client e s in
    inv s' /\ held s' = held s /\ (forall h, ~ holds s' h c) /\ (forall e', ~ pooled s' e' c) /\ made_for s' !! c = Some e /\
    forall c', gone s c' -> gone s' c' /\ c' <> c) as Hnew.
  { pose proof (new_inv e s Hinv) as Hn. cbn in *. destruct Hn as (? & ? & ? & ?). split_and!; try done.
    intros c' (Hlt & Hnp & Hnh). split; [|lia]. split_and!; [cbn; rewrite length_app; cbn; lia|exact Hnp|exact Hnh]. }
  destruct (items s !! e) as [pool|] eqn:Hpool; [|exact Hnew]. destruct (last pool) as [[t c]|] eqn:Hlast; [|exact Hnew].
  destruct (pop_spec e pool t c s Hinv Hpool Hlast) as (Hl & Hnp & Hnh & Hm). split_and!; try done.
  - by eapply less_inv.
  - intros c' Hg. split; [by eapply less_gone|]. intros ->. destruct Hg as (_ & Hno & _). apply (Hno e).
    exists pool, t. split; [done|]. by apply last_Some_elem_of.
Qed.

(** One step keeps the custody, and what is gone stays gone. *)
Lemma less_step s' s : less s' s -> inv s -> inv s' /\ forall c, gone s c -> gone s' c.
Proof. intros Hl Hinv. split; [by eapply less_inv|]. intros c. by apply less_gone. Qed.

Lemma drop_spec now h s :
  inv s -> inv (drop_item now h s) /\ (forall c, gone s c -> gone (drop_item now h s) c) /\
  forall i c, held s !! h = Some i -> my_http_client i = Some c ->
    if disposed i then gone (drop_item now h s) c else pooled (drop_item now h s) (end_point i) c.
Proof.
  intros Hinv. unfold drop_item. destruct (held s !! h) as [i|] eqn:Hi; [|done].
  pose proof (less_delete h s) as Hl. destruct (less_step _ _ Hl Hinv) as [Hinv' Hg].
  set (s' := set_held (delete h (held s)) s) in *.
  assert (forall c, my_http_client i = Some c -> made_for s' !! c = Some (end_point i) /\ ~ pooled s' (end_point i) c /\
    forall h', ~ holds s' h' c) as Hfree.
  { intros c Hc. destruct (inv_held _ Hinv _ _ _ Hi Hc). split_and!; [done|done|].
    intros h' (i' & Hi' & Hc'). cbn in Hi'. apply lookup_delete_Some in Hi' as [Hne Hi']. apply Hne.
    apply (inv_alone _ Hinv h h' c); [by exists i|by exists i']. }
  destruct (disposed i) eqn:Hd.
  - split_and!; [done|done|]. intros ? c [= <-] Hc. rewrite Hd. destruct (Hfree c Hc) as (Hm & Hnp & Hnh). split_and!; [by eapply lookup_lt_Some| |done].
    intros e He. apply (inv_pooled _ Hinv') in He as Hm'. rewrite Hm in Hm'. by injection Hm' as <-.
  - destruct (my_http_client i) as [c|] eqn:Hc; [|split_and!; [done|done|intros ? c [= <-]; congruence]].
    destruct (Hfree c eq_refl) as (Hm & Hnp & Hnh). split_and!.
    + by apply give_inv.
    + intros c' Hgc. assert (c' <> c) by (intros ->; apply (proj2 (proj2 Hgc) h); by exists i).
      apply Hg in Hgc as (Hlt & Hno & Hnh'). split_and!; [exact Hlt| |exact Hnh'].
      intros e [?|[_ ->]]%give_pooled; [by eapply Hno|done].
    + intros ? c' [= <-] Hc'. rewrite Hd. rewrite Hc in Hc'. injection Hc' as <-. apply give_pooled. by right.
Qed.

Lemma exec_spec k e s : inv s -> inv (exec k e s) /\ forall c, gone s c -> gone (exec k e s) c.
Proof.
  intros Hinv. destruct e as [h e|h|h ok|h|h now|now]; cbn.
  - destruct (held s !! h) eqn:Hh; [done|]. unfold get. pose proof (get_or_create_spec e s Hinv) as Hs.
    destruct (get_or_create e s) as [s' c]. destruct Hs as (Hinv' & Hheld & Hnh & Hnp & Hm & Hg). split.
    + apply take_inv; [done|done|done|done|by rewrite Hheld].
    + intros c' [(Hlt & Hno & Hnh') Hne]%Hg. split_and!; [exact Hlt|exact Hno|]. intros h' (i & Hi & Hc). cbn in Hi.
      apply lookup_insert_Some in Hi as [[<- <-]|[_ Hi]]; [cbn in Hc; congruence|]. apply (Hnh' h'). by exists i.
  - by apply less_step; [apply less_alter; eauto|].
  - by apply less_step; [apply less_alter; eauto|].
  - destruct k; [|done]. by apply less_step; [apply less_alter; eauto|].
  - destruct (drop_spec now h s Hinv) as (? & ? & _). done.
  - by apply less_step; [apply less_gc|].
Qed.

Lemma run_spec k l s : inv s -> inv (run k l s) /\ forall c, gone s c -> gone (run k l s) c.
Proof.
  revert s. induction l as [|e l IH]; intros s Hinv; [done|]. cbn. destruct (exec_spec k e s Hinv) as [Hinv' Hg].
  destruct (IH _ Hinv') as [? Hg']. split; [done|]. intros c Hc. by apply Hg', Hg.
Qed.

Lemma clients_start_inv : inv start.
Proof.
  split; cbn; [done| |done|].
  - intros e c (l & t & Hl & _). by cbn in Hl; rewrite lookup_empty in Hl.
  - intros h1 h2 c (i & Hi & _). by cbn in Hi; rewrite lookup_empty in Hi.
Qed.

Lemma upgraded_gone h c s : inv s -> holds s h c -> gone (exec Http1 (Upgraded h) s) c.
Proof.
  intros Hinv (i & Hi & Hc). destruct (inv_held _ Hinv _ _ _ Hi Hc) as [Hm Hnp].
  assert (less (exec Http1 (Upgraded h) s) s) as Hl by (apply less_alter; eauto).
  split_and!; [by rewrite (less_made _ _ Hl); eapply lookup_lt_Some| |].
  - intros e He%(less_pooled _ _ _ _ Hl). apply (inv_pooled _ Hinv) in He as Hm'. rewrite Hm in Hm'. by injection Hm' as <-.
  - intros h' Hh'. assert (h' = h) as -> by (apply (inv_alone _ Hinv h' h c); [by eapply less_holds|by exists i]).
    destruct Hh' as (i' & Hi' & Hc'). cbn in Hi'. rewrite lookup_alter_eq, Hi in Hi'. injection Hi' as <-. done.
Qed.

(** A client over SSH serves one request at a time.  Whatever requests come
    and end, and whatever the timer closes: each client is in at most one
    place, once in the pool of the endpoint it was made for or in one item for
    that endpoint; a request takes the client that was given back last, or a
    new one; when an item is dropped its client is back in the pool, unless its
    request failed: then, as after an upgrade, nobody ever gets it again. *)
Theorem clients_are_lent_to_one (k : Kind) (es : list Event) :
  let s := run k es start in
  (forall e l, items s !! e = Some l -> NoDup l.*2) /\
  (forall e c, pooled s e c -> made_for s !! c = Some e /\ forall h, ~ holds s h c) /\
  (forall h1 h2 c, holds s h1 c -> holds s h2 c -> h1 = h2) /\
  (forall h e, held s !! h = None -> exists c, holds (exec k (Get h e) s) h c /\
     match items s !! e ≫= last with Some (_, c') => c = c' | None => c = length (made_for s) end) /\
  (forall h i c now, held s !! h = Some i -> my_http_client i = Some c ->
     made_for s !! c = Some (end_point i) /\
     (disposed i = false -> pooled (exec k (Drop h now) s) (end_point i) c) /\
     forall later e h',
       (disposed i = true -> let s' := run k later (exec k (Drop h now) s) in ~ pooled s' e c /\ ~ holds s' h' c) /\
       (k = Http1 -> let s' := run k later (exec k (Upgraded h) s) in ~ pooled s' e c /\ ~ holds s' h' c)).
Proof.
  cbn zeta. pose proof (proj1 (run_spec k es start clients_start_inv)) as Hinv. set (s := run k es start) in *.
  split_and!; [apply Hinv| |apply Hinv| |].
  - intros e c Hc. split; [by apply Hinv|]. intros h (i & Hi & Hic). destruct (inv_held _ Hinv _ _ _ Hi Hic) as [Hm Hnp].
    apply (inv_pooled _ Hinv) in Hc as Hm'. rewrite Hm in Hm'. by injection Hm' as <-.
  - intros h e Hh. cbn. rewrite Hh. unfold get, get_or_create. destruct (items s !! e) as [pool|]; cbn.
    + destruct (last pool) as [[t c]|]; eexists; (split; [eexists; split; [cbn; apply lookup_insert_eq|done]|done]).
    + eexists. split; [eexists; split; [cbn; apply lookup_insert_eq|done]|done].
  - intros h i c now Hi Hc. destruct (drop_spec now h s Hinv) as (Hinv' & _ & Hd). specialize (Hd _ _ Hi Hc).
    split_and!; [by apply (inv_held _ Hinv _ _ _ Hi)|by intros E; rewrite E in Hd|]. intros later e h'. split.
    + intros E. rewrite E in Hd. destruct (proj2 (run_spec k later _ Hinv') c Hd) as (_ & Hnp & Hnh). done.
    + intros ->. assert (holds s h c) as Hhold by (by exists i). pose proof (upgraded_gone _ _ _ Hinv Hhold) as Hg.
      destruct (proj2 (run_spec Http1 later _ (proj1 (exec_spec Http1 (Upgraded h) s Hinv))) c Hg) as (_ & Hnp & Hnh). done.
Qed.

(** ** The timer *)

Definition time_of (e : Event) : option Z := match e with Drop _ now | Gc now => Some now | _ => None end.

(** The clock does not run backwards. *)
Fixpoint ordered (now : Z) (l : list Event) : Prop :=
  match l with
  | [] => True
  | e :: l => match time_of e with Some t => now <= t /\ clock t /\ ordered t l | None => ordered now l end
  end.

Definition times_ok (now : Z) (l : list (Z * nat)) : Prop :=
  StronglySorted (fun x y => fst x <= fst y) l /\ Forall (fun x => clock (fst x) /\ fst x <= now) l.

Definition all_times_ok (now : Z) (s : State) : Prop := forall e l, items s !! e = Some l -> times_ok now l.

Lemma times_ok_app l1 l2 now :
  times_ok now (l1 ++ l2) <->
  times_ok now l1 /\ times_ok now l2 /\ forall x y, x ∈ l1 -> y ∈ l2 -> fst x <= fst y.
Proof.
  unfold times_ok. rewrite Forall_app. induction l1 as [|x l1 IH]; cbn.
  - split; [|tauto]. intros [? [? ?]]. split_and!; [constructor|done|done|done|by intros ?? ?%not_elem_of_nil].
  - split.
    + intros [[Hs Hx]%StronglySorted_inv [[Hc H1]%Forall_cons H2]]. apply Forall_app in Hx as [Hx1 Hx2].
      destruct (proj1 IH) as ([? ?] & [? ?] & Hle); [done|]. split_and!; [by constructor|by constructor|done|done|].
      intros a b [->|Ha]%elem_of_cons Hb; [|by apply Hle]. rewrite Forall_forall in Hx2. by apply Hx2.
    + intros ([[Hs Hx]%StronglySorted_inv [Hc H1]%Forall_cons] & [H2 H3] & Hle).
      destruct (proj2 IH) as [? [? ?]]; [split_and!; try done; intros a b Ha Hb; apply Hle; [by right|done]|].
      split_and!; [|by constructor|done]. constructor; [done|]. apply Forall_app. split; [done|].
      apply Forall_forall. intros b Hb. apply Hle; [by left|done].
Qed.

Lemma times_ok_later t now l : now <= t -> times_ok now l -> times_ok t l.
Proof. intros Ht [Hs Hf]. split; [done|]. eapply Forall_impl; [exact Hf|]. intros x [? ?]. split; [done|lia]. Qed.

Lemma filter_all {A} (P : A -> Prop) `{!forall x, Decision (P x)} l : Forall P l -> filter P l = l.
Proof. induction 1 as [|x l Hx _ IH]; [done|]. by rewrite filter_cons, decide_True, IH. Qed.

Lemma gc_list_filter now l :
  clock now -> times_ok now l -> gc_list now l = filter (fun x => now - fst x < 180000000) l.
Proof.
  intros Hnow. induction l as [|[t c] l IH]; intros Hok; [done|].
  apply (times_ok_app [(t, c)] l) in Hok as Hok'. destruct Hok' as ([_ [[Ht Hle] _]%Forall_cons] & Hl & Hall). cbn in Ht, Hle.
  cbn [gc_list]. rewrite full_minutes_spec by done. rewrite filter_cons. cbn [fst].
  destruct (Z.ltb_spec 2 ((now - t) / 60000000)) as [E|E].
  - rewrite decide_False; [by apply IH|]. pose proof (Z.mul_div_le (now - t) 60000000). lia.
  - assert (now - t < 180000000) by (pose proof (Z.mul_succ_div_gt (now - t) 60000000); lia). rewrite decide_True by done.
    f_equal. symmetry. apply filter_all, Forall_forall. intros x Hx.
    specialize (Hall (t, c) x ltac:(by left) Hx). cbn in Hall. lia.
Qed.

Lemma exec_times k e now s :
  all_times_ok now s -> match time_of e with Some t => now <= t /\ clock t | None => True end ->
  all_times_ok (default now (time_of e)) (exec k e s).
Proof.
  intros Hok Ht. destruct e as [h e|h|h ok|h|h t|t]; cbn in *; [|exact Hok|exact Hok|by destruct k| |].
  - destruct (held s !! h); [done|]. unfold get, get_or_create. destruct (items s !! e) as [pool|] eqn:Hpool; cbn; [|exact Hok].
    destruct (last pool) as [[t c]|]; cbn; [|exact Hok]. intros e' l Hl. cbn in Hl.
    apply lookup_insert_Some in Hl as [[<- <-]|[_ Hl]]; [|by eapply Hok].
    specialize (Hok _ _ Hpool). rewrite <-(take_drop (pred (length pool)) pool) in Hok. by apply times_ok_app in Hok as [? _].
  - destruct Ht as [Hle Hc]. unfold drop_item. destruct (held s !! h) as [i|]; [|intros e l ?; by eapply times_ok_later, Hok].
    destruct (disposed i); [intros e l ?; by eapply times_ok_later, Hok|].
    destruct (my_http_client i) as [c|]; [|intros e l ?; by eapply times_ok_later, Hok].
    intros e l. cbn. unfold return_back. assert (times_ok t [(t, c)]) as Hone by (split; repeat constructor; cbn; (done || apply Hc || lia)).
    destruct (items s !! end_point i) as [pool|] eqn:Hpool; intros [[<- <-]|[_ Hl]]%lookup_insert_Some;
      [|by eapply times_ok_later, Hok|done|by eapply times_ok_later, Hok].
    apply times_ok_app. split_and!; [by eapply times_ok_later, Hok|done|]. intros x y Hx ->%list_elem_of_singleton. cbn.
    destruct (Hok _ _ Hpool) as [_ Hf]. rewrite Forall_forall in Hf. destruct (Hf x Hx). lia.
  - destruct Ht as [Hle _]. intros e l Hl. cbn in Hl. unfold gc in Hl. rewrite lookup_fmap in Hl.
    apply fmap_Some in Hl as (l0 & Hl0 & ->). apply (times_ok_later _ now); [done|]. specialize (Hok _ _ Hl0).
    destruct (gc_list_suffix t l0) as [u E]. rewrite E in Hok. by apply times_ok_app in Hok as (_ & ? & _).
Qed.

Lemma run_times k es last_event now s :
  all_times_ok now s -> ordered now (es ++ [Gc last_event]) ->
  clock last_event /\ all_times_ok last_event (run k es s).
Proof.
  revert now s. induction es as [|e es IH]; intros now s Hok Hord.
  - cbn in *. destruct Hord as (Hle & Hc & _). split; [done|]. intros e l Hl. by eapply times_ok_later, Hok.
  - cbn in Hord. pose proof (exec_times k e now s Hok) as Hx. cbn. destruct (time_of e) as [t|]; cbn in Hx.
    + destruct Hord as (Hle & Hc & Hord). eapply IH; [by apply Hx|done].
    + eapply IH; [by apply Hx|done].
Qed.

Lemma fill_connections_spec m dest e :
  fill_connections_amount m dest !! e =
    match m !! e with Some ((_ :: _) as l) => Some (Z.of_nat (length l)) | _ => dest !! e end.
Proof.
  unfold fill_connections_amount. revert e. apply (map_fold_weak_ind (fun r m => forall e, r !! e =
    match m !! e with Some ((_ :: _) as l) => Some (Z.of_nat (length l)) | _ => dest !! e end)).
  - intros e. by rewrite lookup_empty.
  - intros key value m' r Hkey IH e. destruct (decide (e = key)) as [->|Hne].
    + rewrite lookup_insert_eq. destruct value as [|x value]; cbn.
      * by rewrite IH, Hkey.
      * by rewrite lookup_insert_eq.
    + rewrite lookup_insert_ne by done. case_match; [rewrite lookup_insert_ne by done|]; apply IH.
Qed.

(** A tick of the timer closes exactly the clients that nobody has taken
    for three minutes: while the clock does not run backwards, what is left of
    every list are its entries of the last three minutes, in their order; and
    the report of connections has, for each endpoint, their number, endpoints
    without a connection being left as they were. *)
Theorem idle_clients_are_closed (k : Kind) (es : list Event) (now : Z) (Hclock : ordered 0 (es ++ [Gc now])) :
  let s := run k es start in let s' := exec k (Gc now) s in
  (forall e, items s' !! e = filter (fun x => now - fst x < 180000000) <$> items s !! e) /\
  forall dest e, fill_connections_amount (items s') dest !! e =
    match items s' !! e with Some ((_ :: _) as l) => Some (Z.of_nat (length l)) | _ => dest !! e end.
Proof.
  cbn zeta. split; [|intros; apply fill_connections_spec]. intros e.
  destruct (run_times k es now 0 start) as [Hc Hok]; [|done|].
  { intros e' l Hl. cbn in Hl. by rewrite lookup_empty in Hl. }
  cbn. unfold gc. rewrite lookup_fmap. destruct (items (run k es start) !! e) as [l|] eqn:Hl; [|done]. cbn. f_equal.
  apply gc_list_filter; [done|by eapply Hok].
Qed.

(** The client of a request that is given up goes back into the pool, like one
    whose request has ended: only an error keeps it out. *)
Lemma abandoned_client_is_returned k e :
  pooled (run k [Get 0 e; Begin 0; Drop 0 5] start) e 0.
Proof.
  exists [(5, 0%nat)], 5. split; [|by left]. cbn. rewrite lookup_empty. unfold get, get_or_create. cbn. rewrite lookup_empty.
  cbn. unfold drop_item. cbn. rewrite lookup_alter_eq, lookup_insert_eq. cbn. unfold return_back.
  by rewrite lookup_empty, lookup_insert_eq.
Qed.

End Pools.

(** ** Witness *)

#[local] Program Instance toy_minutes : MinutesLib := {| full_minutes_since := fun now start => (now - start) / 60000000 |}.
Next Obligation. done. Qed.

Definition minute : Z := 60000000.
Definition endpoint : bytes := bs "ssh:u@h:22->http://x".
Definition demo : list Event :=
  [Get 0 endpoint; Get 1 endpoint; Begin 0; End_ 0 true; Drop 0 minute; Begin 1; End_ 1 true; Drop 1 (3 * minute)].

Lemma idle_clients_are_closed_witness :
  items (exec Http1 (Gc (4 * minute)) (run Http1 demo start)) !! endpoint = Some [(3 * minute, 1%nat)].
Proof.
  destruct (idle_clients_are_closed Http1 demo (4 * minute)) as [H _].
  - cbn. unfold clock, minute. lia.
  - rewrite H. vm_compute. reflexivity.
Defined.

End ClientPools.
