(* ===== verification/HyperTunnel.v ===== *)
(** * Upgraded connections of the hyper path: [http_proxy_pass/web_socket_loop.rs],
      the pumps of [http_proxy_pass/http_proxy_pass.rs] and
      [tcp_utils/metered_stream.rs]

    A WebSocket of an HTTP/1 client is copied message by message in both
    directions; an extended CONNECT of HTTP/2 is copied byte by byte, and the
    two copies are raced. *)

From Stdlib Require Import ZArith Lia Strings.String.
From stdpp Require Import base tactics list strings.
From S2P Require Import Prelude StreamCopy.

Local Open Scope Z_scope.

(** ** [web_socket_loop.rs] *)

Module Messages.

(** [tungstenite::Message]; a close frame and what a raw frame holds besides
    its payload are texts. *)
Inductive Message :=
  | Text (s : bytes)
  | Binary (b : bytes)
  | Ping (b : bytes)
  | Pong (b : bytes)
  | CloseFrame (frame : option bytes)
  | Frame (header payload : bytes).

Definition ws_message_payload_len (msg : Message) : Z :=
  match msg with
  | Text s | Binary s | Ping s | Pong s => Z.of_nat (length s)
  | CloseFrame _ => 0
  | Frame _ payload => Z.of_nat (length payload)
  end.

(** What [next] gives within its time-out, and what becomes of a [send]; a
    message of a [send] that fails may or may not have been taken. *)
Inductive Incoming := Msg (m : Message) | Broken (err : bytes) | Closed | ReadLate.
Inductive Sending := Sent | SendError (taken : bool) (err : bytes) | SendLate (taken : bool).

(** The two copies: the loop of [web_socket_loop] and
    [serve_from_server_to_client]. *)
Inductive Side := FromRemote | ToRemote.

Record Copy := {
  sent : list Message;
  recorded : list Z;          (* calls of [record_ws_s2c] or [record_ws_c2s] *)
  written : list bytes;       (* messages for [log_scope.write] *)
  have_traced_message : bool
}.

Section Loops.
Context (debug_message : Message -> bytes) (debug_timeout : bytes) (side : Side) (trace_payload : bool) (domain : option bytes).

Definition write (text : bytes) (c : Copy) : Copy :=
  {| sent := sent c; recorded := recorded c; written := written c ++ [text]; have_traced_message := have_traced_message c |}.

(** The first message is traced, to the remote with its content. *)
Definition trace (m : Message) (c : Copy) : Copy :=
  if trace_payload && negb (have_traced_message c) then
    {| sent := sent c; recorded := recorded c;
       written := written c ++ match side with
                               | ToRemote => [bs "WS Message to remote: " ++ debug_message m]
                               | FromRemote => []
                               end;
       have_traced_message := true |}
  else c.

Definition record (m : Message) (c : Copy) : Copy :=
  match domain with
  | Some _ => {| sent := sent c; recorded := recorded c ++ [ws_message_payload_len m]; written := written c;
                 have_traced_message := have_traced_message c |}
  | None => c
  end.

Definition deliver (m : Message) (taken : bool) (c : Copy) : Copy :=
  {| sent := if taken then sent c ++ [m] else sent c; recorded := recorded c; written := written c;
     have_traced_message := have_traced_message c |}.

Definition broken_text (err : bytes) : list bytes :=
  match side with FromRemote => [bs "Error in websocket connection: Err(" ++ err ++ bs ")"] | ToRemote => [] end.
Definition late_text : bytes :=
  match side with
  | FromRemote => bs "ws_sender.send timed out after " ++ debug_timeout
  | ToRemote => bs "to_remote_write.send timed out after " ++ debug_timeout ++ bs " in server_to_client loop"
  end.
Definition error_text (err : bytes) : bytes :=
  match side with
  | FromRemote => bs "ws_sender.send error: " ++ err
  | ToRemote => bs "Error in websocket server_to_client loop: " ++ err
  end.

(** The loop; when nothing comes any more the read times out. *)
Fixpoint copy_loop (incoming : list Incoming) (sendings : list Sending) (c : Copy) : Copy :=
  match incoming with
  | [] | (ReadLate | Closed) :: _ => c
  | Broken err :: _ => foldl (fun c text => write text c) c (broken_text err)
  | Msg m :: incoming =>
      let c := record m (trace m c) in
      match sendings with
      | [] | Sent :: _ => copy_loop incoming (tail sendings) (deliver m true c)
      | SendLate taken :: _ => write late_text (deliver m taken c)
      | SendError taken err :: _ => write (error_text err) (deliver m taken c)
      end
  end.

Definition starting_text : bytes :=
  match side with
  | FromRemote => bs "WS is starting reading message from remote"
  | ToRemote => bs "WS is starting reading message to remote"
  end.

Definition copy_messages (incoming : list Incoming) (sendings : list Sending) (c : Copy) : Copy :=
  copy_loop incoming sendings (if trace_payload then write starting_text c else c).

(** The messages before the first thing that is not one. *)
Fixpoint messages (incoming : list Incoming) : list Message :=
  match incoming with Msg m :: incoming => m :: messages incoming | _ => [] end.

(** How many sends go well from the start. *)
Fixpoint sends_ok (sendings : list Sending) (n : nat) : nat :=
  match n with
  | O => O
  | S n => match sendings with [] | Sent :: _ => S (sends_ok (tail sendings) n) | _ => O end
  end.

Lemma messages_loop_spec incoming sendings c :
  let c' := copy_loop incoming sendings c in
  let ms := messages incoming in
  let j := sends_ok sendings (length ms) in
  (sent c' = sent c ++ take j ms \/ sent c' = sent c ++ take (S j) ms) /\
  recorded c' = recorded c ++ match domain with Some _ => map ws_message_payload_len (take (S j) ms) | None => [] end /\
  (j = length ms -> sent c' = sent c ++ ms).
Proof.
  revert sendings c. induction incoming as [|x incoming IH]; intros sendings c.
  { cbn. rewrite app_nil_r. split_and!; [by left| |done]. by destruct domain; rewrite ?app_nil_r. }
  destruct x as [m|err| |]; cbn.
  2: { assert (forall l c, sent (foldl (fun c text => write text c) c l) = sent c /\
         recorded (foldl (fun c text => write text c) c l) = recorded c) as Hw.
       { intros l. induction l as [|t l IHl]; intros c0; [done|]. cbn. destruct (IHl (write t c0)) as [-> ->]. done. }
       destruct (Hw (broken_text err) c) as [-> ->]. rewrite app_nil_r. split_and!; [by left| |done].
       by destruct domain; rewrite ?app_nil_r. }
  2,3: rewrite app_nil_r; split_and!; [by left| |done]; by destruct domain; rewrite ?app_nil_r.
  assert (sent (record m (trace m c)) = sent c /\
    recorded (record m (trace m c)) = recorded c ++ match domain with Some _ => [ws_message_payload_len m] | None => [] end)
    as [Hs Hr].
  { unfold record, trace. destruct domain, (trace_payload && _); cbn; by rewrite ?app_nil_r. }
  destruct sendings as [|[| |] sendings]; cbn.
  - destruct (IH [] (deliver m true (record m (trace m c)))) as (Hsent & Hrec & Hall). cbn in *. rewrite Hs, Hr in *.
    rewrite <-!app_assoc in *. split_and!; [destruct Hsent as [E|E]; rewrite E; [by left|by right]| |].
    + rewrite Hrec. by destruct domain; rewrite <-?app_assoc.
    + intros [= Hj]. by rewrite Hall.
  - destruct (IH sendings (deliver m true (record m (trace m c)))) as (Hsent & Hrec & Hall). cbn in *. rewrite Hs, Hr in *.
    rewrite <-!app_assoc in *. split_and!; [destruct Hsent as [E|E]; rewrite E; [by left|by right]| |].
    + rewrite Hrec. by destruct domain; rewrite <-?app_assoc.
    + intros [= Hj]. by rewrite Hall.
  - rewrite Hs, Hr. rewrite app_nil_r. split_and!; [destruct taken; [right|left]; done| |done]. by destruct domain.
  - rewrite Hs, Hr. rewrite app_nil_r. split_and!; [destruct taken; [right|left]; done| |done]. by destruct domain.
Qed.

End Loops.

(** A WebSocket of the hyper path is copied message by message.  In either
    direction the other side has received, in order, the messages up to the
    first read that gives none or the first send that fails, of which at most
    the failed one is in doubt; with a domain every message that was read is
    counted once with the size of its payload, the failed one included; and
    when no send fails all of them arrive. *)
Theorem messages_are_copied (debug_message : Message -> bytes) (debug_timeout : bytes) (side : Side) (trace_payload : bool)
    (domain : option bytes) (incoming : list Incoming) (sendings : list Sending) :
  let c := copy_messages debug_message debug_timeout side trace_payload domain incoming sendings
             {| sent := []; recorded := []; written := []; have_traced_message := false |} in
  let ms := messages incoming in
  exists j, (j <= length ms)%nat /\ (sent c = take j ms \/ sent c = take (S j) ms) /\
    recorded c = match domain with Some _ => map ws_message_payload_len (take (S j) ms) | None => [] end /\
    (Forall (fun x => x = Sent) sendings -> j = length ms /\ sent c = ms).
Proof.
  cbn zeta. exists (sends_ok sendings (length (messages incoming))). unfold copy_messages.
  destruct (messages_loop_spec debug_message debug_timeout side trace_payload domain incoming sendings
    (if trace_payload then write (starting_text side) {| sent := []; recorded := []; written := []; have_traced_message := false |}
     else {| sent := []; recorded := []; written := []; have_traced_message := false |})) as (Hs & Hr & Hall).
  assert (forall n l, (sends_ok l n <= n)%nat) as Hle.
  { intros n. induction n as [|n IH]; intros l; cbn; [lia|]. destruct l as [|[| |] l]; cbn; [specialize (IH []); lia|specialize (IH l); lia|lia..]. }
  assert (forall n l, Forall (fun x => x = Sent) l -> sends_ok l n = n) as Hok.
  { intros n. induction n as [|n IH]; intros l Hl; [done|]. cbn. destruct Hl as [|x l -> Hl]; cbn; by rewrite IH. }
  split_and!; [apply Hle|by destruct trace_payload|by rewrite Hr; destruct domain, trace_payload|].
  intros Hl. rewrite Hok in * by done. split; [done|]. rewrite Hall by done. by destruct trace_payload.
Qed.

End Messages.

(** ** The pumps of [http_proxy_pass.rs] *)

Module Pumps.
Import Copy.

#[local] Instance WsDirection_eq_dec : EqDecision WsDirection.
Proof. solve_decision. Defined.

(** Where [copy_one_direction] is.  [received] is what its reads gave,
    [sent] what its writes put on the wire. *)
Inductive Phase := Reading | Writing (buf : bytes) | ShuttingDown | Ended.
Record Direction := { phase : Phase; received : bytes; sent : bytes; writer_shut : bool }.

(** [pump_h2_extended_connect]: before the upgrade, in the select, after it. *)
Inductive Stage := Upgrading | Pumping | Finished.

Record State := {
  stage : Stage;
  c2s : Direction;
  s2c : Direction;
  records : list (WsDirection * Z);   (* calls of [recorder.record] *)
  written : list bytes;               (* messages for [log_scope.write] *)
  disconnects : nat                   (* calls of [web_socket_disconnect] *)
}.

Definition fresh : Direction := {| phase := Reading; received := []; sent := []; writer_shut := false |}.
Definition start : State :=
  {| stage := Upgrading; c2s := fresh; s2c := fresh; records := []; written := []; disconnects := 0 |}.

Definition BUF_SIZE : nat := (16 * 1024)%nat.

Inductive ReadResult := ReadSome (data : bytes) | ReadEof | ReadError (err : bytes) | ReadTimeout.
Inductive WriteResult := WroteAll | WriteError (n : nat) (err : bytes) | WriteTimeout (n : nat).

Inductive Event :=
  | Upgraded
  | UpgradeFailed (err : bytes)
  | Read (d : WsDirection) (r : ReadResult)
  | Write (d : WsDirection) (r : WriteResult)
  | Shutdown (d : WsDirection).

Section Pumps.
Context (domain : option bytes).

Definition dir_name (d : WsDirection) : bytes := match d with ClientToServer => bs "c2s" | ServerToClient => bs "s2c" end.
Definition direction (d : WsDirection) (s : State) : Direction := match d with ClientToServer => c2s s | ServerToClient => s2c s end.
Definition set_direction (d : WsDirection) (x : Direction) (s : State) : State :=
  match d with
  | ClientToServer => {| stage := stage s; c2s := x; s2c := s2c s; records := records s; written := written s; disconnects := disconnects s |}
  | ServerToClient => {| stage := stage s; c2s := c2s s; s2c := x; records := records s; written := written s; disconnects := disconnects s |}
  end.
Definition log (text : bytes) (s : State) : State :=
  {| stage := stage s; c2s := c2s s; s2c := s2c s; records := records s; written := written s ++ [text]; disconnects := disconnects s |}.
Definition goto (p : Phase) (x : Direction) : Direction :=
  {| phase := p; received := received x; sent := sent x; writer_shut := writer_shut x |}.

(** [MeteredStream::poll_read]: a read that gives bytes is recorded. *)
Definition poll_read (d : WsDirection) (data : bytes) (s : State) : State :=
  match domain with
  | Some _ => {| stage := stage s; c2s := c2s s; s2c := s2c s; records := records s ++ [(d, Z.of_nat (length data))];
                 written := written s; disconnects := disconnects s |}
  | None => s
  end.

Definition pump_log (d : WsDirection) (what : bytes) : State -> State :=
  log (bs "h2 ext-CONNECT WS pump [" ++ dir_name d ++ bs "] " ++ what).

(** A read gives at most the buffer, and something. *)
Definition readable (data : bytes) : bool := (0 <? length data)%nat && (length data <=? BUF_SIZE)%nat.

Definition read_step (d : WsDirection) (r : ReadResult) (s : State) : State :=
  let x := direction d s in
  match r with
  | ReadSome data =>
      if readable data then
        set_direction d {| phase := Writing data; received := received x ++ data; sent := sent x; writer_shut := writer_shut x |}
          (poll_read d data s)
      else s
  | ReadEof => set_direction d (goto ShuttingDown x) s
  | ReadError err => set_direction d (goto ShuttingDown x) (pump_log d (bs "read error: " ++ err) s)
  | ReadTimeout => set_direction d (goto ShuttingDown x) (pump_log d (bs "idle read timeout") s)
  end.

Definition write_step (d : WsDirection) (buf : bytes) (r : WriteResult) (s : State) : State :=
  let x := direction d s in
  let put p n := {| phase := p; received := received x; sent := sent x ++ take n buf; writer_shut := writer_shut x |} in
  match r with
  | WroteAll => set_direction d (put Reading (length buf)) s
  | WriteError n err => set_direction d (put ShuttingDown n) (pump_log d (bs "write error: " ++ err) s)
  | WriteTimeout n => set_direction d (put ShuttingDown n) (pump_log d (bs "write timeout") s)
  end.

(** The end of [pump_bidirectional_with_timeouts] and of its caller: the select
    has seen one copy end and drops the other. *)
Definition finish (s : State) : State :=
  {| stage := Finished; c2s := c2s s; s2c := s2c s; records := records s;
     written := written s ++ [bs "h2 ext-CONNECT WS pump finished"]; disconnects := S (disconnects s) |}.

Definition exec (e : Event) (s : State) : State :=
  match stage s, e with
  | Upgrading, Upgraded =>
      {| stage := Pumping; c2s := c2s s; s2c := s2c s; records := records s; written := written s; disconnects := disconnects s |}
  | Upgrading, UpgradeFailed err =>
      {| stage := Finished; c2s := c2s s; s2c := s2c s; records := records s;
         written := written s ++ [bs "h2 extended-CONNECT upgrade failed: " ++ err]; disconnects := S (disconnects s) |}
  | Pumping, Read d r => match phase (direction d s) with Reading => read_step d r s | _ => s end
  | Pumping, Write d r => match phase (direction d s) with Writing buf => write_step d buf r s | _ => s end
  | Pumping, Shutdown d =>
      match phase (direction d s) with
      | ShuttingDown =>
          let x := direction d s in
          finish (set_direction d {| phase := Ended; received := received x; sent := sent x; writer_shut := true |} s)
      | _ => s
      end
  | _, _ => s
  end.

Definition run (l : list Event) (s : State) : State := fold_left (fun s e => exec e s) l s.

(** What was read and not written is the buffer, or a part of the last one. *)
Definition dir_ok (x : Direction) : Prop :=
  exists rest, received x = sent x ++ rest /\ (length rest <= BUF_SIZE)%nat /\
    match phase x with
    | Reading => rest = [] /\ writer_shut x = false
    | Writing buf => rest = buf /\ writer_shut x = false
    | ShuttingDown => writer_shut x = false
    | Ended => writer_shut x = true
    end.

Definition counted (d : WsDirection) (l : list (WsDirection * Z)) : Z :=
  fold_right (fun x n => if decide (fst x = d) then snd x + n else n) 0 l.

Record inv (s : State) : Prop := {
  inv_dirs : forall d, dir_ok (direction d s);
  inv_counted : forall d, counted d (records s) = match domain with Some _ => Z.of_nat (length (received (direction d s))) | None => 0 end;
  inv_stage : match stage s with
    | Upgrading => disconnects s = 0%nat /\ c2s s = fresh /\ s2c s = fresh
    | Pumping => disconnects s = 0%nat /\ forall d, phase (direction d s) <> Ended
    | Finished => disconnects s = 1%nat /\ ((c2s s = fresh /\ s2c s = fresh) \/ exists d, writer_shut (direction d s) = true)
    end
}.

Lemma pumps_start_inv : inv start.
Proof.
  split; cbn; [|by intros []; destruct domain|done]. intros []; exists []; cbn; (split; [done|]; split; [unfold BUF_SIZE; lia|done]).
Qed.

Lemma direction_set d d' x s : direction d' (set_direction d x s) = if decide (d' = d) then x else direction d' s.
Proof. by destruct d, d'. Qed.

Lemma counted_app d l1 l2 : counted d (l1 ++ l2) = counted d l1 + counted d l2.
Proof. unfold counted. induction l1 as [|x l1 IH]; cbn; [done|]. rewrite IH. case_decide; lia. Qed.

(** A step of one direction, with what it records and writes to the log. *)
Lemma set_direction_inv d x l w s s' :
  s' = set_direction d x {| stage := Pumping; c2s := c2s s; s2c := s2c s; records := records s ++ l; written := w;
                            disconnects := disconnects s |} ->
  inv s -> stage s = Pumping -> dir_ok x -> phase x <> Ended ->
  (forall d', counted d' l = if decide (d' = d) then
     match domain with Some _ => Z.of_nat (length (received x)) - Z.of_nat (length (received (direction d s))) | None => 0 end
   else 0) ->
  inv s'.
Proof.
  intros -> [Hd Hc Hs] Hst Hx Hp Hl. rewrite Hst in Hs. destruct Hs as [Hdis Hne]. split.
  - intros d'. rewrite direction_set. case_decide; [done|]. specialize (Hd d'). by destruct d'.
  - intros d'. rewrite direction_set. specialize (Hc d'). specialize (Hl d').
    replace (records (set_direction d x _)) with (records s ++ l) by (by destruct d). rewrite counted_app, Hc, Hl.
    destruct (decide (d' = d)) as [->|Hne']; [destruct domain; lia|]. destruct domain, d'; cbn; lia.
  - replace (stage (set_direction d x _)) with Pumping by (by destruct d).
    replace (disconnects (set_direction d x _)) with (disconnects s) by (by destruct d). split; [done|].
    intros d'. rewrite direction_set. case_decide; [done|]. specialize (Hne d'). by destruct d'.
Qed.

(** One that records nothing. *)
Lemma quiet_step_inv d x w a b rec w0 dis :
  let s := {| stage := Pumping; c2s := a; s2c := b; records := rec; written := w0; disconnects := dis |} in
  inv s -> dir_ok x -> phase x <> Ended -> received x = received (direction d s) ->
  inv (set_direction d x {| stage := Pumping; c2s := a; s2c := b; records := rec; written := w; disconnects := dis |}).
Proof.
  intros s Hinv Hx Hp Hr. apply (set_direction_inv d x [] w s); [by cbn; rewrite app_nil_r|done|done|done|done|].
  intros d'. cbn. case_decide; [|done]. rewrite Hr. destruct domain; lia.
Qed.

Lemma read_step_inv d r s : inv s -> stage s = Pumping -> phase (direction d s) = Reading -> inv (read_step d r s).
Proof.
  intros Hinv Hst Hph. destruct (inv_dirs _ Hinv d) as (rest & Hr & _ & Hp). rewrite Hph in Hp. destruct Hp as [-> Hsh].
  rewrite app_nil_r in Hr. destruct s as [st a b rec w dis]; cbn in Hst; subst st. unfold read_step.
  assert (dir_ok (goto ShuttingDown (direction d {| stage := Pumping; c2s := a; s2c := b; records := rec; written := w; disconnects := dis |})))
    as Hgo by (exists []; rewrite app_nil_r; split_and!; [exact Hr|cbn; lia|exact Hsh]).
  destruct r as [data| |err|].
  - destruct (readable data) eqn:E; [|done]. unfold readable in E. rewrite andb_true_iff, Nat.ltb_lt, Nat.leb_le in E.
    match goal with |- inv (set_direction _ ?x _) =>
      apply (set_direction_inv d x (match domain with Some _ => [(d, Z.of_nat (length data))] | None => [] end) w _ _) with
        (2 := Hinv); [unfold poll_read; destruct domain; cbn; by rewrite ?app_nil_r|done| |done|] end.
    + exists data. cbn [received sent phase writer_shut]. rewrite Hr. split_and!; [done|lia|done|exact Hsh].
    + intros d'. cbn [received]. rewrite length_app. destruct domain; cbn; [|by case_decide].
      case_decide as E1; case_decide as E2; subst; try done; lia.
  - by apply (quiet_step_inv d _ w a b rec w dis).
  - by apply (quiet_step_inv d _ _ a b rec w dis).
  - by apply (quiet_step_inv d _ _ a b rec w dis).
Qed.

Lemma write_step_inv d buf r s :
  inv s -> stage s = Pumping -> phase (direction d s) = Writing buf -> inv (write_step d buf r s).
Proof.
  intros Hinv Hst Hph. destruct (inv_dirs _ Hinv d) as (rest & Hr & Hlen & Hp). rewrite Hph in Hp. destruct Hp as [-> Hsh].
  destruct s as [st a b rec w dis]; cbn in Hst; subst st. unfold write_step.
  assert (forall p n, p = ShuttingDown \/ (p = Reading /\ n = length buf) ->
    dir_ok {| phase := p; received := received (direction d {| stage := Pumping; c2s := a; s2c := b; records := rec; written := w; disconnects := dis |});
              sent := sent (direction d {| stage := Pumping; c2s := a; s2c := b; records := rec; written := w; disconnects := dis |}) ++ take n buf;
              writer_shut := writer_shut (direction d {| stage := Pumping; c2s := a; s2c := b; records := rec; written := w; disconnects := dis |}) |})
    as Hput.
  { intros p n Hpn. exists (drop n buf). cbn [phase received sent writer_shut]. rewrite <-app_assoc, take_drop, length_drop.
    split_and!; [done|lia|]. destruct Hpn as [->|[-> ->]]; [done|]. by rewrite drop_all. }
  destruct r as [|n err|n].
  all: apply (quiet_step_inv d _ _ a b rec w dis); [exact Hinv|apply Hput; auto|done|done].
Qed.

Lemma pump_exec_inv e s : inv s -> inv (exec e s).
Proof.
  intros Hinv. unfold exec. destruct (stage s) eqn:Hst; [| |done].
  - destruct Hinv as [Hd Hc Hs]. rewrite Hst in Hs. destruct Hs as (Hdis & Ha & Hb).
    destruct e; try (split; [exact Hd|exact Hc|by rewrite Hst]).
    + split; [exact Hd|exact Hc|]. split; [exact Hdis|]. cbn. intros []; cbn; by rewrite ?Ha, ?Hb.
    + split; [exact Hd|exact Hc|]. cbn. split; [by rewrite Hdis|by left].
  - destruct e as [| |d r|d r|d]; [done|done| | |]; destruct (phase (direction d s)) eqn:Hph; try done.
    + by apply read_step_inv.
    + by apply write_step_inv.
    + destruct Hinv as [Hd Hc Hs]. rewrite Hst in Hs. destruct Hs as [Hdis Hne].
      destruct (Hd d) as (rest & Hr & Hlen & Hp). split.
      * intros d'. specialize (Hd d'). destruct (decide (d' = d)) as [->|]; [|by destruct d, d'].
        exists rest. by destruct d.
      * intros d'. specialize (Hc d'). by destruct d, d'.
      * replace (stage _) with Finished by done. split; [by destruct d; cbn; rewrite Hdis|]. right. exists d. by destruct d.
Qed.

Lemma pumps_run_inv l s : inv s -> inv (run l s).
Proof. revert s. induction l as [|e l IH]; intros s Hs; [done|]. cbn. by apply IH, pump_exec_inv. Qed.

Lemma finished_stays l s : stage s = Finished -> run l s = s.
Proof.
  intros Hs. induction l as [|e l IH]; [done|]. cbn. replace (exec e s) with s; [done|]. unfold exec. by rewrite Hs.
Qed.

End Pumps.

(** An extended CONNECT of HTTP/2 is a transparent tunnel that ends as a
    whole.  Whatever the order of the reads and writes of both directions:
    each side has received a prefix of what the other one sent, which lacks at
    most one buffer and, while the copy waits for more, nothing; every byte
    that was read is counted for the domain, once and in its direction; the
    upstream is disconnected once, when the first of the two copies has shut
    its writer down or the upgrade has failed, and nothing moves after that. *)
Theorem extended_connect_is_transparent (domain : option bytes) (es : list Event) :
  let s := run domain es start in
  (forall d, let x := direction d s in
     (exists rest, received x = sent x ++ rest /\ (length rest <= BUF_SIZE)%nat /\ (phase x = Reading -> rest = [])) /\
     counted d (records s) = match domain with Some _ => Z.of_nat (length (received x)) | None => 0 end) /\
  (stage s <> Finished -> disconnects s = 0%nat) /\
  (stage s = Finished -> disconnects s = 1%nat /\
     ((forall d, received (direction d s) = []) \/ exists d, writer_shut (direction d s) = true) /\
     forall later, run domain later s = s).
Proof.
  cbn zeta. pose proof (pumps_run_inv domain es start (pumps_start_inv domain)) as [Hd Hc Hs]. split_and!.
  - intros d. split; [|apply Hc]. destruct (Hd d) as (rest & Hr & Hlen & Hp). exists rest. split_and!; [done|done|].
    intros E. rewrite E in Hp. apply Hp.
  - intros Hne. destruct (stage (run domain es start)); [apply Hs|apply Hs|done].
  - intros Hst. rewrite Hst in Hs. destruct Hs as [Hdis Hend]. split_and!; [done| |intros later; by apply finished_stays].
    destruct Hend as [[Ha Hb]|?]; [left|by right]. intros []; cbn; by rewrite ?Ha, ?Hb.
Qed.

End Pumps.
