(* ===== verification/SshContent.v ===== *)
(** * Files of another machine: [http_content_source/ssh_file_content_src.rs]

    A location of the hyper path whose folder is on a machine behind SSH
    downloads the file of each request.  A [~] in its name stands for the home
    directory there, which is asked for once and kept. *)

From Stdlib Require Import ZArith Lia Strings.String Strings.Byte.
From stdpp Require Import base tactics list strings.
From S2P Require Import Prelude RustStd IpBlocklist LocalContent.

Local Open Scope Z_scope.

Module SshContent.
Import Content.

(** [SshSessionError], as far as the code looks into it. *)
Inductive SshSessionError := SshSessionCode (code : Z) | OtherSshError (text : bytes).

(** What the session answers: the command [echo $HOME], the [n]-th time, and a
    download. *)
Record Session := {
  echo_home : nat -> bytes + SshSessionError;
  download_remote_file : bytes -> bytes + SshSessionError
}.

(** [PathOverSshContentSource]; [asked] counts the commands. *)
Record PathOverSshContentSource := {
  file_path : bytes;
  default_file : option bytes;
  home_value : option bytes;
  asked : nat
}.

Definition ssh_source_new (file_path : bytes) (default_file : option bytes) : PathOverSshContentSource :=
  {| file_path := file_path; default_file := default_file; home_value := None; asked := 0 |}.

(** [get_request_executor]: the name of the file. *)
Definition get_request_executor (path : bytes) (s : PathOverSshContentSource) : bytes :=
  if decide (path = bs "/") then
    match default_file s with
    | Some default_file => file_path s ++ bs "/" ++ default_file
    | None => file_path s ++ path
    end
  else file_path s ++ path.

Definition NOT_FOUND_CODE : Z := -28.

Section Execute.
Context `{FileLibs} (session : Session).

(** The answer to a download. *)
Definition downloaded (file_path : bytes) : RequestExecutorResult + SshSessionError :=
  match download_remote_file session file_path with
  | inl content => inl {| rer_status_code := 200; rer_content_type := detect_by_extension file_path; rer_body := content |}
  | inr err =>
      match err with
      | SshSessionCode value =>
          if value =? NOT_FOUND_CODE then inl {| rer_status_code := 404; rer_content_type := None; rer_body := bs "Not found" |}
          else inr err
      | OtherSshError _ => inr err
      end
  end.

(** [execute_request] *)
Definition ssh_execute_request (file_path : bytes) (s : PathOverSshContentSource) :
    PathOverSshContentSource * (RequestExecutorResult + SshSessionError) :=
  if decide (TILDE ∈ file_path) then
    match home_value s with
    | Some value => (s, downloaded (replace_tilde file_path value))
    | None =>
        let s' value := {| file_path := SshContent.file_path s; default_file := default_file s; home_value := value; asked := S (asked s) |} in
        match echo_home session (asked s) with
        | inl home => let value := Str.trim home in (s' (Some value), downloaded (replace_tilde file_path value))
        | inr err => (s' None, inr err)
        end
    end
  else (s, downloaded file_path).

(** [execute] for one request after the other. *)
Definition execute (path : bytes) (s : PathOverSshContentSource) :
    PathOverSshContentSource * (RequestExecutorResult + SshSessionError) :=
  ssh_execute_request (get_request_executor path s) s.

Fixpoint serve (paths : list bytes) (s : PathOverSshContentSource) :
    PathOverSshContentSource * list (RequestExecutorResult + SshSessionError) :=
  match paths with
  | [] => (s, [])
  | path :: paths => let '(s, r) := execute path s in let '(s, l) := serve paths s in (s, r :: l)
  end.

Lemma replace_tilde_none s home : TILDE ∉ s -> replace_tilde s home = s.
Proof.
  unfold replace_tilde. induction s as [|b s IH]; intros Hs; [done|]. apply not_elem_of_cons in Hs as [Hb Hs]. cbn.
  rewrite decide_False by congruence. cbn. by rewrite IH.
Qed.

Lemma serve_known paths s home :
  home_value s = Some home \/ (home_value s = None /\ exists text, echo_home session (asked s) = inl text /\ home = Str.trim text) ->
  snd (serve paths s) = map (fun path => downloaded (replace_tilde (get_request_executor path s) home)) paths /\
  (asked (fst (serve paths s)) <= asked s + match home_value s with Some _ => 0 | None => 1 end)%nat.
Proof.
  revert s. induction paths as [|path paths IH]; intros s Hhome; [split; [done|cbn; case_match; lia]|]. cbn.
  unfold execute, ssh_execute_request. case_decide as Ht.
  - destruct Hhome as [Hk|(Hk & text & He & ->)]; rewrite Hk.
    + destruct (serve paths s) as [s2 l] eqn:E. destruct (IH s (or_introl Hk)) as [Hl Ha]. rewrite E, Hk in *. cbn in *. by rewrite Hl.
    + rewrite He. match goal with |- context [serve paths ?x] => set (s' := x) end.
      destruct (serve paths s') as [s2 l] eqn:E. destruct (IH s' (or_introl eq_refl)) as [Hl Ha]. rewrite E in *. cbn in *.
      rewrite Hl. split; [done|lia].
  - destruct (serve paths s) as [s2 l] eqn:E. destruct (IH s Hhome) as [Hl Ha]. rewrite E in *. cbn in *.
    rewrite Hl. split; [|exact Ha]. by rewrite replace_tilde_none.
Qed.

End Execute.

(** A folder behind SSH serves the file that the request names.  When the
    machine tells its home directory the first time it is asked, each answer
    is the download of the folder's name with the path of the request behind
    it, or of the default file for [/], every [~] being this home directory:
    status 200 with the content, 404 for a file that is not there, and an
    error otherwise; and the machine is asked at most once. *)
Theorem ssh_files_are_served `{FileLibs} (session : Session) (paths : list bytes) (folder : bytes)
    (default : option bytes) (home : bytes) (Hhome : echo_home session 0 = inl home) :
  let '(s, results) := serve session paths (ssh_source_new folder default) in
  (asked s <= 1)%nat /\
  results = map (fun path =>
    let name := replace_tilde (folder ++ match default with
                                         | Some file => if decide (path = bs "/") then bs "/" ++ file else path
                                         | None => path
                                         end) (Str.trim home) in
    match download_remote_file session name with
    | inl content => inl {| rer_status_code := 200; rer_content_type := detect_by_extension name; rer_body := content |}
    | inr (SshSessionCode code) =>
        if code =? NOT_FOUND_CODE then inl {| rer_status_code := 404; rer_content_type := None; rer_body := bs "Not found" |}
        else inr (SshSessionCode code)
    | inr err => inr err
    end) paths.
Proof.
  destruct (serve_known session paths (ssh_source_new folder default) (Str.trim home)) as [Hl Ha]; [right; eauto|].
  destruct (serve _ _ _) as [s results]. cbn in *. split; [lia|]. rewrite Hl. apply map_ext. intros path.
  unfold downloaded, get_request_executor. cbn. destruct default; case_decide; repeat case_match; congruence.
Qed.

(** ** Witness *)

Definition demo_session : Session :=
  {| echo_home := fun _ => inl (bs "/home/me
"); download_remote_file := fun name => if decide (name = bs "/home/me/www/a.txt") then inl (bs "hello") else inr (SshSessionCode (-28)) |}.

Lemma ssh_files_are_served_witness :
  snd (serve (H := demo_files) demo_session [bs "/a.txt"; bs "/"] (ssh_source_new (bs "~/www") None)) =
    [inl {| rer_status_code := 200; rer_content_type := @detect_by_extension demo_files (bs "/home/me/www/a.txt"); rer_body := bs "hello" |};
     inl {| rer_status_code := 404; rer_content_type := None; rer_body := bs "Not found" |}].
Proof.
  pose proof (ssh_files_are_served (H := demo_files) demo_session [bs "/a.txt"; bs "/"] (bs "~/www") None _ eq_refl) as H.
  destruct (serve _ _ _) as [s results]. destruct H as [_ ->]. vm_compute. reflexivity.
Defined.

(** A [~] of the request is replaced too, and the folder is no boundary. *)
Lemma request_names_any_file `{FileLibs} session folder content :
  TILDE ∉ folder -> download_remote_file session (folder ++ bs "/../../etc/passwd") = inl content ->
  snd (execute session (bs "/../../etc/passwd") (ssh_source_new folder None)) =
    inl {| rer_status_code := 200; rer_content_type := detect_by_extension (folder ++ bs "/../../etc/passwd"); rer_body := content |}.
Proof.
  intros Hf Hd. unfold execute, ssh_execute_request, get_request_executor. rewrite (decide_False (P := bs "/../../etc/passwd" = bs "/")) by discriminate.
  cbn [file_path ssh_source_new]. rewrite decide_False.
  - unfold downloaded. cbn [snd]. by rewrite Hd.
  - rewrite elem_of_app. intros [?|Hin]; [done|]. vm_compute in Hin.
    repeat (apply elem_of_cons in Hin as [?|Hin]; [discriminate|]). by apply not_elem_of_nil in Hin.
Qed.

End SshContent.
